(* ===== verification/_CoqProject ===== *)
-Q . S2P
Prelude.v
Leb128.v
Text.v
Utf8.v
FieldType.v
FieldValue.v
FieldValueRef.v
Schema.v
Codec.v
Decoder.v
EventEncoder.v
Encoder.v
Stream.v
Resume.v
Derive.v
TypeSlot.v
Format.v
Sealed.v
MemRing.v
Wakeup.v
SegmentFs.v
DiskFs.v
SegmentWriter.v
Segments.v
TlBuffer.v
FlushLoop.v
Recording.v
Dump.v
Worker.v
Triggered.v
Drain.v
Lifecycle.v
F64.v
SamplingStore.v
SamplingConfig.v
Census.v
Roster.v
Election.v
TraceWeights.v
Observation.v
Startup.v
Registration.v
Unwind.v
SampleBuffer.v
Paths.v
ObjectKeys.v
Storage.v
SourceLayout.v
Browse.v
LayoutHints.v
Uploader.v
PartKeys.v
Fold.v
Refine.v
