(* ===== verification/Prelude.v ===== *)
(** * Dial9: a verification library for the dial9 telemetry toolchain

    Dial9 records runtime telemetry of Rust programs: threads encode events
    into batches, a flush thread writes the batches into trace segments, and a
    worker takes sealed segments through a pipeline (compression, upload).  The
    segments are streams of a self-describing binary format that any reader can
    decode.  This library models the format (src/dial9-trace-format and its
    derive macro), the recording bus (src/dial9-core), the sampling protocol
    (src/dial9-sampling), the core of the profiler (src/perf-self-profile) and
    the names of uploaded objects and the browser that lists them
    (src/dial9-destinations-s3, src/dial9-viewer) from the source, in executable definitions, and proves
    what makes them correct.

    ** Parts, and where they are

    The trace format:
    - Leb128 (leb128.rs), Utf8 (the std functions on UTF-8 the format calls),
      FieldType, FieldValue, FieldValueRef, EventEncoder (types.rs), Schema
      (schema.rs), Codec (codec.rs), Decoder (decoder.rs), Encoder (encoder.rs);
    - Stream: an encoder and a decoder of the same stream; Resume: continuing a
      decoded stream ([Decoder::into_encoder], [Encoder::from_decoder]);
    - Derive and TypeSlot: what [#[derive(TraceEvent)]] accepts and generates
      (dial9-trace-format-derive/src/lib.rs), and the claim of a type slot by
      concurrent threads.

    The recording bus (dial9-core/src):
    - Format (format.rs), Sealed (sealed.rs): the bus's own events, segment
      names, creation times;
    - TlBuffer (encoder.rs): a thread's buffer and its encoder handle;
    - FlushLoop (collector.rs, shared_state.rs, flush_loop.rs): the queue of
      batches, the recording lifecycle, the drain state machine, turns and runs
      of the flush thread;
    - SegmentWriter (buffer.rs): rotation, sealing, eviction, metadata, over
      any backend of the class SegmentFs.SegmentFs; Segments: whole runs of it;
      Recording: the flush loop and the writer together;
    - MemRing, Wakeup (fs/mem.rs, fs/mod.rs) and DiskFs (fs/disk.rs): the two
      backends, and how a parked worker is woken;
    - Dump (dump.rs) and Worker (worker/mod.rs): on-trigger dumps and their
      debounce gate, a pass over taken segments, the drain of the continuous
      worker; Triggered and Drain: the loop of the triggered worker and its
      drains; Lifecycle (worker/state.rs, pipeline.rs): start-up, status and
      end of a worker.

    Sampling, which decides what processes of a pool record
    (dial9-sampling/src):
    - Text and F64: the std functions on strings and floats it calls;
      SamplingStore (backend.rs): the store;
    - SamplingConfig (object_key.rs, protocol/mod.rs, protocol/census.rs):
      configuration, draws, timing, object keys; Census (protocol/census.rs):
      the estimate of a window's population from a listing;
    - Roster (protocol/engine.rs): the object a pool shares, its validation and
      updates, the cache of a process; Election: the controller of a process
      (election, a leader's pass, a write and its readback) and any number of
      processes around a store;
    - Observation (protocol/observation.rs): the driver that reports a process
      and applies thinning, and its tasks; TraceWeights (trace_weights.rs): what
      a trace stands for; Startup (lib.rs, prepare_using in protocol/engine.rs):
      whether a process records; Registration (registration.rs): the recorders
      that are turned off.

    The profiler's core (perf-self-profile/src):
    - Unwind (unwinder.rs, sys/linux/fp_profiler/unwind.rs): the walk of a
      thread's frame pointers; SampleBuffer (sample_buffer.rs): the lock-free
      ring between the signal handlers of all threads and the drain thread.

    The upload and the viewer (dial9-destinations-s3/src, dial9-viewer/src):
    - Paths: the std functions on paths they call, the calendar of the [time]
      crate as a class; ObjectKeys (s3.rs, segment_object_key.rs;
      segment_object_key_parser.rs, segment_object_key_codec.rs,
      source_key_scope.rs): the keys an uploader writes and the viewer reads;
    - Uploader (s3.rs, connection.rs): the stage of the pipeline that uploads
      segments and the manifests of dumps, its circuit breaker;
    - Storage (storage.rs, storage/s3.rs): the viewer's view of a bucket and the
      S3 backend; SourceLayout (source_layout.rs): the days of a window, the
      services in them, their layouts; Browse (server/browse.rs, services.rs):
      the handlers that list segments and services; LayoutHints: the hints a
      client carries from one to the other;
    - PartKeys (ingest/aggregate.rs): where the parts of a folded file are kept,
      which files a query selects and their order; Fold: any number of
      concurrent folds with their locks, semaphores, blocking decoders, puts and
      cancellations; Refine (ingest/refine.rs): how a query's window becomes
      listings, what it matches, what of it is folded and what is left to fold.

    Data flow as the code does: TlBuffer -> FlushLoop -> SegmentWriter ->
    MemRing or DiskFs -> Worker; every step hands over batches or segments
    whose bytes Stream and Segments decode.

    ** How the code is modelled

    A struct is a record in a Module of its name, an enum an inductive type, a
    method a definition of its name; state is passed explicitly, [&mut self]
    methods that fail keep the changes they made.  A machine integer is an
    integer with its wrap-around, saturation or check written out ([wrapping_add],
    [cast], [checked_add] below); lengths of slices are [blen]; a hash map is a
    finite map, an f64 its bit pattern, a string its UTF-8 bytes, an [Arc] its
    address.  An [io::Error] keeps the kind the code looks at.  Clocks, file
    times, what other threads do and what a pipeline stage answers are
    arguments.  Behaviour under interleaving is a step relation: [step] in
    MemRing, [wait_step] in Wakeup, the threads of TypeSlot; or a list of
    events: [happen] in Lifecycle, [step] in Election, [turn] in Observation,
    [next] in Fold; or of atomic operations: [step] in SampleBuffer, whose memory is sequentially
    consistent.

    ** What is proved

    - round trips: a stream decodes to what was written, also when batches are
      concatenated and when a decoded stream is continued (Stream, Resume); of
      values, frames, integers (FieldValue, Codec, Leb128); every batch a
      thread hands over and every segment sealed decodes (TlBuffer, Segments);
      segment names and the life of a segment on disk (Sealed, DiskFs);
    - the decoder against hostile input: totality by construction, truncation,
      frame boundaries, the owned and the zero-copy decoder against each other
      (Decoder, Codec, FieldValueRef);
    - nothing is lost unnoticed: conservation of batches in the flush loop and
      in the writer and the two composed (FlushLoop, Segments, Recording), of
      segments in the ring and its gauges under interleaving (MemRing), of a
      segment's completeness mark (Segments), restart and eviction on disk
      (DiskFs);
    - liveness and termination: a due drain completes in two turns, the last
      turn finishes the trace (FlushLoop), no wakeup is lost (Wakeup), the
      worker's last drain terminates whatever the stages do (Worker), the fuel
      of the decoders is enough (FieldValue, Decoder);
    - requests for dumps: each is answered once, for the passes of its window,
      also when the worker is stopped or its pipeline fails (Triggered, Drain);
      what a reader of the worker's status can see (Lifecycle);
    - sampling: keys of pools, channels and windows apart, reports read back
      exactly, a census only of closed windows (SamplingConfig), independent of
      paging (Census); valid rosters and a cache that only moves forward
      (Roster); no lost update and no window assessed twice under any
      interleaving of processes, late writes and crashes (Election); a startup
      that always decides, with the weight its probability demands (Startup);
      each process counted once a window, in time and in a form the census
      takes, thinned once by each order (Observation), its weight in the trace
      (TraceWeights); no recorder left on (Registration);
    - the profiler: a ring slot has one owner at a time, samples are drained
      once and in order, drops are counted and justified, a claim is bounded, a
      drain catches up (SampleBuffer); the walk of a stack is the chain of its
      plausible frames (Unwind);
    - object keys: the viewer reads back whatever the uploader put into a key,
      and no two segments share one (ObjectKeys);
    - uploading: a file is removed only after a confirmed put, a manifest lists
      its dump's objects, attempts are paced (Uploader);
    - browsing: a segment of the window is in an answer that is not marked as
      truncated, nothing is in it twice (Browse), and a hint of an earlier
      answer decides as discovery would have (LayoutHints);
    - folding and queries: a file's marker is its last part, folds of one file
      exclude each other and end (Fold), a query finds the segments of its scope
      and leaves nothing to fold once its work is done (Refine);
    - bounds and policies: the adaptive period (SegmentWriter), the debounce
      gate (Dump), what a dump's receipt counts and spans (Worker), metadata
      merging (SegmentWriter), type slots (TypeSlot), what the derive macro
      promises the encoder (Derive);
    - behaviour that is surprising, with its proof: failed_rotate_spins,
      zero_min_period_sticks (SegmentWriter), name_clash_poisons (TlBuffer),
      non_utf8_directory (DiskFs), budget_overshoot (MemRing),
      reannounced_schema_conflicts (Resume), nested_option_misread
      (EventEncoder), list_with_none_undecodable (FieldValue),
      invalid_utf8_divergence (FieldValueRef), event_step_wraps (Decoder),
      decoders_exceed_permits, registry_entry_left (Fold).

    ** Fuel and bounds

    The value decoder nests at most 68 calls (decode_fuel_enough); the frame
    loops consume input, so one round per remaining byte is enough; the pop
    loop of a flush gets one round per batch queued or arriving
    (write_batches_end); the worker's drain gets the retries left in the ring
    (memory_drain_terminates); the walk of a stack one turn per frame of its
    buffer and one more (unwind_follows_chain).  SampleBuffer assumes fewer than
    2^63 samples.  Lemmas about lengths assume what the machine
    guarantees: fewer than 2^64 bytes or segments.

    ** Not modelled

    Logging, metrics and their rate limits; thread spawning and joining; the
    buffering inside [BufWriter]; I/O errors the code does not tell apart.  Of
    dial9-core: the recorder and its handles, the built-in processors, boot
    identifiers; of the format: the serde reader (de.rs); of dial9-sampling: the
    tokio runtime and the shutdown of the session's task, the S3 store.  The other
    crates: dial9-tokio-telemetry (tokio hooks), dial9-metrique, most of
    perf-self-profile (system calls), the network side of dial9-destinations-s3,
    in dial9-viewer the decoding of traces into Parquet parts (a parameter of
    Fold) and their analysis, macros and utilities.  Third-party code is a
    parameter with its laws where a theorem needs it (the [Notify] class in
    Wakeup, [Ulid], [Draws] (SHA-256), [Json] and [Versions] (object versions)
    in SamplingConfig and Roster, [Calendar] in Paths, [S3Client] in Storage, [Arrival] and
    [HintJson] in SourceLayout, [Blake3] in PartKeys, the period estimate in SegmentWriter, the text of a location in
    TlBuffer and of a dump id in Worker). *)

From Stdlib Require Import ZArith Lia.
From stdpp Require Import base list gmap strings option.
From coqutil Require Import Byte Word.LittleEndianList.

#[global] Open Scope Z_scope.

(** coqutil withdraws these instances when it is loaded; setoid rewriting with
    permutations needs them. *)
#[global] Existing Instances Permutation.Permutation_cons Permutation.Permutation_app'.

(** ** Bytes, machine integers and lengths *)

Abbreviation bytes := (list byte).

(** The numeric value of a byte, and the byte a [as u8] cast gives. *)
Abbreviation b2z := byte.unsigned.
Abbreviation z2b := byte.of_Z.

(** [x.len() as u64]/[usize]: the length of a slice as an integer. *)
Definition blen {A} (l : list A) : Z := Z.of_nat (length l).

(** [v] is a value of the unsigned [w]-bit type. *)
Definition fits (w v : Z) : Prop := 0 <= v < 2 ^ w.

(** [v as uN]: the cast keeps the low [w] bits. *)
Definition cast (w v : Z) : Z := v mod 2 ^ w.

#[global] Instance fits_dec w v : Decision (fits w v).
Proof. unfold fits. apply _. Defined.

(** [a.wrapping_add(b)], which is also [a + b] in a release build. *)
Definition wrapping_add (w a b : Z) : Z := cast w (a + b).

(** [a.checked_add(b)]. *)
Definition checked_add (w a b : Z) : option Z :=
  if a + b <? 2 ^ w then Some (a + b) else None.

(** [a.checked_sub(b)]. *)
Definition checked_sub (a b : Z) : option Z :=
  if b <=? a then Some (a - b) else None.

(** [a.checked_mul(b)]. *)
Definition checked_mul (w a b : Z) : option Z :=
  if a * b <? 2 ^ w then Some (a * b) else None.

(** [a.saturating_add(b)], [a.saturating_sub(b)], [a.saturating_mul(b)]. *)
Definition saturating_add (w a b : Z) : Z := Z.min (a + b) (2 ^ w - 1).

Definition saturating_sub (a b : Z) : Z := Z.max 0 (a - b).

Definition saturating_mul (w a b : Z) : Z := Z.min (a * b) (2 ^ w - 1).

(** A [Duration] is its nanoseconds; a second, [Duration::MAX]. *)
Definition SECOND : Z := 1000000000.
Definition DURATION_MAX : Z := 2 ^ 64 * SECOND - 1.

(** Two's complement: the signed value of the [w]-bit pattern [v]. *)
Definition to_signed (w v : Z) : Z := if v <? 2 ^ (w - 1) then v else v - 2 ^ w.

(** [v] is a value of the signed [w]-bit type. *)
Definition fits_signed (w v : Z) : Prop := - 2 ^ (w - 1) <= v < 2 ^ (w - 1).

#[global] Instance fits_signed_dec w v : Decision (fits_signed w v).
Proof. unfold fits_signed. apply _. Defined.

#[global] Instance byte_eq_dec : EqDecision byte.
Proof. intros a b. destruct (Byte.byte_eq_dec a b); [by left | by right]. Defined.

#[global] Instance byte_countable : Countable byte.
Proof.
  refine (inj_countable' Byte.to_N (fun n => default Byte.x00 (Byte.of_N n)) _).
  intros b. by rewrite Byte.of_to_N.
Defined.

(** A Rust string literal as its UTF-8 bytes (the literals used are ASCII). *)
Definition lit (s : string) : bytes := String.list_byte_of_string s.

Arguments lit s%_string_scope.

(** [Result<T, E>]. *)
Inductive result (T E : Type) : Type :=
| Ok (v : T)
| Err (e : E).

Arguments Ok {T E} v.
Arguments Err {T E} e.

(** ** Byte cursors

    [data] together with [pos] in the Rust decoders is the suffix
    [data[pos..]]; [data.get(pos..pos + n)?; pos += n] is [take_bytes n]. *)

Definition parser (A : Type) : Type := bytes → option (A * bytes).

Definition pret {A} (x : A) : parser A := fun d => Some (x, d).

Definition pfail {A} : parser A := fun _ => None.

Definition pbind {A B} (p : parser A) (q : A → parser B) : parser B :=
  fun d => match p d with Some (x, r) => q x r | None => None end.

(** [e?] for an [Option] that reads no input. *)
Definition plift {A} (o : option A) : parser A :=
  fun d => match o with Some x => Some (x, d) | None => None end.

Definition pguard (b : bool) : parser unit :=
  fun d => if b then Some (tt, d) else None.

Declare Scope parser_scope.
Delimit Scope parser_scope with parser.
Notation "x <~ p ;; q" := (pbind p (fun x => q))
  (at level 100, p at next level, right associativity) : parser_scope.
Notation "p ;;; q" := (pbind p (fun _ => q))
  (at level 100, right associativity) : parser_scope.

Definition take_bytes (n : Z) : parser bytes :=
  fun d => if (0 <=? n) && (n <=? blen d)
           then Some (take (Z.to_nat n) d, drop (Z.to_nat n) d) else None.

(** [*data.get(pos)?; pos += 1]. *)
Definition get_byte : parser byte :=
  fun d => match d with b :: r => Some (b, r) | [] => None end.

(** [uN::from_le_bytes(data.get(pos..pos + n)?.try_into().ok()?)]. *)
Definition get_le (n : nat) : parser Z :=
  pbind (take_bytes (Z.of_nat n)) (fun b => pret (le_combine b)).

(** [v.to_le_bytes()] for an [n]-byte integer. *)
Definition put_le (n : nat) (v : Z) : bytes := le_split n v.

(** [for _ in 0..count { items.push(p()?) }]. *)
Fixpoint get_many {A} (p : parser A) (n : nat) : parser (list A) :=
  match n with
  | O => pret []
  | S n => pbind p (fun x => pbind (get_many p n) (fun xs => pret (x :: xs)))
  end.

(** The law every decoder of this development obeys: a successful parse
    consumes exactly some prefix [c] of its input, and its result depends on
    nothing behind [c].  Both "never reads past what it consumes" and
    "a longer input decodes the same frame" follow. *)
Class Local {A} (p : parser A) : Prop :=
  local_parse : ∀ d x r, p d = Some (x, r) →
    ∃ c, d = c ++ r ∧ ∀ e, p (c ++ e) = Some (x, e).

(** A law for the encoders: the parser inverts what was written, whatever
    follows it. *)
Class Inverts {A} (p : parser A) (w : bytes) (x : A) : Prop :=
  inverts : ∀ r, p (w ++ r) = Some (x, r).

(** ** Automation *)

Create HintDb dial9 discriminated.
Create Rewrite HintDb dial9.

(** Case analysis on the scrutinee of the first [match] in sight. *)
Ltac destruct_match :=
  match goal with
  | |- context [match ?x with _ => _ end] => destruct x eqn:?
  | H : context [match ?x with _ => _ end] |- _ => destruct x eqn:?
  end.

(** Boolean tests on integers as propositions, everywhere. *)
Ltac bool_facts :=
  repeat match goal with
  | H : _ && _ = true |- _ => apply andb_true_iff in H; destruct H
  | H : _ && _ = false |- _ => apply andb_false_iff in H
  | H : _ || _ = true |- _ => apply orb_true_iff in H
  | H : _ || _ = false |- _ => apply orb_false_iff in H; destruct H
  | H : negb _ = true |- _ => apply negb_true_iff in H
  | H : negb _ = false |- _ => apply negb_false_iff in H
  | H : (_ <=? _) = true |- _ => apply Z.leb_le in H
  | H : (_ <=? _) = false |- _ => apply Z.leb_gt in H
  | H : (_ <? _) = true |- _ => apply Z.ltb_lt in H
  | H : (_ <? _) = false |- _ => apply Z.ltb_ge in H
  | H : (_ >? _) = true |- _ => rewrite Z.gtb_ltb in H; apply Z.ltb_lt in H
  | H : (_ >? _) = false |- _ => rewrite Z.gtb_ltb in H; apply Z.ltb_ge in H
  | H : (_ >=? _) = true |- _ => rewrite Z.geb_leb in H; apply Z.leb_le in H
  | H : (_ >=? _) = false |- _ => rewrite Z.geb_leb in H; apply Z.leb_gt in H
  | H : (_ =? _) = true |- _ => apply Z.eqb_eq in H
  | H : (_ =? _) = false |- _ => apply Z.eqb_neq in H
  | H : bool_decide _ = true |- _ => apply bool_decide_eq_true in H
  | H : bool_decide _ = false |- _ => apply bool_decide_eq_false in H
  end.

(** Decide the integer test of every [if] in the goal by [lia], or split. *)
Ltac split_tests :=
  repeat match goal with
  | |- context [?a <=? ?b] => destruct (Z.leb_spec a b)
  | |- context [?a <? ?b] => destruct (Z.ltb_spec a b)
  | |- context [?a =? ?b] => destruct (Z.eqb_spec a b)
  end.

Ltac zlia := unfold fits, blen in *; lia.

(** ** Lengths and casts *)

Lemma blen_nil {A} : blen (@nil A) = 0.
Proof. done. Qed.

Lemma blen_cons {A} (x : A) l : blen (x :: l) = 1 + blen l.
Proof. unfold blen. simpl. lia. Qed.

Lemma blen_app {A} (l k : list A) : blen (l ++ k) = blen l + blen k.
Proof. unfold blen. rewrite length_app. lia. Qed.

Lemma blen_nonneg {A} (l : list A) : 0 <= blen l.
Proof. unfold blen. lia. Qed.

Lemma blen_0 {A} (l : list A) : blen l <= 0 → l = [].
Proof. destruct l; [done|]. rewrite blen_cons. pose proof (blen_nonneg l). lia. Qed.

Lemma blen_fmap {A B} (f : A → B) (l : list A) : blen (f <$> l) = blen l.
Proof. unfold blen. by rewrite length_fmap. Qed.

Lemma to_nat_blen {A} (l : list A) : Z.to_nat (blen l) = length l.
Proof. unfold blen. lia. Qed.

Lemma cast_fits w v : 0 <= w → fits w (cast w v).
Proof. intros. apply Z.mod_pos_bound, Z.pow_pos_nonneg; lia. Qed.

Lemma cast_id w v : fits w v → cast w v = v.
Proof. intros. by apply Z.mod_small. Qed.

Lemma wrapping_add_small w a b : fits w (a + b) → wrapping_add w a b = a + b.
Proof. apply cast_id. Qed.

Lemma fits_le w w' v : w <= w' → fits w v → fits w' v.
Proof.
  unfold fits. intros Hw [? Hv]. split; [done|].
  eapply Z.lt_le_trans; [done|]. apply Z.pow_le_mono_r; lia.
Qed.

Lemma b2z_fits b : fits 8 (b2z b).
Proof. apply byte.unsigned_range. Qed.

Lemma b2z_z2b v : fits 8 v → b2z (z2b v) = v.
Proof. intros. rewrite byte.unsigned_of_Z. by apply cast_id. Qed.

Lemma length_put_le n v : length (put_le n v) = n.
Proof. apply length_le_split. Qed.

Lemma blen_put_le n v : blen (put_le n v) = Z.of_nat n.
Proof. unfold blen. by rewrite length_put_le. Qed.

#[export] Hint Rewrite @blen_nil @blen_cons @blen_app @blen_fmap @blen_put_le
  @to_nat_blen : dial9.
#[export] Hint Rewrite <- @app_assoc @app_comm_cons : dial9.
#[export] Hint Rewrite @app_nil_l : dial9.
#[export] Hint Resolve b2z_fits : dial9.

(** ** The parser laws *)

Section parsers.
Context {A B : Type}.

#[global] Instance pret_local (x : A) : Local (pret x).
Proof. intros d y r [= -> ->]. by exists []. Qed.

#[global] Instance pfail_local : Local (@pfail A).
Proof. intros d y r [=]. Qed.

#[global] Instance plift_local (o : option A) : Local (plift o).
Proof. intros d y r. unfold plift. destruct o; intros [= -> ->]. by exists []. Qed.

#[global] Instance pbind_local (p : parser A) (q : A → parser B) :
  Local p → (∀ x, Local (q x)) → Local (pbind p q).
Proof.
  intros Hp Hq d y r. unfold pbind.
  destruct (p d) as [[x r1]|] eqn:E; [|done]. intros Hy.
  apply Hp in E as (c1 & -> & H1). apply Hq in Hy as (c2 & -> & H2).
  exists (c1 ++ c2). split; [by rewrite app_assoc|].
  intros e. by rewrite <- app_assoc, H1, H2.
Qed.

Lemma pbind_inverts (p : parser A) (q : A → parser B) w x r :
  Inverts p w x → pbind p q (w ++ r) = q x r.
Proof. intros H. unfold pbind. by rewrite H. Qed.

Lemma inverts_local (p : parser A) w x : Local p → p w = Some (x, []) → Inverts p w x.
Proof.
  intros Hp Hw r. apply Hp in Hw as (c & Hc & He).
  rewrite app_nil_r in Hc. subst c. apply He.
Qed.

Lemma local_suffix (p : parser A) d x r : Local p → p d = Some (x, r) → r `suffix_of` d.
Proof. intros Hp H. apply Hp in H as (c & -> & _). by exists c. Qed.

Lemma local_extend (p : parser A) d x r e :
  Local p → p d = Some (x, r) → p (d ++ e) = Some (x, r ++ e).
Proof. intros Hp H. apply Hp in H as (c & -> & He). by rewrite <- app_assoc, He. Qed.
End parsers.

#[global] Instance pguard_local b : Local (pguard b).
Proof. intros d x r. unfold pguard. destruct b; intros [= <- ->]. by exists []. Qed.

Lemma take_bytes_spec n d x r :
  take_bytes n d = Some (x, r) ↔ d = x ++ r ∧ blen x = n.
Proof.
  unfold take_bytes. split.
  - destruct_match; [|done]. bool_facts. intros [= <- <-].
    split; [by rewrite take_drop|]. unfold blen in *. rewrite length_take. lia.
  - intros [-> Hn]. pose proof (blen_nonneg x). pose proof (blen_nonneg r).
    rewrite blen_app, <- Hn.
    replace ((0 <=? blen x) && (blen x <=? blen x + blen r)) with true
      by (symmetry; apply andb_true_iff; split; apply Z.leb_le; lia).
    by rewrite to_nat_blen, take_app_length, drop_app_length.
Qed.

#[global] Instance take_bytes_local n : Local (take_bytes n).
Proof.
  intros d x r H. apply take_bytes_spec in H as [-> Hn].
  exists x. split; [done|]. intros e. by apply take_bytes_spec.
Qed.

#[global] Instance take_bytes_inverts w : Inverts (take_bytes (blen w)) w w.
Proof. intros r. by apply take_bytes_spec. Qed.

Lemma take_bytes_app w r n : blen w = n → take_bytes n (w ++ r) = Some (w, r).
Proof. intros. by apply take_bytes_spec. Qed.

#[global] Instance get_byte_local : Local get_byte.
Proof. intros d x r. destruct d as [|b d]; intros [= -> ->]. by exists [x]. Qed.

#[global] Instance get_byte_inverts b : Inverts get_byte [b] b.
Proof. by intros r. Qed.

#[global] Instance get_le_local n : Local (get_le n).
Proof. apply _. Qed.

Lemma get_le_spec n d v r :
  get_le n d = Some (v, r) ↔
  ∃ w, d = w ++ r ∧ length w = n ∧ le_combine w = v.
Proof.
  unfold get_le, pbind, pret. split.
  - destruct_match; [|done]. destruct p as [w r1].
    intros [= <- <-]. apply take_bytes_spec in Heqo as [-> Hw].
    exists w. unfold blen in Hw. split; [done|]. split; [lia|done].
  - intros (w & -> & Hn & <-). rewrite (take_bytes_app w r); [done|zlia].
Qed.

Lemma get_le_fits n d v r : get_le n d = Some (v, r) → fits (8 * Z.of_nat n) v.
Proof.
  intros H. apply get_le_spec in H as (w & _ & <- & <-). apply le_combine_bound.
Qed.

(** [uN::from_le_bytes(v.to_le_bytes()) == v]. *)
Lemma get_put_le n v r :
  fits (8 * Z.of_nat n) v → get_le n (put_le n v ++ r) = Some (v, r).
Proof.
  intros Hv. apply get_le_spec. exists (put_le n v).
  split; [done|]. split; [apply length_put_le|].
  unfold put_le. rewrite le_combine_split, Z.mul_comm. by apply cast_id.
Qed.

(** What was written with [to_le_bytes] after an [as] cast comes back cast. *)
Lemma get_put_le_cast n v r :
  get_le n (put_le n v ++ r) = Some (cast (8 * Z.of_nat n) v, r).
Proof.
  apply get_le_spec. exists (put_le n v).
  split; [done|]. split; [apply length_put_le|].
  unfold put_le, cast. rewrite le_combine_split. f_equal. f_equal. lia.
Qed.

#[global] Instance get_many_local {A} (p : parser A) n :
  Local p → Local (get_many p n).
Proof. intros Hp. induction n; simpl; apply _. Qed.

(** A list written item by item is read back item by item. *)
Lemma get_many_inverts {A} (p : parser A) (put : A → bytes) l r :
  (∀ x, x ∈ l → Inverts p (put x) x) →
  get_many p (length l) (concat (put <$> l) ++ r) = Some (l, r).
Proof.
  induction l as [|x l IH]; intros H; [done|].
  rewrite fmap_cons. cbn [length get_many concat]. rewrite <- app_assoc.
  rewrite (pbind_inverts _ _ _ x) by (apply H; set_solver).
  unfold pbind. rewrite IH by (intros; apply H; set_solver). done.
Qed.

(** A list is refused when an item behind readable ones is. *)
Lemma get_many_app_inverts_fail {A} (p : parser A) (put : A → bytes) l n bad :
  (∀ x, x ∈ l → Inverts p (put x) x) → p bad = None →
  get_many p (length l + S n) (concat (map put l) ++ bad) = None.
Proof.
  intros Hl Hbad. induction l as [|x l IH].
  - cbn. unfold pbind. by rewrite Hbad.
  - cbn [length plus get_many map concat]. rewrite <- app_assoc.
    rewrite (pbind_inverts _ _ _ x) by (apply Hl; set_solver).
    unfold pbind. by rewrite IH by (intros; apply Hl; set_solver).
Qed.

Lemma get_many_length {A} (p : parser A) n d l r :
  get_many p n d = Some (l, r) → length l = n.
Proof.
  revert d l r. induction n as [|n IH]; intros d l r; simpl; [by intros [= <- <-]|].
  unfold pbind, pret. destruct (p d) as [[x r1]|]; [|done].
  destruct (get_many p n r1) as [[xs r2]|] eqn:E; [|done].
  intros [= <- <-]. simpl. f_equal. by eapply IH.
Qed.

(** Every item a loop read satisfies what a single read guarantees. *)
Lemma get_many_forall {A} (P : A → Prop) (p : parser A) n d l r :
  (∀ d x r, p d = Some (x, r) → P x) →
  get_many p n d = Some (l, r) → Forall P l.
Proof.
  intros Hp. revert d l r.
  induction n as [|n IH]; intros d l r; simpl; [by intros [= <- <-]|].
  unfold pbind, pret. destruct (p d) as [[x r1]|] eqn:Ex; [|done].
  destruct (get_many p n r1) as [[xs r2]|] eqn:E; [|done].
  intros [= <- <-]. constructor; eauto.
Qed.

Lemma local_len {A} (p : parser A) d x r :
  Local p → p d = Some (x, r) → blen r <= blen d.
Proof.
  intros Hp H. apply Hp in H as (c & -> & _). rewrite blen_app.
  pose proof (blen_nonneg c). lia.
Qed.

(** The same for a guarantee that depends on how much input there is. *)
Lemma get_many_forall_le {A} (P : A → Prop) (p : parser A) n d l r :
  Local p → (∀ d' x r', blen d' <= blen d → p d' = Some (x, r') → P x) →
  get_many p n d = Some (l, r) → Forall P l.
Proof.
  intros Hl. revert d l r.
  induction n as [|n IH]; intros d l r Hp; simpl; [by intros [= <- <-]|].
  unfold pbind, pret. destruct (p d) as [[x r1]|] eqn:Ex; [|done].
  destruct (get_many p n r1) as [[xs r2]|] eqn:E; [|done].
  intros [= <- <-]. pose proof (local_len _ _ _ _ Hl Ex).
  constructor; [eapply Hp; [|done]; lia|].
  eapply IH; [|done]. intros d' y r' Hd. apply Hp. lia.
Qed.

(** Reading the items through a coarser view of them. *)
Lemma get_many_map {A B} (f : A → B) (p : parser A) (q : parser B) n d l r :
  (∀ d x r, p d = Some (x, r) → q d = Some (f x, r)) →
  get_many p n d = Some (l, r) → get_many q n d = Some (map f l, r).
Proof.
  intros Hpq. revert d l r. induction n as [|n IH]; intros d l r; simpl; [by intros [= <- <-]|].
  unfold pbind, pret. destruct (p d) as [[x r1]|] eqn:Ex; [|done].
  destruct (get_many p n r1) as [[xs r2]|] eqn:E; [|done].
  intros [= <- <-]. rewrite (Hpq _ _ _ Ex). by rewrite (IH _ _ _ E).
Qed.

(** Step a parser over the bytes it inverts. *)
Lemma pbind_put_le {B} n v (q : Z → parser B) r :
  fits (8 * Z.of_nat n) v → pbind (get_le n) q (put_le n v ++ r) = q v r.
Proof. intros. apply pbind_inverts. intros ?. by apply get_put_le. Qed.

Lemma pbind_put_le_cast {B} n v (q : Z → parser B) r :
  pbind (get_le n) q (put_le n v ++ r) = q (cast (8 * Z.of_nat n) v) r.
Proof. unfold pbind. by rewrite get_put_le_cast. Qed.

Lemma pbind_some {A B} (p : parser A) (q : A → parser B) d x r :
  p d = Some (x, r) → pbind p q d = q x r.
Proof. unfold pbind. by intros ->. Qed.

Lemma pbind_take {B} w (q : bytes → parser B) n r :
  blen w = n → pbind (take_bytes n) q (w ++ r) = q w r.
Proof. intros <-. apply pbind_inverts, _. Qed.

Lemma pbind_byte {B} b (q : byte → parser B) r : pbind get_byte q (b :: r) = q b r.
Proof. done. Qed.

Lemma pbind_plift {A B} (x : A) (q : A → parser B) r :
  pbind (plift (Some x)) q r = q x r.
Proof. done. Qed.

Lemma pbind_pguard {B} (q : unit → parser B) r : pbind (pguard true) q r = q tt r.
Proof. done. Qed.

Lemma pbind_ret {A B} (x : A) (q : A → parser B) r : pbind (pret x) q r = q x r.
Proof. done. Qed.

(** Take a successful parse apart: name the value read and what remains. *)
Ltac parse_inv H :=
  unfold pbind, pret, plift, pguard in H; cbn beta in H;
  repeat match type of H with
  | context [match ?p ?d with Some _ => _ | None => None end] =>
      let v := fresh "v" in let r := fresh "r" in let E := fresh "E" in
      destruct (p d) as [[v r]|] eqn:E; [|discriminate H]; cbn beta in H
  end.

Lemma le_combine_byte b : le_combine [b] = b2z b.
Proof. apply le_combine_1. Qed.

Lemma put_le_1 v : put_le 1 v = [z2b v].
Proof. done. Qed.

Lemma to_signed_cast w v : 0 < w → fits_signed w v → to_signed w (cast w v) = v.
Proof.
  intros Hw Hv. unfold fits_signed, to_signed, cast in *.
  assert (2 ^ w = 2 * 2 ^ (w - 1)) as Hp
    by (rewrite <- Z.pow_succ_r by lia; f_equal; lia).
  assert (0 < 2 ^ (w - 1)) by (apply Z.pow_pos_nonneg; lia).
  destruct (Z.lt_ge_cases v 0).
  - rewrite <- (Z.mod_add v 1), (Z.mod_small (v + 1 * 2 ^ w)) by lia.
    destruct (Z.ltb_spec (v + 1 * 2 ^ w) (2 ^ (w - 1))); lia.
  - rewrite Z.mod_small by lia. destruct (Z.ltb_spec v (2 ^ (w - 1))); lia.
Qed.

Lemma to_signed_fits w v : 0 < w → fits w v → fits_signed w (to_signed w v).
Proof.
  intros Hw Hv. unfold fits, fits_signed, to_signed in *.
  assert (2 ^ w = 2 * 2 ^ (w - 1)) as Hp
    by (rewrite <- Z.pow_succ_r by lia; f_equal; lia).
  destruct (Z.ltb_spec v (2 ^ (w - 1))); lia.
Qed.

(** ** Parsers up to their behaviour *)

#[global] Instance parser_equiv {A} : Equiv (parser A) := fun p q => ∀ d, p d = q d.

#[global] Instance parser_equivalence {A} : Equivalence (≡@{parser A}).
Proof.
  split; [by intros p d|by intros p q H d|].
  intros p q s H1 H2 d. by rewrite H1.
Qed.

#[global] Instance pbind_proper {A B} :
  Proper ((≡) ==> pointwise_relation A (≡) ==> (≡)) (@pbind A B).
Proof.
  intros p p' Hp q q' Hq d. unfold pbind. rewrite Hp.
  destruct (p' d) as [[x r]|]; [apply Hq|done].
Qed.

#[global] Instance get_many_proper {A} :
  Proper ((≡) ==> (=) ==> (≡)) (@get_many A).
Proof.
  intros p q H n ? <-. induction n as [|n IH]; simpl; [done|].
  apply pbind_proper; [done|]. intros x. apply pbind_proper; [done|]. by intros xs.
Qed.

(** ** Concrete runs *)

(** A fact about the result of a computation, from evaluating it. *)
Lemma some_field {A B} (f : A → B) o x y : o = Some x → f <$> o = Some y → f x = y.
Proof. intros ->. by intros [= ->]. Qed.

Lemma none_absurd {A} (o : option A) : o = None → bool_decide (is_Some o) = true → False.
Proof. by intros ->. Qed.
