(* ===== verification/Leb128.v ===== *)
(** * LEB128 integers (dial9-trace-format/src/leb128.rs)

    [encode_unsigned] and [decode_unsigned] as the source writes them: the
    encoder fills a ten byte buffer, the decoder accumulates seven bits per
    byte into a [u64] and refuses an eleventh byte. *)

From Stdlib Require Import ZArith Lia.
From stdpp Require Import base list option.
From coqutil Require Import Byte Z.bitblast.
From S2P Require Import Prelude.

(** The loop of [encode_unsigned]; [room] is what is left of [[0u8; 10]].
    [None] is the out-of-bounds write [buf[10]]. *)
Fixpoint encode_loop (room : nat) (value : Z) : option bytes :=
  match room with
  | O => None
  | S room =>
      if value >=? 0x80 then
        rest ← encode_loop room (Z.shiftr value 7);
        Some (z2b (Z.lor (cast 8 value) 0x80) :: rest)
      else Some [z2b (cast 8 value)]
  end.

Definition encode_unsigned (value : Z) : bytes := default [] (encode_loop 10 value).

(** The loop of [decode_unsigned]: [data] is [data[pos..]].  The source leaves
    the loop once [pos] is 10, so ten rounds of fuel are all it can use. *)
Fixpoint decode_loop (fuel : nat) (data : bytes) (result shift pos : Z)
    : option (Z * Z) :=
  match fuel with
  | O => None
  | S fuel =>
      match data with
      | [] => None
      | byte :: data =>
          let pos := pos + 1 in
          let result :=
            Z.lor result (cast 64 (Z.shiftl (Z.land (b2z byte) 0x7f) shift)) in
          let shift := shift + 7 in
          if Z.land (b2z byte) 0x80 =? 0 then Some (result, pos)
          else if pos >=? 10 then None
          else decode_loop fuel data result shift pos
      end
  end.

Definition decode_unsigned (data : bytes) : option (Z * Z) :=
  decode_loop 10 data 0 0 0.

(** [let (v, consumed) = decode_unsigned(data)?; pos += consumed]. *)
Definition get_leb : parser Z := fun d =>
  match decode_unsigned d with
  | Some (v, consumed) => Some (v, drop (Z.to_nat consumed) d)
  | None => None
  end.

(** ** Bits *)

Lemma land_7f v : Z.land v 0x7f = v mod 2 ^ 7.
Proof. change 0x7f with (Z.ones 7). by rewrite Z.land_ones. Qed.

Lemma testbit_above v w i : 0 <= w → fits w v → w <= i → Z.testbit v i = false.
Proof.
  intros Hw [? Hv] Hi. apply Z.testbit_false; [lia|].
  rewrite Z.div_small; [done|]. split; [done|].
  eapply Z.lt_le_trans; [done|]. by apply Z.pow_le_mono_r.
Qed.

Lemma lor_shiftl_add a b s :
  0 <= s → 0 <= a < 2 ^ s → 0 <= b → Z.lor a (Z.shiftl b s) = a + b * 2 ^ s.
Proof.
  intros Hs Ha Hb. rewrite <- Z.shiftl_mul_pow2 by done. apply Z.or_to_plus.
  apply Z.bits_inj'. intros i Hi. rewrite Z.land_spec, Z.bits_0, Z.shiftl_spec by done.
  destruct (Z.lt_ge_cases i s).
  - rewrite (Z.testbit_neg_r b) by lia. by rewrite andb_false_r.
  - by rewrite (testbit_above a s).
Qed.

Lemma land_80 v : fits 8 v → Z.land v 0x80 = if v >=? 0x80 then 0x80 else 0.
Proof.
  intros Hv. rewrite Z.geb_leb.
  assert (Z.land v 0x80 = Z.shiftl (Z.shiftr v 7) 7) as ->.
  { change 0x80 with (2 ^ 7). apply Z.bits_inj'. intros i Hi.
    rewrite Z.land_spec, Z.shiftl_spec, Z.pow2_bits_eqb by lia.
    destruct (Z.eqb_spec 7 i) as [<-|].
    - by rewrite andb_true_r, Z.shiftr_spec by lia.
    - rewrite andb_false_r. destruct (Z.lt_ge_cases i 7).
      + by rewrite Z.testbit_neg_r by lia.
      + rewrite Z.shiftr_spec by lia. replace (i - 7 + 7) with i by lia.
        symmetry. by apply (testbit_above v 8); [| |lia]. }
  rewrite Z.shiftl_mul_pow2, Z.shiftr_div_pow2 by lia. unfold fits in Hv.
  change (2 ^ 8) with 256 in Hv. change (2 ^ 7) with 128.
  destruct (Z.leb_spec 128 v).
  - replace (v / 128) with 1; [done|]. apply (Z.div_unique v 128 1 (v - 128)); lia.
  - by rewrite Z.div_small by lia.
Qed.

(** The continuation byte of [value] and the final byte of [value]. *)
Lemma cont_byte value :
  let b := z2b (Z.lor (cast 8 value) 0x80) in
  Z.land (b2z b) 0x7f = value mod 128 ∧ Z.land (b2z b) 0x80 = 0x80.
Proof.
  assert (b2z (z2b (Z.lor (cast 8 value) 0x80)) = Z.lor (cast 8 value) 0x80) as Hb.
  { apply b2z_z2b. pose proof (cast_fits 8 value ltac:(lia)) as [H1 H2].
    split; [apply Z.lor_nonneg; lia|].
    assert (H3 : Z.land (Z.shiftr (Z.lor (cast 8 value) 128) 8) (-1) = 0).
    { rewrite Z.land_m1_r, Z.shiftr_lor, !Z.shiftr_div_pow2 by lia.
      by rewrite Z.div_small. }
    rewrite Z.land_m1_r, Z.shiftr_div_pow2 in H3 by lia.
    apply Z.div_small_iff in H3; [|done]. lia. }
  cbv zeta. rewrite Hb. split.
  - rewrite Z.land_lor_distr_l. change (Z.land 0x80 0x7f) with 0.
    rewrite Z.lor_0_r, land_7f. unfold cast. change (2 ^ 8) with (128 * 2).
    change (2 ^ 7) with 128. rewrite Z.rem_mul_r by lia.
    rewrite (Z.mul_comm 128), Z.mod_add by lia. by apply Zmod_mod.
  - rewrite Z.land_lor_distr_l. change (Z.land 0x80 0x80) with 0x80.
    rewrite Z.lor_comm, Z.land_comm. apply Z.bits_inj'. intros i Hi.
    rewrite Z.lor_spec, Z.land_spec. by destruct (Z.testbit 128 i).
Qed.

Lemma final_byte value :
  0 <= value < 0x80 →
  Z.land (b2z (z2b (cast 8 value))) 0x7f = value ∧
  Z.land (b2z (z2b (cast 8 value))) 0x80 = 0.
Proof.
  intros Hv. assert (fits 8 value) by (unfold fits; lia).
  rewrite (cast_id 8 value), b2z_z2b by done. split.
  - rewrite land_7f. by apply Z.mod_small.
  - rewrite land_80 by done. destruct (Z.geb_spec value 128); lia.
Qed.

(** One decoding round: the seven payload bits land above the bits read so
    far, and nothing is lost while they stay below bit 64. *)
Lemma accumulate result shift v :
  0 <= shift → 0 <= result < 2 ^ shift → 0 <= v → v * 2 ^ shift < 2 ^ 64 →
  Z.lor result (cast 64 (Z.shiftl v shift)) = result + v * 2 ^ shift.
Proof.
  intros Hs Hr Hv Hlt.
  rewrite cast_id; [by apply lor_shiftl_add|].
  rewrite Z.shiftl_mul_pow2 by done. split; [|done].
  apply Z.mul_nonneg_nonneg; [done|]. by apply Z.pow_nonneg.
Qed.

Lemma encode_loop_total room value :
  0 <= value < 2 ^ (7 * Z.of_nat room) → (0 < room)%nat →
  ∃ w, encode_loop room value = Some w ∧ 0 < blen w <= Z.of_nat room.
Proof.
  revert value. induction room as [|room IH]; intros value Hv Hroom; [lia|].
  cbn [encode_loop]. destruct (Z.geb_spec value 128).
  - rewrite Z.shiftr_div_pow2 by lia. change (2 ^ 7) with 128.
    assert (value / 128 < 2 ^ (7 * Z.of_nat room)) as Hlt.
    { apply Z.div_lt_upper_bound; [lia|]. change 128 with (2 ^ 7).
      rewrite <- Z.pow_add_r by lia.
      replace (7 + 7 * Z.of_nat room) with (7 * Z.of_nat (S room)) by lia. lia. }
    assert (0 < value / 128) by (apply Z.div_str_pos; lia).
    destruct room as [|room].
    { change (2 ^ (7 * Z.of_nat 0)) with 1 in Hlt. lia. }
    destruct (IH (value / 128) ltac:(lia) ltac:(lia)) as (w & -> & Hw).
    eexists. split; [done|]. rewrite blen_cons. lia.
  - eexists. split; [done|]. unfold blen. cbn [length]. lia.
Qed.

Lemma decode_encode_loop room value result pos w r :
  encode_loop room value = Some w → 0 <= value → 0 <= pos →
  pos + Z.of_nat room = 10 → 0 <= result < 2 ^ (7 * pos) →
  value * 2 ^ (7 * pos) < 2 ^ 64 →
  decode_loop room (w ++ r) result (7 * pos) pos
  = Some (result + value * 2 ^ (7 * pos), pos + blen w).
Proof.
  revert value result pos w. induction room as [|room IH]; [done|].
  intros value result pos w Henc Hv Hp Hroom Hres Hbig. cbn [encode_loop] in Henc.
  assert (0 < 2 ^ (7 * pos)) by (apply Z.pow_pos_nonneg; lia).
  destruct (Z.geb_spec value 128) as [Hge|Hlt].
  - destruct (encode_loop room _) as [w'|] eqn:E; [|done].
    injection Henc as <-. cbn [app decode_loop].
    destruct (cont_byte value) as [-> ->].
    assert (value mod 128 <= value) by (apply Z.mod_le; lia).
    pose proof (Z.mod_pos_bound value 128 ltac:(lia)).
    rewrite accumulate by nia. change (0x80 =? 0) with false. cbv match.
    destruct room as [|room]; [done|].
    destruct (Z.geb_spec (pos + 1) 10); [lia|].
    replace (7 * pos + 7) with (7 * (pos + 1)) by lia.
    rewrite Z.shiftr_div_pow2 in E by lia. change (2 ^ 7) with 128 in E.
    pose proof (Z.div_mod value 128 ltac:(lia)) as Hdm.
    assert (2 ^ (7 * (pos + 1)) = 128 * 2 ^ (7 * pos)) as Hpow.
    { replace (7 * (pos + 1)) with (7 + 7 * pos) by lia. by rewrite Z.pow_add_r by lia. }
    rewrite (IH (value / 128)); [|done|apply Z.div_pos; lia|lia|lia| |]; rewrite ?Hpow.
    + rewrite blen_cons. do 2 f_equal; [nia|lia].
    + nia.
    + nia.
  - injection Henc as <-. cbn [app decode_loop].
    destruct (final_byte value) as [-> ->]; [lia|].
    rewrite accumulate by nia. done.
Qed.

Lemma encode_unsigned_some v :
  fits 64 v → encode_loop 10 v = Some (encode_unsigned v) ∧ 0 < blen (encode_unsigned v) <= 10.
Proof.
  intros [H1 H2]. unfold encode_unsigned.
  destruct (encode_loop_total 10 v) as (w & -> & Hw); [|lia|done].
  split; [done|]. eapply Z.lt_trans; [done|]. done.
Qed.

Lemma decode_encode_unsigned v r :
  fits 64 v → decode_unsigned (encode_unsigned v ++ r) = Some (v, blen (encode_unsigned v)).
Proof.
  intros Hv. destruct (encode_unsigned_some v Hv) as [Hw _]. unfold fits in Hv.
  unfold decode_unsigned.
  change (decode_loop 10 (encode_unsigned v ++ r) 0 (7 * 0) 0
          = Some (v, blen (encode_unsigned v))).
  rewrite (decode_encode_loop 10 v 0 0 _ r Hw) by (cbn; lia).
  change (2 ^ (7 * 0)) with 1. do 2 f_equal; lia.
Qed.

Lemma get_leb_encode v r : fits 64 v → get_leb (encode_unsigned v ++ r) = Some (v, r).
Proof.
  intros Hv. unfold get_leb. rewrite decode_encode_unsigned by done.
  by rewrite to_nat_blen, drop_app_length.
Qed.

Lemma lor_fits w a b : 0 <= w → fits w a → fits w b → fits w (Z.lor a b).
Proof.
  intros Hw Ha Hb. unfold fits in *. split; [apply Z.lor_nonneg; lia|].
  assert (Z.shiftr (Z.lor a b) w = 0) as H0.
  { rewrite Z.shiftr_lor, !Z.shiftr_div_pow2 by lia. by rewrite !Z.div_small. }
  rewrite Z.shiftr_div_pow2 in H0 by lia.
  apply Z.div_small_iff in H0; [|apply Z.pow_nonzero; lia]. lia.
Qed.

(** What a terminating decode guarantees: the bytes it names are there, at
    most ten of them, and the value is a [u64] of at most seven bits per byte. *)
Lemma decode_loop_bounds fuel data result shift pos v n :
  decode_loop fuel data result shift pos = Some (v, n) →
  0 <= pos → shift = 7 * pos → fits 64 result → fits (7 * pos) result →
  (∃ c e, data = c ++ e ∧ blen c = n - pos ∧
     ∀ e', decode_loop fuel (c ++ e') result shift pos = Some (v, n)) ∧
  pos < n <= pos + Z.of_nat fuel ∧ fits 64 v ∧ fits (7 * n) v.
Proof.
  revert data result shift pos.
  induction fuel as [|fuel IH]; intros data result shift pos H Hp -> H64 H7; [done|].
  cbn [decode_loop] in H. destruct data as [|b data]; [done|].
  set (x := Z.land (b2z b) 127) in *.
  assert (fits 7 x) as Hx.
  { subst x. rewrite land_7f. apply Z.mod_pos_bound. done. }
  set (result' := Z.lor result (cast 64 (Z.shiftl x (7 * pos)))) in *.
  assert (fits 64 result') as H64'.
  { apply lor_fits; [lia|done|]. by apply cast_fits. }
  assert (fits (7 * (pos + 1)) result') as H7'.
  { apply lor_fits; [lia|eapply fits_le; [|done]; lia|].
    unfold fits in Hx. split; [by apply cast_fits|].
    eapply Z.le_lt_trans; [apply Z.mod_le; [|done]|].
    - apply Z.shiftl_nonneg. lia.
    - rewrite Z.shiftl_mul_pow2 by lia.
      replace (7 * (pos + 1)) with (7 + 7 * pos) by lia. rewrite Z.pow_add_r by lia.
      apply Z.mul_lt_mono_pos_r; [apply Z.pow_pos_nonneg; lia|lia]. }
  destruct (Z.land (b2z b) 128 =? 0) eqn:E80.
  - injection H as <- <-. split; [|split; [lia|done]].
    exists [b], data. split; [done|]. split; [unfold blen; cbn [length]; lia|].
    intros e'. cbn [app decode_loop]. by rewrite E80.
  - destruct (Z.geb_spec (pos + 1) 10); [done|].
    apply IH in H as ((c & e & -> & Hc & He) & Hn & Hv); [|lia|lia|done|done].
    split; [|split; [lia|done]].
    exists (b :: c), e. split; [done|]. split; [rewrite blen_cons; lia|].
    intros e'. cbn [app decode_loop]. rewrite E80.
    destruct (Z.geb_spec (pos + 1) 10); [lia|]. apply He.
Qed.

Lemma decode_unsigned_bounds d v n :
  decode_unsigned d = Some (v, n) →
  (∃ c e, d = c ++ e ∧ blen c = n ∧ ∀ e', decode_unsigned (c ++ e') = Some (v, n)) ∧
  0 < n <= 10 ∧ fits 64 v ∧ fits (7 * n) v.
Proof.
  intros H. apply decode_loop_bounds in H as ((c & e & Hd & Hc & He) & Hn & Hv);
    [|done|done|done|done].
  split; [|done]. exists c, e. split; [done|]. split; [lia|]. exact He.
Qed.

#[global] Instance get_leb_local : Local get_leb.
Proof.
  intros d x r. unfold get_leb. destruct (decode_unsigned d) as [[v n]|] eqn:E; [|done].
  intros [= <- <-]. apply decode_unsigned_bounds in E as ((c & e & -> & <- & He) & _).
  exists c. rewrite to_nat_blen, drop_app_length. split; [done|].
  intros e'. by rewrite He, to_nat_blen, drop_app_length.
Qed.

Lemma get_leb_fits d v r : get_leb d = Some (v, r) → fits 64 v.
Proof.
  unfold get_leb. destruct (decode_unsigned d) as [[v' n]|] eqn:E; [|done].
  intros [= <- <-]. by apply decode_unsigned_bounds in E as (_ & _ & ? & _).
Qed.

Lemma encode_loop_mono room room' value w :
  (room <= room')%nat → encode_loop room value = Some w → encode_loop room' value = Some w.
Proof.
  revert room' value w. induction room as [|room IH]; [done|].
  intros [|room'] value w Hle; [lia|]. cbn [encode_loop]. destruct (value >=? 128); [|done].
  destruct (encode_loop room _) as [w'|] eqn:E; [|done].
  by rewrite (IH room' _ w' ltac:(lia) E).
Qed.

(** No byte string that decodes to [v] is shorter than the encoder's. *)
Lemma encode_unsigned_minimal d v n :
  decode_unsigned d = Some (v, n) → blen (encode_unsigned v) <= n.
Proof.
  intros H. apply decode_unsigned_bounds in H as (_ & Hn & H64 & H7).
  destruct (encode_loop_total (Z.to_nat n) v) as (w & Hw & Hlen);
    [rewrite Z2Nat.id by lia; apply H7|lia|].
  apply (encode_loop_mono _ 10) in Hw; [|lia].
  destruct (encode_unsigned_some v H64) as [Heq _].
  rewrite Heq in Hw. injection Hw as ->. lia.
Qed.

(** ** Main property *)

(** LEB128 is a code for the whole u64 range: what is written is read back
    at its own length, and no other encoding of the same number the decoder
    accepts is shorter or takes more than ten bytes. *)
Theorem leb128_canonical v r :
  fits 64 v →
  decode_unsigned (encode_unsigned v ++ r) = Some (v, blen (encode_unsigned v)) ∧
  ∀ d n, decode_unsigned d = Some (v, n) → blen (encode_unsigned v) <= n <= 10.
Proof.
  intros Hv. split; [by apply decode_encode_unsigned|]. intros d n H.
  pose proof (encode_unsigned_minimal _ _ _ H). apply decode_unsigned_bounds in H as (_ & H & _).
  lia.
Qed.

(** [0x80 0x00] is a two-byte zero; the encoder writes one byte. *)
Example leb128_canonical_witness :
  decode_unsigned [Byte.x80; Byte.x00] = Some (0, 2) ∧
  decode_unsigned (encode_unsigned (2 ^ 64 - 1)) = Some (2 ^ 64 - 1, 10) ∧
  blen (encode_unsigned 0) <= 2.
Proof.
  split; [by vm_compute|]. split.
  - rewrite <- (app_nil_r (encode_unsigned _)).
    exact (proj1 (leb128_canonical (2 ^ 64 - 1) [] ltac:(by vm_compute))).
  - apply (proj2 (leb128_canonical 0 [] ltac:(by vm_compute)) [Byte.x80; Byte.x00]). by vm_compute.
Defined.
