(* ===== verification/Text.v ===== *)
(** * Text: what the program uses of Rust's [str] and of its integers' text

    Prefixes, suffixes and splits, decimal and hexadecimal numbers, blanks, and
    the order of strings, all on UTF-8 bytes. *)

From Stdlib Require Import ZArith Lia.
From stdpp Require Import base list strings option.
From coqutil Require Import Byte.
From S2P Require Import Prelude.

(** ** Prefixes, suffixes and decimal numbers *)

Fixpoint strip_prefix (p s : bytes) : option bytes :=
  match p, s with
  | [], _ => Some s
  | c :: p, d :: s => if bool_decide (c = d) then strip_prefix p s else None
  | _ :: _, [] => None
  end.

Definition strip_suffix (p s : bytes) : option bytes :=
  reverse <$> strip_prefix (reverse p) (reverse s).

(** [s.split_once(p)]: at the first occurrence of [p]. *)
Fixpoint split_once (p s : bytes) : option (bytes * bytes) :=
  match strip_prefix p s with
  | Some r => Some ([], r)
  | None =>
      match s with
      | [] => None
      | c :: s => (λ '(a, b), (c :: a, b)) <$> split_once p s
      end
  end.

Definition digit (c : byte) : option Z :=
  if (48 <=? b2z c) && (b2z c <=? 57) then Some (b2z c - 48) else None.

Definition parse_digits (w : Z) (start : Z) (s : bytes) : option Z :=
  foldl (λ acc c, a ← acc; d ← digit c; m ← checked_mul w a 10; checked_add w m d)
    (Some start) s.

(** [s.parse::<uN>()]: one [+] sign is allowed, leading zeros too. *)
Definition parse_uint (w : Z) (s : bytes) : option Z :=
  match s with
  | [] => None
  | c :: r =>
      if bool_decide (c = z2b 43) && negb (bool_decide (r = [])) then parse_digits w 0 r
      else parse_digits w 0 s
  end.

(** [n.to_string()], ten decimal digits at most for a [u32], twenty for a
    [u64]. *)
Fixpoint put_dec_loop (fuel : nat) (n : Z) (acc : bytes) : bytes :=
  match fuel with
  | O => acc
  | S fuel =>
      let acc := z2b (48 + n mod 10) :: acc in
      if n / 10 =? 0 then acc else put_dec_loop fuel (n / 10) acc
  end.

Definition put_dec (n : Z) : bytes := put_dec_loop 20 n [].

(** ** Hexadecimal numbers *)

Definition hex_char (d : Z) : byte := z2b (if d <? 10 then 48 + d else 87 + d).

Definition hex_digit (c : byte) : option Z :=
  let v := b2z c in
  if (48 <=? v) && (v <=? 57) then Some (v - 48)
  else if (97 <=? v) && (v <=? 102) then Some (v - 87)
  else if (65 <=? v) && (v <=? 70) then Some (v - 55)
  else None.

(** The last [w] digits of [n]. *)
Fixpoint hex_fixed (w : nat) (n : Z) : bytes :=
  match w with
  | O => []
  | S w => hex_fixed w (n / 16) ++ [hex_char (n mod 16)]
  end.

(** [format!("{n:0wx}")]: all the digits, at least [w]. *)
Definition put_hex (w : nat) (n : Z) : bytes :=
  hex_fixed (Nat.max w (Z.to_nat (Z.log2 n / 4 + 1))) n.

(** [uN::from_str_radix(s, 16)]: one [+] sign is allowed, leading zeros and
    capitals too. *)
Definition parse_hex_digits (w : Z) (s : bytes) : option Z :=
  foldl (λ acc c, a ← acc; d ← hex_digit c; m ← checked_mul w a 16; checked_add w m d) (Some 0) s.

Definition parse_hex (w : Z) (s : bytes) : option Z :=
  match s with
  | [] => None
  | c :: r =>
      if bool_decide (c = z2b 43) && negb (bool_decide (r = [])) then parse_hex_digits w r
      else parse_hex_digits w s
  end.

(** ** Splitting, order, blanks *)

(** [s.split(c)]. *)
Fixpoint split_on (c : byte) (s : bytes) : list bytes :=
  match s with
  | [] => [[]]
  | x :: s =>
      if bool_decide (x = c) then [] :: split_on c s
      else match split_on c s with f :: l => (x :: f) :: l | [] => [[x]] end
  end.

(** [a < b] on [str]. *)
Fixpoint str_ltb (a b : bytes) : bool :=
  match a, b with
  | _, [] => false
  | [], _ :: _ => true
  | x :: a, y :: b => (b2z x <? b2z y) || (bool_decide (x = y) && str_ltb a b)
  end.

(** The characters of Unicode's White_Space, in UTF-8. *)
Definition whitespace : list bytes :=
  map (map z2b)
    [[9]; [10]; [11]; [12]; [13]; [32]; [0xC2; 0x85]; [0xC2; 0xA0]; [0xE1; 0x9A; 0x80];
     [0xE2; 0x80; 0x80]; [0xE2; 0x80; 0x81]; [0xE2; 0x80; 0x82]; [0xE2; 0x80; 0x83];
     [0xE2; 0x80; 0x84]; [0xE2; 0x80; 0x85]; [0xE2; 0x80; 0x86]; [0xE2; 0x80; 0x87];
     [0xE2; 0x80; 0x88]; [0xE2; 0x80; 0x89]; [0xE2; 0x80; 0x8A]; [0xE2; 0x80; 0xA8];
     [0xE2; 0x80; 0xA9]; [0xE2; 0x80; 0xAF]; [0xE2; 0x81; 0x9F]; [0xE3; 0x80; 0x80]].

Fixpoint strip_any (ps : list bytes) (s : bytes) : option bytes :=
  match ps with
  | [] => None
  | p :: ps => match strip_prefix p s with Some r => Some r | None => strip_any ps s end
  end.

Fixpoint blank_loop (fuel : nat) (s : bytes) : bool :=
  match fuel, s with
  | _, [] => true
  | O, _ => false
  | S fuel, _ => match strip_any whitespace s with Some r => blank_loop fuel r | None => false end
  end.

(** [s.trim().is_empty()]. *)
Definition blank (s : bytes) : bool := blank_loop (length s) s.

(** ** Their laws *)

Lemma strip_prefix_app p s : strip_prefix p (p ++ s) = Some s.
Proof. induction p as [|c p IH]; cbn; [done|]. by rewrite bool_decide_true. Qed.

Lemma strip_prefix_some p s r : strip_prefix p s = Some r ↔ s = p ++ r.
Proof.
  split; [|intros ->; apply strip_prefix_app].
  revert s. induction p as [|c p IH]; intros s; cbn; [by intros [= ->]|].
  destruct s as [|d s]; [done|]. destruct (bool_decide_reflect (c = d)) as [->|]; [|done].
  intros H. by rewrite (IH _ H).
Qed.

Lemma strip_suffix_some p s r : strip_suffix p s = Some r ↔ s = r ++ p.
Proof.
  unfold strip_suffix. rewrite fmap_Some. setoid_rewrite strip_prefix_some. split.
  - intros (x & Hs & ->). apply (f_equal reverse) in Hs.
    by rewrite reverse_involutive, reverse_app, reverse_involutive in Hs.
  - intros ->. exists (reverse r). by rewrite reverse_app, reverse_involutive.
Qed.

Lemma strip_suffix_app p r : strip_suffix p (r ++ p) = Some r.
Proof. by apply strip_suffix_some. Qed.

Lemma digit_put n : 0 <= n < 10 → digit (z2b (48 + n)) = Some n.
Proof.
  intros H. assert (n = 0 ∨ n = 1 ∨ n = 2 ∨ n = 3 ∨ n = 4 ∨ n = 5 ∨ n = 6 ∨ n = 7 ∨ n = 8 ∨ n = 9)
    as Hn by lia.
  by repeat destruct Hn as [->|Hn]; [..|subst].
Qed.

Lemma digit_some c d : digit c = Some d → c = z2b (48 + d) ∧ 0 <= d < 10.
Proof.
  unfold digit. intros H. destruct (_ && _) eqn:E; [|done]. bool_facts. injection H as <-.
  split; [|lia]. replace (48 + (b2z c - 48)) with (b2z c) by lia.
  by rewrite byte.of_Z_unsigned.
Qed.

Lemma put_dec_loop_acc fuel n acc :
  (1 <= fuel)%nat → 0 <= n → ∃ l, put_dec_loop fuel n acc = l ++ acc ∧ l ≠ [] ∧
    Forall (λ c, is_Some (digit c)) l.
Proof.
  revert n acc. induction fuel as [|fuel IH]; intros n acc Hf Hn; [lia|]. cbn [put_dec_loop].
  assert (is_Some (digit (z2b (48 + n mod 10)))) as Hd
    by (rewrite digit_put by (apply Z.mod_pos_bound; lia); by eexists).
  destruct (n / 10 =? 0); [|destruct fuel as [|fuel]].
  - exists [z2b (48 + n mod 10)]. by repeat constructor.
  - exists [z2b (48 + n mod 10)]. by repeat constructor.
  - destruct (IH (n / 10) (z2b (48 + n mod 10) :: acc)) as (l & -> & Hl & Hdig);
      [lia|by apply Z.div_pos|].
    exists (l ++ [z2b (48 + n mod 10)]). rewrite <- app_assoc. split; [done|].
    split; [by destruct l|]. apply list.Forall_app. by repeat constructor.
Qed.

Lemma parse_digits_put w fuel n acc :
  0 <= n < 10 ^ Z.of_nat fuel → n < 2 ^ w →
  parse_digits w 0 (put_dec_loop fuel n acc) = parse_digits w n acc.
Proof.
  revert n acc. induction fuel as [|fuel IH]; intros n acc Hn Hw.
  { assert (n = 0) as -> by (cbn in Hn; lia). done. }
  cbn [put_dec_loop]. pose proof (Z.div_mod n 10). pose proof (Z.mod_pos_bound n 10).
  assert (0 <= n / 10) by (apply Z.div_pos; lia).
  assert (parse_digits w (n / 10) (z2b (48 + n mod 10) :: acc) = parse_digits w n acc) as Hstep.
  { unfold parse_digits. cbn [foldl mbind option_bind]. rewrite digit_put by lia.
    cbn [mbind option_bind]. unfold checked_mul, checked_add.
    rewrite (proj2 (Z.ltb_lt _ _)) by lia. cbn [mbind option_bind].
    rewrite (proj2 (Z.ltb_lt _ _)) by lia. do 2 f_equal. lia. }
  destruct (Z.eqb_spec (n / 10) 0) as [Hz|Hz].
  - rewrite <- Hstep. by rewrite Hz.
  - rewrite IH; [done| |lia]. split; [lia|]. apply Z.div_lt_upper_bound; [lia|].
    rewrite Nat2Z.inj_succ, Z.pow_succ_r in Hn by lia. lia.
Qed.

Lemma put_dec_digits n :
  0 <= n → put_dec n ≠ [] ∧ Forall (λ c, is_Some (digit c)) (put_dec n).
Proof.
  intros Hn. destruct (put_dec_loop_acc 20 n [] ltac:(lia) Hn) as (l & Hl & Hne & Hd).
  unfold put_dec. by rewrite Hl, app_nil_r.
Qed.

Lemma parse_uint_put w n : 0 <= n < 2 ^ 64 → n < 2 ^ w → parse_uint w (put_dec n) = Some n.
Proof.
  intros Hn Hw. destruct (put_dec_digits n) as [Hne Hd]; [lia|].
  assert (parse_digits w 0 (put_dec n) = Some n) as Hp.
  { unfold put_dec. by rewrite parse_digits_put by (cbn; lia). }
  unfold parse_uint. destruct (put_dec n) as [|c r]; [done|].
  destruct (bool_decide_reflect (c = z2b 43)) as [->|]; [|done].
  apply list.Forall_cons in Hd as [[x Hx] _]. by vm_compute in Hx.
Qed.

Lemma hex_char_spec d : 0 <= d < 16 → hex_digit (hex_char d) = Some d ∧ hex_char d ≠ z2b 43.
Proof.
  intros H. assert (d ∈ seqZ 0 16) as Hd by (apply elem_of_seqZ; lia).
  assert (Forall (λ d, hex_digit (hex_char d) = Some d ∧ hex_char d ≠ z2b 43) (seqZ 0 16)) as Hall
    by (apply (bool_decide_unpack _); by vm_compute).
  rewrite list.Forall_forall in Hall. by apply Hall.
Qed.

Lemma hex_char_inj d e : 0 <= d < 16 → 0 <= e < 16 → hex_char d = hex_char e → d = e.
Proof.
  intros Hd He E. apply (f_equal hex_digit) in E.
  rewrite (proj1 (hex_char_spec d Hd)), (proj1 (hex_char_spec e He)) in E. by injection E.
Qed.

Lemma hex_char_lt d e : 0 <= d < 16 → 0 <= e < 16 → (b2z (hex_char d) <? b2z (hex_char e)) = (d <? e).
Proof.
  intros Hd He. unfold hex_char.
  assert (∀ x, 0 <= x < 16 → fits 8 (if x <? 10 then 48 + x else 87 + x)) as Hf
    by (intros x Hx; unfold fits; destruct (Z.ltb_spec x 10); lia).
  rewrite !b2z_z2b by auto. destruct (Z.ltb_spec d 10), (Z.ltb_spec e 10); split_tests; try done; exfalso; lia.
Qed.

Lemma length_hex_fixed w n : length (hex_fixed w n) = w.
Proof. revert n. induction w as [|w IH]; intros n; cbn; [done|]. rewrite length_app, IH. cbn. lia. Qed.

Lemma hex_fixed_digits w n : Forall (λ c, is_Some (hex_digit c)) (hex_fixed w n).
Proof.
  revert n. induction w as [|w IH]; intros n; cbn [hex_fixed]; [done|].
  apply list.Forall_app. split; [apply IH|]. constructor; [|done].
  rewrite (proj1 (hex_char_spec _ (Z.mod_pos_bound n 16 ltac:(lia)))). by eexists.
Qed.

(** With enough digits the width given decides the length. *)
Lemma put_hex_fixed w n : (0 < w)%nat → 0 <= n < 16 ^ Z.of_nat w → put_hex w n = hex_fixed w n.
Proof.
  intros Hw Hn. unfold put_hex. rewrite Nat.max_l; [done|].
  enough (Z.log2 n / 4 < Z.of_nat w) as H by (pose proof (Z.div_pos (Z.log2 n) 4 (Z.log2_nonneg n)); lia).
  apply Z.div_lt_upper_bound; [lia|]. destruct (decide (n = 0)) as [->|].
  { change (Z.log2 0) with 0. lia. }
  apply Z.log2_lt_pow2; [lia|]. replace (2 ^ (4 * Z.of_nat w)) with (16 ^ Z.of_nat w); [lia|].
  change 16 with (2 ^ 4). by rewrite <- Z.pow_mul_r by lia.
Qed.

Lemma parse_hex_fixed w k n :
  0 <= n < 16 ^ Z.of_nat k → n < 2 ^ w → parse_hex_digits w (hex_fixed k n) = Some n.
Proof.
  revert n. induction k as [|k IH]; intros n Hn Hw.
  { assert (n = 0) as -> by (cbn in Hn; lia). done. }
  unfold parse_hex_digits. cbn [hex_fixed]. rewrite foldl_app.
  fold (parse_hex_digits w (hex_fixed k (n / 16))).
  pose proof (Z.div_mod n 16). pose proof (Z.mod_pos_bound n 16).
  assert (0 <= n / 16) by (apply Z.div_pos; lia). rewrite IH.
  - cbn [foldl mbind option_bind]. rewrite (proj1 (hex_char_spec _ (Z.mod_pos_bound n 16 ltac:(lia)))).
    cbn [mbind option_bind]. unfold checked_mul, checked_add.
    rewrite (proj2 (Z.ltb_lt _ _)) by lia. cbn [mbind option_bind].
    rewrite (proj2 (Z.ltb_lt _ _)) by lia. f_equal. lia.
  - split; [done|]. apply Z.div_lt_upper_bound; [lia|].
    rewrite Nat2Z.inj_succ, Z.pow_succ_r in Hn by lia. lia.
  - lia.
Qed.

Lemma parse_hex_put w k n :
  (0 < k)%nat → 0 <= n < 16 ^ Z.of_nat k → n < 2 ^ w → parse_hex w (put_hex k n) = Some n.
Proof.
  intros Hk Hn Hw. rewrite put_hex_fixed by done. pose proof (parse_hex_fixed w k n Hn Hw) as Hp.
  pose proof (hex_fixed_digits k n) as Hd. pose proof (length_hex_fixed k n) as Hl.
  unfold parse_hex. destruct (hex_fixed k n) as [|c r]; [cbn in Hl; lia|].
  destruct (bool_decide_reflect (c = z2b 43)) as [->|]; [|done].
  apply list.Forall_cons in Hd as [[x Hx] _]. by vm_compute in Hx.
Qed.

(** A number is read back from one text of a given width only. *)
Lemma put_hex_inj w n m :
  (0 < w)%nat → 0 <= n < 16 ^ Z.of_nat w → 0 <= m < 16 ^ Z.of_nat w → put_hex w n = put_hex w m → n = m.
Proof.
  intros Hw Hn Hm E. rewrite !put_hex_fixed in E by done.
  apply (f_equal (parse_hex_digits (4 * Z.of_nat w))) in E.
  assert (16 ^ Z.of_nat w = 2 ^ (4 * Z.of_nat w)) as Hp
    by (change 16 with (2 ^ 4); by rewrite <- Z.pow_mul_r by lia).
  rewrite !parse_hex_fixed in E by lia. by injection E.
Qed.

Lemma split_on_single c s : c ∉ s → split_on c s = [s].
Proof.
  induction s as [|x s IH]; cbn [split_on]; [done|]. intros H. apply not_elem_of_cons in H as [Hx Hs].
  rewrite bool_decide_false by (intros ->; done). by rewrite IH.
Qed.

Lemma split_on_app c a b : c ∉ a → split_on c (a ++ c :: b) = a :: split_on c b.
Proof.
  induction a as [|x a IH]; cbn [app split_on]; intros H.
  { by rewrite bool_decide_true. }
  apply not_elem_of_cons in H as [Hx Hs]. rewrite bool_decide_false by (intros ->; done).
  by rewrite IH.
Qed.

(** The pieces and the separators make the string. *)
Lemma split_on_nonempty c s : split_on c s ≠ [].
Proof. destruct s as [|x s]; cbn [split_on]; [done|]. destruct (bool_decide _), (split_on c s); done. Qed.

Lemma split_on_cons c s f l :
  split_on c s = f :: l → s = f ∧ l = [] ∨ ∃ r, s = f ++ c :: r ∧ split_on c r = l.
Proof.
  revert f l. induction s as [|x s IH]; intros f l; cbn [split_on]; [intros [= <- <-]; by left|].
  destruct (bool_decide_reflect (x = c)) as [->|].
  { intros [= <- <-]. right. by exists s. }
  destruct (split_on c s) as [|g k] eqn:E; [by apply split_on_nonempty in E|]. intros [= <- <-].
  destruct (IH _ _ eq_refl) as [[-> ->]|(r & -> & Hr)]; [by left|]. right. by exists r.
Qed.

Lemma split_on_three c s f g h :
  split_on c s = [f; g; h] → s = f ++ c :: g ++ c :: h.
Proof.
  intros E. apply split_on_cons in E as [[_ [=]]|(r & -> & E)].
  apply split_on_cons in E as [[_ [=]]|(r' & -> & E)].
  apply split_on_cons in E as [[-> _]|(r'' & -> & E)]; [done|]. by apply split_on_nonempty in E.
Qed.

Lemma hex_digit_nonneg c d : hex_digit c = Some d → 0 <= d.
Proof.
  unfold hex_digit. destruct ((48 <=? _) && _) eqn:E1; [|destruct ((97 <=? _) && _) eqn:E2;
    [|destruct ((65 <=? _) && _) eqn:E3; [|done]]]; intros [= <-]; bool_facts; lia.
Qed.

Lemma parse_hex_fits w s n : 0 <= w → parse_hex w s = Some n → fits w n.
Proof.
  intros Hw. pose proof (Z.pow_pos_nonneg 2 w ltac:(lia) Hw).
  assert (∀ l acc, (∀ a, acc = Some a → fits w a) → ∀ n,
    foldl (λ acc c, a ← acc; d ← hex_digit c; m ← checked_mul w a 16; checked_add w m d) acc l = Some n →
    fits w n) as Hl.
  { induction l as [|c l IH]; intros acc Hacc m; cbn [foldl]; [apply Hacc|]. apply IH. clear m.
    intros m. destruct acc as [a|]; [|done]. specialize (Hacc a eq_refl). cbn [mbind option_bind].
    destruct (hex_digit c) as [d|] eqn:Ed; [|done]. cbn [mbind option_bind].
    unfold checked_mul, checked_add. destruct (Z.ltb_spec (a * 16) (2 ^ w)); [|done].
    cbn [mbind option_bind]. destruct (Z.ltb_spec (a * 16 + d) (2 ^ w)); [|done]. intros [= <-].
    apply hex_digit_nonneg in Ed. unfold fits in *. lia. }
  assert (∀ l, parse_hex_digits w l = Some n → fits w n) as Hd.
  { intros l. apply Hl. intros a [= <-]. unfold fits. lia. }
  unfold parse_hex. destruct s as [|c r]; [done|]. destruct (_ && _); apply Hd.
Qed.

(** ** The order of strings *)

Lemma str_ltb_app p a b : str_ltb (p ++ a) (p ++ b) = str_ltb a b.
Proof.
  induction p as [|c p IH]; cbn [app str_ltb]; [done|].
  by rewrite Z.ltb_irrefl, bool_decide_true, IH.
Qed.

Lemma str_ltb_irrefl a : str_ltb a a = false.
Proof.
  induction a as [|c a IH]; [done|]. cbn. by rewrite Z.ltb_irrefl, bool_decide_true, IH.
Qed.

Lemma str_ltb_cons x a y b :
  str_ltb (x :: a) (y :: b) = true ↔ b2z x < b2z y ∨ x = y ∧ str_ltb a b = true.
Proof.
  cbn [str_ltb]. rewrite orb_true_iff, andb_true_iff, Z.ltb_lt, bool_decide_eq_true. done.
Qed.

Lemma str_ltb_trans a b c : str_ltb a b = true → str_ltb b c = true → str_ltb a c = true.
Proof.
  revert b c. induction a as [|x a IH]; intros [|y b] [|z c]; try done.
  rewrite !str_ltb_cons. intros [H1|[-> H1]] [H2|[-> H2]]; [left; lia|by left|by left|].
  right. split; [done|]. by eapply IH.
Qed.

(** Equal widths: the texts are in the order of the numbers. *)
Lemma str_ltb_hex w n m a b :
  0 <= n < 16 ^ Z.of_nat w → 0 <= m < 16 ^ Z.of_nat w →
  str_ltb (hex_fixed w n ++ a) (hex_fixed w m ++ b) = (n <? m) || ((n =? m) && str_ltb a b).
Proof.
  revert n m a b. induction w as [|w IH]; intros n m a b Hn Hm.
  { cbn in Hn, Hm. assert (n = 0 ∧ m = 0) as [-> ->] by lia. done. }
  cbn [hex_fixed]. rewrite <- !app_assoc. rewrite Nat2Z.inj_succ, Z.pow_succ_r in Hn, Hm by lia.
  pose proof (Z.div_mod n 16). pose proof (Z.mod_pos_bound n 16).
  pose proof (Z.div_mod m 16). pose proof (Z.mod_pos_bound m 16).
  rewrite IH by (split; [apply Z.div_pos; lia|apply Z.div_lt_upper_bound; lia]).
  cbn [app str_ltb]. rewrite hex_char_lt by lia.
  destruct (decide (n mod 16 = m mod 16)) as [E|E].
  - rewrite E, Z.ltb_irrefl, bool_decide_true by done. cbn. split_tests; try done; lia.
  - rewrite (bool_decide_false (hex_char _ = _)) by (intros Hc; apply E; apply hex_char_inj; [lia..|done]).
    cbn. split_tests; cbn; try done; lia.
Qed.
