(* ===== verification/Utf8.v ===== *)
(** * UTF-8 (the [std::str::from_utf8] and [String::from_utf8_lossy] the
    trace format calls)

    A Rust [str] is modelled as its bytes.  [utf8_scan] recognises one scalar
    value or one ill-formed chunk at the head of a slice, as the standard
    library documents it: a chunk is the longest prefix of a well-formed
    sequence, or one byte. *)

From Stdlib Require Import ZArith Lia.
From stdpp Require Import base list option.
From coqutil Require Import Byte.
From S2P Require Import Prelude.

Definition in_range (lo hi : Z) (b : Z) : bool := (lo <=? b) && (b <=? hi).

Definition is_cont (b : Z) : bool := in_range 0x80 0xBF b.

(** The byte at [i], zero past the end. *)
Definition safe_get (d : bytes) (i : nat) : Z := default 0 (b2z <$> d !! i).

(** Number of bytes a lead byte announces; 0 for a byte that starts nothing. *)
Definition utf8_char_width (b : Z) : nat :=
  if b <=? 0x7F then 1%nat
  else if in_range 0xC2 0xDF b then 2%nat
  else if in_range 0xE0 0xEF b then 3%nat
  else if in_range 0xF0 0xF4 b then 4%nat else 0%nat.

(** The second bytes allowed after a three or four byte lead (no overlong
    forms, no surrogates, nothing above U+10FFFF). *)
Definition second_ok (b0 b1 : Z) : bool :=
  if b0 =? 0xE0 then in_range 0xA0 0xBF b1
  else if b0 =? 0xED then in_range 0x80 0x9F b1
  else if b0 =? 0xF0 then in_range 0x90 0xBF b1
  else if b0 =? 0xF4 then in_range 0x80 0x8F b1
  else is_cont b1.

(** [(true, n)]: the first [n] bytes are a scalar value; [(false, n)]: the
    first [n] bytes are an ill-formed chunk. *)
Definition utf8_scan (d : bytes) : bool * nat :=
  let b0 := safe_get d 0 in
  match utf8_char_width b0 with
  | 1%nat => (true, 1%nat)
  | 2%nat => if is_cont (safe_get d 1) then (true, 2%nat) else (false, 1%nat)
  | 3%nat =>
      if second_ok b0 (safe_get d 1) then
        if is_cont (safe_get d 2) then (true, 3%nat) else (false, 2%nat)
      else (false, 1%nat)
  | 4%nat =>
      if second_ok b0 (safe_get d 1) then
        if is_cont (safe_get d 2) then
          if is_cont (safe_get d 3) then (true, 4%nat) else (false, 3%nat)
        else (false, 2%nat)
      else (false, 1%nat)
  | _ => (false, 1%nat)
  end.

Fixpoint utf8_valid_loop (fuel : nat) (d : bytes) : bool :=
  match d, fuel with
  | [], _ => true
  | _, O => false
  | _, S fuel =>
      let '(ok, n) := utf8_scan d in ok && utf8_valid_loop fuel (drop n d)
  end.

(** [str::from_utf8(d).is_ok()]. *)
Definition utf8_valid (d : bytes) : bool := utf8_valid_loop (length d) d.

(** U+FFFD. *)
Definition replacement : bytes := [Byte.xef; Byte.xbf; Byte.xbd].

Fixpoint utf8_lossy_loop (fuel : nat) (d : bytes) : bytes :=
  match d, fuel with
  | [], _ => []
  | _, O => []
  | _, S fuel =>
      let '(ok, n) := utf8_scan d in
      (if ok then take n d else replacement) ++ utf8_lossy_loop fuel (drop n d)
  end.

(** [String::from_utf8_lossy(d).into_owned()]. *)
Definition from_utf8_lossy (d : bytes) : bytes := utf8_lossy_loop (length d) d.

(** [String::from_utf8(d.to_vec()).ok()], [str::from_utf8(d).ok()]. *)
Definition from_utf8 (d : bytes) : option bytes := if utf8_valid d then Some d else None.

(** ** Facts *)

Lemma utf8_scan_pos d ok n : utf8_scan d = (ok, n) → (1 <= n)%nat.
Proof. unfold utf8_scan. repeat destruct_match; intros [= <- <-]; lia. Qed.

Lemma safe_get_nonzero d i : safe_get d i ≠ 0 → (i < length d)%nat.
Proof.
  unfold safe_get. intros H. apply lookup_lt_is_Some.
  destruct (d !! i); [by eexists|done].
Qed.

Lemma is_cont_nonzero b : is_cont b = true → b ≠ 0.
Proof. unfold is_cont, in_range. intros H ->. done. Qed.

Lemma second_ok_nonzero a b : second_ok a b = true → b ≠ 0.
Proof. unfold second_ok. repeat destruct_match; intros H ->; done. Qed.

Lemma utf8_scan_len d n : d ≠ [] → utf8_scan d = (true, n) → (n <= length d)%nat.
Proof.
  intros Hd. assert (0 < length d)%nat by (destruct d; simpl; [done|lia]).
  unfold utf8_scan. repeat destruct_match; intros [= <-]; try lia;
    match goal with
    | H : is_cont (safe_get _ _) = true |- _ =>
        apply is_cont_nonzero, safe_get_nonzero in H; lia
    end.
Qed.

Lemma safe_get_take d e n i :
  (i < n)%nat → (n <= length d)%nat → safe_get (take n d ++ e) i = safe_get d i.
Proof.
  intros. unfold safe_get. rewrite lookup_app_l by (rewrite length_take; lia).
  by rewrite lookup_take_lt.
Qed.

(** A well-formed scalar value is recognised whatever follows it. *)
Lemma utf8_scan_stable d n e :
  d ≠ [] → utf8_scan d = (true, n) → utf8_scan (take n d ++ e) = (true, n).
Proof.
  intros Hd H. pose proof (utf8_scan_len d n Hd H). pose proof (utf8_scan_pos d _ n H).
  revert H. unfold utf8_scan. rewrite (safe_get_take d e n 0) by lia.
  repeat destruct_match; intros [= <-]; try done;
    repeat match goal with
    | H : context [safe_get (take _ _ ++ _) _] |- _ => rewrite safe_get_take in H by lia
    end; congruence.
Qed.

Lemma utf8_valid_loop_mono fuel fuel' d :
  (length d <= fuel)%nat → (length d <= fuel')%nat →
  utf8_valid_loop fuel d = utf8_valid_loop fuel' d.
Proof.
  revert fuel' d. induction fuel as [|fuel IH]; intros [|fuel'] [|b d] H H';
    simpl in H, H'; try lia; try done.
  cbn [utf8_valid_loop]. destruct (utf8_scan (b :: d)) as [ok n] eqn:E.
  apply utf8_scan_pos in E. f_equal. apply IH; rewrite length_drop; simpl; lia.
Qed.

Lemma utf8_valid_unfold d :
  d ≠ [] → utf8_valid d = let '(ok, n) := utf8_scan d in ok && utf8_valid (drop n d).
Proof.
  intros Hd. unfold utf8_valid. destruct d as [|b d]; [done|].
  cbn [length utf8_valid_loop]. destruct (utf8_scan (b :: d)) as [ok n] eqn:E.
  apply utf8_scan_pos in E. f_equal.
  apply utf8_valid_loop_mono; rewrite length_drop; simpl; lia.
Qed.

Lemma utf8_valid_char c n e :
  c ≠ [] → utf8_scan c = (true, n) → utf8_valid (take n c ++ e) = utf8_valid e.
Proof.
  intros Hc H. pose proof (utf8_scan_len c n Hc H). pose proof (utf8_scan_pos c _ n H).
  rewrite utf8_valid_unfold.
  - rewrite (utf8_scan_stable c n e Hc H). simpl.
    rewrite drop_app_le by (rewrite length_take; lia).
    by rewrite drop_ge by (rewrite length_take; lia).
  - destruct c; [done|]. destruct n; [lia|done].
Qed.

(** [from_utf8_lossy] is the identity on valid UTF-8 and always returns valid
    UTF-8. *)
Lemma utf8_lossy_loop_valid fuel d :
  utf8_valid_loop fuel d = true → utf8_lossy_loop fuel d = d.
Proof.
  revert d. induction fuel as [|fuel IH]; intros [|b d]; [done|done|done|].
  cbn [utf8_valid_loop utf8_lossy_loop]. destruct (utf8_scan (b :: d)) as [ok n].
  intros H. apply andb_true_iff in H as [-> H]. rewrite IH by done. apply take_drop.
Qed.

Lemma from_utf8_lossy_id d : utf8_valid d = true → from_utf8_lossy d = d.
Proof. apply utf8_lossy_loop_valid. Qed.

Lemma utf8_lossy_loop_ok fuel d :
  (length d <= fuel)%nat → utf8_valid (utf8_lossy_loop fuel d) = true.
Proof.
  revert d. induction fuel as [|fuel IH]; intros [|b d] H; [done|simpl in H; lia|done|].
  cbn [utf8_lossy_loop]. destruct (utf8_scan (b :: d)) as [ok n] eqn:E.
  pose proof (utf8_scan_pos _ _ _ E).
  assert (utf8_valid (utf8_lossy_loop fuel (drop n (b :: d))) = true) as Hr.
  { apply IH. rewrite length_drop. simpl in *. lia. }
  destruct ok.
  - by rewrite (utf8_valid_char (b :: d)).
  - by rewrite (utf8_valid_char replacement 3).
Qed.

Lemma from_utf8_lossy_valid d : utf8_valid (from_utf8_lossy d) = true.
Proof. by apply utf8_lossy_loop_ok. Qed.

Lemma from_utf8_valid d : utf8_valid d = true → from_utf8 d = Some d.
Proof. unfold from_utf8. by intros ->. Qed.

Lemma from_utf8_some d s : from_utf8 d = Some s ↔ s = d ∧ utf8_valid d = true.
Proof. unfold from_utf8. destruct (utf8_valid d); naive_solver. Qed.

(** A replacement is no longer than three bytes per byte replaced. *)
Lemma from_utf8_lossy_len d : blen (from_utf8_lossy d) <= 3 * blen d.
Proof.
  unfold from_utf8_lossy. generalize (length d) as fuel. intros fuel. revert d.
  induction fuel as [|fuel IH]; intros [|b d]; try done.
  cbn [utf8_lossy_loop]. destruct (utf8_scan (b :: d)) as [ok n] eqn:E.
  apply utf8_scan_pos in E. rewrite blen_app.
  specialize (IH (drop n (b :: d))). unfold blen in *. rewrite length_drop in IH.
  assert (length (if ok then take n (b :: d) else replacement)
          <= 3 * Nat.min n (length (b :: d)))%nat.
  { destruct ok; [rewrite length_take|simpl]; lia. }
  lia.
Qed.
