(* ===== verification/FieldType.v ===== *)
(** * Wire field types (dial9-trace-format/src/types.rs, [FieldType])

    The enum with its tags, the optional modifier [0x80], and [from_tag]. *)

From Stdlib Require Import ZArith Lia.
From stdpp Require Import base list option.
From S2P Require Import Prelude.

Module FieldType.

Inductive t : Set :=
| I64 | F64 | Bool | String | Bytes | PooledStackFrames | PooledString
| StackFrames | Varint | StringMap | U8 | U16 | U32 | DynamicList | DynamicMap
| OptionalI64 | OptionalF64 | OptionalBool | OptionalString | OptionalBytes
| OptionalPooledStackFrames | OptionalPooledString | OptionalStackFrames
| OptionalVarint | OptionalStringMap | OptionalU8 | OptionalU16 | OptionalU32
| OptionalDynamicList | OptionalDynamicMap.

End FieldType.

#[global] Instance FieldType_eq_dec : EqDecision FieldType.t.
Proof. solve_decision. Defined.

(** [field_type as u8]. *)
Definition tag_of (ft : FieldType.t) : Z :=
  match ft with
  | FieldType.I64 => 1 | FieldType.F64 => 2 | FieldType.Bool => 3
  | FieldType.String => 4 | FieldType.Bytes => 5
  | FieldType.PooledStackFrames => 6 | FieldType.PooledString => 7
  | FieldType.StackFrames => 8 | FieldType.Varint => 9
  | FieldType.StringMap => 10 | FieldType.U8 => 11 | FieldType.U16 => 12
  | FieldType.U32 => 13 | FieldType.DynamicList => 14
  | FieldType.DynamicMap => 15
  | FieldType.OptionalI64 => 0x81 | FieldType.OptionalF64 => 0x82
  | FieldType.OptionalBool => 0x83 | FieldType.OptionalString => 0x84
  | FieldType.OptionalBytes => 0x85
  | FieldType.OptionalPooledStackFrames => 0x86
  | FieldType.OptionalPooledString => 0x87
  | FieldType.OptionalStackFrames => 0x88 | FieldType.OptionalVarint => 0x89
  | FieldType.OptionalStringMap => 0x8A | FieldType.OptionalU8 => 0x8B
  | FieldType.OptionalU16 => 0x8C | FieldType.OptionalU32 => 0x8D
  | FieldType.OptionalDynamicList => 0x8E
  | FieldType.OptionalDynamicMap => 0x8F
  end.

Definition OPTIONAL_BIT : Z := 0x80.

Definition from_tag (tag : Z) : option FieldType.t :=
  match tag with
  | 1 => Some FieldType.I64 | 2 => Some FieldType.F64
  | 3 => Some FieldType.Bool | 4 => Some FieldType.String
  | 5 => Some FieldType.Bytes | 6 => Some FieldType.PooledStackFrames
  | 7 => Some FieldType.PooledString | 8 => Some FieldType.StackFrames
  | 9 => Some FieldType.Varint | 10 => Some FieldType.StringMap
  | 11 => Some FieldType.U8 | 12 => Some FieldType.U16
  | 13 => Some FieldType.U32 | 14 => Some FieldType.DynamicList
  | 15 => Some FieldType.DynamicMap
  | 0x81 => Some FieldType.OptionalI64 | 0x82 => Some FieldType.OptionalF64
  | 0x83 => Some FieldType.OptionalBool | 0x84 => Some FieldType.OptionalString
  | 0x85 => Some FieldType.OptionalBytes
  | 0x86 => Some FieldType.OptionalPooledStackFrames
  | 0x87 => Some FieldType.OptionalPooledString
  | 0x88 => Some FieldType.OptionalStackFrames
  | 0x89 => Some FieldType.OptionalVarint
  | 0x8A => Some FieldType.OptionalStringMap
  | 0x8B => Some FieldType.OptionalU8 | 0x8C => Some FieldType.OptionalU16
  | 0x8D => Some FieldType.OptionalU32
  | 0x8E => Some FieldType.OptionalDynamicList
  | 0x8F => Some FieldType.OptionalDynamicMap
  | _ => None
  end.

Definition is_optional (ft : FieldType.t) : bool :=
  negb (Z.land (tag_of ft) OPTIONAL_BIT =? 0).

Definition inner (ft : FieldType.t) : FieldType.t :=
  default ft (from_tag (Z.land (tag_of ft) 0x7F)).

Lemma from_tag_tag_of ft : from_tag (tag_of ft) = Some ft.
Proof. by destruct ft. Qed.

Lemma tag_of_fits ft : fits 8 (tag_of ft).
Proof. by destruct ft. Qed.

Lemma b2z_tag_of ft : b2z (z2b (tag_of ft)) = tag_of ft.
Proof. apply b2z_z2b, tag_of_fits. Qed.

(** Only the listed tags are accepted, and each stands for one type. *)
Lemma from_tag_some tag ft : from_tag tag = Some ft ↔ tag = tag_of ft.
Proof.
  split; [|intros ->; apply from_tag_tag_of].
  unfold from_tag. destruct tag as [|p|p]; try done.
  repeat (destruct p as [p|p|]; try done); by intros [= <-].
Qed.

Lemma inner_not_optional ft : is_optional (inner ft) = false.
Proof. by destruct ft. Qed.

Lemma inner_id ft : is_optional ft = false → inner ft = ft.
Proof. by destruct ft. Qed.

(** The optional bit only adds the modifier to the inner tag. *)
Lemma tag_of_optional ft :
  is_optional ft = true → tag_of ft = Z.lor (tag_of (inner ft)) OPTIONAL_BIT.
Proof. by destruct ft. Qed.
