(* ===== verification/FieldValue.v ===== *)
(** * Owned field values (dial9-trace-format/src/types.rs, [FieldValue])

    The value type, [field_type_tag], the wire encoding [encode] and the
    depth-limited owned decoder [decode_depth].  An [f64] is its bit pattern
    ([to_le_bytes] and [from_le_bytes] are bit casts), a Rust [String] is its
    UTF-8 bytes, the pool handles are their [u32]. *)

From Stdlib Require Import ZArith Lia.
From stdpp Require Import base list sets strings option.
From coqutil Require Import Byte Word.LittleEndianList.
From S2P Require Import Prelude.
From S2P Require Import Leb128.
From S2P Require Import Utf8.
From S2P Require Import FieldType.

Module FieldValue.

Inductive t : Type :=
| I64 (v : Z)
| F64 (bits : Z)
| Bool (v : bool)
| String (v : bytes)
| Bytes (v : bytes)
| PooledString (id : Z)
| StackFrames (addrs : list Z)
| PooledStackFrames (id : Z)
| Varint (v : Z)
| StringMap (pairs : list (bytes * bytes))
| List (items : list t)
| Map (pairs : list (t * t))
| None.

End FieldValue.

Definition MAX_DECODE_CONTAINER_ELEMENTS : Z := 1000000.

Definition MAX_DECODE_RECURSION_DEPTH : Z := 32.

Definition field_type_tag (v : FieldValue.t) : Z :=
  match v with
  | FieldValue.I64 _ => tag_of FieldType.I64
  | FieldValue.F64 _ => tag_of FieldType.F64
  | FieldValue.Bool _ => tag_of FieldType.Bool
  | FieldValue.String _ => tag_of FieldType.String
  | FieldValue.Bytes _ => tag_of FieldType.Bytes
  | FieldValue.PooledString _ => tag_of FieldType.PooledString
  | FieldValue.StackFrames _ => tag_of FieldType.StackFrames
  | FieldValue.PooledStackFrames _ => tag_of FieldType.PooledStackFrames
  | FieldValue.Varint _ => tag_of FieldType.Varint
  | FieldValue.StringMap _ => tag_of FieldType.StringMap
  | FieldValue.List _ => tag_of FieldType.DynamicList
  | FieldValue.Map _ => tag_of FieldType.DynamicMap
  | FieldValue.None => 0
  end.

(** [(x.len() as u32).to_le_bytes()] followed by the bytes. *)
Definition put_len_prefixed (v : bytes) : bytes := put_le 4 (blen v) ++ v.

Definition put_pair (kv : bytes * bytes) : bytes :=
  put_len_prefixed (fst kv) ++ put_len_prefixed (snd kv).

Fixpoint encode (v : FieldValue.t) : bytes :=
  match v with
  | FieldValue.I64 v => put_le 8 v
  | FieldValue.F64 v => put_le 8 v
  | FieldValue.Bool v => [if v then Byte.x01 else Byte.x00]
  | FieldValue.String v => put_len_prefixed v
  | FieldValue.Bytes v => put_len_prefixed v
  | FieldValue.PooledString id => put_le 4 id
  | FieldValue.PooledStackFrames id => put_le 4 id
  | FieldValue.Varint v => encode_unsigned v
  | FieldValue.StackFrames addrs =>
      put_le 4 (blen addrs) ++ concat (put_le 8 <$> addrs)
  | FieldValue.StringMap pairs =>
      put_le 4 (blen pairs) ++ concat (put_pair <$> pairs)
  | FieldValue.List items =>
      put_le 4 (blen items)
      ++ concat (map (fun item => z2b (field_type_tag item) :: encode item) items)
  | FieldValue.Map pairs =>
      put_le 4 (blen pairs)
      ++ concat (map (fun '(k, v) =>
           (z2b (field_type_tag k) :: encode k)
           ++ (z2b (field_type_tag v) :: encode v)) pairs)
  | FieldValue.None => [Byte.x00]
  end.

Local Open Scope parser_scope.

(** [u32::from_le_bytes(..) as usize] bytes following the length. *)
Definition get_len_prefixed : parser bytes := n <~ get_le 4 ;; take_bytes n.

Definition get_pair : parser (bytes * bytes) :=
  k <~ get_len_prefixed ;; v <~ get_len_prefixed ;; pret (k, v).

(** The element count of a container, refused above the cap. *)
Definition get_count : parser nat :=
  count <~ get_le 4 ;;
  pguard (negb (count >? MAX_DECODE_CONTAINER_ELEMENTS)) ;;;
  pret (Z.to_nat count).

(** A tag byte and the value decoded at that type. *)
Definition get_tagged {A} (dec : FieldType.t → parser A) : parser A :=
  tag <~ get_byte ;; ft <~ plift (from_tag (b2z tag)) ;; dec ft.

(** [decode_depth]; [fuel] bounds the nesting of calls (at most two per level
    of depth, see [decode_depth_fuel]). *)
Fixpoint decode_depth (fuel : nat) (field_type : FieldType.t) (depth : Z)
    : parser FieldValue.t :=
  match fuel with
  | O => pfail
  | S fuel =>
  if depth >? MAX_DECODE_RECURSION_DEPTH then pfail else
  match field_type with
  | FieldType.I64 => v <~ get_le 8 ;; pret (FieldValue.I64 (to_signed 64 v))
  | FieldType.F64 => v <~ get_le 8 ;; pret (FieldValue.F64 v)
  | FieldType.Bool => b <~ get_byte ;; pret (FieldValue.Bool (negb (b2z b =? 0)))
  | FieldType.String =>
      s <~ get_len_prefixed ;;
      pret (FieldValue.String
              (match from_utf8 s with Some s => s | None => from_utf8_lossy s end))
  | FieldType.Bytes => b <~ get_len_prefixed ;; pret (FieldValue.Bytes b)
  | FieldType.PooledString => id <~ get_le 4 ;; pret (FieldValue.PooledString id)
  | FieldType.PooledStackFrames =>
      id <~ get_le 4 ;; pret (FieldValue.PooledStackFrames id)
  | FieldType.Varint => v <~ get_leb ;; pret (FieldValue.Varint v)
  | FieldType.U8 => b <~ get_byte ;; pret (FieldValue.Varint (b2z b))
  | FieldType.U16 => v <~ get_le 2 ;; pret (FieldValue.Varint v)
  | FieldType.U32 => v <~ get_le 4 ;; pret (FieldValue.Varint v)
  | FieldType.StackFrames =>
      n <~ get_count ;; l <~ get_many (get_le 8) n ;; pret (FieldValue.StackFrames l)
  | FieldType.StringMap =>
      n <~ get_count ;; l <~ get_many get_pair n ;; pret (FieldValue.StringMap l)
  | FieldType.DynamicList | FieldType.OptionalDynamicList =>
      n <~ get_count ;;
      l <~ get_many (get_tagged (fun ft => decode_depth fuel ft (depth + 1))) n ;;
      pret (FieldValue.List l)
  | FieldType.DynamicMap | FieldType.OptionalDynamicMap =>
      n <~ get_count ;;
      l <~ get_many
             (k <~ get_tagged (fun ft => decode_depth fuel ft (depth + 1)) ;;
              v <~ get_tagged (fun ft => decode_depth fuel ft (depth + 1)) ;;
              pret (k, v)) n ;;
      pret (FieldValue.Map l)
  | _ => decode_depth fuel (inner field_type) depth
  end
  end.

(** Two calls per level for 34 levels. *)
Definition DECODE_FUEL : nat := 68.

Definition decode (field_type : FieldType.t) : parser FieldValue.t :=
  decode_depth DECODE_FUEL field_type 0.

#[global] Strategy expand [decode].
#[global] Strategy 100 [decode_depth].

(** One schema field of an event: the presence prefix of an optional field,
    then the value (the loop body of [decode_event_frame]). *)
Definition decode_field (ft : FieldType.t) : parser FieldValue.t :=
  if is_optional ft then
    prefix <~ get_byte ;;
    if b2z prefix =? 0 then pret FieldValue.None else decode (inner ft)
  else decode ft.

(** [EventEncoder::write_field_value]. *)
Definition write_field_value (v : FieldValue.t) (ft : FieldType.t) : bytes :=
  if is_optional ft then
    match v with
    | FieldValue.None => [Byte.x00]
    | other => Byte.x01 :: encode other
    end
  else encode v.

Definition is_none (v : FieldValue.t) : bool :=
  match v with FieldValue.None => true | _ => false end.

(** The values the Rust types and the wire format can carry: integers of their
    width, lengths below 2^32, valid UTF-8 in strings, containers under the
    decoder's cap, and no absent value inside a container. *)
Fixpoint value_ok (v : FieldValue.t) : bool :=
  match v with
  | FieldValue.I64 v => bool_decide (fits_signed 64 v)
  | FieldValue.F64 v => bool_decide (fits 64 v)
  | FieldValue.Bool _ => true
  | FieldValue.String s => utf8_valid s && (blen s <? 2 ^ 32)
  | FieldValue.Bytes s => blen s <? 2 ^ 32
  | FieldValue.PooledString id | FieldValue.PooledStackFrames id =>
      bool_decide (fits 32 id)
  | FieldValue.Varint v => bool_decide (fits 64 v)
  | FieldValue.StackFrames l =>
      (blen l <=? MAX_DECODE_CONTAINER_ELEMENTS)
      && forallb (fun a => bool_decide (fits 64 a)) l
  | FieldValue.StringMap l =>
      (blen l <=? MAX_DECODE_CONTAINER_ELEMENTS)
      && forallb (fun '(k, v) => (blen k <? 2 ^ 32) && (blen v <? 2 ^ 32)) l
  | FieldValue.List l =>
      (blen l <=? MAX_DECODE_CONTAINER_ELEMENTS)
      && forallb (fun x => negb (is_none x) && value_ok x) l
  | FieldValue.Map l =>
      (blen l <=? MAX_DECODE_CONTAINER_ELEMENTS)
      && forallb (fun '(k, v) =>
           (negb (is_none k) && value_ok k) && (negb (is_none v) && value_ok v)) l
  | FieldValue.None => true
  end.

(** How deep [decode_depth] recurses to read [v] back. *)
Fixpoint nesting (v : FieldValue.t) : Z :=
  match v with
  | FieldValue.List l => foldr Z.max 0 (map (fun x => 1 + nesting x) l)
  | FieldValue.Map l =>
      foldr Z.max 0 (map (fun '(k, v) => Z.max (1 + nesting k) (1 + nesting v)) l)
  | _ => 0
  end.

(** ** Induction over nested values *)

Section value_ind.
Variable P : FieldValue.t → Prop.
Hypothesis Hscalar : ∀ v,
  (∀ l, v ≠ FieldValue.List l) → (∀ l, v ≠ FieldValue.Map l) → P v.
Hypothesis Hlist : ∀ l, Forall P l → P (FieldValue.List l).
Hypothesis Hmap :
  ∀ l, Forall (fun kv => P (fst kv) ∧ P (snd kv)) l → P (FieldValue.Map l).

Fixpoint value_nested_ind (v : FieldValue.t) : P v :=
  match v with
  | FieldValue.List l =>
      Hlist l ((fix go l : Forall P l :=
        match l with
        | [] => Forall_nil_2 _
        | x :: l => Forall_cons_2 _ _ _ (value_nested_ind x) (go l)
        end) l)
  | FieldValue.Map l =>
      Hmap l ((fix go l : Forall (fun kv => P (fst kv) ∧ P (snd kv)) l :=
        match l with
        | [] => Forall_nil_2 _
        | (k, v) :: l =>
            Forall_cons_2 _ (k, v) _
              (conj (value_nested_ind k) (value_nested_ind v)) (go l)
        end) l)
  | v => Hscalar v ltac:(done) ltac:(done)
  end.
End value_ind.

(** ** Pieces *)

Lemma get_len_prefixed_inverts v :
  blen v < 2 ^ 32 → Inverts get_len_prefixed (put_len_prefixed v) v.
Proof.
  intros Hv r. unfold get_len_prefixed, put_len_prefixed. rewrite <- app_assoc.
  pose proof (blen_nonneg v). rewrite pbind_put_le by (split; [done|exact Hv]).
  by apply take_bytes_app.
Qed.

#[global] Instance get_len_prefixed_local : Local get_len_prefixed.
Proof. apply _. Qed.

#[global] Instance get_pair_local : Local get_pair.
Proof. apply _. Qed.

Lemma get_pair_inverts kv :
  blen (fst kv) < 2 ^ 32 → blen (snd kv) < 2 ^ 32 → Inverts get_pair (put_pair kv) kv.
Proof.
  destruct kv as [k v]. cbn. intros Hk Hv r. unfold get_pair, put_pair. cbn.
  rewrite <- app_assoc, (pbind_inverts _ _ _ k) by by apply get_len_prefixed_inverts.
  by rewrite (pbind_inverts _ _ _ v) by by apply get_len_prefixed_inverts.
Qed.

#[global] Instance get_count_local : Local get_count.
Proof. apply _. Qed.

Lemma get_count_put {A} (l : list A) r :
  blen l <= MAX_DECODE_CONTAINER_ELEMENTS →
  get_count (put_le 4 (blen l) ++ r) = Some (length l, r).
Proof.
  intros Hl. unfold get_count. pose proof (blen_nonneg l).
  unfold MAX_DECODE_CONTAINER_ELEMENTS in *.
  rewrite pbind_put_le by (unfold fits; lia).
  destruct (Z.gtb_spec (blen l) 1000000); [lia|].
  cbn. unfold pret. by rewrite to_nat_blen.
Qed.

Lemma get_count_spec d n r :
  get_count d = Some (n, r) → Z.of_nat n <= MAX_DECODE_CONTAINER_ELEMENTS.
Proof.
  unfold get_count. intros H. parse_inv H.
  destruct (v >? MAX_DECODE_CONTAINER_ELEMENTS) eqn:Hgt; [done|].
  apply get_le_fits in E. unfold fits in E. injection H as <- <-. bool_facts. lia.
Qed.

#[global] Instance get_tagged_local {A} (dec : FieldType.t → parser A) :
  (∀ ft, Local (dec ft)) → Local (get_tagged dec).
Proof. intros. apply _. Qed.

#[global] Instance get_tagged_proper {A} :
  Proper (pointwise_relation _ (≡) ==> (≡)) (@get_tagged A).
Proof.
  intros f g Hfg. unfold get_tagged. apply pbind_proper; [done|]. intros tag.
  apply pbind_proper; [done|]. intros ft. apply Hfg.
Qed.

(** A tag byte written by [field_type_tag] selects that type. *)
Lemma get_tagged_put {A} (dec : FieldType.t → parser A) tag ft d :
  from_tag tag = Some ft → get_tagged dec (z2b tag :: d) = dec ft d.
Proof.
  intros H. pose proof H as Ht. apply from_tag_some in Ht as ->.
  unfold get_tagged. rewrite pbind_byte, b2z_tag_of, from_tag_tag_of.
  apply pbind_plift.
Qed.

Lemma value_has_type v :
  is_none v = false →
  ∃ ft, from_tag (field_type_tag v) = Some ft ∧ is_optional ft = false.
Proof. destruct v; intros; try done; by eexists. Qed.

(** ** Locality and fuel of the decoder *)

#[global] Instance decode_depth_local fuel ft depth : Local (decode_depth fuel ft depth).
Proof.
  revert ft depth. induction fuel as [|fuel IH]; intros ft depth; simpl; [apply _|].
  destruct (depth >? _); [apply _|]. destruct ft; apply _.
Qed.

#[global] Instance decode_local ft : Local (decode ft).
Proof. apply _. Qed.

#[global] Instance decode_field_local ft : Local (decode_field ft).
Proof.
  unfold decode_field. destruct (is_optional ft); [|apply _].
  apply pbind_local; [apply _|]. intros b. destruct (b2z b =? 0); apply _.
Qed.

(** Calls [decode_depth] can nest below one at [depth]. *)
Definition decode_calls (ft : FieldType.t) (depth : Z) : Z :=
  2 * Z.max 0 (MAX_DECODE_RECURSION_DEPTH + 1 - depth)
  + (if is_optional ft then 2 else 1).

Lemma decode_depth_fuel fuel fuel' ft depth :
  decode_calls ft depth <= Z.of_nat fuel → decode_calls ft depth <= Z.of_nat fuel' →
  decode_depth fuel ft depth ≡ decode_depth fuel' ft depth.
Proof.
  revert fuel' ft depth.
  induction fuel as [|fuel IH]; intros fuel' ft depth H H'.
  { unfold decode_calls in H. destruct (is_optional ft); lia. }
  destruct fuel' as [|fuel'].
  { unfold decode_calls in H'. destruct (is_optional ft); lia. }
  cbn [decode_depth]. destruct (depth >? MAX_DECODE_RECURSION_DEPTH) eqn:Hd; [done|].
  bool_facts. unfold decode_calls in H, H'.
  assert (∀ ft', decode_depth fuel ft' (depth + 1) ≡ decode_depth fuel' ft' (depth + 1))
    as Hrec.
  { intros ft'. apply IH; unfold decode_calls;
      destruct (is_optional ft'), (is_optional ft); lia. }
  destruct ft; try done;
    try (apply pbind_proper; [done|]; intros n; apply pbind_proper; [|done];
         apply get_many_proper; [|done]);
    try by apply get_tagged_proper.
  all: try (apply pbind_proper; [by apply get_tagged_proper|]; intros k;
            apply pbind_proper; [by apply get_tagged_proper|done]).
  all: change (is_optional _) with true in H, H'; cbv iota in H, H'.
  all: apply IH; unfold decode_calls; rewrite inner_not_optional; lia.
Qed.

(** ** The decoder inverts the encoder *)

Lemma foldr_max_le {A} (f : A → Z) l n :
  foldr Z.max 0 (map f l) <= n → ∀ x, x ∈ l → f x <= n.
Proof.
  induction l as [|y l IH]; intros H x Hx; [by apply not_elem_of_nil in Hx|].
  simpl in H. apply elem_of_cons in Hx as [->|Hx]; [lia|]. apply IH; [lia|done].
Qed.

Lemma foldr_max_lub {A} (f : A → Z) l n :
  0 <= n → (∀ x, x ∈ l → f x <= n) → foldr Z.max 0 (map f l) <= n.
Proof.
  induction l as [|y l IH]; intros H0 H; simpl; [done|].
  assert (f y <= n) by (apply H; set_solver).
  assert (foldr Z.max 0 (map f l) <= n) by (apply IH; [done|set_solver]). lia.
Qed.

Lemma forallb_elem {A} (f : A → bool) l x : forallb f l = true → x ∈ l → f x = true.
Proof. rewrite forallb_forall. intros H Hx. apply H. by apply list_elem_of_In. Qed.

Ltac use_forallb H Hx :=
  let K := fresh "K" in
  pose proof (forallb_elem _ _ _ H Hx) as K; cbv beta iota in K; bool_facts.

(** The integer types re-encode as [Varint]; every other type is the type of
    the values it decodes to. *)
Definition value_type (ft : FieldType.t) : FieldType.t :=
  match inner ft with
  | FieldType.U8 | FieldType.U16 | FieldType.U32 => FieldType.Varint
  | ft => ft
  end.

(** [v] is what a decoder reads at [ft]: present, and of that type. *)
Definition has_type (v : FieldValue.t) (ft : FieldType.t) : Prop :=
  is_none v = false ∧ field_type_tag v = tag_of ft.

#[global] Instance has_type_dec v ft : Decision (has_type v ft).
Proof. unfold has_type. apply _. Defined.

Lemma has_type_plain v ft : has_type v ft → is_optional ft = false ∧ inner ft = ft.
Proof.
  intros [Hn Ht]. destruct (value_has_type v Hn) as (ft' & Hft & Hopt).
  rewrite Ht, from_tag_tag_of in Hft. injection Hft as <-.
  split; [done|by apply inner_id].
Qed.

Lemma has_type_tag v ft : has_type v ft → from_tag (field_type_tag v) = Some ft.
Proof. intros [_ ->]. apply from_tag_tag_of. Qed.

Lemma foldr_max_nonneg l : 0 <= foldr Z.max 0 l.
Proof. induction l; simpl; lia. Qed.

Lemma nesting_nonneg v : 0 <= nesting v.
Proof. destruct v; try done; apply foldr_max_nonneg. Qed.

Lemma has_type_exists v : is_none v = false → ∃ ft, has_type v ft.
Proof.
  intros Hn. destruct (value_has_type v Hn) as (ft & Hft & _). exists ft.
  split; [done|by apply from_tag_some].
Qed.

Definition decodes_back (v : FieldValue.t) : Prop :=
  ∀ fuel depth ft,
    has_type v ft → value_ok v = true → 0 <= depth →
    depth + nesting v <= MAX_DECODE_RECURSION_DEPTH →
    MAX_DECODE_RECURSION_DEPTH < depth + Z.of_nat fuel →
    Inverts (decode_depth fuel ft depth) (encode v) v.

Lemma get_tagged_encode fuel depth v :
  decodes_back v → is_none v = false → value_ok v = true → 0 <= depth →
  depth + nesting v <= MAX_DECODE_RECURSION_DEPTH →
  MAX_DECODE_RECURSION_DEPTH < depth + Z.of_nat fuel →
  Inverts (get_tagged (λ ft, decode_depth fuel ft depth))
          (z2b (field_type_tag v) :: encode v) v.
Proof.
  intros Hv Hn Hok Hd Hnest Hfuel r. destruct (has_type_exists v Hn) as [ft Hft].
  cbn [app]. rewrite (get_tagged_put _ _ ft).
  - by apply Hv.
  - destruct Hft as [_ ->]. apply from_tag_tag_of.
Qed.

Lemma decodes_back_scalar v :
  (∀ l, v ≠ FieldValue.List l) → (∀ l, v ≠ FieldValue.Map l) → decodes_back v.
Proof.
  intros Hl Hm fuel depth ft Hft Hok Hd Hnest Hfuel r.
  pose proof (nesting_nonneg v).
  destruct fuel as [|fuel]; [lia|]. cbn [decode_depth].
  destruct (depth >? MAX_DECODE_RECURSION_DEPTH) eqn:E; [bool_facts; lia|]. clear E.
  apply has_type_tag in Hft.
  destruct v; cbn in Hft; try discriminate Hft; try (exfalso; naive_solver);
    injection Hft as <-; cbn [value_ok] in Hok; bool_facts; cbn [encode].
  - rewrite pbind_put_le_cast. unfold pret. by rewrite to_signed_cast.
  - by rewrite pbind_put_le.
  - by destruct v.
  - rewrite (pbind_inverts _ _ _ v) by by apply get_len_prefixed_inverts.
    by rewrite from_utf8_valid.
  - by rewrite (pbind_inverts _ _ _ v) by by apply get_len_prefixed_inverts.
  - by rewrite pbind_put_le.
  - rewrite <- app_assoc. unfold pbind at 1. rewrite get_count_put by done.
    unfold pbind. rewrite get_many_inverts; [done|]. intros x Hx e. apply get_put_le.
    by use_forallb H1 Hx.
  - by rewrite pbind_put_le.
  - unfold pbind. by rewrite get_leb_encode.
  - rewrite <- app_assoc. unfold pbind at 1. rewrite get_count_put by done.
    unfold pbind. rewrite get_many_inverts; [done|]. intros [k w] Hx e.
    use_forallb H1 Hx. by apply get_pair_inverts.
Qed.

Lemma decode_encode_depth v : decodes_back v.
Proof.
  induction v as [v Hl Hm|l IH|l IH] using value_nested_ind;
    [by apply decodes_back_scalar|..];
    intros fuel depth ft Hft Hok Hd Hnest Hfuel r;
    match type of Hnest with context [nesting ?v] =>
      pose proof (nesting_nonneg v) as Hnn end;
    apply has_type_tag in Hft; injection Hft as <-;
    cbn [value_ok] in Hok; apply andb_true_iff in Hok as [Hlen Hok]; bool_facts;
    rewrite list.Forall_forall in IH; cbn [nesting] in Hnest, Hnn;
    match type of Hnest with _ + ?m <= ?n =>
      assert (m <= n - depth) as Hmax by lia end;
    pose proof (foldr_max_le _ _ _ Hmax) as Hsub; clear Hmax;
    (destruct fuel as [|fuel]; [lia|]);
    cbn [decode_depth encode];
    (destruct (depth >? MAX_DECODE_RECURSION_DEPTH) eqn:E; [bool_facts; lia|]); clear E;
    rewrite <- app_assoc; unfold pbind at 1; rewrite get_count_put by done; unfold pbind at 1.
  - rewrite (get_many_inverts _ (fun v => z2b (field_type_tag v) :: encode v)); [done|].
    intros x Hx. use_forallb Hok Hx. specialize (Hsub _ Hx). cbv beta in Hsub.
    apply get_tagged_encode; auto; lia.
  - rewrite (get_many_inverts _ (fun '(k, v) => 
           (z2b (field_type_tag k) :: encode k)
           ++ (z2b (field_type_tag v) :: encode v))); [done|].
    intros [k w] Hx e. destruct (IH _ Hx). use_forallb Hok Hx.
    specialize (Hsub _ Hx). cbv beta iota in Hsub |- *. rewrite <- app_assoc.
    rewrite (pbind_inverts _ _ _ k) by (apply get_tagged_encode; auto; lia).
    by rewrite (pbind_inverts _ _ _ w) by (apply get_tagged_encode; auto; lia).
Qed.

(** ** What the decoder returns *)

Lemma get_len_prefixed_len d v r :
  get_len_prefixed d = Some (v, r) → blen v < 2 ^ 32 ∧ blen v <= blen d.
Proof.
  intros H. pose proof (local_len _ _ _ _ _ H). unfold get_len_prefixed in H.
  parse_inv H. apply take_bytes_spec in H as [-> Hv].
  pose proof (local_len _ _ _ _ _ E) as Hlen. apply get_le_fits in E.
  rewrite blen_app in Hlen. pose proof (blen_nonneg r). unfold fits in E. lia.
Qed.

Lemma get_tagged_some {A} (dec : FieldType.t → parser A) d x r :
  get_tagged dec d = Some (x, r) →
  ∃ ft d', dec ft d' = Some (x, r) ∧ blen d' <= blen d.
Proof.
  unfold get_tagged. intros H. parse_inv H. apply get_byte_local in E as (c & -> & _).
  destruct (from_tag (b2z v)) as [ft|]; [|done].
  exists ft, r0. split; [done|]. rewrite blen_app. pose proof (blen_nonneg c). lia.
Qed.

(** Strings grow by at most a factor of three when repaired. *)
Definition small_input (d : bytes) : Prop := 3 * blen d < 2 ^ 32.

#[global] Instance small_input_dec d : Decision (small_input d).
Proof. unfold small_input. apply _. Defined.

Definition well_decoded (depth : Z) (ft : FieldType.t) (v : FieldValue.t) : Prop :=
  value_ok v = true ∧ has_type v (value_type ft) ∧
  depth + nesting v <= MAX_DECODE_RECURSION_DEPTH.

Lemma get_tagged_well_decoded fuel depth d x r :
  (∀ ft d v r, small_input d → decode_depth fuel ft depth d = Some (v, r) →
     well_decoded depth ft v) →
  small_input d →
  get_tagged (λ ft, decode_depth fuel ft depth) d = Some (x, r) →
  is_none x = false ∧ value_ok x = true ∧
  depth + nesting x <= MAX_DECODE_RECURSION_DEPTH.
Proof.
  intros Hrec Hd H. apply get_tagged_some in H as (ft & d' & H & Hlen).
  apply Hrec in H as (? & [? _] & ?); [done|]. unfold small_input in *. lia.
Qed.

Lemma get_count_len {A} d n r (p : parser A) r' l s :
  get_count d = Some (n, r) → get_many p n r' = Some (l, s) →
  (blen l <=? MAX_DECODE_CONTAINER_ELEMENTS) = true.
Proof.
  intros H1 H2. apply get_count_spec in H1. apply get_many_length in H2.
  apply Z.leb_le. zlia.
Qed.

Lemma forallb_intro {A} (f : A → bool) l : Forall (λ x, f x = true) l → forallb f l = true.
Proof. induction 1; simpl; [done|]. by apply andb_true_iff. Qed.

Section well_decoded_items.
Variables (fuel : nat) (depth : Z) (d r : bytes) (n : nat).
Hypothesis rec : ∀ ft d v r,
  small_input d → decode_depth fuel ft (depth + 1) d = Some (v, r) →
  well_decoded (depth + 1) ft v.
Hypothesis depth_ok : depth <= MAX_DECODE_RECURSION_DEPTH.
Hypothesis Hd : small_input d.
Hypothesis Hn : get_count d = Some (n, r).

Let item := get_tagged (λ ft, decode_depth fuel ft (depth + 1)).
Let good x := is_none x = false ∧ value_ok x = true ∧
  depth + 1 + nesting x <= MAX_DECODE_RECURSION_DEPTH.

Lemma item_ok d' x r' : blen d' <= blen r → item d' = Some (x, r') → good x.
Proof.
  intros Hlen Hx. eapply get_tagged_well_decoded; [exact rec| |exact Hx].
  pose proof (local_len _ _ _ _ _ Hn). unfold small_input in *. lia.
Qed.

Lemma list_ok l r' :
  get_many item n r = Some (l, r') →
  value_ok (FieldValue.List l) = true ∧
  depth + nesting (FieldValue.List l) <= MAX_DECODE_RECURSION_DEPTH.
Proof.
  intros H. cbn [value_ok]. rewrite (get_count_len _ _ _ _ _ _ _ Hn H).
  eapply (get_many_forall_le good) in H; [|apply _|apply item_ok]. split.
  - apply forallb_intro. eapply list.Forall_impl; [exact H|].
    by intros x (-> & -> & _).
  - cbn [nesting]. enough (foldr Z.max 0 (map (λ x, 1 + nesting x) l)
                           <= MAX_DECODE_RECURSION_DEPTH - depth) by lia.
    apply foldr_max_lub; [lia|]. intros x Hx.
    rewrite list.Forall_forall in H. destruct (H x Hx) as (_ & _ & ?). lia.
Qed.

Lemma map_ok l r' :
  get_many (k <~ item ;; v <~ item ;; pret (k, v)) n r = Some (l, r') →
  value_ok (FieldValue.Map l) = true ∧
  depth + nesting (FieldValue.Map l) <= MAX_DECODE_RECURSION_DEPTH.
Proof.
  intros H. cbn [value_ok]. rewrite (get_count_len _ _ _ _ _ _ _ Hn H).
  eapply (get_many_forall_le (λ kv, good kv.1 ∧ good kv.2)) in H; [|apply _|].
  2:{ intros d' x r2 Hlen Hx. parse_inv Hx. injection Hx as <- _. cbn.
      pose proof (local_len _ _ _ _ _ E).
      split; (eapply item_ok; [|eassumption]); lia. }
  split.
  - apply forallb_intro. eapply list.Forall_impl; [exact H|].
    intros [k v] [(H1 & H2 & _) (H3 & H4 & _)]. cbn in H1, H2, H3, H4.
    by rewrite H1, H2, H3, H4.
  - cbn [nesting]. enough (foldr Z.max 0
        (map (λ '(k, v), Z.max (1 + nesting k) (1 + nesting v)) l)
      <= MAX_DECODE_RECURSION_DEPTH - depth) by lia.
    apply foldr_max_lub; [lia|]. intros [k v] Hx.
    rewrite list.Forall_forall in H.
    destruct (H _ Hx) as [(_ & _ & ?) (_ & _ & ?)]. cbn in *. lia.
Qed.
End well_decoded_items.

Lemma from_utf8_or_lossy d :
  match from_utf8 d with Some s => s | None => from_utf8_lossy d end
  = from_utf8_lossy d.
Proof.
  unfold from_utf8. destruct (utf8_valid d) eqn:E; [|done].
  by rewrite from_utf8_lossy_id.
Qed.

Lemma string_ok d x r :
  small_input d → get_len_prefixed d = Some (x, r) →
  value_ok (FieldValue.String
    (match from_utf8 x with Some s => s | None => from_utf8_lossy x end)) = true.
Proof.
  intros Hd H. apply get_len_prefixed_len in H as [_ H]. cbn [value_ok].
  rewrite from_utf8_or_lossy, from_utf8_lossy_valid. apply Z.ltb_lt.
  pose proof (from_utf8_lossy_len x). unfold small_input in Hd. lia.
Qed.

Lemma stack_frames_ok d n r l r' :
  get_count d = Some (n, r) → get_many (get_le 8) n r = Some (l, r') →
  value_ok (FieldValue.StackFrames l) = true.
Proof.
  intros Hn Hl. cbn [value_ok]. rewrite (get_count_len _ _ _ _ _ _ _ Hn Hl).
  apply forallb_intro. eapply get_many_forall; [|exact Hl].
  intros ? ? ? E. apply get_le_fits in E. by apply bool_decide_eq_true.
Qed.

Lemma string_map_ok d n r l r' :
  get_count d = Some (n, r) → get_many get_pair n r = Some (l, r') →
  value_ok (FieldValue.StringMap l) = true.
Proof.
  intros Hn Hl. cbn [value_ok]. rewrite (get_count_len _ _ _ _ _ _ _ Hn Hl).
  apply forallb_intro. eapply get_many_forall; [|exact Hl].
  intros d' [k v] ? E. unfold get_pair in E. parse_inv E. injection E as <- <- _.
  apply get_len_prefixed_len in E0 as [? _], E1 as [? _].
  apply andb_true_iff. by split; apply Z.ltb_lt.
Qed.

Lemma signed_ok v : fits 64 v → value_ok (FieldValue.I64 (to_signed 64 v)) = true.
Proof. intros. by apply bool_decide_eq_true, to_signed_fits. Qed.

Lemma decode_depth_well_decoded fuel ft depth d v r :
  small_input d → decode_depth fuel ft depth d = Some (v, r) → well_decoded depth ft v.
Proof.
  revert ft depth d v r.
  induction fuel as [|fuel IH]; intros ft depth d v r Hd; cbn [decode_depth]; [done|].
  destruct (depth >? MAX_DECODE_RECURSION_DEPTH) eqn:Hdepth; [done|]. bool_facts.
  destruct ft; intros H;
    try (apply IH in H; [|done]; exact H);
    unfold pbind at 1 in H; destruct_match; try discriminate;
    match goal with p : _ * _ |- _ => destruct p as [x r1] end;
    try (unfold pbind at 1 in H; destruct_match; [|discriminate];
         match goal with p : _ * _ |- _ => destruct p as [l r2] end);
    injection H as <- <-;
    try (eapply list_ok in Heqo0 as [? ?]; [|by intros; eauto|done..]);
    try (eapply map_ok in Heqo0 as [? ?]; [|by intros; eauto|done..]);
    repeat match goal with
    | E : get_le _ _ = Some _ |- _ => apply get_le_fits in E
    | E : get_leb _ = Some _ |- _ => apply get_leb_fits in E
    end;
    (split; [|split; [done|try assumption; cbn [nesting]; lia]]);
    try done; try by (eapply string_ok || eapply stack_frames_ok || eapply string_map_ok
            || apply signed_ok; eassumption).
  all: try assumption; cbn [value_ok]; try by apply bool_decide_eq_true.
  all: try (apply bool_decide_eq_true; eapply fits_le;
            [|first [exact Heqo|apply b2z_fits]]; lia).
  apply get_len_prefixed_len in Heqo as [? _]. by apply Z.ltb_lt.
Qed.

Lemma decode_inverts v ft :
  has_type v ft → value_ok v = true → nesting v <= MAX_DECODE_RECURSION_DEPTH →
  Inverts (decode ft) (encode v) v.
Proof.
  intros Hft Hok Hn r. unfold decode.
  apply (decode_encode_depth v DECODE_FUEL 0 ft); [exact Hft|exact Hok|lia|lia|].
  unfold DECODE_FUEL, MAX_DECODE_RECURSION_DEPTH. lia.
Qed.

Lemma decode_list fuel depth :
  decode_depth (S fuel) FieldType.DynamicList depth =
  if depth >? MAX_DECODE_RECURSION_DEPTH then pfail else
  (n <~ get_count ;;
   l <~ get_many (get_tagged (fun ft => decode_depth fuel ft (depth + 1))) n ;;
   pret (FieldValue.List l)).
Proof. done. Qed.

Lemma decode_well_decoded ft d v r :
  small_input d → decode ft d = Some (v, r) → well_decoded 0 ft v.
Proof.
  intros Hd H. unfold decode in H.
  exact (decode_depth_well_decoded DECODE_FUEL ft 0 d v r Hd H).
Qed.

(** ** Main properties *)

(** Every well-formed value whose dynamic containers nest at most 32 deep
    is decoded from its own encoding, unchanged, at the type its tag names,
    and the decoder stops exactly where the encoding ends. *)
Theorem decode_encode v r ft :
  has_type v ft → value_ok v = true → nesting v <= MAX_DECODE_RECURSION_DEPTH →
  decode ft (encode v ++ r) = Some (v, r).
Proof. intros Hft Hok Hn. by apply decode_inverts. Qed.

Definition sample_value : FieldValue.t :=
  FieldValue.Map
    [(FieldValue.String (lit "k"), FieldValue.List [FieldValue.Varint 300; FieldValue.Bool true]);
     (FieldValue.I64 (-5), FieldValue.StackFrames [1; 2 ^ 63])].

Example decode_encode_witness :
  has_type sample_value FieldType.DynamicMap ∧
  decode FieldType.DynamicMap (encode sample_value ++ [Byte.x2a])
  = Some (sample_value, [Byte.x2a]).
Proof. split; [by vm_compute|]. by apply decode_encode. Defined.

(** What one schema field of an event writes is what its decoder reads. *)
Definition field_ok (v : FieldValue.t) (ft : FieldType.t) : Prop :=
  value_ok v = true ∧ nesting v <= MAX_DECODE_RECURSION_DEPTH ∧
  (has_type v (inner ft) ∨ is_optional ft = true ∧ v = FieldValue.None).

#[global] Instance field_ok_dec v ft : Decision (field_ok v ft).
Proof.
  unfold field_ok. apply and_dec; [apply _|]. apply and_dec; [apply _|].
  apply or_dec; [apply _|]. apply and_dec; [apply _|].
  destruct v; (by left) || (right; discriminate).
Defined.

Lemma decode_field_write v ft :
  field_ok v ft → Inverts (decode_field ft) (write_field_value v ft) v.
Proof.
  intros (Hok & Hn & [Ht|[Ho ->]]) r; unfold decode_field, write_field_value.
  - destruct (is_optional ft) eqn:Ho.
    + assert (match v with FieldValue.None => [Byte.x00]
              | other => Byte.x01 :: encode other end = Byte.x01 :: encode v) as ->
        by (destruct Ht as [Hnone _]; by destruct v).
      cbn [app]. rewrite pbind_byte. change (b2z Byte.x01 =? 0) with false. cbv iota.
      by apply decode_inverts.
    + rewrite inner_id in Ht by done. by apply decode_inverts.
  - by rewrite Ho.
Qed.

(** A field written under its schema type, optional fields and absent
    values included, is read back by the event decoder. *)
Theorem field_roundtrip v ft r :
  field_ok v ft → decode_field ft (write_field_value v ft ++ r) = Some (v, r).
Proof. intros H. by apply decode_field_write. Qed.

Example field_roundtrip_witness :
  field_ok (FieldValue.String (lit "hi")) FieldType.OptionalString ∧
  field_ok FieldValue.None FieldType.OptionalU32 ∧
  decode_field FieldType.OptionalString
    (write_field_value (FieldValue.String (lit "hi")) FieldType.OptionalString ++ [])
  = Some (FieldValue.String (lit "hi"), []) ∧
  decode_field FieldType.OptionalU32
    (write_field_value FieldValue.None FieldType.OptionalU32 ++ [Byte.x07])
  = Some (FieldValue.None, [Byte.x07]).
Proof.
  assert (field_ok (FieldValue.String (lit "hi")) FieldType.OptionalString) as H1
    by (split; [done|]; split; [done|]; by left).
  assert (field_ok FieldValue.None FieldType.OptionalU32) as H2
    by (split; [done|]; split; [done|]; by right).
  split; [done|]. split; [done|]. split.
  - by apply field_roundtrip.
  - by apply field_roundtrip.
Defined.

(** Whatever bytes the decoder accepts, the value it returns is well
    formed (integers in range, valid UTF-8, containers within the element cap,
    nesting within the depth limit) and has the type the schema asked for,
    U8, U16 and U32 reading as varints; so decoding its encoding gives it
    back. *)
Theorem decoded_value_reencodes ft d v r e :
  small_input d → decode ft d = Some (v, r) →
  value_ok v = true ∧ nesting v <= MAX_DECODE_RECURSION_DEPTH ∧
  has_type v (value_type ft) ∧
  decode (value_type ft) (encode v ++ e) = Some (v, e).
Proof.
  intros Hd H. destruct (decode_well_decoded _ _ _ _ Hd H) as (Hok & Ht & Hn).
  split; [exact Hok|]. split; [exact Hn|]. split; [exact Ht|].
  exact (decode_inverts v _ Ht Hok Hn e).
Qed.

Example decoded_value_reencodes_witness :
  let d := [Byte.x02; Byte.x00; Byte.x00; Byte.x00; Byte.xff; Byte.x41; Byte.x09] in
  small_input d ∧
  decode FieldType.OptionalString d
    = Some (FieldValue.String (replacement ++ [Byte.x41]), [Byte.x09]) ∧
  decode FieldType.String (encode (FieldValue.String (replacement ++ [Byte.x41])) ++ [])
    = Some (FieldValue.String (replacement ++ [Byte.x41]), []).
Proof.
  split; [by vm_compute|]. split; [by vm_compute|].
  eapply (decoded_value_reencodes FieldType.OptionalString
    [Byte.x02; Byte.x00; Byte.x00; Byte.x00; Byte.xff; Byte.x41; Byte.x09] _ [Byte.x09] []).
  - by vm_compute.
  - by vm_compute.
Defined.

(** The recursion of the decoder is bounded: two nested calls for each of
    the 33 admissible levels are all it ever makes, so any larger bound gives
    the same result on every input. *)
Theorem decode_fuel_enough ft d fuel :
  (DECODE_FUEL <= fuel)%nat → decode_depth fuel ft 0 d = decode ft d.
Proof.
  intros Hf. apply decode_depth_fuel; unfold decode_calls, DECODE_FUEL in *;
    destruct (is_optional ft); unfold MAX_DECODE_RECURSION_DEPTH; lia.
Qed.

Example decode_fuel_enough_witness :
  decode_depth 1000 FieldType.Bool 0 [Byte.x01] = decode FieldType.Bool [Byte.x01].
Proof. apply decode_fuel_enough. unfold DECODE_FUEL. lia. Defined.

(** An absent value inside a dynamic list is written with tag zero, which
    no decoder accepts: the encoder's output for such a list is never read
    back, whatever precedes and follows the absent value. *)
Theorem list_with_none_undecodable good rest r :
  let items := good ++ FieldValue.None :: rest in
  blen items < 2 ^ 32 → nesting (FieldValue.List good) <= MAX_DECODE_RECURSION_DEPTH →
  value_ok (FieldValue.List good) = true →
  decode FieldType.DynamicList (encode (FieldValue.List items) ++ r) = None.
Proof.
  intros items Hlen Hnest Hok. cbn [encode]. rewrite <- app_assoc.
  unfold decode, DECODE_FUEL. rewrite decode_list.
  change (0 >? MAX_DECODE_RECURSION_DEPTH) with false. cbv iota.
  unfold pbind at 1, get_count. pose proof (blen_nonneg items).
  rewrite pbind_put_le by (unfold fits; lia).
  destruct (blen items >? MAX_DECODE_CONTAINER_ELEMENTS); [done|].
  change (negb false) with true. rewrite pbind_pguard. unfold pret at 1. cbv beta iota.
  unfold pbind at 1. rewrite to_nat_blen.
  cbn [value_ok] in Hok. apply andb_true_iff in Hok as [_ Hok]. cbn [nesting] in Hnest.
  pose proof (foldr_max_le _ _ _ Hnest) as Hsub. cbv beta in Hsub.
  subst items. rewrite map_app, concat_app, <- app_assoc, length_app.
  cbn [map concat field_type_tag length].
  rewrite get_many_app_inverts_fail; [done| |done].
  intros x Hx. use_forallb Hok Hx. specialize (Hsub _ Hx).
  apply get_tagged_encode; [apply decode_encode_depth|assumption..|lia|lia|].
  unfold MAX_DECODE_RECURSION_DEPTH. lia.
Qed.

Example list_with_none_undecodable_witness :
  decode FieldType.DynamicList
    (encode (FieldValue.List [FieldValue.Bool true; FieldValue.None]) ++ []) = None.
Proof. by apply (list_with_none_undecodable [FieldValue.Bool true] []). Defined.
