(* ===== verification/FieldValueRef.v ===== *)
(** * Zero-copy field values (dial9-trace-format/src/types.rs, [FieldValueRef])

    The borrowed value type, its decoder over [(data, offset)], the iterators
    [StackFrameIter] and [StringMapIter], and [to_owned].  A borrowed slice is
    the bytes it covers. *)

From Stdlib Require Import ZArith Lia.
From stdpp Require Import base list sets strings option.
From coqutil Require Import Byte Word.LittleEndianList.
From S2P Require Import Prelude.
From S2P Require Import Leb128.
From S2P Require Import Utf8.
From S2P Require Import FieldType.
From S2P Require Import FieldValue.

Module FieldValueRef.

Inductive t : Type :=
| I64 (v : Z)
| F64 (bits : Z)
| Bool (v : bool)
| String (v : bytes)
| Bytes (v : bytes)
| PooledString (id : Z)
| StackFrames (data : bytes) (count : Z)
| PooledStackFrames (id : Z)
| Varint (v : Z)
| StringMap (data : bytes) (count : Z)
| List (items : list t)
| Map (pairs : list (t * t))
| None.

End FieldValueRef.

(** [data.get(a..)] and [data.get(a..b)]. *)
Definition slice_from (data : bytes) (a : Z) : option bytes :=
  if (0 <=? a) && (a <=? blen data) then Some (drop (Z.to_nat a) data) else None.

Definition slice (data : bytes) (a b : Z) : option bytes :=
  if (0 <=? a) && (a <=? b) && (b <=? blen data)
  then Some (take (Z.to_nat (b - a)) (drop (Z.to_nat a) data)) else None.

(** [uN::from_le_bytes(d.get(pos..pos + n)?.try_into().ok()?)]. *)
Definition le_at (d : bytes) (pos n : Z) : option Z :=
  b ← slice d pos (pos + n); Some (le_combine b).

(** [*d.get(pos)?]. *)
Definition byte_at (d : bytes) (pos : Z) : option Z :=
  if 0 <=? pos then b2z <$> d !! Z.to_nat pos else None.

(** The bounds-checking pass over the entries of a string map. *)
Fixpoint string_map_scan (n : nat) (d : bytes) (pos : Z) : option Z :=
  match n with
  | O => Some pos
  | S n =>
      e ← checked_add 64 pos 4; b ← slice d pos e; let klen := le_combine b in
      pos ← checked_add 64 pos 4; pos ← checked_add 64 pos klen;
      a ← checked_sub pos klen; _ ← slice d a pos;
      e ← checked_add 64 pos 4; b ← slice d pos e; let vlen := le_combine b in
      pos ← checked_add 64 pos 4; pos ← checked_add 64 pos vlen;
      a ← checked_sub pos vlen; _ ← slice d a pos;
      string_map_scan n d pos
  end.

Section containers.
Context {A : Type}.
(** [Self::decode_depth(ft, data, offset + pos, depth + 1)] by [pos]. *)
Variable dec : FieldType.t → Z → option (A * Z).

Definition tagged_at (d : bytes) (pos : Z) : option (A * Z) :=
  tag ← byte_at d pos; let pos := pos + 1 in
  ft ← from_tag tag;
  '(val, consumed) ← dec ft pos; Some (val, pos + consumed).

Fixpoint list_loop (n : nat) (d : bytes) (pos : Z) : option (list A * Z) :=
  match n with
  | O => Some ([], pos)
  | S n =>
      '(val, pos) ← tagged_at d pos;
      '(items, pos) ← list_loop n d pos; Some (val :: items, pos)
  end.

Fixpoint map_loop (n : nat) (d : bytes) (pos : Z) : option (list (A * A) * Z) :=
  match n with
  | O => Some ([], pos)
  | S n =>
      '(key, pos) ← tagged_at d pos; '(val, pos) ← tagged_at d pos;
      '(pairs, pos) ← map_loop n d pos; Some ((key, val) :: pairs, pos)
  end.
End containers.

(** The count of a container, refused above the cap. *)
Definition count_at (d : bytes) : option Z :=
  count ← le_at d 0 4;
  if count >? MAX_DECODE_CONTAINER_ELEMENTS then None else Some count.

Fixpoint ref_decode_depth (fuel : nat) (field_type : FieldType.t) (data : bytes)
    (offset depth : Z) : option (FieldValueRef.t * Z) :=
  match fuel with
  | O => None
  | S fuel =>
  if depth >? MAX_DECODE_RECURSION_DEPTH then None else
  d ← slice_from data offset;
  match field_type with
  | FieldType.I64 => v ← le_at d 0 8; Some (FieldValueRef.I64 (to_signed 64 v), 8)
  | FieldType.F64 => v ← le_at d 0 8; Some (FieldValueRef.F64 v, 8)
  | FieldType.Bool => b ← byte_at d 0; Some (FieldValueRef.Bool (negb (b =? 0)), 1)
  | FieldType.String =>
      len ← le_at d 0 4; b ← slice d 4 (4 + len);
      s ← from_utf8 b; Some (FieldValueRef.String s, 4 + len)
  | FieldType.Bytes =>
      len ← le_at d 0 4; b ← slice d 4 (4 + len); Some (FieldValueRef.Bytes b, 4 + len)
  | FieldType.PooledString => id ← le_at d 0 4; Some (FieldValueRef.PooledString id, 4)
  | FieldType.PooledStackFrames =>
      id ← le_at d 0 4; Some (FieldValueRef.PooledStackFrames id, 4)
  | FieldType.Varint =>
      '(v, consumed) ← decode_unsigned d; Some (FieldValueRef.Varint v, consumed)
  | FieldType.U8 => v ← byte_at d 0; Some (FieldValueRef.Varint v, 1)
  | FieldType.U16 => v ← le_at d 0 2; Some (FieldValueRef.Varint v, 2)
  | FieldType.U32 => v ← le_at d 0 4; Some (FieldValueRef.Varint v, 4)
  | FieldType.StackFrames =>
      count ← le_at d 0 4; let pos := 4 + count * 8 in
      s ← slice d 4 pos; Some (FieldValueRef.StackFrames s count, pos)
  | FieldType.StringMap =>
      count ← count_at d; pos ← string_map_scan (Z.to_nat count) d 4;
      s ← slice d 4 pos; Some (FieldValueRef.StringMap s count, pos)
  | FieldType.DynamicList | FieldType.OptionalDynamicList =>
      count ← count_at d;
      '(items, pos) ←
        list_loop (fun ft pos => ref_decode_depth fuel ft data (offset + pos) (depth + 1))
          (Z.to_nat count) d 4;
      Some (FieldValueRef.List items, pos)
  | FieldType.DynamicMap | FieldType.OptionalDynamicMap =>
      count ← count_at d;
      '(pairs, pos) ←
        map_loop (fun ft pos => ref_decode_depth fuel ft data (offset + pos) (depth + 1))
          (Z.to_nat count) d 4;
      Some (FieldValueRef.Map pairs, pos)
  | _ => ref_decode_depth fuel (inner field_type) data offset depth
  end
  end.

Definition ref_decode (field_type : FieldType.t) (data : bytes) (offset : Z)
    : option (FieldValueRef.t * Z) :=
  ref_decode_depth DECODE_FUEL field_type data offset 0.

#[global] Strategy expand [ref_decode].
#[global] Strategy 100 [ref_decode_depth].

(** [StackFrameIter] and [StringMapIter], run to the end: [data] is
    [data[pos..]], the fuel is [remaining]. *)
Fixpoint stack_frame_iter (remaining : nat) (data : bytes) : list Z :=
  match remaining with
  | O => []
  | S remaining =>
      match get_le 8 data with
      | Some (addr, data) => addr :: stack_frame_iter remaining data
      | None => []
      end
  end.

Definition string_map_next (data : bytes) : option ((bytes * bytes) * bytes) :=
  '(k, data) ← get_len_prefixed data; k ← from_utf8 k;
  '(v, data) ← get_len_prefixed data; v ← from_utf8 v; Some ((k, v), data).

Fixpoint string_map_iter (remaining : nat) (data : bytes) : list (bytes * bytes) :=
  match remaining with
  | O => []
  | S remaining =>
      match string_map_next data with
      | Some (kv, data) => kv :: string_map_iter remaining data
      | None => []
      end
  end.

Fixpoint to_owned (v : FieldValueRef.t) : FieldValue.t :=
  match v with
  | FieldValueRef.I64 v => FieldValue.I64 v
  | FieldValueRef.F64 v => FieldValue.F64 v
  | FieldValueRef.Bool v => FieldValue.Bool v
  | FieldValueRef.String v => FieldValue.String v
  | FieldValueRef.Bytes v => FieldValue.Bytes v
  | FieldValueRef.PooledString id => FieldValue.PooledString id
  | FieldValueRef.StackFrames data count =>
      FieldValue.StackFrames (stack_frame_iter (Z.to_nat count) data)
  | FieldValueRef.PooledStackFrames id => FieldValue.PooledStackFrames id
  | FieldValueRef.Varint v => FieldValue.Varint v
  | FieldValueRef.StringMap data count =>
      FieldValue.StringMap (string_map_iter (Z.to_nat count) data)
  | FieldValueRef.List l => FieldValue.List (map to_owned l)
  | FieldValueRef.Map l => FieldValue.Map (map (fun '(k, v) => (to_owned k, to_owned v)) l)
  | FieldValueRef.None => FieldValue.None
  end.

(** Where the two representations may differ: a stack above the element cap of
    the owned decoder, and a string map with an entry that is not UTF-8, at
    which the borrowing iterator ends. *)
Fixpoint owned_faithful (v : FieldValueRef.t) : bool :=
  match v with
  | FieldValueRef.StackFrames _ count => count <=? MAX_DECODE_CONTAINER_ELEMENTS
  | FieldValueRef.StringMap data count =>
      (Z.of_nat (length (string_map_iter (Z.to_nat count) data)) =? count)
  | FieldValueRef.List l => forallb owned_faithful l
  | FieldValueRef.Map l => forallb (fun '(k, v) => owned_faithful k && owned_faithful v) l
  | _ => true
  end.

(** ** Cursors: [d[pos..]] *)

Definition at_pos (d : bytes) (pos : Z) : bytes := drop (Z.to_nat pos) d.

Lemma at_pos_0 d : at_pos d 0 = d.
Proof. done. Qed.

Lemma blen_at_pos d pos : 0 <= pos <= blen d → blen (at_pos d pos) = blen d - pos.
Proof. unfold at_pos, blen. rewrite length_drop. lia. Qed.

Lemma at_pos_add d a b : 0 <= a → 0 <= b → at_pos (at_pos d a) b = at_pos d (a + b).
Proof. intros. unfold at_pos. rewrite drop_drop. f_equal. lia. Qed.

Lemma at_pos_app c e : at_pos (c ++ e) (blen c) = e.
Proof. unfold at_pos. rewrite to_nat_blen. apply drop_app_length. Qed.

Lemma slice_from_spec data a d :
  slice_from data a = Some d ↔ d = at_pos data a ∧ 0 <= a <= blen data.
Proof.
  unfold slice_from. destruct_match; bool_facts.
  - split; [intros [= <-]; done|by intros [-> _]].
  - split; [done|]. intros [_ H]. exfalso. destruct Heqb; bool_facts; lia.
Qed.

(** A slice is what [take_bytes] reads at its start. *)
Lemma slice_spec d a b s :
  slice d a b = Some s ↔
  0 <= a <= b ∧ b <= blen d ∧ take_bytes (b - a) (at_pos d a) = Some (s, at_pos d b).
Proof.
  unfold slice. destruct_match; bool_facts.
  - unfold take_bytes. rewrite blen_at_pos by lia.
    replace ((0 <=? b - a) && (b - a <=? blen d - a)) with true
      by (symmetry; apply andb_true_iff; split; apply Z.leb_le; lia).
    assert (drop (Z.to_nat (b - a)) (at_pos d a) = at_pos d b) as ->
      by (rewrite <- (Z.sub_add a b) at 2; rewrite Z.add_comm, <- at_pos_add by lia; done).
    unfold at_pos. naive_solver lia.
  - split; [done|]. intros (H1 & H2 & _). exfalso.
    destruct Heqb0 as [H|]; [|bool_facts; lia].
    apply andb_false_iff in H as []; bool_facts; lia.
Qed.

Lemma le_at_spec d pos n v :
  le_at d pos (Z.of_nat n) = Some v ↔
  0 <= pos ∧ pos + Z.of_nat n <= blen d ∧
  get_le n (at_pos d pos) = Some (v, at_pos d (pos + Z.of_nat n)).
Proof.
  unfold le_at, get_le, pbind, pret. split.
  - intros H. destruct (slice d pos _) as [s|] eqn:E; [|done]. injection H as <-.
    apply slice_spec in E as (? & ? & E).
    replace (pos + Z.of_nat n - pos) with (Z.of_nat n) in E by lia.
    rewrite E. split; [lia|]. split; [lia|done].
  - intros (? & ? & H). destruct (take_bytes _ _) as [[s r]|] eqn:E; [|done].
    injection H as <- ->.
    assert (slice d pos (pos + Z.of_nat n) = Some s) as ->; [|done].
    apply slice_spec. split; [lia|]. split; [lia|].
    by replace (pos + Z.of_nat n - pos) with (Z.of_nat n) by lia.
Qed.

Lemma byte_at_spec d pos v :
  byte_at d pos = Some v ↔
  ∃ b, v = b2z b ∧ 0 <= pos < blen d ∧
       get_byte (at_pos d pos) = Some (b, at_pos d (pos + 1)).
Proof.
  unfold byte_at. split.
  - destruct_match; [|done]. bool_facts. intros H.
    destruct (d !! Z.to_nat pos) as [b|] eqn:E; [|done]. injection H as <-.
    exists b. split; [done|]. pose proof (lookup_lt_Some _ _ _ E).
    split; [zlia|]. unfold at_pos. rewrite (drop_S _ _ _ E). cbn.
    by replace (Z.to_nat (pos + 1)) with (S (Z.to_nat pos)) by lia.
  - intros (b & -> & Hp & H).
    destruct (lookup_lt_is_Some_2 d (Z.to_nat pos)) as [b' E]; [zlia|].
    unfold at_pos in H. rewrite (drop_S _ _ _ E) in H. cbn in H. injection H as <- _.
    rewrite E. by replace (0 <=? pos) with true by (symmetry; apply Z.leb_le; lia).
Qed.

Lemma checked_add_some w a b c : checked_add w a b = Some c → c = a + b.
Proof. unfold checked_add. destruct_match; congruence. Qed.

Lemma checked_sub_some a b c : checked_sub a b = Some c → c = a - b.
Proof. unfold checked_sub. destruct_match; congruence. Qed.

(** Split the [x ← e; k] at the head of a hypothesis. *)
Ltac bind_inv H :=
  match type of H with
  | mbind _ ?e = Some _ =>
      let x := fresh "x" in let E := fresh "E" in
      destruct e as [x|] eqn:E; [cbn [mbind option_bind] in H; cbv zeta in H|discriminate H]
  end.

Lemma count_at_spec d count :
  count_at d = Some count →
  4 <= blen d ∧ get_count d = Some (Z.to_nat count, at_pos d 4) ∧
  0 <= count ∧ count <= MAX_DECODE_CONTAINER_ELEMENTS.
Proof.
  unfold count_at. intros H. bind_inv H.
  destruct (x >? MAX_DECODE_CONTAINER_ELEMENTS) eqn:Hx; [done|]. injection H as <-.
  apply (le_at_spec d 0 4) in E as (_ & Hl & E). rewrite at_pos_0 in E.
  pose proof (get_le_fits _ _ _ _ E) as Hf. unfold fits in Hf.
  split; [lia|]. split; [|bool_facts; lia].
  unfold get_count. unfold pbind at 1. rewrite E, Hx. done.
Qed.

Lemma slice_len_prefixed d pos b s :
  slice d pos (pos + 4) = Some b →
  slice d (pos + 4) (pos + 4 + le_combine b) = Some s →
  get_len_prefixed (at_pos d pos) = Some (s, at_pos d (pos + 4 + le_combine b)) ∧
  0 <= pos ∧ 0 <= le_combine b ∧ pos + 4 + le_combine b <= blen d.
Proof.
  intros Hb Hs. assert (le_at d pos (Z.of_nat 4) = Some (le_combine b)) as Hle.
  { unfold le_at. change (Z.of_nat 4) with 4. by rewrite Hb. }
  apply le_at_spec in Hle as (? & ? & Hle). apply slice_spec in Hs as (? & ? & Hs).
  change (Z.of_nat 4) with 4 in *.
  split; [|lia]. unfold get_len_prefixed, pbind. rewrite Hle, <- Hs. f_equal. lia.
Qed.

(** What the scan of a string map accepts are that many entries. *)
Lemma string_map_scan_spec n d pos pos' :
  string_map_scan n d pos = Some pos' → 0 <= pos <= blen d →
  pos <= pos' <= blen d ∧
  ∃ l, get_many get_pair n (at_pos d pos) = Some (l, at_pos d pos').
Proof.
  revert pos. induction n as [|n IH]; intros pos H Hp; cbn [string_map_scan] in H.
  { injection H as <-. split; [lia|]. by exists []. }
  repeat bind_inv H.
  repeat match goal with
  | E : checked_add _ _ _ = Some _ |- _ => apply checked_add_some in E as ->
  | E : checked_sub _ _ = Some _ |- _ => apply checked_sub_some in E as ->
  end.
  rewrite Z.add_simpl_r in E3, E8.
  destruct (slice_len_prefixed _ _ _ _ E0 E3) as (Hk & ? & ? & ?).
  destruct (slice_len_prefixed _ _ _ _ E5 E8) as (Hv & ? & ? & ?).
  apply IH in H as [? [l Hl]]; [|lia]. split; [lia|]. exists ((x3, x8) :: l).
  assert (get_pair (at_pos d pos) = Some ((x3, x8),
            at_pos d (pos + 4 + le_combine x0 + 4 + le_combine x5))) as Hkv.
  { unfold get_pair. by rewrite (pbind_some _ _ _ _ _ Hk), (pbind_some _ _ _ _ _ Hv). }
  cbn [get_many]. by rewrite (pbind_some _ _ _ _ _ Hkv), (pbind_some _ _ _ _ _ Hl).
Qed.

(** ** Agreement with the owned decoder *)

(** The cursor result [(v, n)] over [d] is the owned parse [x] of [d]. *)
Definition agrees {A} (p : parser A) (d : bytes) (x : A) (n : Z) : Prop :=
  0 <= n <= blen d ∧ p d = Some (x, at_pos d n).

Section containers_agree.
Variables (fuel : nat) (data : bytes) (offset depth : Z).
Let d := at_pos data offset.
Hypothesis offset_ok : 0 <= offset <= blen data.
Hypothesis rec : ∀ ft data offset v n,
  ref_decode_depth fuel ft data offset (depth + 1) = Some (v, n) →
  owned_faithful v = true → 0 <= offset <= blen data →
  agrees (decode_depth fuel ft (depth + 1)) (at_pos data offset) (to_owned v) n.

Let item := get_tagged (fun ft => decode_depth fuel ft (depth + 1)).
Let ref_item pos := tagged_at
  (fun ft pos => ref_decode_depth fuel ft data (offset + pos) (depth + 1)) d pos.

Lemma tagged_agrees pos v pos' :
  ref_item pos = Some (v, pos') → owned_faithful v = true → 0 <= pos <= blen d →
  pos <= pos' <= blen d ∧ item (at_pos d pos) = Some (to_owned v, at_pos d pos').
Proof.
  intros H Hf Hp. pose proof (blen_at_pos data offset offset_ok) as Hd.
  fold d in Hd. unfold ref_item, tagged_at in H. bind_inv H.
  apply byte_at_spec in E as (b & -> & Hb & E). bind_inv H.
  bind_inv H. destruct x0 as [v' n]. injection H as <- <-.
  apply rec in E1 as [Hn E1]; [|done|lia].
  rewrite blen_at_pos in Hn by lia. rewrite <- at_pos_add in E1 by lia. fold d in E1.
  rewrite at_pos_add in E1 by lia.
  split; [lia|]. unfold item, get_tagged.
  rewrite (pbind_some _ _ _ _ _ E), E0. exact E1.
Qed.

Lemma list_loop_agrees n pos l pos' :
  list_loop (fun ft pos => ref_decode_depth fuel ft data (offset + pos) (depth + 1))
    n d pos = Some (l, pos') →
  forallb owned_faithful l = true → 0 <= pos <= blen d →
  pos <= pos' <= blen d ∧
  get_many item n (at_pos d pos) = Some (map to_owned l, at_pos d pos').
Proof.
  revert pos l. induction n as [|n IH]; intros pos l H Hf Hp; cbn [list_loop] in H.
  { injection H as <- <-. split; [lia|done]. }
  bind_inv H. destruct x as [v p1]. bind_inv H. destruct x as [vs p2].
  injection H as <- <-. cbn [forallb] in Hf. apply andb_true_iff in Hf as [Hf1 Hf2].
  apply tagged_agrees in E as [? E]; [|done..]. apply IH in E0 as [? E0]; [|done|lia].
  split; [lia|]. cbn [get_many map].
  by rewrite (pbind_some _ _ _ _ _ E), (pbind_some _ _ _ _ _ E0).
Qed.

Lemma map_loop_agrees n pos l pos' :
  map_loop (fun ft pos => ref_decode_depth fuel ft data (offset + pos) (depth + 1))
    n d pos = Some (l, pos') →
  forallb (fun '(k, v) => owned_faithful k && owned_faithful v) l = true →
  0 <= pos <= blen d →
  pos <= pos' <= blen d ∧
  get_many (pbind item (fun k => pbind item (fun v => pret (k, v)))) n (at_pos d pos)
  = Some (map (fun '(k, v) => (to_owned k, to_owned v)) l, at_pos d pos').
Proof.
  revert pos l. induction n as [|n IH]; intros pos l H Hf Hp; cbn [map_loop] in H.
  { injection H as <- <-. split; [lia|done]. }
  bind_inv H. destruct x as [k p1]. bind_inv H. destruct x as [v p2].
  bind_inv H. destruct x as [kvs p3].
  injection H as <- <-. cbn [forallb] in Hf. apply andb_true_iff in Hf as [Hf Hf3].
  apply andb_true_iff in Hf as [Hf1 Hf2].
  apply tagged_agrees in E as [? E]; [|done..].
  apply tagged_agrees in E0 as [? E0]; [|done|lia].
  apply IH in E1 as [? E1]; [|done|lia].
  split; [lia|]. cbn [get_many map]. unfold pbind at 1.
  rewrite (pbind_some _ _ _ _ _ E), (pbind_some _ _ _ _ _ E0).
  unfold pret at 1. by rewrite (pbind_some _ _ _ _ _ E1).
Qed.
End containers_agree.

(** A slice cuts the input in two. *)
Lemma slice_app d a b s :
  slice d a b = Some s → at_pos d a = s ++ at_pos d b ∧ blen s = b - a ∧ b <= blen d.
Proof.
  intros H. apply slice_spec in H as (? & ? & H). apply take_bytes_spec in H as [H ?].
  done.
Qed.

Lemma stack_frame_iter_agrees n s e :
  blen s = Z.of_nat n * 8 → get_many (get_le 8) n (s ++ e) = Some (stack_frame_iter n s, e).
Proof.
  revert s. induction n as [|n IH]; intros s Hs.
  { by rewrite (blen_0 s) by lia. }
  cbn [stack_frame_iter get_many].
  destruct (take_bytes (Z.of_nat 8) s) as [[w s']|] eqn:E.
  - apply take_bytes_spec in E as [-> Hw]. rewrite blen_app in Hs.
    assert (∀ x, get_le 8 (w ++ x) = Some (le_combine w, x)) as Hle.
    { intros x. apply get_le_spec. exists w. split; [done|]. split; [zlia|done]. }
    rewrite Hle, <- app_assoc, (pbind_some _ _ _ _ _ (Hle _)).
    by rewrite (pbind_some _ _ _ _ _ (IH s' ltac:(lia))).
  - exfalso. unfold take_bytes in E. destruct_match; [done|].
    bool_facts. destruct Heqb; bool_facts; lia.
Qed.

Lemma string_map_iter_agrees n s l r :
  get_many get_pair n s = Some (l, r) →
  length (string_map_iter n s) = n → string_map_iter n s = l.
Proof.
  revert s l r. induction n as [|n IH]; intros s l r H Hlen; cbn in H.
  { by injection H as <- <-. }
  parse_inv H. injection H as <- <-. cbn [string_map_iter] in Hlen |- *.
  unfold string_map_next in Hlen |- *.
  unfold get_pair in E. parse_inv E. injection E as <- <-.
  cbn [mbind option_bind] in Hlen |- *. unfold from_utf8 in Hlen |- *.
  destruct (utf8_valid v1); [|done]. cbn [mbind option_bind] in Hlen |- *.
  rewrite ?E2 in Hlen |- *. cbn [mbind option_bind] in Hlen |- *.
  destruct (utf8_valid v2); [|done]. cbn [mbind option_bind length] in Hlen |- *.
  injection Hlen as Hlen. by rewrite (IH _ _ _ E0 Hlen).
Qed.

Lemma string_map_agrees d count s l pos :
  get_many get_pair (Z.to_nat count) (at_pos d 4) = Some (l, at_pos d pos) →
  slice d 4 pos = Some s →
  owned_faithful (FieldValueRef.StringMap s count) = true →
  string_map_iter (Z.to_nat count) s = l.
Proof.
  intros Hl Hs Hf. apply slice_app in Hs as (Hs & _). rewrite Hs in Hl.
  cbn [owned_faithful] in Hf. bool_facts.
  apply get_many_local in Hl as (c & Hc & He); [|apply _].
  apply app_inv_tail in Hc as ->. specialize (He []). rewrite app_nil_r in He.
  eapply string_map_iter_agrees; [exact He|]. lia.
Qed.

(** A borrowed scalar read at the cursor. *)
Lemma agrees_le {B} (q : Z → parser B) d n v x :
  le_at d 0 (Z.of_nat n) = Some v → (∀ r, q v r = Some (x, r)) →
  agrees (pbind (get_le n) q) d x (Z.of_nat n).
Proof.
  intros H Hq. apply le_at_spec in H as (_ & Hl & H). rewrite at_pos_0, Z.add_0_l in H.
  split; [lia|]. by rewrite (pbind_some _ _ _ _ _ H).
Qed.

Lemma agrees_byte {B} (q : byte → parser B) d v x :
  byte_at d 0 = Some v → (∀ b r, v = b2z b → q b r = Some (x, r)) →
  agrees (pbind get_byte q) d x 1.
Proof.
  intros H Hq. apply byte_at_spec in H as (b & -> & Hb & H). rewrite at_pos_0 in H.
  split; [lia|]. rewrite (pbind_some _ _ _ _ _ H). by apply Hq.
Qed.

Lemma agrees_len_prefixed {B} (q : bytes → parser B) d len b x :
  le_at d 0 4 = Some len → slice d 4 (4 + len) = Some b → (∀ r, q b r = Some (x, r)) →
  agrees (pbind get_len_prefixed q) d x (4 + len).
Proof.
  intros Hl Hs Hq. unfold le_at in Hl. bind_inv Hl. injection Hl as <-.
  destruct (slice_len_prefixed d 0 x0 b E Hs) as (H & ? & ? & ?).
  split; [lia|]. rewrite at_pos_0 in H. by rewrite (pbind_some _ _ _ _ _ H).
Qed.

Lemma agrees_counted {B} (p : parser B) (K : list B → FieldValue.t) d n l pos :
  get_count d = Some (n, at_pos d 4) →
  get_many p n (at_pos d 4) = Some (l, at_pos d pos) → 0 <= pos <= blen d →
  agrees (pbind get_count (fun n => pbind (get_many p n) (fun l => pret (K l)))) d (K l) pos.
Proof.
  intros Hn Hl Hp. split; [exact Hp|].
  by rewrite (pbind_some _ _ _ _ _ Hn), (pbind_some _ _ _ _ _ Hl).
Qed.

Lemma stack_frames_agree d count s :
  le_at d 0 4 = Some count → slice d 4 (4 + count * 8) = Some s →
  count <= MAX_DECODE_CONTAINER_ELEMENTS →
  agrees (pbind get_count (fun n => pbind (get_many (get_le 8) n)
            (fun l => pret (FieldValue.StackFrames l)))) d
    (FieldValue.StackFrames (stack_frame_iter (Z.to_nat count) s)) (4 + count * 8).
Proof.
  intros Hc Hs Hcap. assert (count_at d = Some count) as Hca.
  { unfold count_at. rewrite Hc. cbn.
    destruct (Z.gtb_spec count MAX_DECODE_CONTAINER_ELEMENTS); [lia|done]. }
  apply count_at_spec in Hca as (H4 & Hn & Hpos & _).
  apply slice_app in Hs as (Hs & Hlen & Hend).
  eapply agrees_counted; [exact Hn| |lia]. rewrite Hs. apply stack_frame_iter_agrees. lia.
Qed.

Lemma agrees_leb d v n :
  decode_unsigned d = Some (v, n) →
  agrees (pbind get_leb (fun v => pret (FieldValue.Varint v))) d (FieldValue.Varint v) n.
Proof.
  intros H. pose proof H as Hb. apply decode_unsigned_bounds in Hb as ((c & e & -> & Hc & _) & Hn & _).
  split; [rewrite blen_app; pose proof (blen_nonneg e); lia|].
  unfold pbind, get_leb. by rewrite H.
Qed.

Lemma ref_agrees fuel ft data offset depth v n :
  ref_decode_depth fuel ft data offset depth = Some (v, n) →
  owned_faithful v = true → 0 <= offset <= blen data →
  agrees (decode_depth fuel ft depth) (at_pos data offset) (to_owned v) n.
Proof.
  revert ft data offset depth v n.
  induction fuel as [|fuel IH]; intros ft data offset depth v n H Hf Ho;
    cbn [ref_decode_depth decode_depth] in H |- *; [done|].
  destruct (depth >? MAX_DECODE_RECURSION_DEPTH); [done|].
  bind_inv H. apply slice_from_spec in E as [-> _].
  destruct ft; try (by apply IH); repeat bind_inv H;
    repeat match goal with x : (_ * Z)%type |- _ => destruct x end;
    injection H as <- <-.
  all: try (by eapply agrees_byte; [eassumption|intros ? ? ->]).
  all: try (by eapply (agrees_le _ _ 8); [eassumption|]).
  all: try (by eapply (agrees_le _ _ 4); [eassumption|]).
  all: try (by eapply (agrees_le _ _ 2); [eassumption|]).
  all: try (by eapply agrees_len_prefixed).
  all: try (apply count_at_spec in E as (H4 & Hn & Hc)).
  all: try (eapply list_loop_agrees in E0 as [? E0]; [|exact Ho|intros; by apply IH|exact Hf|lia];
            cbn [to_owned]; eapply agrees_counted; [done..|lia]).
  all: try (eapply map_loop_agrees in E0 as [? E0]; [|exact Ho|intros; by apply IH|exact Hf|lia];
            cbn [to_owned]; eapply agrees_counted; [done..|lia]).
  - eapply agrees_len_prefixed; [eassumption..|]. intros r. apply from_utf8_some in E1 as [-> Hu].
    by rewrite (from_utf8_valid _ Hu).
  - apply stack_frames_agree; [done..|]. cbn in Hf. by bool_facts.
  - by apply agrees_leb.
  - apply string_map_scan_spec in E0 as (? & l & Hl); [|lia]. cbn [to_owned].
    rewrite (string_map_agrees _ _ _ _ _ Hl E1 Hf). by eapply agrees_counted; [..|lia].
Qed.

(** ** A borrowed value lies inside the buffer *)

Section loop_bounds.
Context {A : Type} (dec : FieldType.t → Z → option (A * Z)) (d : bytes).
Hypothesis dec_bounds : ∀ ft pos v n,
  dec ft pos = Some (v, n) → 0 <= pos <= blen d → 0 <= n ∧ pos + n <= blen d.

Lemma tagged_at_bounds pos v pos' :
  tagged_at dec d pos = Some (v, pos') → 0 <= pos <= blen d → pos <= pos' <= blen d.
Proof.
  unfold tagged_at. intros H Hp. bind_inv H. apply byte_at_spec in E as (b & _ & Hb & _).
  bind_inv H. bind_inv H. rename select (_ * Z)%type into r. destruct r as [v' n].
  injection H as _ <-.
  match goal with E : dec _ _ = Some _ |- _ => apply dec_bounds in E; lia end.
Qed.

Lemma list_loop_bounds n pos l pos' :
  list_loop dec n d pos = Some (l, pos') → 0 <= pos <= blen d → pos <= pos' <= blen d.
Proof.
  revert pos l. induction n as [|n IH]; intros pos l H Hp; cbn [list_loop] in H.
  { injection H as _ <-. lia. }
  bind_inv H. destruct x as [v p1]. bind_inv H. destruct x as [vs p2]. injection H as _ <-.
  apply tagged_at_bounds in E; [|done]. apply IH in E0; lia.
Qed.

Lemma map_loop_bounds n pos l pos' :
  map_loop dec n d pos = Some (l, pos') → 0 <= pos <= blen d → pos <= pos' <= blen d.
Proof.
  revert pos l. induction n as [|n IH]; intros pos l H Hp; cbn [map_loop] in H.
  { injection H as _ <-. lia. }
  bind_inv H. destruct x as [k p1]. bind_inv H. destruct x as [v p2].
  bind_inv H. destruct x as [kvs p3]. injection H as _ <-.
  apply tagged_at_bounds in E; [|done]. apply tagged_at_bounds in E0; [|lia].
  apply IH in E1; lia.
Qed.
End loop_bounds.

Lemma le_at_bounds d pos n v : le_at d pos n = Some v → 0 <= pos ∧ pos + n <= blen d.
Proof.
  unfold le_at. intros H. bind_inv H. apply slice_spec in E. lia.
Qed.

Lemma ref_decode_depth_bounds fuel ft data offset depth v n :
  ref_decode_depth fuel ft data offset depth = Some (v, n) →
  0 <= n ∧ 0 <= offset ∧ offset + n <= blen data.
Proof.
  revert ft offset depth v n.
  induction fuel as [|fuel IH]; intros ft offset depth v n H; cbn [ref_decode_depth] in H; [done|].
  destruct (depth >? MAX_DECODE_RECURSION_DEPTH); [done|].
  bind_inv H. apply slice_from_spec in E as [-> Ho].
  pose proof (blen_at_pos data offset Ho) as Hlen.
  assert (∀ ft pos v n, ref_decode_depth fuel ft data (offset + pos) (depth + 1) = Some (v, n) →
            0 <= pos <= blen (at_pos data offset) →
            0 <= n ∧ pos + n <= blen (at_pos data offset)) as Hrec
    by (intros ft' pos v' n' H' Hp; apply IH in H'; lia).
  enough (0 <= n <= blen (at_pos data offset)) by lia.
  destruct ft; try (by apply IH in H; lia); repeat bind_inv H;
    repeat match goal with x : (_ * Z)%type |- _ => destruct x end; injection H as _ <-;
    repeat match goal with
    | E : le_at _ _ _ = Some _ |- _ => apply le_at_bounds in E
    | E : byte_at _ _ = Some _ |- _ => apply byte_at_spec in E as (_ & _ & E & _)
    | E : slice _ _ _ = Some _ |- _ => apply slice_spec in E as (? & ? & _)
    | E : count_at _ = Some _ |- _ => apply count_at_spec in E as (? & _)
    | E : decode_unsigned _ = Some _ |- _ =>
        apply decode_unsigned_bounds in E as ((c & e & -> & Hc & _) & ? & _);
        rewrite blen_app; pose proof (blen_nonneg e)
    | E : string_map_scan _ _ _ = Some _ |- _ => apply string_map_scan_spec in E as [E _]; [|lia]
    | E : list_loop _ _ _ _ = Some _ |- _ => apply list_loop_bounds in E; [|exact Hrec|lia]
    | E : map_loop _ _ _ _ = Some _ |- _ => apply map_loop_bounds in E; [|exact Hrec|lia]
    end; try lia.
Qed.

Lemma ref_decode_bounds ft data offset v n :
  ref_decode ft data offset = Some (v, n) → 0 <= n ∧ 0 <= offset ∧ offset + n <= blen data.
Proof. apply ref_decode_depth_bounds. Qed.

(** ** The zero-copy decoder reads what the encoder wrote *)

(** The borrowed form of a value, inside its encoding. *)
Fixpoint borrow (v : FieldValue.t) : FieldValueRef.t :=
  match v with
  | FieldValue.I64 v => FieldValueRef.I64 v
  | FieldValue.F64 v => FieldValueRef.F64 v
  | FieldValue.Bool v => FieldValueRef.Bool v
  | FieldValue.String v => FieldValueRef.String v
  | FieldValue.Bytes v => FieldValueRef.Bytes v
  | FieldValue.PooledString id => FieldValueRef.PooledString id
  | FieldValue.StackFrames l =>
      FieldValueRef.StackFrames (concat (put_le 8 <$> l)) (blen l)
  | FieldValue.PooledStackFrames id => FieldValueRef.PooledStackFrames id
  | FieldValue.Varint v => FieldValueRef.Varint v
  | FieldValue.StringMap l =>
      FieldValueRef.StringMap (concat (put_pair <$> l)) (blen l)
  | FieldValue.List l => FieldValueRef.List (map borrow l)
  | FieldValue.Map l =>
      FieldValueRef.Map (map (fun '(k, v) => (borrow k, borrow v)) l)
  | FieldValue.None => FieldValueRef.None
  end.

Lemma le_at_put d pos n v r :
  at_pos d pos = put_le n v ++ r → 0 <= pos <= blen d → fits (8 * Z.of_nat n) v →
  le_at d pos (Z.of_nat n) = Some v ∧ at_pos d (pos + Z.of_nat n) = r ∧
  pos + Z.of_nat n <= blen d.
Proof.
  intros H Hp Hv. pose proof (blen_at_pos d pos Hp) as Hl.
  rewrite H, blen_app, blen_put_le in Hl. pose proof (blen_nonneg r).
  assert (at_pos d (pos + Z.of_nat n) = r) as Hr.
  { rewrite <- at_pos_add, H by lia. rewrite <- (blen_put_le n v). apply at_pos_app. }
  split; [|split; [done|lia]]. apply le_at_spec. split; [lia|]. split; [lia|].
  rewrite H, Hr. by apply get_put_le.
Qed.

Lemma slice_put d pos s r :
  at_pos d pos = s ++ r → 0 <= pos <= blen d →
  slice d pos (pos + blen s) = Some s ∧ at_pos d (pos + blen s) = r ∧
  pos + blen s <= blen d.
Proof.
  intros H Hp. pose proof (blen_at_pos d pos Hp) as Hl.
  rewrite H, blen_app in Hl. pose proof (blen_nonneg r). pose proof (blen_nonneg s).
  assert (at_pos d (pos + blen s) = r) as Hr
    by (rewrite <- at_pos_add, H by lia; apply at_pos_app).
  split; [|split; [done|lia]]. apply slice_spec. split; [lia|]. split; [lia|].
  replace (pos + blen s - pos) with (blen s) by lia. rewrite H, Hr. by apply take_bytes_app.
Qed.

Lemma byte_at_put d pos b r :
  at_pos d pos = b :: r → 0 <= pos <= blen d →
  byte_at d pos = Some (b2z b) ∧ at_pos d (pos + 1) = r ∧ pos + 1 <= blen d.
Proof.
  intros H Hp. destruct (slice_put d pos [b] r H Hp) as (_ & Hr & Hl).
  change (blen [b]) with 1 in *. split; [|done]. apply byte_at_spec. exists b.
  split; [done|]. split; [lia|]. by rewrite H, Hr.
Qed.

Lemma len_prefixed_put d pos k r :
  at_pos d pos = put_len_prefixed k ++ r → 0 <= pos <= blen d → blen k < 2 ^ 32 →
  slice d pos (pos + 4) = Some (put_le 4 (blen k)) ∧
  le_combine (put_le 4 (blen k)) = blen k ∧
  slice d (pos + 4) (pos + 4 + blen k) = Some k ∧
  at_pos d (pos + 4 + blen k) = r ∧ pos + 4 + blen k <= blen d.
Proof.
  unfold put_len_prefixed. rewrite <- app_assoc. intros H Hp Hk.
  pose proof (blen_nonneg k).
  destruct (slice_put d pos _ _ H Hp) as (H1 & H2 & H3). rewrite blen_put_le in H1, H2, H3.
  destruct (slice_put d (pos + 4) _ _ H2 ltac:(lia)) as (H4 & H5 & H6).
  split; [done|]. split; [|done].
  unfold put_le. rewrite le_combine_split. apply cast_id. unfold fits. lia.
Qed.

Lemma checked_add_ok w a b : a + b < 2 ^ w → checked_add w a b = Some (a + b).
Proof. intros. unfold checked_add. by destruct (Z.ltb_spec (a + b) (2 ^ w)); [|lia]. Qed.

Lemma checked_sub_ok a b : b <= a → checked_sub a b = Some (a - b).
Proof. intros. unfold checked_sub. by destruct (Z.leb_spec b a); [|lia]. Qed.

(** A written string map is stepped over by the bounds-checking scan. *)
Lemma string_map_scan_put l d pos r :
  at_pos d pos = concat (put_pair <$> l) ++ r → 0 <= pos <= blen d → blen d < 2 ^ 63 →
  forallb (fun '(k, v) => (blen k <? 2 ^ 32) && (blen v <? 2 ^ 32)) l = true →
  string_map_scan (length l) d pos = Some (pos + blen (concat (put_pair <$> l))).
Proof.
  revert pos. induction l as [|[k v] l IH]; intros pos H Hp Hd Hok.
  { cbn. by rewrite Z.add_0_r. }
  cbn [forallb] in Hok. bool_facts. rewrite fmap_cons in H |- *. cbn [concat] in H |- *.
  unfold put_pair at 1 in H. cbn [fst snd] in H.
  rewrite <- !app_assoc in H. pose proof (blen_nonneg k). pose proof (blen_nonneg v).
  destruct (len_prefixed_put d pos _ _ H Hp ltac:(lia)) as (K1 & K2 & K3 & K4 & K5).
  destruct (len_prefixed_put d _ _ _ K4 ltac:(lia) ltac:(lia)) as (V1 & V2 & V3 & V4 & V5).
  cbn [string_map_scan length].
  repeat (first [rewrite checked_add_ok by lia|rewrite checked_sub_ok by lia
                |rewrite K1|rewrite K3|rewrite V1|rewrite V3];
          cbn [mbind option_bind]; cbv zeta; rewrite ?K2, ?V2, ?Z.add_simpl_r).
  rewrite IH by (done || lia). unfold put_pair at 2, put_len_prefixed. cbn [fst snd].
  rewrite !blen_app, !blen_put_le. f_equal. lia.
Qed.

Definition borrows_back (v : FieldValue.t) : Prop :=
  ∀ fuel ft data offset depth r,
    has_type v ft → value_ok v = true → 0 <= depth →
    depth + nesting v <= MAX_DECODE_RECURSION_DEPTH →
    MAX_DECODE_RECURSION_DEPTH < depth + Z.of_nat fuel →
    blen data < 2 ^ 63 → 0 <= offset <= blen data →
    at_pos data offset = encode v ++ r →
    ref_decode_depth fuel ft data offset depth = Some (borrow v, blen (encode v)).

Section containers_borrow.
Variables (fuel : nat) (data : bytes) (offset depth : Z).
Let d := at_pos data offset.
Let dec ft pos := ref_decode_depth fuel ft data (offset + pos) (depth + 1).
Hypothesis depth_ok : 0 <= depth.
Hypothesis fuel_ok : MAX_DECODE_RECURSION_DEPTH < depth + 1 + Z.of_nat fuel.
Hypothesis data_ok : blen data < 2 ^ 63.
Hypothesis offset_ok : 0 <= offset <= blen data.

Definition item_bytes (v : FieldValue.t) : bytes := z2b (field_type_tag v) :: encode v.

Definition item_borrows (v : FieldValue.t) : Prop :=
  borrows_back v ∧ is_none v = false ∧ value_ok v = true ∧
  1 + nesting v <= MAX_DECODE_RECURSION_DEPTH - depth.

Lemma tagged_put v pos r :
  item_borrows v → at_pos d pos = item_bytes v ++ r → 0 <= pos <= blen d →
  tagged_at dec d pos = Some (borrow v, pos + blen (item_bytes v)) ∧
  at_pos d (pos + blen (item_bytes v)) = r ∧ pos + blen (item_bytes v) <= blen d.
Proof.
  intros (Hv & Hn & Hok & Hnest) H Hp.
  pose proof (blen_at_pos data offset offset_ok) as Hlen. fold d in Hlen.
  destruct (slice_put d pos _ _ H Hp) as (_ & Hr & Hend). split; [|done].
  unfold item_bytes in *. cbn [app] in H.
  destruct (byte_at_put d pos _ _ H Hp) as (Hb & Ht & Hl).
  destruct (has_type_exists v Hn) as [ft Hft]. pose proof (has_type_tag v ft Hft) as Htag.
  unfold tagged_at. rewrite Hb. cbn [mbind option_bind]. cbv zeta.
  pose proof Htag as Heq. apply from_tag_some in Heq. rewrite Heq, b2z_tag_of, <- Heq, Htag.
  cbn [mbind option_bind]. unfold dec.
  rewrite (Hv fuel ft data (offset + (pos + 1)) (depth + 1) r); try done; try lia.
  - cbn [mbind option_bind]. rewrite blen_cons. f_equal. f_equal. lia.
  - rewrite <- at_pos_add by lia. exact Ht.
Qed.

Lemma list_loop_put l pos r :
  (∀ v, v ∈ l → item_borrows v) →
  at_pos d pos = concat (map item_bytes l) ++ r → 0 <= pos <= blen d →
  list_loop dec (length l) d pos
  = Some (map borrow l, pos + blen (concat (map item_bytes l))).
Proof.
  revert pos. induction l as [|v l IH]; intros pos Hl H Hp.
  { cbn. by rewrite Z.add_0_r. }
  cbn [map concat] in H |- *. rewrite <- app_assoc in H.
  destruct (tagged_put v pos _ ltac:(apply Hl; left) H Hp) as (Hv & Hr & Hend).
  pose proof (blen_nonneg (item_bytes v)).
  cbn [length list_loop]. rewrite Hv. cbn [mbind option_bind].
  rewrite IH; [|intros; apply Hl; by right|done|lia].
  cbn [mbind option_bind]. rewrite blen_app. by rewrite Z.add_assoc.
Qed.

Lemma map_loop_put l pos r :
  (∀ kv, kv ∈ l → item_borrows kv.1 ∧ item_borrows kv.2) →
  at_pos d pos = concat (map (fun '(k, v) => item_bytes k ++ item_bytes v) l) ++ r →
  0 <= pos <= blen d →
  map_loop dec (length l) d pos
  = Some (map (fun '(k, v) => (borrow k, borrow v)) l,
          pos + blen (concat (map (fun '(k, v) => item_bytes k ++ item_bytes v) l))).
Proof.
  revert pos. induction l as [|[k v] l IH]; intros pos Hl H Hp.
  { cbn. by rewrite Z.add_0_r. }
  cbn [map concat] in H |- *. rewrite <- !app_assoc in H.
  destruct (Hl (k, v) ltac:(left)) as [Hk Hv].
  destruct (tagged_put k pos _ Hk H Hp) as (Hk' & Hr & Hend).
  pose proof (blen_nonneg (item_bytes k)). pose proof (blen_nonneg (item_bytes v)).
  destruct (tagged_put v _ _ Hv Hr ltac:(lia)) as (Hv' & Hr' & Hend').
  cbn [length map_loop fst snd] in Hk', Hv' |- *.
  rewrite Hk'. cbn [mbind option_bind]. rewrite Hv'. cbn [mbind option_bind].
  rewrite IH; [|intros; apply Hl; by right|done|lia].
  cbn [mbind option_bind]. rewrite !blen_app. by rewrite !Z.add_assoc.
Qed.
End containers_borrow.

Lemma count_at_put {A} (l : list A) r :
  blen l <= MAX_DECODE_CONTAINER_ELEMENTS →
  count_at (put_le 4 (blen l) ++ r) = Some (blen l) ∧
  at_pos (put_le 4 (blen l) ++ r) 4 = r ∧ 4 <= blen (put_le 4 (blen l) ++ r).
Proof.
  intros Hl. pose proof (blen_nonneg l). unfold MAX_DECODE_CONTAINER_ELEMENTS in Hl.
  destruct (le_at_put (put_le 4 (blen l) ++ r) 0 4 (blen l) r) as (H1 & H2 & H3).
  - done.
  - split; [lia|apply blen_nonneg].
  - unfold fits. lia.
  - change (Z.of_nat 4) with 4 in *. split; [|by split].
    unfold count_at. rewrite H1. cbn [mbind option_bind].
    unfold MAX_DECODE_CONTAINER_ELEMENTS. by destruct (Z.gtb_spec (blen l) 1000000); [lia|].
Qed.

Lemma le_at_head n v r :
  le_at (put_le n v ++ r) 0 (Z.of_nat n) = Some (cast (8 * Z.of_nat n) v).
Proof.
  apply le_at_spec. split; [lia|].
  rewrite blen_app, blen_put_le. pose proof (blen_nonneg r). split; [lia|].
  rewrite at_pos_0, Z.add_0_l, get_put_le_cast. rewrite <- (blen_put_le n v).
  by rewrite at_pos_app.
Qed.

Lemma le_at_head_fits n v r :
  fits (8 * Z.of_nat n) v → le_at (put_le n v ++ r) 0 (Z.of_nat n) = Some v.
Proof. intros. by rewrite le_at_head, cast_id. Qed.

Lemma len_prefixed_head v r :
  blen v < 2 ^ 32 →
  le_at (put_len_prefixed v ++ r) 0 4 = Some (blen v) ∧
  slice (put_len_prefixed v ++ r) 4 (4 + blen v) = Some v ∧
  blen (put_len_prefixed v) = 4 + blen v.
Proof.
  intros Hv. pose proof (blen_nonneg v). pose proof (blen_nonneg (put_len_prefixed v ++ r)).
  destruct (len_prefixed_put (put_len_prefixed v ++ r) 0 v r) as (H1 & H2 & H3 & _);
    [done|lia|done|]. rewrite Z.add_0_l in H1, H3.
  unfold le_at. rewrite Z.add_0_l, H1. cbn [mbind option_bind]. rewrite H2.
  split; [done|]. split; [done|]. unfold put_len_prefixed. by rewrite blen_app, blen_put_le.
Qed.

(** The slice of a container body behind its count. *)
Lemma body_slice {A} (l : list A) body r n :
  blen body = n → slice ((put_le 4 (blen l) ++ body) ++ r) 4 (4 + n) = Some body.
Proof.
  intros <-. rewrite <- app_assoc. pose proof (blen_nonneg (body ++ r)).
  apply (slice_put _ 4 body r).
  - exact (at_pos_app (put_le 4 (blen l)) (body ++ r)).
  - rewrite blen_app, blen_put_le. lia.
Qed.

Lemma blen_concat_put_le n l : blen (concat (put_le n <$> l)) = blen l * Z.of_nat n.
Proof.
  induction l as [|x l IH]; [done|].
  rewrite fmap_cons. cbn [concat]. rewrite blen_app, blen_put_le, blen_cons, IH. lia.
Qed.

Lemma borrows_back_scalar v :
  (∀ l, v ≠ FieldValue.List l) → (∀ l, v ≠ FieldValue.Map l) → borrows_back v.
Proof.
  intros Hl Hm fuel ft data offset depth r Hft Hok Hd Hnest Hfuel Hdata Ho H.
  pose proof (nesting_nonneg v).
  destruct fuel as [|fuel]; [lia|]. cbn [ref_decode_depth].
  destruct (depth >? MAX_DECODE_RECURSION_DEPTH) eqn:E; [bool_facts; lia|]. clear E.
  assert (slice_from data offset = Some (encode v ++ r)) as ->
    by (apply slice_from_spec; by rewrite H).
  pose proof (blen_at_pos data offset Ho) as Hlen. rewrite H in Hlen.
  cbn [mbind option_bind]. apply has_type_tag in Hft.
  destruct v; cbn in Hft; try discriminate Hft; try (exfalso; naive_solver);
    injection Hft as <-; cbn [value_ok] in Hok; bool_facts; cbn [encode borrow] in Hlen |- *.
  - rewrite (le_at_head 8). cbn [mbind option_bind]. by rewrite to_signed_cast.
  - by rewrite (le_at_head_fits 8).
  - by destruct v.
  - destruct (len_prefixed_head v r) as (-> & Hs & ->); [done|]. cbn [mbind option_bind].
    rewrite Hs. cbn [mbind option_bind]. by rewrite from_utf8_valid.
  - destruct (len_prefixed_head v r) as (-> & Hs & ->); [done|]. cbn [mbind option_bind].
    by rewrite Hs.
  - by rewrite (le_at_head_fits 4).
  - rewrite <- app_assoc. rewrite (le_at_head_fits 4).
    2:{ pose proof (blen_nonneg addrs). unfold MAX_DECODE_CONTAINER_ELEMENTS in *.
        unfold fits. lia. }
    cbn [mbind option_bind]. rewrite app_assoc, body_slice by apply (blen_concat_put_le 8).
    cbn [mbind option_bind]. by rewrite blen_app, blen_put_le, (blen_concat_put_le 8).
  - by rewrite (le_at_head_fits 4).
  - by rewrite decode_encode_unsigned.
  - rewrite <- app_assoc in Hlen |- *.
    destruct (count_at_put pairs (concat (put_pair <$> pairs) ++ r)) as (-> & Hr & H4); [done|].
    cbn [mbind option_bind]. rewrite to_nat_blen, (string_map_scan_put pairs _ 4 r);
      [|done|lia|lia|done].
    cbn [mbind option_bind]. rewrite app_assoc, body_slice by done.
    cbn [mbind option_bind]. by rewrite blen_app, blen_put_le.
Qed.

Lemma ref_decode_borrow v : borrows_back v.
Proof.
  induction v as [v Hl Hm|l IH|l IH] using value_nested_ind;
    [by apply borrows_back_scalar|..];
    intros fuel ft data offset depth r Hft Hok Hd Hnest Hfuel Hdata Ho H;
    match type of Hnest with context [nesting ?v] =>
      pose proof (nesting_nonneg v) as Hnn end;
    apply has_type_tag in Hft; injection Hft as <-;
    cbn [value_ok] in Hok; apply andb_true_iff in Hok as [Hlen Hok]; bool_facts;
    rewrite list.Forall_forall in IH; cbn [nesting] in Hnest, Hnn;
    match type of Hnest with _ + ?m <= ?n =>
      assert (m <= n - depth) as Hmax by lia end;
    pose proof (foldr_max_le _ _ _ Hmax) as Hsub; clear Hmax;
    (destruct fuel as [|fuel]; [lia|]); cbn [ref_decode_depth];
    (destruct (depth >? MAX_DECODE_RECURSION_DEPTH) eqn:E; [bool_facts; lia|]); clear E;
    match type of H with _ = ?e =>
      assert (slice_from data offset = Some e) as -> by (apply slice_from_spec; by rewrite H)
    end; cbn [mbind option_bind]; cbn [encode] in H |- *; rewrite <- app_assoc in H |- *;
    match type of H with _ = put_le 4 (blen l) ++ ?e =>
      destruct (count_at_put l e) as (-> & Hr & H4); [done|] end;
    cbn [mbind option_bind]; rewrite to_nat_blen, <- H in *.
  - rewrite (list_loop_put fuel data offset depth) with (r := r); try done; try lia.
    + cbn [mbind option_bind borrow]. by rewrite blen_app, blen_put_le.
    + intros x Hx. use_forallb Hok Hx. specialize (Hsub _ Hx). cbv beta in Hsub.
      split; [by apply IH|done].
  - rewrite (map_loop_put fuel data offset depth) with (r := r); try done; try lia.
    + cbn [mbind option_bind borrow]. by rewrite blen_app, blen_put_le.
    + intros [k w] Hx. destruct (IH _ Hx). use_forallb Hok Hx. specialize (Hsub _ Hx).
      cbv beta iota in Hsub. cbn [fst snd] in *.
      split; (split; [done|]; split; [done|]; split; [done|lia]).
Qed.

Lemma ref_decode_borrows v ft data offset r :
  has_type v ft → value_ok v = true → nesting v <= MAX_DECODE_RECURSION_DEPTH →
  blen data < 2 ^ 63 → 0 <= offset <= blen data → at_pos data offset = encode v ++ r →
  ref_decode ft data offset = Some (borrow v, blen (encode v)).
Proof.
  intros Hft Hok Hn Hd Ho H. unfold ref_decode.
  apply (ref_decode_borrow v DECODE_FUEL ft data offset 0 r);
    [exact Hft|exact Hok|lia|lia| |exact Hd|exact Ho|exact H].
  unfold DECODE_FUEL, MAX_DECODE_RECURSION_DEPTH. lia.
Qed.

Lemma ref_decode_agrees ft data offset v n :
  ref_decode ft data offset = Some (v, n) → owned_faithful v = true →
  0 <= offset <= blen data → agrees (decode ft) (at_pos data offset) (to_owned v) n.
Proof. intros H Hf Ho. exact (ref_agrees DECODE_FUEL ft data offset 0 v n H Hf Ho). Qed.

(** String-map entries the borrowing iterator yields: valid UTF-8. *)
Fixpoint utf8_maps (v : FieldValue.t) : bool :=
  match v with
  | FieldValue.StringMap l => forallb (fun '(k, v) => utf8_valid k && utf8_valid v) l
  | FieldValue.List l => forallb utf8_maps l
  | FieldValue.Map l => forallb (fun '(k, v) => utf8_maps k && utf8_maps v) l
  | _ => true
  end.

Lemma string_map_iter_put l :
  forallb (fun '(k, v) => (blen k <? 2 ^ 32) && (blen v <? 2 ^ 32)) l = true →
  forallb (fun '(k, v) => utf8_valid k && utf8_valid v) l = true →
  string_map_iter (length l) (concat (put_pair <$> l)) = l.
Proof.
  induction l as [|[k v] l IH]; intros Hok Hu; [done|].
  cbn [forallb] in Hok, Hu. bool_facts. rewrite fmap_cons.
  cbn [concat length string_map_iter]. unfold string_map_next, put_pair at 1.
  cbn [fst snd]. rewrite <- app_assoc, get_len_prefixed_inverts by done.
  cbn [mbind option_bind]. rewrite from_utf8_valid by done. cbn [mbind option_bind].
  rewrite get_len_prefixed_inverts by done. cbn [mbind option_bind].
  rewrite from_utf8_valid by done. cbn [mbind option_bind]. by rewrite IH.
Qed.

Lemma stack_frame_iter_put l :
  forallb (fun a => bool_decide (fits 64 a)) l = true →
  stack_frame_iter (length l) (concat (put_le 8 <$> l)) = l.
Proof.
  induction l as [|a l IH]; intros Hok; [done|].
  cbn [forallb] in Hok. bool_facts. rewrite fmap_cons.
  cbn [concat length stack_frame_iter]. rewrite get_put_le by done. by rewrite IH.
Qed.

Lemma map_id_in {A} (f : A → A) l : (∀ x, x ∈ l → f x = x) → map f l = l.
Proof.
  induction l as [|x l IH]; intros H; [done|]. cbn [map].
  rewrite H by left. rewrite IH; [done|]. intros. apply H. by right.
Qed.

Lemma to_owned_borrow v :
  value_ok v = true → utf8_maps v = true → to_owned (borrow v) = v.
Proof.
  induction v as [v Hl Hm|l IH|l IH] using value_nested_ind; intros Hok Hu.
  - destruct v; try done; cbn [value_ok] in Hok; bool_facts; cbn [borrow to_owned];
      try (exfalso; naive_solver); rewrite to_nat_blen; f_equal.
    + by apply stack_frame_iter_put.
    + by apply string_map_iter_put.
  - cbn [value_ok utf8_maps] in Hok, Hu. bool_facts. rewrite list.Forall_forall in IH.
    cbn [borrow to_owned]. f_equal. rewrite map_map. apply map_id_in. intros x Hx.
    use_forallb H0 Hx. use_forallb Hu Hx. by apply IH.
  - cbn [value_ok utf8_maps] in Hok, Hu. bool_facts. rewrite list.Forall_forall in IH.
    cbn [borrow to_owned]. f_equal. rewrite map_map. apply map_id_in. intros [k w] Hx.
    use_forallb H0 Hx. use_forallb Hu Hx. destruct (IH _ Hx) as [Hk Hw]. cbn in Hk, Hw.
    by rewrite Hk, Hw.
Qed.

(** ** Main properties *)

(** Wherever the zero-copy decoder accepts a value, the owned decoder
    accepts the same bytes, consumes the same number of them and returns
    [to_owned] of the borrowed value, except for a stack above the owned
    decoder's element cap and a string map with an entry that is not UTF-8. *)
Theorem zero_copy_agrees ft data offset v n :
  ref_decode ft data offset = Some (v, n) → owned_faithful v = true →
  0 <= offset <= blen data →
  0 <= n <= blen data - offset ∧
  decode ft (drop (Z.to_nat offset) data)
  = Some (to_owned v, drop (Z.to_nat (offset + n)) data).
Proof.
  intros H Hf Ho. apply ref_decode_agrees in H as [Hn H]; [|done..].
  rewrite blen_at_pos in Hn by done. rewrite at_pos_add in H by lia. by split.
Qed.

Example zero_copy_agrees_witness :
  let data := [Byte.xff; Byte.x01; Byte.x00; Byte.x00; Byte.x00;
               Byte.x09; Byte.xac; Byte.x02; Byte.x07] in
  decode FieldType.DynamicList (drop 1 data)
  = Some (FieldValue.List [FieldValue.Varint 300], drop 8 data).
Proof.
  apply (zero_copy_agrees FieldType.DynamicList
    [Byte.xff; Byte.x01; Byte.x00; Byte.x00; Byte.x00;
     Byte.x09; Byte.xac; Byte.x02; Byte.x07] 1
    (FieldValueRef.List [FieldValueRef.Varint 300]) 7); by vm_compute.
Defined.

(** The zero-copy decoder reads every well-formed value back from its
    encoding, at any offset of the buffer, consuming exactly the encoding, and
    converting the borrowed value to an owned one gives the value written. *)
Theorem zero_copy_roundtrip v ft pre r :
  has_type v ft → value_ok v = true → nesting v <= MAX_DECODE_RECURSION_DEPTH →
  utf8_maps v = true → blen (pre ++ encode v ++ r) < 2 ^ 63 →
  ∃ b, ref_decode ft (pre ++ encode v ++ r) (blen pre) = Some (b, blen (encode v)) ∧
       to_owned b = v.
Proof.
  intros Hft Hok Hn Hu Hlen. exists (borrow v). split; [|by apply to_owned_borrow].
  apply (ref_decode_borrows v ft _ _ r); try done.
  - rewrite blen_app. pose proof (blen_nonneg pre). pose proof (blen_nonneg (encode v ++ r)).
    lia.
  - apply at_pos_app.
Qed.

Example zero_copy_roundtrip_witness :
  ∃ b, ref_decode FieldType.DynamicMap
         ([Byte.x00] ++ encode sample_value ++ [Byte.x2a]) (blen [Byte.x00])
       = Some (b, blen (encode sample_value)) ∧ to_owned b = sample_value.
Proof. apply zero_copy_roundtrip; by vm_compute. Defined.

(** A string field that is not UTF-8 is repaired by the owned decoder and
    refused by the zero-copy one, so the two disagree on such an event. *)
Theorem invalid_utf8_divergence s r :
  utf8_valid s = false → blen s < 2 ^ 32 →
  decode FieldType.String (put_len_prefixed s ++ r)
    = Some (FieldValue.String (from_utf8_lossy s), r) ∧
  ref_decode FieldType.String (put_len_prefixed s ++ r) 0 = None.
Proof.
  intros Hs Hlen. split.
  - unfold decode, DECODE_FUEL. cbn [decode_depth].
    change (0 >? MAX_DECODE_RECURSION_DEPTH) with false. cbv iota.
    rewrite (pbind_some _ _ _ _ _ (get_len_prefixed_inverts s Hlen r)).
    unfold pret. by rewrite from_utf8_or_lossy.
  - unfold ref_decode, DECODE_FUEL. cbn [ref_decode_depth].
    change (0 >? MAX_DECODE_RECURSION_DEPTH) with false. cbv iota.
    assert (slice_from (put_len_prefixed s ++ r) 0 = Some (put_len_prefixed s ++ r)) as ->
      by (apply slice_from_spec; split; [done|]; split; [lia|apply blen_nonneg]).
    cbn [mbind option_bind]. destruct (len_prefixed_head s r Hlen) as (-> & Hsl & _).
    cbn [mbind option_bind]. rewrite Hsl. cbn [mbind option_bind].
    unfold from_utf8. by rewrite Hs.
Qed.

Example invalid_utf8_divergence_witness :
  ref_decode FieldType.String (put_len_prefixed [Byte.xff] ++ []) 0 = None.
Proof. by apply (invalid_utf8_divergence [Byte.xff] []). Defined.
