(* ===== verification/Schema.v ===== *)
(** * Schemas and their registry (dial9-trace-format/src/schema.rs)

    [FieldAnnotation], [FieldDef], [SchemaEntry] and [SchemaRegistry].  Names,
    keys and values are Rust strings as their UTF-8 bytes; a [WireTypeId] is
    its [u16]; the [FxHashMap] of the registry is a finite map. *)

From Stdlib Require Import ZArith Lia.
From stdpp Require Import base list gmap strings option.
From coqutil Require Import Byte.
From S2P Require Import Prelude.
From S2P Require Import Utf8.
From S2P Require Import FieldType.

Module FieldAnnotation.
Record t : Type := mk { field_index : Z; key : bytes; value : bytes }.
End FieldAnnotation.

Module FieldDef.
Record t : Type := mk { name : bytes; field_type : FieldType.t }.
End FieldDef.

Module SchemaEntry.
Record t : Type := mk {
  name : bytes;
  fields : list FieldDef.t;
  annotations : list FieldAnnotation.t }.
End SchemaEntry.

#[global] Instance annotation_eq_dec : EqDecision FieldAnnotation.t.
Proof. solve_decision. Defined.

#[global] Instance field_def_eq_dec : EqDecision FieldDef.t.
Proof. solve_decision. Defined.

#[global] Instance schema_entry_eq_dec : EqDecision SchemaEntry.t.
Proof. solve_decision. Defined.

(** [crate::STATIC_WIRE_ID_LIMIT] (src/lib.rs). *)
Definition STATIC_WIRE_ID_LIMIT : Z := 256.

Module SchemaRegistry.
Record t : Type := mk { schemas : gmap Z SchemaEntry.t; next_id : Z }.
End SchemaRegistry.

Definition registry_new : SchemaRegistry.t :=
  {| SchemaRegistry.schemas := ∅; SchemaRegistry.next_id := STATIC_WIRE_ID_LIMIT |}.

Definition registry_clear (r : SchemaRegistry.t) : SchemaRegistry.t :=
  {| SchemaRegistry.schemas := ∅; SchemaRegistry.next_id := STATIC_WIRE_ID_LIMIT |}.

(** [register]: [None] is the error "already registered with different
    schema". *)
Definition register (r : SchemaRegistry.t) (type_id : Z) (entry : SchemaEntry.t)
    : option SchemaRegistry.t :=
  match SchemaRegistry.schemas r !! type_id with
  | Some existing => if decide (existing = entry) then Some r else None
  | None => Some {| SchemaRegistry.schemas := <[type_id := entry]> (SchemaRegistry.schemas r);
                    SchemaRegistry.next_id := SchemaRegistry.next_id r |}
  end.

Definition registry_get (r : SchemaRegistry.t) (type_id : Z) : option SchemaEntry.t :=
  SchemaRegistry.schemas r !! type_id.

(** [next_type_id]: the id handed out, and the counter advanced ([u16],
    wrapping in a release build). *)
Definition next_type_id (r : SchemaRegistry.t) : Z * SchemaRegistry.t :=
  (SchemaRegistry.next_id r,
   {| SchemaRegistry.schemas := SchemaRegistry.schemas r;
      SchemaRegistry.next_id := wrapping_add 16 (SchemaRegistry.next_id r) 1 |}).

Definition sync_next_id (r : SchemaRegistry.t) : SchemaRegistry.t :=
  {| SchemaRegistry.schemas := SchemaRegistry.schemas r;
     SchemaRegistry.next_id :=
       map_fold (fun id _ next => if id >=? next then wrapping_add 16 id 1 else next)
         STATIC_WIRE_ID_LIMIT (SchemaRegistry.schemas r) |}.

(** ** What an entry must satisfy to survive the wire *)

Definition name_ok (s : bytes) : bool := utf8_valid s && (blen s <? 2 ^ 16).

Definition annotation_ok (a : FieldAnnotation.t) : bool :=
  bool_decide (fits 16 (FieldAnnotation.field_index a))
  && name_ok (FieldAnnotation.key a)
  && (utf8_valid (FieldAnnotation.value a) && (blen (FieldAnnotation.value a) <? 2 ^ 32)).

Definition field_def_ok (f : FieldDef.t) : bool := name_ok (FieldDef.name f).

Definition entry_ok (e : SchemaEntry.t) : bool :=
  name_ok (SchemaEntry.name e)
  && ((blen (SchemaEntry.fields e) <? 2 ^ 16) && forallb field_def_ok (SchemaEntry.fields e))
  && ((blen (SchemaEntry.annotations e) <? 2 ^ 16)
      && forallb annotation_ok (SchemaEntry.annotations e)).

(** ** The registry's invariant: ids below the static limit are slots, and the
    counter is past every other registered id. *)

Definition registry_ok (r : SchemaRegistry.t) : Prop :=
  STATIC_WIRE_ID_LIMIT <= SchemaRegistry.next_id r < 2 ^ 16 ∧
  ∀ id e, SchemaRegistry.schemas r !! id = Some e →
    0 <= id ∧ (id < STATIC_WIRE_ID_LIMIT ∨ id < SchemaRegistry.next_id r).

Lemma registry_new_ok : registry_ok registry_new.
Proof.
  split; [by split|]. intros id e H. cbn in H. by rewrite lookup_empty in H.
Qed.

Lemma register_get r id e r' :
  register r id e = Some r' →
  SchemaRegistry.schemas r' = <[id := e]> (SchemaRegistry.schemas r) ∧
  SchemaRegistry.next_id r' = SchemaRegistry.next_id r.
Proof.
  unfold register. destruct_match.
  - destruct (decide (t = e)) as [->|]; [|done]. intros [= <-].
    by rewrite insert_id.
  - by intros [= <-].
Qed.

Lemma register_conflict r id e :
  register r id e = None ↔
  ∃ e', SchemaRegistry.schemas r !! id = Some e' ∧ e' ≠ e.
Proof.
  unfold register. split.
  - destruct_match; [|done]. destruct (decide (t = e)); [done|]. by exists t.
  - intros (e' & -> & Hne). by rewrite decide_False.
Qed.

Lemma register_idem r id e r' : register r id e = Some r' → register r' id e = Some r'.
Proof.
  intros H. pose proof (register_get _ _ _ _ H) as [Hs _]. unfold register.
  rewrite Hs, lookup_insert_eq. by rewrite decide_True.
Qed.

(** A fresh id comes from the counter and is unused. *)
Lemma next_type_id_fresh r :
  registry_ok r →
  STATIC_WIRE_ID_LIMIT <= fst (next_type_id r) ∧
  SchemaRegistry.schemas r !! fst (next_type_id r) = None.
Proof.
  intros [Hn Hids]. split; [cbn; lia|]. cbn.
  destruct (SchemaRegistry.schemas r !! SchemaRegistry.next_id r) eqn:E; [|done].
  apply Hids in E. lia.
Qed.

Lemma register_next_ok r e r' :
  registry_ok r → SchemaRegistry.next_id r + 1 < 2 ^ 16 →
  register (snd (next_type_id r)) (fst (next_type_id r)) e = Some r' → registry_ok r'.
Proof.
  intros [Hn Hids] Hroom H. apply register_get in H as [Hs Hid]. cbn in Hs, Hid.
  rewrite wrapping_add_small in Hid by (unfold fits, STATIC_WIRE_ID_LIMIT in *; lia).
  split; [rewrite Hid; unfold STATIC_WIRE_ID_LIMIT in *; lia|]. rewrite Hs, Hid.
  intros id e' He. apply lookup_insert_Some in He as [[<- <-]|[Hne He]].
  - unfold STATIC_WIRE_ID_LIMIT in *. lia.
  - apply Hids in He. lia.
Qed.

(** Registering a slot id keeps the invariant. *)
Lemma register_slot_ok r id e r' :
  registry_ok r → 0 <= id < STATIC_WIRE_ID_LIMIT → register r id e = Some r' → registry_ok r'.
Proof.
  intros [Hn Hids] Hid H. apply register_get in H as [Hs Hnext].
  split; [by rewrite Hnext|]. rewrite Hs, Hnext.
  intros id' e' He. apply lookup_insert_Some in He as [[<- <-]|[Hne He]]; [lia|].
  by apply Hids in He.
Qed.

Lemma sync_next_id_ok r :
  (∀ id e, SchemaRegistry.schemas r !! id = Some e → 0 <= id < 2 ^ 16 - 1) →
  registry_ok (sync_next_id r).
Proof.
  intros Hids. unfold registry_ok. cbn.
  apply (map_fold_weak_ind (fun next m =>
    (∀ id e, m !! id = Some e → 0 <= id < 2 ^ 16 - 1) →
    STATIC_WIRE_ID_LIMIT <= next < 2 ^ 16 ∧
    ∀ id e, m !! id = Some e → 0 <= id ∧ (id < STATIC_WIRE_ID_LIMIT ∨ id < next))); [| |done].
  - intros _. split; [by split|]. intros id e H. by rewrite lookup_empty in H.
  - intros id e m next Hm IH Hb.
    assert (0 <= id < 2 ^ 16 - 1) as Hid by (apply (Hb id e), lookup_insert_eq).
    destruct IH as [Hn IH].
    { intros i x Hx. apply (Hb i x). rewrite lookup_insert_ne; [done|]. congruence. }
    unfold STATIC_WIRE_ID_LIMIT in *.
    destruct (id >=? next) eqn:Hge; bool_facts.
    + rewrite wrapping_add_small by (unfold fits; lia). split; [lia|].
      intros i x Hx. apply lookup_insert_Some in Hx as [[<- <-]|[_ Hx]]; [lia|].
      apply IH in Hx. lia.
    + split; [lia|]. intros i x Hx. apply lookup_insert_Some in Hx as [[<- <-]|[_ Hx]]; [lia|].
      by apply IH in Hx.
Qed.

(** ** Main property *)

(** After [sync_next_id] the registry hands out a wire id that no schema
    holds and that the static slots cannot claim; the schema registered under
    it is the one looked up, and the one already there cannot be replaced by a
    different one. *)
Theorem sync_then_allocate r entry :
  (∀ id e, SchemaRegistry.schemas r !! id = Some e → 0 <= id < 2 ^ 16 - 1) →
  let '(id, r') := next_type_id (sync_next_id r) in
  STATIC_WIRE_ID_LIMIT <= id < 2 ^ 16 ∧ registry_get r id = None ∧
  ∃ r'', register r' id entry = Some r'' ∧ registry_get r'' id = Some entry ∧
    (∀ id' e, registry_get r id' = Some e → registry_get r'' id' = Some e) ∧
    ∀ entry', entry' ≠ entry → register r'' id entry' = None.
Proof.
  intros Hids. pose proof (sync_next_id_ok r Hids) as Hok.
  destruct (next_type_id_fresh _ Hok) as [Hlo Hfree].
  unfold next_type_id in *. cbn [fst] in Hlo, Hfree. destruct Hok as [[_ Hhi] _].
  revert Hlo Hfree Hhi. generalize (SchemaRegistry.next_id (sync_next_id r)).
  intros id Hlo Hfree Hhi. change (SchemaRegistry.schemas (sync_next_id r)) with
    (SchemaRegistry.schemas r) in *.
  split; [done|]. split; [exact Hfree|].
  eexists. split; [unfold register; cbn; rewrite Hfree; reflexivity|]. unfold registry_get.
  cbn. split; [apply lookup_insert_eq|]. split.
  - intros id' e He. rewrite lookup_insert_ne; [done|]. intros ->. by rewrite Hfree in He.
  - intros entry' Hne. apply register_conflict. cbn. exists entry.
    split; [apply lookup_insert_eq|]. by intros ->.
Qed.

Example sync_then_allocate_witness :
  let r := SchemaRegistry.mk
    {[ 7 := SchemaEntry.mk (lit "Static") [] []; 300 := SchemaEntry.mk (lit "Dynamic") [] [] ]} 256 in
  fst (next_type_id (sync_next_id r)) = 301 ∧ registry_get r 301 = None.
Proof.
  intros r. split; [by vm_compute|].
  assert (∀ id e, SchemaRegistry.schemas r !! id = Some e → 0 <= id < 2 ^ 16 - 1) as Hids.
  { intros id e H. unfold r in H. cbn [SchemaRegistry.schemas] in H.
    rewrite lookup_insert_Some, lookup_singleton_Some in H. lia. }
  pose proof (sync_then_allocate r (SchemaEntry.mk (lit "New") [] []) Hids) as H.
  vm_compute (next_type_id _) in H. exact (proj1 (proj2 H)).
Defined.
