(* ===== verification/Codec.v ===== *)
(** * The frame codec (dial9-trace-format/src/codec.rs)

    The header, the six frame kinds, their encoders and their owned and
    zero-copy decoders.  [&data[pos..]] is the suffix it denotes: a decoder
    that returns [(frame, consumed)] returns the frame and [&data[consumed..]]
    here, and [pos] starts behind the tag byte. *)

From Stdlib Require Import ZArith Lia.
From stdpp Require Import base list sets strings option.
From coqutil Require Import Byte Word.LittleEndianList.
From S2P Require Import Prelude.
From S2P Require Import Leb128.
From S2P Require Import Utf8.
From S2P Require Import FieldType.
From S2P Require Import FieldValue.
From S2P Require Import FieldValueRef.
From S2P Require Import Schema.

Definition MAGIC : bytes := [Byte.x54; Byte.x52; Byte.x43; Byte.x00].
Definition VERSION : byte := Byte.x01.
Definition HEADER_SIZE : Z := 5.

Definition TAG_SCHEMA : byte := Byte.x01.
Definition TAG_EVENT : byte := Byte.x02.
Definition TAG_STRING_POOL : byte := Byte.x03.
Definition TAG_STACK_POOL : byte := Byte.x04.
Definition TAG_TIMESTAMP_RESET : byte := Byte.x05.
Definition TAG_SCHEMA_ANNOTATIONS : byte := Byte.x06.

Definition MAX_TIMESTAMP_DELTA_NS : Z := 0xFFFFFF.

Definition encode_u24_le (value : Z) : bytes :=
  [z2b value; z2b (Z.shiftr value 8); z2b (Z.shiftr value 16)].

Definition decode_u24_le (data : bytes) : option Z :=
  match data with
  | b0 :: b1 :: b2 :: _ =>
      Some (Z.lor (Z.lor (b2z b0) (Z.shiftl (b2z b1) 8)) (Z.shiftl (b2z b2) 16))
  | _ => None
  end.

Module PoolEntry.
Record t : Type := mk { pool_id : Z; data : bytes }.
End PoolEntry.

Module StackPoolEntry.
Record t : Type := mk { pool_id : Z; frames : list Z }.
End StackPoolEntry.

Module Frame.
Inductive t : Type :=
| Schema (type_id : Z) (entry : SchemaEntry.t) (has_timestamp_on_wire : bool)
| Event (type_id : Z) (timestamp_ns : Z) (values : list FieldValue.t)
| StringPool (entries : list PoolEntry.t)
| StackPool (entries : list StackPoolEntry.t)
| TimestampReset (ts : Z)
| SchemaAnnotations (type_id : Z) (annotations : list FieldAnnotation.t).
End Frame.

Module PoolEntryRef.
Record t : Type := mk { pool_id : Z; data : bytes }.
End PoolEntryRef.

Module StackPoolEntryRef.
Record t : Type := mk { pool_id : Z; frames_le : bytes }.
End StackPoolEntryRef.

Definition frame_count (e : StackPoolEntryRef.t) : Z :=
  cast 32 (blen (StackPoolEntryRef.frames_le e) / 8).

Definition to_stack_frames (e : StackPoolEntryRef.t) : list Z :=
  stack_frame_iter (Z.to_nat (frame_count e)) (StackPoolEntryRef.frames_le e).

Module FrameRef.
Inductive t : Type :=
| Schema (type_id : Z) (entry : SchemaEntry.t) (has_timestamp_on_wire : bool)
| Event (type_id : Z) (timestamp_ns : Z) (values : list FieldValueRef.t)
| StringPool (entries : list PoolEntryRef.t)
| StackPool (entries : list StackPoolEntryRef.t)
| TimestampReset (ts : Z)
| SchemaAnnotations (type_id : Z) (annotations : list FieldAnnotation.t).
End FrameRef.

Module SchemaInfo.
Record t : Type := mk { field_tags : list Z; has_timestamp_on_wire : bool }.
End SchemaInfo.

(** ** Encoding *)

Definition encode_header : bytes := MAGIC ++ [VERSION].

Definition put_field_def (f : FieldDef.t) : bytes :=
  put_le 2 (blen (FieldDef.name f)) ++ FieldDef.name f
  ++ [z2b (tag_of (FieldDef.field_type f))].

Definition encode_schema (type_id : Z) (entry : SchemaEntry.t) : bytes :=
  [TAG_SCHEMA] ++ put_le 2 type_id
  ++ put_le 2 (blen (SchemaEntry.name entry)) ++ SchemaEntry.name entry
  ++ [Byte.x01]
  ++ put_le 2 (blen (SchemaEntry.fields entry))
  ++ concat (put_field_def <$> SchemaEntry.fields entry).

Definition put_pool_entry (e : PoolEntry.t) : bytes :=
  put_le 4 (PoolEntry.pool_id e) ++ put_le 4 (blen (PoolEntry.data e)) ++ PoolEntry.data e.

Definition encode_string_pool (entries : list PoolEntry.t) : bytes :=
  [TAG_STRING_POOL] ++ put_le 4 (blen entries) ++ concat (put_pool_entry <$> entries).

Definition put_stack_pool_entry (e : StackPoolEntry.t) : bytes :=
  put_le 4 (StackPoolEntry.pool_id e) ++ put_le 4 (blen (StackPoolEntry.frames e))
  ++ concat (put_le 8 <$> StackPoolEntry.frames e).

Definition encode_stack_pool (entries : list StackPoolEntry.t) : bytes :=
  [TAG_STACK_POOL] ++ put_le 4 (blen entries)
  ++ concat (put_stack_pool_entry <$> entries).

Definition put_annotation (a : FieldAnnotation.t) : bytes :=
  put_le 2 (FieldAnnotation.field_index a)
  ++ put_le 2 (blen (FieldAnnotation.key a)) ++ FieldAnnotation.key a
  ++ put_le 4 (blen (FieldAnnotation.value a)) ++ FieldAnnotation.value a.

(** [None] is the error "annotation count exceeds u16::MAX". *)
Definition encode_schema_annotations (type_id : Z) (annotations : list FieldAnnotation.t)
    : option bytes :=
  if blen annotations <? 2 ^ 16 then
    Some ([TAG_SCHEMA_ANNOTATIONS] ++ encode_unsigned type_id
          ++ put_le 2 (blen annotations) ++ concat (put_annotation <$> annotations))
  else None.

(** ** Decoding *)

Definition decode_header (data : bytes) : option byte :=
  match take_bytes 4 data with
  | Some (m, rest) =>
      if bool_decide (m = MAGIC) then
        match rest with version :: _ => Some version | [] => None end
      else None
  | None => None
  end.

Local Open Scope parser_scope.

(** [String::from_utf8(data.get(pos..pos + n)?.to_vec()).ok()?]. *)
Definition get_str (n : Z) : parser bytes := s <~ take_bytes n ;; plift (from_utf8 s).

Definition get_field_def : parser FieldDef.t :=
  fname_len <~ get_le 2 ;; fname <~ get_str fname_len ;;
  raw_tag <~ get_byte ;; ft <~ plift (from_tag (b2z raw_tag)) ;;
  pret (FieldDef.mk fname ft).

Definition decode_schema_frame : parser Frame.t :=
  type_id <~ get_le 2 ;;
  name_len <~ get_le 2 ;; name <~ get_str name_len ;;
  has_timestamp <~ get_byte ;;
  field_count <~ get_le 2 ;;
  fields <~ get_many get_field_def (Z.to_nat field_count) ;;
  pret (Frame.Schema type_id (SchemaEntry.mk name fields [])
          (negb (b2z has_timestamp =? 0))).

(** [let delta = decode_u24_le(&data[pos..])?; pos += 3]. *)
Definition get_u24 : parser Z := fun d =>
  match decode_u24_le d with Some v => Some (v, drop 3 d) | None => None end.

(** The loop over the schema's field tags. *)
Fixpoint decode_fields (tags : list Z) : parser (list FieldValue.t) :=
  match tags with
  | [] => pret []
  | tag :: tags =>
      ft <~ plift (from_tag tag) ;;
      v <~ decode_field ft ;;
      vs <~ decode_fields tags ;; pret (v :: vs)
  end.

(** [timestamp_ns] of an event under [info]. *)
Definition get_timestamp (info : SchemaInfo.t) (timestamp_base_ns : Z) : parser Z :=
  if SchemaInfo.has_timestamp_on_wire info then
    delta <~ get_u24 ;; plift (checked_add 64 timestamp_base_ns delta)
  else pret timestamp_base_ns.

Definition decode_event_frame (schema_lookup : Z → option SchemaInfo.t)
    (timestamp_base_ns : Z) : parser Frame.t :=
  type_id <~ get_le 2 ;;
  info <~ plift (schema_lookup type_id) ;;
  timestamp_ns <~ get_timestamp info timestamp_base_ns ;;
  values <~ decode_fields (SchemaInfo.field_tags info) ;;
  pret (Frame.Event type_id timestamp_ns values).

Definition get_pool_entry : parser PoolEntry.t :=
  pool_id <~ get_le 4 ;; len <~ get_le 4 ;; d <~ take_bytes len ;;
  pret (PoolEntry.mk pool_id d).

Definition decode_string_pool_frame : parser Frame.t :=
  count <~ get_le 4 ;; entries <~ get_many get_pool_entry (Z.to_nat count) ;;
  pret (Frame.StringPool entries).

(** [frame_bytes.chunks_exact(8).map(u64::from_le_bytes).collect()]. *)
Definition le_chunks (d : bytes) : list Z := stack_frame_iter (length d / 8) d.

(** [pos.checked_add(bytes)] cannot overflow: [pos] is the length of a slice. *)
Definition get_frame_bytes : parser (Z * bytes) :=
  pool_id <~ get_le 4 ;; frame_count <~ get_le 4 ;;
  n <~ plift (checked_mul 64 frame_count 8) ;;
  frame_bytes <~ take_bytes n ;; pret (pool_id, frame_bytes).

Definition get_stack_pool_entry : parser StackPoolEntry.t :=
  e <~ get_frame_bytes ;; pret (StackPoolEntry.mk (fst e) (le_chunks (snd e))).

Definition decode_stack_pool_frame : parser Frame.t :=
  count <~ get_le 4 ;; entries <~ get_many get_stack_pool_entry (Z.to_nat count) ;;
  pret (Frame.StackPool entries).

Definition get_annotation : parser FieldAnnotation.t :=
  field_index <~ get_le 2 ;;
  key_len <~ get_le 2 ;; key <~ get_str key_len ;;
  value_len <~ get_le 4 ;; value <~ get_str value_len ;;
  pret (FieldAnnotation.mk field_index key value).

Definition decode_schema_annotations_frame : parser Frame.t :=
  type_id_raw <~ get_leb ;;
  count <~ get_le 2 ;;
  annotations <~ get_many get_annotation (Z.to_nat count) ;;
  pret (Frame.SchemaAnnotations (cast 16 type_id_raw) annotations).

Definition decode_frame (schema_lookup : Z → option SchemaInfo.t)
    (timestamp_base_ns : Z) : parser Frame.t :=
  tag <~ get_byte ;;
  if bool_decide (tag = TAG_SCHEMA) then decode_schema_frame
  else if bool_decide (tag = TAG_EVENT) then
    decode_event_frame schema_lookup timestamp_base_ns
  else if bool_decide (tag = TAG_STRING_POOL) then decode_string_pool_frame
  else if bool_decide (tag = TAG_STACK_POOL) then decode_stack_pool_frame
  else if bool_decide (tag = TAG_TIMESTAMP_RESET) then
    ts <~ get_le 8 ;; pret (Frame.TimestampReset ts)
  else if bool_decide (tag = TAG_SCHEMA_ANNOTATIONS) then decode_schema_annotations_frame
  else pfail.

(** ** Zero-copy decoding *)

(** One round of the loop over the field tags, [pos] into the frame's [data]. *)
Definition decode_field_ref (ft : FieldType.t) (data : bytes) (pos : Z)
    : option (FieldValueRef.t * Z) :=
  if is_optional ft then
    prefix ← byte_at data pos; let pos := pos + 1 in
    if prefix =? 0 then Some (FieldValueRef.None, pos)
    else '(val, consumed) ← ref_decode (inner ft) data pos; Some (val, pos + consumed)
  else '(val, consumed) ← ref_decode ft data pos; Some (val, pos + consumed).

Fixpoint decode_fields_ref (tags : list Z) (data : bytes) (pos : Z)
    : option (list FieldValueRef.t * Z) :=
  match tags with
  | [] => Some ([], pos)
  | tag :: tags =>
      ft ← from_tag tag; '(v, pos) ← decode_field_ref ft data pos;
      '(vs, pos) ← decode_fields_ref tags data pos; Some (v :: vs, pos)
  end.

(** [data] starts with the tag byte. *)
Definition decode_event_frame_ref (schema_lookup : Z → option SchemaInfo.t)
    (timestamp_base_ns : Z) : parser FrameRef.t := fun data =>
  let pos := 1 in
  type_id ← le_at data pos 2; let pos := pos + 2 in
  info ← schema_lookup type_id;
  '(timestamp_ns, pos) ←
    (if SchemaInfo.has_timestamp_on_wire info then
       delta ← decode_u24_le (at_pos data pos);
       ts ← checked_add 64 timestamp_base_ns delta; Some (ts, pos + 3)
     else Some (timestamp_base_ns, pos));
  '(values, pos) ← decode_fields_ref (SchemaInfo.field_tags info) data pos;
  Some (FrameRef.Event type_id timestamp_ns values, at_pos data pos).

Definition get_pool_entry_ref : parser PoolEntryRef.t :=
  pool_id <~ get_le 4 ;; len <~ get_le 4 ;; d <~ take_bytes len ;;
  pret (PoolEntryRef.mk pool_id d).

Definition decode_string_pool_frame_ref : parser FrameRef.t :=
  count <~ get_le 4 ;; entries <~ get_many get_pool_entry_ref (Z.to_nat count) ;;
  pret (FrameRef.StringPool entries).

Definition get_stack_pool_entry_ref : parser StackPoolEntryRef.t :=
  e <~ get_frame_bytes ;; pret (StackPoolEntryRef.mk (fst e) (snd e)).

Definition decode_stack_pool_frame_ref : parser FrameRef.t :=
  count <~ get_le 4 ;; entries <~ get_many get_stack_pool_entry_ref (Z.to_nat count) ;;
  pret (FrameRef.StackPool entries).

(** The frames both decoders build the same way. *)
Definition frame_as_ref (f : Frame.t) : option FrameRef.t :=
  match f with
  | Frame.Schema type_id entry ts => Some (FrameRef.Schema type_id entry ts)
  | Frame.SchemaAnnotations type_id l => Some (FrameRef.SchemaAnnotations type_id l)
  | _ => None
  end.

Definition decode_frame_ref (schema_lookup : Z → option SchemaInfo.t)
    (timestamp_base_ns : Z) : parser FrameRef.t := fun data =>
  (tag <~ get_byte ;;
   if bool_decide (tag = TAG_SCHEMA) then
     f <~ decode_schema_frame ;; plift (frame_as_ref f)
   else if bool_decide (tag = TAG_EVENT) then
     fun _ => decode_event_frame_ref schema_lookup timestamp_base_ns data
   else if bool_decide (tag = TAG_STRING_POOL) then decode_string_pool_frame_ref
   else if bool_decide (tag = TAG_STACK_POOL) then decode_stack_pool_frame_ref
   else if bool_decide (tag = TAG_TIMESTAMP_RESET) then
     ts <~ get_le 8 ;; pret (FrameRef.TimestampReset ts)
   else if bool_decide (tag = TAG_SCHEMA_ANNOTATIONS) then
     f <~ decode_schema_annotations_frame ;; plift (frame_as_ref f)
   else pfail) data.

(** ** Three-byte integers *)

Lemma encode_u24_put v : encode_u24_le v = put_le 3 v.
Proof. done. Qed.

Lemma decode_u24_get d : get_u24 d = get_le 3 d.
Proof.
  unfold get_u24, get_le, pbind, pret, take_bytes.
  destruct d as [|b0 [|b1 [|b2 d]]]; try done.
  change (Z.of_nat 3) with 3. rewrite !blen_cons. pose proof (blen_nonneg d).
  destruct (Z.leb_spec 3 (1 + (1 + (1 + blen d)))); [|lia]. cbn [andb].
  change (Z.to_nat 3) with 3%nat. cbn [take drop decode_u24_le Z.leb].
  f_equal. f_equal.
  change (le_combine (b0 :: b1 :: b2 :: take 0 d))
    with (Z.lor (b2z b0) (Z.shiftl (Z.lor (b2z b1)
            (Z.shiftl (Z.lor (b2z b2) (Z.shiftl 0 8)) 8)) 8)).
  pose proof (b2z_fits b0). pose proof (b2z_fits b1). pose proof (b2z_fits b2).
  by rewrite Z.shiftl_0_l, Z.lor_0_r, Z.shiftl_lor, Z.lor_assoc, Z.shiftl_shiftl by lia.
Qed.

#[global] Instance get_u24_local : Local get_u24.
Proof. intros d x r. rewrite decode_u24_get. intros H. apply get_le_local in H as (c & -> & H).
  exists c. split; [done|]. intros e. by rewrite decode_u24_get. Qed.

Lemma get_u24_encode v r : fits 24 v → get_u24 (encode_u24_le v ++ r) = Some (v, r).
Proof. intros. rewrite decode_u24_get, encode_u24_put. by apply get_put_le. Qed.

(** ** Each frame decoder inverts its encoder *)

#[global] Instance get_str_local n : Local (get_str n).
Proof. apply _. Qed.

Lemma get_str_app s r : utf8_valid s = true → get_str (blen s) (s ++ r) = Some (s, r).
Proof.
  intros Hs. unfold get_str. rewrite pbind_take by done.
  unfold plift. by rewrite from_utf8_valid.
Qed.

Lemma put_le_len {A} n (l : list A) :
  (blen l <? 2 ^ (8 * Z.of_nat n)) = true → fits (8 * Z.of_nat n) (blen l).
Proof. intros. bool_facts. split; [apply blen_nonneg|done]. Qed.

Lemma get_field_def_inverts f :
  field_def_ok f = true → Inverts get_field_def (put_field_def f) f.
Proof.
  intros H r. unfold field_def_ok, name_ok in H. apply andb_true_iff in H as [Hu Hl].
  unfold get_field_def, put_field_def. rewrite <- !app_assoc.
  rewrite pbind_put_le by (by apply put_le_len).
  rewrite (pbind_some _ _ _ _ _ (get_str_app _ _ Hu)). cbn [app].
  rewrite pbind_byte, b2z_tag_of, from_tag_tag_of. by destruct f.
Qed.

Lemma decode_schema_inverts type_id e lookup base :
  fits 16 type_id → entry_ok e = true →
  Inverts (decode_frame lookup base) (encode_schema type_id e)
    (Frame.Schema type_id (SchemaEntry.mk (SchemaEntry.name e) (SchemaEntry.fields e) []) true).
Proof.
  intros Hid H r. unfold entry_ok, name_ok in H.
  apply andb_true_iff in H as [H _]. apply andb_true_iff in H as [Hn Hf].
  apply andb_true_iff in Hn as [Hu Hl]. apply andb_true_iff in Hf as [Hfl Hf].
  unfold encode_schema, decode_frame. cbn [app]. rewrite pbind_byte.
  rewrite <- !app_assoc.
  change (bool_decide (TAG_SCHEMA = TAG_SCHEMA)) with true. cbv iota.
  unfold decode_schema_frame. rewrite pbind_put_le by done.
  rewrite pbind_put_le by (by apply put_le_len).
  rewrite (pbind_some _ _ _ _ _ (get_str_app _ _ Hu)). cbn [app]. rewrite pbind_byte, <- app_assoc.
  rewrite pbind_put_le by (by apply put_le_len). rewrite to_nat_blen.
  erewrite pbind_some; [|apply get_many_inverts; intros f Hin; apply get_field_def_inverts].
  - done.
  - by use_forallb Hf Hin.
Qed.

Lemma get_annotation_inverts a :
  annotation_ok a = true → Inverts get_annotation (put_annotation a) a.
Proof.
  intros H r. unfold annotation_ok, name_ok in H.
  apply andb_true_iff in H as [H Hv]. apply andb_true_iff in H as [Hi Hk].
  apply andb_true_iff in Hk as [Hku Hkl]. apply andb_true_iff in Hv as [Hvu Hvl].
  bool_facts. unfold get_annotation, put_annotation. rewrite <- !app_assoc.
  rewrite pbind_put_le by done. rewrite pbind_put_le by (split; [apply blen_nonneg|done]).
  rewrite (pbind_some _ _ _ _ _ (get_str_app _ _ Hku)).
  rewrite pbind_put_le by (split; [apply blen_nonneg|done]).
  rewrite (pbind_some _ _ _ _ _ (get_str_app _ _ Hvu)). by destruct a.
Qed.

Lemma decode_schema_annotations_inverts type_id l w lookup base :
  fits 16 type_id → forallb annotation_ok l = true →
  encode_schema_annotations type_id l = Some w →
  Inverts (decode_frame lookup base) w (Frame.SchemaAnnotations type_id l).
Proof.
  intros Hid Hl Hw r. unfold encode_schema_annotations in Hw.
  destruct (blen l <? 2 ^ 16) eqn:Hlen; [|done]. apply Some_inj in Hw as <-.
  unfold decode_frame. cbn [app]. rewrite pbind_byte. rewrite <- !app_assoc.
  change (bool_decide (TAG_SCHEMA_ANNOTATIONS = TAG_SCHEMA_ANNOTATIONS)) with true.
  do 5 (rewrite bool_decide_false by done; cbv iota).
  cbv iota. unfold decode_schema_annotations_frame.
  rewrite (pbind_some _ _ _ _ _ (get_leb_encode type_id _ ltac:(eapply fits_le; [|done]; lia))).
  rewrite pbind_put_le by (by apply put_le_len). rewrite to_nat_blen.
  erewrite pbind_some; [|apply get_many_inverts; intros a Hin; apply get_annotation_inverts].
  - by rewrite cast_id.
  - by use_forallb Hl Hin.
Qed.

Definition pool_entry_ok (e : PoolEntry.t) : bool :=
  bool_decide (fits 32 (PoolEntry.pool_id e)) && (blen (PoolEntry.data e) <? 2 ^ 32).

Lemma get_pool_entry_inverts e :
  pool_entry_ok e = true → Inverts get_pool_entry (put_pool_entry e) e.
Proof.
  intros H r. unfold pool_entry_ok in H. bool_facts.
  unfold get_pool_entry, put_pool_entry. rewrite <- !app_assoc.
  rewrite pbind_put_le by done. rewrite pbind_put_le by (split; [apply blen_nonneg|done]).
  rewrite pbind_take by done. by destruct e.
Qed.

Lemma decode_string_pool_inverts l lookup base :
  blen l < 2 ^ 32 → forallb pool_entry_ok l = true →
  Inverts (decode_frame lookup base) (encode_string_pool l) (Frame.StringPool l).
Proof.
  intros Hlen Hl r. unfold encode_string_pool, decode_frame. cbn [app].
  rewrite pbind_byte, <- app_assoc.
  change (bool_decide (TAG_STRING_POOL = TAG_STRING_POOL)) with true.
  do 2 (rewrite bool_decide_false by done; cbv iota).
  unfold decode_string_pool_frame. rewrite pbind_put_le by (split; [apply blen_nonneg|done]).
  rewrite to_nat_blen.
  erewrite pbind_some; [|apply get_many_inverts; intros a Hin; apply get_pool_entry_inverts].
  - done.
  - by use_forallb Hl Hin.
Qed.

Definition stack_pool_entry_ok (e : StackPoolEntry.t) : bool :=
  bool_decide (fits 32 (StackPoolEntry.pool_id e))
  && (blen (StackPoolEntry.frames e) <? 2 ^ 32)
  && forallb (fun a => bool_decide (fits 64 a)) (StackPoolEntry.frames e).

Lemma le_chunks_put l :
  forallb (fun a => bool_decide (fits 64 a)) l = true →
  le_chunks (concat (put_le 8 <$> l)) = l.
Proof.
  intros Hl. unfold le_chunks.
  assert (length (concat (put_le 8 <$> l)) / 8 = length l)%nat as ->.
  { pose proof (blen_concat_put_le 8 l) as H. unfold blen in H.
    assert (length (concat (put_le 8 <$> l)) = length l * 8)%nat as -> by lia.
    by apply Nat.div_mul. }
  by apply stack_frame_iter_put.
Qed.

Lemma get_frame_bytes_inverts id l :
  fits 32 id → blen l < 2 ^ 32 →
  Inverts get_frame_bytes
    (put_le 4 id ++ put_le 4 (blen l) ++ concat (put_le 8 <$> l))
    (id, concat (put_le 8 <$> l)).
Proof.
  intros Hid Hlen r. pose proof (blen_nonneg l). unfold get_frame_bytes.
  rewrite <- !app_assoc. rewrite pbind_put_le by done. rewrite pbind_put_le by (split; done).
  unfold checked_mul. destruct (Z.ltb_spec (blen l * 8) (2 ^ 64)); [|lia].
  rewrite pbind_plift, pbind_take; [done|]. by rewrite (blen_concat_put_le 8).
Qed.

Lemma get_stack_pool_entry_inverts e :
  stack_pool_entry_ok e = true → Inverts get_stack_pool_entry (put_stack_pool_entry e) e.
Proof.
  intros H r. unfold stack_pool_entry_ok in H. bool_facts.
  unfold get_stack_pool_entry, put_stack_pool_entry.
  rewrite (pbind_some _ _ _ _ _ (get_frame_bytes_inverts _ _ H H1 r)). cbn [fst snd].
  rewrite le_chunks_put by done. by destruct e.
Qed.

Lemma decode_stack_pool_inverts l lookup base :
  blen l < 2 ^ 32 → forallb stack_pool_entry_ok l = true →
  Inverts (decode_frame lookup base) (encode_stack_pool l) (Frame.StackPool l).
Proof.
  intros Hlen Hl r. unfold encode_stack_pool, decode_frame. cbn [app].
  rewrite pbind_byte, <- app_assoc.
  change (bool_decide (TAG_STACK_POOL = TAG_STACK_POOL)) with true.
  do 3 (rewrite bool_decide_false by done; cbv iota).
  unfold decode_stack_pool_frame. rewrite pbind_put_le by (split; [apply blen_nonneg|done]).
  rewrite to_nat_blen.
  erewrite pbind_some; [|apply get_many_inverts; intros a Hin; apply get_stack_pool_entry_inverts].
  - done.
  - by use_forallb Hl Hin.
Qed.

Lemma decode_timestamp_reset_inverts ts lookup base :
  fits 64 ts →
  Inverts (decode_frame lookup base) (TAG_TIMESTAMP_RESET :: put_le 8 ts)
    (Frame.TimestampReset ts).
Proof.
  intros Hts r. unfold decode_frame. cbn [app]. rewrite pbind_byte.
  change (bool_decide (TAG_TIMESTAMP_RESET = TAG_TIMESTAMP_RESET)) with true.
  do 4 (rewrite bool_decide_false by done; cbv iota).
  by rewrite pbind_put_le.
Qed.

(** The body of an event frame behind its timestamp delta. *)
Definition put_fields (values : list FieldValue.t) (fts : list FieldType.t) : bytes :=
  concat (zip_with write_field_value values fts).

Lemma decode_fields_inverts values fts :
  Forall2 field_ok values fts →
  Inverts (decode_fields (map tag_of fts)) (put_fields values fts) values.
Proof.
  unfold put_fields. induction 1 as [|v ft values fts Hv _ IH]; intros r; [done|].
  cbn [map zip_with concat decode_fields]. rewrite <- app_assoc, from_tag_tag_of, pbind_plift.
  rewrite (pbind_some _ _ _ _ _ (decode_field_write v ft Hv _)).
  by rewrite (pbind_some _ _ _ _ _ (IH r)).
Qed.

(** [TAG_EVENT], the type id, the timestamp delta, the fields. *)
Definition event_frame (type_id delta : Z) (fields : bytes) : bytes :=
  [TAG_EVENT] ++ put_le 2 type_id ++ encode_u24_le delta ++ fields.

Lemma decode_event_inverts type_id delta fields values tags lookup base :
  fits 16 type_id → fits 24 delta → lookup type_id = Some (SchemaInfo.mk tags true) →
  base + delta < 2 ^ 64 → Inverts (decode_fields tags) fields values →
  Inverts (decode_frame lookup base) (event_frame type_id delta fields)
    (Frame.Event type_id (base + delta) values).
Proof.
  intros Hid Hd Hl Hb Hf r. unfold event_frame, decode_frame. cbn [app].
  rewrite pbind_byte, <- !app_assoc.
  change (bool_decide (TAG_EVENT = TAG_EVENT)) with true.
  rewrite bool_decide_false by done. cbv iota.
  unfold decode_event_frame. rewrite pbind_put_le by done.
  rewrite Hl, pbind_plift. unfold get_timestamp. cbn [SchemaInfo.has_timestamp_on_wire].
  assert ((delta <~ get_u24;; plift (checked_add 64 base delta))
            (encode_u24_le delta ++ fields ++ r) = Some (base + delta, fields ++ r)) as Hts.
  { rewrite (pbind_some _ _ _ _ _ (get_u24_encode delta _ Hd)).
    unfold plift. by rewrite checked_add_ok. }
  rewrite (pbind_some _ _ _ _ _ Hts). cbn [SchemaInfo.field_tags].
  by rewrite (pbind_some _ _ _ _ _ (Hf r)).
Qed.

(** ** Locality: a frame is decided by its own bytes *)

#[global] Instance decode_fields_local tags : Local (decode_fields tags).
Proof. induction tags; simpl; apply _. Qed.

#[global] Instance get_timestamp_local info base : Local (get_timestamp info base).
Proof. unfold get_timestamp. destruct (SchemaInfo.has_timestamp_on_wire info); apply _. Qed.

#[global] Instance decode_frame_local lookup base : Local (decode_frame lookup base).
Proof.
  apply pbind_local; [apply _|]. intros tag.
  repeat match goal with |- context [bool_decide ?P] => destruct (bool_decide P) end; apply _.
Qed.

(** A decoded frame consumes at least its tag byte. *)
Lemma decode_frame_progress lookup base d f r :
  decode_frame lookup base d = Some (f, r) → blen r < blen d.
Proof.
  unfold decode_frame. intros H. destruct d as [|tag d]; [done|].
  rewrite pbind_byte in H. rewrite blen_cons.
  match type of H with ?p d = _ => assert (Local p) as Hp end.
  { repeat match goal with |- context [bool_decide ?P] => destruct (bool_decide P) end;
      apply _. }
  pose proof (local_len _ _ _ _ Hp H). lia.
Qed.

(** ** The zero-copy frame decoder against the owned one *)

Definition stack_entry_to_owned (e : StackPoolEntryRef.t) : StackPoolEntry.t :=
  StackPoolEntry.mk (StackPoolEntryRef.pool_id e) (to_stack_frames e).

Definition pool_entry_to_owned (e : PoolEntryRef.t) : PoolEntry.t :=
  PoolEntry.mk (PoolEntryRef.pool_id e) (PoolEntryRef.data e).

Definition frame_to_owned (f : FrameRef.t) : Frame.t :=
  match f with
  | FrameRef.Schema id e ts => Frame.Schema id e ts
  | FrameRef.Event id ts values => Frame.Event id ts (map to_owned values)
  | FrameRef.StringPool l => Frame.StringPool (map pool_entry_to_owned l)
  | FrameRef.StackPool l => Frame.StackPool (map stack_entry_to_owned l)
  | FrameRef.TimestampReset ts => Frame.TimestampReset ts
  | FrameRef.SchemaAnnotations id l => Frame.SchemaAnnotations id l
  end.

Definition frame_faithful (f : FrameRef.t) : bool :=
  match f with
  | FrameRef.Event _ _ values => forallb owned_faithful values
  | _ => true
  end.

Lemma decode_field_ref_agrees ft data pos v pos' :
  decode_field_ref ft data pos = Some (v, pos') → owned_faithful v = true →
  0 <= pos <= blen data →
  pos <= pos' <= blen data ∧
  decode_field ft (at_pos data pos) = Some (to_owned v, at_pos data pos').
Proof.
  unfold decode_field_ref, decode_field. intros H Hv Hp. destruct (is_optional ft).
  - bind_inv H. apply byte_at_spec in E as (b & -> & Hb & E).
    rewrite (pbind_some _ _ _ _ _ E). destruct (b2z b =? 0).
    + injection H as <- <-. by split; [lia|].
    + bind_inv H. destruct x as [v' n]. injection H as <- <-.
      apply ref_decode_agrees in E0 as [Hn E0]; [|done|lia].
      rewrite blen_at_pos in Hn by lia. rewrite at_pos_add in E0 by lia. by split; [lia|].
  - bind_inv H. destruct x as [v' n]. injection H as <- <-.
    apply ref_decode_agrees in E as [Hn E]; [|done|lia].
    rewrite blen_at_pos in Hn by lia. rewrite at_pos_add in E by lia. by split; [lia|].
Qed.

Lemma decode_fields_ref_agrees tags data pos vs pos' :
  decode_fields_ref tags data pos = Some (vs, pos') → forallb owned_faithful vs = true →
  0 <= pos <= blen data →
  pos <= pos' <= blen data ∧
  decode_fields tags (at_pos data pos) = Some (map to_owned vs, at_pos data pos').
Proof.
  revert pos vs. induction tags as [|tag tags IH]; intros pos vs H Hf Hp;
    cbn [decode_fields_ref] in H.
  { injection H as <- <-. by split; [lia|]. }
  bind_inv H. rename x into ft. cbn [decode_fields]. rewrite E, pbind_plift.
  bind_inv H. destruct x as [v p1]. bind_inv H. destruct x as [vs' p2].
  injection H as <- <-. cbn [forallb] in Hf. apply andb_true_iff in Hf as [Hv Hf].
  destruct (decode_field_ref_agrees ft data pos v p1 E0 Hv Hp) as [Hp1 Hd].
  destruct (IH p1 vs' E1 Hf) as [? Hr]; [lia|]. split; [lia|].
  by rewrite (pbind_some _ _ _ _ _ Hd), (pbind_some _ _ _ _ _ Hr).
Qed.

Lemma decode_event_frame_ref_agrees lookup base data f r :
  decode_event_frame_ref lookup base data = Some (f, r) → frame_faithful f = true →
  decode_event_frame lookup base (at_pos data 1) = Some (frame_to_owned f, r).
Proof.
  unfold decode_event_frame_ref. cbv zeta. intros H Hf.
  bind_inv H. apply (le_at_spec data 1 2) in E as (_ & Hlen & E). change (Z.of_nat 2) with 2 in *.
  unfold decode_event_frame. rewrite (pbind_some _ _ _ _ _ E).
  bind_inv H. rewrite ?E0, pbind_plift.
  bind_inv H. destruct x1 as [ts p1]. bind_inv H. destruct x1 as [vs p2].
  injection H as <- <-. cbn [frame_faithful frame_to_owned] in Hf |- *.
  assert (3 <= p1 <= blen data ∧
          get_timestamp x0 base (at_pos data 3) = Some (ts, at_pos data p1)) as [Hp1 Hts].
  { unfold get_timestamp. destruct (SchemaInfo.has_timestamp_on_wire x0).
    - bind_inv E1. bind_inv E1. injection E1 as <- <-.
      assert (get_u24 (at_pos data 3) = Some (x1, at_pos data 6)) as Hu.
      { unfold get_u24. change (1 + 2) with 3 in E3. rewrite ?E3. 
        change (drop 3 (at_pos data 3)) with (at_pos (at_pos data 3) 3).
        by rewrite at_pos_add by lia. }
      pose proof (local_len _ _ _ _ _ Hu) as Hl. pose proof Hu as Hu'.
      rewrite decode_u24_get in Hu'. apply get_le_spec in Hu' as (w & Hw & Hw3 & _).
      assert (blen (at_pos data 3) = 3 + blen (at_pos data 6)) as Hl3
        by (rewrite Hw, blen_app; zlia).
      rewrite blen_at_pos in Hl3 by lia. pose proof (blen_nonneg (at_pos data 6)).
      cbn. split; [lia|]. rewrite (pbind_some _ _ _ _ _ Hu). unfold plift. by rewrite E4.
    - injection E1 as <- <-. by split; [cbn; lia|]. }
  cbn in Hts. change (1 + 2) with 3. rewrite (pbind_some _ _ _ _ _ Hts).
  apply decode_fields_ref_agrees in E2 as [_ E2]; [|done|lia].
  by rewrite (pbind_some _ _ _ _ _ E2).
Qed.

Lemma get_pool_entry_ref_agrees d e r :
  get_pool_entry_ref d = Some (e, r) → get_pool_entry d = Some (pool_entry_to_owned e, r).
Proof.
  unfold get_pool_entry_ref, get_pool_entry. intros H. parse_inv H. injection H as <- <-.
  by rewrite (pbind_some _ _ _ _ _ E), (pbind_some _ _ _ _ _ E0), (pbind_some _ _ _ _ _ E1).
Qed.

Lemma get_frame_bytes_len d id w r :
  get_frame_bytes d = Some ((id, w), r) → ∃ n, fits 32 n ∧ blen w = n * 8.
Proof.
  unfold get_frame_bytes. intros H.
  destruct (get_le 4 d) as [[id' r1]|] eqn:E; [|unfold pbind in H; by rewrite E in H].
  rewrite (pbind_some _ _ _ _ _ E) in H.
  destruct (get_le 4 r1) as [[n r2]|] eqn:E1;
    [|unfold pbind at 1 in H; by rewrite E1 in H].
  rewrite (pbind_some _ _ _ _ _ E1) in H. apply get_le_fits in E1.
  unfold checked_mul in H. destruct (n * 8 <? 2 ^ 64); [|done]. rewrite pbind_plift in H.
  exists n. split; [exact E1|]. parse_inv H. injection H as _ <- _.
  by apply take_bytes_spec in E0 as [_ ->].
Qed.

Lemma get_stack_pool_entry_ref_agrees d e r :
  get_stack_pool_entry_ref d = Some (e, r) →
  get_stack_pool_entry d = Some (stack_entry_to_owned e, r).
Proof.
  unfold get_stack_pool_entry_ref, get_stack_pool_entry. intros H.
  destruct (get_frame_bytes d) as [[[id w] r1]|] eqn:E;
    [|unfold pbind in H; by rewrite E in H].
  rewrite (pbind_some _ _ _ _ _ E) in H. rewrite (pbind_some _ _ _ _ _ E).
  injection H as <- <-. apply get_frame_bytes_len in E as (n & Hn & Hw).
  unfold pret, stack_entry_to_owned, to_stack_frames, frame_count, le_chunks.
  cbn [fst snd StackPoolEntryRef.pool_id StackPoolEntryRef.frames_le].
  rewrite Hw, Z.div_mul, cast_id by (done || lia).
  unfold blen, fits in *. assert (length w = Z.to_nat n * 8)%nat as -> by lia.
  by rewrite Nat.div_mul.
Qed.

(** Where the zero-copy decoder accepts a frame, the owned one reads the same
    frame from the same bytes. *)
Lemma decode_frame_ref_agrees lookup base data f r :
  decode_frame_ref lookup base data = Some (f, r) → frame_faithful f = true →
  decode_frame lookup base data = Some (frame_to_owned f, r).
Proof.
  unfold decode_frame_ref, decode_frame. destruct data as [|tag data]; [done|].
  rewrite !pbind_byte. intros H Hf.
  repeat match type of H with context [bool_decide ?P] => destruct (bool_decide P) end.
  - destruct (decode_schema_frame data) as [[f' r']|] eqn:E;
      [|unfold pbind in H; by rewrite E in H].
    rewrite (pbind_some _ _ _ _ _ E) in H. unfold plift in H.
    destruct f'; cbn in H; try discriminate; by injection H as <- <-.
  - exact (decode_event_frame_ref_agrees lookup base (tag :: data) f r H Hf).
  - unfold decode_string_pool_frame_ref, decode_string_pool_frame in *.
    parse_inv H. injection H as <- <-. rewrite (pbind_some _ _ _ _ _ E).
    eapply get_many_map in E0; [|exact get_pool_entry_ref_agrees].
    by rewrite (pbind_some _ _ _ _ _ E0).
  - unfold decode_stack_pool_frame_ref, decode_stack_pool_frame in *.
    parse_inv H. injection H as <- <-. rewrite (pbind_some _ _ _ _ _ E).
    eapply get_many_map in E0; [|exact get_stack_pool_entry_ref_agrees].
    by rewrite (pbind_some _ _ _ _ _ E0).
  - parse_inv H. injection H as <- <-. by rewrite (pbind_some _ _ _ _ _ E).
  - destruct (decode_schema_annotations_frame data) as [[f' r']|] eqn:E;
      [|unfold pbind in H; by rewrite E in H].
    rewrite (pbind_some _ _ _ _ _ E) in H. unfold plift in H.
    destruct f'; cbn in H; try discriminate; by injection H as <- <-.
  - done.
Qed.

Lemma decode_u24_bounds d v : decode_u24_le d = Some v → 0 <= v < 2 ^ 24 ∧ 3 <= blen d.
Proof.
  intros H. assert (get_u24 d = Some (v, drop 3 d)) as Hg by (unfold get_u24; by rewrite H).
  rewrite decode_u24_get in Hg.
  pose proof (get_le_fits 3 d v _ Hg) as Hf. apply get_le_spec in Hg as (w & Hw & Hw3 & _).
  unfold fits in Hf. split; [lia|]. rewrite Hw, blen_app.
  pose proof (blen_nonneg (drop 3 d)). unfold blen at 1. lia.
Qed.

Lemma decode_field_ref_bounds ft data pos v pos' :
  decode_field_ref ft data pos = Some (v, pos') → 0 <= pos ∧ pos <= pos' <= blen data.
Proof.
  unfold decode_field_ref. intros H.
  destruct (is_optional ft); repeat bind_inv H;
    try destruct (_ =? _); repeat bind_inv H;
    repeat match goal with x : (_ * Z)%type |- _ => destruct x end;
    repeat match goal with
    | E : byte_at _ _ = Some _ |- _ => apply byte_at_spec in E as (? & ? & ? & ?)
    | E : ref_decode _ _ _ = Some _ |- _ => apply ref_decode_bounds in E
    end; injection H as <- <-; lia.
Qed.

Lemma decode_fields_ref_bounds tags data pos vs pos' :
  decode_fields_ref tags data pos = Some (vs, pos') → 0 <= pos <= blen data →
  pos <= pos' <= blen data.
Proof.
  revert pos vs. induction tags as [|tag tags IH]; intros pos vs H Hp; cbn [decode_fields_ref] in H.
  { injection H as _ <-. lia. }
  destruct (from_tag tag) as [ft|]; [|done]. cbn [mbind option_bind] in H.
  destruct (decode_field_ref ft data pos) as [[v p1]|] eqn:E1; [|done]. cbn [mbind option_bind] in H.
  destruct (decode_fields_ref tags data p1) as [[vs1 p2]|] eqn:E2; [|done].
  injection H as _ <-. apply decode_field_ref_bounds in E1. apply IH in E2; lia.
Qed.

Lemma decode_field_ref_put v ft data pos r :
  field_ok v ft → blen data < 2 ^ 63 → 0 <= pos <= blen data →
  at_pos data pos = write_field_value v ft ++ r →
  decode_field_ref ft data pos = Some (borrow v, pos + blen (write_field_value v ft)).
Proof.
  unfold decode_field_ref, write_field_value.
  intros (Hok & Hn & [Ht|[Ho ->]]) Hd Hp Hat.
  - destruct (is_optional ft) eqn:Ho.
    + assert (match v with FieldValue.None => [Byte.x00]
              | other => Byte.x01 :: encode other end = Byte.x01 :: encode v) as Heq
        by (destruct Ht as [Hnone _]; by destruct v).
      rewrite Heq in Hat |- *. destruct (byte_at_put data pos _ _ Hat Hp) as (-> & Ha & Hl).
      generalize (ref_decode_borrows v _ data (pos + 1) _ Ht Hok Hn Hd ltac:(lia) Ha).
      generalize (ref_decode (inner ft) data). intros dec Hdec.
      cbn [mbind option_bind]. change (b2z Byte.x01 =? 0) with false. cbv iota zeta.
      rewrite Hdec. cbn [mbind option_bind]. rewrite blen_cons. by rewrite Z.add_assoc.
    + rewrite inner_id in Ht by done.
      by rewrite (ref_decode_borrows v ft data pos _ Ht Hok Hn Hd Hp Hat).
  - rewrite Ho in Hat |- *. by destruct (byte_at_put data pos _ _ Hat Hp) as (-> & _).
Qed.

(** Written fields are read back borrowed. *)
Lemma decode_fields_ref_put values fts data pos r :
  Forall2 field_ok values fts → blen data < 2 ^ 63 → 0 <= pos <= blen data →
  at_pos data pos = put_fields values fts ++ r →
  decode_fields_ref (map tag_of fts) data pos
  = Some (map borrow values, pos + blen (put_fields values fts)).
Proof.
  intros H Hd. unfold put_fields. revert pos.
  induction H as [|v ft values fts Hv _ IH]; intros pos Hp Hat.
  { cbn. by rewrite Z.add_0_r. }
  cbn [map zip_with concat decode_fields_ref] in Hat |- *.
  rewrite <- app_assoc in Hat. rewrite from_tag_tag_of. cbn [mbind option_bind].
  destruct (slice_put data pos _ _ Hat Hp) as (_ & Hr & Hend).
  pose proof (blen_nonneg (write_field_value v ft)).
  rewrite (decode_field_ref_put v ft data pos _ Hv Hd Hp Hat). cbn [mbind option_bind].
  rewrite IH by (lia || done). cbn [mbind option_bind]. by rewrite blen_app, Z.add_assoc.
Qed.

(** What a reader at offset zero of a written event frame finds. *)
Lemma decode_event_frame_ref_progress lookup base d f r :
  decode_event_frame_ref lookup base d = Some (f, r) → blen r < blen d.
Proof.
  unfold decode_event_frame_ref. cbv zeta. intros H. bind_inv H.
  apply le_at_bounds in E as [_ E]. bind_inv H. bind_inv H. destruct x1 as [ts p].
  bind_inv H. destruct x1 as [vs p']. injection H as _ <-.
  assert (3 <= p <= blen d) as Hp.
  { destruct (SchemaInfo.has_timestamp_on_wire _).
    - destruct (decode_u24_le _) as [v|] eqn:Eu; [|done]. cbn [mbind option_bind] in E1.
      apply decode_u24_bounds in Eu as [_ Hl]. rewrite blen_at_pos in Hl by lia.
      destruct (checked_add _ _ _); [|done]. cbn [mbind option_bind] in E1.
      injection E1 as _ <-. lia.
    - injection E1 as _ <-. lia. }
  apply decode_fields_ref_bounds in E2; [|lia]. rewrite blen_at_pos by lia. lia.
Qed.

(** Every zero-copy frame takes at least its tag from the input. *)
Lemma decode_frame_ref_progress lookup base d f r :
  decode_frame_ref lookup base d = Some (f, r) → blen r < blen d.
Proof.
  unfold decode_frame_ref. intros H. destruct d as [|tag d]; [done|].
  rewrite pbind_byte in H.
  destruct (bool_decide (tag = TAG_EVENT)) eqn:Ev.
  { destruct (bool_decide (tag = TAG_SCHEMA)) eqn:Es.
    { apply bool_decide_eq_true in Ev, Es. subst. discriminate Es. }
    by apply decode_event_frame_ref_progress in H. }
  rewrite blen_cons. match type of H with ?p d = _ => assert (Local p) as Hp end.
  { repeat match goal with |- context [bool_decide ?P] => destruct (bool_decide P) end;
      apply _. }
  apply Hp in H as (c & -> & _). rewrite blen_app. pose proof (blen_nonneg c). lia.
Qed.

Lemma event_frame_parts type_id delta fields r :
  fits 16 type_id → fits 24 delta →
  let data := event_frame type_id delta fields ++ r in
  (∀ lookup base, decode_frame_ref lookup base data = decode_event_frame_ref lookup base data) ∧
  le_at data 1 2 = Some type_id ∧ decode_u24_le (at_pos data 3) = Some delta ∧
  at_pos data 6 = fields ++ r ∧ 0 <= 6 <= blen data.
Proof.
  intros Hid Hd data. 
  assert (at_pos data 1 = put_le 2 type_id ++ put_le 3 delta ++ fields ++ r) as H1
    by (unfold data, event_frame; by rewrite encode_u24_put, <- !app_assoc).
  assert (0 <= 1 <= blen data) as Hp1.
  { unfold data, event_frame. cbn [app]. rewrite blen_cons.
    match goal with |- context [blen ?l] => pose proof (blen_nonneg l) end. lia. }
  destruct (le_at_put data 1 2 type_id _ H1 Hp1 Hid) as (Hle & H3 & Hp3).
  change (1 + Z.of_nat 2) with 3 in *.
  destruct (le_at_put data 3 3 delta _ H3 ltac:(lia) Hd) as (_ & H6 & Hp6).
  change (3 + Z.of_nat 3) with 6 in *.
  split_and!; [|exact Hle| |exact H6|lia..].
  - intros lookup base. unfold decode_frame_ref, data, event_frame. cbn [app].
    by rewrite pbind_byte.
  - rewrite H3. rewrite <- encode_u24_put. pose proof (get_u24_encode delta (fields ++ r) Hd) as Hg.
    unfold get_u24 in Hg. by destruct (decode_u24_le _); [injection Hg as ->|].
Qed.

Lemma decode_event_ref_inverts type_id delta values fts lookup base r :
  fits 16 type_id → fits 24 delta → base + delta < 2 ^ 64 →
  Forall2 field_ok values fts → lookup type_id = Some (SchemaInfo.mk (map tag_of fts) true) →
  blen (event_frame type_id delta (put_fields values fts) ++ r) < 2 ^ 63 →
  decode_frame_ref lookup base (event_frame type_id delta (put_fields values fts) ++ r)
  = Some (FrameRef.Event type_id (base + delta) (map borrow values), r).
Proof.
  intros Hid Hd Hb Hv Hl Hlen.
  pose proof (event_frame_parts type_id delta (put_fields values fts) r Hid Hd) as H.
  set (data := event_frame type_id delta (put_fields values fts) ++ r) in *.
  destruct H as (Htag & Hid2 & Hdelta & Hat & Hp). rewrite Htag.
  unfold decode_event_frame_ref. rewrite Hid2. cbn [mbind option_bind]. rewrite Hl.
  cbn [mbind option_bind SchemaInfo.has_timestamp_on_wire SchemaInfo.field_tags].
  change (1 + 2) with 3. rewrite Hdelta. cbn [mbind option_bind].
  rewrite checked_add_ok by (unfold fits in Hd; lia). cbn [mbind option_bind].
  change (3 + 3) with 6. rewrite (decode_fields_ref_put values fts data 6 r Hv Hlen Hp Hat).
  cbn [mbind option_bind]. do 2 f_equal. by destruct (slice_put data 6 _ _ Hat Hp) as (_ & -> & _).
Qed.

(** The zero-copy decoder on the two frames both decoders read alike. *)
Lemma decode_schema_ref_inverts type_id e lookup base r :
  fits 16 type_id → entry_ok e = true →
  decode_frame_ref lookup base (encode_schema type_id e ++ r)
  = Some (FrameRef.Schema type_id
            (SchemaEntry.mk (SchemaEntry.name e) (SchemaEntry.fields e) []) true, r).
Proof.
  intros Hid He. pose proof (decode_schema_inverts type_id e lookup base Hid He r) as H.
  unfold decode_frame, decode_frame_ref, encode_schema in *. cbn [app] in *.
  rewrite pbind_byte in H. rewrite pbind_byte.
  change (bool_decide (TAG_SCHEMA = TAG_SCHEMA)) with true in *. cbv iota in *.
  by rewrite (pbind_some _ _ _ _ _ H).
Qed.

Lemma decode_timestamp_reset_ref ts lookup base r :
  fits 64 ts →
  decode_frame_ref lookup base (TAG_TIMESTAMP_RESET :: put_le 8 ts ++ r)
  = Some (FrameRef.TimestampReset ts, r).
Proof.
  intros Hts. pose proof (decode_timestamp_reset_inverts ts lookup base Hts r) as H.
  unfold decode_frame in H. unfold decode_frame_ref. cbn [app] in H.
  rewrite pbind_byte in H. rewrite pbind_byte.
  change (bool_decide (TAG_TIMESTAMP_RESET = TAG_TIMESTAMP_RESET)) with true in *.
  do 4 (rewrite bool_decide_false in H by done; cbv iota in H).
  do 4 (rewrite bool_decide_false by done; cbv iota). cbv iota in *.
  parse_inv H. injection H as <- <-. by rewrite (pbind_some _ _ _ _ _ E).
Qed.

(** ** Main properties *)

(** Frames carry no length, so their boundaries must be decided by their
    own bytes: whatever [decode_frame] accepts is a non-empty prefix of its
    input, read the same whatever follows it. *)
Theorem frame_boundary lookup base d f r :
  decode_frame lookup base d = Some (f, r) →
  ∃ c, d = c ++ r ∧ 0 < blen c ∧ ∀ e, decode_frame lookup base (c ++ e) = Some (f, e).
Proof.
  intros H. pose proof (decode_frame_progress _ _ _ _ _ H) as Hlen.
  apply decode_frame_local in H as (c & -> & H). exists c. rewrite blen_app in Hlen.
  split_and!; [done|lia|done].
Qed.

Example frame_boundary_witness :
  ∃ c, TAG_TIMESTAMP_RESET :: put_le 8 77 ++ [Byte.x02; Byte.x00] = c ++ [Byte.x02; Byte.x00] ∧
    0 < blen c ∧
    ∀ e, decode_frame (λ _, None) 0 (c ++ e) = Some (Frame.TimestampReset 77, e).
Proof. apply frame_boundary. by vm_compute. Defined.

(** A schema with its annotations goes on the wire as two frames, which
    come back as the same entry split in two; it cannot fail to be written
    when its counts and lengths fit their fields. *)
Theorem schema_frames_roundtrip type_id e lookup base r :
  fits 16 type_id → entry_ok e = true →
  ∃ w, encode_schema_annotations type_id (SchemaEntry.annotations e) = Some w ∧
    decode_frame lookup base (encode_schema type_id e ++ w ++ r)
    = Some (Frame.Schema type_id
              (SchemaEntry.mk (SchemaEntry.name e) (SchemaEntry.fields e) []) true, w ++ r) ∧
    decode_frame lookup base (w ++ r)
    = Some (Frame.SchemaAnnotations type_id (SchemaEntry.annotations e), r).
Proof.
  intros Hid He. pose proof He as He'. unfold entry_ok in He'.
  apply andb_true_iff in He' as [_ Ha]. apply andb_true_iff in Ha as [Hn Ha].
  assert (∃ w, encode_schema_annotations type_id (SchemaEntry.annotations e) = Some w)
    as [w Hw] by (unfold encode_schema_annotations; rewrite Hn; by eexists).
  exists w. split; [done|]. split.
  - by apply (decode_schema_inverts type_id e lookup base).
  - by apply (decode_schema_annotations_inverts type_id _ w lookup base).
Qed.

Definition annotated_entry : SchemaEntry.t :=
  SchemaEntry.mk (lit "Poll")
    [FieldDef.mk (lit "worker") FieldType.U16; FieldDef.mk (lit "took") FieldType.OptionalVarint]
    [FieldAnnotation.mk 1 (lit "unit") (lit "ns")].

Example schema_frames_roundtrip_witness :
  entry_ok annotated_entry = true ∧
  ∃ w, encode_schema_annotations 300 (SchemaEntry.annotations annotated_entry) = Some w ∧
    decode_frame (λ _, None) 0 (encode_schema 300 annotated_entry ++ w ++ [Byte.x05])
    = Some (Frame.Schema 300
              (SchemaEntry.mk (SchemaEntry.name annotated_entry)
                 (SchemaEntry.fields annotated_entry) []) true, w ++ [Byte.x05]) ∧
    decode_frame (λ _, None) 0 (w ++ [Byte.x05])
    = Some (Frame.SchemaAnnotations 300 (SchemaEntry.annotations annotated_entry), [Byte.x05]).
Proof.
  split; [by vm_compute|].
  apply (schema_frames_roundtrip 300 annotated_entry (λ _, None) 0 [Byte.x05]); by vm_compute.
Defined.

(** The two decoders read an event frame the encoder wrote alike: one with
    owned values, the other with values borrowed from the frame, at the same
    absolute time and leaving the same input. *)
Theorem event_frame_roundtrip type_id delta values fts lookup base r :
  fits 16 type_id → fits 24 delta → 0 <= base → base + delta < 2 ^ 64 →
  Forall2 field_ok values fts → lookup type_id = Some (SchemaInfo.mk (map tag_of fts) true) →
  blen (event_frame type_id delta (put_fields values fts) ++ r) < 2 ^ 63 →
  decode_frame lookup base (event_frame type_id delta (put_fields values fts) ++ r)
  = Some (Frame.Event type_id (base + delta) values, r) ∧
  decode_frame_ref lookup base (event_frame type_id delta (put_fields values fts) ++ r)
  = Some (FrameRef.Event type_id (base + delta) (map borrow values), r).
Proof.
  intros Hid Hd Hb0 Hb Hv Hl Hlen. split; [|by apply decode_event_ref_inverts].
  by eapply decode_event_inverts; [..|by apply decode_fields_inverts].
Qed.

Example event_frame_roundtrip_witness :
  let values := [FieldValue.String (lit "poll"); FieldValue.None] in
  let fts := [FieldType.String; FieldType.OptionalU32] in
  let frame := event_frame 300 5 (put_fields values fts) ++ [Byte.x05] in
  let lookup := λ id, if id =? 300 then Some (SchemaInfo.mk (map tag_of fts) true) else None in
  decode_frame lookup 1000 frame = Some (Frame.Event 300 1005 values, [Byte.x05]) ∧
  decode_frame_ref lookup 1000 frame
  = Some (FrameRef.Event 300 1005 (map borrow values), [Byte.x05]).
Proof.
  intros values fts frame lookup.
  refine (event_frame_roundtrip 300 5 values fts lookup 1000 [Byte.x05] _ _ _ _ _ _ _).
  1-4, 7: by vm_compute.
  - repeat constructor; by vm_compute.
  - reflexivity.
Defined.
