(* ===== verification/Decoder.v ===== *)
(** * The streaming decoder (dial9-trace-format/src/decoder.rs)

    [Decoder] is modelled by its fields, with [data] and [pos] replaced by
    [pos] and [rest], the suffix [data[pos..]] ([data_len] is their sum).
    [next_frame], [next_frame_ref] and [try_for_each_event] are recursive or
    loop; each round consumes input, so [S (length rest)] rounds of fuel are
    all they can use. *)

From Stdlib Require Import ZArith Lia.
From stdpp Require Import base list gmap sets strings option.
From coqutil Require Import Byte Word.LittleEndianList.
From S2P Require Import Prelude.
From S2P Require Import Leb128.
From S2P Require Import Utf8.
From S2P Require Import FieldType.
From S2P Require Import FieldValue.
From S2P Require Import FieldValueRef.
From S2P Require Import Schema.
From S2P Require Import Codec.

Module DecodeError.
Inductive message : Type :=
| SchemaConflict | TruncatedEventFrame | UnknownTypeId | TruncatedTimestampDelta
| UnknownFieldTypeTag | TruncatedOptionalValue | TruncatedOptionalPrefix
| TruncatedFieldValue | TruncatedTimestampReset | FailedToDecodeFrame.
Record t : Type := mk { pos : Z; msg : message }.
End DecodeError.

Module TryForEachError.
Inductive t (E : Type) : Type :=
| Decode (e : DecodeError.t)
| User (e : E).
Arguments Decode {E} e.
Arguments User {E} e.
End TryForEachError.

Module DecodedFrame.
Inductive t : Type :=
| Schema (entry : SchemaEntry.t)
| Event (type_id : Z) (timestamp_ns : Z) (values : list FieldValue.t)
| StringPool (entries : list PoolEntry.t)
| StackPool (entries : list StackPoolEntry.t)
| SchemaAnnotations (type_id : Z) (annotations : list FieldAnnotation.t).
End DecodedFrame.

Module DecodedFrameRef.
Inductive t : Type :=
| Schema (entry : SchemaEntry.t)
| Event (type_id : Z) (timestamp_ns : Z) (values : list FieldValueRef.t)
| StringPool (entries : list PoolEntryRef.t)
| StackPool (entries : list StackPoolEntryRef.t)
| SchemaAnnotations (type_id : Z) (annotations : list FieldAnnotation.t).
End DecodedFrameRef.

Module SchemaCache.
Record t : Type := mk {
  entry : SchemaEntry.t;
  field_tags : list Z;
  has_timestamp_on_wire : bool }.
End SchemaCache.

Module Decoder.
Record t : Type := mk {
  pos : Z;
  rest : bytes;
  registry : SchemaRegistry.t;
  schema_cache : list (option SchemaCache.t);
  string_pool : gmap Z bytes;
  stack_pool : gmap Z (list Z);
  version : byte;
  timestamp_base_ns : Z }.

Definition set_input (d : t) (p : Z) (r : bytes) : t :=
  mk p r (registry d) (schema_cache d) (string_pool d) (stack_pool d) (version d)
    (timestamp_base_ns d).

Definition set_schemas (d : t) (r : SchemaRegistry.t) (c : list (option SchemaCache.t)) : t :=
  mk (pos d) (rest d) r c (string_pool d) (stack_pool d) (version d) (timestamp_base_ns d).

Definition set_string_pool (d : t) (p : gmap Z bytes) : t :=
  mk (pos d) (rest d) (registry d) (schema_cache d) p (stack_pool d) (version d)
    (timestamp_base_ns d).

Definition set_stack_pool (d : t) (p : gmap Z (list Z)) : t :=
  mk (pos d) (rest d) (registry d) (schema_cache d) (string_pool d) p (version d)
    (timestamp_base_ns d).

Definition set_base (d : t) (ts : Z) : t :=
  mk (pos d) (rest d) (registry d) (schema_cache d) (string_pool d) (stack_pool d)
    (version d) ts.
End Decoder.

Module RawEvent.
Record t : Type := mk {
  type_id : Z;
  name : bytes;
  timestamp_ns : Z;
  fields : list FieldValueRef.t;
  schema : SchemaEntry.t;
  string_pool : gmap Z bytes;
  stack_pool : gmap Z (list Z) }.
End RawEvent.

(** [Decoder::new]. *)
Definition decoder_new (data : bytes) : option Decoder.t :=
  version ← decode_header data;
  Some (Decoder.mk HEADER_SIZE (drop (Z.to_nat HEADER_SIZE) data) registry_new [] ∅ ∅
          version 0).

Definition data_len (d : Decoder.t) : Z := Decoder.pos d + blen (Decoder.rest d).

Definition reset_state (d : Decoder.t) : Decoder.t :=
  Decoder.mk (Decoder.pos d) (Decoder.rest d) registry_new [] ∅ ∅ (Decoder.version d) 0.

Definition try_consume_reset_header (d : Decoder.t) : bool * Decoder.t :=
  if (Decoder.pos d + HEADER_SIZE <=? data_len d)
     && bool_decide (is_Some (decode_header (Decoder.rest d)))
  then (true, Decoder.set_input (reset_state d) (Decoder.pos d + HEADER_SIZE)
                (drop (Z.to_nat HEADER_SIZE) (Decoder.rest d)))
  else (false, d).

(** [self.schema_cache.get(type_id as usize).and_then(|s| s.as_ref())]. *)
Definition cache_get (d : Decoder.t) (type_id : Z) : option SchemaCache.t :=
  mjoin (Decoder.schema_cache d !! Z.to_nat type_id).

Definition schema_info (d : Decoder.t) (type_id : Z) : option SchemaInfo.t :=
  (λ c, SchemaInfo.mk (SchemaCache.field_tags c) (SchemaCache.has_timestamp_on_wire c))
    <$> cache_get d type_id.

(** [resize_with(idx + 1, || None)] when [idx] is past the end, then the
    assignment at [idx]. *)
Definition cache_set (cache : list (option SchemaCache.t)) (idx : nat) (c : SchemaCache.t)
    : list (option SchemaCache.t) :=
  <[idx := Some c]>
    (if (length cache <=? idx)%nat then cache ++ replicate (S idx - length cache) None
     else cache).

(** [register_schema]: the cache is replaced even when the registry refuses. *)
Definition register_schema (d : Decoder.t) (type_id : Z) (entry : SchemaEntry.t)
    (has_timestamp_on_wire : bool) : bool * Decoder.t :=
  let cache := cache_set (Decoder.schema_cache d) (Z.to_nat type_id)
    (SchemaCache.mk entry
       (map (λ f, tag_of (FieldDef.field_type f)) (SchemaEntry.fields entry))
       has_timestamp_on_wire) in
  match register (Decoder.registry d) type_id entry with
  | Some r => (true, Decoder.set_schemas d r cache)
  | None => (false, Decoder.set_schemas d (Decoder.registry d) cache)
  end.

Definition entry_extend (e : SchemaEntry.t) (l : list FieldAnnotation.t) : SchemaEntry.t :=
  SchemaEntry.mk (SchemaEntry.name e) (SchemaEntry.fields e) (SchemaEntry.annotations e ++ l).

(** Merge annotations into the cached schema and the registered one. *)
Definition merge_annotations (d : Decoder.t) (type_id : Z) (l : list FieldAnnotation.t)
    : Decoder.t :=
  let cache := alter (fmap (λ c, SchemaCache.mk (entry_extend (SchemaCache.entry c) l)
                        (SchemaCache.field_tags c) (SchemaCache.has_timestamp_on_wire c)))
                 (Z.to_nat type_id) (Decoder.schema_cache d) in
  let r := Decoder.registry d in
  let schemas := alter (λ e, entry_extend e l) type_id (SchemaRegistry.schemas r) in
  Decoder.set_schemas d (SchemaRegistry.mk schemas (SchemaRegistry.next_id r)) cache.

(** [for e in &entries { if let Ok(s) = from_utf8(e.data) { pool.insert(..) } }]. *)
Definition pool_strings (pool : gmap Z bytes) (entries : list PoolEntry.t) : gmap Z bytes :=
  foldl (λ pool e, match from_utf8 (PoolEntry.data e) with
                   | Some s => <[PoolEntry.pool_id e := s]> pool
                   | None => pool
                   end) pool entries.

Definition pool_stacks (pool : gmap Z (list Z)) (entries : list StackPoolEntry.t)
    : gmap Z (list Z) :=
  foldl (λ pool e, <[StackPoolEntry.pool_id e := StackPoolEntry.frames e]> pool) pool entries.

Definition frame_result : Type := result (option DecodedFrame.t) DecodeError.t.

(** The [match frame] of [next_frame]; [None] is the recursive call. *)
Definition handle_frame (frame : Frame.t) (d : Decoder.t) : option frame_result * Decoder.t :=
  match frame with
  | Frame.Schema type_id entry ts =>
      let '(ok, d) := register_schema d type_id entry ts in
      if ok then (Some (Ok (Some (DecodedFrame.Schema entry))), d)
      else (Some (Err (DecodeError.mk (Decoder.pos d) DecodeError.SchemaConflict)), d)
  | Frame.Event type_id timestamp_ns values =>
      (Some (Ok (Some (DecodedFrame.Event type_id timestamp_ns values))),
       Decoder.set_base d timestamp_ns)
  | Frame.StringPool entries =>
      (Some (Ok (Some (DecodedFrame.StringPool entries))),
       Decoder.set_string_pool d (pool_strings (Decoder.string_pool d) entries))
  | Frame.StackPool entries =>
      (Some (Ok (Some (DecodedFrame.StackPool entries))),
       Decoder.set_stack_pool d (pool_stacks (Decoder.stack_pool d) entries))
  | Frame.TimestampReset ts => (None, Decoder.set_base d ts)
  | Frame.SchemaAnnotations type_id annotations =>
      (Some (Ok (Some (DecodedFrame.SchemaAnnotations type_id annotations))),
       merge_annotations d type_id annotations)
  end.

(** [self.pos += consumed]. *)
Definition advance (d : Decoder.t) (r : bytes) : Decoder.t :=
  Decoder.set_input d (Decoder.pos d + (blen (Decoder.rest d) - blen r)) r.

Fixpoint next_frame_loop (fuel : nat) (d : Decoder.t) : frame_result * Decoder.t :=
  match fuel with
  | O => (Ok None, d)
  | S fuel =>
      if Decoder.pos d >=? data_len d then (Ok None, d) else
      let '(reset, d) := try_consume_reset_header d in
      if reset then next_frame_loop fuel d else
      match decode_frame (schema_info d) (Decoder.timestamp_base_ns d) (Decoder.rest d) with
      | None => (Ok None, d)
      | Some (frame, r) =>
          let '(o, d) := handle_frame frame (advance d r) in
          match o with Some res => (res, d) | None => next_frame_loop fuel d end
      end
  end.

Definition next_frame (d : Decoder.t) : frame_result * Decoder.t :=
  next_frame_loop (S (length (Decoder.rest d))) d.

Fixpoint decode_all_loop (fuel : nat) (d : Decoder.t) : list DecodedFrame.t * Decoder.t :=
  match fuel with
  | O => ([], d)
  | S fuel =>
      match next_frame d with
      | (Ok (Some f), d) => let '(fs, d) := decode_all_loop fuel d in (f :: fs, d)
      | (_, d) => ([], d)
      end
  end.

Definition decode_all (d : Decoder.t) : list DecodedFrame.t * Decoder.t :=
  decode_all_loop (S (length (Decoder.rest d))) d.

(** ** The zero-copy entry points *)

Definition pool_strings_ref (pool : gmap Z bytes) (entries : list PoolEntryRef.t)
    : gmap Z bytes :=
  foldl (λ pool e, match from_utf8 (PoolEntryRef.data e) with
                   | Some s => <[PoolEntryRef.pool_id e := s]> pool
                   | None => pool
                   end) pool entries.

Definition pool_stacks_ref (pool : gmap Z (list Z)) (entries : list StackPoolEntryRef.t)
    : gmap Z (list Z) :=
  foldl (λ pool e, <[StackPoolEntryRef.pool_id e := to_stack_frames e]> pool) pool entries.

Definition frame_result_ref : Type := result (option DecodedFrameRef.t) DecodeError.t.

Definition handle_frame_ref (frame : FrameRef.t) (d : Decoder.t)
    : option frame_result_ref * Decoder.t :=
  match frame with
  | FrameRef.Schema type_id entry ts =>
      let '(ok, d) := register_schema d type_id entry ts in
      if ok then (Some (Ok (Some (DecodedFrameRef.Schema entry))), d)
      else (Some (Err (DecodeError.mk (Decoder.pos d) DecodeError.SchemaConflict)), d)
  | FrameRef.Event type_id timestamp_ns values =>
      (Some (Ok (Some (DecodedFrameRef.Event type_id timestamp_ns values))),
       Decoder.set_base d timestamp_ns)
  | FrameRef.StringPool entries =>
      (Some (Ok (Some (DecodedFrameRef.StringPool entries))),
       Decoder.set_string_pool d (pool_strings_ref (Decoder.string_pool d) entries))
  | FrameRef.StackPool entries =>
      (Some (Ok (Some (DecodedFrameRef.StackPool entries))),
       Decoder.set_stack_pool d (pool_stacks_ref (Decoder.stack_pool d) entries))
  | FrameRef.TimestampReset ts => (None, Decoder.set_base d ts)
  | FrameRef.SchemaAnnotations type_id annotations =>
      (Some (Ok (Some (DecodedFrameRef.SchemaAnnotations type_id annotations))),
       merge_annotations d type_id annotations)
  end.

Fixpoint next_frame_ref_loop (fuel : nat) (d : Decoder.t) : frame_result_ref * Decoder.t :=
  match fuel with
  | O => (Ok None, d)
  | S fuel =>
      if Decoder.pos d >=? data_len d then (Ok None, d) else
      let '(reset, d) := try_consume_reset_header d in
      if reset then next_frame_ref_loop fuel d else
      match decode_frame_ref (schema_info d) (Decoder.timestamp_base_ns d)
              (Decoder.rest d) with
      | None => (Ok None, d)
      | Some (frame, r) =>
          let '(o, d) := handle_frame_ref frame (advance d r) in
          match o with Some res => (res, d) | None => next_frame_ref_loop fuel d end
      end
  end.

Definition next_frame_ref (d : Decoder.t) : frame_result_ref * Decoder.t :=
  next_frame_ref_loop (S (length (Decoder.rest d))) d.

Fixpoint decode_all_ref_loop (fuel : nat) (d : Decoder.t)
    : list DecodedFrameRef.t * Decoder.t :=
  match fuel with
  | O => ([], d)
  | S fuel =>
      match next_frame_ref d with
      | (Ok (Some f), d) => let '(fs, d) := decode_all_ref_loop fuel d in (f :: fs, d)
      | (_, d) => ([], d)
      end
  end.

Definition decode_all_ref (d : Decoder.t) : list DecodedFrameRef.t * Decoder.t :=
  decode_all_ref_loop (S (length (Decoder.rest d))) d.

(** [EventIter::next]: [None] ends the iteration. *)
Fixpoint events_next_loop (fuel : nat) (d : Decoder.t)
    : option (result DecodedFrameRef.t DecodeError.t) * Decoder.t :=
  match fuel with
  | O => (None, d)
  | S fuel =>
      match next_frame_ref d with
      | (Ok None, d) => (None, d)
      | (Ok (Some (DecodedFrameRef.Event id ts vs)), d) =>
          (Some (Ok (DecodedFrameRef.Event id ts vs)), d)
      | (Ok (Some _), d) => events_next_loop fuel d
      | (Err e, d) => (Some (Err e), d)
      end
  end.

Definition events_next (d : Decoder.t)
    : option (result DecodedFrameRef.t DecodeError.t) * Decoder.t :=
  events_next_loop (S (length (Decoder.rest d))) d.

(** ** The callback loop *)

(** The loop over the field tags of [try_for_each_event]: the values and the
    position behind them, or the error and where it is reported. *)
Fixpoint event_fields (tags : list Z) (remaining : bytes) (pos : Z)
    : result (list FieldValueRef.t * Z) (DecodeError.message * Z) :=
  match tags with
  | [] => Ok ([], pos)
  | ftag :: tags =>
      match from_tag ftag with
      | None => Err (DecodeError.UnknownFieldTypeTag, pos)
      | Some ft =>
          let field :=
            if is_optional ft then
              match byte_at remaining pos with
              | Some 0 => Ok (FieldValueRef.None, pos + 1)
              | Some _ =>
                  let pos := pos + 1 in
                  match ref_decode (inner ft) remaining pos with
                  | Some (val, consumed) => Ok (val, pos + consumed)
                  | None => Err (DecodeError.TruncatedOptionalValue, pos)
                  end
              | None => Err (DecodeError.TruncatedOptionalPrefix, pos)
              end
            else
              match ref_decode ft remaining pos with
              | Some (val, consumed) => Ok (val, pos + consumed)
              | None => Err (DecodeError.TruncatedFieldValue, pos)
              end in
          match field with
          | Err e => Err e
          | Ok (v, pos) =>
              match event_fields tags remaining pos with
              | Err e => Err e
              | Ok (vs, pos) => Ok (v :: vs, pos)
              end
          end
      end
  end.

(** One event frame inlined in the loop.  The timestamp sum is not checked
    here: it wraps in a release build. *)
Definition event_step (d : Decoder.t) : result (RawEvent.t * Decoder.t) DecodeError.t :=
  let remaining := Decoder.rest d in
  let err m p := Err (DecodeError.mk (Decoder.pos d + p) m) in
  match le_at remaining 1 2 with
  | None => err DecodeError.TruncatedEventFrame 0
  | Some type_id =>
      let pos := 3 in
      match cache_get d type_id with
      | None => err DecodeError.UnknownTypeId 0
      | Some cache =>
          let timestamp :=
            if SchemaCache.has_timestamp_on_wire cache then
              match decode_u24_le (at_pos remaining pos) with
              | Some delta =>
                  Some (wrapping_add 64 (Decoder.timestamp_base_ns d) delta, pos + 3)
              | None => None
              end
            else Some (Decoder.timestamp_base_ns d, pos) in
          match timestamp with
          | None => err DecodeError.TruncatedTimestampDelta pos
          | Some (timestamp_ns, pos) =>
              match event_fields (SchemaCache.field_tags cache) remaining pos with
              | Err (m, p) => err m p
              | Ok (values, pos) =>
                  let d := Decoder.set_base
                    (Decoder.set_input d (Decoder.pos d + pos) (at_pos remaining pos))
                    timestamp_ns in
                  Ok (RawEvent.mk type_id (SchemaEntry.name (SchemaCache.entry cache))
                        timestamp_ns values (SchemaCache.entry cache)
                        (Decoder.string_pool d) (Decoder.stack_pool d), d)
              end
          end
      end
  end.

Section callback.
(** [S] is the state the callback captures, [E] its error. *)
Context {S E : Type}.
Variable f : S → RawEvent.t → S * result unit E.

Definition try_for_each_result : Type := result unit (TryForEachError.t E).

Fixpoint try_for_each_loop (fuel : nat) (s : S) (d : Decoder.t)
    : try_for_each_result * S * Decoder.t :=
  match fuel with
  | O => (Ok tt, s, d)
  | Datatypes.S fuel =>
      match Decoder.rest d with
      | [] => (Ok tt, s, d)
      | tag :: _ =>
          if bool_decide (tag = TAG_EVENT) then
            match event_step d with
            | Err e => (Err (TryForEachError.Decode e), s, d)
            | Ok (ev, d) =>
                match f s ev with
                | (s, Ok _) => try_for_each_loop fuel s d
                | (s, Err e) => (Err (TryForEachError.User e), s, d)
                end
            end
          else if bool_decide (tag = TAG_TIMESTAMP_RESET) then
            match le_at (Decoder.rest d) 1 8 with
            | Some ts =>
                try_for_each_loop fuel s
                  (Decoder.set_base
                     (Decoder.set_input d (Decoder.pos d + 9) (at_pos (Decoder.rest d) 9)) ts)
            | None =>
                (Err (TryForEachError.Decode
                   (DecodeError.mk (Decoder.pos d) DecodeError.TruncatedTimestampReset)),
                 s, d)
            end
          else
            let '(reset, d1) :=
              if bool_decide (tag = Byte.x54) then try_consume_reset_header d
              else (false, d) in
            if reset then try_for_each_loop fuel s d1 else
            match next_frame_ref d with
            | (Ok (Some _), d) => try_for_each_loop fuel s d
            | (Ok None, d) =>
                (Err (TryForEachError.Decode
                   (DecodeError.mk (Decoder.pos d) DecodeError.FailedToDecodeFrame)), s, d)
            | (Err e, d) => (Err (TryForEachError.Decode e), s, d)
            end
      end
  end.

Definition try_for_each_event (s : S) (d : Decoder.t) : try_for_each_result * S * Decoder.t :=
  try_for_each_loop (Datatypes.S (length (Decoder.rest d))) s d.
End callback.

(** [for_each_event]: a callback that cannot fail. *)
Definition for_each_event {S : Type} (f : S → RawEvent.t → S) (s : S) (d : Decoder.t)
    : result unit DecodeError.t * S * Decoder.t :=
  let '(r, s, d) :=
    try_for_each_event (E := Empty_set) (λ s ev, (f s ev, Ok tt)) s d in
  (match r with
   | Ok _ => Ok tt
   | Err (TryForEachError.Decode e) => Err e
   | Err (TryForEachError.User inf) => match inf with end
   end, s, d).

(** ** Headers and frames cannot be confused *)

Definition is_frame_tag (tag : byte) : bool :=
  bool_decide (tag ∈ [TAG_SCHEMA; TAG_EVENT; TAG_STRING_POOL; TAG_STACK_POOL;
                      TAG_TIMESTAMP_RESET; TAG_SCHEMA_ANNOTATIONS]).

Lemma decode_frame_tag lookup base d x :
  decode_frame lookup base d = Some x → ∃ tag r, d = tag :: r ∧ is_frame_tag tag = true.
Proof.
  destruct d as [|tag r]; [done|]. unfold decode_frame. rewrite pbind_byte.
  intros H. exists tag, r. split; [done|]. unfold is_frame_tag. apply bool_decide_eq_true.
  repeat match type of H with context [bool_decide ?P] =>
    destruct (bool_decide_reflect P); [subst; set_solver|] end.
  done.
Qed.

Lemma decode_header_none tag r : tag ≠ Byte.x54 → decode_header (tag :: r) = None.
Proof.
  intros Ht. unfold decode_header. destruct (take_bytes 4 (tag :: r)) as [[m rest]|] eqn:E; [|done].
  apply take_bytes_spec in E as [Hm _]. rewrite bool_decide_false; [done|].
  intros ->. cbn in Hm. by injection Hm.
Qed.

Lemma frame_tag_no_header tag r : is_frame_tag tag = true → decode_header (tag :: r) = None.
Proof.
  intros H. apply decode_header_none. intros ->. by vm_compute in H.
Qed.

Lemma try_consume_false d :
  decode_header (Decoder.rest d) = None → try_consume_reset_header d = (false, d).
Proof.
  intros H. unfold try_consume_reset_header. rewrite H.
  rewrite (bool_decide_false (is_Some None)) by (by intros []). by rewrite andb_false_r.
Qed.

Lemma decode_header_some d v :
  decode_header d = Some v ↔ ∃ r, d = MAGIC ++ v :: r.
Proof.
  unfold decode_header. split.
  - destruct (take_bytes 4 d) as [[m rest]|] eqn:E; [|done].
    apply take_bytes_spec in E as [-> _]. destruct (bool_decide_reflect (m = MAGIC)); [|done].
    subst. destruct rest as [|b r]; [done|]. intros [= <-]. by exists r.
  - intros [r ->]. rewrite (take_bytes_app MAGIC) by done.
    by rewrite bool_decide_true.
Qed.

Lemma try_consume_true d r v :
  Decoder.rest d = MAGIC ++ v :: r →
  try_consume_reset_header d
  = (true, Decoder.set_input (reset_state d) (Decoder.pos d + HEADER_SIZE) r).
Proof.
  intros H. unfold try_consume_reset_header, data_len.
  assert (decode_header (Decoder.rest d) = Some v) as -> by (apply decode_header_some; eauto).
  rewrite H, blen_app, blen_cons. pose proof (blen_nonneg r). change (blen MAGIC) with 4.
  unfold HEADER_SIZE. rewrite (bool_decide_true (is_Some (Some v))) by done.
  destruct (Z.leb_spec (Decoder.pos d + 5) (Decoder.pos d + (4 + (1 + blen r)))); [|lia].
  done.
Qed.

Lemma try_consume_cases d :
  (∃ v r, Decoder.rest d = MAGIC ++ v :: r ∧
     try_consume_reset_header d
     = (true, Decoder.set_input (reset_state d) (Decoder.pos d + HEADER_SIZE) r)) ∨
  (decode_header (Decoder.rest d) = None ∧ try_consume_reset_header d = (false, d)).
Proof.
  destruct (decode_header (Decoder.rest d)) as [v|] eqn:E.
  - left. apply decode_header_some in E as [r Hr]. exists v, r. split; [done|].
    by apply try_consume_true with (v := v).
  - right. split; [done|]. by apply try_consume_false.
Qed.

(** ** Progress and fuel *)

Lemma handle_frame_rest f d : Decoder.rest (snd (handle_frame f d)) = Decoder.rest d.
Proof.
  destruct f; try done. cbn. unfold register_schema.
  by destruct (register _ _ _).
Qed.

Lemma handle_frame_pos f d : Decoder.pos (snd (handle_frame f d)) = Decoder.pos d.
Proof.
  destruct f; try done. cbn. unfold register_schema.
  by destruct (register _ _ _).
Qed.

Lemma at_end d : (Decoder.pos d >=? data_len d) = bool_decide (Decoder.rest d = []).
Proof.
  unfold data_len. rewrite Z.geb_leb. destruct (bool_decide_reflect (Decoder.rest d = [])) as [->|H].
  - apply Z.leb_le. rewrite blen_nil. lia.
  - apply Z.leb_gt. destruct (Decoder.rest d); [done|]. rewrite blen_cons.
    pose proof (blen_nonneg l). lia.
Qed.

(** The body of [next_frame], the recursive calls abstracted. *)
Lemma next_frame_loop_S fuel d :
  next_frame_loop (S fuel) d =
  if bool_decide (Decoder.rest d = []) then (Ok None, d) else
  let '(reset, d) := try_consume_reset_header d in
  if reset then next_frame_loop fuel d else
  match decode_frame (schema_info d) (Decoder.timestamp_base_ns d) (Decoder.rest d) with
  | None => (Ok None, d)
  | Some (frame, r) =>
      let '(o, d) := handle_frame frame (advance d r) in
      match o with Some res => (res, d) | None => next_frame_loop fuel d end
  end.
Proof. cbn [next_frame_loop]. by rewrite at_end. Qed.

Lemma next_frame_fuel fuel fuel' d :
  (length (Decoder.rest d) < fuel)%nat → (length (Decoder.rest d) < fuel')%nat →
  next_frame_loop fuel d = next_frame_loop fuel' d.
Proof.
  revert fuel' d. induction fuel as [|fuel IH]; intros fuel' d H H'; [lia|].
  destruct fuel' as [|fuel']; [lia|]. rewrite !next_frame_loop_S.
  destruct (bool_decide (Decoder.rest d = [])); [done|].
  destruct (try_consume_cases d) as [(v & r & Hr & ->)|[_ ->]]; cbv beta iota.
  - apply IH; cbn; rewrite Hr, length_app in H, H'; cbn in H, H'; lia.
  - destruct (decode_frame _ _ _) as [[frame r]|] eqn:E; [|done].
    apply decode_frame_progress in E.
    destruct (handle_frame frame (advance d r)) as [o d'] eqn:Eh. destruct o; [done|].
    assert (Decoder.rest d' = r) as Hr.
    { pose proof (handle_frame_rest frame (advance d r)) as Hr. by rewrite Eh in Hr. }
    apply IH; rewrite Hr; zlia.
Qed.

(** A frame that is returned was read from the input. *)
Lemma next_frame_progress d res d' :
  next_frame d = (res, d') → res ≠ Ok None →
  (length (Decoder.rest d') < length (Decoder.rest d))%nat.
Proof.
  unfold next_frame. generalize (S (length (Decoder.rest d))) as fuel. intros fuel. revert d.
  induction fuel as [|fuel IH]; intros d H Hres; [by injection H as <- <-|].
  rewrite next_frame_loop_S in H. destruct (bool_decide (Decoder.rest d = [])).
  { by injection H as <- <-. }
  destruct (try_consume_cases d) as [(v & r & Hr & Ht)|[_ Ht]]; rewrite Ht in H.
  - apply IH in H; [|done]. cbn in H. rewrite Hr, length_app. cbn. lia.
  - destruct (decode_frame _ _ _) as [[frame r]|] eqn:E; [|by injection H as <- <-].
    apply decode_frame_progress in E.
    pose proof (handle_frame_rest frame (advance d r)) as Hr.
    destruct (handle_frame frame (advance d r)) as [o d1]. cbn in Hr.
    destruct o as [res'|].
    + injection H as <- <-. rewrite Hr. zlia.
    + apply IH in H; [|done]. rewrite Hr in H. zlia.
Qed.

Lemma decode_all_fuel fuel fuel' d :
  (length (Decoder.rest d) < fuel)%nat → (length (Decoder.rest d) < fuel')%nat →
  decode_all_loop fuel d = decode_all_loop fuel' d.
Proof.
  revert fuel' d. induction fuel as [|fuel IH]; intros fuel' d H H'; [lia|].
  destruct fuel' as [|fuel']; [lia|]. cbn [decode_all_loop].
  destruct (next_frame d) as [res d'] eqn:E.
  destruct res as [[f|]|e]; [|done..].
  apply next_frame_progress in E; [|done]. by rewrite (IH fuel' d') by lia.
Qed.

(** [decode_all] without its fuel. *)
Lemma decode_all_unfold d :
  decode_all d =
  match next_frame d with
  | (Ok (Some f), d) => let '(fs, d) := decode_all d in (f :: fs, d)
  | (_, d) => ([], d)
  end.
Proof.
  unfold decode_all at 1. cbn [decode_all_loop].
  destruct (next_frame d) as [res d'] eqn:E. destruct res as [[f|]|e]; [|done..].
  apply next_frame_progress in E; [|done]. unfold decode_all.
  by rewrite (decode_all_fuel _ (S (length (Decoder.rest d')))) by lia.
Qed.

(** ** Stepping over one frame *)

Lemma advance_app d w r :
  Decoder.rest d = w ++ r →
  advance d r = Decoder.set_input d (Decoder.pos d + blen w) r.
Proof. intros H. unfold advance. rewrite H, blen_app. f_equal. lia. Qed.

Lemma next_frame_step d w r frame :
  Decoder.rest d = w ++ r →
  decode_frame (schema_info d) (Decoder.timestamp_base_ns d) (w ++ r) = Some (frame, r) →
  next_frame d =
  match handle_frame frame (Decoder.set_input d (Decoder.pos d + blen w) r) with
  | (Some res, d) => (res, d)
  | (None, d) => next_frame d
  end.
Proof.
  intros Hr Hf. unfold next_frame at 1. rewrite next_frame_loop_S.
  destruct (decode_frame_tag _ _ _ _ Hf) as (tag & r' & Htag & Hok).
  rewrite bool_decide_false by (rewrite Hr, Htag; done).
  rewrite try_consume_false by (rewrite Hr, Htag; by apply frame_tag_no_header).
  cbv beta iota. rewrite Hr at 1. rewrite Hf, (advance_app _ _ _ Hr).
  pose proof (handle_frame_rest frame (Decoder.set_input d (Decoder.pos d + blen w) r)) as Hrest.
  destruct (handle_frame _ _) as [[res|] d']; [done|]. cbn in Hrest.
  apply decode_frame_progress in Hf. unfold next_frame. apply next_frame_fuel.
  - rewrite Hrest, Hr. zlia.
  - lia.
Qed.

Lemma decode_all_step d w r frame :
  Decoder.rest d = w ++ r →
  decode_frame (schema_info d) (Decoder.timestamp_base_ns d) (w ++ r) = Some (frame, r) →
  decode_all d =
  match handle_frame frame (Decoder.set_input d (Decoder.pos d + blen w) r) with
  | (Some (Ok (Some f)), d) => let '(fs, d) := decode_all d in (f :: fs, d)
  | (Some _, d) => ([], d)
  | (None, d) => decode_all d
  end.
Proof.
  intros Hr Hf. rewrite decode_all_unfold, (next_frame_step d w r frame Hr Hf).
  destruct (handle_frame _ _) as [[[[f|]|e]|] d']; try done.
  by rewrite <- decode_all_unfold.
Qed.

(** A mid-stream header starts a fresh stream. *)
Lemma decode_all_reset d r v :
  Decoder.rest d = MAGIC ++ v :: r →
  decode_all d
  = decode_all (Decoder.set_input (reset_state d) (Decoder.pos d + HEADER_SIZE) r).
Proof.
  intros Hr. rewrite !decode_all_unfold.
  assert (next_frame d
          = next_frame (Decoder.set_input (reset_state d) (Decoder.pos d + HEADER_SIZE) r)) as ->;
    [|done].
  unfold next_frame at 1. rewrite next_frame_loop_S.
  rewrite bool_decide_false by (rewrite Hr; done).
  rewrite (try_consume_true d r v Hr). apply next_frame_fuel; cbn; [|lia].
  rewrite Hr, length_app. cbn. lia.
Qed.

Lemma decode_all_end d : Decoder.rest d = [] → decode_all d = ([], d).
Proof.
  intros H. rewrite decode_all_unfold. unfold next_frame. rewrite next_frame_loop_S.
  by rewrite bool_decide_true.
Qed.

(** ** More input behind the current one *)

(** The decoder with [r] as its remaining input. *)
Definition feed (d : Decoder.t) (r : bytes) : Decoder.t :=
  Decoder.set_input d (Decoder.pos d) r.

Definition extend (d : Decoder.t) (e : bytes) : Decoder.t := feed d (Decoder.rest d ++ e).

Lemma feed_rest d : feed d (Decoder.rest d) = d.
Proof. by destruct d. Qed.

Lemma handle_frame_feed f d r :
  handle_frame f (feed d r) = (fst (handle_frame f d), feed (snd (handle_frame f d)) r).
Proof.
  destruct f; try done. cbn. unfold register_schema. cbn.
  by destruct (register _ _ _).
Qed.

Lemma next_frame_extend d e res d' :
  next_frame d = (res, d') → res ≠ Ok None →
  next_frame (extend d e) = (res, extend d' e).
Proof.
  unfold next_frame at 1. generalize (S (length (Decoder.rest d))) as fuel.
  intros fuel. revert d. induction fuel as [|fuel IH]; intros d H Hres; [by injection H as <- <-|].
  rewrite next_frame_loop_S in H.
  destruct (bool_decide_reflect (Decoder.rest d = [])) as [|Hne]; [by injection H as <- <-|].
  destruct (try_consume_cases d) as [(v & r & Hr & Ht)|[Hnone Ht]]; rewrite Ht in H.
  - apply IH in H; [|done]. rewrite <- H. unfold next_frame at 1. rewrite next_frame_loop_S.
    assert (Decoder.rest (extend d e) = MAGIC ++ v :: (r ++ e)) as Hr'
      by (cbn; rewrite Hr; by rewrite <- app_assoc).
    rewrite bool_decide_false by (rewrite Hr'; done).
    rewrite (try_consume_true _ (r ++ e) v Hr'). apply next_frame_fuel; cbn; [|lia].
    rewrite Hr, !length_app. cbn. lia.
  - destruct (decode_frame _ _ _) as [[frame r]|] eqn:E; [|by injection H as <- <-].
    pose proof E as (c & Hc & He)%decode_frame_local.
    assert (Decoder.rest (extend d e) = c ++ (r ++ e)) as Hr'
      by (cbn; rewrite Hc; by rewrite <- app_assoc).
    rewrite (next_frame_step (extend d e) c (r ++ e) frame Hr' (He (r ++ e))).
    rewrite (advance_app d c r Hc) in H.
    change (Decoder.set_input (extend d e) (Decoder.pos (extend d e) + blen c) (r ++ e))
      with (feed (Decoder.set_input d (Decoder.pos d + blen c) r) (r ++ e)).
    rewrite handle_frame_feed.
    pose proof (handle_frame_rest frame (Decoder.set_input d (Decoder.pos d + blen c) r)) as Hrest.
    destruct (handle_frame frame _) as [[res'|] d1]; cbn [fst snd] in Hrest |- *; cbn in Hrest.
    + injection H as <- <-. unfold extend. by rewrite Hrest.
    + apply IH in H; [|done]. rewrite <- H. unfold extend. by rewrite Hrest.
Qed.

(** Frames read one after the other, without an error. *)
Inductive frames_from : Decoder.t → list DecodedFrame.t → Decoder.t → Prop :=
| frames_nil d : frames_from d [] d
| frames_cons d f d1 fs d2 :
    next_frame d = (Ok (Some f), d1) → frames_from d1 fs d2 → frames_from d (f :: fs) d2.

Lemma decode_all_frames d :
  ∃ d1, frames_from d (fst (decode_all d)) d1 ∧
        snd (decode_all d) = snd (next_frame d1) ∧ fst (decode_all d1) = [].
Proof.
  unfold decode_all at 1 2. assert (∃ fuel, fuel = S (length (Decoder.rest d))) as [fuel Hf]
    by by eexists.
  assert (length (Decoder.rest d) < fuel)%nat as Hlen by lia. rewrite <- Hf. clear Hf. revert d Hlen.
  induction fuel as [|fuel IH]; intros d Hlen; [lia|]. cbn [decode_all_loop].
  destruct (next_frame d) as [res d'] eqn:E. destruct res as [[f|]|err].
  - pose proof E as Hp. apply next_frame_progress in Hp; [|done].
    destruct (IH d') as (d1 & Hd1 & Hs & Hn); [lia|].
    destruct (decode_all_loop fuel d') as [fs d2]. cbn in *.
    exists d1. split; [by econstructor|done].
  - exists d. split; [constructor|]. rewrite E. split; [done|].
    by rewrite decode_all_unfold, E.
  - exists d. split; [constructor|]. rewrite E. split; [done|].
    by rewrite decode_all_unfold, E.
Qed.

Lemma frames_from_extend d fs d' e :
  frames_from d fs d' → frames_from (extend d e) fs (extend d' e).
Proof.
  induction 1; [constructor|]. econstructor; [|done]. by apply next_frame_extend.
Qed.

Lemma frames_from_decode_all d fs d' :
  frames_from d fs d' →
  decode_all d = (fs ++ fst (decode_all d'), snd (decode_all d')).
Proof.
  induction 1 as [d|d f d1 fs d2 Hf _ IH]; [by destruct (decode_all d)|].
  by rewrite decode_all_unfold, Hf, IH.
Qed.

(** ** The zero-copy reader follows the owned one *)

Definition decoded_to_owned (f : DecodedFrameRef.t) : DecodedFrame.t :=
  match f with
  | DecodedFrameRef.Schema e => DecodedFrame.Schema e
  | DecodedFrameRef.Event id ts vs => DecodedFrame.Event id ts (map to_owned vs)
  | DecodedFrameRef.StringPool l => DecodedFrame.StringPool (map pool_entry_to_owned l)
  | DecodedFrameRef.StackPool l => DecodedFrame.StackPool (map stack_entry_to_owned l)
  | DecodedFrameRef.SchemaAnnotations id l => DecodedFrame.SchemaAnnotations id l
  end.

Definition decoded_faithful (f : DecodedFrameRef.t) : bool :=
  match f with
  | DecodedFrameRef.Event _ _ vs => forallb owned_faithful vs
  | _ => true
  end.

Lemma pool_strings_ref_owned pool l :
  pool_strings_ref pool l = pool_strings pool (map pool_entry_to_owned l).
Proof. revert pool. induction l as [|e l IH]; intros pool; [done|]. apply IH. Qed.

Lemma pool_stacks_ref_owned pool l :
  pool_stacks_ref pool l = pool_stacks pool (map stack_entry_to_owned l).
Proof. revert pool. induction l as [|e l IH]; intros pool; [done|]. apply IH. Qed.

(** What a zero-copy result stands for, [None] for the recursive call. *)
Definition result_to_owned (o : option frame_result_ref) : option frame_result :=
  match o with
  | None => None
  | Some (Ok None) => Some (Ok None)
  | Some (Ok (Some f)) => Some (Ok (Some (decoded_to_owned f)))
  | Some (Err e) => Some (Err e)
  end.

Lemma handle_frame_ref_owned f d :
  handle_frame (frame_to_owned f) d
  = (result_to_owned (fst (handle_frame_ref f d)), snd (handle_frame_ref f d)).
Proof.
  destruct f; cbn; try done.
  - unfold register_schema. by destruct (register _ _ _).
  - by rewrite pool_strings_ref_owned.
  - by rewrite pool_stacks_ref_owned.
Qed.

(** ** Stepping the zero-copy reader *)

Lemma handle_frame_ref_rest f d : Decoder.rest (snd (handle_frame_ref f d)) = Decoder.rest d.
Proof.
  pose proof (handle_frame_rest (frame_to_owned f) d) as H.
  by rewrite handle_frame_ref_owned in H.
Qed.

Lemma decode_frame_ref_tag lookup base d x :
  decode_frame_ref lookup base d = Some x → ∃ tag r, d = tag :: r ∧ is_frame_tag tag = true.
Proof.
  destruct d as [|tag r]; [done|]. unfold decode_frame_ref. rewrite pbind_byte.
  intros H. exists tag, r. split; [done|]. unfold is_frame_tag. apply bool_decide_eq_true.
  repeat match type of H with context [bool_decide ?P] =>
    destruct (bool_decide_reflect P); [subst; set_solver|] end.
  done.
Qed.

Lemma next_frame_ref_loop_S fuel d :
  next_frame_ref_loop (S fuel) d =
  if bool_decide (Decoder.rest d = []) then (Ok None, d) else
  let '(reset, d) := try_consume_reset_header d in
  if reset then next_frame_ref_loop fuel d else
  match decode_frame_ref (schema_info d) (Decoder.timestamp_base_ns d) (Decoder.rest d) with
  | None => (Ok None, d)
  | Some (frame, r) =>
      let '(o, d) := handle_frame_ref frame (advance d r) in
      match o with Some res => (res, d) | None => next_frame_ref_loop fuel d end
  end.
Proof. cbn [next_frame_ref_loop]. by rewrite at_end. Qed.

Lemma next_frame_ref_fuel fuel fuel' d :
  (length (Decoder.rest d) < fuel)%nat → (length (Decoder.rest d) < fuel')%nat →
  next_frame_ref_loop fuel d = next_frame_ref_loop fuel' d.
Proof.
  revert fuel' d. induction fuel as [|fuel IH]; intros fuel' d H H'; [lia|].
  destruct fuel' as [|fuel']; [lia|]. rewrite !next_frame_ref_loop_S.
  destruct (bool_decide (Decoder.rest d = [])); [done|].
  destruct (try_consume_cases d) as [(v & r & Hr & ->)|[_ ->]]; cbv beta iota.
  - apply IH; cbn; rewrite Hr, length_app in H, H'; cbn in H, H'; lia.
  - destruct (decode_frame_ref _ _ _) as [[frame r]|] eqn:E; [|done].
    apply decode_frame_ref_progress in E.
    pose proof (handle_frame_ref_rest frame (advance d r)) as Hr.
    destruct (handle_frame_ref frame (advance d r)) as [o d']. destruct o; [done|].
    cbn in Hr. apply IH; rewrite Hr; zlia.
Qed.

Lemma next_frame_ref_progress d res d' :
  next_frame_ref d = (res, d') → res ≠ Ok None →
  (length (Decoder.rest d') < length (Decoder.rest d))%nat.
Proof.
  unfold next_frame_ref. generalize (S (length (Decoder.rest d))) as fuel. intros fuel. revert d.
  induction fuel as [|fuel IH]; intros d H Hres; [by injection H as <- <-|].
  rewrite next_frame_ref_loop_S in H. destruct (bool_decide (Decoder.rest d = [])).
  { by injection H as <- <-. }
  destruct (try_consume_cases d) as [(v & r & Hr & Ht)|[_ Ht]]; rewrite Ht in H.
  - apply IH in H; [|done]. cbn in H. rewrite Hr, length_app. cbn. lia.
  - destruct (decode_frame_ref _ _ _) as [[frame r]|] eqn:E; [|by injection H as <- <-].
    apply decode_frame_ref_progress in E.
    pose proof (handle_frame_ref_rest frame (advance d r)) as Hr.
    destruct (handle_frame_ref frame (advance d r)) as [o d1]. cbn in Hr.
    destruct o as [res'|].
    + injection H as <- <-. rewrite Hr. zlia.
    + apply IH in H; [|done]. rewrite Hr in H. zlia.
Qed.

Lemma next_frame_ref_step d w r frame :
  Decoder.rest d = w ++ r →
  decode_frame_ref (schema_info d) (Decoder.timestamp_base_ns d) (w ++ r) = Some (frame, r) →
  next_frame_ref d =
  match handle_frame_ref frame (Decoder.set_input d (Decoder.pos d + blen w) r) with
  | (Some res, d) => (res, d)
  | (None, d) => next_frame_ref d
  end.
Proof.
  intros Hr Hf. unfold next_frame_ref at 1. rewrite next_frame_ref_loop_S.
  destruct (decode_frame_ref_tag _ _ _ _ Hf) as (tag & r' & Htag & Hok).
  rewrite bool_decide_false by (rewrite Hr, Htag; done).
  rewrite try_consume_false by (rewrite Hr, Htag; by apply frame_tag_no_header).
  cbv beta iota. rewrite Hr at 1. rewrite Hf, (advance_app _ _ _ Hr).
  pose proof (handle_frame_ref_rest frame (Decoder.set_input d (Decoder.pos d + blen w) r)) as Hrest.
  destruct (handle_frame_ref _ _) as [[res|] d']; [done|]. cbn in Hrest.
  apply decode_frame_ref_progress in Hf. unfold next_frame_ref. apply next_frame_ref_fuel.
  - rewrite Hrest, Hr. zlia.
  - lia.
Qed.

Lemma handle_frame_ref_faithful f d g d' :
  handle_frame_ref f d = (Some (Ok (Some g)), d') → decoded_faithful g = true →
  frame_faithful f = true.
Proof.
  destruct f; try done. cbn. by intros [= <- <-].
Qed.

(** A frame that is not an event is faithful whatever becomes of it. *)
Lemma handle_frame_ref_quiet f d o d' :
  handle_frame_ref f d = (o, d') → (∀ g, o ≠ Some (Ok (Some g))) → frame_faithful f = true.
Proof. destruct f; try done. cbn. intros [= <- <-] H. by destruct (H _ eq_refl). Qed.

Lemma next_frame_ref_loop_agrees fuel d o d' :
  next_frame_ref_loop fuel d = (o, d') → o ≠ Ok None →
  (∀ g, o = Ok (Some g) → decoded_faithful g = true) →
  ∃ o', result_to_owned (Some o) = Some o' ∧ next_frame_loop fuel d = (o', d').
Proof.
  revert d. induction fuel as [|fuel IH]; intros d H Hne Hf; cbn [next_frame_ref_loop] in H.
  { by injection H as <- <-. }
  cbn [next_frame_loop]. destruct (_ >=? _); [by injection H as <- <-|].
  destruct (try_consume_reset_header d) as [[] d1]; [by apply IH|].
  destruct (decode_frame_ref _ _ _) as [[f r]|] eqn:Ef; [|by injection H as <- <-].
  destruct (handle_frame_ref f (advance d1 r)) as [ho d2] eqn:Eh.
  assert (frame_faithful f = true) as Hff.
  { destruct ho as [[[g|]|e]|].
    - injection H as <- <-. eapply handle_frame_ref_faithful; [exact Eh|]. by apply Hf.
    - by eapply handle_frame_ref_quiet.
    - by eapply handle_frame_ref_quiet.
    - by eapply handle_frame_ref_quiet. }
  rewrite (decode_frame_ref_agrees _ _ _ _ _ Ef Hff), handle_frame_ref_owned, Eh.
  cbn [fst snd]. destruct ho as [res|].
  - injection H as <- <-. destruct res as [[g|]|e]; [eauto..|eauto].
  - by apply IH.
Qed.

Lemma next_frame_ref_agrees d o d' :
  next_frame_ref d = (o, d') → o ≠ Ok None →
  (∀ g, o = Ok (Some g) → decoded_faithful g = true) →
  ∃ o', result_to_owned (Some o) = Some o' ∧ next_frame d = (o', d').
Proof. apply next_frame_ref_loop_agrees. Qed.

Lemma decode_all_ref_agrees fuel d fs d' :
  (length (Decoder.rest d) < fuel)%nat →
  decode_all_ref_loop fuel d = (fs, d') → forallb decoded_faithful fs = true →
  ∃ gs, fst (decode_all d) = map decoded_to_owned fs ++ gs.
Proof.
  revert d fs d'. induction fuel as [|fuel IH]; intros d fs d' Hlen H Hf; [lia|].
  cbn [decode_all_ref_loop] in H.
  destruct (next_frame_ref d) as [o d1] eqn:E.
  destruct o as [[f|]|e]; [|by injection H as <- <-; eexists..].
  destruct (decode_all_ref_loop fuel d1) as [fs1 d2] eqn:E1. injection H as <- <-.
  cbn [forallb] in Hf. apply andb_true_iff in Hf as [Hf Hfs].
  destruct (next_frame_ref_agrees d _ d1 E) as (o' & Ho & Hn); [done|by intros g [= <-]|].
  injection Ho as <-.
  pose proof (next_frame_progress _ _ _ Hn ltac:(done)) as Hp.
  destruct (IH d1 fs1 d2 ltac:(lia) E1 Hfs) as [gs Hgs].
  exists gs. rewrite decode_all_unfold, Hn. destruct (decode_all d1) as [hs d3].
  cbn in *. by rewrite Hgs.
Qed.

(** ** The decoder's invariant *)

(** Every cached schema is the registered one, with its own field tags. *)
Definition decoder_ok (d : Decoder.t) : Prop :=
  ∀ id c, 0 <= id → cache_get d id = Some c →
    SchemaRegistry.schemas (Decoder.registry d) !! id = Some (SchemaCache.entry c) ∧
    SchemaCache.field_tags c
    = map (λ f, tag_of (FieldDef.field_type f)) (SchemaEntry.fields (SchemaCache.entry c)).

Lemma cache_set_get c idx x i :
  mjoin (cache_set c idx x !! i) = if decide (i = idx) then Some x else mjoin (c !! i).
Proof.
  unfold cache_set. destruct (decide (i = idx)) as [->|Hne].
  - rewrite list_lookup_insert_eq; [done|]. destruct (Nat.leb_spec (length c) idx); [|lia].
    rewrite length_app, length_replicate. lia.
  - rewrite list_lookup_insert_ne by done. destruct (Nat.leb_spec (length c) idx); [|done].
    destruct (decide (i < length c)%nat).
    + by rewrite lookup_app_l.
    + rewrite lookup_app_r by lia. rewrite (lookup_ge_None_2 c i) by lia.
      destruct (replicate _ _ !! _) eqn:E; [|done].
      apply lookup_replicate in E as [-> _]. done.
Qed.

Lemma decoder_ok_ext d d' :
  Decoder.registry d' = Decoder.registry d → Decoder.schema_cache d' = Decoder.schema_cache d →
  decoder_ok d → decoder_ok d'.
Proof. intros Hr Hc H id c Hid. unfold cache_get. rewrite Hr, Hc. by apply H. Qed.

Lemma register_schema_ok d id entry ts d' :
  0 <= id → decoder_ok d → register_schema d id entry ts = (true, d') → decoder_ok d'.
Proof.
  intros Hid H. unfold register_schema. destruct (register _ _ _) as [r|] eqn:Hr; [|done].
  intros [= <-]. apply register_get in Hr as [Hs _]. intros i c Hi. unfold cache_get.
  cbn [Decoder.set_schemas Decoder.schema_cache Decoder.registry]. rewrite cache_set_get, Hs.
  destruct (decide (Z.to_nat i = Z.to_nat id)) as [E|E].
  - assert (i = id) as -> by lia. intros [= <-]. by rewrite lookup_insert_eq.
  - intros Hc. rewrite lookup_insert_ne by congruence. by apply H.
Qed.

Lemma merge_annotations_ok d id l : 0 <= id → decoder_ok d → decoder_ok (merge_annotations d id l).
Proof.
  intros Hid H i c Hi. unfold cache_get. cbn. destruct (decide (i = id)) as [->|Hne].
  - rewrite list_lookup_alter_eq, lookup_alter_eq.
    destruct (Decoder.schema_cache d !! Z.to_nat id) as [[c0|]|] eqn:E; try done.
    cbn. intros [= <-]. destruct (H id c0 Hid) as [-> Ht]; [by unfold cache_get; rewrite E|].
    by split.
  - rewrite list_lookup_alter_ne by lia. rewrite lookup_alter_ne by done. by apply H.
Qed.

(** Frame type ids are unsigned. *)
Definition frame_id_ok (f : Frame.t) : Prop :=
  match f with
  | Frame.Schema id _ _ | Frame.SchemaAnnotations id _ => 0 <= id
  | _ => True
  end.

Lemma decode_frame_id_ok lookup base data f r :
  decode_frame lookup base data = Some (f, r) → frame_id_ok f.
Proof.
  unfold decode_frame. destruct data as [|tag data]; [done|]. rewrite pbind_byte. intros H.
  repeat match type of H with context [bool_decide ?P] => destruct (bool_decide P) end.
  - unfold decode_schema_frame in H.
    destruct (get_le 2 data) as [[id r1]|] eqn:E; [|unfold pbind at 1 in H; by rewrite E in H].
    rewrite (pbind_some _ _ _ _ _ E) in H. apply get_le_fits in E.
    parse_inv H. injection H as <- <-. apply E.
  - unfold decode_event_frame in H. unfold pbind, pret, plift in H.
    repeat (destruct_match; try discriminate). by injection H as <- <-.
  - unfold decode_string_pool_frame in H. parse_inv H. by injection H as <- <-.
  - unfold decode_stack_pool_frame in H. parse_inv H. by injection H as <- <-.
  - parse_inv H. by injection H as <- <-.
  - unfold decode_schema_annotations_frame in H. parse_inv H. injection H as <- <-.
    apply Z.mod_pos_bound. lia.
  - done.
Qed.

Lemma handle_frame_ok f d o d' :
  frame_id_ok f → decoder_ok d → handle_frame f d = (o, d') →
  (∀ e, o ≠ Some (Err e)) → decoder_ok d'.
Proof.
  intros Hf H. destruct f; cbn [handle_frame].
  - destruct (register_schema d _ _ _) as [[] d1] eqn:E; intros [= <- <-] Hne.
    + by eapply register_schema_ok.
    + by destruct (Hne _ eq_refl).
  - intros [= <- <-] _. by eapply decoder_ok_ext.
  - intros [= <- <-] _. by eapply decoder_ok_ext.
  - intros [= <- <-] _. by eapply decoder_ok_ext.
  - intros [= <- <-] _. by eapply decoder_ok_ext.
  - intros [= <- <-] _. by apply merge_annotations_ok.
Qed.

Lemma next_frame_loop_ok fuel d o d' :
  decoder_ok d → next_frame_loop fuel d = (o, d') → (∀ e, o ≠ Err e) → decoder_ok d'.
Proof.
  revert d. induction fuel as [|fuel IH]; intros d Hd H Hne; [by injection H as <- <-|].
  rewrite next_frame_loop_S in H. destruct (bool_decide (Decoder.rest d = [])).
  { by injection H as <- <-. }
  destruct (try_consume_cases d) as [(v & r & Hr & Ht)|[_ Ht]]; rewrite Ht in H.
  - eapply IH; [|exact H|done]. by intros id c _.
  - destruct (decode_frame _ _ _) as [[f r]|] eqn:E; [|by injection H as <- <-].
    destruct (handle_frame f (advance d r)) as [ho d1] eqn:Eh.
    assert ((∀ e, ho ≠ Some (Err e)) → decoder_ok d1) as Hd1.
    { intros He. eapply handle_frame_ok; [by eapply decode_frame_id_ok| |exact Eh|done].
      by eapply decoder_ok_ext. }
    destruct ho as [res|].
    + injection H as <- <-. apply Hd1. intros e [= ->]. by apply (Hne e).
    + eapply IH; [|exact H|done]. by apply Hd1.
Qed.

(** ** The callback loop against [next_frame_ref] *)

Lemma event_fields_spec tags remaining pos :
  match event_fields tags remaining pos with
  | Ok x => decode_fields_ref tags remaining pos = Some x
  | Err _ => decode_fields_ref tags remaining pos = None
  end.
Proof.
  revert pos. induction tags as [|tag tags IH]; intros pos; [done|].
  cbn [event_fields decode_fields_ref]. destruct (from_tag tag) as [ft|]; [|done].
  cbn [mbind option_bind]. unfold decode_field_ref.
  assert (∀ o : option (FieldValueRef.t * Z), ∀ p m,
    match
      match match o with
            | Some (val, consumed) => Ok (val, p + consumed)
            | None => Err (m, p)
            end with
      | Ok (v, pos) =>
          match event_fields tags remaining pos with
          | Ok (vs, pos) => Ok (v :: vs, pos)
          | Err e => Err e
          end
      | Err e => Err e
      end
    with
    | Ok x =>
        ('(v, pos) ← ('(val, consumed) ← o; Some (val, p + consumed));
         '(vs, pos) ← decode_fields_ref tags remaining pos; Some (v :: vs, pos)) = Some x
    | Err _ =>
        ('(v, pos) ← ('(val, consumed) ← o; Some (val, p + consumed));
         '(vs, pos) ← decode_fields_ref tags remaining pos; Some (v :: vs, pos)) = None
    end) as Hread.
  { intros [[v n]|] p m; [|done]. cbn [mbind option_bind]. specialize (IH (p + n)).
    destruct (event_fields tags remaining (p + n)) as [[vs p2]|e];
      rewrite IH; done. }
  destruct (is_optional ft); [|apply Hread].
  destruct (byte_at remaining pos) as [b|]; [|done]. cbn [mbind option_bind].
  destruct (Z.eqb_spec b 0) as [->|Hb].
  - cbn [mbind option_bind]. specialize (IH (pos + 1)).
    destruct (event_fields tags remaining (pos + 1)) as [[vs p2]|e]; rewrite IH; done.
  - destruct b; [done|apply Hread..].
Qed.

(** The frame an event of the callback loop stands for. *)
Definition raw_event_frame (ev : RawEvent.t) : DecodedFrameRef.t :=
  DecodedFrameRef.Event (RawEvent.type_id ev) (RawEvent.timestamp_ns ev) (RawEvent.fields ev).

(** A step of the loop and [next_frame_ref], as results: the same event and
    the same decoder, or nothing read by either. *)
Definition step_agrees (d : Decoder.t) (step : result (RawEvent.t * Decoder.t) DecodeError.t)
    (next : frame_result_ref * Decoder.t) : Prop :=
  match step with
  | Ok (ev, d') => next = (Ok (Some (raw_event_frame ev)), d')
  | Err _ => next = (Ok None, d)
  end.

Lemma next_frame_ref_event d r :
  Decoder.rest d = TAG_EVENT :: r →
  next_frame_ref d =
  match decode_event_frame_ref (schema_info d) (Decoder.timestamp_base_ns d) (Decoder.rest d) with
  | Some (FrameRef.Event id ts vs, r) =>
      (Ok (Some (DecodedFrameRef.Event id ts vs)), Decoder.set_base (advance d r) ts)
  | _ => (Ok None, d)
  end.
Proof.
  intros Hr. unfold next_frame_ref. cbn [next_frame_ref_loop]. rewrite at_end.
  rewrite bool_decide_false by (by rewrite Hr).
  rewrite try_consume_false by (rewrite Hr; by apply frame_tag_no_header). cbv beta iota.
  assert (decode_frame_ref (schema_info d) (Decoder.timestamp_base_ns d) (Decoder.rest d)
          = decode_event_frame_ref (schema_info d) (Decoder.timestamp_base_ns d) (Decoder.rest d))
    as -> by (rewrite Hr; unfold decode_frame_ref; by rewrite pbind_byte).
  destruct (decode_event_frame_ref _ _ _) as [[f r']|] eqn:E; [|done].
  unfold decode_event_frame_ref in E. cbv zeta in E. do 3 bind_inv E. destruct x1 as [ts p].
  bind_inv E. destruct x1 as [vs p']. by injection E as <- <-.
Qed.

Lemma advance_at d p :
  0 <= p <= blen (Decoder.rest d) →
  advance d (at_pos (Decoder.rest d) p)
  = Decoder.set_input d (Decoder.pos d + p) (at_pos (Decoder.rest d) p).
Proof.
  intros Hp. unfold advance. rewrite blen_at_pos by done. f_equal. lia.
Qed.

(** What is left once the timestamp has been read: the fields. *)
Lemma event_tail_agrees d id c ts p0 :
  0 <= p0 <= blen (Decoder.rest d) →
  step_agrees d
    (match event_fields (SchemaCache.field_tags c) (Decoder.rest d) p0 with
     | Err (m, p) => Err (DecodeError.mk (Decoder.pos d + p) m)
     | Ok (values, pos) =>
         let d := Decoder.set_base
           (Decoder.set_input d (Decoder.pos d + pos) (at_pos (Decoder.rest d) pos)) ts in
         Ok (RawEvent.mk id (SchemaEntry.name (SchemaCache.entry c)) ts values
               (SchemaCache.entry c) (Decoder.string_pool d) (Decoder.stack_pool d), d)
     end)
    (match
       '(values, pos) ← decode_fields_ref (SchemaCache.field_tags c) (Decoder.rest d) p0;
       Some (FrameRef.Event id ts values, at_pos (Decoder.rest d) pos)
     with
     | Some (FrameRef.Event id ts vs, r) =>
         (Ok (Some (DecodedFrameRef.Event id ts vs)), Decoder.set_base (advance d r) ts)
     | _ => (Ok None, d)
     end).
Proof.
  intros Hp. pose proof (event_fields_spec (SchemaCache.field_tags c) (Decoder.rest d) p0) as Hf.
  destruct (event_fields _ _ _) as [[vs p]|[m p]]; rewrite Hf; [|done].
  apply decode_fields_ref_bounds in Hf; [|done]. cbn [mbind option_bind step_agrees].
  by rewrite advance_at by lia.
Qed.

(** ** Main properties *)

(** The loop of [for_each_event] inlines the reading of an event frame;
    on every event frame that inlined code and [next_frame_ref] agree, event,
    position and new state, and refuse the same frames, as long as the current
    timestamp base is 2^24 away from the end of the u64 range. *)
Theorem event_step_agrees d r :
  Decoder.rest d = TAG_EVENT :: r → 0 <= Decoder.timestamp_base_ns d <= 2 ^ 64 - 2 ^ 24 →
  step_agrees d (event_step d) (next_frame_ref d).
Proof.
  intros Hr Hb. rewrite (next_frame_ref_event d r Hr).
  unfold event_step, decode_event_frame_ref. cbv zeta.
  destruct (le_at (Decoder.rest d) 1 2) as [id|] eqn:Eid; [|done]. cbn [mbind option_bind].
  apply le_at_bounds in Eid.
  unfold schema_info. destruct (cache_get d id) as [c|]; [|done].
  cbn [fmap option_fmap option_map mbind option_bind SchemaInfo.has_timestamp_on_wire
       SchemaInfo.field_tags].
  change (1 + 2) with 3. destruct (SchemaCache.has_timestamp_on_wire c);
    [|apply event_tail_agrees; lia].
  destruct (decode_u24_le (at_pos (Decoder.rest d) 3)) as [delta|] eqn:Eu; [|done].
  apply decode_u24_bounds in Eu as [Hdelta Hlen]. rewrite blen_at_pos in Hlen by lia.
  rewrite wrapping_add_small by (unfold fits; lia). cbn [mbind option_bind].
  rewrite checked_add_ok by lia. cbn [mbind option_bind].
  apply event_tail_agrees. lia.
Qed.

(** Cutting a stream at any byte only loses frames at its end: what the
    decoder yields on the part is a prefix of what it yields on the whole. *)
Theorem truncated_stream_prefix d e :
  fst (decode_all d) `prefix_of` fst (decode_all (extend d e)).
Proof.
  destruct (decode_all_frames d) as (d1 & Hf & _ & Hn).
  apply (frames_from_extend _ _ _ e) in Hf.
  rewrite (frames_from_decode_all _ _ _ Hf). by eexists.
Qed.

(** The zero-copy reader and the owned one tell the same story: as long as
    the borrowed values are representable, the frames of the first, made
    owned, are the first frames of the second. *)
Theorem decode_all_ref_refines d :
  forallb decoded_faithful (fst (decode_all_ref d)) = true →
  map decoded_to_owned (fst (decode_all_ref d)) `prefix_of` fst (decode_all d).
Proof.
  intros Hf. destruct (decode_all_ref d) as [fs d'] eqn:E. unfold decode_all_ref in E.
  destruct (decode_all_ref_agrees (S (length (Decoder.rest d))) d fs d' ltac:(lia) E Hf) as [gs Hgs].
  by exists gs.
Qed.

Definition ok_timestamp {E : Type} (r : result (RawEvent.t * Decoder.t) E) : option Z :=
  match r with Ok (ev, _) => Some (RawEvent.timestamp_ns ev) | Err _ => None end.

Definition sample_stream : bytes :=
  encode_header
  ++ encode_schema 300 (SchemaEntry.mk (lit "E") [FieldDef.mk (lit "f") FieldType.StackFrames] [])
  ++ event_frame 300 9 (put_le 4 1 ++ put_le 8 4096).

Example decode_all_ref_refines_witness :
  ∃ d, decoder_new sample_stream = Some d ∧ length (fst (decode_all_ref d)) = 2%nat ∧
    map decoded_to_owned (fst (decode_all_ref d)) `prefix_of` fst (decode_all d).
Proof.
  destruct (decoder_new sample_stream) as [d|] eqn:E; [|by vm_compute in E].
  exists d. split; [done|]. vm_compute in E. injection E as <-.
  split; [by vm_compute|]. apply decode_all_ref_refines. by vm_compute.
Defined.

(** From a fresh start, whatever the input, as long as frames are
    returned without error every schema the decoder reads events by is the one
    in its registry, with exactly that schema's field tags. *)
Theorem decoder_invariant data d fs d' :
  decoder_new data = Some d → frames_from d fs d' → decoder_ok d'.
Proof.
  unfold decoder_new. intros Hd Hf. destruct (decode_header data); [|done]. injection Hd as Hd.
  assert (decoder_ok d) as Hok by (subst d; by intros id c _). clear Hd.
  induction Hf as [|d f d1 fs d2 Hn _ IH]; [done|].
  apply IH. by eapply next_frame_loop_ok.
Qed.

Example decoder_invariant_witness :
  ∃ d (fs : list DecodedFrame.t) d', decoder_new sample_stream = Some d ∧ length fs = 2%nat ∧ decoder_ok d'.
Proof.
  destruct (decoder_new sample_stream) as [d|] eqn:E; [|by vm_compute in E].
  destruct (decode_all_frames d) as (d1 & Hf & _).
  exists d, (fst (decode_all d)), d1. split; [done|]. split.
  - vm_compute in E. injection E as <-. by vm_compute.
  - exact (decoder_invariant sample_stream d _ d1 E Hf).
Defined.

(** [sample_stream] read up to its event, with a chosen timestamp base. *)
Definition sample_at_event (base : Z) : option Decoder.t :=
  d ← decoder_new sample_stream;
  Some (Decoder.set_base (snd (next_frame_ref d)) base).

Example event_step_agrees_witness :
  ∃ d, sample_at_event 5 = Some d ∧
    ok_timestamp (event_step d) = Some 14 ∧ step_agrees d (event_step d) (next_frame_ref d).
Proof.
  destruct (sample_at_event 5) as [d|] eqn:E; [|by vm_compute in E].
  exists d. split; [done|]. vm_compute in E. injection E as <-.
  split; [by vm_compute|]. eapply event_step_agrees; [reflexivity|by vm_compute].
Defined.

(** Next to the end of the u64 range the two readers of an event frame
    differ: the inlined sum wraps around (with overflow checks off) and delivers
    an event that goes back in time, where [next_frame_ref] stops at the frame. *)
Theorem event_step_wraps :
  ∃ d, sample_at_event (2 ^ 64 - 1) = Some d ∧
    ok_timestamp (event_step d) = Some 8 ∧ next_frame_ref d = (Ok None, d).
Proof.
  destruct (sample_at_event (2 ^ 64 - 1)) as [d|] eqn:E; [|by vm_compute in E].
  exists d. split; [done|]. vm_compute in E. injection E as <-. split; by vm_compute.
Qed.
