(* ===== verification/EventEncoder.v ===== *)
(** * Writing events (dial9-trace-format/src/types.rs: [CountingWriter],
    [EncodeState], [EventEncoder], the [TraceField] trait)

    The sink is the default [Vec<u8>]: writing appends and cannot fail.  An
    [EventEncoder] method is the bytes it appends; [TraceField] is a class
    with the impls of the source as instances, and [TraceFieldLaws] states
    what the rest of the system relies on: the decoder reads a field back. *)

From Stdlib Require Import ZArith Lia.
From stdpp Require Import base list sets strings option.
From coqutil Require Import Byte Word.LittleEndianList.
From S2P Require Import Prelude.
From S2P Require Import Leb128.
From S2P Require Import Utf8.
From S2P Require Import FieldType.
From S2P Require Import FieldValue.
From S2P Require Import Codec.

(** ** The counting writer and the encoding state *)

Module CountingWriter.
Record t : Type := mk { inner : bytes; bytes_written : Z }.
End CountingWriter.

Definition counting_writer_new (inner : bytes) : CountingWriter.t :=
  CountingWriter.mk inner 0.

(** [write_all]; [write] on a [Vec] takes the whole buffer and is the same. *)
Definition write_all (w : CountingWriter.t) (buf : bytes) : CountingWriter.t :=
  CountingWriter.mk (CountingWriter.inner w ++ buf)
    (CountingWriter.bytes_written w + blen buf).

Module EncodeState.
Record t : Type := mk { writer : CountingWriter.t; timestamp_base_ns : Z }.
End EncodeState.

Definition encode_state_new (writer : bytes) : EncodeState.t :=
  EncodeState.mk (counting_writer_new writer) 0.

Definition state_write (s : EncodeState.t) (buf : bytes) : EncodeState.t :=
  EncodeState.mk (write_all (EncodeState.writer s) buf) (EncodeState.timestamp_base_ns s).

Definition set_ts_base_unchecked (s : EncodeState.t) (new_base : Z) : EncodeState.t :=
  EncodeState.mk (EncodeState.writer s) new_base.

(** [encode_timestamp_delta]: the delta, after a reset frame if needed. *)
Definition encode_timestamp_delta (s : EncodeState.t) (ts_ns : Z) : Z * EncodeState.t :=
  let base := EncodeState.timestamp_base_ns s in
  if (ts_ns <? base) || (ts_ns - base >? MAX_TIMESTAMP_DELTA_NS) then
    let s := state_write (state_write s [TAG_TIMESTAMP_RESET]) (put_le 8 ts_ns) in
    (0, set_ts_base_unchecked s ts_ns)
  else (cast 32 (ts_ns - base), set_ts_base_unchecked s ts_ns).

(** ** [EventEncoder] *)

Definition write_u8 (v : Z) : bytes := [z2b v].
Definition write_u16 (v : Z) : bytes := put_le 2 v.
Definition write_u32 (v : Z) : bytes := put_le 4 v.
Definition write_u64 (v : Z) : bytes := encode_unsigned v.
Definition write_i64 (v : Z) : bytes := put_le 8 v.
Definition write_f64 (v : Z) : bytes := put_le 8 v.
Definition write_bool (v : bool) : bytes := [if v then Byte.x01 else Byte.x00].
Definition write_string (v : bytes) : bytes := put_le 4 (blen v) ++ v.
Definition write_bytes (v : bytes) : bytes := put_le 4 (blen v) ++ v.
Definition write_interned (v : Z) : bytes := put_le 4 v.
Definition write_interned_stack_frames (v : Z) : bytes := put_le 4 v.

Definition write_stack_frames (v : list Z) : bytes :=
  put_le 4 (blen v) ++ concat (put_le 8 <$> v).

Definition write_string_map (v : list (bytes * bytes)) : bytes :=
  put_le 4 (blen v)
  ++ concat ((λ '(k, val), (put_le 4 (blen k) ++ k) ++ (put_le 4 (blen val) ++ val)) <$> v).

(** ** [TraceField]: the types of Rust fields, told apart by constructor. *)

Inductive u8 : Type := U8 (v : Z).
Inductive u16 : Type := U16 (v : Z).
Inductive u32 : Type := U32 (v : Z).
Inductive u64 : Type := U64 (v : Z).
Inductive i64 : Type := I64 (v : Z).
Inductive f64 : Type := F64 (bits : Z).
Inductive str : Type := Str (v : bytes).
Inductive byte_vec : Type := ByteVec (v : bytes).
Inductive StackFrames : Type := Frames (v : list Z).
Inductive InternedString : Type := StringId (id : Z).
Inductive InternedStackFrames : Type := FramesId (id : Z).
Inductive StringMap : Type := Pairs (v : list (bytes * bytes)).

Class TraceField (A : Type) : Type := {
  field_type : FieldType.t;
  encode_field : A → bytes }.

Arguments field_type A {_}.

#[global] Instance u8_field : TraceField u8 :=
  { field_type := FieldType.U8; encode_field '(U8 v) := write_u8 v }.
#[global] Instance u16_field : TraceField u16 :=
  { field_type := FieldType.U16; encode_field '(U16 v) := write_u16 v }.
#[global] Instance u32_field : TraceField u32 :=
  { field_type := FieldType.U32; encode_field '(U32 v) := write_u32 v }.
#[global] Instance u64_field : TraceField u64 :=
  { field_type := FieldType.Varint; encode_field '(U64 v) := write_u64 v }.
#[global] Instance i64_field : TraceField i64 :=
  { field_type := FieldType.I64; encode_field '(I64 v) := write_i64 v }.
#[global] Instance f64_field : TraceField f64 :=
  { field_type := FieldType.F64; encode_field '(F64 v) := write_f64 v }.
#[global] Instance bool_field : TraceField bool :=
  { field_type := FieldType.Bool; encode_field v := write_bool v }.
(** [String] and [&str]. *)
#[global] Instance str_field : TraceField str :=
  { field_type := FieldType.String; encode_field '(Str v) := write_string v }.
(** [Vec<u8>] and [&[u8]]. *)
#[global] Instance byte_vec_field : TraceField byte_vec :=
  { field_type := FieldType.Bytes; encode_field '(ByteVec v) := write_bytes v }.
#[global] Instance stack_frames_field : TraceField StackFrames :=
  { field_type := FieldType.StackFrames; encode_field '(Frames v) := write_stack_frames v }.
#[global] Instance interned_string_field : TraceField InternedString :=
  { field_type := FieldType.PooledString; encode_field '(StringId v) := write_interned v }.
#[global] Instance interned_stack_frames_field : TraceField InternedStackFrames :=
  { field_type := FieldType.PooledStackFrames;
    encode_field '(FramesId v) := write_interned_stack_frames v }.
#[global] Instance string_map_field : TraceField StringMap :=
  { field_type := FieldType.StringMap; encode_field '(Pairs v) := write_string_map v }.

(** [impl TraceField for Option<T>]; the [expect] cannot fail, see
    [option_field_type]. *)
#[global] Instance option_field {A} `{TraceField A} : TraceField (option A) :=
  { field_type := default (field_type A) (from_tag (Z.lor (tag_of (field_type A)) OPTIONAL_BIT));
    encode_field v :=
      match v with
      | None => [Byte.x00]
      | Some v => Byte.x01 :: encode_field v
      end }.

(** ** The law of a trace field *)

Class TraceFieldLaws (A : Type) `{TraceField A} : Type := {
  field_valid : A → Prop;
  field_value : A → FieldValue.t;
  field_decodes v : field_valid v →
    Inverts (decode_field (field_type A)) (encode_field v) (field_value v) }.

(** A field type without the optional bit, so [Option] may wrap it. *)
Class PlainField (A : Type) `{TraceField A} : Prop :=
  plain_field : is_optional (field_type A) = false.

(** A plain type's field is an encoded value. *)
Lemma plain_decodes ft v w :
  is_optional ft = false → encode v = w → has_type v ft → value_ok v = true →
  nesting v = 0 → Inverts (decode_field ft) w v.
Proof.
  intros Ho <- Ht Hok Hn r. unfold decode_field. rewrite Ho.
  apply decode_inverts; [exact Ht|exact Hok|]. rewrite Hn. by vm_compute.
Qed.

(** One step of the decoder at a scalar type. *)
Lemma decode_scalar ft d (p : parser FieldValue.t) :
  is_optional ft = false → (∀ fuel, decode_depth (S fuel) ft 0 d = p d) →
  decode_field ft d = p d.
Proof.
  intros Ho Hp. unfold decode_field. rewrite Ho. unfold decode, DECODE_FUEL. apply Hp.
Qed.

#[global] Program Instance u8_laws : TraceFieldLaws u8 :=
  { field_valid '(U8 v) := fits 8 v; field_value '(U8 v) := FieldValue.Varint v }.
Next Obligation.
  intros [v] Hv r. rewrite (decode_scalar _ _ (pbind get_byte (λ b, pret (FieldValue.Varint (b2z b)))))
    by done.
  cbn [encode_field u8_field write_u8 app]. rewrite pbind_byte. by rewrite b2z_z2b.
Qed.

#[global] Program Instance u16_laws : TraceFieldLaws u16 :=
  { field_valid '(U16 v) := fits 16 v; field_value '(U16 v) := FieldValue.Varint v }.
Next Obligation.
  intros [v] Hv r. rewrite (decode_scalar _ _ (pbind (get_le 2) (λ v, pret (FieldValue.Varint v))))
    by done.
  cbn [encode_field u16_field]. unfold write_u16. by rewrite pbind_put_le.
Qed.

#[global] Program Instance u32_laws : TraceFieldLaws u32 :=
  { field_valid '(U32 v) := fits 32 v; field_value '(U32 v) := FieldValue.Varint v }.
Next Obligation.
  intros [v] Hv r. rewrite (decode_scalar _ _ (pbind (get_le 4) (λ v, pret (FieldValue.Varint v))))
    by done.
  cbn [encode_field u32_field]. unfold write_u32. by rewrite pbind_put_le.
Qed.

#[global] Program Instance u64_laws : TraceFieldLaws u64 :=
  { field_valid '(U64 v) := fits 64 v; field_value '(U64 v) := FieldValue.Varint v }.
Next Obligation. intros [v] Hv. by apply plain_decodes; [..|apply bool_decide_eq_true|]. Qed.

#[global] Program Instance i64_laws : TraceFieldLaws i64 :=
  { field_valid '(I64 v) := fits_signed 64 v; field_value '(I64 v) := FieldValue.I64 v }.
Next Obligation. intros [v] Hv. by apply plain_decodes; [..|apply bool_decide_eq_true|]. Qed.

#[global] Program Instance f64_laws : TraceFieldLaws f64 :=
  { field_valid '(F64 v) := fits 64 v; field_value '(F64 v) := FieldValue.F64 v }.
Next Obligation. intros [v] Hv. by apply plain_decodes; [..|apply bool_decide_eq_true|]. Qed.

#[global] Program Instance bool_laws : TraceFieldLaws bool :=
  { field_valid _ := True; field_value v := FieldValue.Bool v }.
Next Obligation. intros v _. by apply plain_decodes. Qed.

#[global] Program Instance str_laws : TraceFieldLaws str :=
  { field_valid '(Str v) := utf8_valid v = true ∧ blen v < 2 ^ 32;
    field_value '(Str v) := FieldValue.String v }.
Next Obligation.
  intros [v] [Hu Hl]. apply plain_decodes; try done. cbn [value_ok field_value].
  rewrite Hu. by apply Z.ltb_lt.
Qed.

#[global] Program Instance byte_vec_laws : TraceFieldLaws byte_vec :=
  { field_valid '(ByteVec v) := blen v < 2 ^ 32;
    field_value '(ByteVec v) := FieldValue.Bytes v }.
Next Obligation. intros [v] Hl. by apply plain_decodes; [..|apply Z.ltb_lt|]. Qed.

#[global] Program Instance stack_frames_laws : TraceFieldLaws StackFrames :=
  { field_valid '(Frames v) := value_ok (FieldValue.StackFrames v) = true;
    field_value '(Frames v) := FieldValue.StackFrames v }.
Next Obligation. intros [v] Hv. by apply plain_decodes. Qed.

#[global] Program Instance interned_string_laws : TraceFieldLaws InternedString :=
  { field_valid '(StringId v) := fits 32 v; field_value '(StringId v) := FieldValue.PooledString v }.
Next Obligation. intros [v] Hv. by apply plain_decodes; [..|apply bool_decide_eq_true|]. Qed.

#[global] Program Instance interned_stack_frames_laws : TraceFieldLaws InternedStackFrames :=
  { field_valid '(FramesId v) := fits 32 v;
    field_value '(FramesId v) := FieldValue.PooledStackFrames v }.
Next Obligation. intros [v] Hv. by apply plain_decodes; [..|apply bool_decide_eq_true|]. Qed.

#[global] Program Instance string_map_laws : TraceFieldLaws StringMap :=
  { field_valid '(Pairs v) := value_ok (FieldValue.StringMap v) = true;
    field_value '(Pairs v) := FieldValue.StringMap v }.
Next Obligation.
  intros [v] Hv. apply plain_decodes; try done. cbn [encode encode_field string_map_field].
  unfold write_string_map, put_pair, put_len_prefixed. f_equal. f_equal.
  apply list_fmap_ext. by intros _ [k w] _.
Qed.

Lemma option_field_type {A} `{TraceField A} :
  PlainField A →
  from_tag (Z.lor (tag_of (field_type A)) OPTIONAL_BIT) = Some (field_type (option A)) ∧
  is_optional (field_type (option A)) = true ∧
  inner (field_type (option A)) = field_type A.
Proof.
  unfold PlainField. intros Hp. cbn [field_type option_field].
  destruct (field_type A); try discriminate Hp; by vm_compute.
Qed.

Section option_laws.
Context {A : Type} `{TraceFieldLaws A} `{!PlainField A}.

Lemma option_decodes (v : option A) :
  match v with Some v => field_valid v | None => True end →
  Inverts (decode_field (field_type (option A))) (encode_field v)
    (match v with Some v => field_value v | None => FieldValue.None end).
Proof.
  destruct (@option_field_type A _ _) as (_ & Ho & Hi).
  intros Hv r. unfold decode_field. rewrite Ho, Hi. destruct v as [v|].
  - cbn [encode_field option_field app]. rewrite pbind_byte.
    change (b2z Byte.x01 =? 0) with false. cbv iota.
    pose proof (field_decodes v Hv r) as Hd. unfold decode_field in Hd.
    by rewrite plain_field in Hd.
  - done.
Qed.

#[global] Instance option_laws : TraceFieldLaws (option A) :=
  { field_valid v := match v with Some v => field_valid v | None => True end;
    field_value v := match v with Some v => field_value v | None => FieldValue.None end;
    field_decodes := option_decodes }.
End option_laws.

#[global] Instance u8_plain : PlainField u8 := eq_refl.
#[global] Instance u16_plain : PlainField u16 := eq_refl.
#[global] Instance u32_plain : PlainField u32 := eq_refl.
#[global] Instance u64_plain : PlainField u64 := eq_refl.
#[global] Instance i64_plain : PlainField i64 := eq_refl.
#[global] Instance f64_plain : PlainField f64 := eq_refl.
#[global] Instance bool_plain : PlainField bool := eq_refl.
#[global] Instance str_plain : PlainField str := eq_refl.
#[global] Instance byte_vec_plain : PlainField byte_vec := eq_refl.
#[global] Instance stack_frames_plain : PlainField StackFrames := eq_refl.
#[global] Instance interned_string_plain : PlainField InternedString := eq_refl.
#[global] Instance interned_stack_frames_plain : PlainField InternedStackFrames := eq_refl.
#[global] Instance string_map_plain : PlainField StringMap := eq_refl.

(** ** The [TraceEvent] trait (src/lib.rs) *)

(** What an event hands to the encoder: the [TypeId] of its Rust type, the
    trait's methods applied to the event, and the bytes [encode_fields]
    appends. *)
Module TraceEvent.
Record t : Type := mk {
  rust_type : positive;
  type_slot : Z;
  schema_entry : Schema.SchemaEntry.t;
  timestamp : Z;
  encode_fields : bytes }.
End TraceEvent.

(** ** Timestamps *)

Lemma encode_timestamp_delta_spec s ts d s' :
  fits 64 ts → fits 64 (EncodeState.timestamp_base_ns s) →
  encode_timestamp_delta s ts = (d, s') →
  EncodeState.timestamp_base_ns s' = ts ∧ fits 24 d ∧
  ((EncodeState.writer s' = EncodeState.writer s ∧ EncodeState.timestamp_base_ns s + d = ts) ∨
   (CountingWriter.inner (EncodeState.writer s')
    = CountingWriter.inner (EncodeState.writer s) ++ TAG_TIMESTAMP_RESET :: put_le 8 ts ∧
    d = 0)).
Proof.
  intros Hts Hb. unfold encode_timestamp_delta, MAX_TIMESTAMP_DELTA_NS. unfold fits in *.
  destruct ((ts <? _) || _) eqn:Ht; intros [= <- <-]; split; try done; bool_facts.
  - split; [lia|]. right. cbn. by rewrite <- app_assoc.
  - unfold cast. rewrite Z.mod_small by lia. split; [lia|]. left. split; [done|lia].
Qed.

(** ** Main properties *)

(** An option of an option is declared with one presence byte and written
    with two, so the decoder takes the second one for the value: a nested
    [Some (Some v)] at [u8] reads as 1 and leaves the value itself behind as
    the start of the next field. *)
Theorem nested_option_misread v r :
  decode_field (field_type (option (option u8)))
    (encode_field (Some (Some (U8 v))) ++ r)
  = Some (FieldValue.Varint 1, z2b v :: r).
Proof. done. Qed.

(** The timestamp delta of an event always fits the three bytes of the
    frame header, and adding it to the base the decoder has at that point,
    after the reset frame if one was needed, gives the event's timestamp back
    exactly, for any order of timestamps. *)
Theorem timestamp_delta_exact s ts d s' :
  fits 64 ts → fits 64 (EncodeState.timestamp_base_ns s) →
  encode_timestamp_delta s ts = (d, s') →
  fits 24 d ∧ EncodeState.timestamp_base_ns s' = ts ∧
  ∃ w, CountingWriter.inner (EncodeState.writer s')
       = CountingWriter.inner (EncodeState.writer s) ++ w ∧
       (w = [] ∧ ts = EncodeState.timestamp_base_ns s + d ∨
        w = TAG_TIMESTAMP_RESET :: put_le 8 ts ∧ ts = ts + d).
Proof.
  intros Hts Hb H. destruct (encode_timestamp_delta_spec s ts d s' Hts Hb H)
    as (Hbase & Hd & [[Hw Hsum]|[Hw ->]]); (split; [done|]); (split; [done|]).
  - exists []. rewrite Hw, app_nil_r. split; [done|]. by left.
  - eexists. split; [done|]. right. split; [done|lia].
Qed.

Example timestamp_delta_exact_witness :
  let s := encode_state_new [] in
  fits 24 (fst (encode_timestamp_delta s 20000000)) ∧
  CountingWriter.inner (EncodeState.writer (snd (encode_timestamp_delta s 20000000)))
  = TAG_TIMESTAMP_RESET :: put_le 8 20000000.
Proof.
  split; [|done].
  refine (proj1 (timestamp_delta_exact (encode_state_new []) 20000000 0
    (snd (encode_timestamp_delta (encode_state_new []) 20000000)) _ _ _)); by vm_compute.
Defined.
