(* ===== verification/Encoder.v ===== *)
(** * The trace encoder (dial9-trace-format/src/encoder.rs)

    [Encoder<Vec<u8>>]: the record, its operations in a state-and-error monad
    (an operation that fails keeps the changes it made, as [&mut self]
    methods do), [RawEncoder].  A [HashMap] is a finite map; [registered_ids]
    is its four words; an [Arc]'s address is an integer. *)

From Stdlib Require Import ZArith Lia.
From stdpp Require Import base list gmap sets strings option.
From coqutil Require Import Byte Word.LittleEndianList.
From S2P Require Import Prelude.
From S2P Require Import Leb128.
From S2P Require Import Utf8.
From S2P Require Import FieldType.
From S2P Require Import FieldValue.
From S2P Require Import Schema.
From S2P Require Import Codec.
From S2P Require Import EventEncoder.

(** [io::Error] by kind; [Panic] is the [expect] of a registration. *)
Inductive enc_error : Set :=
| InvalidInput
| Other
| Panic.

(** A [Schema] handle: the shared entry, the address of its [Arc], the name
    used as a key. *)
Module SchemaHandle.
Record t : Type := mk { entry : SchemaEntry.t; arc : Z; name_key : bytes }.
End SchemaHandle.

(** [Schema::new] and [Schema::from_entry], the [Arc] allocated at [arc]. *)
Definition handle_from_entry (arc : Z) (entry : SchemaEntry.t) : SchemaHandle.t :=
  SchemaHandle.mk entry arc (SchemaEntry.name entry).

Definition handle_new (arc : Z) (name : bytes) (fields : list FieldDef.t) : SchemaHandle.t :=
  SchemaHandle.mk (SchemaEntry.mk name fields []) arc name.

Inductive SchemaKey : Type :=
| Name (name : bytes)
| RustType (id : positive).

#[global] Instance schema_key_eq_dec : EqDecision SchemaKey.
Proof. solve_decision. Defined.

#[global] Instance schema_key_countable : Countable SchemaKey.
Proof.
  refine (inj_countable'
    (λ k, match k with Name n => inl n | RustType i => inr i end)
    (λ s, match s with inl n => Name n | inr i => RustType i end) _).
  by intros [].
Defined.

Definition DYNAMIC_SCHEMA_CACHE_LIMIT : Z := 1024.

Module Encoder.
Record t : Type := mk {
  state : EncodeState.t;
  registry : SchemaRegistry.t;
  string_pool : gmap bytes Z;
  next_pool_id : Z;
  stack_pool : gmap (list Z) Z;
  next_stack_pool_id : Z;
  schema_ids : gmap SchemaKey Z;
  dynamic_schema_cache : gmap Z (SchemaEntry.t * Z);
  slot_cache : list Z;
  registered_ids : list Z }.

Definition set_state (e : t) (s : EncodeState.t) : t :=
  mk s (registry e) (string_pool e) (next_pool_id e) (stack_pool e) (next_stack_pool_id e)
    (schema_ids e) (dynamic_schema_cache e) (slot_cache e) (registered_ids e).

Definition set_registry (e : t) (r : SchemaRegistry.t) : t :=
  mk (state e) r (string_pool e) (next_pool_id e) (stack_pool e) (next_stack_pool_id e)
    (schema_ids e) (dynamic_schema_cache e) (slot_cache e) (registered_ids e).

Definition set_strings (e : t) (p : gmap bytes Z) (n : Z) : t :=
  mk (state e) (registry e) p n (stack_pool e) (next_stack_pool_id e)
    (schema_ids e) (dynamic_schema_cache e) (slot_cache e) (registered_ids e).

Definition set_stacks (e : t) (p : gmap (list Z) Z) (n : Z) : t :=
  mk (state e) (registry e) (string_pool e) (next_pool_id e) p n
    (schema_ids e) (dynamic_schema_cache e) (slot_cache e) (registered_ids e).

Definition set_schema_ids (e : t) (m : gmap SchemaKey Z) : t :=
  mk (state e) (registry e) (string_pool e) (next_pool_id e) (stack_pool e)
    (next_stack_pool_id e) m (dynamic_schema_cache e) (slot_cache e) (registered_ids e).

Definition set_cache (e : t) (m : gmap Z (SchemaEntry.t * Z)) : t :=
  mk (state e) (registry e) (string_pool e) (next_pool_id e) (stack_pool e)
    (next_stack_pool_id e) (schema_ids e) m (slot_cache e) (registered_ids e).

Definition set_slots (e : t) (l : list Z) : t :=
  mk (state e) (registry e) (string_pool e) (next_pool_id e) (stack_pool e)
    (next_stack_pool_id e) (schema_ids e) (dynamic_schema_cache e) l (registered_ids e).

Definition set_registered (e : t) (l : list Z) : t :=
  mk (state e) (registry e) (string_pool e) (next_pool_id e) (stack_pool e)
    (next_stack_pool_id e) (schema_ids e) (dynamic_schema_cache e) (slot_cache e) l.
End Encoder.

(** ** The monad of [&mut self] methods that return [io::Result] *)

Definition enc (A : Type) : Type := Encoder.t → result A enc_error * Encoder.t.

Definition ret {A} (x : A) : enc A := λ e, (Ok x, e).
Definition fail {A} (err : enc_error) : enc A := λ e, (Err err, e).
Definition bind {A B} (m : enc A) (k : A → enc B) : enc B :=
  λ e, match m e with
       | (Ok x, e) => k x e
       | (Err err, e) => (Err err, e)
       end.
Definition get {A} (f : Encoder.t → A) : enc A := λ e, (Ok (f e), e).
Definition modify (f : Encoder.t → Encoder.t) : enc unit := λ e, (Ok tt, f e).

Notation "'let!' x ':=' m 'in' k" := (bind m (λ x, k))
  (at level 10, x binder, m at level 200, k at level 200).
Notation "'do!' m 'in' k" := (bind m (λ _, k))
  (at level 10, m at level 200, k at level 200).

(** [self.state.writer.write_all(w)?]. *)
Definition emit (w : bytes) : enc unit :=
  modify (λ e, Encoder.set_state e (state_write (Encoder.state e) w)).

(** ** Construction *)

Definition encoder_blank (s : EncodeState.t) : Encoder.t :=
  Encoder.mk s registry_new ∅ 0 ∅ 0 ∅ ∅ [] [0; 0; 0; 0].

(** [Encoder::new_to(writer)]; [Encoder::new()] is [new_to(Vec::new())]. *)
Definition encoder_new_to (writer : bytes) : Encoder.t :=
  encoder_blank (state_write (encode_state_new writer) encode_header).

Definition encoder_new : Encoder.t := encoder_new_to [].

Definition into_inner (e : Encoder.t) : bytes :=
  CountingWriter.inner (EncodeState.writer (Encoder.state e)).

Definition finish (e : Encoder.t) : bytes := into_inner e.

Definition bytes_written (e : Encoder.t) : Z :=
  CountingWriter.bytes_written (EncodeState.writer (Encoder.state e)).

(** [from_decoder]; the pools are given as the lists their [into_iter]
    yields, in whatever order the hash map has. *)
Definition from_decoder (registry : SchemaRegistry.t) (string_pool : list (Z * bytes))
    (stack_pool : list (Z * list Z)) (timestamp_base_ns : Z) (writer : bytes) : Encoder.t :=
  let '(pool, next_pool_id) :=
    foldl (λ '(pool, next) '(id, value),
             (<[value := id]> pool, if id >=? next then wrapping_add 32 id 1 else next))
      (∅, 0) string_pool in
  let '(stacks, next_stack_pool_id) :=
    foldl (λ '(pool, next) '(id, frames),
             (<[frames := id]> pool, if id >=? next then wrapping_add 32 id 1 else next))
      (∅, 0) stack_pool in
  let schema_ids :=
    map_fold (λ wire_id entry (ids : gmap SchemaKey Z),
                <[Name (SchemaEntry.name entry) := wire_id]> ids)
      ∅ (SchemaRegistry.schemas registry) in
  Encoder.mk (set_ts_base_unchecked (encode_state_new writer) timestamp_base_ns)
    (sync_next_id registry) pool next_pool_id stacks next_stack_pool_id schema_ids ∅ []
    [0; 0; 0; 0].

(** [reset_to(new_writer)]: the old writer, and the encoder as new except for
    the allocated length of the slot cache. *)
Definition reset_to (new_writer : bytes) : enc bytes := λ e,
  (Ok (into_inner e),
   Encoder.mk (state_write (encode_state_new new_writer) encode_header)
     (registry_clear (Encoder.registry e)) ∅ 0 ∅ 0 ∅ ∅
     (map (λ _, 0) (Encoder.slot_cache e)) (map (λ _, 0) (Encoder.registered_ids e))).

(** ** Registration *)

(** Schema frame, then the annotations frame when there are annotations. *)
Definition emit_schema (id : Z) (entry : SchemaEntry.t) : enc unit :=
  do! emit (encode_schema id entry) in
  match SchemaEntry.annotations entry with
  | [] => ret tt
  | l => match encode_schema_annotations id l with
         | Some w => emit w
         | None => fail InvalidInput
         end
  end.

Definition ensure_registered_slow (schema : SchemaHandle.t) : enc Z :=
  let key := Name (SchemaHandle.name_key schema) in
  let! found := get (λ e, Encoder.schema_ids e !! key) in
  match found with
  | Some wire_id =>
      let! existing := get (λ e, registry_get (Encoder.registry e) wire_id) in
      match existing with
      | None => fail Other
      | Some existing =>
          if decide (existing = SchemaHandle.entry schema) then ret wire_id
          else fail InvalidInput
      end
  | None =>
      let! id := (λ e, let '(id, r) := next_type_id (Encoder.registry e) in
                       (Ok id, Encoder.set_registry e r)) in
      do! emit_schema id (SchemaHandle.entry schema) in
      let! registered := get (λ e, register (Encoder.registry e) id (SchemaHandle.entry schema)) in
      match registered with
      | None => fail Panic
      | Some r =>
          do! modify (λ e, Encoder.set_registry e r) in
          do! modify (λ e, Encoder.set_schema_ids e (<[key := id]> (Encoder.schema_ids e))) in
          ret id
      end
  end.

Definition ensure_registered (schema : SchemaHandle.t) : enc Z :=
  let identity := SchemaHandle.arc schema in
  let! cached := get (λ e, Encoder.dynamic_schema_cache e !! identity) in
  match cached with
  | Some (_, wire_id) => ret wire_id
  | None =>
      let! wire_id := ensure_registered_slow schema in
      do! modify (λ e,
            if Z.of_nat (size (Encoder.dynamic_schema_cache e)) >=? DYNAMIC_SCHEMA_CACHE_LIMIT
            then Encoder.set_cache e ∅ else e) in
      do! modify (λ e, Encoder.set_cache e
            (<[identity := (SchemaHandle.entry schema, wire_id)]>
               (Encoder.dynamic_schema_cache e))) in
      ret wire_id
  end.

(** [register_existing]. *)
Definition register_existing (schema : SchemaHandle.t) : enc Z := ensure_registered schema.

(** [register_schema]: the handle, its [Arc] allocated at [arc]. *)
Definition register_schema (arc : Z) (name : bytes) (fields : list FieldDef.t)
    : enc SchemaHandle.t :=
  let schema := handle_new arc name fields in
  do! ensure_registered schema in ret schema.

(** ** Events *)

(** [self.state.encode_timestamp_delta(ts)?]. *)
Definition timestamp_delta (ts : Z) : enc Z := λ e,
  let '(d, s) := encode_timestamp_delta (Encoder.state e) ts in (Ok d, Encoder.set_state e s).

Definition emit_event_header (type_id ts_delta : Z) : enc unit :=
  do! emit [TAG_EVENT] in do! emit (put_le 2 type_id) in emit (encode_u24_le ts_delta).

Fixpoint emit_fields (values : list FieldValue.t) (fields : list FieldDef.t) : enc unit :=
  match values, fields with
  | v :: values, f :: fields =>
      do! emit (write_field_value v (FieldDef.field_type f)) in emit_fields values fields
  | _, _ => ret tt
  end.

Definition write_event (schema : SchemaHandle.t) (timestamp_ns : Z)
    (values : list FieldValue.t) : enc unit :=
  let! type_id := ensure_registered schema in
  let fields := SchemaEntry.fields (SchemaHandle.entry schema) in
  if bool_decide (length values ≠ length fields) then fail InvalidInput else
  let! ts_delta := timestamp_delta timestamp_ns in
  do! emit_event_header type_id ts_delta in
  emit_fields values fields.

(** Which bit of [registered_ids] a slot is. *)
Definition slot_bit (ids : list Z) (slot : Z) : bool :=
  negb (Z.land (nth (Z.to_nat (Z.shiftr slot 6)) ids 0)
               (Z.shiftl 1 (Z.land slot 63)) =? 0).

Definition set_slot_bit (ids : list Z) (slot : Z) : list Z :=
  alter (λ w, Z.lor w (Z.shiftl 1 (Z.land slot 63))) (Z.to_nat (Z.shiftr slot 6)) ids.

Definition register_fast_id (ev : TraceEvent.t) (id : Z) : enc unit :=
  let entry := TraceEvent.schema_entry ev in
  do! emit_schema id entry in
  let! registered := get (λ e, register (Encoder.registry e) id entry) in
  match registered with
  | None => fail InvalidInput
  | Some r =>
      do! modify (λ e, Encoder.set_registry e r) in
      modify (λ e, Encoder.set_registered e (set_slot_bit (Encoder.registered_ids e) id))
  end.

(** [slot_cache.resize(slot + 1, 0)] when short, then [slot_cache[slot] = v]. *)
Definition slot_cache_set (l : list Z) (slot : nat) (v : Z) : list Z :=
  <[slot := v]> (if (length l <=? slot)%nat then l ++ replicate (S slot - length l) 0 else l).

(** [arc] is where [Schema::from_entry] allocates, when it is called. *)
Definition resolve_dynamic_wire_id (ev : TraceEvent.t) (slot : Z) (arc : Z) : enc Z :=
  let key := RustType (TraceEvent.rust_type ev) in
  let! found := get (λ e, Encoder.schema_ids e !! key) in
  let! tid :=
    match found with
    | Some existing => ret existing
    | None =>
        let! id := ensure_registered (handle_from_entry arc (TraceEvent.schema_entry ev)) in
        do! modify (λ e, Encoder.set_schema_ids e (<[key := id]> (Encoder.schema_ids e))) in
        ret id
    end in
  do! modify (λ e,
        if slot =? 0 then e else
        Encoder.set_slots e (slot_cache_set (Encoder.slot_cache e) (Z.to_nat slot) (tid + 1))) in
  ret tid.

Definition write (ev : TraceEvent.t) (arc : Z) : enc unit :=
  let slot := TraceEvent.type_slot ev in
  let! tid :=
    if negb (slot =? 0) && (slot <? STATIC_WIRE_ID_LIMIT) then
      let! registered := get (λ e, slot_bit (Encoder.registered_ids e) slot) in
      do! (if registered then ret tt else register_fast_id ev slot) in
      ret slot
    else
      let! cached := get (λ e, nth (Z.to_nat slot) (Encoder.slot_cache e) 0) in
      if negb (cached =? 0) then ret (cast 16 (cached - 1))
      else resolve_dynamic_wire_id ev slot arc in
  let! ts_delta := timestamp_delta (TraceEvent.timestamp ev) in
  do! emit_event_header tid ts_delta in
  emit (TraceEvent.encode_fields ev).

(** ** Interning *)

Definition intern_string (s : bytes) : enc Z :=
  let! found := get (λ e, Encoder.string_pool e !! s) in
  match found with
  | Some id => ret id
  | None =>
      let! id := get Encoder.next_pool_id in
      do! modify (λ e, Encoder.set_strings e (<[s := id]> (Encoder.string_pool e))
                         (wrapping_add 32 id 1)) in
      do! emit (encode_string_pool [PoolEntry.mk id s]) in
      ret id
  end.

Definition write_string_pool (entries : list PoolEntry.t) : enc unit :=
  emit (encode_string_pool entries).

Definition intern_stack_frames (frames : list Z) : enc Z :=
  let! found := get (λ e, Encoder.stack_pool e !! frames) in
  match found with
  | Some id => ret id
  | None =>
      let! id := get Encoder.next_stack_pool_id in
      do! modify (λ e, Encoder.set_stacks e (<[frames := id]> (Encoder.stack_pool e))
                         (wrapping_add 32 id 1)) in
      do! emit (encode_stack_pool [StackPoolEntry.mk id frames]) in
      ret id
  end.

Definition write_stack_pool (entries : list StackPoolEntry.t) : enc unit :=
  emit (encode_stack_pool entries).

(** ** [RawEncoder] *)

Module RawEncoder.
Record t : Type := mk { writer : CountingWriter.t }.
End RawEncoder.

Definition into_raw_encoder (e : Encoder.t) : RawEncoder.t :=
  RawEncoder.mk (EncodeState.writer (Encoder.state e)).

Definition write_raw (r : RawEncoder.t) (w : bytes) : RawEncoder.t :=
  RawEncoder.mk (write_all (RawEncoder.writer r) w).

Definition raw_bytes_written (r : RawEncoder.t) : Z :=
  CountingWriter.bytes_written (RawEncoder.writer r).

Definition raw_into_inner (r : RawEncoder.t) : bytes :=
  CountingWriter.inner (RawEncoder.writer r).

(** ** The bitset of registered slots *)

Lemma testbit_shiftl_1 k i : 0 <= k → 0 <= i → Z.testbit (Z.shiftl 1 k) i = (i =? k).
Proof.
  intros Hk Hi. rewrite Z.shiftl_1_l. rewrite Z.pow2_bits_eqb by done. apply Z.eqb_sym.
Qed.

Lemma land_bit_testbit w k : 0 <= k → negb (Z.land w (Z.shiftl 1 k) =? 0) = Z.testbit w k.
Proof.
  intros Hk. destruct (Z.testbit w k) eqn:E.
  - apply negb_true_iff, Z.eqb_neq. intros H.
    assert (Z.testbit (Z.land w (Z.shiftl 1 k)) k = false) as Hf
      by (rewrite H; apply Z.bits_0).
    rewrite Z.land_spec, E, testbit_shiftl_1, Z.eqb_refl in Hf by done. done.
  - apply negb_false_iff, Z.eqb_eq. apply Z.bits_inj'. intros i Hi.
    rewrite Z.land_spec, Z.bits_0, testbit_shiftl_1 by done.
    destruct (Z.eqb_spec i k) as [->|]; [by rewrite E|by rewrite andb_false_r].
Qed.

Lemma slot_word_bit slot :
  0 <= slot → Z.shiftr slot 6 = slot / 64 ∧ Z.land slot 63 = slot mod 64.
Proof.
  intros. rewrite Z.shiftr_div_pow2 by lia. split; [done|].
  change 63 with (Z.ones 6). by rewrite Z.land_ones.
Qed.

Lemma slot_bit_testbit ids slot :
  0 <= slot → slot_bit ids slot = Z.testbit (nth (Z.to_nat (slot / 64)) ids 0) (slot mod 64).
Proof.
  intros Hs. unfold slot_bit. destruct (slot_word_bit slot Hs) as [-> ->].
  apply land_bit_testbit. by apply Z.mod_pos_bound.
Qed.

Lemma nth_alter (f : Z → Z) (l : list Z) i j :
  (i < length l)%nat → nth j (alter f i l) 0 = if decide (j = i) then f (nth i l 0) else nth j l 0.
Proof.
  intros Hi. rewrite !nth_lookup. destruct (decide (j = i)) as [->|Hne].
  - rewrite list_lookup_alter_eq. by destruct (lookup_lt_is_Some_2 l i Hi) as [x ->].
  - by rewrite list_lookup_alter_ne.
Qed.

(** Setting a slot's bit sets that one and no other. *)
Lemma slot_bit_set ids slot slot' :
  0 <= slot < 256 → 0 <= slot' < 256 → length ids = 4%nat →
  slot_bit (set_slot_bit ids slot) slot' = (slot' =? slot) || slot_bit ids slot'.
Proof.
  intros Hs Hs' Hl. rewrite !slot_bit_testbit by lia. unfold set_slot_bit.
  destruct (slot_word_bit slot) as [-> ->]; [lia|].
  rewrite nth_alter.
  2:{ rewrite Hl. assert (slot / 64 < 4) by (apply Z.div_lt_upper_bound; lia).
      assert (0 <= slot / 64) by (apply Z.div_pos; lia). lia. }
  assert (0 <= slot / 64) by (apply Z.div_pos; lia).
  assert (0 <= slot' / 64) by (apply Z.div_pos; lia).
  pose proof (Z.mod_pos_bound slot 64). pose proof (Z.mod_pos_bound slot' 64).
  pose proof (Z.div_mod slot 64). pose proof (Z.div_mod slot' 64).
  destruct (decide (Z.to_nat (slot' / 64) = Z.to_nat (slot / 64))) as [E|E].
  - rewrite Z.lor_spec, testbit_shiftl_1, orb_comm by lia. rewrite E. f_equal.
    apply Z2Nat.inj in E; [|lia..].
    destruct (Z.eqb_spec (slot' mod 64) (slot mod 64)), (Z.eqb_spec slot' slot);
      try done; exfalso; lia.
  - destruct (Z.eqb_spec slot' slot) as [->|]; [done|]. done.
Qed.

Lemma slot_cache_set_lookup l slot v i c :
  slot_cache_set l slot v !! i = Some c → c ≠ 0 →
  (i = slot ∧ c = v) ∨ (i ≠ slot ∧ l !! i = Some c).
Proof.
  unfold slot_cache_set. intros H Hc. apply list_lookup_insert_Some in H.
  destruct H as [(-> & -> & _)|[Hne H]]; [by left|]. right. split; [done|].
  destruct (length l <=? slot)%nat; [|done].
  apply lookup_app_Some in H as [H|[_ H]]; [done|].
  apply lookup_replicate in H as [-> _]. done.
Qed.
