(* ===== verification/Stream.v ===== *)
(** * The encoder and the decoder of a stream agree

    A decoder that has read everything an encoder has written so far mirrors
    the encoder's state ([mirrors]); each operation keeps it so, and what it
    wrote decodes to what it was asked to write.  The stream-level theorems
    follow by induction on the operations. *)

From Stdlib Require Import ZArith Lia.
From stdpp Require Import base list gmap sets strings option.
From coqutil Require Import Byte Word.LittleEndianList.
From S2P Require Import Prelude.
From S2P Require Import Leb128.
From S2P Require Import Utf8.
From S2P Require Import FieldType.
From S2P Require Import FieldValue.
From S2P Require Import FieldValueRef.
From S2P Require Import Schema.
From S2P Require Import Codec.
From S2P Require Import Decoder.
From S2P Require Import EventEncoder.
From S2P Require Import Encoder.

(** ** What a piece of stream decodes to *)

(** Reading [w] takes [d] to [d'] and yields the frames [fs], whatever comes
    after [w]. *)
Definition yields (d : Decoder.t) (w : bytes) (fs : list DecodedFrame.t) (d' : Decoder.t)
    : Prop :=
  ∀ r, decode_all (feed d (w ++ r))
       = (fs ++ fst (decode_all (feed d' r)), snd (decode_all (feed d' r))).

Lemma yields_nil d : yields d [] [] d.
Proof. intros r. rewrite !app_nil_l. apply surjective_pairing. Qed.

Lemma yields_app d w fs d1 w' fs' d2 :
  yields d w fs d1 → yields d1 w' fs' d2 → yields d (w ++ w') (fs ++ fs') d2.
Proof.
  intros H1 H2 r. rewrite <- app_assoc, H1, H2. cbn. by rewrite app_assoc.
Qed.

(** [d] past [n] more bytes. *)
Definition skip (d : Decoder.t) (n : Z) : Decoder.t :=
  Decoder.set_input d (Decoder.pos d + n) (Decoder.rest d).

Lemma yields_frame d w frame f d1 :
  Inverts (decode_frame (schema_info d) (Decoder.timestamp_base_ns d)) w frame →
  handle_frame frame d = (Some (Ok (Some f)), d1) →
  yields d w [f] (skip d1 (blen w)).
Proof.
  intros Hw Hh r.
  rewrite (decode_all_step (feed d (w ++ r)) w r frame eq_refl (Hw r)).
  pose proof (handle_frame_pos frame d) as Hp. rewrite Hh in Hp. cbn in Hp.
  change (Decoder.set_input (feed d (w ++ r)) (Decoder.pos (feed d (w ++ r)) + blen w) r)
    with (feed (Decoder.set_input d (Decoder.pos d + blen w) (Decoder.rest d)) r).
  rewrite handle_frame_feed.
  assert (handle_frame frame (Decoder.set_input d (Decoder.pos d + blen w) (Decoder.rest d))
          = (Some (Ok (Some f)), skip d1 (blen w))) as ->.
  { destruct frame; cbn in Hh |- *; try (by injection Hh as <- <-).
    unfold Decoder.register_schema in *. cbn in Hh |- *.
    by destruct (register _ _ _); simplify_eq. }
  cbn [fst snd]. by destruct (decode_all _).
Qed.

Lemma yields_reset d ts :
  fits 64 ts →
  yields d (TAG_TIMESTAMP_RESET :: put_le 8 ts) []
    (skip (Decoder.set_base d ts) (blen (TAG_TIMESTAMP_RESET :: put_le 8 ts))).
Proof.
  intros Hts r. set (w := TAG_TIMESTAMP_RESET :: put_le 8 ts).
  rewrite (decode_all_step (feed d (w ++ r)) w r (Frame.TimestampReset ts) eq_refl
             (decode_timestamp_reset_inverts ts _ _ Hts r)).
  cbn [handle_frame app]. change (feed (skip (Decoder.set_base d ts) (blen w)) r)
    with (Decoder.set_base (Decoder.set_input (feed d (w ++ r))
            (Decoder.pos (feed d (w ++ r)) + blen w) r) ts).
  by destruct (decode_all _).
Qed.

Definition tags_of (e : SchemaEntry.t) : list Z :=
  map (λ f, tag_of (FieldDef.field_type f)) (SchemaEntry.fields e).

(** ** The correspondence *)

Record mirrors (e : Encoder.t) (d : Decoder.t) : Prop := {
  mirror_schemas :
    SchemaRegistry.schemas (Decoder.registry d) = SchemaRegistry.schemas (Encoder.registry e);
  mirror_info id entry :
    SchemaRegistry.schemas (Encoder.registry e) !! id = Some entry →
    schema_info d id = Some (SchemaInfo.mk (tags_of entry) true);
  mirror_base :
    Decoder.timestamp_base_ns d = EncodeState.timestamp_base_ns (Encoder.state e);
  mirror_strings s id :
    Encoder.string_pool e !! s = Some id → Decoder.string_pool d !! id = Some s;
  mirror_stacks l id :
    Encoder.stack_pool e !! l = Some id → Decoder.stack_pool d !! id = Some l }.

(** The encoder's own invariant: ids are in range and fresh, and every path to
    a wire id (name, type, identity cache) leads to a registered schema.
    [type_entry] and [slot_entry] are the schemas of the program's types, by
    [TypeId] and by slot. *)
Section encoder_invariant.
Variable type_entry : positive → SchemaEntry.t.
Variable slot_entry : Z → SchemaEntry.t.

Record encoder_ok (e : Encoder.t) : Prop := {
  ok_registry : registry_ok (Encoder.registry e);
  ok_ids id entry :
    SchemaRegistry.schemas (Encoder.registry e) !! id = Some entry → fits 16 id;
  ok_names n id :
    Encoder.schema_ids e !! Name n = Some id →
    ∃ entry, SchemaRegistry.schemas (Encoder.registry e) !! id = Some entry ∧
             SchemaEntry.name entry = n;
  ok_types t id :
    Encoder.schema_ids e !! RustType t = Some id →
    SchemaRegistry.schemas (Encoder.registry e) !! id = Some (type_entry t);
  ok_cache a entry id :
    Encoder.dynamic_schema_cache e !! a = Some (entry, id) →
    SchemaRegistry.schemas (Encoder.registry e) !! id = Some entry;
  ok_slots i c :
    Encoder.slot_cache e !! i = Some c → c ≠ 0 →
    i ≠ 0%nat ∧ SchemaRegistry.schemas (Encoder.registry e) !! (c - 1)
                = Some (slot_entry (Z.of_nat i));
  ok_bits slot :
    0 < slot < STATIC_WIRE_ID_LIMIT →
    slot_bit (Encoder.registered_ids e) slot = true →
    SchemaRegistry.schemas (Encoder.registry e) !! slot = Some (slot_entry slot);
  ok_unset slot :
    0 < slot < STATIC_WIRE_ID_LIMIT →
    slot_bit (Encoder.registered_ids e) slot = false →
    SchemaRegistry.schemas (Encoder.registry e) !! slot = None;
  ok_words : length (Encoder.registered_ids e) = 4%nat;
  ok_base : fits 64 (EncodeState.timestamp_base_ns (Encoder.state e));
  ok_strings s id : Encoder.string_pool e !! s = Some id → 0 <= id < Encoder.next_pool_id e;
  ok_next_string : fits 32 (Encoder.next_pool_id e);
  ok_stacks l id :
    Encoder.stack_pool e !! l = Some id → 0 <= id < Encoder.next_stack_pool_id e;
  ok_next_stack : fits 32 (Encoder.next_stack_pool_id e) }.
End encoder_invariant.

(** ** Runs of the encoder's steps as equations *)

Lemma write_all_app w a b : write_all (write_all w a) b = write_all w (a ++ b).
Proof.
  unfold write_all. cbn. rewrite blen_app, app_assoc. f_equal. lia.
Qed.

Lemma state_write_app s a b : state_write (state_write s a) b = state_write s (a ++ b).
Proof. unfold state_write. cbn. by rewrite write_all_app. Qed.

Lemma state_write_nil s : state_write s [] = s.
Proof.
  destruct s as [[]]. unfold state_write, write_all. cbn.
  by rewrite app_nil_r, Z.add_0_r.
Qed.

(** The encoder after writing [w]. *)
Definition wrote (e : Encoder.t) (w : bytes) : Encoder.t :=
  Encoder.set_state e (state_write (Encoder.state e) w).

Lemma emit_run w e : emit w e = (Ok tt, wrote e w).
Proof. done. Qed.

Lemma wrote_wrote e a b : wrote (wrote e a) b = wrote e (a ++ b).
Proof. unfold wrote. cbn. by rewrite state_write_app. Qed.

Lemma wrote_nil e : wrote e [] = e.
Proof. unfold wrote. rewrite state_write_nil. by destruct e. Qed.

Lemma into_inner_wrote e w : into_inner (wrote e w) = into_inner e ++ w.
Proof. done. Qed.

(** The frames a schema is announced with. *)
Definition schema_bytes (id : Z) (entry : SchemaEntry.t) : bytes :=
  encode_schema id entry
  ++ match SchemaEntry.annotations entry with
     | [] => []
     | l => default [] (encode_schema_annotations id l)
     end.

Lemma entry_ok_annotations entry :
  entry_ok entry = true →
  blen (SchemaEntry.annotations entry) < 2 ^ 16 ∧
  forallb annotation_ok (SchemaEntry.annotations entry) = true.
Proof. unfold entry_ok. intros H. apply andb_true_iff in H as [_ H]. by bool_facts. Qed.

Lemma encode_annotations_some id l :
  blen l < 2 ^ 16 → ∃ w, encode_schema_annotations id l = Some w.
Proof.
  intros H. unfold encode_schema_annotations.
  destruct (Z.ltb_spec (blen l) (2 ^ 16)); [eauto|lia].
Qed.

Lemma emit_schema_run id entry e :
  entry_ok entry = true → emit_schema id entry e = (Ok tt, wrote e (schema_bytes id entry)).
Proof.
  intros H. apply entry_ok_annotations in H as [Hl _].
  unfold emit_schema, schema_bytes, bind. rewrite emit_run.
  destruct (SchemaEntry.annotations entry) as [|a l].
  - by rewrite app_nil_r.
  - destruct (encode_annotations_some id (a :: l) Hl) as [w ->].
    by rewrite emit_run, wrote_wrote.
Qed.

Lemma emit_fields_run values fields e :
  length values = length fields →
  emit_fields values fields e
  = (Ok tt, wrote e (put_fields values (map FieldDef.field_type fields))).
Proof.
  unfold put_fields. revert fields e.
  induction values as [|v values IH]; intros [|f fields] e Hlen; try done.
  - by rewrite wrote_nil.
  - cbn [emit_fields]. unfold bind at 1. rewrite emit_run, IH by (cbn in Hlen; lia).
    rewrite wrote_wrote. done.
Qed.

Lemma emit_event_header_run id delta e :
  emit_event_header id delta e
  = (Ok tt, wrote e ([TAG_EVENT] ++ put_le 2 id ++ encode_u24_le delta)).
Proof.
  unfold emit_event_header, bind. by rewrite !emit_run, !wrote_wrote.
Qed.

(** Timestamp, header and body of an event, as [write] and [write_event] end. *)
Definition write_frame (id ts : Z) (fields : bytes) : enc unit :=
  let! delta := timestamp_delta ts in do! emit_event_header id delta in emit fields.

Definition set_base (e : Encoder.t) (ts : Z) : Encoder.t :=
  Encoder.set_state e (set_ts_base_unchecked (Encoder.state e) ts).

Lemma timestamp_delta_run ts e :
  fits 64 ts → fits 64 (EncodeState.timestamp_base_ns (Encoder.state e)) →
  ∃ delta w, timestamp_delta ts e = (Ok delta, set_base (wrote e w) ts) ∧ fits 24 delta ∧
    (w = [] ∧ EncodeState.timestamp_base_ns (Encoder.state e) + delta = ts ∨
     w = TAG_TIMESTAMP_RESET :: put_le 8 ts ∧ delta = 0).
Proof.
  intros Hts Hb. unfold timestamp_delta, encode_timestamp_delta, MAX_TIMESTAMP_DELTA_NS.
  unfold fits in *. set (base := EncodeState.timestamp_base_ns (Encoder.state e)) in *.
  destruct ((ts <? base) || _) eqn:Ht; bool_facts.
  - exists 0, (TAG_TIMESTAMP_RESET :: put_le 8 ts). rewrite state_write_app.
    split; [done|]. split; [lia|]. by right.
  - exists (cast 32 (ts - base)), []. rewrite wrote_nil. split; [done|].
    unfold cast. rewrite Z.mod_small by lia. split; [lia|]. left. split; [done|lia].
Qed.

Lemma write_frame_run id ts fields e :
  fits 64 ts → fits 64 (EncodeState.timestamp_base_ns (Encoder.state e)) →
  ∃ delta w,
    write_frame id ts fields e
    = (Ok tt, set_base (wrote e (w ++ event_frame id delta fields)) ts) ∧ fits 24 delta ∧
    (w = [] ∧ EncodeState.timestamp_base_ns (Encoder.state e) + delta = ts ∨
     w = TAG_TIMESTAMP_RESET :: put_le 8 ts ∧ delta = 0).
Proof.
  intros Hts Hb. destruct (timestamp_delta_run ts e Hts Hb) as (delta & w & Hrun & Hd & Hw).
  exists delta, w. split; [|by split]. unfold write_frame, bind at 1. rewrite Hrun.
  unfold bind. rewrite emit_event_header_run, emit_run, wrote_wrote.
  unfold wrote, set_base. cbn. unfold set_ts_base_unchecked, state_write. cbn.
  rewrite write_all_app. unfold event_frame. rewrite <- !app_assoc. done.
Qed.

(** ** The decoder's side of each frame *)

(** The events among decoded frames. *)
Definition events_of (fs : list DecodedFrame.t) : list (Z * Z * list FieldValue.t) :=
  omap (λ f, match f with
             | DecodedFrame.Event id ts vs => Some (id, ts, vs)
             | _ => None
             end) fs.

Lemma events_of_app fs gs : events_of (fs ++ gs) = events_of fs ++ events_of gs.
Proof. apply omap_app. Qed.

(** What reading a schema announcement does to the decoder. *)
Record learns (d d' : Decoder.t) (id : Z) (entry : SchemaEntry.t) : Prop := {
  learns_schemas :
    SchemaRegistry.schemas (Decoder.registry d')
    = <[id := entry]> (SchemaRegistry.schemas (Decoder.registry d));
  learns_info i :
    0 <= i → schema_info d' i
    = if decide (i = id) then Some (SchemaInfo.mk (tags_of entry) true) else schema_info d i;
  learns_base : Decoder.timestamp_base_ns d' = Decoder.timestamp_base_ns d;
  learns_strings : Decoder.string_pool d' = Decoder.string_pool d;
  learns_stacks : Decoder.stack_pool d' = Decoder.stack_pool d }.

Definition without_annotations (e : SchemaEntry.t) : SchemaEntry.t :=
  SchemaEntry.mk (SchemaEntry.name e) (SchemaEntry.fields e) [].

Lemma schema_frame_yields d id entry :
  fits 16 id → entry_ok entry = true →
  SchemaRegistry.schemas (Decoder.registry d) !! id = None →
  ∃ d', yields d (encode_schema id entry)
          [DecodedFrame.Schema (without_annotations entry)] d' ∧
        learns d d' id (without_annotations entry).
Proof.
  intros Hid Hok Hnone. unfold fits in Hid.
  destruct (register (Decoder.registry d) id (without_annotations entry)) as [r|] eqn:Hr.
  2:{ unfold register in Hr. by rewrite Hnone in Hr. }
  eexists. split.
  - eapply yields_frame; [by apply decode_schema_inverts|].
    cbn [handle_frame]. unfold Decoder.register_schema.
    change (SchemaEntry.mk (SchemaEntry.name entry) (SchemaEntry.fields entry) [])
      with (without_annotations entry). by rewrite Hr.
  - apply register_get in Hr as [Hs _]. split; try done.
    intros i Hi. unfold schema_info, cache_get. cbn. rewrite cache_set_get.
    destruct (decide (Z.to_nat i = Z.to_nat id)), (decide (i = id)); try done; exfalso; lia.
Qed.

Lemma annotations_frame_yields d id entry w :
  fits 16 id → forallb annotation_ok (SchemaEntry.annotations entry) = true →
  encode_schema_annotations id (SchemaEntry.annotations entry) = Some w →
  SchemaRegistry.schemas (Decoder.registry d) !! id = Some (without_annotations entry) →
  schema_info d id = Some (SchemaInfo.mk (tags_of entry) true) →
  ∃ d', yields d w [DecodedFrame.SchemaAnnotations id (SchemaEntry.annotations entry)] d' ∧
        learns d d' id entry.
Proof.
  intros Hid Hok Hw Hs Hi. unfold fits in Hid. eexists. split.
  - eapply yields_frame; [by eapply decode_schema_annotations_inverts|]. done.
  - split; try done.
    + cbn. apply map_eq. intros i. destruct (decide (i = id)) as [->|Hne].
      * rewrite lookup_alter_eq, lookup_insert_eq, Hs. cbn. by destruct entry.
      * by rewrite lookup_alter_ne, lookup_insert_ne by done.
    + intros i Hpos. unfold schema_info, cache_get in *. cbn.
      destruct (decide (i = id)) as [->|Hne].
      * rewrite list_lookup_alter_eq. rewrite <- Hi.
        by destruct (Decoder.schema_cache d !! Z.to_nat id) as [[c|]|].
      * by rewrite list_lookup_alter_ne by lia.
Qed.

Lemma schema_bytes_yields d id entry :
  fits 16 id → entry_ok entry = true →
  SchemaRegistry.schemas (Decoder.registry d) !! id = None →
  ∃ fs d', yields d (schema_bytes id entry) fs d' ∧ events_of fs = [] ∧ learns d d' id entry.
Proof.
  intros Hid Hok Hnone. destruct (schema_frame_yields d id entry Hid Hok Hnone) as (d1 & Hy & Hl).
  unfold schema_bytes. pose proof (entry_ok_annotations _ Hok) as [Hlen Ha].
  destruct (SchemaEntry.annotations entry) as [|a l] eqn:Hann.
  - rewrite app_nil_r. eexists _, d1. split; [exact Hy|]. split; [done|].
    assert (without_annotations entry = entry) as Heq
      by (destruct entry; cbn in *; by subst).
    by rewrite Heq in Hl.
  - destruct (encode_annotations_some id (a :: l) Hlen) as [w Hw]. rewrite Hw. cbn [default].
    unfold fits in Hid.
    destruct (annotations_frame_yields d1 id entry w) as (d2 & Hy2 & Hl2).
    + done.
    + by rewrite Hann.
    + by rewrite Hann.
    + by rewrite (learns_schemas _ _ _ _ Hl), lookup_insert_eq.
    + rewrite (learns_info _ _ _ _ Hl) by lia. by rewrite decide_True.
    + eexists _, d2. split; [by eapply yields_app|]. split; [done|].
      destruct Hl as [L1 L2 L3 L4 L5], Hl2 as [K1 K2 K3 K4 K5]. split; try congruence.
      * by rewrite K1, L1, insert_insert_eq.
      * intros i Hi. rewrite K2 by done. destruct (decide (i = id)) eqn:E; [done|].
        rewrite L2 by done. by rewrite E.
Qed.

(** ** Each operation carries the correspondence over *)

Section operations.
Context {type_entry : positive → SchemaEntry.t} {slot_entry : Z → SchemaEntry.t}.
Implicit Types (e : Encoder.t) (d : Decoder.t).

Let ok := encoder_ok type_entry slot_entry.

Abbreviation schemas e := (SchemaRegistry.schemas (Encoder.registry e)).

(** From [e] to [e'] the encoder wrote bytes that take the mirroring decoder
    along and decode to the events [evs]. *)
Definition transfers e d e' (evs : list (Z * Z * list FieldValue.t)) (d' : Decoder.t)
    : Prop :=
  ok e' ∧ mirrors e' d' ∧ schemas e ⊆ schemas e' ∧
  ∃ w fs, into_inner e' = into_inner e ++ w ∧ yields d w fs d' ∧ events_of fs = evs.

Lemma transfers_refl e d : ok e → mirrors e d → transfers e d e [] d.
Proof.
  intros. split; [done|]. split; [done|]. split; [done|]. exists [], [].
  rewrite app_nil_r. split; [done|]. split; [apply yields_nil|done].
Qed.

Lemma transfers_trans e d e1 evs1 d1 e2 evs2 d2 :
  transfers e d e1 evs1 d1 → transfers e1 d1 e2 evs2 d2 →
  transfers e d e2 (evs1 ++ evs2) d2.
Proof.
  intros (_ & _ & S1 & w1 & f1 & W1 & Y1 & E1) (K2 & M2 & S2 & w2 & f2 & W2 & Y2 & E2).
  split; [done|]. split; [done|]. split; [by etrans|]. exists (w1 ++ w2), (f1 ++ f2).
  split; [by rewrite W2, W1, app_assoc|]. split; [by eapply yields_app|].
  by rewrite events_of_app, E1, E2.
Qed.

(** Bookkeeping that touches neither the output nor what is mirrored. *)
Lemma transfers_silent e d e' :
  ok e' → mirrors e d → Encoder.state e' = Encoder.state e →
  Encoder.registry e' = Encoder.registry e → Encoder.string_pool e' = Encoder.string_pool e →
  Encoder.stack_pool e' = Encoder.stack_pool e → transfers e d e' [] d.
Proof.
  intros Hok [M1 M2 M3 M4 M5] Hs Hr Hp Hk. split; [done|].
  split; [split; rewrite ?Hr, ?Hs, ?Hp, ?Hk; done|]. split; [by rewrite Hr|].
  exists [], []. unfold into_inner. rewrite Hs, app_nil_r.
  split; [done|]. split; [apply yields_nil|done].
Qed.

Lemma write_frame_step e d id entry ts fields values :
  ok e → mirrors e d → schemas e !! id = Some entry → fits 64 ts →
  Inverts (decode_fields (tags_of entry)) fields values →
  ∃ e' d', write_frame id ts fields e = (Ok tt, e') ∧
           transfers e d e' [(id, ts, values)] d'.
Proof.
  intros Hok Hm Hs Hts Hf. pose proof (ok_base _ _ _ Hok) as Hb.
  pose proof (ok_ids _ _ _ Hok _ _ Hs) as Hid.
  destruct (write_frame_run id ts fields e Hts Hb) as (delta & w & Hrun & Hd & Hw).
  assert (∃ d1, yields d w [] d1 ∧ Decoder.timestamp_base_ns d1 + delta = ts ∧
            (∀ i, schema_info d1 i = schema_info d i) ∧
            Decoder.registry d1 = Decoder.registry d ∧
            Decoder.string_pool d1 = Decoder.string_pool d ∧
            Decoder.stack_pool d1 = Decoder.stack_pool d)
    as (d1 & Y1 & B1 & I1 & R1 & P1 & K1).
  { destruct Hw as [[-> Hsum]|[-> ->]].
    - exists d. rewrite (mirror_base _ _ Hm). split; [apply yields_nil|done].
    - eexists. split; [by apply yields_reset|]. cbn. split; [lia|done]. }
  assert (Inverts (decode_frame (schema_info d1) (Decoder.timestamp_base_ns d1))
            (event_frame id delta fields) (Frame.Event id ts values)) as Hev.
  { rewrite <- B1. eapply decode_event_inverts; [done|done| |unfold fits in Hts; lia|done].
    rewrite I1. by apply (mirror_info _ _ Hm). }
  eexists _, (skip (Decoder.set_base d1 ts) (blen (event_frame id delta fields))).
  split; [exact Hrun|]. split; [|split; [|split; [done|]]].
  - destruct Hok. split; try done.
  - split; cbn; rewrite ?R1, ?P1, ?K1; try apply Hm; try done.
    intros i en Hi. change (schema_info d1 i = Some (SchemaInfo.mk (tags_of en) true)).
    rewrite I1. by apply (mirror_info _ _ Hm).
  - eexists _, ([] ++ [_]). split; [done|].
    split; [eapply yields_app; [exact Y1|eapply yields_frame; [exact Hev|done]]|done].
Qed.

(** A decoder that learned the schema mirrors the encoder that registered it. *)
Lemma mirrors_learn e d d' w id entry r :
  mirrors e d → learns d d' id entry → (∀ i en, schemas e !! i = Some en → 0 <= i) →
  0 <= id → SchemaRegistry.schemas r = <[id := entry]> (schemas e) →
  mirrors (Encoder.set_registry (wrote e w) r) d'.
Proof.
  intros [M1 M2 M3 M4 M5] [L1 L2 L3 L4 L5] Hpos Hid Hr.
  split; cbn; rewrite ?L3, ?L4, ?L5; try done.
  - by rewrite L1, M1, Hr.
  - intros i en Hi. rewrite Hr in Hi. apply lookup_insert_Some in Hi as [[<- <-]|[Hne Hi]].
    + rewrite L2 by done. by rewrite decide_True.
    + rewrite L2 by eauto. rewrite decide_False by congruence. by apply M2.
Qed.

(** Registering an entry under an unused id disturbs no lookup that
    succeeded. *)
Lemma schemas_extend e id entry r :
  schemas e !! id = None → SchemaRegistry.schemas r = <[id := entry]> (schemas e) →
  schemas e ⊆ SchemaRegistry.schemas r.
Proof. intros Hnone ->. by apply insert_subseteq. Qed.

(** Growing the registry keeps the other parts of the invariant. *)
Lemma encoder_ok_register e s r :
  ok e → registry_ok r → schemas e ⊆ SchemaRegistry.schemas r →
  (∀ id entry, SchemaRegistry.schemas r !! id = Some entry → fits 16 id) →
  (∀ slot, 0 < slot < STATIC_WIRE_ID_LIMIT →
     slot_bit (Encoder.registered_ids e) slot = false →
     SchemaRegistry.schemas r !! slot = None) →
  EncodeState.timestamp_base_ns s = EncodeState.timestamp_base_ns (Encoder.state e) →
  ok (Encoder.set_registry (Encoder.set_state e s) r).
Proof.
  intros [] Hr Hsub Hids Hunset Hs.
  assert (∀ i en, schemas e !! i = Some en → SchemaRegistry.schemas r !! i = Some en) as Hmono
    by (intros; by eapply lookup_weaken).
  split; cbn; try done; try (rewrite Hs; done); eauto.
  - intros n id Hn. destruct (ok_names0 n id Hn) as (entry & He & Hname). eauto.
  - intros i c Hi Hc. destruct (ok_slots0 i c Hi Hc) as [? He]. eauto.
Qed.

(** A dynamic registration: announce, register, remember the name. *)
Lemma register_new_step e d h :
  ok e → mirrors e d → SchemaHandle.name_key h = SchemaEntry.name (SchemaHandle.entry h) →
  entry_ok (SchemaHandle.entry h) = true →
  SchemaRegistry.next_id (Encoder.registry e) + 1 < 2 ^ 16 →
  Encoder.schema_ids e !! Name (SchemaHandle.name_key h) = None →
  ∃ id e' d', ensure_registered_slow h e = (Ok id, e') ∧
    schemas e' !! id = Some (SchemaHandle.entry h) ∧ transfers e d e' [] d'.
Proof.
  intros Hok Hm Hkey Hentry Hroom Hnone.
  pose proof (ok_registry _ _ _ Hok) as Hreg.
  destruct (next_type_id_fresh _ Hreg) as [Hlow Hfresh].
  set (id := fst (next_type_id (Encoder.registry e))) in *.
  set (r1 := snd (next_type_id (Encoder.registry e))).
  assert (fits 16 id) as Hid.
  { destruct Hreg as [Hn _]. unfold id, fits, STATIC_WIRE_ID_LIMIT in *. cbn. lia. }
  destruct (register r1 id (SchemaHandle.entry h)) as [r|] eqn:Hr.
  2:{ unfold register in Hr. cbn in Hr. change (SchemaRegistry.next_id _) with id in Hr.
      by rewrite Hfresh in Hr. }
  pose proof (register_next_ok _ _ _ Hreg Hroom Hr) as Hrok.
  pose proof (register_get _ _ _ _ Hr) as [Hrs _].
  change (SchemaRegistry.schemas r1) with (schemas e) in Hrs.
  rewrite <- (mirror_schemas _ _ Hm) in Hfresh.
  destruct (schema_bytes_yields d id _ Hid Hentry Hfresh) as (fs & d' & Hy & Hev & Hl).
  rewrite (mirror_schemas _ _ Hm) in Hfresh.
  set (e1 := Encoder.set_registry (wrote e (schema_bytes id (SchemaHandle.entry h))) r).
  exists id, (Encoder.set_schema_ids e1
                (<[Name (SchemaHandle.name_key h) := id]> (Encoder.schema_ids e1))), d'.
  split; [|split; [by cbn; rewrite Hrs, lookup_insert_eq|]].
  { unfold ensure_registered_slow, bind, get. rewrite Hnone.
    change (next_type_id (Encoder.registry e)) with (id, r1). cbv beta iota.
    rewrite emit_schema_run by done. cbn [Encoder.registry Encoder.set_registry wrote
      Encoder.set_state]. rewrite Hr. done. }
  assert (mirrors e1 d') as Hm1.
  { eapply mirrors_learn; [done|done| |unfold fits in Hid; lia|done].
    intros i en Hi. apply Hreg in Hi. lia. }
  assert (ok e1) as Hok1.
  { apply encoder_ok_register; try done.
    - by eapply schemas_extend.
    - rewrite Hrs. intros i en Hi. apply lookup_insert_Some in Hi as [[<- _]|[_ Hi]]; [done|].
      by eapply ok_ids.
    - intros slot Hslot Hbit. rewrite Hrs, lookup_insert_ne by lia.
      by eapply ok_unset. }
  split; [|split; [by destruct Hm1; split|split; [by eapply schemas_extend|]]].
  - destruct Hok1. split; try done.
    + intros n i. cbn. intros Hi. apply lookup_insert_Some in Hi as [[[= <-] <-]|[_ Hi]].
      * exists (SchemaHandle.entry h). split; [by rewrite Hrs, lookup_insert_eq|done].
      * by apply ok_names0.
    + intros t i. cbn. rewrite lookup_insert_ne by done. apply ok_types0.
  - exists (schema_bytes id (SchemaHandle.entry h)), fs. by split.
Qed.

(** What the caller guarantees about a schema handle: it was made by one of
    the constructors, its names fit the wire, the id space has room, and if
    its [Arc]'s address is cached the cached [Arc] is that allocation (the
    cache keeps it alive, so the address cannot have been reused). *)
Record handle_ok (h : SchemaHandle.t) e : Prop := {
  handle_key : SchemaHandle.name_key h = SchemaEntry.name (SchemaHandle.entry h);
  handle_entry : entry_ok (SchemaHandle.entry h) = true;
  handle_room : SchemaRegistry.next_id (Encoder.registry e) + 1 < 2 ^ 16;
  handle_arc entry id :
    Encoder.dynamic_schema_cache e !! SchemaHandle.arc h = Some (entry, id) →
    entry = SchemaHandle.entry h }.

Lemma ensure_registered_slow_step e d h :
  ok e → mirrors e d → handle_ok h e →
  (∃ id e' d', ensure_registered_slow h e = (Ok id, e') ∧
     schemas e' !! id = Some (SchemaHandle.entry h) ∧ transfers e d e' [] d') ∨
  (ensure_registered_slow h e = (Err InvalidInput, e) ∧
   ∃ id old, Encoder.schema_ids e !! Name (SchemaHandle.name_key h) = Some id ∧
             schemas e !! id = Some old ∧ old ≠ SchemaHandle.entry h).
Proof.
  intros Hok Hm [Hkey Hentry Hroom _].
  destruct (Encoder.schema_ids e !! Name (SchemaHandle.name_key h)) as [id|] eqn:Hname.
  - destruct (ok_names _ _ _ Hok _ _ Hname) as (old & Hold & _).
    unfold ensure_registered_slow, bind, get, registry_get. rewrite Hname, Hold.
    destruct (decide (old = SchemaHandle.entry h)) as [->|Hne].
    + left. exists id, e, d. split; [done|]. split; [done|]. by apply transfers_refl.
    + right. split; [done|]. by exists id, old.
  - left. by apply register_new_step.
Qed.

Lemma encoder_ok_cache e m :
  ok e → (∀ a entry id, m !! a = Some (entry, id) → schemas e !! id = Some entry) →
  ok (Encoder.set_cache e m).
Proof. intros [] Hm. by split. Qed.

Lemma ensure_registered_step e d h :
  ok e → mirrors e d → handle_ok h e →
  (∃ id e' d', ensure_registered h e = (Ok id, e') ∧
     schemas e' !! id = Some (SchemaHandle.entry h) ∧ transfers e d e' [] d') ∨
  (ensure_registered h e = (Err InvalidInput, e) ∧
   ∃ id old, Encoder.schema_ids e !! Name (SchemaHandle.name_key h) = Some id ∧
             schemas e !! id = Some old ∧ old ≠ SchemaHandle.entry h).
Proof.
  intros Hok Hm Hh. unfold ensure_registered, bind at 1, get.
  destruct (Encoder.dynamic_schema_cache e !! SchemaHandle.arc h) as [[entry id]|] eqn:Hc.
  - left. exists id, e, d. split; [done|].
    rewrite <- (handle_arc _ _ Hh _ _ Hc). split; [by eapply ok_cache|].
    by apply transfers_refl.
  - destruct (ensure_registered_slow_step e d h Hok Hm Hh)
      as [(id & e1 & d1 & Hrun & Hs & Ht)|[Hrun Herr]].
    + left. unfold bind. rewrite Hrun. unfold modify, ret. eexists id, _, d1.
      split; [done|]. set (e2 := if _ >=? _ then Encoder.set_cache e1 ∅ else e1).
      assert (Encoder.registry e2 = Encoder.registry e1 ∧ Encoder.state e2 = Encoder.state e1 ∧
              Encoder.string_pool e2 = Encoder.string_pool e1 ∧
              Encoder.stack_pool e2 = Encoder.stack_pool e1 ∧ ok e2) as (R & S & P & K & O).
      { destruct Ht as [Hok1 _]. subst e2. destruct (_ >=? _); [|done].
        do 4 (split; [done|]). by apply encoder_ok_cache. }
      split; [cbn; by rewrite R|].
      change (@nil (Z * Z * list FieldValue.t)) with ([] ++ @nil (Z * Z * list FieldValue.t)).
      eapply transfers_trans; [exact Ht|].
      apply transfers_silent; try done; [|apply Ht].
      apply encoder_ok_cache; [done|]. intros a entry i Hi.
      apply lookup_insert_Some in Hi as [[<- [= <- <-]]|[_ Hi]]; [by rewrite R|].
      by eapply ok_cache.
    + right. unfold bind. rewrite Hc, Hrun. by split.
Qed.

Lemma write_event_step e d h ts values :
  ok e → mirrors e d → handle_ok h e → fits 64 ts →
  Forall2 field_ok values
    (map FieldDef.field_type (SchemaEntry.fields (SchemaHandle.entry h))) →
  (∃ id e' d', write_event h ts values e = (Ok tt, e') ∧
     schemas e' !! id = Some (SchemaHandle.entry h) ∧
     transfers e d e' [(id, ts, values)] d') ∨
  write_event h ts values e = (Err InvalidInput, e).
Proof.
  intros Hok Hm Hh Hts Hv.
  destruct (ensure_registered_step e d h Hok Hm Hh)
    as [(id & e1 & d1 & Hrun & Hs & Ht)|[Hrun _]].
  - left. pose proof Ht as (Hok1 & Hm1 & _).
    assert (length values = length (SchemaEntry.fields (SchemaHandle.entry h))) as Hlen
      by (apply Forall2_length in Hv; by rewrite length_map in Hv).
    destruct (write_frame_step e1 d1 id _ ts _ values Hok1 Hm1 Hs Hts
      ltac:(unfold tags_of; rewrite <- map_map; by apply decode_fields_inverts))
      as (e' & d' & Hw & Ht').
    exists id, e', d'. split; [|split].
    + unfold write_event, bind at 1. rewrite Hrun.
      rewrite bool_decide_false by (intros Hne; by apply Hne).
      rewrite <- Hw. unfold write_frame, bind at 1 3. destruct (timestamp_delta ts e1) as [[x|] e2];
        [|done]. unfold bind. destruct (emit_event_header id x e2) as [[[]|] e3]; [|done].
      by rewrite emit_fields_run.
    + destruct Ht' as (_ & _ & Hsub & _). by eapply lookup_weaken.
    + change [(id, ts, values)] with ([] ++ [(id, ts, values)]). by eapply transfers_trans.
  - right. unfold write_event, bind at 1. by rewrite Hrun.
Qed.

(** A typed event as the program makes it: its schema is its type's, a
    non-zero slot belongs to that type alone, and its fields decode to
    [values] under the schema. *)
Record event_ok (ev : TraceEvent.t) (values : list FieldValue.t) : Prop := {
  event_type : TraceEvent.schema_entry ev = type_entry (TraceEvent.rust_type ev);
  event_slot : fits 16 (TraceEvent.type_slot ev);
  event_slot_type : TraceEvent.type_slot ev ≠ 0 →
    TraceEvent.schema_entry ev = slot_entry (TraceEvent.type_slot ev);
  event_entry : entry_ok (TraceEvent.schema_entry ev) = true;
  event_timestamp : fits 64 (TraceEvent.timestamp ev);
  event_fields :
    Inverts (decode_fields (tags_of (TraceEvent.schema_entry ev)))
      (TraceEvent.encode_fields ev) values }.

Lemma register_fast_step e d ev values :
  ok e → mirrors e d → event_ok ev values →
  0 < TraceEvent.type_slot ev < STATIC_WIRE_ID_LIMIT →
  slot_bit (Encoder.registered_ids e) (TraceEvent.type_slot ev) = false →
  ∃ e' d', register_fast_id ev (TraceEvent.type_slot ev) e = (Ok tt, e') ∧
    schemas e' !! TraceEvent.type_slot ev = Some (TraceEvent.schema_entry ev) ∧
    transfers e d e' [] d'.
Proof.
  intros Hok Hm Hev Hslot Hbit. set (id := TraceEvent.type_slot ev) in *.
  set (entry := TraceEvent.schema_entry ev).
  pose proof (ok_registry _ _ _ Hok) as Hreg.
  assert (schemas e !! id = None) as Hfresh by by eapply ok_unset.
  assert (fits 16 id) as Hid by apply Hev.
  assert (entry_ok entry = true) as Hentry by apply Hev.
  destruct (register (Encoder.registry e) id entry) as [r|] eqn:Hr.
  2:{ unfold register in Hr. by rewrite Hfresh in Hr. }
  pose proof (register_slot_ok _ id entry r Hreg ltac:(lia) Hr) as Hrok.
  pose proof (register_get _ _ _ _ Hr) as [Hrs _].
  rewrite <- (mirror_schemas _ _ Hm) in Hfresh.
  destruct (schema_bytes_yields d id _ Hid Hentry Hfresh) as (fs & d' & Hy & Hev' & Hl).
  rewrite (mirror_schemas _ _ Hm) in Hfresh.
  set (e1 := Encoder.set_registry (wrote e (schema_bytes id entry)) r).
  exists (Encoder.set_registered e1 (set_slot_bit (Encoder.registered_ids e1) id)), d'.
  split; [|split; [by cbn; rewrite Hrs, lookup_insert_eq|]].
  { unfold register_fast_id, bind, get. rewrite emit_schema_run by done.
    cbn [Encoder.registry wrote Encoder.set_state]. fold entry. by rewrite Hr. }
  assert (mirrors e1 d') as Hm1.
  { eapply mirrors_learn; [done|done| |lia|done]. intros i en Hi. apply Hreg in Hi. lia. }
  split; [|split; [by destruct Hm1; split|split; [by eapply schemas_extend|]]].
  - assert (∀ i en, schemas e !! i = Some en → SchemaRegistry.schemas r !! i = Some en) as Hmono
      by (intros; eapply lookup_weaken; [done|by eapply schemas_extend]).
    pose proof (ok_words _ _ _ Hok) as Hwords.
    unfold STATIC_WIRE_ID_LIMIT in *.
    destruct Hok; split; cbn; try done; eauto.
    + intros i en. rewrite Hrs. intros Hi. apply lookup_insert_Some in Hi as [[<- _]|[_ Hi]];
        eauto.
    + intros n i Hn. destruct (ok_names0 n i Hn) as (en & He & Hname). eauto.
    + intros i c Hi Hc. destruct (ok_slots0 i c Hi Hc) as [? He]. eauto.
    + intros slot Hs Hb. unfold STATIC_WIRE_ID_LIMIT in Hs.
      rewrite slot_bit_set in Hb by lia. apply orb_true_iff in Hb as [Hb|Hb].
      * apply Z.eqb_eq in Hb as ->. rewrite Hrs, lookup_insert_eq. f_equal.
        apply Hev. fold id. lia.
      * by apply Hmono, ok_bits0.
    + intros slot Hs Hb. unfold STATIC_WIRE_ID_LIMIT in Hs.
      rewrite slot_bit_set in Hb by lia. apply orb_false_iff in Hb as [Hne Hb].
      apply Z.eqb_neq in Hne. rewrite Hrs, lookup_insert_ne by congruence. by apply ok_unset0.
    + unfold set_slot_bit. by rewrite length_alter.
  - exists (schema_bytes id entry), fs. by split.
Qed.

Lemma encoder_ok_slots e slot id :
  ok e → slot ≠ 0%nat → schemas e !! id = Some (slot_entry (Z.of_nat slot)) →
  ok (Encoder.set_slots e (slot_cache_set (Encoder.slot_cache e) slot (id + 1))).
Proof.
  intros Hok Hslot Hid. pose proof (ok_slots _ _ _ Hok) as Hslots. destruct Hok. split; try done.
  cbn. intros i c Hi Hc. apply slot_cache_set_lookup in Hi as [[-> ->]|[_ Hi]]; [| |done].
  - by rewrite Z.add_simpl_r.
  - by eapply Hslots.
Qed.

Lemma encoder_ok_type e t id :
  ok e → schemas e !! id = Some (type_entry t) →
  ok (Encoder.set_schema_ids e (<[RustType t := id]> (Encoder.schema_ids e))).
Proof.
  intros Hok Hid. pose proof (ok_names _ _ _ Hok) as Hn. pose proof (ok_types _ _ _ Hok) as Ht.
  destruct Hok. split; try done; cbn.
  - intros n i. rewrite lookup_insert_ne by done. apply Hn.
  - intros t' i Hi. apply lookup_insert_Some in Hi as [[[= <-] <-]|[_ Hi]]; [done|].
    by apply Ht.
Qed.

Lemma resolve_step e d ev values arc :
  ok e → mirrors e d → event_ok ev values →
  handle_ok (handle_from_entry arc (TraceEvent.schema_entry ev)) e →
  (∃ id e' d', resolve_dynamic_wire_id ev (TraceEvent.type_slot ev) arc e = (Ok id, e') ∧
     schemas e' !! id = Some (TraceEvent.schema_entry ev) ∧ transfers e d e' [] d') ∨
  resolve_dynamic_wire_id ev (TraceEvent.type_slot ev) arc e = (Err InvalidInput, e).
Proof.
  intros Hok Hm Hev Hh. set (entry := TraceEvent.schema_entry ev) in *.
  set (slot := TraceEvent.type_slot ev).
  (* the slot cache is filled last, silently *)
  assert (∀ id e1 d1, schemas e1 !! id = Some entry → transfers e d e1 [] d1 →
            let e2 := if slot =? 0 then e1 else
              Encoder.set_slots e1 (slot_cache_set (Encoder.slot_cache e1)
                (Z.to_nat slot) (id + 1)) in
            schemas e2 !! id = Some entry ∧ transfers e d e2 [] d1) as Hfill.
  { intros id e1 d1 Hs Ht. cbv zeta. destruct (Z.eqb_spec slot 0) as [|Hslot]; [done|].
    split; [done|].
    change (@nil (Z * Z * list FieldValue.t)) with ([] ++ @nil (Z * Z * list FieldValue.t)).
    eapply transfers_trans; [exact Ht|].
    apply transfers_silent; try done; [|apply Ht].
    pose proof (event_slot _ _ Hev) as Hfits. unfold fits in Hfits. fold slot in Hfits.
    apply encoder_ok_slots; [apply Ht|lia|]. rewrite Hs.
    rewrite Z2Nat.id by lia. f_equal. by apply Hev. }
  unfold resolve_dynamic_wire_id, bind, get. fold slot entry.
  destruct (Encoder.schema_ids e !! RustType (TraceEvent.rust_type ev)) as [id|] eqn:Hk.
  - left. destruct (Hfill id e d) as [Hs Ht]; [|by apply transfers_refl|].
    { rewrite (ok_types _ _ _ Hok _ _ Hk). f_equal. symmetry. apply Hev. }
    by exists id, (if slot =? 0 then e else Encoder.set_slots e
        (slot_cache_set (Encoder.slot_cache e) (Z.to_nat slot) (id + 1))), d.
  - destruct (ensure_registered_step e d _ Hok Hm Hh)
      as [(id & e1 & d1 & Hrun & Hs & Ht)|[Hrun _]].
    + left. rewrite Hrun. unfold modify, ret.
      set (e2 := Encoder.set_schema_ids e1 _).
      destruct (Hfill id e2 d1) as [Hs2 Ht2]; [done| |by eexists id, _, d1].
      change (@nil (Z * Z * list FieldValue.t)) with ([] ++ @nil (Z * Z * list FieldValue.t)).
      eapply transfers_trans; [exact Ht|]. apply transfers_silent; try done; [|apply Ht].
      apply encoder_ok_type; [apply Ht|]. rewrite Hs. f_equal. apply Hev.
    + right. by rewrite Hrun.
Qed.

Lemma write_step e d ev values arc :
  ok e → mirrors e d → event_ok ev values →
  handle_ok (handle_from_entry arc (TraceEvent.schema_entry ev)) e →
  (∃ id e' d', write ev arc e = (Ok tt, e') ∧
     schemas e' !! id = Some (TraceEvent.schema_entry ev) ∧
     transfers e d e' [(id, TraceEvent.timestamp ev, values)] d') ∨
  write ev arc e = (Err InvalidInput, e).
Proof.
  intros Hok Hm Hev Hh. set (entry := TraceEvent.schema_entry ev) in *.
  set (slot := TraceEvent.type_slot ev).
  set (resolve := if negb (slot =? 0) && (slot <? STATIC_WIRE_ID_LIMIT) then
      let! registered := get (λ e, slot_bit (Encoder.registered_ids e) slot) in
      do! (if registered then ret tt else register_fast_id ev slot) in ret slot
    else
      let! cached := get (λ e, nth (Z.to_nat slot) (Encoder.slot_cache e) 0) in
      if negb (cached =? 0) then ret (cast 16 (cached - 1))
      else resolve_dynamic_wire_id ev slot arc).
  assert ((∃ id e' d', resolve e = (Ok id, e') ∧ schemas e' !! id = Some entry ∧
            transfers e d e' [] d') ∨ resolve e = (Err InvalidInput, e)) as Hres.
  { pose proof (event_slot _ _ Hev) as Hfits. unfold fits in Hfits. fold slot in Hfits.
    subst resolve. destruct (negb (slot =? 0) && (slot <? STATIC_WIRE_ID_LIMIT)) eqn:Hfast.
    - bool_facts. left. unfold bind, get.
      destruct (slot_bit (Encoder.registered_ids e) slot) eqn:Hbit.
      + exists slot, e, d. split; [done|]. split; [|by apply transfers_refl].
        rewrite (ok_bits _ _ _ Hok) by (done || lia). f_equal. symmetry. by apply Hev.
      + destruct (register_fast_step e d ev values Hok Hm Hev ltac:(fold slot; lia) Hbit)
          as (e' & d' & Hrun & Hs & Ht).
        fold slot in Hrun, Hs. rewrite Hrun. by exists slot, e', d'.
    - unfold bind, get. destruct (negb (nth _ _ _ =? 0)) eqn:Hc; [|by apply (resolve_step e d ev values)].
      left. bool_facts. rewrite nth_lookup in Hc |- *.
      destruct (Encoder.slot_cache e !! Z.to_nat slot) as [c|] eqn:E; [|done]. cbn in Hc |- *.
      destruct (ok_slots _ _ _ Hok _ _ E Hc) as [Hnz Hs]. rewrite Z2Nat.id in Hs by lia.
      pose proof (ok_ids _ _ _ Hok _ _ Hs) as Hid.
      exists (cast 16 (c - 1)), e, d. rewrite cast_id by done.
      split; [done|]. split; [|by apply transfers_refl]. rewrite Hs. f_equal. symmetry.
      apply Hev. fold slot. lia. }
  assert (write ev arc = bind resolve
            (λ tid, write_frame tid (TraceEvent.timestamp ev) (TraceEvent.encode_fields ev)))
    as -> by done.
  unfold bind at 1 2. destruct Hres as [(id & e1 & d1 & -> & Hs & Ht)| ->]; [|by right].
  left. pose proof Ht as (Hok1 & Hm1 & _).
  destruct (write_frame_step e1 d1 id entry (TraceEvent.timestamp ev)
    (TraceEvent.encode_fields ev) values Hok1 Hm1 Hs)
    as (e' & d' & Hw & Ht'); [apply Hev..|].
  exists id, e', d'. split; [done|]. split.
  - destruct Ht' as (_ & _ & Hsub & _). by eapply lookup_weaken.
  - change [(id, TraceEvent.timestamp ev, values)]
      with ([] ++ [(id, TraceEvent.timestamp ev, values)]). by eapply transfers_trans.
Qed.

(** The bytes in front of an event at time [ts] when the base is [base]: a
    timestamp reset when the delta does not fit. *)
Definition time_prefix (base ts delta : Z) (w : bytes) : Prop :=
  w = [] ∧ base + delta = ts ∨ w = TAG_TIMESTAMP_RESET :: put_le 8 ts ∧ delta = 0.

Lemma register_fast_run e ev slot e' :
  entry_ok (TraceEvent.schema_entry ev) = true →
  register_fast_id ev slot e = (Ok tt, e') →
  into_inner e' = into_inner e ++ schema_bytes slot (TraceEvent.schema_entry ev) ∧
  Encoder.dynamic_schema_cache e' = Encoder.dynamic_schema_cache e ∧
  SchemaRegistry.next_id (Encoder.registry e') = SchemaRegistry.next_id (Encoder.registry e) ∧
  EncodeState.timestamp_base_ns (Encoder.state e')
  = EncodeState.timestamp_base_ns (Encoder.state e).
Proof.
  intros He. unfold register_fast_id, bind, get. rewrite emit_schema_run by done.
  destruct (register _ slot _) as [r|] eqn:Hr; [|done]. cbn. intros [= <-].
  split_and!; [done|done| |done]. unfold register in Hr. cbn. destruct (_ !! slot) as [old|].
  - destruct (decide (old = _)); [|done]. by injection Hr as <-.
  - by injection Hr as <-.
Qed.

(** The fast path of [write] is never refused, and what it writes. *)
Lemma write_fast_step e d ev values arc :
  ok e → mirrors e d → event_ok ev values →
  0 < TraceEvent.type_slot ev < STATIC_WIRE_ID_LIMIT →
  ∃ e' delta w, write ev arc e = (Ok tt, e') ∧
    Encoder.dynamic_schema_cache e' = Encoder.dynamic_schema_cache e ∧
    SchemaRegistry.next_id (Encoder.registry e') = SchemaRegistry.next_id (Encoder.registry e) ∧
    fits 24 delta ∧
    time_prefix (EncodeState.timestamp_base_ns (Encoder.state e)) (TraceEvent.timestamp ev)
      delta w ∧
    into_inner e' = into_inner e
      ++ (if slot_bit (Encoder.registered_ids e) (TraceEvent.type_slot ev) then []
          else schema_bytes (TraceEvent.type_slot ev) (TraceEvent.schema_entry ev))
      ++ w ++ event_frame (TraceEvent.type_slot ev) delta (TraceEvent.encode_fields ev).
Proof.
  intros Hok Hm Hev Hslot. set (slot := TraceEvent.type_slot ev) in *.
  assert (∃ e1, (if slot_bit (Encoder.registered_ids e) slot then ret tt
                 else register_fast_id ev slot) e = (Ok tt, e1) ∧ ok e1 ∧
            into_inner e1 = into_inner e
              ++ (if slot_bit (Encoder.registered_ids e) slot then []
                  else schema_bytes slot (TraceEvent.schema_entry ev)) ∧
            Encoder.dynamic_schema_cache e1 = Encoder.dynamic_schema_cache e ∧
            SchemaRegistry.next_id (Encoder.registry e1)
            = SchemaRegistry.next_id (Encoder.registry e) ∧
            EncodeState.timestamp_base_ns (Encoder.state e1)
            = EncodeState.timestamp_base_ns (Encoder.state e))
    as (e1 & Hrun & Hok1 & Hi & Hc & Hn & Hb).
  { destruct (slot_bit _ slot) eqn:Hbit; [by exists e; rewrite app_nil_r|].
    destruct (register_fast_step e d ev values Hok Hm Hev Hslot Hbit) as (e1 & d1 & Hrun & _ & Ht).
    fold slot in Hrun. exists e1. split; [done|]. split; [apply Ht|].
    by apply (register_fast_run e ev slot e1); [apply Hev|]. }
  destruct (write_frame_run slot (TraceEvent.timestamp ev) (TraceEvent.encode_fields ev) e1
    (event_timestamp _ _ Hev) (ok_base _ _ _ Hok1)) as (delta & w & Hw & Hd & Htime).
  exists (set_base (wrote e1 (w ++ event_frame slot delta (TraceEvent.encode_fields ev)))
    (TraceEvent.timestamp ev)), delta, w. split_and!; [|exact Hc|exact Hn|exact Hd| |].
  - unfold write, bind at 1. fold slot.
    assert (negb (slot =? 0) && (slot <? STATIC_WIRE_ID_LIMIT) = true) as -> by lia.
    unfold bind at 1, get at 1. unfold bind at 1. rewrite Hrun. exact Hw.
  - by rewrite <- Hb.
  - change (into_inner (set_base ?e _)) with (into_inner e).
    by rewrite into_inner_wrote, Hi, <- !app_assoc.
Qed.

Lemma intern_string_step e d s :
  ok e → mirrors e d → utf8_valid s = true → blen s < 2 ^ 32 →
  Encoder.next_pool_id e + 1 < 2 ^ 32 →
  ∃ id e' d', intern_string s e = (Ok id, e') ∧
    Encoder.string_pool e' !! s = Some id ∧ transfers e d e' [] d'.
Proof.
  intros Hok Hm Hu Hl Hroom. unfold intern_string, bind, get.
  destruct (Encoder.string_pool e !! s) as [id|] eqn:E.
  { exists id, e, d. split; [done|]. split; [done|]. by apply transfers_refl. }
  set (id := Encoder.next_pool_id e) in *.
  pose proof (ok_next_string _ _ _ Hok) as Hid. fold id in Hid. unfold fits in Hid.
  set (w := encode_string_pool [PoolEntry.mk id s]).
  eexists id, _, (skip (Decoder.set_string_pool d (<[id := s]> (Decoder.string_pool d))) (blen w)).
  split; [done|]. split; [by cbn; rewrite lookup_insert_eq|].
  rewrite wrapping_add_small by (unfold fits; lia).
  pose proof (ok_strings _ _ _ Hok) as Hs. fold id in Hs.
  split; [|split; [|split; [done|]]].
  - destruct Hok. split; try done; cbn; [|unfold fits; lia].
    intros s' i Hi. apply lookup_insert_Some in Hi as [[_ <-]|[_ Hi]]; [lia|].
    apply Hs in Hi. lia.
  - destruct Hm as [M1 M2 M3 M4 M5]. split; try done. cbn.
    intros s' i Hi. apply lookup_insert_Some in Hi as [[<- <-]|[_ Hi]].
    + by rewrite lookup_insert_eq.
    + rewrite lookup_insert_ne; [by apply M4|]. apply Hs in Hi. lia.
  - exists w, [DecodedFrame.StringPool [PoolEntry.mk id s]].
    split; [done|]. split; [|done]. eapply yields_frame.
    + apply decode_string_pool_inverts; [done|]. cbn [forallb]. unfold pool_entry_ok.
      cbn [PoolEntry.pool_id PoolEntry.data].
      rewrite bool_decide_true by (unfold fits; lia). rewrite andb_true_r. by apply Z.ltb_lt.
    + cbn [handle_frame pool_strings foldl PoolEntry.data PoolEntry.pool_id].
      by rewrite from_utf8_valid.
Qed.

Lemma intern_stack_frames_step e d l :
  ok e → mirrors e d → forallb (λ a, bool_decide (fits 64 a)) l = true → blen l < 2 ^ 32 →
  Encoder.next_stack_pool_id e + 1 < 2 ^ 32 →
  ∃ id e' d', intern_stack_frames l e = (Ok id, e') ∧
    Encoder.stack_pool e' !! l = Some id ∧ transfers e d e' [] d'.
Proof.
  intros Hok Hm Hu Hl Hroom. unfold intern_stack_frames, bind, get.
  destruct (Encoder.stack_pool e !! l) as [id|] eqn:E.
  { exists id, e, d. split; [done|]. split; [done|]. by apply transfers_refl. }
  set (id := Encoder.next_stack_pool_id e) in *.
  pose proof (ok_next_stack _ _ _ Hok) as Hid. fold id in Hid. unfold fits in Hid.
  set (w := encode_stack_pool [StackPoolEntry.mk id l]).
  eexists id, _, (skip (Decoder.set_stack_pool d (<[id := l]> (Decoder.stack_pool d))) (blen w)).
  split; [done|]. split; [by cbn; rewrite lookup_insert_eq|].
  rewrite wrapping_add_small by (unfold fits; lia).
  pose proof (ok_stacks _ _ _ Hok) as Hs. fold id in Hs.
  split; [|split; [|split; [done|]]].
  - destruct Hok. split; try done; cbn; [|unfold fits; lia].
    intros s' i Hi. apply lookup_insert_Some in Hi as [[_ <-]|[_ Hi]]; [lia|].
    apply Hs in Hi. lia.
  - destruct Hm as [M1 M2 M3 M4 M5]. split; try done. cbn.
    intros s' i Hi. apply lookup_insert_Some in Hi as [[<- <-]|[_ Hi]].
    + by rewrite lookup_insert_eq.
    + rewrite lookup_insert_ne; [by apply M5|]. apply Hs in Hi. lia.
  - exists w, [DecodedFrame.StackPool [StackPoolEntry.mk id l]].
    split; [done|]. split; [|done]. eapply yields_frame.
    + apply decode_stack_pool_inverts; [done|]. cbn [forallb]. unfold stack_pool_entry_ok.
      cbn [StackPoolEntry.pool_id StackPoolEntry.frames].
      rewrite bool_decide_true by (unfold fits; lia). rewrite Hu, !andb_true_r.
      by apply Z.ltb_lt.
    + done.
Qed.

(** ** Programs: sequences of encoder calls *)

Inductive op : Type :=
| OpRegister (h : SchemaHandle.t)
| OpWriteEvent (h : SchemaHandle.t) (ts : Z) (values : list FieldValue.t)
| OpWrite (ev : TraceEvent.t) (values : list FieldValue.t) (arc : Z)
| OpInternString (s : bytes)
| OpInternStackFrames (l : list Z).

(** What the caller of each operation guarantees. *)
Definition op_ok (o : op) e : Prop :=
  match o with
  | OpRegister h => handle_ok h e
  | OpWriteEvent h ts values =>
      handle_ok h e ∧ fits 64 ts ∧
      Forall2 field_ok values
        (map FieldDef.field_type (SchemaEntry.fields (SchemaHandle.entry h)))
  | OpWrite ev values arc =>
      event_ok ev values ∧ handle_ok (handle_from_entry arc (TraceEvent.schema_entry ev)) e
  | OpInternString s =>
      utf8_valid s = true ∧ blen s < 2 ^ 32 ∧ Encoder.next_pool_id e + 1 < 2 ^ 32
  | OpInternStackFrames l =>
      forallb (λ a, bool_decide (fits 64 a)) l = true ∧ blen l < 2 ^ 32 ∧
      Encoder.next_stack_pool_id e + 1 < 2 ^ 32
  end.

Definition discard {A} (r : result A enc_error * Encoder.t)
    : result unit enc_error * Encoder.t :=
  (match r.1 with Ok _ => Ok tt | Err x => Err x end, r.2).

Definition run_op (o : op) e : result unit enc_error * Encoder.t :=
  match o with
  | OpRegister h => discard (ensure_registered h e)
  | OpWriteEvent h ts values => write_event h ts values e
  | OpWrite ev _ arc => write ev arc e
  | OpInternString s => discard (intern_string s e)
  | OpInternStackFrames l => discard (intern_stack_frames l e)
  end.

(** The event an operation asks for: its schema, timestamp and values. *)
Definition op_events (o : op) : list (SchemaEntry.t * Z * list FieldValue.t) :=
  match o with
  | OpWriteEvent h ts values => [(SchemaHandle.entry h, ts, values)]
  | OpWrite ev values _ => [(TraceEvent.schema_entry ev, TraceEvent.timestamp ev, values)]
  | _ => []
  end.

(** Decoded events are the requested ones, each under a type id that stands
    for its schema. *)
Definition event_matches (m : gmap Z SchemaEntry.t) (got : Z * Z * list FieldValue.t)
    (want : SchemaEntry.t * Z * list FieldValue.t) : Prop :=
  m !! got.1.1 = Some want.1.1 ∧ got.1.2 = want.1.2 ∧ got.2 = want.2.

Lemma op_step o e d :
  ok e → mirrors e d → op_ok o e →
  (∃ e' d' evs, run_op o e = (Ok tt, e') ∧ transfers e d e' evs d' ∧
     Forall2 (event_matches (schemas e')) evs (op_events o)) ∨
  run_op o e = (Err InvalidInput, e).
Proof.
  intros Hok Hm Ho. destruct o as [h|h ts values|ev values arc|s|l]; cbn [op_ok run_op] in *.
  - destruct (ensure_registered_step e d h Hok Hm Ho) as [(id & e' & d' & -> & Hs & Ht)|[-> _]].
    + left. by exists e', d', [].
    + by right.
  - destruct Ho as (Hh & Hts & Hv).
    destruct (write_event_step e d h ts values Hok Hm Hh Hts Hv)
      as [(id & e' & d' & -> & Hs & Ht)|Hrun]; [|by right].
    left. eexists e', d', _. split; [done|]. split; [exact Ht|]. by repeat constructor.
  - destruct Ho as [Hev Hh].
    destruct (write_step e d ev values arc Hok Hm Hev Hh)
      as [(id & e' & d' & -> & Hs & Ht)|Hrun]; [|by right].
    left. eexists e', d', _. split; [done|]. split; [exact Ht|]. by repeat constructor.
  - destruct Ho as (Hu & Hl & Hr).
    destruct (intern_string_step e d s Hok Hm Hu Hl Hr) as (id & e' & d' & -> & _ & Ht).
    left. by exists e', d', [].
  - destruct Ho as (Hu & Hl & Hr).
    destruct (intern_stack_frames_step e d l Hok Hm Hu Hl Hr) as (id & e' & d' & -> & _ & Ht).
    left. by exists e', d', [].
Qed.

(** A run from [e] to [e'], with the events of the calls that succeeded; a
    call that is refused is allowed and the run goes on. *)
Inductive runs : Encoder.t → list op → list (SchemaEntry.t * Z * list FieldValue.t) →
    Encoder.t → Prop :=
| runs_nil e : runs e [] [] e
| runs_ok e o e1 ops log e2 :
    op_ok o e → run_op o e = (Ok tt, e1) → runs e1 ops log e2 →
    runs e (o :: ops) (op_events o ++ log) e2
| runs_refused e o err e1 ops log e2 :
    op_ok o e → run_op o e = (Err err, e1) → runs e1 ops log e2 →
    runs e (o :: ops) log e2.

Lemma runs_app e ops log e1 ops' log' e2 :
  runs e ops log e1 → runs e1 ops' log' e2 → runs e (ops ++ ops') (log ++ log') e2.
Proof.
  intros Hrun Hrun'. induction Hrun; cbn [app]; [done| |].
  - rewrite <- app_assoc. eapply runs_ok; [done|done|by apply IHHrun].
  - eapply runs_refused; [done|done|by apply IHHrun].
Qed.

Lemma runs_one e o e1 : op_ok o e → run_op o e = (Ok tt, e1) → runs e [o] (op_events o) e1.
Proof. intros Ho Hr. rewrite <- (app_nil_r (op_events o)). eapply runs_ok; [done..|constructor]. Qed.

Lemma runs_none e o err e1 : op_ok o e → run_op o e = (Err err, e1) → runs e [o] [] e1.
Proof. intros Ho Hr. eapply runs_refused; [done..|constructor]. Qed.

Lemma event_matches_mono m m' evs log :
  m ⊆ m' → Forall2 (event_matches m) evs log → Forall2 (event_matches m') evs log.
Proof.
  intros Hsub. apply Forall2_impl. intros got want (H1 & H2 & H3).
  split; [by eapply lookup_weaken|done].
Qed.

Lemma runs_transfer e ops log e' d :
  runs e ops log e' → ok e → mirrors e d →
  ∃ d' evs, transfers e d e' evs d' ∧ Forall2 (event_matches (schemas e')) evs log.
Proof.
  intros Hrun. revert d. induction Hrun as [e|e o e1 ops log e2 Ho Hr _ IH|e o err e1 ops log e2 Ho Hr _ IH];
    intros d Hok Hm.
  - exists d, []. split; [by apply transfers_refl|done].
  - destruct (op_step o e d Hok Hm Ho) as [(e1' & d1 & evs1 & Hr' & Ht1 & Hev1)|Hr'];
      rewrite Hr in Hr'; [|discriminate]. injection Hr' as <-.
    destruct (IH d1) as (d2 & evs2 & Ht2 & Hev2); [apply Ht1..|].
    exists d2, (evs1 ++ evs2). split; [by eapply transfers_trans|].
    apply Forall2_app; [|done]. eapply event_matches_mono; [|exact Hev1]. apply Ht2.
  - destruct (op_step o e d Hok Hm Ho) as [(e1' & d1 & evs1 & Hr' & _)|Hr'];
      rewrite Hr in Hr'; [discriminate|]. injection Hr' as -> ->. by apply IH.
Qed.

Lemma encoder_new_ok w : ok (encoder_new_to w).
Proof.
  split; try done; try apply registry_new_ok.
  intros slot Hs Hb. unfold STATIC_WIRE_ID_LIMIT in Hs.
  rewrite slot_bit_testbit in Hb by lia.
  assert (∀ n, nth n [0; 0; 0; 0] 0 = 0) as Hz by (intros [|[|[|[|[]]]]]; done).
  cbn [encoder_new_to encoder_blank Encoder.registered_ids] in Hb.
  by rewrite Hz, Z.bits_0 in Hb.
Qed.
End operations.

(** ** Whole streams *)

(** A decoder right behind a header. *)
Definition fresh_decoder (d : Decoder.t) : Prop :=
  Decoder.registry d = registry_new ∧ Decoder.schema_cache d = [] ∧
  Decoder.string_pool d = ∅ ∧ Decoder.stack_pool d = ∅ ∧ Decoder.timestamp_base_ns d = 0.

(** An encoder right behind the header it wrote. *)
Definition fresh_encoder (e : Encoder.t) : Prop :=
  SchemaRegistry.schemas (Encoder.registry e) = ∅ ∧ Encoder.string_pool e = ∅ ∧
  Encoder.stack_pool e = ∅ ∧ EncodeState.timestamp_base_ns (Encoder.state e) = 0 ∧
  into_inner e = encode_header.

Lemma fresh_mirrors e d : fresh_encoder e → fresh_decoder d → mirrors e d.
Proof.
  intros (E1 & E2 & E3 & E4 & _) (D1 & D2 & D3 & D4 & D5).
  split; rewrite ?E1, ?E2, ?E3, ?E4, ?D1, ?D3, ?D4, ?D5; try done;
    by intros *; rewrite lookup_empty.
Qed.

Section streams.
Context {type_entry : positive → SchemaEntry.t} {slot_entry : Z → SchemaEntry.t}.

Abbreviation ok := (encoder_ok type_entry slot_entry).
Abbreviation runs := (@runs type_entry slot_entry).

(** The body of a stream, behind its header, in front of anything. *)
Lemma stream_body e0 ops log e d :
  ok e0 → fresh_encoder e0 → runs e0 ops log e → fresh_decoder d →
  ∃ w fs d', finish e = encode_header ++ w ∧ yields d w fs d' ∧ mirrors e d' ∧
    Forall2 (event_matches (SchemaRegistry.schemas (Encoder.registry e))) (events_of fs) log.
Proof.
  intros Hok He Hrun Hd.
  destruct (runs_transfer e0 ops log e d Hrun Hok (fresh_mirrors e0 d He Hd))
    as (d' & evs & (_ & Hm & _ & w & fs & Hw & Hy & Hevs) & Hlog).
  exists w, fs, d'. unfold finish. rewrite Hw. destruct He as (_ & _ & _ & _ & ->).
  split; [done|]. split; [done|]. split; [done|]. by rewrite Hevs.
Qed.

Lemma yields_end d w fs d' :
  yields d w fs d' → Decoder.rest d = w →
  decode_all d = (fs, feed d' []).
Proof.
  intros Hy Hr. specialize (Hy []). rewrite app_nil_r in Hy.
  rewrite <- (feed_rest d), Hr, Hy. rewrite decode_all_end by done.
  cbn. by rewrite app_nil_r.
Qed.

Lemma decoder_new_header w :
  ∃ d, decoder_new (encode_header ++ w) = Some d ∧ fresh_decoder d ∧ Decoder.rest d = w.
Proof.
  unfold decoder_new.
  assert (decode_header (encode_header ++ w) = Some VERSION) as ->
    by (apply decode_header_some; by exists w).
  eexists. split; [done|]. by split.
Qed.

(** A fresh encoder's stream is read back whole. *)
Lemma stream_decodes e0 ops log e :
  ok e0 → fresh_encoder e0 → runs e0 ops log e →
  ∃ d fs d', decoder_new (finish e) = Some d ∧ decode_all d = (fs, d') ∧
    Decoder.rest d' = [] ∧ mirrors e d' ∧
    Forall2 (event_matches (SchemaRegistry.schemas (Decoder.registry d'))) (events_of fs) log.
Proof.
  intros Hok He Hrun.
  destruct (stream_body e0 ops log e (feed (Decoder.mk 0 [] registry_new [] ∅ ∅ VERSION 0) [])
              Hok He Hrun) as (w & _ & _ & Hw & _); [by split|].
  destruct (decoder_new_header w) as (d & Hd & Hfresh & Hr).
  destruct (stream_body e0 ops log e d Hok He Hrun Hfresh) as (w' & fs & d' & Hw' & Hy & Hm & Hlog).
  rewrite Hw in Hw'. apply app_inv_head in Hw' as <-.
  exists d, fs, (feed d' []). rewrite Hw. split; [done|].
  split; [by apply (yields_end d w)|]. split; [done|].
  assert (mirrors e (feed d' [])) as Hm' by by destruct Hm; split.
  split; [done|]. by rewrite (mirror_schemas _ _ Hm').
Qed.
End streams.

Lemma encoder_new_fresh : fresh_encoder encoder_new.
Proof. by split. Qed.

(** A decoder with nothing to read. *)
Definition idle_decoder : Decoder.t := Decoder.mk 0 [] registry_new [] ∅ ∅ VERSION 0.

Lemma idle_fresh : fresh_decoder idle_decoder.
Proof. by split. Qed.

Lemma idle_mirrors e : fresh_encoder e → mirrors e idle_decoder.
Proof. intros. by apply fresh_mirrors, idle_fresh. Qed.

(** ** Main properties *)

(** C1: Everything an encoder is asked to write comes back: for any sequence of
    registrations, dynamic and typed events and interned values, refused calls
    included, the decoder reads the finished stream to its last byte without
    error, the events it yields are exactly the requested ones in order, each
    under a type id that stands for its schema (annotations included), with the
    exact timestamps and values, and the decoder's registry and pools resolve
    every schema, string and stack id the encoder handed out. *)
Theorem stream_roundtrip type_entry slot_entry ops log e :
  @runs type_entry slot_entry encoder_new ops log e →
  ∃ d fs d', decoder_new (finish e) = Some d ∧ decode_all d = (fs, d') ∧
    Decoder.rest d' = [] ∧
    Forall2 (event_matches (SchemaRegistry.schemas (Decoder.registry d'))) (events_of fs) log ∧
    SchemaRegistry.schemas (Decoder.registry d')
    = SchemaRegistry.schemas (Encoder.registry e) ∧
    (∀ s id, Encoder.string_pool e !! s = Some id → Decoder.string_pool d' !! id = Some s) ∧
    (∀ l id, Encoder.stack_pool e !! l = Some id → Decoder.stack_pool d' !! id = Some l).
Proof.
  intros Hrun. destruct (stream_decodes encoder_new ops log e (encoder_new_ok []) encoder_new_fresh Hrun)
    as (d & fs & d' & Hd & Hall & Hr & Hm & Hlog).
  exists d, fs, d'. do 4 (split; [done|]). split; [apply Hm|]. split; apply Hm.
Qed.

(** A run with a typed event on the fast path, a dynamic event whose timestamp
    lies before it, and an interned string. *)
Definition sample_entry : SchemaEntry.t :=
  SchemaEntry.mk (lit "Poll") [FieldDef.mk (lit "n") FieldType.U16]
    [FieldAnnotation.mk 0 (lit "unit") (lit "ns")].

Definition sample_event : TraceEvent.t :=
  TraceEvent.mk 1 7 sample_entry 20000000 (encode_field (U16 258)).

Definition sample_handle : SchemaHandle.t :=
  handle_new 0x1000 (lit "Dyn") [FieldDef.mk (lit "s") FieldType.OptionalString].

Definition sample_ops : list op :=
  [OpWrite sample_event [FieldValue.Varint 258] 0x2000;
   OpWriteEvent sample_handle 19000000 [FieldValue.None];
   OpInternString (lit "main")].

Definition sample_log : list (SchemaEntry.t * Z * list FieldValue.t) :=
  [(sample_entry, 20000000, [FieldValue.Varint 258]);
   (SchemaHandle.entry sample_handle, 19000000, [FieldValue.None])].

Definition run_all (ops : list op) (e : Encoder.t) : Encoder.t :=
  foldl (λ e o, snd (run_op o e)) e ops.

Lemma sample_event_ok :
  @event_ok (λ _, sample_entry) (λ _, sample_entry) sample_event [FieldValue.Varint 258].
Proof.
  split; try done. intros r. change (tags_of (TraceEvent.schema_entry sample_event))
    with (map tag_of [FieldType.U16]).
  cbn [map decode_fields]. rewrite from_tag_tag_of, pbind_plift.
  assert (field_valid (U16 258)) as Hv by (split; lia).
  by rewrite (pbind_some _ _ _ _ _ (field_decodes (U16 258) Hv r)).
Qed.

Lemma handle_ok_intro h e :
  SchemaHandle.name_key h = SchemaEntry.name (SchemaHandle.entry h) →
  entry_ok (SchemaHandle.entry h) = true →
  (SchemaRegistry.next_id (Encoder.registry e) + 1 <? 2 ^ 16) = true →
  Encoder.dynamic_schema_cache e !! SchemaHandle.arc h = None →
  handle_ok h e.
Proof. intros. split; try done; [by apply Z.ltb_lt|]. intros ? ?. congruence. Qed.

Lemma sample_runs :
  @runs (λ _, sample_entry) (λ _, sample_entry) encoder_new sample_ops sample_log
    (run_all sample_ops encoder_new).
Proof.
  apply (runs_ok encoder_new (OpWrite sample_event [FieldValue.Varint 258] 0x2000)
    (run_all (take 1 sample_ops) encoder_new) (drop 1 sample_ops) (drop 1 sample_log)).
  { split; [exact sample_event_ok|]. apply handle_ok_intro; by vm_compute. }
  { apply injective_projections; by vm_compute. }
  apply (runs_ok _ (OpWriteEvent sample_handle 19000000 [FieldValue.None])
    (run_all (take 2 sample_ops) encoder_new) (drop 2 sample_ops) []).
  { split; [apply handle_ok_intro; by vm_compute|]. split; [by vm_compute|].
    constructor; [|constructor]. split; [done|]. split; [by vm_compute|]. by right. }
  { apply injective_projections; by vm_compute. }
  apply (runs_ok _ (OpInternString (lit "main")) (run_all sample_ops encoder_new) [] []).
  { split; [by vm_compute|]. split; by vm_compute. }
  { apply injective_projections; by vm_compute. }
  constructor.
Qed.

Example stream_roundtrip_witness :
  ∃ d fs d', decoder_new (finish (run_all sample_ops encoder_new)) = Some d ∧
    decode_all d = (fs, d') ∧ Decoder.rest d' = [] ∧
    Forall2 (event_matches (SchemaRegistry.schemas (Decoder.registry d')))
      (events_of fs) sample_log.
Proof.
  destruct (stream_roundtrip (λ _, sample_entry) (λ _, sample_entry) sample_ops sample_log
              (run_all sample_ops encoder_new) sample_runs)
    as (d & fs & d' & H1 & H2 & H3 & H4 & _).
  by exists d, fs, d'.
Defined.

Section batches.
Context {type_entry : positive → SchemaEntry.t} {slot_entry : Z → SchemaEntry.t}.

Abbreviation ok := (encoder_ok type_entry slot_entry).
Abbreviation runs := (@runs type_entry slot_entry).

(** A batch: a finished encoder that started afresh (new, or reset), and the
    events it was asked to write. *)
Definition batch_ok (b : Encoder.t * list (SchemaEntry.t * Z * list FieldValue.t)) : Prop :=
  ∃ e0 ops, ok e0 ∧ fresh_encoder e0 ∧ runs e0 ops b.2 b.1.

Lemma batch_ok_new ops log e : runs encoder_new ops log e → batch_ok (e, log).
Proof.
  intros Hrun. exists encoder_new, ops. split; [apply encoder_new_ok|].
  split; [apply encoder_new_fresh|done].
Qed.

Definition batch_matches (fs : list DecodedFrame.t)
    (b : Encoder.t * list (SchemaEntry.t * Z * list FieldValue.t)) : Prop :=
  Forall2 (event_matches (SchemaRegistry.schemas (Encoder.registry b.1))) (events_of fs) b.2.

Definition joined (bs : list (Encoder.t * list (SchemaEntry.t * Z * list FieldValue.t)))
    : bytes := concat (map (λ b, finish b.1) bs).

Lemma batch_body b d :
  batch_ok b → fresh_decoder d →
  ∃ w fs d', finish b.1 = encode_header ++ w ∧ yields d w fs d' ∧ batch_matches fs b.
Proof.
  intros (e0 & ops & Hok & He & Hrun) Hd.
  destruct (stream_body e0 ops b.2 b.1 d Hok He Hrun Hd)
    as (w & fs & d' & Hw & Hy & _ & Hlog).
  by exists w, fs, d'.
Qed.

Lemma batches_decode bs d :
  Forall batch_ok bs → Decoder.rest d = joined bs →
  ∃ fss d', decode_all d = (concat fss, d') ∧ Decoder.rest d' = [] ∧
            Forall2 batch_matches fss bs.
Proof.
  intros Hbs. revert d. induction Hbs as [|b bs Hb _ IH]; intros d Hr.
  { exists [], d. rewrite decode_all_end by done. done. }
  unfold joined in Hr. cbn [map concat] in Hr. fold (joined bs) in Hr.
  assert (∃ w, finish b.1 = encode_header ++ w) as [w Hw].
  { destruct (batch_body b (reset_state d) Hb) as (w & _ & _ & Hw & _); [by split|]. by exists w. }
  assert (Decoder.rest d = MAGIC ++ VERSION :: (w ++ joined bs)) as Hr'
    by (rewrite Hr, Hw; unfold encode_header; by rewrite <- !app_assoc).
  set (d0 := Decoder.set_input (reset_state d) (Decoder.pos d + HEADER_SIZE) (w ++ joined bs)).
  destruct (batch_body b d0 Hb) as (w' & fs & d1 & Hw' & Hy & Hm); [by split|].
  rewrite Hw in Hw'. apply app_inv_head in Hw' as <-.
  destruct (IH (feed d1 (joined bs)) eq_refl) as (fss & d2 & Hd2 & Hend & Hrest).
  exists (fs :: fss), d2. rewrite (decode_all_reset d _ _ Hr'). fold d0.
  rewrite <- (feed_rest d0). change (Decoder.rest d0) with (w ++ joined bs).
  rewrite (Hy (joined bs)), Hd2. split; [done|]. split; [done|]. by constructor.
Qed.
End batches.

(** Batches joined end to end, from the first header on. *)
Lemma joined_decodes {type_entry slot_entry} b bs :
  Forall (@batch_ok type_entry slot_entry) (b :: bs) →
  ∃ d fss d', decoder_new (joined (b :: bs)) = Some d ∧ decode_all d = (concat fss, d') ∧
    Decoder.rest d' = [] ∧ Forall2 batch_matches fss (b :: bs).
Proof.
  intros Hbs. apply list.Forall_cons in Hbs as [Hb Hbs].
  assert (∃ w, finish b.1 = encode_header ++ w) as [w Hw].
  { destruct (batch_body b (Decoder.mk 0 [] registry_new [] ∅ ∅ VERSION 0) Hb)
      as (w & _ & _ & Hw & _); [by split|]. by exists w. }
  unfold joined. cbn [map concat]. rewrite Hw, <- app_assoc. fold (joined bs).
  destruct (decoder_new_header (w ++ joined bs)) as (d & Hd & Hfresh & Hr).
  destruct (batch_body b d Hb Hfresh) as (w' & fs & d1 & Hw' & Hy & Hm).
  rewrite Hw in Hw'. apply app_inv_head in Hw' as <-.
  destruct (batches_decode bs (feed d1 (joined bs)) Hbs eq_refl) as (fss & d2 & Hd2 & Hend & Hrest).
  exists d, (fs :: fss), d2. split; [done|]. rewrite <- (feed_rest d), Hr, (Hy (joined bs)), Hd2.
  split; [done|]. split; [done|]. by constructor.
Qed.

(** C3: Batches encoded independently (one per thread, each with its own
    header, schemas, pools and timestamp base) can be joined end to end: the
    decoder resets at each inner header and yields the events of every batch,
    in order, under the schemas of that batch. *)
Theorem concatenated_batches type_entry slot_entry b bs :
  Forall (@batch_ok type_entry slot_entry) (b :: bs) →
  ∃ d fss d', decoder_new (joined (b :: bs)) = Some d ∧ decode_all d = (concat fss, d') ∧
    Decoder.rest d' = [] ∧ Forall2 batch_matches fss (b :: bs).
Proof. apply joined_decodes. Qed.

Example concatenated_batches_witness :
  let b := (run_all sample_ops encoder_new, sample_log) in
  ∃ d fss d', decoder_new (joined [b; b]) = Some d ∧ decode_all d = (concat fss, d') ∧
    Decoder.rest d' = [] ∧ Forall2 batch_matches fss [b; b].
Proof.
  apply (concatenated_batches (λ _, sample_entry) (λ _, sample_entry)).
  assert (@batch_ok (λ _, sample_entry) (λ _, sample_entry)
            (run_all sample_ops encoder_new, sample_log)) as H
    by exact (batch_ok_new _ _ _ sample_runs).
  constructor; [exact H|]. constructor; [exact H|constructor].
Defined.

(** Whatever state an encoder is in, a call whose arguments are well
    formed either succeeds or is refused as invalid input and then changes
    nothing; the panic and the internal-inconsistency error cannot occur. *)
Theorem encoder_calls_total type_entry slot_entry ops log e o :
  @runs type_entry slot_entry encoder_new ops log e →
  @op_ok type_entry slot_entry o e →
  (∃ e', run_op o e = (Ok tt, e') ∧
     SchemaRegistry.schemas (Encoder.registry e) ⊆ SchemaRegistry.schemas (Encoder.registry e') ∧
     into_inner e `prefix_of` into_inner e') ∨
  run_op o e = (Err InvalidInput, e).
Proof.
  intros Hrun Ho.
  destruct (runs_transfer encoder_new ops log e idle_decoder Hrun (encoder_new_ok [])
              (idle_mirrors _ encoder_new_fresh))
    as (d' & _ & (Hok & Hm & _) & _).
  destruct (op_step o e d' Hok Hm Ho) as [(e' & d2 & evs & Hr & (_ & _ & Hsub & w & fs & Hw & _) & _)|Hr].
  - left. exists e'. split; [done|]. split; [done|]. by exists w.
  - by right.
Qed.

Example encoder_calls_total_witness :
  let o := OpRegister (handle_new 0x3000 (lit "Dyn") []) in
  let e := run_all sample_ops encoder_new in
  run_op o e = (Err InvalidInput, e).
Proof.
  intros o e.
  destruct (encoder_calls_total (λ _, sample_entry) (λ _, sample_entry) sample_ops sample_log e o
              sample_runs) as [(e' & H & _)|H]; [by apply handle_ok_intro; vm_compute| |exact H].
  exfalso. apply (f_equal fst) in H. vm_compute in H. discriminate H.
Defined.

(** [reset_to] gives a fresh encoder. *)
Lemma reset_to_ok {type_entry slot_entry} old :
  encoder_ok type_entry slot_entry old →
  encoder_ok type_entry slot_entry (snd (reset_to [] old)).
Proof.
  intros Hok. pose proof (ok_words _ _ _ Hok) as Hw.
    destruct (encoder_new_ok (type_entry := type_entry) (slot_entry := slot_entry) []).
    assert (∀ n, nth n (map (λ _, 0) (Encoder.registered_ids old)) 0 = 0) as Hz.
    { intros n. rewrite nth_lookup, list_lookup_fmap. by destruct (_ !! n). }
    split; try done; cbn.
    - intros i c Hi Hc. rewrite list_lookup_fmap in Hi.
      destruct (Encoder.slot_cache old !! i); cbn in Hi; congruence.
    - intros slot Hs Hb. rewrite slot_bit_testbit in Hb by lia. by rewrite Hz, Z.bits_0 in Hb.
    - by rewrite length_map.
Qed.

Lemma reset_to_fresh old : fresh_encoder (snd (reset_to [] old)).
Proof. by split. Qed.

(** After [reset_to] an encoder is as good as a new one: whatever it had
    written and learned before, the stream written from then on decodes whole,
    under its own header, schemas and pools. *)
Theorem reset_to_starts_over type_entry slot_entry ops log old ops' log' e :
  @runs type_entry slot_entry encoder_new ops log old →
  @runs type_entry slot_entry (snd (reset_to [] old)) ops' log' e →
  fst (reset_to [] old) = Ok (finish old) ∧
  ∃ d fs d', decoder_new (finish e) = Some d ∧ decode_all d = (fs, d') ∧
    Decoder.rest d' = [] ∧
    Forall2 (event_matches (SchemaRegistry.schemas (Decoder.registry d'))) (events_of fs) log'.
Proof.
  intros Hold Hrun. split; [done|].
  destruct (runs_transfer encoder_new ops log old idle_decoder
              Hold (encoder_new_ok []) (idle_mirrors _ encoder_new_fresh))
    as (_ & _ & (Hok & _) & _).
  apply reset_to_ok in Hok as Hok'.
  destruct (stream_decodes (snd (reset_to [] old)) ops' log' e Hok' (reset_to_fresh old) Hrun)
    as (d & fs & d' & Hd & Hall & Hr & _ & Hlog).
  by exists d, fs, d'.
Qed.

Example reset_to_starts_over_witness :
  fst (reset_to [] (run_all sample_ops encoder_new))
  = Ok (finish (run_all sample_ops encoder_new)) ∧
  ∃ d fs d', decoder_new encode_header = Some d ∧ decode_all d = (fs, d') ∧
    Decoder.rest d' = [] ∧
    Forall2 (event_matches (SchemaRegistry.schemas (Decoder.registry d'))) (events_of fs) [].
Proof.
  apply (reset_to_starts_over (λ _, sample_entry) (λ _, sample_entry) sample_ops sample_log
           (run_all sample_ops encoder_new) [] []
           (snd (reset_to [] (run_all sample_ops encoder_new))) sample_runs).
  constructor.
Defined.
