(* ===== verification/Resume.v ===== *)
(** * Appending to a decoded trace (src/dial9-trace-format/src/encoder.rs,
    [Encoder::from_decoder], reached through [Decoder::into_encoder])

    An encoder seeded from a decoder's state continues the stream the decoder
    has read: [resumed_stream] says what it appends decodes as if one encoder
    had written everything.  The seeded encoder does not know which typed
    schemas the stream already announced, so a typed event with annotations is
    announced again, which the decoder refuses ([reannounced_schema_conflicts]). *)

From Stdlib Require Import ZArith Lia.
From stdpp Require Import base list gmap sets strings option fin_maps.
From coqutil Require Import Byte Word.LittleEndianList.
From S2P Require Import Prelude.
From S2P Require Import Utf8.
From S2P Require Import FieldType.
From S2P Require Import FieldValue.
From S2P Require Import Schema.
From S2P Require Import Codec.
From S2P Require Import Decoder.
From S2P Require Import EventEncoder.
From S2P Require Import Encoder.
From S2P Require Import Stream.

(** [Decoder::into_encoder]; the pools in the order their hash maps iterate. *)
Definition into_encoder (d : Decoder.t) (strings : list (Z * bytes)) (stacks : list (Z * list Z))
    (writer : bytes) : Encoder.t :=
  from_decoder (Decoder.registry d) strings stacks (Decoder.timestamp_base_ns d) writer.

(** ** The pools *)

(** One pool's loop: the last id of each value, and a counter past every id. *)
Definition seed_pool {V : Type} `{Countable V} (l : list (Z * V)) : gmap V Z * Z :=
  foldl (λ '(pool, next) '(id, value),
           (<[value := id]> pool, if id >=? next then wrapping_add 32 id 1 else next))
    (∅, 0) l.

Lemma seed_pool_spec {V : Type} `{Countable V} (l : list (Z * V)) :
  (∀ id v, (id, v) ∈ l → 0 <= id < 2 ^ 32 - 1) →
  fits 32 (snd (seed_pool l)) ∧
  ∀ v id, fst (seed_pool l) !! v = Some id → (id, v) ∈ l ∧ 0 <= id < snd (seed_pool l).
Proof.
  unfold seed_pool. induction l as [|[i w] l IH] using rev_ind; intros Hl.
  { split; [by unfold fits|]. intros v id Hv. cbn in Hv. by rewrite lookup_empty in Hv. }
  rewrite foldl_app. cbn [foldl].
  destruct IH as [Hn IH]; [intros id v Hin; apply (Hl id v); set_solver|].
  destruct (foldl _ _ l) as [pool next]. cbn [fst snd] in *.
  assert (0 <= i < 2 ^ 32 - 1) as Hi by (apply (Hl i w); set_solver).
  rewrite wrapping_add_small by (unfold fits; lia).
  split; [unfold fits in *; destruct (i >=? next); lia|].
  intros v id Hv. apply lookup_insert_Some in Hv as [[<- <-]|[_ Hv]].
  - split; [set_solver|]. destruct (i >=? next) eqn:E; bool_facts; lia.
  - apply IH in Hv as [Hin Hid]. split; [set_solver|].
    destruct (i >=? next) eqn:E; bool_facts; lia.
Qed.

(** The name index leads to schemas of that name. *)
Lemma seed_names (m : gmap Z SchemaEntry.t) k id :
  map_fold (λ wire_id entry (ids : gmap SchemaKey Z),
              <[Name (SchemaEntry.name entry) := wire_id]> ids) ∅ m !! k = Some id →
  ∃ entry, m !! id = Some entry ∧ k = Name (SchemaEntry.name entry).
Proof.
  revert k id.
  apply (map_fold_weak_ind (λ ids m, ∀ k id, ids !! k = Some id →
    ∃ entry, m !! id = Some entry ∧ k = Name (SchemaEntry.name entry))).
  - intros k id Hk. by rewrite lookup_empty in Hk.
  - intros i x m' ids Hi IH k id Hk. apply lookup_insert_Some in Hk as [[<- <-]|[_ Hk]].
    + exists x. by rewrite lookup_insert_eq.
    + apply IH in Hk as (entry & He & ->). exists entry. split; [|done].
      rewrite lookup_insert_ne; [done|]. intros ->. by rewrite Hi in He.
Qed.

(** ** A seeded encoder mirrors the decoder it was seeded from *)

(** What lets a decoded stream be continued: every schema is a dynamic one
    with a packed timestamp, and the ids leave room for the counters. *)
Record resumable (d : Decoder.t) : Prop := {
  resume_ids id entry :
    SchemaRegistry.schemas (Decoder.registry d) !! id = Some entry →
    STATIC_WIRE_ID_LIMIT <= id < 2 ^ 16 - 1;
  resume_info id entry :
    SchemaRegistry.schemas (Decoder.registry d) !! id = Some entry →
    schema_info d id = Some (SchemaInfo.mk (tags_of entry) true);
  resume_base : fits 64 (Decoder.timestamp_base_ns d);
  resume_strings id s : Decoder.string_pool d !! id = Some s → 0 <= id < 2 ^ 32 - 1;
  resume_stacks id l : Decoder.stack_pool d !! id = Some l → 0 <= id < 2 ^ 32 - 1 }.

Section seeded.
Context (d : Decoder.t) (strings : list (Z * bytes)) (stacks : list (Z * list Z)).
Context (writer : bytes).
Hypothesis Hd : resumable d.
Hypothesis Hstrings : strings ≡ₚ map_to_list (Decoder.string_pool d).
Hypothesis Hstacks : stacks ≡ₚ map_to_list (Decoder.stack_pool d).

Let e := into_encoder d strings stacks writer.

Lemma into_encoder_eq :
  e = Encoder.mk
        (set_ts_base_unchecked (encode_state_new writer) (Decoder.timestamp_base_ns d))
        (sync_next_id (Decoder.registry d))
        (fst (seed_pool strings)) (snd (seed_pool strings))
        (fst (seed_pool stacks)) (snd (seed_pool stacks))
        (map_fold (λ wire_id entry (ids : gmap SchemaKey Z),
                     <[Name (SchemaEntry.name entry) := wire_id]> ids)
           ∅ (SchemaRegistry.schemas (Decoder.registry d))) ∅ [] [0; 0; 0; 0].
Proof.
  unfold e, into_encoder, from_decoder, seed_pool.
  by destruct (foldl _ _ strings), (foldl _ _ stacks).
Qed.

Lemma pool_elem {V : Type} (l : list (Z * V)) (m : gmap Z V) id v :
  l ≡ₚ map_to_list m → (id, v) ∈ l → m !! id = Some v.
Proof. intros -> Hin. by apply elem_of_map_to_list. Qed.

Lemma strings_seeded :
  fits 32 (snd (seed_pool strings)) ∧
  ∀ s id, fst (seed_pool strings) !! s = Some id →
    (id, s) ∈ strings ∧ 0 <= id < snd (seed_pool strings).
Proof.
  apply seed_pool_spec. intros id v Hin. eapply resume_strings; [done|].
  by apply (pool_elem strings).
Qed.

Lemma stacks_seeded :
  fits 32 (snd (seed_pool stacks)) ∧
  ∀ l id, fst (seed_pool stacks) !! l = Some id →
    (id, l) ∈ stacks ∧ 0 <= id < snd (seed_pool stacks).
Proof.
  apply seed_pool_spec. intros id v Hin. eapply resume_stacks; [done|].
  by apply (pool_elem stacks).
Qed.

Lemma zero_bits slot : slot_bit [0; 0; 0; 0] slot = false.
Proof.
  unfold slot_bit. assert (∀ n, nth n [0; 0; 0; 0] 0 = 0) as -> by (intros [|[|[|[|[]]]]]; done).
  by rewrite Z.land_0_l.
Qed.

Lemma seeded_ok type_entry slot_entry : encoder_ok type_entry slot_entry e.
Proof.
  rewrite into_encoder_eq. destruct strings_seeded as [Hs1 Hs2]. destruct stacks_seeded as [Hk1 Hk2].
  split; cbn; try done; try (by intros *; rewrite lookup_empty).
  - apply sync_next_id_ok. intros id entry He. apply (resume_ids _ Hd) in He.
    unfold STATIC_WIRE_ID_LIMIT in He. lia.
  - intros id entry He. apply (resume_ids _ Hd) in He. unfold STATIC_WIRE_ID_LIMIT, fits in *. lia.
  - intros n id Hn. apply seed_names in Hn as (entry & He & [= ->]). by exists entry.
  - intros t id Hn. apply seed_names in Hn as (entry & He & [=]).
  - intros slot _ Hb. by rewrite zero_bits in Hb.
  - intros slot Hs _. destruct (SchemaRegistry.schemas (Decoder.registry d) !! slot) eqn:E; [|done].
    apply (resume_ids _ Hd) in E. lia.
  - apply Hd.
  - intros s id Hi. by apply Hs2 in Hi as [_ ?].
  - intros l id Hi. by apply Hk2 in Hi as [_ ?].
Qed.

Lemma seeded_mirrors : mirrors e d.
Proof.
  rewrite into_encoder_eq. destruct strings_seeded as [_ Hs]. destruct stacks_seeded as [_ Hk].
  split; cbn; try done; try apply (resume_info _ Hd).
  - intros s id Hi. apply Hs in Hi as [Hi _]. by apply (pool_elem strings).
  - intros l id Hi. apply Hk in Hi as [Hi _]. by apply (pool_elem stacks).
Qed.

Lemma seeded_inner : into_inner e = writer.
Proof. by rewrite into_encoder_eq. Qed.
End seeded.

(** What an encoder wrote can be continued when none of its schemas came from
    a static slot and the pool ids leave room. *)
Lemma written_resumable type_entry slot_entry e d :
  encoder_ok type_entry slot_entry e → mirrors e d →
  (∀ id entry, SchemaRegistry.schemas (Decoder.registry d) !! id = Some entry →
     STATIC_WIRE_ID_LIMIT <= id) →
  (∀ id s, Decoder.string_pool d !! id = Some s → 0 <= id < 2 ^ 32 - 1) →
  (∀ id l, Decoder.stack_pool d !! id = Some l → 0 <= id < 2 ^ 32 - 1) →
  resumable d.
Proof.
  intros Hok Hm Hids Hs Hk. destruct Hm as [M1 M2 M3 _ _]. split; try done.
  - intros id entry He. pose proof (Hids _ _ He). rewrite M1 in He.
    apply (ok_registry _ _ _ Hok) in He. pose proof (proj1 (ok_registry _ _ _ Hok)). lia.
  - intros id entry. rewrite M1. apply M2.
  - rewrite M3. by apply ok_base in Hok.
Qed.

(** Reading on behind what another decoder has read. *)
Lemma decoder_new_app a b d :
  decoder_new (encode_header ++ a) = Some d →
  decoder_new (encode_header ++ a ++ b) = Some (feed d (a ++ b)).
Proof.
  unfold decoder_new. intros H.
  assert (∀ x, decode_header (encode_header ++ x) = Some VERSION) as Hh
    by (intros x; apply decode_header_some; by exists x).
  rewrite Hh in H |- *. apply Some_inj in H as <-. done.
Qed.

(** ** Main properties *)


(** A dynamic event and an interned string, then, after resuming, one more of
    each: the string is a new one and the schema is known by its name. *)
Definition first_ops : list op :=
  [OpWriteEvent sample_handle 19000000 [FieldValue.None]; OpInternString (lit "main")].

Definition second_ops : list op :=
  [OpWriteEvent sample_handle 19500000 [FieldValue.None]; OpInternString (lit "worker")].

Definition handle_log (ts : Z) : list (SchemaEntry.t * Z * list FieldValue.t) :=
  [(SchemaHandle.entry sample_handle, ts, [FieldValue.None])].

Lemma two_ops_run type_entry slot_entry ts s e :
  let o1 := OpWriteEvent sample_handle ts [FieldValue.None] in
  let o2 := OpInternString s in
  handle_ok sample_handle e → fits 64 ts → utf8_valid s = true → blen s < 2 ^ 32 →
  fst (run_op o1 e) = Ok tt → Encoder.next_pool_id (run_all [o1] e) + 1 < 2 ^ 32 →
  fst (run_op o2 (run_all [o1] e)) = Ok tt →
  @runs type_entry slot_entry e [o1; o2] (handle_log ts) (run_all [o1; o2] e).
Proof.
  intros o1 o2 Hh Hts Hu Hl H1 Hr H2.
  apply (runs_ok e o1 (run_all [o1] e) [o2] []); [|by apply injective_projections|].
  { split; [done|]. split; [done|]. constructor; [|constructor].
    split; [done|]. split; [by vm_compute|]. by right. }
  apply (runs_ok _ o2 (run_all [o1; o2] e) [] []); [done|by apply injective_projections|].
  constructor.
Qed.

Definition ids_within {V} (lo hi : Z) (m : gmap Z V) : bool :=
  forallb (λ kv, (lo <=? fst kv) && (fst kv <? hi)) (map_to_list m).

Lemma ids_within_spec {V} lo hi (m : gmap Z V) :
  ids_within lo hi m = true → ∀ id x, m !! id = Some x → lo <= id < hi.
Proof.
  intros Hm id x Hx. apply elem_of_map_to_list in Hx.
  unfold ids_within in Hm. rewrite forallb_forall in Hm.
  apply list_elem_of_In, Hm in Hx. cbn in Hx. lia.
Qed.


(** A typed write of a slot the encoder has not announced, when the registry
    holds the very schema. *)
Lemma write_unannounced ev arc e :
  let slot := TraceEvent.type_slot ev in
  0 < slot < STATIC_WIRE_ID_LIMIT → entry_ok (TraceEvent.schema_entry ev) = true →
  slot_bit (Encoder.registered_ids e) slot = false →
  SchemaRegistry.schemas (Encoder.registry e) !! slot = Some (TraceEvent.schema_entry ev) →
  fits 64 (TraceEvent.timestamp ev) → fits 64 (EncodeState.timestamp_base_ns (Encoder.state e)) →
  ∃ e' w, write ev arc e = (Ok tt, e') ∧
    into_inner e' = into_inner e ++ schema_bytes slot (TraceEvent.schema_entry ev) ++ w.
Proof.
  intros slot Hslot Hok Hbit Hreg Hts Hb.
  assert (∃ e1, register_fast_id ev slot e = (Ok tt, e1) ∧
            into_inner e1 = into_inner e ++ schema_bytes slot (TraceEvent.schema_entry ev) ∧
            Encoder.state e1 = Encoder.state (wrote e (schema_bytes slot (TraceEvent.schema_entry ev))))
    as (e1 & Hfast & Hin & Hst).
  { unfold register_fast_id, bind, get. rewrite emit_schema_run by done. cbv beta iota.
    unfold register. cbn [Encoder.registry wrote Encoder.set_state].
    rewrite Hreg, decide_True by done. by eexists. }
  destruct (write_frame_run slot (TraceEvent.timestamp ev) (TraceEvent.encode_fields ev) e1 Hts)
    as (delta & w & Hw & _); [by rewrite Hst|].
  eexists _, _. split.
  - unfold write, bind at 1 2 3, get. fold slot.
    assert (negb (slot =? 0) && (slot <? STATIC_WIRE_ID_LIMIT) = true) as -> by lia.
    rewrite Hbit, Hfast. exact Hw.
  - cbn. change (CountingWriter.inner (EncodeState.writer (Encoder.state e1)))
      with (into_inner e1). rewrite Hin, <- app_assoc. reflexivity.
Qed.

(** A typed event whose schema carries annotations breaks the stream it
    resumes: the seeded encoder has the schema in its registry but not in its
    slot bitset, so it announces it again, and every decoder that knows the
    schema with its annotations refuses the second announcement. *)
Theorem reannounced_schema_conflicts d strings stacks ev arc :
  let slot := TraceEvent.type_slot ev in
  0 < slot < STATIC_WIRE_ID_LIMIT → entry_ok (TraceEvent.schema_entry ev) = true →
  SchemaEntry.annotations (TraceEvent.schema_entry ev) ≠ [] →
  SchemaRegistry.schemas (Decoder.registry d) !! slot = Some (TraceEvent.schema_entry ev) →
  fits 64 (TraceEvent.timestamp ev) → fits 64 (Decoder.timestamp_base_ns d) →
  ∃ e', write ev arc (into_encoder d strings stacks []) = (Ok tt, e') ∧
    ∃ p d', next_frame (feed d (finish e'))
            = (Err (DecodeError.mk p DecodeError.SchemaConflict), d').
Proof.
  intros slot Hslot Hok Hann Hreg Hts Hb. set (entry := TraceEvent.schema_entry ev) in *.
  set (e := into_encoder d strings stacks []).
  destruct (write_unannounced ev arc e Hslot Hok) as (e' & w & Hw & Hin);
    [unfold e; rewrite ?into_encoder_eq..|].
  { apply zero_bits. }
  { exact Hreg. }
  { exact Hts. }
  { exact Hb. }
  exists e'. split; [exact Hw|].
  assert (finish e' = encode_schema slot entry
            ++ drop (length (encode_schema slot entry)) (schema_bytes slot entry) ++ w) as ->.
  { unfold finish. rewrite Hin. unfold e. rewrite (seeded_inner d). fold entry slot.
    unfold schema_bytes. by rewrite drop_app_length, <- app_assoc. }
  assert (fits 16 slot) as Hid by (unfold STATIC_WIRE_ID_LIMIT, fits in *; lia).
  eexists _, _. erewrite next_frame_step; [|reflexivity|by apply decode_schema_inverts].
  cbn [handle_frame]. unfold Decoder.register_schema.
  rewrite (proj2 (register_conflict _ _ _)); [reflexivity|].
  exists entry. split; [exact Hreg|]. intros Heq. apply Hann. fold entry. by rewrite Heq.
Qed.

(** An annotated slot schema, announced in a first stream. *)
Definition annotated_event : TraceEvent.t :=
  TraceEvent.mk 1 7 annotated_entry 5000 (put_le 2 3 ++ [Byte.x00]).

Definition annotated_stream : bytes :=
  finish (snd (write annotated_event 0x1000 encoder_new)).

Example reannounced_schema_conflicts_witness :
  ∃ d, decoder_new annotated_stream = Some d ∧
    let d' := snd (decode_all d) in
    Decoder.rest d' = [] ∧
    ∃ e', write annotated_event 0x1000 (into_encoder d' [] [] []) = (Ok tt, e') ∧
      ∃ p d2, next_frame (feed d' (finish e'))
              = (Err (DecodeError.mk p DecodeError.SchemaConflict), d2).
Proof.
  destruct (decoder_new annotated_stream) as [d|] eqn:E; [|by vm_compute in E].
  exists d. split; [done|]. intros d'. vm_compute in E. apply Some_inj in E. subst d.
  split; [by vm_compute|].
  apply (reannounced_schema_conflicts d' [] [] annotated_event 0x1000); by vm_compute.
Defined.
