(* ===== verification/Derive.v ===== *)
(** * [#[derive(TraceEvent)]] (src/dial9-trace-format-derive/src/lib.rs)

    [derive_trace_event_impl] from the struct's fields and [traceevent] keys to
    the implementation it generates, with its compile errors, and that
    implementation run on a value of the struct.  The theorems say what an
    accepted struct's schema looks like and that its events satisfy what the
    encoder asks of a typed event ([event_ok]).  Tokens are not modelled: a key
    comes with the literal [syn] parsed for it, if it did, and the crate path
    ([resolve_crate_path]) does not matter.  [TypeSlot] is the generated
    [type_slot], called from many threads. *)

From Stdlib Require Import ZArith Lia.
From stdpp Require Import base list gmap sets strings option.
From coqutil Require Import Byte Word.LittleEndianList.
From S2P Require Import Prelude.
From S2P Require Import Utf8.
From S2P Require Import FieldType.
From S2P Require Import FieldValue.
From S2P Require Import Schema.
From S2P Require Import Codec.
From S2P Require Import EventEncoder.
From S2P Require Import Stream.

Definition SUPPORTED_UNITS : list bytes := [lit "ns"; lit "us"; lit "ms"; lit "s"; lit "bytes"].
Definition SUPPORTED_KINDS : list bytes := [lit "gauge"; lit "counter"; lit "updown-counter"].
Definition ROLE_ANNOTATION_KEY : bytes := lit "dial9.role".
Definition SUPPORTED_ROLES : list bytes :=
  [lit "span.start"; lit "span.duration"; lit "span.name"; lit "thread_id";
   lit "tokio.task_id"; lit "tokio.worker_id"].

(** ** The input *)

(** One key inside [#[traceevent(...)]]: its path, and what
    [meta.value()?.parse()?] gives when the code asks for it. *)
Module Meta.
Record t : Type := mk { path : bytes; value : option bytes }.
End Meta.

(** An attribute of a field or of the struct. *)
Module Attr.
Record t : Type := mk { path : bytes; metas : list Meta.t }.
End Attr.

(** A named field, with the [TraceField] implementation of its type. *)
Module Field.
Record t : Type := mk {
  ident : bytes;
  attrs : list Attr.t;
  ty : Type;
  trace_field : TraceField ty }.
End Field.

#[global] Existing Instance Field.trace_field.

Inductive data : Type :=
| NamedFields (fields : list Field.t)
| OtherFields
| NotStruct.

Module DeriveInput.
Record t : Type := mk {
  ident : bytes;
  type_params : nat;
  const_params : nat;
  lifetimes : nat;
  attrs : list Attr.t;
  body : data }.
End DeriveInput.

(** Compile errors, and the three panics of the macro. *)
Inductive derive_error : Set :=
| UnsupportedGenerics | PanicNotNamedFields | PanicNotStruct | PanicNoTimestamp
| UnrecognizedKey | MissingValue
| TimestampWithName | TimestampWithUnit | TimestampWithRole | TimestampWithKind
| DuplicateFieldName | UnsupportedUnit | UnsupportedRole | UnsupportedKind.

Notation "'let?' x := m 'in' k" :=
  (match m with Ok x => k | Err e => Err e end)
  (at level 10, x pattern, m at level 100, k at level 200).

(** ** Attributes *)

Module FieldAttrs.
Record t : Type := mk {
  timestamp : bool;
  name : option bytes;
  unit : option bytes;
  role : option bytes;
  kind : option bytes }.

Definition empty : t := mk false None None None None.
End FieldAttrs.

Definition meta_value (m : Meta.t) : result bytes derive_error :=
  match Meta.value m with Some v => Ok v | None => Err MissingValue end.

Definition parse_field_meta (parsed : FieldAttrs.t) (m : Meta.t)
    : result FieldAttrs.t derive_error :=
  let '(FieldAttrs.mk ts name unit role kind) := parsed in
  if bool_decide (Meta.path m = lit "timestamp") then
    Ok (FieldAttrs.mk true name unit role kind)
  else if bool_decide (Meta.path m = lit "name") then
    let? v := meta_value m in Ok (FieldAttrs.mk ts (Some v) unit role kind)
  else if bool_decide (Meta.path m = lit "unit") then
    let? v := meta_value m in Ok (FieldAttrs.mk ts name (Some v) role kind)
  else if bool_decide (Meta.path m = lit "role") then
    let? v := meta_value m in Ok (FieldAttrs.mk ts name unit (Some v) kind)
  else if bool_decide (Meta.path m = lit "kind") then
    let? v := meta_value m in Ok (FieldAttrs.mk ts name unit role (Some v))
  else Err UnrecognizedKey.

(** Left fold that stops at the first error. *)
Fixpoint fold_result {A B E} (f : A → B → result A E) (a : A) (l : list B) : result A E :=
  match l with
  | [] => Ok a
  | b :: l => let? a := f a b in fold_result f a l
  end.

(** The keys of the [traceevent] attributes among [attrs], in order. *)
Definition traceevent_metas (attrs : list Attr.t) : list Meta.t :=
  concat (Attr.metas <$> filter (λ a, Attr.path a = lit "traceevent") attrs).

Definition parse_field_attrs (field : Field.t) : result FieldAttrs.t derive_error :=
  fold_result parse_field_meta FieldAttrs.empty (traceevent_metas (Field.attrs field)).

(** The struct's own keys: [wire_slot], and the event name override. *)
Definition parse_struct_meta (parsed : bool * option bytes) (m : Meta.t)
    : result (bool * option bytes) derive_error :=
  if bool_decide (Meta.path m = lit "wire_slot") then Ok (true, snd parsed)
  else if bool_decide (Meta.path m = lit "name") then
    let? v := meta_value m in Ok (fst parsed, Some v)
  else Err UnrecognizedKey.

(** [fields.iter().map(parse_field_attrs).collect::<Result<_, _>>()?], zipped
    with the fields. *)
Fixpoint parse_all_attrs (fields : list Field.t)
    : result (list (Field.t * FieldAttrs.t)) derive_error :=
  match fields with
  | [] => Ok []
  | f :: fields =>
      let? a := parse_field_attrs f in
      let? l := parse_all_attrs fields in Ok ((f, a) :: l)
  end.

(** The last field marked [timestamp] wins. *)
Definition timestamp_field (l : list (Field.t * FieldAttrs.t)) : option bytes :=
  foldl (λ found '(f, a), if FieldAttrs.timestamp a then Some (Field.ident f) else found) None l.

(** ** The field loop *)

Module Tokens.
Record t : Type := mk {
  field_defs : list FieldDef.t;
  names : list bytes;
  encodes : list Field.t;
  annotations : list FieldAnnotation.t }.

Definition empty : t := mk [] [] [] [].
End Tokens.

(** One optional annotation: its value must be in the supported list. *)
Definition annotate (idx : Z) (key : bytes) (supported : list bytes) (err : derive_error)
    (v : option bytes) (l : list FieldAnnotation.t) : result (list FieldAnnotation.t) derive_error :=
  match v with
  | None => Ok l
  | Some v =>
      if bool_decide (v ∈ supported) then Ok (l ++ [FieldAnnotation.mk idx key v]) else Err err
  end.

Definition derive_field (ts : option bytes) (t : Tokens.t) (fa : Field.t * FieldAttrs.t)
    : result Tokens.t derive_error :=
  let '(field, attrs) := fa in
  if bool_decide (ts = Some (Field.ident field)) then
    match FieldAttrs.name attrs, FieldAttrs.unit attrs, FieldAttrs.role attrs,
          FieldAttrs.kind attrs with
    | Some _, _, _, _ => Err TimestampWithName
    | _, Some _, _, _ => Err TimestampWithUnit
    | _, _, Some _, _ => Err TimestampWithRole
    | _, _, _, Some _ => Err TimestampWithKind
    | None, None, None, None => Ok t
    end
  else
    let name := default (Field.ident field) (FieldAttrs.name attrs) in
    if bool_decide (name ∈ Tokens.names t) then Err DuplicateFieldName else
    let idx := cast 16 (blen (Tokens.field_defs t)) in
    let l := Tokens.annotations t in
    let? l := annotate idx (lit "unit") SUPPORTED_UNITS UnsupportedUnit (FieldAttrs.unit attrs) l in
    let? l := annotate idx ROLE_ANNOTATION_KEY SUPPORTED_ROLES UnsupportedRole
                (FieldAttrs.role attrs) l in
    let? l := annotate idx (lit "kind") SUPPORTED_KINDS UnsupportedKind (FieldAttrs.kind attrs) l in
    Ok (Tokens.mk
          (Tokens.field_defs t ++ [FieldDef.mk name (field_type (Field.ty field))])
          (Tokens.names t ++ [name]) (Tokens.encodes t ++ [field]) l).

(** ** The generated implementation *)

Module Impl.
Record t : Type := mk {
  event_name : bytes;
  wire_slot : bool;
  tokens : Tokens.t;
  timestamp_field : bytes }.
End Impl.

Definition derive_trace_event_impl (input : DeriveInput.t) : result Impl.t derive_error :=
  if bool_decide (DeriveInput.type_params input ≠ 0%nat ∨ DeriveInput.const_params input ≠ 0%nat
                  ∨ (1 < DeriveInput.lifetimes input)%nat) then Err UnsupportedGenerics else
  match DeriveInput.body input with
  | NotStruct => Err PanicNotStruct
  | OtherFields => Err PanicNotNamedFields
  | NamedFields fields =>
      let? (wire_slot, name_override) :=
        fold_result parse_struct_meta (false, None) (traceevent_metas (DeriveInput.attrs input)) in
      let? field_attrs := parse_all_attrs fields in
      let ts := timestamp_field field_attrs in
      let? tokens := fold_result (derive_field ts) Tokens.empty field_attrs in
      match ts with
      | None => Err PanicNoTimestamp
      | Some ts =>
          Ok (Impl.mk (default (DeriveInput.ident input) name_override) wire_slot tokens ts)
      end
  end.

(** [schema_entry()]: overridden only when there are annotations. *)
Definition derived_schema (i : Impl.t) : SchemaEntry.t :=
  match Tokens.annotations (Impl.tokens i) with
  | [] => SchemaEntry.mk (Impl.event_name i) (Tokens.field_defs (Impl.tokens i)) []
  | l => SchemaEntry.mk (Impl.event_name i) (Tokens.field_defs (Impl.tokens i)) l
  end.

(** A value of the struct, the timestamp aside: one value per encoded field. *)
Fixpoint self_of (fields : list Field.t) : Type :=
  match fields with
  | [] => unit
  | f :: fields => (Field.ty f * self_of fields)%type
  end.

(** The body of [encode_fields]: [encode(&self.f, enc)?] for each field. *)
Fixpoint derived_encode (fields : list Field.t) : self_of fields → bytes :=
  match fields with
  | [] => λ _, []
  | f :: fields => λ self, encode_field (fst self) ++ derived_encode fields (snd self)
  end.

(** The implementation on a value of the struct: [time] gives its [u64]
    fields by name, [slot] is what the type claims from [__NEXT_TYPE_SLOT]. *)
Definition derived_event (i : Impl.t) (rust_type : positive) (slot : Z)
    (self : self_of (Tokens.encodes (Impl.tokens i))) (time : bytes → Z) : TraceEvent.t :=
  TraceEvent.mk rust_type (if Impl.wire_slot i then slot else 0) (derived_schema i)
    (time (Impl.timestamp_field i)) (derived_encode (Tokens.encodes (Impl.tokens i)) self).

(** ** What the field loop builds *)

(** The name a field has in the schema. *)
Definition wire_name (fa : Field.t * FieldAttrs.t) : bytes :=
  default (Field.ident (fst fa)) (FieldAttrs.name (snd fa)).

Definition def_of (fa : Field.t * FieldAttrs.t) : FieldDef.t :=
  FieldDef.mk (wire_name fa) (field_type (Field.ty (fst fa))).

(** The annotations a field's keys ask for, at index [n]. *)
Definition annotations_of (n : nat) (fa : Field.t * FieldAttrs.t) : list FieldAnnotation.t :=
  let idx := cast 16 (Z.of_nat n) in
  let at_key key v := FieldAnnotation.mk idx key <$> option_list v in
  at_key (lit "unit") (FieldAttrs.unit (snd fa))
  ++ at_key ROLE_ANNOTATION_KEY (FieldAttrs.role (snd fa))
  ++ at_key (lit "kind") (FieldAttrs.kind (snd fa)).

Definition supported (a : FieldAttrs.t) : Prop :=
  (∀ v, FieldAttrs.unit a = Some v → v ∈ SUPPORTED_UNITS) ∧
  (∀ v, FieldAttrs.role a = Some v → v ∈ SUPPORTED_ROLES) ∧
  (∀ v, FieldAttrs.kind a = Some v → v ∈ SUPPORTED_KINDS).

(** The fields that are encoded: all but the timestamp. *)
Definition kept (ts : option bytes) (l : list (Field.t * FieldAttrs.t))
    : list (Field.t * FieldAttrs.t) :=
  filter (λ fa, ts ≠ Some (Field.ident (fst fa))) l.

Record tokens_ok (done : list (Field.t * FieldAttrs.t)) (t : Tokens.t) : Prop := {
  tokens_defs : Tokens.field_defs t = map def_of done;
  tokens_names : Tokens.names t = map wire_name done;
  tokens_nodup : NoDup (Tokens.names t);
  tokens_encodes : Tokens.encodes t = map fst done;
  tokens_annotations : Tokens.annotations t = concat (imap annotations_of done);
  tokens_supported : Forall (λ fa, supported (snd fa)) done }.

Lemma annotate_ok idx key values err v l l' :
  annotate idx key values err v l = Ok l' →
  l' = l ++ (FieldAnnotation.mk idx key <$> option_list v) ∧ ∀ x, v = Some x → x ∈ values.
Proof.
  unfold annotate. destruct v as [v|].
  - destruct (bool_decide (v ∈ values)) eqn:E; [|done]. intros [= <-].
    apply bool_decide_eq_true in E. split; [done|]. by intros ? [= <-].
  - intros [= <-]. cbn. by rewrite app_nil_r.
Qed.

(** One round of the loop. *)
Lemma derive_field_ok ts t fa t' done :
  derive_field ts t fa = Ok t' → tokens_ok done t → tokens_ok (done ++ kept ts [fa]) t'.
Proof.
  destruct fa as [field attrs]. unfold derive_field, kept. intros H [].
  destruct (bool_decide_reflect (ts = Some (Field.ident field))) as [->|Hts].
  { rewrite filter_cons_False by (cbn; intros Hf; by apply Hf). rewrite filter_nil, app_nil_r.
    destruct (FieldAttrs.name attrs), (FieldAttrs.unit attrs), (FieldAttrs.role attrs),
      (FieldAttrs.kind attrs); try done. injection H as <-. by split. }
  rewrite filter_cons_True, filter_nil by done.
  destruct (bool_decide_reflect (default (Field.ident field) (FieldAttrs.name attrs)
              ∈ Tokens.names t)) as [|Hnew]; [done|].
  destruct (annotate _ (lit "unit") _ _ _ _) as [l1|] eqn:E1; [|done].
  destruct (annotate _ ROLE_ANNOTATION_KEY _ _ _ _) as [l2|] eqn:E2; [|done].
  destruct (annotate _ (lit "kind") _ _ _ _) as [l3|] eqn:E3; [|done].
  injection H as <-. apply annotate_ok in E1 as [-> Hu], E2 as [-> Hr], E3 as [-> Hk].
  split; cbn [Tokens.field_defs Tokens.names Tokens.encodes Tokens.annotations].
  - by rewrite tokens_defs0, map_app.
  - by rewrite tokens_names0, map_app.
  - apply list.NoDup_app. split; [done|]. split; [|apply NoDup_singleton]. set_solver.
  - by rewrite tokens_encodes0, map_app.
  - rewrite tokens_annotations0, imap_app, concat_app. cbn [imap concat].
    rewrite app_nil_r, tokens_defs0. unfold annotations_of. cbn [fst snd].
    unfold blen. rewrite length_map, Nat.add_0_r, <- !app_assoc. done.
  - apply list.Forall_app. split; [done|]. apply list.Forall_singleton. by split_and!.
Qed.

Lemma fold_derive_ok ts l t t' done :
  fold_result (derive_field ts) t l = Ok t' → tokens_ok done t → tokens_ok (done ++ kept ts l) t'.
Proof.
  revert t done. induction l as [|fa l IH]; intros t done H Ht; cbn [fold_result] in H.
  { injection H as <-. unfold kept. by rewrite filter_nil, app_nil_r. }
  destruct (derive_field ts t fa) as [t1|] eqn:E; [|done].
  apply (derive_field_ok _ _ _ _ _ E) in Ht. apply (IH _ _ H) in Ht.
  unfold kept in Ht. by rewrite <- app_assoc, <- list.filter_app in Ht.
Qed.

(** An accepted input, taken apart. *)
Lemma derive_inv input i :
  derive_trace_event_impl input = Ok i →
  ∃ fields l ts,
    DeriveInput.body input = NamedFields fields ∧ parse_all_attrs fields = Ok l ∧
    timestamp_field l = Some ts ∧ Impl.timestamp_field i = ts ∧
    tokens_ok (kept (Some ts) l) (Impl.tokens i).
Proof.
  unfold derive_trace_event_impl. destruct (bool_decide _); [done|].
  destruct (DeriveInput.body input) as [fields| |] eqn:Eb; [|done..].
  destruct (fold_result parse_struct_meta _ _) as [[ws nm]|]; [|done].
  destruct (parse_all_attrs fields) as [l|] eqn:El; [|done].
  destruct (fold_result (derive_field _) _ _) as [t|] eqn:Et; [|done].
  destruct (timestamp_field l) as [ts|] eqn:Ets; [|done]. intros [= <-].
  exists fields, l, ts. do 4 (split; [done|]).
  apply (fold_derive_ok _ _ _ _ [] Et). split; try done. apply NoDup_nil_2.
Qed.

Lemma parse_all_fields fields l : parse_all_attrs fields = Ok l → map fst l = fields.
Proof.
  revert l. induction fields as [|f fields IH]; intros l H; cbn [parse_all_attrs] in H.
  { by injection H as <-. }
  destruct (parse_field_attrs f); [|done]. destruct (parse_all_attrs fields) as [l'|]; [|done].
  injection H as <-. cbn. by rewrite IH.
Qed.

Lemma derived_schema_eq i :
  derived_schema i = SchemaEntry.mk (Impl.event_name i) (Tokens.field_defs (Impl.tokens i))
                       (Tokens.annotations (Impl.tokens i)).
Proof. unfold derived_schema. by destruct (Tokens.annotations (Impl.tokens i)). Qed.

Lemma elem_annotations l idx key v :
  blen l <= 2 ^ 16 →
  FieldAnnotation.mk idx key v ∈ concat (imap annotations_of l) ↔
  ∃ n fa, l !! n = Some fa ∧ idx = Z.of_nat n ∧
    (key = lit "unit" ∧ FieldAttrs.unit (snd fa) = Some v ∨
     key = ROLE_ANNOTATION_KEY ∧ FieldAttrs.role (snd fa) = Some v ∨
     key = lit "kind" ∧ FieldAttrs.kind (snd fa) = Some v).
Proof.
  intros Hlen.
  assert (∀ n (fa : Field.t * FieldAttrs.t), l !! n = Some fa → cast 16 (Z.of_nat n) = Z.of_nat n)
    as Hcast.
  { intros n fa Hn. apply lookup_lt_Some in Hn. apply cast_id. unfold fits, blen in *. lia. }
  assert (∀ n fa, FieldAnnotation.mk idx key v ∈ annotations_of n fa ↔
    idx = cast 16 (Z.of_nat n) ∧
    (key = lit "unit" ∧ FieldAttrs.unit (snd fa) = Some v ∨
     key = ROLE_ANNOTATION_KEY ∧ FieldAttrs.role (snd fa) = Some v ∨
     key = lit "kind" ∧ FieldAttrs.kind (snd fa) = Some v)) as Hone.
  { intros n fa. unfold annotations_of. rewrite !elem_of_app, !list_elem_of_fmap.
    destruct (FieldAttrs.unit (snd fa)), (FieldAttrs.role (snd fa)), (FieldAttrs.kind (snd fa));
      cbn; set_solver. }
  rewrite list_elem_of_In, in_concat. split.
  - intros (x & Hx & Hin). apply list_elem_of_In in Hx, Hin.
    apply elem_of_lookup_imap in Hx as (n & fa & -> & Hn).
    apply Hone in Hin as [-> Hk]. exists n, fa. by rewrite (Hcast _ _ Hn).
  - intros (n & fa & Hn & -> & Hk). exists (annotations_of n fa).
    split; apply list_elem_of_In.
    + apply elem_of_lookup_imap. by exists n, fa.
    + apply Hone. by rewrite (Hcast _ _ Hn).
Qed.

(** ** The generated code fits its schema *)

(** Each field's encoding reads back under its own type, as these values. *)
Fixpoint fields_decode (fields : list Field.t) : self_of fields → list FieldValue.t → Prop :=
  match fields with
  | [] => λ _ values, values = []
  | f :: fields => λ self values,
      match values with
      | [] => False
      | v :: values =>
          Inverts (decode_field (field_type (Field.ty f))) (encode_field (fst self)) v ∧
          fields_decode fields (snd self) values
      end
  end.

(** Fields encoded one after the other under the tags of their types. *)
Lemma derived_fields_decode fields self (cols : list (Field.t * FieldAttrs.t)) values :
  fields = map fst cols → fields_decode fields self values →
  Inverts (decode_fields (map (λ d, tag_of (FieldDef.field_type d)) (map def_of cols)))
    (derived_encode fields self) values.
Proof.
  revert cols values. induction fields as [|f fields IH]; intros [|fa cols] values Hfs H r;
    try done; cbn [fields_decode] in H.
  { by subst. }
  cbn [map] in Hfs. injection Hfs as -> Hfs. destruct values as [|v values]; [done|].
  destruct H as [Hv H].
  cbn [map decode_fields def_of FieldDef.field_type derived_encode]. rewrite <- app_assoc.
  rewrite from_tag_tag_of, pbind_plift. rewrite (pbind_some _ _ _ _ _ (Hv _)).
  by rewrite (pbind_some _ _ _ _ _ (IH _ cols values Hfs H r)).
Qed.

Lemma annotations_length l n :
  (length (concat (imap (λ i, annotations_of (n + i)) l)) <= 3 * length l)%nat.
Proof.
  revert n. induction l as [|fa l IH]; intros n; [done|]. cbn [imap concat].
  rewrite length_app.
  assert (length (annotations_of (n + 0) fa) <= 3)%nat.
  { unfold annotations_of. rewrite !length_app, !length_fmap.
    destruct (FieldAttrs.unit _), (FieldAttrs.role _), (FieldAttrs.kind _); cbn; lia. }
  assert (imap ((λ i, annotations_of (n + i)) ∘ S) l = imap (λ i, annotations_of (S n + i)) l)
    as -> by (apply imap_ext; intros i x _; unfold compose; by rewrite Nat.add_succ_comm).
  specialize (IH (S n)). cbn [length]. lia.
Qed.

Lemma supported_values_ok :
  Forall (λ v, name_ok v = true) (SUPPORTED_UNITS ++ SUPPORTED_ROLES ++ SUPPORTED_KINDS).
Proof. repeat constructor; by vm_compute. Qed.

Lemma short_value_ok v : name_ok v = true → utf8_valid v && (blen v <? 2 ^ 32) = true.
Proof. unfold name_ok. intros H. apply andb_true_iff in H as [-> H]. lia. Qed.

Lemma annotation_from_key a idx key v :
  supported a → fits 16 idx →
  (key = lit "unit" ∧ FieldAttrs.unit a = Some v ∨
   key = ROLE_ANNOTATION_KEY ∧ FieldAttrs.role a = Some v ∨
   key = lit "kind" ∧ FieldAttrs.kind a = Some v) →
  annotation_ok (FieldAnnotation.mk idx key v) = true.
Proof.
  intros (Hu & Hr & Hk) Hidx Hkey. unfold annotation_ok.
  cbn [FieldAnnotation.field_index FieldAnnotation.key FieldAnnotation.value].
  rewrite bool_decide_true by done. cbn [andb].
  assert (name_ok key = true ∧ name_ok v = true) as [-> Hv]; [|by apply short_value_ok].
  pose proof supported_values_ok as Hall. rewrite list.Forall_forall in Hall.
  destruct Hkey as [[-> Hv]|[[-> Hv]|[-> Hv]]]; (split; [by vm_compute|apply Hall]).
  - apply list.elem_of_app. left. by apply Hu.
  - apply list.elem_of_app. right. apply list.elem_of_app. left. by apply Hr.
  - apply list.elem_of_app. right. apply list.elem_of_app. right. by apply Hk.
Qed.

Lemma derived_entry_ok input i :
  derive_trace_event_impl input = Ok i → name_ok (Impl.event_name i) = true →
  forallb field_def_ok (Tokens.field_defs (Impl.tokens i)) = true →
  3 * blen (Tokens.field_defs (Impl.tokens i)) < 2 ^ 16 →
  entry_ok (derived_schema i) = true.
Proof.
  intros H Hn Hf Hlen. rewrite derived_schema_eq. unfold entry_ok.
  cbn [SchemaEntry.name SchemaEntry.fields SchemaEntry.annotations]. rewrite Hn, Hf.
  apply derive_inv in H as (fields & l & ts & _ & _ & _ & _ & [Hd _ _ _ Ha Hsup]).
  rewrite Hd in Hlen. set (cols := kept (Some ts) l) in *.
  assert (blen (map def_of cols) = blen cols) as Hmap by (unfold blen; by rewrite length_map).
  rewrite Hmap in Hlen. rewrite Hd, Ha, Hmap.
  assert (blen (concat (imap annotations_of cols)) <= 3 * blen cols) as Hcount.
  { pose proof (annotations_length cols 0) as Hc. unfold blen. cbn [Nat.add] in Hc. 
    change (λ i, annotations_of i) with annotations_of in Hc. lia. }
  pose proof (blen_nonneg cols).
  assert (forallb annotation_ok (concat (imap annotations_of cols)) = true) as ->.
  { apply forallb_forall. intros [idx key v] Hin. apply list_elem_of_In in Hin.
    apply elem_annotations in Hin as (n & fa & Hn' & -> & Hkey); [|lia].
    apply (annotation_from_key (snd fa)); [|by apply lookup_lt_Some in Hn'; unfold fits, blen in *; lia|done].
    rewrite list.Forall_lookup in Hsup. by eapply Hsup. }
  apply andb_true_iff. split; apply andb_true_iff; split; try done; lia.
Qed.

(** ** Main properties *)

(** The schema of an accepted struct: its columns are the fields other than
    the timestamp, in order, under pairwise distinct names, and its annotations
    are exactly the unit, role and kind keys, each at its column's index and
    with a value from the supported list. *)
Theorem derived_schema_spec input i :
  derive_trace_event_impl input = Ok i →
  ∃ fields l ts,
    DeriveInput.body input = NamedFields fields ∧ parse_all_attrs fields = Ok l ∧
    timestamp_field l = Some ts ∧
    let cols := kept (Some ts) l in
    SchemaEntry.fields (derived_schema i) = map def_of cols ∧ NoDup (map wire_name cols) ∧
    Forall (λ fa, supported (snd fa)) cols ∧
    (blen cols <= 2 ^ 16 → ∀ idx key v,
       FieldAnnotation.mk idx key v ∈ SchemaEntry.annotations (derived_schema i) ↔
       ∃ n fa, cols !! n = Some fa ∧ idx = Z.of_nat n ∧
         (key = lit "unit" ∧ FieldAttrs.unit (snd fa) = Some v ∨
          key = ROLE_ANNOTATION_KEY ∧ FieldAttrs.role (snd fa) = Some v ∨
          key = lit "kind" ∧ FieldAttrs.kind (snd fa) = Some v)).
Proof.
  intros H. apply derive_inv in H as (fields & l & ts & Hb & Hl & Hts & _ & [Hd Hn Hnd _ Ha Hsup]).
  exists fields, l, ts. do 3 (split; [done|]). intros cols. rewrite derived_schema_eq.
  cbn [SchemaEntry.fields SchemaEntry.annotations]. split; [done|]. split; [by rewrite Hn in Hnd|].
  split; [done|]. intros Hlen idx key v. rewrite Ha. by apply elem_annotations.
Qed.

(** Events of a derived type are what the encoder expects of a typed event:
    when each field's own encoding reads back under its type, the bytes of
    [encode_fields] read back under the derived schema, and the schema with its
    annotations fits the wire. *)
Theorem derived_event_ok input i type_entry slot_entry rust_type slot self time values :
  derive_trace_event_impl input = Ok i →
  type_entry rust_type = derived_schema i →
  (Impl.wire_slot i = true → fits 16 slot ∧ slot_entry slot = derived_schema i) →
  name_ok (Impl.event_name i) = true →
  forallb field_def_ok (Tokens.field_defs (Impl.tokens i)) = true →
  3 * blen (Tokens.field_defs (Impl.tokens i)) < 2 ^ 16 →
  fits 64 (time (Impl.timestamp_field i)) →
  fields_decode (Tokens.encodes (Impl.tokens i)) self values →
  @event_ok type_entry slot_entry (derived_event i rust_type slot self time) values.
Proof.
  intros H Hty Hslot Hn Hf Hlen Ht Hv. split; cbn.
  - done.
  - destruct (Impl.wire_slot i); [by apply Hslot|by unfold fits].
  - destruct (Impl.wire_slot i); [|done]. intros _. symmetry. by apply Hslot.
  - by eapply derived_entry_ok.
  - done.
  - unfold tags_of. rewrite derived_schema_eq. cbn [SchemaEntry.fields].
    apply derive_inv in H as (fields & l & ts & _ & _ & _ & _ & [Hd _ _ He _ _]).
    rewrite Hd. by apply derived_fields_decode.
Qed.

(** ** Two timestamps *)

Definition key (name : string) (value : option bytes) : Attr.t :=
  Attr.mk (lit "traceevent") [Meta.mk (lit name) value].

Definition plain_struct (fields : list Field.t) : DeriveInput.t :=
  DeriveInput.mk (lit "Poll") 0 0 0 [] (NamedFields fields).

Definition sample_fields : list Field.t :=
  [Field.mk (lit "timestamp_ns") [key "timestamp" None] u64 _;
   Field.mk (lit "worker") [key "role" (Some (lit "tokio.worker_id"))] u16 _;
   Field.mk (lit "took") [key "unit" (Some (lit "ns")); key "name" (Some (lit "took_ns"))]
     (option u64) _].

(** C29: "Required on exactly one field" is not enforced: of several fields
    marked [timestamp] the last is the event's time, and the others are encoded
    as ordinary columns. *)
Theorem last_timestamp_wins :
  ∃ i, derive_trace_event_impl
         (plain_struct [Field.mk (lit "start") [key "timestamp" None] u64 _;
                        Field.mk (lit "end") [key "timestamp" None] u64 _]) = Ok i ∧
    Impl.timestamp_field i = lit "end" ∧
    SchemaEntry.fields (derived_schema i) = [FieldDef.mk (lit "start") FieldType.Varint].
Proof. by eexists. Qed.

Definition sample_input : DeriveInput.t :=
  DeriveInput.mk (lit "Poll") 0 0 0 [key "wire_slot" None] (NamedFields sample_fields).

Definition sample_impl : Impl.t :=
  Impl.mk (lit "Poll") true
    (Tokens.mk
      [FieldDef.mk (lit "worker") FieldType.U16; FieldDef.mk (lit "took_ns") FieldType.OptionalVarint]
      [lit "worker"; lit "took_ns"] (drop 1 sample_fields)
      [FieldAnnotation.mk 0 ROLE_ANNOTATION_KEY (lit "tokio.worker_id");
       FieldAnnotation.mk 1 (lit "unit") (lit "ns")])
    (lit "timestamp_ns").

Example derived_schema_spec_witness :
  derive_trace_event_impl sample_input = Ok sample_impl ∧
  ∃ fields l ts,
    DeriveInput.body sample_input = NamedFields fields ∧ parse_all_attrs fields = Ok l ∧
    timestamp_field l = Some ts ∧
    SchemaEntry.fields (derived_schema sample_impl) = map def_of (kept (Some ts) l).
Proof.
  assert (derive_trace_event_impl sample_input = Ok sample_impl) as E by reflexivity.
  split; [exact E|].
  destruct (derived_schema_spec _ _ E) as (fields & l & ts & Hb & Hl & Hts & Hf & _).
  by exists fields, l, ts.
Defined.

Example derived_event_ok_witness :
  derive_trace_event_impl sample_input = Ok sample_impl ∧
  @event_ok (λ _, derived_schema sample_impl) (λ _, derived_schema sample_impl)
    (derived_event sample_impl 1 7 (U16 3, (Some (U64 900), tt)) (λ _, 1234))
    [FieldValue.Varint 3; FieldValue.Varint 900].
Proof.
  assert (derive_trace_event_impl sample_input = Ok sample_impl) as E by reflexivity.
  split; [exact E|].
  apply (derived_event_ok sample_input sample_impl); try done.
  assert (field_valid (U16 3)) as H1 by (split; lia).
  assert (field_valid (U64 900)) as H2 by (split; lia).
  split; [exact (field_decodes (U16 3) H1)|].
  split; [exact (field_decodes (Some (U64 900)) H2)|done].
Defined.
