(* ===== verification/TypeSlot.v ===== *)
(** * Claiming a type slot (the [type_slot] that
    src/dial9-trace-format-derive/src/lib.rs generates, and [__NEXT_TYPE_SLOT]
    of src/dial9-trace-format/src/lib.rs)

    Every [wire_slot] type has a static [SLOT] and claims a number from one
    global counter on the first call.  Calls run on any number of threads, one
    atomic access at a time; a relaxed load may still see the initial zero
    after another thread has stored.  The encoder relies on what [Stream] calls
    [slot_entry]: a slot stands for one type. *)

From Stdlib Require Import ZArith Lia.
From stdpp Require Import base list gmap option.
From S2P Require Import Prelude.

(** Where a call of [type_slot] is. *)
Inductive pc : Set :=
| Load
| FetchAdd
| CompareExchange (new : Z)
| Done (slot : Z).

Module Slots.
Record t : Type := mk {
  next : Z;
  slots : gmap positive Z;
  threads : gmap nat (positive * pc) }.

(** [__NEXT_TYPE_SLOT] starts at 1, every [SLOT] at 0. *)
Definition init : t := mk 1 ∅ ∅.

Definition slot_of (s : t) (ty : positive) : Z := default 0 (slots s !! ty).

Definition at_pc (s : t) (tid : nat) (ty : positive) (p : pc) : t :=
  mk (next s) (slots s) (<[tid := (ty, p)]> (threads s)).

(** Thread [tid] calls the [type_slot] of [ty]. *)
Definition call (tid : nat) (ty : positive) (s : t) : option t :=
  match threads s !! tid with
  | None | Some (_, Done _) => Some (at_pc s tid ty Load)
  | _ => None
  end.

(** The next atomic access of a call; [stale] makes a load miss a store. *)
Definition advance (stale : bool) (tid : nat) (s : t) : option t :=
  match threads s !! tid with
  | Some (ty, Load) =>
      let cached := if stale then 0 else slot_of s ty in
      Some (at_pc s tid ty (if cached =? 0 then FetchAdd else Done cached))
  | Some (ty, FetchAdd) =>
      let new := next s in
      Some (mk (wrapping_add 16 new 1) (slots s) (<[tid := (ty, CompareExchange new)]> (threads s)))
  | Some (ty, CompareExchange new) =>
      let current := slot_of s ty in
      if current =? 0 then
        Some (mk (next s) (<[ty := new]> (slots s)) (<[tid := (ty, Done new)]> (threads s)))
      else Some (at_pc s tid ty (Done current))
  | _ => None
  end.

Definition fetches (tid : nat) (s : t) : nat :=
  match threads s !! tid with Some (_, FetchAdd) => 1 | _ => 0 end.
End Slots.
Import Slots.

(** Any interleaving; [n] counts the numbers taken from the counter. *)
Inductive reach : nat → Slots.t → Prop :=
| reach_init : reach 0 Slots.init
| reach_call n s tid ty s' : reach n s → call tid ty s = Some s' → reach n s'
| reach_advance n s stale tid s' :
    reach n s → Slots.advance stale tid s = Some s' → reach (fetches tid s + n) s'.

(** ** The invariant: a number is held by one call in flight or one type *)

Record slots_ok (n : nat) (s : Slots.t) : Prop := {
  slots_next : next s = 1 + Z.of_nat n;
  slots_flying tid ty x :
    threads s !! tid = Some (ty, CompareExchange x) →
    0 < x <= Z.of_nat n ∧ ∀ ty', slot_of s ty' ≠ x;
  slots_flying_unique tid tid' ty ty' x :
    threads s !! tid = Some (ty, CompareExchange x) →
    threads s !! tid' = Some (ty', CompareExchange x) → tid = tid';
  slots_range ty : 0 <= slot_of s ty <= Z.of_nat n;
  slots_unique ty ty' : slot_of s ty ≠ 0 → slot_of s ty = slot_of s ty' → ty = ty';
  slots_done tid ty x : threads s !! tid = Some (ty, Done x) → x ≠ 0 ∧ slot_of s ty = x }.

Lemma slot_of_insert s ty new next' threads' ty' :
  slot_of (Slots.mk next' (<[ty := new]> (slots s)) threads') ty'
  = if decide (ty' = ty) then new else slot_of s ty'.
Proof.
  unfold slot_of. cbn. destruct (decide (ty' = ty)) as [->|Hne].
  - by rewrite lookup_insert_eq.
  - by rewrite lookup_insert_ne.
Qed.

(** Moving a thread to a place that holds no new number. *)
Lemma at_pc_ok n s tid ty p :
  slots_ok n s → (∀ x, p ≠ CompareExchange x) →
  (∀ x, p = Done x → x ≠ 0 ∧ slot_of s ty = x) → slots_ok n (at_pc s tid ty p).
Proof.
  intros [] Hp Hd. split; try done; cbn [at_pc threads].
  - intros t' ty' x. rewrite lookup_insert_Some. intros [[_ [= _ Hx]]|[_ H]]; [by apply Hp in Hx|].
    by apply (slots_flying0 t' ty').
  - intros t1 t2 ty1 ty2 x. rewrite !lookup_insert_Some.
    intros [[_ [= _ Hx]]|[_ H1]] [[_ [= _ Hx']]|[_ H2]]; try by exfalso; eapply Hp.
    by eapply slots_flying_unique0.
  - intros t' ty' x. rewrite lookup_insert_Some. intros [[_ [= <- Hx]]|[_ H]]; [by apply Hd|].
    by apply (slots_done0 t' ty').
Qed.

Lemma call_ok n s tid ty s' : slots_ok n s → call tid ty s = Some s' → slots_ok n s'.
Proof.
  unfold call. intros Hok H.
  destruct (threads s !! tid) as [[ty' [| | |]]|]; try done; injection H as <-;
    by apply at_pc_ok.
Qed.

Lemma fetch_ok n s tid ty :
  slots_ok n s → 1 + Z.of_nat (S n) < 2 ^ 16 →
  slots_ok (S n)
    (Slots.mk (wrapping_add 16 (next s) 1) (slots s)
       (<[tid := (ty, CompareExchange (next s))]> (threads s))).
Proof.
  intros [] Hn. assert (∀ ty', slot_of s ty' ≠ next s) as Hfree
    by (intros ty'; specialize (slots_range0 ty'); lia).
  split; cbn [next threads]; change (slot_of (Slots.mk _ (slots s) _)) with (slot_of s).
  - rewrite wrapping_add_small; unfold fits; lia.
  - intros t' ty' x. rewrite lookup_insert_Some. intros [[_ [= _ <-]]|[_ H]]; [split; [lia|done]|].
    apply slots_flying0 in H as [? H]. split; [lia|done].
  - intros t1 t2 ty1 ty2 x. rewrite !lookup_insert_Some.
    intros [[<- E1]|[_ H1]] [[<- E2]|[_ H2]]; simplify_eq; try done.
    + apply slots_flying0 in H2 as [? _]. lia.
    + apply slots_flying0 in H1 as [? _]. lia.
    + by eapply slots_flying_unique0.
  - intros ty'. specialize (slots_range0 ty'). lia.
  - done.
  - intros t' ty' x. rewrite lookup_insert_Some. intros [[_ [=]]|[_ H]]. by apply (slots_done0 t').
Qed.

Lemma exchange_ok n s tid ty new :
  slots_ok n s → threads s !! tid = Some (ty, CompareExchange new) → slot_of s ty = 0 →
  slots_ok n (Slots.mk (next s) (<[ty := new]> (slots s)) (<[tid := (ty, Done new)]> (threads s))).
Proof.
  intros Hok Ht H0. pose proof (slots_flying _ _ Hok _ _ _ Ht) as [Hnew Hfree].
  destruct Hok. split; cbn [next threads]; try done.
  - intros t' ty' x. rewrite lookup_insert_Some. intros [[_ [=]]|[Hne H]].
    pose proof (slots_flying0 _ _ _ H) as [Hx Hxs]. split; [done|].
    intros ty2. rewrite slot_of_insert. destruct (decide (ty2 = ty)); [|done].
    intros <-. by apply Hne, (slots_flying_unique0 tid t' ty ty' new).
  - intros t1 t2 ty1 ty2 x. rewrite !lookup_insert_Some.
    intros [[_ [=]]|[_ H1]] [[_ [=]]|[_ H2]]. by eapply slots_flying_unique0.
  - intros ty'. rewrite slot_of_insert. destruct (decide (ty' = ty)); [lia|done].
  - intros ty1 ty2. rewrite !slot_of_insert.
    destruct (decide (ty1 = ty)) as [->|], (decide (ty2 = ty)) as [->|]; try done.
    + intros _ H. by apply symmetry, Hfree in H.
    + intros _ H. by apply Hfree in H.
    + apply slots_unique0.
  - intros t' ty' x. rewrite lookup_insert_Some, slot_of_insert. intros [[_ [= <- <-]]|[_ H]].
    + rewrite decide_True by done. split; [lia|done].
    + pose proof (slots_done0 _ _ _ H) as [Hx Hs].
      destruct (decide (ty' = ty)) as [->|]; [|done]. by rewrite H0 in Hs.
Qed.

Lemma reach_ok n s : reach n s → 1 + Z.of_nat n < 2 ^ 16 → slots_ok n s.
Proof.
  induction 1 as [|n s tid ty s' _ IH Hc|n s stale tid s' _ IH Ha]; intros Hn.
  - split; try done; cbn; intros *; rewrite lookup_empty; done.
  - eapply call_ok; [by apply IH|done].
  - unfold Slots.advance, fetches in *.
    destruct (threads s !! tid) as [[ty [| |new|]]|] eqn:Et; try done; cbn [Nat.add] in *.
    + injection Ha as <-. apply at_pc_ok; [by apply IH| |]; destruct stale; cbn; try done.
      * by destruct (slot_of s ty =? 0).
      * intros x. destruct (Z.eqb_spec (slot_of s ty) 0); [done|]. by intros [= <-].
    + injection Ha as <-. apply fetch_ok; [apply IH; lia|done].
    + destruct (Z.eqb_spec (slot_of s ty) 0) as [H0|H0]; injection Ha as <-.
      * apply exchange_ok; [by apply IH|done..].
      * apply at_pc_ok; [by apply IH|done|]. by intros x [= <-].
Qed.

(** ** Main property *)

(** However the calls interleave and whatever stale zeros they load, two
    finished calls return the same slot exactly when they are for the same
    type, and never the reserved slot zero, as long as the u16 counter has not
    wrapped around. *)
Theorem type_slots_injective n s tid1 tid2 ty1 ty2 x1 x2 :
  reach n s → 1 + Z.of_nat n < 2 ^ 16 →
  threads s !! tid1 = Some (ty1, Done x1) → threads s !! tid2 = Some (ty2, Done x2) →
  0 < x1 < 2 ^ 16 ∧ (x1 = x2 ↔ ty1 = ty2).
Proof.
  intros Hr Hn H1 H2. pose proof (reach_ok n s Hr Hn) as Hok.
  pose proof (slots_range _ _ Hok ty1) as Hrange.
  apply (slots_done _ _ Hok) in H1 as [Hx1 <-], H2 as [Hx2 <-].
  split; [lia|]. split; [by apply (slots_unique _ _ Hok)|by intros ->].
Qed.

(** Two threads race for type 1 (both miss the cache and take a number), a third
    claims type 2 in between. *)
Definition race : list (nat * bool) :=
  [(1, false); (2, false); (1, false); (2, false); (3, false); (3, false); (3, false);
   (2, false); (1, false)]%nat.

Definition run_race (s : Slots.t) : option Slots.t :=
  foldl (λ o '(tid, stale), s ← o; Slots.advance stale tid s) (Some s) race.

Definition started : Slots.t :=
  Slots.mk 1 ∅ (<[3%nat := (2%positive, Load)]> (<[2%nat := (1%positive, Load)]>
                  (<[1%nat := (1%positive, Load)]> ∅))).

Lemma race_reach n s l s' :
  reach n s → foldl (λ o '(tid, stale), s ← o; Slots.advance stale tid s) (Some s) l = Some s' →
  ∃ m, (m <= n + length l)%nat ∧ reach m s'.
Proof.
  revert n s. induction l as [|[tid stale] l IH]; intros n s Hr H.
  - injection H as <-. exists n. split; [cbn; lia|done].
  - cbn [foldl mbind option_bind] in H. destruct (Slots.advance stale tid s) as [s1|] eqn:E.
    + apply (reach_advance _ _ _ _ _ Hr) in E. apply (IH _ _ E) in H as (m & Hm & H).
      exists m. split; [|done]. cbn [length]. unfold fetches in Hm.
      destruct (threads s !! tid) as [[? []]|]; lia.
    + exfalso. clear -H. induction l as [|[] l IH]; [done|]. by apply IH.
Qed.

Lemma started_reach : reach 0 started.
Proof.
  assert (∃ s1 s2, call 1 1 Slots.init = Some s1 ∧ call 2 1 s1 = Some s2 ∧
            call 3 2 s2 = Some started) as (s1 & s2 & H1 & H2 & H3) by by do 2 eexists.
  apply (reach_call 0 s2 3 2); [|done]. apply (reach_call 0 s1 2 1); [|done].
  apply (reach_call 0 Slots.init 1 1); [constructor|done].
Qed.

Example type_slots_injective_witness :
  ∃ s, run_race started = Some s ∧ threads s !! 1%nat = Some (1%positive, Done 2) ∧
    threads s !! 3%nat = Some (2%positive, Done 3) ∧ (2 = 3 ↔ 1%positive = 2%positive).
Proof.
  destruct (run_race started) as [s|] eqn:E; [|by vm_compute in E].
  destruct (race_reach 0 started race s started_reach E) as (m & Hm & Hr).
  exists s. vm_compute in E. apply Some_inj in E.
  assert (threads s !! 1%nat = Some (1%positive, Done 2)) as H1 by (subst s; by vm_compute).
  assert (threads s !! 3%nat = Some (2%positive, Done 3)) as H3 by (subst s; by vm_compute).
  split; [by subst s|]. split; [done|]. split; [done|].
  refine (proj2 (type_slots_injective m s 1 3 1 2 2 3 Hr _ H1 H3)).
  cbn in Hm. lia.
Defined.
