(* ===== verification/Format.v ===== *)
(** * The events the bus itself writes (dial9-core/src/format.rs)

    [SegmentMetadataEvent] and [ClockSyncEvent] as their derive input, the
    implementation the macro generates for them, and that a write of either
    into a new encoder gives a self-contained batch. *)

From Stdlib Require Import ZArith Lia.
From stdpp Require Import base list gmap sets strings option.
From coqutil Require Import Byte.
From S2P Require Import Prelude.
From S2P Require Import FieldType.
From S2P Require Import FieldValue.
From S2P Require Import Schema.
From S2P Require Import Codec.
From S2P Require Import EventEncoder.
From S2P Require Import Encoder.
From S2P Require Import Stream.
From S2P Require Import Derive.

Definition timestamp_ns : Field.t :=
  Field.mk (lit "timestamp_ns") [key "timestamp" None] u64 _.

(** [entries: Vec<(String, String)>]. *)
Definition segment_metadata_input : DeriveInput.t :=
  DeriveInput.mk (lit "SegmentMetadataEvent") 0 0 0 [key "wire_slot" None]
    (NamedFields [timestamp_ns; Field.mk (lit "entries") [] StringMap _]).

Definition clock_sync_input : DeriveInput.t :=
  DeriveInput.mk (lit "ClockSyncEvent") 0 0 0 [key "wire_slot" None]
    (NamedFields [timestamp_ns; Field.mk (lit "realtime_ns") [] u64 _]).

(** What the macro generates. *)
Definition segment_metadata_impl : Impl.t :=
  Impl.mk (lit "SegmentMetadataEvent") true
    (Tokens.mk [FieldDef.mk (lit "entries") FieldType.StringMap] [lit "entries"]
       [Field.mk (lit "entries") [] StringMap _] [])
    (lit "timestamp_ns").

Definition clock_sync_impl : Impl.t :=
  Impl.mk (lit "ClockSyncEvent") true
    (Tokens.mk [FieldDef.mk (lit "realtime_ns") FieldType.Varint] [lit "realtime_ns"]
       [Field.mk (lit "realtime_ns") [] u64 _] [])
    (lit "timestamp_ns").

Lemma segment_metadata_derived :
  derive_trace_event_impl segment_metadata_input = Ok segment_metadata_impl.
Proof. reflexivity. Qed.

Lemma clock_sync_derived : derive_trace_event_impl clock_sync_input = Ok clock_sync_impl.
Proof. reflexivity. Qed.

(** ** The two types of the running process *)

(** The [TypeId]s of the two types and the slots they have claimed. *)
Module BusTypes.
Record t : Type := mk {
  clock_type : positive;
  clock_slot : Z;
  metadata_type : positive;
  metadata_slot : Z }.
End BusTypes.

Definition ClockSyncEvent (b : BusTypes.t) (timestamp_ns realtime_ns : Z) : TraceEvent.t :=
  derived_event clock_sync_impl (BusTypes.clock_type b) (BusTypes.clock_slot b)
    (U64 realtime_ns, tt) (λ _, timestamp_ns).

Definition SegmentMetadataEvent (b : BusTypes.t) (timestamp_ns : Z)
    (entries : list (bytes * bytes)) : TraceEvent.t :=
  derived_event segment_metadata_impl (BusTypes.metadata_type b) (BusTypes.metadata_slot b)
    (Pairs entries, tt) (λ _, timestamp_ns).

Definition clock_sync_schema : SchemaEntry.t := derived_schema clock_sync_impl.
Definition segment_metadata_schema : SchemaEntry.t := derived_schema segment_metadata_impl.

(** Both types got early slots, and different ones (see TypeSlot). *)
Definition bus_ok (b : BusTypes.t) : Prop :=
  0 < BusTypes.clock_slot b < STATIC_WIRE_ID_LIMIT ∧
  0 < BusTypes.metadata_slot b < STATIC_WIRE_ID_LIMIT ∧
  BusTypes.clock_slot b ≠ BusTypes.metadata_slot b ∧
  BusTypes.clock_type b ≠ BusTypes.metadata_type b.

#[global] Instance bus_ok_dec b : Decision (bus_ok b).
Proof. unfold bus_ok. apply _. Defined.

(** ** Writing them *)

(** [type_entry] and [slot_entry] (the schemas of the program's types) know
    the two types. *)
Record knows_bus (type_entry : positive → SchemaEntry.t) (slot_entry : Z → SchemaEntry.t)
    (b : BusTypes.t) : Prop := {
  knows_slots : bus_ok b;
  knows_clock_type : type_entry (BusTypes.clock_type b) = clock_sync_schema;
  knows_clock_slot : slot_entry (BusTypes.clock_slot b) = clock_sync_schema;
  knows_metadata_type : type_entry (BusTypes.metadata_type b) = segment_metadata_schema;
  knows_metadata_slot : slot_entry (BusTypes.metadata_slot b) = segment_metadata_schema }.

(** Strings a [StringMap] field can hold. *)
Definition entries_ok (entries : list (bytes * bytes)) : Prop :=
  value_ok (FieldValue.StringMap entries) = true.

#[global] Instance entries_ok_dec l : Decision (entries_ok l).
Proof. unfold entries_ok. apply _. Defined.

Section bus.
Context {type_entry : positive → SchemaEntry.t} {slot_entry : Z → SchemaEntry.t}.
Context (b : BusTypes.t) (Hbus : knows_bus type_entry slot_entry b).

Lemma clock_event_ok mono real :
  fits 64 mono → fits 64 real →
  @event_ok type_entry slot_entry (ClockSyncEvent b mono real) [FieldValue.Varint real].
Proof using Hbus.
  intros Hm Hr. destruct Hbus as [(Hc & _) Ht Hs _ _]. unfold STATIC_WIRE_ID_LIMIT in Hc.
  apply (derived_event_ok clock_sync_input); try done; [|].
  - intros _. split; [unfold fits; lia|done].
  - split; [|done]. exact (field_decodes (U64 real) Hr).
Qed.

Lemma metadata_event_ok mono entries :
  fits 64 mono → entries_ok entries →
  @event_ok type_entry slot_entry (SegmentMetadataEvent b mono entries)
    [FieldValue.StringMap entries].
Proof using Hbus.
  intros Hm Hr. destruct Hbus as [(_ & Hc & _) _ _ Ht Hs]. unfold STATIC_WIRE_ID_LIMIT in Hc.
  apply (derived_event_ok segment_metadata_input); try done; [|].
  - intros _. split; [unfold fits; lia|done].
  - split; [|done]. exact (field_decodes (Pairs entries) Hr).
Qed.
End bus.

(** A program that has only these two types. *)
Definition bus_type_entry (b : BusTypes.t) (t : positive) : SchemaEntry.t :=
  if decide (t = BusTypes.clock_type b) then clock_sync_schema else segment_metadata_schema.

Definition bus_slot_entry (b : BusTypes.t) (s : Z) : SchemaEntry.t :=
  if decide (s = BusTypes.clock_slot b) then clock_sync_schema else segment_metadata_schema.

Lemma bus_known b : bus_ok b → knows_bus (bus_type_entry b) (bus_slot_entry b) b.
Proof.
  intros Hb. pose proof Hb as (_ & _ & Hs & Ht). unfold bus_type_entry, bus_slot_entry.
  split; [done|by rewrite decide_True..| |]; by rewrite decide_False.
Qed.

(** A new encoder's first typed event: header, schema, event. *)
Lemma first_event_bytes {type_entry slot_entry} ev values arc :
  @event_ok type_entry slot_entry ev values →
  0 < TraceEvent.type_slot ev < STATIC_WIRE_ID_LIMIT →
  ∃ e delta w, write ev arc encoder_new = (Ok tt, e) ∧ fits 24 delta ∧
    time_prefix 0 (TraceEvent.timestamp ev) delta w ∧
    finish e = encode_header
      ++ schema_bytes (TraceEvent.type_slot ev) (TraceEvent.schema_entry ev)
      ++ w ++ event_frame (TraceEvent.type_slot ev) delta (TraceEvent.encode_fields ev).
Proof.
  intros Hev Hslot.
  destruct (write_fast_step encoder_new idle_decoder ev values arc (encoder_new_ok [])
              (idle_mirrors _ encoder_new_fresh) Hev Hslot)
    as (e & delta & w & Hrun & _ & _ & Hd & Ht & Hb).
  exists e, delta, w. split; [done|]. split; [done|]. split; [done|].
  unfold finish. rewrite Hb.
  assert (slot_bit (Encoder.registered_ids encoder_new) (TraceEvent.type_slot ev) = false) as ->;
    [|done].
  destruct (slot_bit _ _) eqn:E; [|done].
  pose proof (ok_bits _ _ _ (encoder_new_ok (type_entry := type_entry)
    (slot_entry := slot_entry) []) _ Hslot E) as Hf. cbn in Hf. by rewrite lookup_empty in Hf.
Qed.
