(* ===== verification/Sealed.v ===== *)
(** * Sealed segments (dial9-core/src/sealed.rs)

    The names of trace artifacts and how they are read back, the listing of
    sealed segments, and the wall-clock epoch of a segment, read by the
    zero-copy decoder from the first clock anchor of its bytes. *)

From Stdlib Require Import ZArith Lia.
From stdpp Require Import base list gmap sets sorting strings option.
From coqutil Require Import Byte.
From S2P Require Import Prelude.
From S2P Require Import Text.
From S2P Require Import Utf8.
From S2P Require Import FieldType.
From S2P Require Import FieldValue.
From S2P Require Import FieldValueRef.
From S2P Require Import Schema.
From S2P Require Import Codec.
From S2P Require Import Decoder.
From S2P Require Import EventEncoder.
From S2P Require Import Encoder.
From S2P Require Import Stream.
From S2P Require Import Derive.
From S2P Require Import Format.

(** ** Segment names *)

Inductive SegmentArtifact : Set :=
| Retained (index : Z)
| Active.

(** [{stem}.{index}.bin] (also built in fs/disk.rs), and the name under which
    the segment is being written. *)
Definition sealed_name (stem : bytes) (index : Z) : bytes :=
  stem ++ lit "." ++ put_dec index ++ lit ".bin".

Definition active_name (stem : bytes) (index : Z) : bytes :=
  stem ++ lit "." ++ put_dec index ++ lit ".bin.active".

Definition parse_segment_artifact (file_name stem : bytes) : option SegmentArtifact :=
  rest ← strip_prefix stem file_name;
  rest ← strip_prefix (lit ".") rest;
  if bool_decide (is_Some (strip_suffix (lit ".bin.active") rest ≫= parse_uint 32))
  then Some Active else
  '(index, suffix) ← split_once (lit ".bin") rest;
  if negb (bool_decide (suffix = [])) && bool_decide (strip_prefix (lit ".") suffix = None)
  then None
  else i ← parse_uint 32 index; Some (Retained i).

Definition parse_segment_index (file_name stem : bytes) : option Z :=
  rest ← strip_prefix stem file_name;
  rest ← strip_prefix (lit ".") rest;
  index_str ← strip_suffix (lit ".bin") rest;
  parse_uint 32 index_str.

(** [path.extension()] of a file name: what follows the last dot, unless that
    dot starts the name. *)
Definition extension (file_name : bytes) : option bytes :=
  if bool_decide (file_name = lit "..") then None else
  '(after, before) ← split_once (lit ".") (reverse file_name);
  if bool_decide (before = []) then None else Some (reverse after).

(** [segments.sort_by_key(|s| s.index)], a stable sort. *)
Fixpoint insert_by_index (s : bytes * Z) (l : list (bytes * Z)) : list (bytes * Z) :=
  match l with
  | [] => [s]
  | x :: l => if snd s <=? snd x then s :: x :: l else x :: insert_by_index s l
  end.

Definition sort_by_index (l : list (bytes * Z)) : list (bytes * Z) :=
  foldr insert_by_index [] l.

(** [find_sealed_segments] on the names [read_dir] lists; [None] is a name
    that is not UTF-8. *)
Definition find_sealed_segments (names : list (option bytes)) (stem : bytes)
    : list (bytes * Z) :=
  sort_by_index
    (omap (λ name, name ← name;
             if bool_decide (extension name = Some (lit "bin"))
             then (λ index, (name, index)) <$> parse_segment_index name stem
             else None) names).

(** [strip_active_suffix] of fs/disk.rs, on a whole path. *)
Definition strip_active_suffix (path : bytes) : bytes :=
  let s := default [] (from_utf8 path) in
  default path (strip_suffix (lit ".active") s).

(** ** The creation time of a segment *)

Definition LEGACY_EPOCH_NS_FLOOR : Z := 1577836800000000000.

Module ParseTimestampError.
Inductive t : Type :=
| InvalidHeader
| UnknownTypeId (type_id : Z)
| MissingRealtimeField
| NoAnchorInFirst10Events
| EndOfStream (events_seen : Z)
| DecodeError (e : Decoder.DecodeError.t).
End ParseTimestampError.

(** [legacy_fallback.ok_or(err)]. *)
Definition fallback_or (legacy : option Z) (err : ParseTimestampError.t)
    : result Z ParseTimestampError.t :=
  match legacy with Some ts => Ok ts | None => Err err end.

Fixpoint parse_segment_timestamp_loop (fuel : nat) (dec : Decoder.t) (events_seen : Z)
    (legacy : option Z) : result Z ParseTimestampError.t :=
  match fuel with
  | O => fallback_or legacy (ParseTimestampError.EndOfStream events_seen)
  | S fuel =>
      match next_frame_ref dec with
      | (Ok (Some (DecodedFrameRef.Event type_id timestamp_ns values)), dec) =>
          let events_seen := events_seen + 1 in
          match registry_get (Decoder.registry dec) type_id with
          | None => Err (ParseTimestampError.UnknownTypeId type_id)
          | Some s =>
              let name := SchemaEntry.name s in
              if bool_decide (name = lit "ClockSyncEvent") then
                match values with
                | FieldValueRef.Varint v :: _ => Ok v
                | _ => Err ParseTimestampError.MissingRealtimeField
                end
              else
                let legacy :=
                  if bool_decide (name = lit "SegmentMetadataEvent")
                     && (LEGACY_EPOCH_NS_FLOOR <=? timestamp_ns)
                  then Some timestamp_ns else legacy in
                if 10 <=? events_seen
                then fallback_or legacy ParseTimestampError.NoAnchorInFirst10Events
                else parse_segment_timestamp_loop fuel dec events_seen legacy
          end
      | (Ok (Some _), dec) => parse_segment_timestamp_loop fuel dec events_seen legacy
      | (Ok None, _) => fallback_or legacy (ParseTimestampError.EndOfStream events_seen)
      | (Err e, _) => Err (ParseTimestampError.DecodeError e)
      end
  end.

Definition parse_segment_timestamp (data : bytes) : result Z ParseTimestampError.t :=
  match decoder_new data with
  | None => Err ParseTimestampError.InvalidHeader
  | Some dec => parse_segment_timestamp_loop (S (length (Decoder.rest dec))) dec 0 None
  end.

(** [mtime_or_now_secs(path)], which asks the file system and the clock, is
    the argument [mtime_or_now]. *)
Definition creation_epoch_secs (mtime_or_now : Z) (data : bytes) : Z * bool :=
  match parse_segment_timestamp data with
  | Ok ts => (ts / 1000000000, true)
  | Err _ => (mtime_or_now, false)
  end.

(** ** Names *)

(** ** The epoch *)

Lemma parse_loop_skip fuel d f d' seen legacy :
  next_frame_ref d = (Ok (Some f), d') → (∀ id ts vs, f ≠ DecodedFrameRef.Event id ts vs) →
  parse_segment_timestamp_loop (S fuel) d seen legacy
  = parse_segment_timestamp_loop fuel d' seen legacy.
Proof.
  intros H Hf. cbn [parse_segment_timestamp_loop]. rewrite H.
  destruct f; try done. by edestruct Hf.
Qed.

(** Every event takes input, so the fuel is enough. *)
Lemma parse_loop_fuel fuel fuel' d seen legacy :
  (length (Decoder.rest d) < fuel)%nat → (length (Decoder.rest d) < fuel')%nat →
  parse_segment_timestamp_loop fuel d seen legacy
  = parse_segment_timestamp_loop fuel' d seen legacy.
Proof.
  revert fuel' d seen legacy. induction fuel as [|fuel IH]; intros fuel' d seen legacy H H'; [lia|].
  destruct fuel' as [|fuel']; [lia|]. cbn [parse_segment_timestamp_loop].
  destruct (next_frame_ref d) as [[[f|]|err] d'] eqn:E; [|done..].
  apply next_frame_ref_progress in E; [|done].
  destruct f; try (apply IH; lia).
  destruct (registry_get _ _); [|done]. destruct (bool_decide _); [done|].
  destruct (10 <=? _); [done|]. apply IH; lia.
Qed.

(** The zero-copy reader on the first two frames of a segment. *)
Lemma first_schema_read d id entry r :
  Decoder.rest d = encode_schema id entry ++ r → fits 16 id → entry_ok entry = true →
  SchemaEntry.annotations entry = [] → SchemaRegistry.schemas (Decoder.registry d) = ∅ →
  ∃ d', next_frame_ref d = (Ok (Some (DecodedFrameRef.Schema entry)), d') ∧
    Decoder.rest d' = r ∧ Decoder.timestamp_base_ns d' = Decoder.timestamp_base_ns d ∧
    registry_get (Decoder.registry d') id = Some entry ∧
    schema_info d' id = Some (SchemaInfo.mk (tags_of entry) true).
Proof.
  intros Hr Hid He Ha Hreg.
  assert (SchemaEntry.mk (SchemaEntry.name entry) (SchemaEntry.fields entry) [] = entry) as Hent
    by (destruct entry; cbn in *; by rewrite Ha).
  pose proof (decode_schema_ref_inverts id entry (schema_info d) (Decoder.timestamp_base_ns d) r
                Hid He) as Hdec. rewrite Hent in Hdec.
  rewrite (next_frame_ref_step d _ r _ Hr Hdec). cbn [handle_frame_ref].
  unfold Decoder.register_schema, register. cbn. rewrite Hreg, lookup_empty. cbn.
  eexists. split; [done|]. cbn. unfold fits in Hid.
  split; [done|]. split; [done|]. split; [apply lookup_insert_eq|].
  unfold schema_info, cache_get. cbn. rewrite cache_set_get, decide_True by done. done.
Qed.

Lemma first_event_read d id ts delta w values entry r :
  Decoder.rest d = w ++ event_frame id delta
    (put_fields values (map FieldDef.field_type (SchemaEntry.fields entry))) ++ r →
  fits 16 id → fits 64 ts → fits 24 delta → time_prefix (Decoder.timestamp_base_ns d) ts delta w →
  Forall2 field_ok values (map FieldDef.field_type (SchemaEntry.fields entry)) →
  schema_info d id = Some (SchemaInfo.mk (tags_of entry) true) →
  blen (Decoder.rest d) < 2 ^ 63 →
  ∃ d', next_frame_ref d = (Ok (Some (DecodedFrameRef.Event id ts (map borrow values))), d') ∧
    Decoder.registry d' = Decoder.registry d ∧ Decoder.rest d' = r.
Proof.
  intros Hr Hid Hts Hd Htime Hv Hi Hlen.
  set (fts := map FieldDef.field_type (SchemaEntry.fields entry)) in *.
  assert (tags_of entry = map tag_of fts) as Htags
    by (unfold tags_of, fts; by rewrite map_map).
  rewrite Hr, blen_app in Hlen. pose proof (blen_nonneg w).
  (* the frame itself, from a decoder at base [ts - delta] *)
  assert (∀ d0, Decoder.rest d0 = event_frame id delta (put_fields values fts) ++ r →
            Decoder.timestamp_base_ns d0 + delta = ts → (∀ i, schema_info d0 i = schema_info d i) →
            Decoder.registry d0 = Decoder.registry d →
            ∃ d', next_frame_ref d0
                  = (Ok (Some (DecodedFrameRef.Event id ts (map borrow values))), d') ∧
                  Decoder.registry d' = Decoder.registry d ∧ Decoder.rest d' = r) as Hframe.
  { intros d0 Hr0 Hb Hi0 Hreg0.
    assert (schema_info d0 id = Some (SchemaInfo.mk (map tag_of fts) true)) as Hi1
      by (by rewrite Hi0, Hi, Htags).
    unfold fits in Hts.
    pose proof (decode_event_ref_inverts id delta values fts (schema_info d0)
                  (Decoder.timestamp_base_ns d0) r Hid Hd ltac:(lia) Hv Hi1 ltac:(lia)) as Hdec.
    rewrite (next_frame_ref_step d0 _ r _ Hr0 Hdec), Hb. cbn [handle_frame_ref].
    eexists. split; [done|]. by cbn. }
  destruct Htime as [[-> Hb]|[-> ->]].
  - by apply Hframe.
  - cbn [app] in Hr. rewrite (next_frame_ref_step d (TAG_TIMESTAMP_RESET :: put_le 8 ts) _ _
      Hr (decode_timestamp_reset_ref ts _ _ _ Hts)). cbn [handle_frame_ref].
    apply Hframe; cbn; try done. lia.
Qed.

Lemma clock_segment_bytes b mono real e :
  bus_ok b → fits 64 mono → fits 64 real →
  write (ClockSyncEvent b mono real) 1 encoder_new = (Ok tt, e) →
  ∃ delta w, fits 24 delta ∧ time_prefix 0 mono delta w ∧
    finish e = encode_header ++ encode_schema (BusTypes.clock_slot b) clock_sync_schema
      ++ w ++ event_frame (BusTypes.clock_slot b) delta
        (put_fields [FieldValue.Varint real]
           (map FieldDef.field_type (SchemaEntry.fields clock_sync_schema))).
Proof.
  intros Hb Hm Hr Hrun. pose proof Hb as (Hslot & _).
  destruct (first_event_bytes _ _ 1 (clock_event_ok b (bus_known b Hb) mono real Hm Hr) Hslot)
    as (e' & delta & w & Hrun' & Hd & Ht & Hbytes).
  rewrite Hrun in Hrun'. injection Hrun' as <-. exists delta, w.
  split; [done|]. split; [done|]. rewrite Hbytes. by f_equal.
Qed.

Lemma clock_first_timestamp b mono real e r :
  bus_ok b → fits 64 mono → fits 64 real →
  write (ClockSyncEvent b mono real) 1 encoder_new = (Ok tt, e) → blen (finish e ++ r) < 2 ^ 63 →
  parse_segment_timestamp (finish e ++ r) = Ok real.
Proof.
  intros Hb Hm Hreal Hrun Hlen.
  destruct (clock_segment_bytes b mono real e Hb Hm Hreal Hrun) as (delta & w & Hd & Ht & Hbytes).
  rewrite Hbytes in Hlen |- *. set (slot := BusTypes.clock_slot b) in *.
  set (frame := event_frame slot delta _) in *. rewrite <- !app_assoc in *.
  assert (fits 16 slot) as Hid
    by (destruct Hb as (Hs & _); unfold STATIC_WIRE_ID_LIMIT, fits in *; fold slot in Hs; lia).
  destruct (decoder_new_header (encode_schema slot clock_sync_schema ++ w ++ frame ++ r))
    as (d & Hnew & (Hreg & _ & _ & _ & Hbase) & Hr).
  unfold parse_segment_timestamp. rewrite Hnew.
  destruct (first_schema_read d slot clock_sync_schema _ Hr Hid ltac:(done) ltac:(done)
              ltac:(by rewrite Hreg)) as (d1 & Hn1 & Hr1 & Hb1 & Hg1 & Hi1).
  assert (blen (Decoder.rest d1) < 2 ^ 63) as Hlen1.
  { rewrite Hr1. rewrite !blen_app in Hlen. rewrite !blen_app.
    pose proof (blen_nonneg encode_header).
    pose proof (blen_nonneg (encode_schema slot clock_sync_schema)). lia. }
  assert (time_prefix (Decoder.timestamp_base_ns d1) mono delta w) as Ht1
    by (by rewrite Hb1, Hbase).
  assert (Forall2 field_ok [FieldValue.Varint real]
            (map FieldDef.field_type (SchemaEntry.fields clock_sync_schema))) as Hv.
  { repeat constructor; try done. cbn. by apply bool_decide_eq_true. }
  destruct (first_event_read d1 slot mono delta w _ clock_sync_schema r Hr1 Hid Hm Hd Ht1 Hv Hi1
              Hlen1) as (d2 & Hn2 & Hreg2 & _).
  rewrite (parse_loop_skip _ _ _ _ _ _ Hn1) by done.
  assert (∃ n, length (Decoder.rest d) = S n) as [n ->] by (rewrite Hr; by eexists).
  cbn [parse_segment_timestamp_loop]. rewrite Hn2, Hreg2, Hg1. done.
Qed.

(** ** The listing *)

Lemma parse_index_name name stem i :
  parse_segment_index name stem = Some i → ∃ r, name = stem ++ lit "." ++ r ++ lit ".bin".
Proof.
  unfold parse_segment_index. intros H. bind_inv H. apply strip_prefix_some in E as ->.
  bind_inv H. apply strip_prefix_some in E as ->. bind_inv H. apply strip_suffix_some in E as ->.
  by eexists.
Qed.

Lemma bin_extension name stem i :
  parse_segment_index name stem = Some i → extension name = Some (lit "bin").
Proof.
  intros H. destruct (parse_index_name name stem i H) as [r ->]. unfold extension.
  assert (reverse (stem ++ lit "." ++ r ++ lit ".bin")
          = lit "nib." ++ reverse (stem ++ lit "." ++ r)) as Hrev.
  { rewrite (app_assoc (lit ".")), app_assoc, reverse_app. done. }
  rewrite bool_decide_false.
  2:{ intros E. rewrite E in Hrev. apply (f_equal (take 1)) in Hrev. discriminate Hrev. }
  rewrite Hrev. set (before := reverse (stem ++ lit "." ++ r)).
  change (split_once (lit ".") (lit "nib." ++ before)) with (Some (lit "nib", before)).
  cbn [mbind option_bind]. rewrite bool_decide_false; [done|].
  intros Hn. apply (f_equal length) in Hn. unfold before in Hn.
  rewrite length_reverse, !length_app in Hn. cbn in Hn. lia.
Qed.

Lemma insert_by_index_perm s l : insert_by_index s l ≡ₚ s :: l.
Proof.
  induction l as [|x l IH]; [done|]. cbn. destruct (_ <=? _); [done|].
  etrans; [apply perm_skip, IH|apply perm_swap].
Qed.

Lemma sort_by_index_perm l : sort_by_index l ≡ₚ l.
Proof.
  induction l as [|x l IH]; [done|]. cbn. etrans; [apply insert_by_index_perm|].
  by apply perm_skip.
Qed.

Lemma insert_by_index_sorted s l :
  StronglySorted Z.le (map snd l) → StronglySorted Z.le (map snd (insert_by_index s l)).
Proof.
  induction l as [|x l IH]; cbn [insert_by_index map]; intros H; [by repeat constructor|].
  apply StronglySorted_inv in H as [Hl Hx]. destruct (Z.leb_spec (snd s) (snd x)); cbn [map].
  - constructor; [by constructor|]. constructor; [done|].
    eapply list.Forall_impl; [exact Hx|]. lia.
  - constructor; [by apply IH|]. rewrite (Permutation_map snd (insert_by_index_perm s l)).
    cbn [map]. constructor; [lia|done].
Qed.

Lemma sort_by_index_sorted l : StronglySorted Z.le (map snd (sort_by_index l)).
Proof. induction l as [|x l IH]; [constructor|]. by apply insert_by_index_sorted. Qed.

(** Numbers have no dots. *)
Lemma digit_nodot l : Forall (λ c, is_Some (digit c)) l → Byte.x2e ∉ l.
Proof.
  intros H Hin. rewrite list.Forall_forall in H. destruct (H _ Hin) as [x Hx]. by vm_compute in Hx.
Qed.

Lemma parse_digits_some w a l v :
  parse_digits w a l = Some v → Forall (λ c, is_Some (digit c)) l.
Proof.
  revert a. induction l as [|c l IH]; intros a; [by constructor|].
  unfold parse_digits. cbn [foldl mbind option_bind].
  assert (∀ m, foldl (λ acc c, a ← acc; d ← digit c; m ← checked_mul w a 10;
                        checked_add w m d) None m = None) as Hn by (by induction m).
  destruct (digit c) as [d|] eqn:Ec; cbn [mbind option_bind]; [|by rewrite Hn].
  destruct (checked_mul w a 10) as [m|]; cbn [mbind option_bind]; [|by rewrite Hn].
  destruct (checked_add w m d) as [a'|]; [|by rewrite Hn].
  intros H. constructor; [by eexists|]. by apply IH in H.
Qed.

Lemma parse_uint_nodot w s v : parse_uint w s = Some v → Byte.x2e ∉ s.
Proof.
  unfold parse_uint. destruct s as [|c r]; [done|].
  destruct (bool_decide_reflect (c = z2b 43)) as [->|]; cbn [andb].
  - destruct (negb _); intros H; apply parse_digits_some, digit_nodot in H; [|done].
    rewrite not_elem_of_cons. by split.
  - intros H. by apply parse_digits_some, digit_nodot in H.
Qed.

Lemma split_once_nodot l s :
  Byte.x2e ∉ l → split_once (lit ".bin") (l ++ lit ".bin" ++ s) = Some (l, s).
Proof.
  induction l as [|c l IH]; [done|]. rewrite not_elem_of_cons. intros [Hc Hl].
  assert (strip_prefix (lit ".bin") ((c :: l) ++ lit ".bin" ++ s) = None) as Hp.
  { change (lit ".bin") with (Byte.x2e :: lit "bin") at 1. cbn [app strip_prefix].
    by rewrite bool_decide_false. }
  cbn [app split_once] in *. by rewrite Hp, IH.
Qed.

Lemma sealed_rest stem i t :
  strip_prefix stem (sealed_name stem i ++ t) = Some (lit "." ++ put_dec i ++ lit ".bin" ++ t).
Proof. unfold sealed_name. rewrite <- !app_assoc. apply strip_prefix_app. Qed.

Lemma active_sealed stem i : active_name stem i = sealed_name stem i ++ lit ".active".
Proof. unfold active_name, sealed_name. by rewrite <- !app_assoc. Qed.

(** A sealed name with what may follow it is never taken for an active one. *)
Lemma not_active n t :
  Byte.x2e ∉ n → t ≠ lit ".active" →
  ¬ is_Some (strip_suffix (lit ".bin.active") (n ++ lit ".bin" ++ t) ≫= parse_uint 32).
Proof.
  intros Hn Ht [x Hx]. destruct (strip_suffix _ _) as [l|] eqn:E; [|done]. cbn in Hx.
  apply strip_suffix_some in E. apply parse_uint_nodot in Hx.
  apply (f_equal (split_once (lit ".bin"))) in E.
  rewrite split_once_nodot in E by done.
  change (lit ".bin.active") with (lit ".bin" ++ lit ".active") in E.
  rewrite split_once_nodot in E by done. by injection E.
Qed.

(** A segment's names read back. *)
Section names.
Variables (stem : bytes) (i : Z).
Hypothesis Hi : fits 32 i.

Lemma put_dec_nodot : Byte.x2e ∉ put_dec i.
Proof using Hi. unfold fits in Hi. apply digit_nodot, put_dec_digits. lia. Qed.

Lemma parse_put_dec : parse_uint 32 (put_dec i) = Some i.
Proof using Hi. unfold fits in Hi. apply parse_uint_put; lia. Qed.

Lemma sealed_index : parse_segment_index (sealed_name stem i) stem = Some i.
Proof using Hi.
  unfold parse_segment_index. rewrite <- (app_nil_r (sealed_name stem i)), sealed_rest, app_nil_r.
  cbn [mbind option_bind]. rewrite strip_prefix_app. cbn [mbind option_bind].
  rewrite strip_suffix_app. apply parse_put_dec.
Qed.

Lemma sealed_artifact t :
  t = [] ∨ (∃ u, t = lit "." ++ u) ∧ t ≠ lit ".active" →
  parse_segment_artifact (sealed_name stem i ++ t) stem = Some (Retained i).
Proof using Hi.
  intros Ht. unfold parse_segment_artifact. rewrite sealed_rest. cbn [mbind option_bind].
  rewrite strip_prefix_app. cbn [mbind option_bind].
  rewrite bool_decide_false
    by (apply not_active; [apply put_dec_nodot|by destruct Ht as [->|[_ ?]]]).
  rewrite split_once_nodot by apply put_dec_nodot. cbn [mbind option_bind]. rewrite parse_put_dec.
  destruct Ht as [->|[[u ->] _]]; [done|]. rewrite strip_prefix_app.
  rewrite (bool_decide_false (Some u = None)) by done. by rewrite andb_false_r.
Qed.

Lemma active_index : parse_segment_index (active_name stem i) stem = None.
Proof.
  unfold parse_segment_index. rewrite active_sealed, sealed_rest. cbn [mbind option_bind].
  rewrite strip_prefix_app. cbn [mbind option_bind].
  destruct (strip_suffix _ _) as [l|] eqn:E; [|done]. apply strip_suffix_some in E.
  apply (f_equal reverse) in E. rewrite !reverse_app in E. discriminate E.
Qed.

Lemma active_artifact : parse_segment_artifact (active_name stem i) stem = Some Active.
Proof using Hi.
  unfold parse_segment_artifact. rewrite active_sealed, sealed_rest. cbn [mbind option_bind].
  rewrite strip_prefix_app. cbn [mbind option_bind].
  change (lit ".bin" ++ lit ".active") with (lit ".bin.active").
  rewrite strip_suffix_app. cbn [mbind option_bind]. rewrite parse_put_dec.
  by rewrite bool_decide_true by (by eexists).
Qed.

Lemma active_stripped dir :
  utf8_valid (dir ++ active_name stem i) = true →
  strip_active_suffix (dir ++ active_name stem i) = dir ++ sealed_name stem i.
Proof.
  intros Hu. unfold strip_active_suffix. rewrite from_utf8_valid by done. unfold default, id.
  by rewrite active_sealed, (app_assoc dir), strip_suffix_app.
Qed.
End names.

(** What the worker's scan finds. *)
Lemma find_sealed_perm names stem :
  find_sealed_segments names stem
  ≡ₚ omap (λ n, name ← n; (λ i, (name, i)) <$> parse_segment_index name stem) names.
Proof.
  unfold find_sealed_segments. etrans; [apply sort_by_index_perm|].
  match goal with |- ?a ≡ₚ ?b => assert (a = b) as ->; [|done] end.
  induction names as [|[name|] names IH]; [done| |exact IH].
  cbn [omap list_omap mbind option_bind].
  destruct (parse_segment_index name stem) as [i|] eqn:E; cbn [fmap option_fmap option_map].
  - rewrite bool_decide_true by (by eapply bin_extension). by f_equal.
  - destruct (bool_decide _); done.
Qed.

Lemma find_sealed_elem names stem name i :
  (name, i) ∈ find_sealed_segments names stem ↔
  Some name ∈ names ∧ parse_segment_index name stem = Some i.
Proof.
  rewrite find_sealed_perm, list_elem_of_omap. split.
  - intros ([n|] & Hn & E); [|done]. cbn in E.
    destruct (parse_segment_index n stem) eqn:Ei; [|done]. by injection E as -> ->.
  - intros [Hn E]. exists (Some name). split; [done|]. cbn. by rewrite E.
Qed.

(** ** Main properties *)

(** Segment names read back, for every stem and every u32 index: the name
    a segment is sealed under gives its index to the worker's scan and to the
    restart scan, with or without a write-back suffix such as [.gz]; the name
    it is written under is recognised as stale by the restart scan and ignored
    by the worker; and sealing a UTF-8 path takes the one to the other. *)
Theorem segment_names_roundtrip dir stem i t :
  fits 32 i → t = [] ∨ (∃ u, t = lit "." ++ u) ∧ t ≠ lit ".active" →
  parse_segment_index (sealed_name stem i) stem = Some i ∧
  parse_segment_artifact (sealed_name stem i ++ t) stem = Some (Retained i) ∧
  parse_segment_index (active_name stem i) stem = None ∧
  parse_segment_artifact (active_name stem i) stem = Some Active ∧
  (utf8_valid (dir ++ active_name stem i) = true →
   strip_active_suffix (dir ++ active_name stem i) = dir ++ sealed_name stem i).
Proof.
  intros Hi Ht. split_and!; [by apply sealed_index|by apply sealed_artifact|apply active_index|
    by apply active_artifact|apply active_stripped].
Qed.

Example segment_names_roundtrip_witness :
  parse_segment_index (sealed_name (lit "trace") 42) (lit "trace") = Some 42 ∧
  parse_segment_artifact (sealed_name (lit "trace") 42 ++ lit ".gz") (lit "trace")
  = Some (Retained 42).
Proof.
  assert (fits 32 42) as Hi by (split; lia).
  destruct (segment_names_roundtrip [] (lit "trace") 42 (lit ".gz") Hi) as (H1 & H2 & _).
  { right. split; [by exists (lit "gz")|by vm_compute]. }
  by split.
Defined.

(** The worker's listing has exactly the files whose names are sealed
    names of the stem, each with its index, oldest index first. *)
Theorem find_sealed_spec names stem :
  StronglySorted Z.le (map snd (find_sealed_segments names stem)) ∧
  find_sealed_segments names stem
  ≡ₚ omap (λ n, name ← n; (λ i, (name, i)) <$> parse_segment_index name stem) names.
Proof. split; [apply sort_by_index_sorted|apply find_sealed_perm]. Qed.

(** A segment opens with a clock anchor, and its creation time is read
    back from it, whatever the segment holds behind the anchor: the wall-clock
    nanoseconds the writer recorded, in seconds, and not the fallback. *)
Theorem segment_epoch b mono real e mtime_or_now r :
  bus_ok b → fits 64 mono → fits 64 real →
  write (ClockSyncEvent b mono real) 1 encoder_new = (Ok tt, e) →
  blen (finish e ++ r) < 2 ^ 63 →
  creation_epoch_secs mtime_or_now (finish e ++ r) = (real / 1000000000, true).
Proof.
  intros Hb Hm Hr He Hl. unfold creation_epoch_secs.
  by rewrite (clock_first_timestamp b mono real e r Hb Hm Hr He Hl).
Qed.

Example segment_epoch_witness :
  let b := BusTypes.mk 1 7 2 8 in
  let e := snd (write (ClockSyncEvent b 99000000 1700000000123456789) 1 encoder_new) in
  creation_epoch_secs 5 (finish e ++ [Byte.xff; Byte.x00]) = (1700000000, true).
Proof.
  intros b e.
  apply (segment_epoch b 99000000 1700000000123456789 e 5 [Byte.xff; Byte.x00]);
    [by split_and!|split; lia..| |by vm_compute].
  apply injective_projections; [by vm_compute|done].
Defined.
