(* ===== verification/MemRing.v ===== *)
(** * The in-memory segment ring (dial9-core/src/fs/mem.rs, fs/mod.rs)

    The byte-bounded queue of sealed segments between the writer and the
    worker, the accounting of what the worker holds, and the parts of the
    worker (worker/mod.rs) that hand a memory segment back.  A lock-protected
    section is one operation; [take_files_inner] is its three atomic parts in
    sequence, so that the writer's operations can come between them. *)

From Stdlib Require Import ZArith Lia Permutation.
From stdpp Require Import base list gmap sets strings option.
From coqutil Require Import Byte.
From S2P Require Import Prelude.
From S2P Require Import Sealed.

Definition PIPELINE_RESERVE_SEGMENTS : Z := 2.
Definition MEMORY_RETRY_BUDGET : Z := 3.

(** [a += b] and [a -= b] on a [u64] or an [AtomicU64]. *)
Definition add64 (a b : Z) : Z := cast 64 (a + b).
Definition sub64 (a b : Z) : Z := cast 64 (a - b).

(** ** Data *)

Module EpochWindow.
Record t : Type := mk { start_secs : option Z; end_secs : Z }.
End EpochWindow.

Definition overlaps (w : EpochWindow.t) (start_secs seal_secs : Z) : bool :=
  (start_secs <=? EpochWindow.end_secs w)
  && match EpochWindow.start_secs w with None => true | Some s => s <=? seal_secs end.

Module MemSealedSegment.
Record t : Type := mk {
  index : Z;
  payload : bytes;
  retry_count : Z;
  epoch_secs : Z;
  seal_secs : Z }.
End MemSealedSegment.

Definition slot_size (s : MemSealedSegment.t) : Z := blen (MemSealedSegment.payload s).

Module Queue.
Record t : Type := mk {
  segments : list MemSealedSegment.t;
  queued : Z;
  dropped : Z }.
End Queue.

Module MemChannel.
Record t : Type := mk {
  max_total_size : Z;
  queue : Queue.t;
  in_flight_bytes : Z;
  in_flight_segments : Z;
  in_flight_bytes_peak : Z;
  writer_done : bool }.

Definition set_queue (c : t) (q : Queue.t) : t :=
  mk (max_total_size c) q (in_flight_bytes c) (in_flight_segments c) (in_flight_bytes_peak c)
    (writer_done c).

Definition set_in_flight (c : t) (b s p : Z) : t :=
  mk (max_total_size c) (queue c) b s p (writer_done c).
End MemChannel.

(** [io::ErrorKind] as the writer looks at it. *)
Inductive io_error : Set :=
| NotFound
| IoInvalidInput
| IoOther.

(** ** Construction *)

Definition with_capacity (max_total_size segment_size_hint : Z) : result MemChannel.t io_error :=
  if max_total_size =? 0 then Err IoInvalidInput
  else Ok (MemChannel.mk max_total_size (Queue.mk [] 0 0) 0 0 0 false).

(** [Fs::new_in_memory]. *)
Definition new_in_memory (max_total_size max_segment_size : Z) : result MemChannel.t io_error :=
  let reserve := saturating_mul 64 PIPELINE_RESERVE_SEGMENTS max_segment_size in
  match checked_sub max_total_size reserve with
  | None => Err IoInvalidInput
  | Some ring_budget => with_capacity ring_budget max_segment_size
  end.

(** ** The writer's side *)

(** [while q.bytes + size > max && let Some(old) = q.segments.pop_front()]. *)
Fixpoint evict (max size : Z) (segs : list MemSealedSegment.t) (queued evicted : Z)
    (first last : option Z) : list MemSealedSegment.t * Z * Z * option Z * option Z :=
  if max <? add64 queued size then
    match segs with
    | [] => ([], queued, evicted, first, last)
    | old :: segs =>
        let index := MemSealedSegment.index old in
        evict max size segs (sub64 queued (slot_size old)) (evicted + 1)
          (Some (default index first)) (Some index)
    end
  else (segs, queued, evicted, first, last).

(** [seal]: [mtime_or_now] is the fallback of [creation_epoch_secs], [now] is
    [now_epoch_secs()].  The size is what the returned reference carries. *)
Definition seal (c : MemChannel.t) (index : Z) (payload : bytes) (mtime_or_now now : Z)
    : Z * MemChannel.t :=
  let size := blen payload in
  let epoch_secs := fst (creation_epoch_secs mtime_or_now payload) in
  let q := MemChannel.queue c in
  let '(segs, queued, evicted, _, _) :=
    evict (MemChannel.max_total_size c) size (Queue.segments q) (Queue.queued q) 0 None None in
  (size,
   MemChannel.set_queue c
     (Queue.mk (segs ++ [MemSealedSegment.mk index payload 0 epoch_secs now])
        (add64 queued size) (add64 (Queue.dropped q) evicted))).

Definition mark_writer_done (c : MemChannel.t) : MemChannel.t :=
  MemChannel.mk (MemChannel.max_total_size c) (MemChannel.queue c) (MemChannel.in_flight_bytes c)
    (MemChannel.in_flight_segments c) (MemChannel.in_flight_bytes_peak c) true.

(** ** The worker's side *)

Definition release_for_retry (c : MemChannel.t) (index : Z) (payload : bytes) (attempt : Z)
    (epochs : Z * Z) : MemChannel.t :=
  let q := MemChannel.queue c in
  MemChannel.set_queue c
    (Queue.mk (MemSealedSegment.mk index payload attempt (fst epochs) (snd epochs)
                 :: Queue.segments q)
       (add64 (Queue.queued q) (blen payload)) (Queue.dropped q)).

(** [iter().position(p)] then [remove(i)]. *)
Fixpoint remove_first {A} (p : A → bool) (l : list A) : option (A * list A) :=
  match l with
  | [] => None
  | x :: l => if p x then Some (x, l) else (λ '(y, l), (y, x :: l)) <$> remove_first p l
  end.

(** [SegmentAccounting]: the size it answers for; the atomics are the
    channel's. *)
Module SegmentAccounting.
Record t : Type := mk { size : Z }.
End SegmentAccounting.

Definition adjust (c : MemChannel.t) (a : SegmentAccounting.t) (new_size : Z)
    : MemChannel.t * SegmentAccounting.t :=
  let size := SegmentAccounting.size a in
  if new_size =? size then (c, a) else
  let total :=
    if size <? new_size then add64 (MemChannel.in_flight_bytes c) (new_size - size)
    else sub64 (MemChannel.in_flight_bytes c) (size - new_size) in
  (MemChannel.set_in_flight c total (MemChannel.in_flight_segments c)
     (Z.max (MemChannel.in_flight_bytes_peak c) total),
   SegmentAccounting.mk new_size).

(** [impl Drop for SegmentAccounting]. *)
Definition drop_accounting (c : MemChannel.t) (a : SegmentAccounting.t) : MemChannel.t :=
  MemChannel.set_in_flight c
    (sub64 (MemChannel.in_flight_bytes c) (SegmentAccounting.size a))
    (sub64 (MemChannel.in_flight_segments c) 1) (MemChannel.in_flight_bytes_peak c).

(** [TakenSegment::memory]: the slot that was popped, and its accounting. *)
Module TakenSegment.
Record t : Type := mk { slot : MemSealedSegment.t; accounting : SegmentAccounting.t }.
End TakenSegment.

Module TakenFiles.
Record t : Type := mk {
  segments : list TakenSegment.t;
  queued_segments : Z;
  queued_bytes : Z;
  in_flight_segments : Z;
  in_flight_bytes : Z;
  in_flight_bytes_peak : Z;
  segments_dropped : Z }.
End TakenFiles.

(** First part: load [in_flight_bytes] and swap it into the peak. *)
Definition take_swap (c : MemChannel.t) : Z * Z * MemChannel.t :=
  let in_flight_now := MemChannel.in_flight_bytes c in
  (in_flight_now, MemChannel.in_flight_bytes_peak c,
   MemChannel.set_in_flight c in_flight_now (MemChannel.in_flight_segments c) in_flight_now).

(** Second part, under the lock: pop, and take the drop counter. *)
Definition take_pop (windows : option (list EpochWindow.t)) (c : MemChannel.t)
    : option MemSealedSegment.t * Z * Z * Z * MemChannel.t :=
  let q := MemChannel.queue c in
  let popped :=
    match windows with
    | None => match Queue.segments q with [] => None | s :: segs => Some (s, segs) end
    | Some ws =>
        remove_first (λ s, existsb (λ w, overlaps w (MemSealedSegment.epoch_secs s)
                                         (MemSealedSegment.seal_secs s)) ws) (Queue.segments q)
    end in
  let '(slot, segs, queued) :=
    match popped with
    | Some (s, segs) => (Some s, segs, sub64 (Queue.queued q) (slot_size s))
    | None => (None, Queue.segments q, Queue.queued q)
    end in
  (slot, blen segs, queued, Queue.dropped q, MemChannel.set_queue c (Queue.mk segs queued 0)).

(** Third part: account for the popped segment. *)
Definition take_account (slot : MemSealedSegment.t) (c : MemChannel.t)
    : TakenSegment.t * MemChannel.t :=
  let size := slot_size slot in
  let total := add64 (MemChannel.in_flight_bytes c) size in
  (TakenSegment.mk slot (SegmentAccounting.mk size),
   MemChannel.set_in_flight c total (add64 (MemChannel.in_flight_segments c) 1)
     (Z.max (MemChannel.in_flight_bytes_peak c) total)).

Definition take_files_inner (windows : option (list EpochWindow.t)) (c : MemChannel.t)
    : TakenFiles.t * MemChannel.t :=
  let '(in_flight_now, peak, c) := take_swap c in
  let '(popped, queued_segments, queued_bytes, segments_dropped, c) := take_pop windows c in
  match popped with
  | None =>
      (TakenFiles.mk [] queued_segments queued_bytes (MemChannel.in_flight_segments c)
         in_flight_now peak segments_dropped, c)
  | Some slot =>
      let '(taken, c) := take_account slot c in
      (TakenFiles.mk [taken] queued_segments queued_bytes (MemChannel.in_flight_segments c)
         (MemChannel.in_flight_bytes c) peak segments_dropped, c)
  end.

Definition take_files : MemChannel.t → TakenFiles.t * MemChannel.t := take_files_inner None.

Definition take_files_matching (windows : list EpochWindow.t)
    : MemChannel.t → TakenFiles.t * MemChannel.t := take_files_inner (Some windows).

Definition has_pending (c : MemChannel.t) : bool :=
  negb (bool_decide (Queue.segments (MemChannel.queue c) = [])).

(** What the worker does with a memory segment it does not finish: the retry
    branch of [process_segments], [None] when the budget is spent (the creation
    epoch is read from the bytes again, the seal epoch is the slot's); and
    [release_unprocessed], which keeps count and epochs. *)
Definition retry_segment (s : MemSealedSegment.t) (mtime_or_now : Z) (c : MemChannel.t)
    : option MemChannel.t :=
  let payload := MemSealedSegment.payload s in
  let attempt := MemSealedSegment.retry_count s + 1 in
  if MEMORY_RETRY_BUDGET <? attempt then None
  else Some (release_for_retry c (MemSealedSegment.index s) payload attempt
               (fst (creation_epoch_secs mtime_or_now payload), MemSealedSegment.seal_secs s)).

Definition release_unprocessed (s : MemSealedSegment.t) (c : MemChannel.t) : MemChannel.t :=
  release_for_retry c (MemSealedSegment.index s) (MemSealedSegment.payload s)
    (MemSealedSegment.retry_count s)
    (MemSealedSegment.epoch_secs s, MemSealedSegment.seal_secs s).

(** ** One writer and one worker on a ring *)

(** Where the worker is: between cycles, inside [take_files_inner], processing
    a segment, or with a segment handed back or finished and its accounting
    still to be dropped. *)
Inductive worker : Type :=
| Idle
| Swapped
| Popped (s : MemSealedSegment.t)
| Working (s : MemSealedSegment.t) (a : SegmentAccounting.t)
| Settled (a : SegmentAccounting.t).

(** What was done so far: the segments sealed, evicted and finished, and the
    sum of the drop counts reported to the worker. *)
Module History.
Record t : Type := mk {
  sealed : list MemSealedSegment.t;
  evicted : list MemSealedSegment.t;
  finished : list MemSealedSegment.t;
  reported : Z }.
End History.

Module Ring.
Record t : Type := mk { channel : MemChannel.t; pc : worker; history : History.t }.
End Ring.

Fixpoint total_size (l : list MemSealedSegment.t) : Z :=
  match l with [] => 0 | s :: l => slot_size s + total_size l end.

(** The segment the worker holds, and the accounting that is alive. *)
Definition owned (p : worker) : list MemSealedSegment.t :=
  match p with Popped s | Working s _ => [s] | _ => [] end.

Definition live (p : worker) : list SegmentAccounting.t :=
  match p with Working _ a | Settled a => [a] | _ => [] end.

Definition slots (c : MemChannel.t) : list MemSealedSegment.t :=
  Queue.segments (MemChannel.queue c).

(** The bytes of all segments in memory. *)
Definition footprint (r : Ring.t) : Z :=
  total_size (slots (Ring.channel r)) + total_size (owned (Ring.pc r)).

(** What a [seal] from [c] to [c'] pushed, and what it evicted. *)
Definition pushed (c' : MemChannel.t) : list MemSealedSegment.t :=
  drop (pred (length (slots c'))) (slots c').

Definition evicted_by (c c' : MemChannel.t) : list MemSealedSegment.t :=
  take (S (length (slots c)) - length (slots c')) (slots c).

Inductive step : Ring.t → Ring.t → Prop :=
| step_seal c p h index payload m now size c' :
    seal c index payload m now = (size, c') →
    footprint (Ring.mk c p h) + blen payload < 2 ^ 64 →
    blen (History.sealed h) + 1 < 2 ^ 64 →
    step (Ring.mk c p h)
      (Ring.mk c' p (History.mk (History.sealed h ++ pushed c')
         (History.evicted h ++ evicted_by c c') (History.finished h) (History.reported h)))
| step_swap c h x y c' :
    take_swap c = (x, y, c') → step (Ring.mk c Idle h) (Ring.mk c' Swapped h)
| step_pop c h ws slot x y d c' :
    take_pop ws c = (slot, x, y, d, c') →
    step (Ring.mk c Swapped h)
      (Ring.mk c' (match slot with Some s => Popped s | None => Idle end)
         (History.mk (History.sealed h) (History.evicted h) (History.finished h)
            (History.reported h + d)))
| step_account c h s a c' :
    take_account s c = (TakenSegment.mk s a, c') →
    step (Ring.mk c (Popped s) h) (Ring.mk c' (Working s a) h)
| step_adjust c h s a new_size c' a' :
    fits 64 new_size → adjust c a new_size = (c', a') →
    step (Ring.mk c (Working s a) h) (Ring.mk c' (Working s a') h)
| step_retry c h s a m c' :
    retry_segment s m c = Some c' → step (Ring.mk c (Working s a) h) (Ring.mk c' (Settled a) h)
| step_unprocessed c h s a :
    step (Ring.mk c (Working s a) h) (Ring.mk (release_unprocessed s c) (Settled a) h)
| step_finish c h s a :
    step (Ring.mk c (Working s a) h)
      (Ring.mk c (Settled a) (History.mk (History.sealed h) (History.evicted h)
         (History.finished h ++ [s]) (History.reported h)))
| step_drop c h a :
    step (Ring.mk c (Settled a) h) (Ring.mk (drop_accounting c a) Idle h)
| step_done c p h : step (Ring.mk c p h) (Ring.mk (mark_writer_done c) p h).

Definition ring_start (c : MemChannel.t) : Ring.t := Ring.mk c Idle (History.mk [] [] [] 0).

(** ** Sizes *)

Lemma slot_size_nonneg s : 0 <= slot_size s.
Proof. apply blen_nonneg. Qed.

Lemma total_size_nonneg l : 0 <= total_size l.
Proof. induction l as [|s l IH]; cbn; [lia|]. pose proof (slot_size_nonneg s). lia. Qed.

Lemma total_size_app l k : total_size (l ++ k) = total_size l + total_size k.
Proof. induction l as [|s l IH]; cbn; lia. Qed.

Lemma total_size_drop n l : total_size (drop n l) <= total_size l.
Proof.
  revert n. induction l as [|s l IH]; intros [|n]; cbn; try lia. specialize (IH n).
  pose proof (slot_size_nonneg s). lia.
Qed.

Lemma add64_small a b : 0 <= a + b < 2 ^ 64 → add64 a b = a + b.
Proof. apply cast_id. Qed.

Lemma sub64_small a b : 0 <= a - b < 2 ^ 64 → sub64 a b = a - b.
Proof. apply cast_id. Qed.

(** ** Eviction *)

(** The oldest segments go, the fewest that make room; all of them when the
    new segment alone is over the budget. *)
Lemma evict_spec max size segs evicted first last :
  0 <= size → total_size segs + size < 2 ^ 64 →
  ∃ k f l, evict max size segs (total_size segs) evicted first last
    = (drop k segs, total_size (drop k segs), evicted + Z.of_nat k, f, l) ∧
    (k <= length segs)%nat ∧
    (k = length segs ∨ total_size (drop k segs) + size <= max) ∧
    ∀ j, (j < k)%nat → max < total_size (drop j segs) + size.
Proof.
  intros Hs. revert evicted first last.
  induction segs as [|s segs IH]; intros evicted first last Hlen; cbn [evict].
  - exists 0%nat, first, last. rewrite Z.add_0_r.
    split; [by destruct (_ <? _)|]. split; [done|]. split; [by left|]. intros j Hj. lia.
  - cbn [total_size] in *. pose proof (slot_size_nonneg s). pose proof (total_size_nonneg segs).
    rewrite add64_small by lia.
    destruct (Z.ltb_spec max (slot_size s + total_size segs + size)) as [Hover|Hfit].
    + rewrite sub64_small by lia.
      replace (slot_size s + total_size segs - slot_size s) with (total_size segs) by lia.
      destruct (IH (evicted + 1) (Some (default (MemSealedSegment.index s) first))
                  (Some (MemSealedSegment.index s)) ltac:(lia)) as (k & f & l & -> & Hk & Hend & Hmin).
      exists (S k), f, l. split; [do 3 f_equal; lia|]. split; [cbn; lia|].
      split; [destruct Hend; [left; cbn; lia|by right]|].
      intros [|j] Hj; [cbn; lia|]. apply Hmin. lia.
    + exists 0%nat, first, last. rewrite Z.add_0_r. split; [done|]. split; [lia|].
      split; [right; cbn; lia|]. intros j Hj. lia.
Qed.

(** A channel whose byte count is right. *)
Definition queue_ok (c : MemChannel.t) : Prop :=
  Queue.queued (MemChannel.queue c) = total_size (slots c).

Lemma seal_run c index payload m now :
  queue_ok c → total_size (slots c) + blen payload < 2 ^ 64 →
  let new := MemSealedSegment.mk index payload 0 (fst (creation_epoch_secs m payload)) now in
  ∃ k c', seal c index payload m now = (blen payload, c') ∧
    (k <= length (slots c))%nat ∧ slots c' = drop k (slots c) ++ [new] ∧
    pushed c' = [new] ∧ evicted_by c c' = take k (slots c) ∧ queue_ok c' ∧
    Queue.dropped (MemChannel.queue c') = add64 (Queue.dropped (MemChannel.queue c)) (Z.of_nat k) ∧
    c' = MemChannel.set_queue c (MemChannel.queue c') ∧
    (k = length (slots c) ∨
     total_size (drop k (slots c)) + blen payload <= MemChannel.max_total_size c) ∧
    ∀ j, (j < k)%nat →
      MemChannel.max_total_size c < total_size (drop j (slots c)) + blen payload.
Proof.
  intros Hq Hlen new. pose proof (blen_nonneg payload) as Hp.
  destruct (evict_spec (MemChannel.max_total_size c) (blen payload) (slots c) 0 None None Hp Hlen)
    as (k & f & l & Hev & Hk & Hend & Hmin).
  pose proof (total_size_drop k (slots c)). pose proof (total_size_nonneg (drop k (slots c))).
  eexists k, _. split.
  { unfold seal. cbv zeta. fold (slots c). unfold queue_ok in Hq. rewrite Hq, Hev. done. }
  cbn [MemChannel.queue MemChannel.set_queue Queue.dropped slots Queue.segments]. fold new.
  split; [done|]. split; [done|].
  assert (length (drop k (slots c) ++ [new]) = S (length (slots c) - k)) as Hl
    by (rewrite length_app, length_drop; cbn; lia).
  split_and!; try done.
  - unfold pushed. cbn [slots MemChannel.queue MemChannel.set_queue Queue.segments].
    rewrite Hl. cbn [pred]. by rewrite drop_app_length' by (rewrite length_drop; lia).
  - unfold evicted_by. cbn [slots MemChannel.queue MemChannel.set_queue Queue.segments].
    rewrite Hl. f_equal. lia.
  - unfold queue_ok. cbn. rewrite add64_small by lia. rewrite total_size_app. cbn.
    unfold slot_size. cbn. lia.
Qed.

(** ** The invariant of the ring *)

(** The part of a segment that never changes. *)
Definition identity (s : MemSealedSegment.t) : Z * bytes :=
  (MemSealedSegment.index s, MemSealedSegment.payload s).

Definition live_bytes (p : worker) : Z :=
  match live p with [] => 0 | a :: _ => SegmentAccounting.size a end.

Definition retry_ok (s : MemSealedSegment.t) : Prop :=
  0 <= MemSealedSegment.retry_count s <= MEMORY_RETRY_BUDGET.

Record ring_ok (r : Ring.t) : Prop := {
  ring_queue : queue_ok (Ring.channel r);
  ring_room : footprint r < 2 ^ 64;
  ring_bytes : MemChannel.in_flight_bytes (Ring.channel r) = live_bytes (Ring.pc r);
  ring_live : 0 <= live_bytes (Ring.pc r) < 2 ^ 64;
  ring_segments : MemChannel.in_flight_segments (Ring.channel r) = blen (live (Ring.pc r));
  ring_peak : live_bytes (Ring.pc r) <= MemChannel.in_flight_bytes_peak (Ring.channel r);
  ring_retries : Forall retry_ok (slots (Ring.channel r) ++ owned (Ring.pc r));
  ring_fates :
    map identity (History.sealed (Ring.history r)) ≡ₚ
    map identity (History.evicted (Ring.history r) ++ slots (Ring.channel r)
                  ++ owned (Ring.pc r) ++ History.finished (Ring.history r));
  ring_count : blen (History.sealed (Ring.history r)) < 2 ^ 64;
  ring_dropped :
    History.reported (Ring.history r) + Queue.dropped (MemChannel.queue (Ring.channel r))
    = blen (History.evicted (Ring.history r));
  ring_dropped_pos : 0 <= Queue.dropped (MemChannel.queue (Ring.channel r));
  ring_reported : 0 <= History.reported (Ring.history r) }.

Lemma remove_first_spec {A} (p : A → bool) l :
  match remove_first p l with
  | Some (x, l') => ∃ a b, l = a ++ x :: b ∧ l' = a ++ b ∧ p x = true ∧
                     Forall (λ y, p y = false) a
  | None => Forall (λ y, p y = false) l
  end.
Proof.
  induction l as [|x l IH]; cbn; [by constructor|]. destruct (p x) eqn:E.
  - by exists [], l.
  - destruct (remove_first p l) as [[y l']|]; cbn.
    + destruct IH as (a & b & -> & -> & Hy & Ha). exists (x :: a), b.
      split_and!; [done..|]. by constructor.
    + by constructor.
Qed.

(** What a pop does to the queue, with or without windows. *)
Lemma take_pop_run ws c slot x y d c' :
  take_pop ws c = (slot, x, y, d, c') → queue_ok c → total_size (slots c) < 2 ^ 64 →
  queue_ok c' ∧ d = Queue.dropped (MemChannel.queue c) ∧
  c' = MemChannel.set_queue c (MemChannel.queue c') ∧
  Queue.dropped (MemChannel.queue c') = 0 ∧
  match slot with
  | None => slots c' = slots c
  | Some s => ∃ a b, slots c = a ++ s :: b ∧ slots c' = a ++ b
  end.
Proof.
  unfold take_pop. intros H Hq Hlen.
  assert (∀ a s b, slots c = a ++ s :: b →
            sub64 (Queue.queued (MemChannel.queue c)) (slot_size s) = total_size (a ++ b)) as Hsub.
  { intros a s b Hs. rewrite Hq, Hs, !total_size_app. cbn. pose proof (total_size_nonneg a).
    pose proof (total_size_nonneg b). pose proof (slot_size_nonneg s).
    rewrite Hs, total_size_app in Hlen. cbn in Hlen. rewrite sub64_small; lia. }
  assert (∀ popped : option (MemSealedSegment.t * list MemSealedSegment.t),
            match popped with
            | Some (s, l) => ∃ a b, slots c = a ++ s :: b ∧ l = a ++ b
            | None => True
            end →
            (let '(slot, segs, queued) :=
               match popped with
               | Some (s, segs) => (Some s, segs,
                   sub64 (Queue.queued (MemChannel.queue c)) (slot_size s))
               | None => (None, Queue.segments (MemChannel.queue c),
                          Queue.queued (MemChannel.queue c))
               end in
             (slot, blen segs, queued, Queue.dropped (MemChannel.queue c),
              MemChannel.set_queue c (Queue.mk segs queued 0))) = (slot, x, y, d, c') →
            queue_ok c' ∧ d = Queue.dropped (MemChannel.queue c) ∧
            c' = MemChannel.set_queue c (MemChannel.queue c') ∧
            Queue.dropped (MemChannel.queue c') = 0 ∧
            match slot with
            | None => slots c' = slots c
            | Some s => ∃ a b, slots c = a ++ s :: b ∧ slots c' = a ++ b
            end) as Hfin.
  { intros [[s l]|] Hp [= <- <- <- <- <-]; [|by split_and!].
    destruct Hp as (a & b & Hs & ->). split_and!; try done; [|by exists a, b].
    unfold queue_ok. cbn. by apply Hsub. }
  destruct ws as [ws|]; (eapply Hfin; [|exact H]).
  - match goal with |- context [remove_first ?p ?l] =>
      pose proof (remove_first_spec p l) as Hr; destruct (remove_first p l) as [[s l']|] end; [|done].
    destruct Hr as (a & b & Hs & -> & _). by exists a, b.
  - fold (slots c). destruct (slots c) as [|s l] eqn:E; [done|]. by exists [], l.
Qed.

Lemma adjust_run c a n c' a' :
  adjust c a n = (c', a') →
  MemChannel.in_flight_bytes c = SegmentAccounting.size a →
  0 <= SegmentAccounting.size a < 2 ^ 64 → 0 <= n < 2 ^ 64 →
  SegmentAccounting.size a <= MemChannel.in_flight_bytes_peak c →
  a' = SegmentAccounting.mk n ∧
  ∃ p, c' = MemChannel.set_in_flight c n (MemChannel.in_flight_segments c) p ∧ n <= p.
Proof.
  unfold adjust. intros H Hb Hs Hn Hp. destruct (Z.eqb_spec n (SegmentAccounting.size a)) as [->|Hne].
  - injection H as <- <-. destruct a, c. cbn in *. subst. split; [done|]. by eexists.
  - injection H as <- <-. split; [done|]. rewrite Hb.
    assert ((if SegmentAccounting.size a <? n
             then add64 (SegmentAccounting.size a) (n - SegmentAccounting.size a)
             else sub64 (SegmentAccounting.size a) (SegmentAccounting.size a - n)) = n) as ->.
    { destruct (Z.ltb_spec (SegmentAccounting.size a) n);
        [rewrite add64_small|rewrite sub64_small]; lia. }
    eexists. split; [done|lia].
Qed.

Lemma release_run c s attempt e :
  queue_ok c → total_size (slots c) + slot_size s < 2 ^ 64 →
  let new := MemSealedSegment.mk (MemSealedSegment.index s) (MemSealedSegment.payload s)
               attempt (fst e) (snd e) in
  let c' := release_for_retry c (MemSealedSegment.index s) (MemSealedSegment.payload s) attempt e in
  queue_ok c' ∧ slots c' = new :: slots c ∧ identity new = identity s ∧
  total_size (slots c') = total_size (slots c) + slot_size s ∧
  Queue.dropped (MemChannel.queue c') = Queue.dropped (MemChannel.queue c) ∧
  c' = MemChannel.set_queue c (MemChannel.queue c').
Proof.
  intros Hq Hlen new c'. pose proof (total_size_nonneg (slots c)). pose proof (slot_size_nonneg s).
  assert (total_size (slots c') = total_size (slots c) + slot_size s) as Ht
    by (cbn; unfold slot_size; cbn; fold (slots c); lia).
  split_and!; try done. unfold queue_ok. rewrite Ht. cbn. rewrite Hq.
  unfold slot_size in *. rewrite add64_small; lia.
Qed.

Lemma perm_hand_back {A B} (f : A → B) (x y : A) (a b c : list A) :
  f x = f y → map f (a ++ b ++ [x] ++ c) ≡ₚ map f (a ++ (y :: b) ++ c).
Proof.
  intros H. rewrite !map_app. cbn [map app]. rewrite H.
  apply Permutation_app_head. rewrite Permutation_app_comm.
  cbn. apply perm_skip. apply Permutation_app_comm.
Qed.

Lemma ring_start_ok c :
  MemChannel.queue c = Queue.mk [] 0 0 → MemChannel.in_flight_bytes c = 0 →
  MemChannel.in_flight_segments c = 0 → MemChannel.in_flight_bytes_peak c = 0 →
  ring_ok (ring_start c).
Proof.
  intros Hq H1 H2 H3. assert (slots c = []) as Hs by (unfold slots; by rewrite Hq).
  split; cbn; unfold queue_ok, footprint; cbn; rewrite ?Hs, ?H1, ?H2, ?H3, ?Hq; cbn; try done; lia.
Qed.

Lemma set_queue_same c c' :
  c' = MemChannel.set_queue c (MemChannel.queue c') →
  MemChannel.in_flight_bytes c' = MemChannel.in_flight_bytes c ∧
  MemChannel.in_flight_segments c' = MemChannel.in_flight_segments c ∧
  MemChannel.in_flight_bytes_peak c' = MemChannel.in_flight_bytes_peak c.
Proof. by intros ->. Qed.

Ltac ring_split := split; cbn [Ring.channel Ring.pc Ring.history History.sealed History.evicted
  History.finished History.reported owned live live_bytes SegmentAccounting.size].

Lemma seal_step_ok c p h index payload m now size c' :
  ring_ok (Ring.mk c p h) → seal c index payload m now = (size, c') →
  footprint (Ring.mk c p h) + blen payload < 2 ^ 64 →
  blen (History.sealed h) + 1 < 2 ^ 64 →
  ring_ok (Ring.mk c' p (History.mk (History.sealed h ++ pushed c')
         (History.evicted h ++ evicted_by c c') (History.finished h) (History.reported h))).
Proof.
  intros [Hq Hroom Hb Hl Hsg Hp Hr Hf Hc Hd Hdp Hrp] Hrun Hfit Hcount.
  cbn [Ring.channel Ring.pc Ring.history] in *.
  unfold footprint in *. cbn [Ring.channel Ring.pc] in *.
  pose proof (total_size_nonneg (owned p)).
  destruct (seal_run c index payload m now Hq ltac:(lia))
    as (k & c1 & Hrun1 & Hk & Hs & Hpush & Hev & Hq' & Hdrop & Hc1 & _).
  rewrite Hrun in Hrun1. injection Hrun1 as -> <-.
  destruct (set_queue_same _ _ Hc1) as (Hb1 & Hs1 & Hp1).
  set (new := MemSealedSegment.mk index payload 0 _ now) in *.
  assert (blen (History.sealed h) = blen (History.evicted h) + blen (slots c)
            + blen (owned p) + blen (History.finished h)) as Hlen.
  { apply Permutation_length in Hf. rewrite !length_map, !length_app in Hf.
    unfold blen. lia. }
  pose proof (total_size_drop k (slots c)).
  assert (total_size [new] = blen payload) as Hnew
    by (cbn; unfold slot_size; cbn; lia).
  ring_split; rewrite ?Hpush, ?Hev, ?Hs.
  - done.
  - unfold footprint. cbn [Ring.channel Ring.pc]. rewrite Hs, total_size_app, Hnew. lia.
  - by rewrite Hb1.
  - done.
  - by rewrite Hs1.
  - by rewrite Hp1.
  - rewrite <- app_assoc. apply list.Forall_app in Hr as [Hr1 Hr2].
    apply list.Forall_app. split; [by apply list.Forall_drop|].
    constructor; [|done]. unfold retry_ok, MEMORY_RETRY_BUDGET. cbn. lia.
  - rewrite map_app, Hf, !map_app, <- !app_assoc. apply Permutation_app_head.
    rewrite <- (take_drop k (slots c)) at 1. rewrite map_app, <- !app_assoc.
    apply Permutation_app_head, Permutation_app_head.
    rewrite (Permutation_app_comm (map identity [new])). by rewrite <- app_assoc.
  - rewrite blen_app. by change (blen [new]) with 1.
  - rewrite Hdrop, blen_app. pose proof (blen_nonneg (owned p)).
    pose proof (blen_nonneg (History.finished h)).
    unfold blen in *. rewrite length_take, add64_small by lia. lia.
  - rewrite Hdrop. apply Z.mod_pos_bound. lia.
  - done.
Qed.

Lemma pop_step_ok c h ws slot x y d c' :
  ring_ok (Ring.mk c Swapped h) → take_pop ws c = (slot, x, y, d, c') →
  ring_ok (Ring.mk c' (match slot with Some s => Popped s | None => Idle end)
    (History.mk (History.sealed h) (History.evicted h) (History.finished h)
       (History.reported h + d))).
Proof.
  intros [Hq Hroom Hb Hl Hsg Hp Hr Hf Hc Hd Hdp Hrp] Hrun.
  cbn [Ring.channel Ring.pc Ring.history owned live live_bytes app] in *.
  unfold footprint in Hroom. cbn [Ring.channel Ring.pc owned total_size] in Hroom.
  destruct (take_pop_run ws c slot x y d c' Hrun Hq ltac:(lia)) as (Hq' & -> & Hc' & Hd0 & Hs).
  destruct (set_queue_same _ _ Hc') as (Hb1 & Hs1 & Hp1). clear Hc'.
  destruct slot as [s|].
  - destruct Hs as (a & b & Hab & Hs).
    ring_split; rewrite ?Hs, ?Hd0, ?Hb1, ?Hs1, ?Hp1; try done; try lia.
    + unfold footprint. cbn [Ring.channel Ring.pc owned total_size].
      rewrite Hs, !total_size_app. rewrite Hab, total_size_app in Hroom. cbn in Hroom. lia.
    + rewrite app_nil_r, Hab in Hr. apply list.Forall_app in Hr as [Ha Hb2].
      apply list.Forall_cons in Hb2 as [Hs2 Hb2].
      rewrite !list.Forall_app. split_and!; [done..|]. by constructor.
    + rewrite Hf, Hab, !map_app. apply Permutation_app_head. cbn [map app].
      rewrite <- !app_assoc. apply Permutation_app_head. cbn [app].
      apply Permutation_middle.
  - ring_split; rewrite ?Hs, ?Hd0, ?Hb1, ?Hs1, ?Hp1; try done; try lia.
    unfold footprint. cbn [Ring.channel Ring.pc owned total_size]. rewrite Hs. lia.
Qed.

(** Handing a segment back, with any retry count within the budget. *)
Lemma hand_back_ok c h s a attempt e :
  ring_ok (Ring.mk c (Working s a) h) → 0 <= attempt <= MEMORY_RETRY_BUDGET →
  ring_ok (Ring.mk (release_for_retry c (MemSealedSegment.index s) (MemSealedSegment.payload s)
                      attempt e) (Settled a) h).
Proof.
  intros [Hq Hroom Hb Hl Hsg Hp Hr Hf Hc Hd Hdp Hrp] Hat.
  cbn [Ring.channel Ring.pc Ring.history owned live live_bytes] in *.
  unfold footprint in Hroom. cbn [Ring.channel Ring.pc owned total_size] in Hroom.
  destruct (release_run c s attempt e Hq ltac:(lia)) as (Hq' & Hs & Hid & Ht & Hdr & Hc').
  set (c' := release_for_retry _ _ _ _ _) in *.
  destruct (set_queue_same _ _ Hc') as (Hb1 & Hs1 & Hp1). clear Hc'.
  ring_split; rewrite ?Hdr, ?Hb1, ?Hs1, ?Hp1; try done; try lia.
  - unfold footprint. cbn [Ring.channel Ring.pc owned total_size]. lia.
  - rewrite Hs, app_nil_r. apply list.Forall_app in Hr as [Hr _]. by constructor.
  - rewrite Hf, Hs. cbn [app].
    by apply (perm_hand_back identity _ _ (History.evicted h) (slots c) (History.finished h)).
Qed.

Lemma adjust_step_ok c h s a n c' a' :
  ring_ok (Ring.mk c (Working s a) h) → fits 64 n → adjust c a n = (c', a') →
  ring_ok (Ring.mk c' (Working s a') h).
Proof.
  intros [Hq Hroom Hb Hl Hsg Hp Hr Hf Hc Hd Hdp Hrp] Hn Hrun.
  cbn [Ring.channel Ring.pc Ring.history owned live live_bytes] in *.
  unfold fits in Hn.
  destruct (adjust_run c a n c' a' Hrun Hb ltac:(lia) ltac:(lia) Hp) as (-> & p & -> & Hnp).
  by ring_split.
Qed.

Lemma account_step_ok c h s a c' :
  ring_ok (Ring.mk c (Popped s) h) → take_account s c = (TakenSegment.mk s a, c') →
  ring_ok (Ring.mk c' (Working s a) h).
Proof.
  intros [Hq Hroom Hb Hl Hsg Hp Hr Hf Hc Hd Hdp Hrp] [= <- <-].
  cbn [Ring.channel Ring.pc Ring.history owned live live_bytes] in *.
  unfold footprint in Hroom. cbn [Ring.channel Ring.pc owned total_size] in Hroom.
  pose proof (slot_size_nonneg s). pose proof (total_size_nonneg (slots c)).
  rewrite Hb, Hsg. rewrite (add64_small 0 (slot_size s)) by lia.
  ring_split; try exact Hroom; try done; cbn; lia.
Qed.

(** Dropping the accounting brings the gauges back to zero. *)
Lemma drop_step_ok c h a :
  ring_ok (Ring.mk c (Settled a) h) → ring_ok (Ring.mk (drop_accounting c a) Idle h).
Proof.
  intros [Hq Hroom Hb Hl Hsg Hp Hr Hf Hc Hd Hdp Hrp].
  cbn [Ring.channel Ring.pc Ring.history owned live live_bytes] in *.
  unfold drop_accounting. rewrite Hb, Hsg, (sub64_small (SegmentAccounting.size a)) by lia.
  replace (SegmentAccounting.size a - SegmentAccounting.size a) with 0 by lia.
  ring_split; try exact Hroom; try done; cbn; lia.
Qed.

Lemma finish_step_ok c h s a :
  ring_ok (Ring.mk c (Working s a) h) →
  ring_ok (Ring.mk c (Settled a) (History.mk (History.sealed h) (History.evicted h)
         (History.finished h ++ [s]) (History.reported h))).
Proof.
  intros [Hq Hroom Hb Hl Hsg Hp Hr Hf Hc Hd Hdp Hrp].
  cbn [Ring.channel Ring.pc Ring.history owned live live_bytes] in *.
  unfold footprint in Hroom. cbn [Ring.channel Ring.pc owned total_size] in Hroom.
  pose proof (slot_size_nonneg s).
  ring_split; try done.
  - unfold footprint. cbn [Ring.channel Ring.pc owned total_size]. lia.
  - rewrite app_nil_r. by apply list.Forall_app in Hr as [Hr _].
  - rewrite Hf, !map_app. cbn [map app]. do 2 apply Permutation_app_head.
    apply Permutation_cons_append.
Qed.

Lemma step_ok r r' : step r r' → ring_ok r → ring_ok r'.
Proof.
  intros Hstep Hok. destruct Hstep.
  - by eapply seal_step_ok.
  - injection H as _ _ <-. destruct Hok. cbn [Ring.channel Ring.pc Ring.history owned live live_bytes] in *.
    ring_split; try done. cbn. lia.
  - by eapply pop_step_ok.
  - by eapply account_step_ok.
  - by eapply adjust_step_ok.
  - unfold retry_segment in H. destruct (Z.ltb_spec MEMORY_RETRY_BUDGET
      (MemSealedSegment.retry_count s + 1)) as [|Hle]; [done|]. apply Some_inj in H as <-.
    apply hand_back_ok; [done|]. pose proof (ring_retries _ Hok) as Hr. cbn in Hr.
    apply list.Forall_app in Hr as [_ Hr]. apply list.Forall_cons in Hr as [[Hr _] _]. lia.
  - apply hand_back_ok; [done|]. pose proof (ring_retries _ Hok) as Hr. cbn in Hr.
    apply list.Forall_app in Hr as [_ Hr]. by apply list.Forall_cons in Hr as [Hr _].
  - by apply finish_step_ok.
  - by apply drop_step_ok.
  - by destruct Hok.
Qed.

Lemma steps_ok r r' : rtc step r r' → ring_ok r → ring_ok r'.
Proof. induction 1; eauto using step_ok. Qed.

Lemma new_in_memory_start max seg c : new_in_memory max seg = Ok c → ring_ok (ring_start c).
Proof.
  unfold new_in_memory, with_capacity. destruct (checked_sub _ _); [|done].
  destruct (_ =? 0); [done|]. intros [= <-]. by apply ring_start_ok.
Qed.

(** ** The writer between the parts of a take *)

(** A run of seals by the writer. *)
Definition seal_all (l : list (Z * bytes * Z * Z)) (c : MemChannel.t) : MemChannel.t :=
  foldl (λ c '(index, payload, m, now), snd (seal c index payload m now)) c l.

(** [take_files_inner] with the seals [a] between the swap and the pop, and
    [b] between the pop and the accounting. *)
Definition take_interleaved (windows : option (list EpochWindow.t))
    (a b : list (Z * bytes * Z * Z)) (c : MemChannel.t) : TakenFiles.t * MemChannel.t :=
  let '(in_flight_now, peak, c) := take_swap c in
  let '(popped, queued_segments, queued_bytes, segments_dropped, c) :=
    take_pop windows (seal_all a c) in
  let c := seal_all b c in
  match popped with
  | None =>
      (TakenFiles.mk [] queued_segments queued_bytes (MemChannel.in_flight_segments c)
         in_flight_now peak segments_dropped, c)
  | Some slot =>
      let '(taken, c) := take_account slot c in
      (TakenFiles.mk [taken] queued_segments queued_bytes (MemChannel.in_flight_segments c)
         (MemChannel.in_flight_bytes c) peak segments_dropped, c)
  end.

(** A seal neither reads nor writes the gauges. *)
Lemma seal_gauges c index payload m now b s p :
  snd (seal (MemChannel.set_in_flight c b s p) index payload m now)
  = MemChannel.set_in_flight (snd (seal c index payload m now)) b s p.
Proof. unfold seal. cbn. by destruct (evict _ _ _ _ _ _ _) as [[[[? ?] ?] ?] ?]. Qed.

Lemma seal_keeps c index payload m now :
  let c' := snd (seal c index payload m now) in
  MemChannel.in_flight_bytes c' = MemChannel.in_flight_bytes c ∧
  MemChannel.in_flight_segments c' = MemChannel.in_flight_segments c ∧
  MemChannel.in_flight_bytes_peak c' = MemChannel.in_flight_bytes_peak c.
Proof. unfold seal. by destruct (evict _ _ _ _ _ _ _) as [[[[? ?] ?] ?] ?]. Qed.

Lemma seal_all_gauges l c b s p :
  seal_all l (MemChannel.set_in_flight c b s p) = MemChannel.set_in_flight (seal_all l c) b s p.
Proof.
  revert c. induction l as [|[[[i w] m] n] l IH]; intros c; [done|]. cbn [seal_all foldl].
  rewrite seal_gauges. apply IH.
Qed.

Lemma seal_all_keeps l c :
  MemChannel.in_flight_bytes (seal_all l c) = MemChannel.in_flight_bytes c ∧
  MemChannel.in_flight_segments (seal_all l c) = MemChannel.in_flight_segments c ∧
  MemChannel.in_flight_bytes_peak (seal_all l c) = MemChannel.in_flight_bytes_peak c.
Proof.
  revert c. induction l as [|[[[i w] m] n] l IH]; intros c; [done|]. cbn [seal_all foldl].
  destruct (seal_keeps c i w m n) as (<- & <- & <-). apply IH.
Qed.

(** ** Main properties *)

(** C37: Whatever the writer and the worker do and in whatever order their
    atomic parts come, every segment sealed has exactly one fate: it is in the
    ring, was evicted (and counted, once, in the drop counts reported to the
    worker or still to be), is with the worker, or was finished; no bytes
    change on the way and no segment is retried more than the budget. *)
Theorem ring_conservation max seg c r :
  new_in_memory max seg = Ok c → rtc step (ring_start c) r →
  let h := Ring.history r in
  map identity (History.sealed h) ≡ₚ
    map identity (History.evicted h ++ slots (Ring.channel r) ++ owned (Ring.pc r)
                  ++ History.finished h) ∧
  History.reported h + Queue.dropped (MemChannel.queue (Ring.channel r))
  = blen (History.evicted h) ∧
  Forall retry_ok (slots (Ring.channel r) ++ owned (Ring.pc r)).
Proof.
  intros Hc Hr. by destruct (steps_ok _ _ Hr (new_in_memory_start _ _ _ Hc)).
Qed.

(** The gauges are exact in every state in which a lock is free: the queue's
    byte count is the sum of its segments', the in-flight bytes and segments
    are those of the one accounting that is alive (at most one), the peak is
    never below them, and nothing wraps around: dropping an accounting never
    takes more than is there. *)
Theorem ring_accounting max seg c r :
  new_in_memory max seg = Ok c → rtc step (ring_start c) r →
  let ch := Ring.channel r in
  Queue.queued (MemChannel.queue ch) = total_size (slots ch) ∧
  MemChannel.in_flight_bytes ch = live_bytes (Ring.pc r) ∧
  MemChannel.in_flight_segments ch = blen (live (Ring.pc r)) ∧
  MemChannel.in_flight_segments ch <= 1 ∧
  MemChannel.in_flight_bytes ch <= MemChannel.in_flight_bytes_peak ch.
Proof.
  intros Hc Hr. destruct (steps_ok _ _ Hr (new_in_memory_start _ _ _ Hc))
    as [Hq _ Hb _ Hs Hp _ _ _ _ _ _]. cbv zeta. split_and!; [done..| |].
  - rewrite Hs. unfold blen. destruct (Ring.pc r); cbn; lia.
  - by rewrite Hb.
Qed.

(** [take_files] need not be atomic: seals that come between its swap, its
    pop and its accounting leave the same ring, and the worker sees the same
    report, as if the whole take had happened at its pop. *)
Theorem take_is_atomic windows a b c :
  take_interleaved windows a b c
  = let '(taken, c') := take_files_inner windows (seal_all a c) in (taken, seal_all b c').
Proof.
  unfold take_interleaved, take_files_inner, take_swap.
  destruct (seal_all_keeps a c) as (Hb & Hs & Hp). rewrite Hb, Hs, Hp, seal_all_gauges.
  set (c1 := MemChannel.set_in_flight (seal_all a c) _ _ _).
  destruct (take_pop windows c1) as [[[[popped x] y] d] c2].
  destruct (seal_all_keeps b c2) as (Hb2 & Hs2 & Hp2).
  destruct popped as [s|]; [|by rewrite Hs2].
  unfold take_account. cbn [MemChannel.in_flight_segments MemChannel.in_flight_bytes
    MemChannel.set_in_flight]. by rewrite Hb2, Hs2, Hp2, seal_all_gauges.
Qed.

(** A seal evicts the fewest oldest segments that make room and appends the
    new one with its creation epoch and a fresh retry count; the ring is then
    within its budget, unless the new segment alone is larger, in which case it
    is the only one left; the drop counter grows by what was evicted. *)
Theorem seal_spec c index payload m now :
  queue_ok c → total_size (slots c) + blen payload < 2 ^ 64 →
  ∃ k, let c' := snd (seal c index payload m now) in
    (k <= length (slots c))%nat ∧
    slots c' = drop k (slots c)
      ++ [MemSealedSegment.mk index payload 0 (fst (creation_epoch_secs m payload)) now] ∧
    Queue.queued (MemChannel.queue c') = total_size (slots c') ∧
    total_size (slots c') <= Z.max (MemChannel.max_total_size c) (blen payload) ∧
    (∀ j, (j < k)%nat → MemChannel.max_total_size c < total_size (drop j (slots c)) + blen payload) ∧
    Queue.dropped (MemChannel.queue c')
    = add64 (Queue.dropped (MemChannel.queue c)) (Z.of_nat k).
Proof.
  intros Hq Hlen. destruct (seal_run c index payload m now Hq Hlen)
    as (k & c' & Hrun & Hk & Hs & _ & _ & Hq' & Hd & _ & Hend & Hmin).
  exists k. rewrite Hrun. cbv zeta. cbn [snd]. split_and!; try done.
  rewrite Hs, total_size_app. cbn [total_size].
  change (slot_size (MemSealedSegment.mk _ payload _ _ _)) with (blen payload).
  destruct Hend as [->|Hend]; [|lia]. rewrite drop_ge by lia. cbn. lia.
Qed.

(** The windowed take hands out the oldest segment whose [creation, seal]
    span meets one of the windows and leaves every other segment in the ring in
    its order; it hands out none only when no segment matches. *)
Theorem take_matching_spec windows c :
  queue_ok c → total_size (slots c) < 2 ^ 64 →
  let matches s := existsb (λ w, overlaps w (MemSealedSegment.epoch_secs s)
                                          (MemSealedSegment.seal_secs s)) windows in
  let '(taken, c') := take_files_matching windows c in
  Queue.queued (MemChannel.queue c') = total_size (slots c') ∧
  TakenFiles.queued_bytes taken = total_size (slots c') ∧
  TakenFiles.queued_segments taken = blen (slots c') ∧
  match TakenFiles.segments taken with
  | [] => slots c' = slots c ∧ Forall (λ s, matches s = false) (slots c)
  | [t] => ∃ a b, slots c = a ++ TakenSegment.slot t :: b ∧ slots c' = a ++ b ∧
             matches (TakenSegment.slot t) = true ∧ Forall (λ s, matches s = false) a ∧
             SegmentAccounting.size (TakenSegment.accounting t) = slot_size (TakenSegment.slot t)
  | _ => False
  end.
Proof.
  intros Hq Hlen matches. unfold take_files_matching, take_files_inner, take_swap, take_pop.
  cbn [MemChannel.queue MemChannel.set_in_flight]. fold (slots c).
  pose proof (remove_first_spec matches (slots c)) as Hr. fold matches in Hr |- *.
  change (λ s, existsb _ windows) with matches.
  destruct (remove_first matches (slots c)) as [[s l]|]; cbn.
  - destruct Hr as (a & b & Hs & -> & Hm & Ha).
    assert (sub64 (Queue.queued (MemChannel.queue c)) (slot_size s) = total_size (a ++ b)) as Hsub.
    { rewrite Hq, Hs, !total_size_app in *. cbn in *. pose proof (total_size_nonneg a).
      pose proof (total_size_nonneg b). pose proof (slot_size_nonneg s). rewrite sub64_small; lia. }
    split_and!; try done. by exists a, b.
  - by split_and!.
Qed.

(** "Keeps [q.bytes <= max_total_size] at every observable moment" is not
    what the ring does: a segment larger than the budget stays in it, and a
    segment handed back for retry is pushed without any eviction. *)
Theorem budget_overshoot :
  ∃ c, with_capacity 10 4 = Ok c ∧
    let big := snd (seal c 0 (repeat Byte.x00 11) 5 5) in
    MemChannel.max_total_size big < Queue.queued (MemChannel.queue big) ∧
    let '(taken, c1) := take_files (snd (seal c 0 (repeat Byte.x00 8) 5 5)) in
    let full := snd (seal c1 1 (repeat Byte.x00 8) 5 5) in
    ∃ t c2, TakenFiles.segments taken = [t] ∧
      retry_segment (TakenSegment.slot t) 5 full = Some c2 ∧
      Queue.queued (MemChannel.queue c2) = 16.
Proof.
  eexists. split; [reflexivity|]. cbv zeta. split; [by vm_compute|].
  do 2 eexists. split; [reflexivity|]. split; [reflexivity|]. by vm_compute.
Qed.

(** ** A run: two segments sealed, the first evicted by the second, the second
    taken, retried and its accounting dropped *)

Definition sample_channel : MemChannel.t :=
  MemChannel.mk 60 (Queue.mk [] 0 0) 0 0 0 false.

Definition sample_seal (i n : Z) (c : MemChannel.t) : MemChannel.t :=
  snd (seal c i (repeat Byte.x00 (Z.to_nat n)) 7 9).

Definition sample_sealed : MemChannel.t := sample_seal 1 40 (sample_seal 0 30 sample_channel).

Definition sample_slot : MemSealedSegment.t :=
  MemSealedSegment.mk 1 (repeat Byte.x00 40) 0 7 9.

Definition sample_swapped : MemChannel.t := snd (take_swap sample_sealed).
Definition sample_popped : MemChannel.t := snd (take_pop None sample_swapped).
Definition sample_taken : MemChannel.t := snd (take_account sample_slot sample_popped).

Definition sample_retried : MemChannel.t :=
  default sample_taken (retry_segment sample_slot 7 sample_taken).

Definition sample_acct : SegmentAccounting.t := SegmentAccounting.mk 40.
Definition sample_dropped : MemChannel.t := drop_accounting sample_retried sample_acct.

Definition sample_old : MemSealedSegment.t :=
  MemSealedSegment.mk 0 (repeat Byte.x00 30) 0 7 9.

Definition sample_history : History.t :=
  History.mk [sample_old; sample_slot] [sample_old] [] 1.

Lemma sample_ring_run :
  rtc step (ring_start sample_channel) (Ring.mk sample_dropped Idle sample_history).
Proof.
  eapply rtc_l.
  { apply (step_seal _ _ _ 0 (repeat Byte.x00 30) 7 9 30 (sample_seal 0 30 sample_channel));
      [apply injective_projections; by vm_compute|by vm_compute..]. }
  eapply rtc_l.
  { apply (step_seal _ _ _ 1 (repeat Byte.x00 40) 7 9 40 sample_sealed);
      [apply injective_projections; by vm_compute|by vm_compute..]. }
  eapply rtc_l; [apply (step_swap _ _ 0 0 sample_swapped); by vm_compute|].
  eapply rtc_l.
  { apply (step_pop _ _ None (Some sample_slot) 0 0 1 sample_popped). by vm_compute. }
  eapply rtc_l; [apply (step_account _ _ _ sample_acct sample_taken); by vm_compute|].
  eapply rtc_l; [apply (step_retry _ _ _ _ 7 sample_retried); by vm_compute|].
  eapply rtc_l; [apply step_drop|].
  match goal with |- rtc _ ?a ?b => assert (a = b) as -> by (f_equal; by vm_compute) end.
  apply rtc_refl.
Qed.

Example ring_conservation_witness :
  new_in_memory 100 20 = Ok sample_channel ∧
  map identity [sample_old; sample_slot] ≡ₚ
    map identity ([sample_old] ++ slots sample_dropped ++ [] ++ []) ∧
  1 + Queue.dropped (MemChannel.queue sample_dropped) = 1 ∧
  Forall retry_ok (slots sample_dropped ++ []).
Proof.
  assert (new_in_memory 100 20 = Ok sample_channel) as Hc by reflexivity.
  split; [exact Hc|]. exact (ring_conservation 100 20 sample_channel _ Hc sample_ring_run).
Defined.

Example ring_accounting_witness :
  Queue.queued (MemChannel.queue sample_dropped) = total_size (slots sample_dropped) ∧
  MemChannel.in_flight_bytes sample_dropped = 0 ∧
  MemChannel.in_flight_segments sample_dropped <= 1.
Proof.
  assert (new_in_memory 100 20 = Ok sample_channel) as Hc by reflexivity.
  destruct (ring_accounting 100 20 sample_channel _ Hc sample_ring_run) as (H1 & H2 & _ & H4 & _).
  split; [exact H1|]. split; [exact H2|exact H4].
Defined.

Example seal_spec_witness :
  queue_ok sample_sealed ∧
  ∃ k, let c' := sample_seal 2 30 sample_sealed in
    (k <= length (slots sample_sealed))%nat ∧
    slots c' = drop k (slots sample_sealed)
      ++ [MemSealedSegment.mk 2 (repeat Byte.x00 30) 0 7 9] ∧
    total_size (slots c') <= 60.
Proof.
  assert (queue_ok sample_sealed) as Hq by (by vm_compute). split; [exact Hq|].
  destruct (seal_spec sample_sealed 2 (repeat Byte.x00 30) 7 9 Hq ltac:(by vm_compute))
    as (k & H1 & H2 & _ & H4 & _).
  exists k. split; [exact H1|]. split; [exact H2|exact H4].
Defined.

Example take_matching_spec_witness :
  let '(taken, c') := take_files_matching [EpochWindow.mk (Some 8) 20] sample_sealed in
  Queue.queued (MemChannel.queue c') = total_size (slots c').
Proof.
  pose proof (take_matching_spec [EpochWindow.mk (Some 8) 20] sample_sealed
    ltac:(by vm_compute) ltac:(by vm_compute)) as H. cbv zeta in H.
  destruct (take_files_matching _ _) as [taken c']. exact (proj1 H).
Defined.
