(* ===== verification/Wakeup.v ===== *)
(** * Waking the worker (dial9-core/src/fs/mem.rs, wait_for_wakeup)

    The worker parks on a [tokio::sync::Notify] when the ring is empty; the
    writer pushes and then notifies.  [Notify] is not code of this repository:
    it is an interface with the behaviour its documentation promises, and the
    theorem holds for everything that meets it. *)

From Stdlib Require Import ZArith Lia.
From stdpp Require Import base list relations.
From coqutil Require Import Byte.
From S2P Require Import Prelude.
From S2P Require Import Sealed.
From S2P Require Import MemRing.

(** [Notify] with the one [Notified] future the worker makes: [enable] creates
    and registers it, [notify_one] is called by the writer, [ready] is whether
    its await returns, [release] drops it. *)
Class Notify (N : Type) : Type := {
  enable : N → N;
  notify_one : N → N;
  ready : N → bool;
  release : N → N;
  registered : N → Prop }.

(** An enabled future receives the wakeup of every later [notify_one] and keeps
    it until it is awaited. *)
Class NotifyLaws (N : Type) `{Notify N} : Prop := {
  enable_registered n : registered (enable n);
  notify_registered n : registered n → registered (notify_one n);
  notify_ready n : registered n → ready (notify_one n) = true }.

(** Where the two sides are: the worker outside the wait, between [enable] and
    the check, or awaiting; the writer with or without a notification it still
    owes for what it has published. *)
Inductive waiter : Set := Running | Enabled | Awaiting.

Module Wait.
Record t (N : Type) : Type := mk {
  channel : MemChannel.t;
  notify : N;
  pc : waiter;
  owes : bool }.

Arguments mk {N} channel notify pc owes.
Arguments channel {N} _.
Arguments notify {N} _.
Arguments pc {N} _.
Arguments owes {N} _.
End Wait.

(** The test of [wait_for_wakeup]. *)
Definition may_return (c : MemChannel.t) : bool := has_pending c || MemChannel.writer_done c.

Section wakeup.
Context {N : Type} `{NotifyLaws N}.

Inductive wait_step : Wait.t N → Wait.t N → Prop :=
(** the writer: [seal], [mark_writer_done], and the [notify_one] behind each *)
| publish_seal c n p index payload m now :
    wait_step (Wait.mk c n p false) (Wait.mk (snd (seal c index payload m now)) n p true)
| publish_done c n p :
    wait_step (Wait.mk c n p false) (Wait.mk (mark_writer_done c) n p true)
| publish_notify c n p : wait_step (Wait.mk c n p true) (Wait.mk c (notify_one n) p false)
(** the worker: its takes, then [wait_for_wakeup] *)
| worker_take c n o ws :
    wait_step (Wait.mk c n Running o) (Wait.mk (snd (take_files_inner ws c)) n Running o)
| worker_enable c n o : wait_step (Wait.mk c n Running o) (Wait.mk c (enable n) Enabled o)
| worker_return c n o :
    may_return c = true → wait_step (Wait.mk c n Enabled o) (Wait.mk c (release n) Running o)
| worker_await c n o :
    may_return c = false → wait_step (Wait.mk c n Enabled o) (Wait.mk c n Awaiting o)
| worker_woken c n o :
    ready n = true → wait_step (Wait.mk c n Awaiting o) (Wait.mk c (release n) Running o).

(** A future that waits is registered, and has been woken unless nothing was
    published since the check or the writer is about to notify. *)
Definition wait_ok (w : Wait.t N) : Prop :=
  match Wait.pc w with
  | Running => True
  | Enabled => registered (Wait.notify w)
  | Awaiting =>
      registered (Wait.notify w) ∧
      (ready (Wait.notify w) = true ∨ Wait.owes w = true ∨ may_return (Wait.channel w) = false)
  end.

Lemma wait_step_ok w w' : wait_step w w' → wait_ok w → wait_ok w'.
Proof.
  destruct 1; unfold wait_ok; cbn [Wait.pc Wait.notify Wait.owes Wait.channel]; try done.
  - destruct p; [done..|]. intros [Hr _]. split; [done|]. by right; left.
  - destruct p; [done..|]. intros [Hr _]. split; [done|]. by right; left.
  - destruct p; [done|by apply notify_registered|]. intros [Hr _].
    split; [by apply notify_registered|]. left. by apply notify_ready.
  - intros _. apply enable_registered.
  - intros Hr. split; [done|]. by right; right.
Qed.

Lemma waits_ok w w' : rtc wait_step w w' → wait_ok w → wait_ok w'.
Proof. induction 1; eauto using wait_step_ok. Qed.
End wakeup.

(** One permit and one future: an implementation of the interface. *)
Module Permit.
Record t : Type := mk { permit : bool; waiting : bool; woken : bool }.
End Permit.

#[global] Instance permit_notify : Notify Permit.t := {
  enable n := Permit.mk false true (Permit.permit n);
  notify_one n :=
    if Permit.waiting n && negb (Permit.woken n) then Permit.mk (Permit.permit n) true true
    else Permit.mk true (Permit.waiting n) (Permit.woken n);
  ready n := Permit.woken n;
  release n := Permit.mk (Permit.permit n) false false;
  registered n := Permit.waiting n = true }.

#[global] Instance permit_laws : NotifyLaws Permit.t.
Proof.
  split; intros [p w k]; cbn; try done; destruct w, k; done.
Qed.

(** C40: No wakeup is lost: however the writer's publications and the worker's
    wait interleave, a worker that awaits while the ring holds a segment or the
    writer is done can be woken at once, or is woken by the very next step of
    the writer, the notification it still owes. *)
Theorem no_lost_wakeup {N} `{NotifyLaws N} (c : MemChannel.t) (n : N) w :
  rtc wait_step (Wait.mk c n Running false) w →
  Wait.pc w = Awaiting →
  slots (Wait.channel w) ≠ [] ∨ MemChannel.writer_done (Wait.channel w) = true →
  (∃ w', wait_step w w' ∧ Wait.pc w' = Running) ∨
  (∃ w' w'', wait_step w w' ∧ Wait.owes w = true ∧ Wait.owes w' = false ∧
     wait_step w' w'' ∧ Wait.pc w'' = Running).
Proof.
  intros Hw Hpc Hwork. assert (may_return (Wait.channel w) = true) as Hm.
  { unfold may_return, has_pending. fold (slots (Wait.channel w)). apply orb_true_iff.
    destruct Hwork as [Hs|Hd]; [left|by right]. by rewrite bool_decide_false. }
  pose proof (waits_ok _ _ Hw I) as Hok.
  destruct w as [ch m p o]. cbn [Wait.pc Wait.channel] in Hpc, Hm. subst p.
  unfold wait_ok in Hok. cbn [Wait.pc Wait.notify Wait.owes Wait.channel] in Hok.
  destruct Hok as [Hr [Hready|[Ho|Hf]]]; [| |congruence].
  - left. eexists. split; [by apply worker_woken|done].
  - right. cbn in Ho. subst o. eexists _, _. split; [apply publish_notify|].
    split; [done|]. split; [done|].
    split; [apply worker_woken; by apply notify_ready|done].
Qed.

Example no_lost_wakeup_witness :
  let w := Wait.mk (sample_seal 0 30 sample_channel) (Permit.mk false true false) Awaiting true in
  (∃ w', wait_step w w' ∧ Wait.pc w' = Running) ∨
  (∃ w' w'', wait_step w w' ∧ Wait.owes w = true ∧ Wait.owes w' = false ∧
     wait_step w' w'' ∧ Wait.pc w'' = Running).
Proof.
  intros w. apply (no_lost_wakeup sample_channel (Permit.mk false false false)); [|done|by left].
  eapply rtc_l; [apply worker_enable|].
  eapply rtc_l; [by apply worker_await|].
  eapply rtc_l; [apply (publish_seal _ _ _ 0 (repeat Byte.x00 30) 7 9)|].
  apply rtc_refl.
Defined.
