(* ===== verification/SegmentFs.v ===== *)
(** * The writer's view of a backend (dial9-core/src/fs/mod.rs)

    [Fs] as the segment writer uses it: an interface, with the in-memory ring
    as one implementation (the disk backend is in DiskFs) and, for proofs, a
    wrapper around any implementation that records what is sealed. *)

From Stdlib Require Import ZArith Lia.
From stdpp Require Import base list gmap strings option.
From coqutil Require Import Byte.
From S2P Require Import Prelude.
From S2P Require Import Sealed.
From S2P Require Import MemRing.

(** What one operation of the writer reads from the system: the instant, the
    monotonic and wall clocks of the three clock anchors it may write, and the
    seconds the backend reads when it seals. *)
Module Reads.
Record t : Type := mk {
  instant : Z;
  metadata_clock : Z * Z;
  seal_clock : Z * Z;
  start_clock : Z * Z;
  mtime_or_now : Z;
  epoch_secs : Z }.
End Reads.

(** Segments and active files are known by their index: the writer's paths are
    [{dir}/{stem}.{index}.bin.active], see [Sealed.segment_names_roundtrip]. *)
Class SegmentFs (F : Type) : Type := {
  is_disk : bool;
  fs_create_segment : Z → F → result unit io_error * F;
  fs_seal : bytes → Z → Z → Reads.t → F → result Z io_error * F;
  fs_remove_sealed : Z → F → F;
  fs_remove_active : Z → F → result unit io_error * F;
  fs_mark_writer_done : F → F }.

Arguments is_disk F {_}.

#[global] Instance mem_fs : SegmentFs MemChannel.t := {
  is_disk := false;
  fs_create_segment _ c := (Ok tt, c);
  fs_seal payload _ index r c :=
    (Ok index, snd (seal c index payload (Reads.mtime_or_now r) (Reads.epoch_secs r)));
  fs_remove_sealed _ c := c;
  fs_remove_active _ c := (Ok tt, c);
  fs_mark_writer_done := mark_writer_done }.

(** ** Recording *)

(** One call of [seal]: the bytes handed over, the index, and whether the
    backend took them. *)
Module SealCall.
Record t : Type := mk { payload : bytes; index : Z; taken : bool }.
End SealCall.

Definition is_ok {T E} (r : result T E) : bool := match r with Ok _ => true | Err _ => false end.

(** Any backend, with the seals it was asked for. *)
Definition traced (F : Type) : Type := F * list SealCall.t.

#[global] Instance traced_fs {F} `{SegmentFs F} : SegmentFs (traced F) := {
  is_disk := is_disk F;
  fs_create_segment i '(f, l) := let '(r, f) := fs_create_segment i f in (r, (f, l));
  fs_seal w a i reads '(f, l) :=
    let '(r, f) := fs_seal w a i reads f in (r, (f, l ++ [SealCall.mk w i (is_ok r)]));
  fs_remove_sealed i '(f, l) := (fs_remove_sealed i f, l);
  fs_remove_active i '(f, l) := let '(r, f) := fs_remove_active i f in (r, (f, l));
  fs_mark_writer_done '(f, l) := (fs_mark_writer_done f, l) }.
