(* ===== verification/DiskFs.v ===== *)
(** * The disk backend (dial9-core/src/fs/disk.rs)

    [DiskFs] over one directory: a finite map from file names to what they
    name.  The calls of [std::fs] are modelled as documented on such a map
    ([create] truncates, [rename] replaces, a missing file is [NotFound]); a
    directory that is missing counts as empty, since [create_segment] makes it
    again.  Other failures of the operating system are left to the writer's
    theorems, which hold over any backend.  The directory belongs to the
    environment: between two operations it may change in any way. *)

From Stdlib Require Import ZArith Lia.
From stdpp Require Import base list gmap sets sorting strings option.
From coqutil Require Import Byte.
From S2P Require Import Prelude.
From S2P Require Import Text.
From S2P Require Import Utf8.
From S2P Require Import Sealed.
From S2P Require Import MemRing.
From S2P Require Import SegmentFs.

(** What a name stands for; the length of what is not a file is the system's. *)
Inductive node : Type :=
| File (content : bytes)
| Directory (len : Z).

Definition node_len (n : node) : Z := match n with File c => blen c | Directory len => len end.

Module DiskFs.
Record t : Type := mk {
  dir : bytes;
  stem : bytes;
  entries : gmap bytes node;
  claimed : gmap Z Z;
  dropped : Z;
  writer_done : bool }.

Definition set_entries (d : t) (e : gmap bytes node) : t :=
  mk (dir d) (stem d) e (claimed d) (dropped d) (writer_done d).
Definition set_claimed (d : t) (c : gmap Z Z) : t :=
  mk (dir d) (stem d) (entries d) c (dropped d) (writer_done d).
Definition set_dropped (d : t) (n : Z) : t :=
  mk (dir d) (stem d) (entries d) (claimed d) n (writer_done d).
End DiskFs.

Definition disk_new (dir stem : bytes) (entries : gmap bytes node) : DiskFs.t :=
  DiskFs.mk dir stem entries ∅ 0 false.

(** [self.dir.join(name)]. *)
Definition join (dir name : bytes) : bytes := dir ++ lit "/" ++ name.

(** The names [read_dir] lists, the entries in it. *)
Definition read_dir (d : DiskFs.t) : list (bytes * node) := map_to_list (DiskFs.entries d).

(** [to_str] of a file name. *)
Definition to_str (name : bytes) : option bytes := if utf8_valid name then Some name else None.

Definition disk_create_segment (index : Z) (d : DiskFs.t) : result unit io_error * DiskFs.t :=
  let path := active_name (DiskFs.stem d) index in
  match DiskFs.entries d !! path with
  | Some (Directory _) => (Err IoOther, d)
  | _ => (Ok tt, DiskFs.set_entries d (<[path := File []]> (DiskFs.entries d)))
  end.

(** [rename] within the directory. *)
Definition rename (from to : bytes) (d : DiskFs.t) : result unit io_error * DiskFs.t :=
  match DiskFs.entries d !! from, DiskFs.entries d !! to with
  | None, _ => (Err NotFound, d)
  | Some (File _), Some (Directory _) | Some (Directory _), Some (File _) => (Err IoOther, d)
  | Some n, _ => (Ok tt, DiskFs.set_entries d (<[to := n]> (delete from (DiskFs.entries d))))
  end.

(** [seal]: what was written is in the file once the handle is dropped, if the
    file is still there. *)
Definition disk_seal (payload : bytes) (active_path index : Z) (d : DiskFs.t)
    : result Z io_error * DiskFs.t :=
  let name := active_name (DiskFs.stem d) active_path in
  let d := match DiskFs.entries d !! name with
           | Some (File _) => DiskFs.set_entries d (<[name := File payload]> (DiskFs.entries d))
           | _ => d
           end in
  let sealed_path := strip_active_suffix (join (DiskFs.dir d) name) in
  match rename name (default name (strip_prefix (join (DiskFs.dir d) []) sealed_path)) d with
  | (Ok _, d) => (Ok index, d)
  | (Err e, d) => (Err e, d)
  end.

(** [remove_file]: a directory is refused. *)
Definition remove_file (name : bytes) (d : DiskFs.t) : DiskFs.t :=
  match DiskFs.entries d !! name with
  | Some (File _) => DiskFs.set_entries d (delete name (DiskFs.entries d))
  | _ => d
  end.

Definition is_family (file_name name : bytes) : bool :=
  bool_decide (name = file_name)
  || match strip_prefix file_name name with
     | Some (c :: _) => bool_decide (c = Byte.x2e)
     | _ => false
     end.

Definition remove_segment_family (file_name : bytes) (d : DiskFs.t) : DiskFs.t :=
  foldl (λ d '(name, _),
           match to_str name with
           | Some name => if is_family file_name name then remove_file name d else d
           | None => d
           end) d (read_dir d).

Inductive RemoveReason : Set := Eviction | Terminal.

Definition disk_remove_sealed (index : Z) (reason : RemoveReason) (d : DiskFs.t) : DiskFs.t :=
  let d := remove_segment_family (sealed_name (DiskFs.stem d) index) d in
  let d := DiskFs.set_claimed d (delete index (DiskFs.claimed d)) in
  match reason with
  | Eviction => DiskFs.set_dropped d (DiskFs.dropped d + 1)
  | Terminal => d
  end.

(** A failure to remove is logged and answered with [Ok]. *)
Definition disk_remove_active (index : Z) (d : DiskFs.t) : result unit io_error * DiskFs.t :=
  (Ok tt, remove_file (active_name (DiskFs.stem d) index) d).

Definition release_claim (index : Z) (d : DiskFs.t) : DiskFs.t :=
  DiskFs.set_claimed d (delete index (DiskFs.claimed d)).

Definition disk_mark_writer_done (d : DiskFs.t) : DiskFs.t :=
  DiskFs.mk (DiskFs.dir d) (DiskFs.stem d) (DiskFs.entries d) (DiskFs.claimed d)
    (DiskFs.dropped d) true.

#[global] Instance disk_fs : SegmentFs DiskFs.t := {
  is_disk := true;
  fs_create_segment := disk_create_segment;
  fs_seal payload active_path index _ := disk_seal payload active_path index;
  fs_remove_sealed i := disk_remove_sealed i Eviction;
  fs_remove_active := disk_remove_active;
  fs_mark_writer_done := disk_mark_writer_done }.

(** ** The worker's side *)

Module DiskTaken.
Record t : Type := mk {
  segments : list (bytes * Z);
  in_flight_segments : Z;
  in_flight_bytes : Z;
  segments_dropped : Z }.
End DiskTaken.

(** The sealed segments of the stem in the directory. *)
Definition on_disk (d : DiskFs.t) : list (bytes * Z) :=
  find_sealed_segments (map (λ x, to_str (fst x)) (read_dir d)) (DiskFs.stem d).

Definition sum_sizes (m : gmap Z Z) : Z := map_fold (λ _ size n, size + n) 0 m.

Definition disk_take_files (d : DiskFs.t) : DiskTaken.t * DiskFs.t :=
  let found := on_disk d in
  let new := filter (λ s, DiskFs.claimed d !! snd s = None) found in
  let size s := from_option node_len 0 (DiskFs.entries d !! fst s) in
  let kept := filter (λ c, fst c ∈ map snd found) (DiskFs.claimed d) in
  let claimed := foldl (λ m s, <[snd s := size s]> m) kept new in
  (DiskTaken.mk new (Z.of_nat (base.size claimed)) (sum_sizes claimed) (DiskFs.dropped d),
   DiskFs.set_dropped (DiskFs.set_claimed d claimed) 0).

(** ** Restart *)

(** [*retained_sizes.entry(index).or_default() += len] on an ordered map. *)
Fixpoint add_size (index len : Z) (l : list (Z * Z)) : list (Z * Z) :=
  match l with
  | [] => [(index, len)]
  | (i, s) :: l =>
      if index =? i then (i, s + len) :: l
      else if index <? i then (index, len) :: (i, s) :: l
      else (i, s) :: add_size index len l
  end.

(** One entry of the scan. *)
Definition discover_entry (stem : bytes) (acc : list (Z * Z) * DiskFs.t) (e : bytes * node)
    : list (Z * Z) * DiskFs.t :=
  let '(sizes, d) := acc in
  match snd e with
  | Directory _ => (sizes, d)
  | File content =>
      match to_str (fst e) ≫= λ name, parse_segment_artifact name stem with
      | Some (Retained index) => (add_size index (blen content) sizes, d)
      | Some Active => (sizes, remove_file (fst e) d)
      | None => (sizes, d)
      end
  end.

(** The retained indices with the sizes of their families, and the first index
    to write. *)
Definition discover_existing (d : DiskFs.t) : result (list (Z * Z) * Z) io_error * DiskFs.t :=
  let '(sizes, d) := foldl (discover_entry (DiskFs.stem d)) ([], d) (read_dir d) in
  match list.last sizes with
  | None => (Ok ([], 0), d)
  | Some (idx, _) =>
      match checked_add 32 idx 1 with
      | Some next => (Ok (sizes, next), d)
      | None => (Err IoOther, d)
      end
  end.

(** ** The directory listing *)

Lemma read_dir_elem d name n : (name, n) ∈ read_dir d ↔ DiskFs.entries d !! name = Some n.
Proof. apply elem_of_map_to_list. Qed.

(** The sealed segments on disk, by name. *)
Lemma on_disk_elem d name i :
  (name, i) ∈ on_disk d ↔
  is_Some (DiskFs.entries d !! name) ∧ utf8_valid name = true ∧
  parse_segment_index name (DiskFs.stem d) = Some i.
Proof.
  unfold on_disk. rewrite find_sealed_elem, list_elem_of_fmap. split.
  - intros [((name', n) & E & Hin) Hp]. cbn in E. unfold to_str in E.
    destruct (utf8_valid name') eqn:Hu; [|done]. injection E as <-.
    apply read_dir_elem in Hin. split; [by exists n|done].
  - intros ([n Hn] & Hu & Hp). split; [|done]. exists (name, n). cbn. unfold to_str. rewrite Hu.
    split; [done|]. by apply read_dir_elem.
Qed.

Lemma on_disk_same d d' :
  DiskFs.entries d' = DiskFs.entries d → DiskFs.stem d' = DiskFs.stem d → on_disk d' = on_disk d.
Proof. intros H1 H2. unfold on_disk, read_dir. by rewrite H1, H2. Qed.

Lemma on_disk_sorted d : StronglySorted Z.le (map snd (on_disk d)).
Proof. apply sort_by_index_sorted. Qed.

(** ** Claims *)

Lemma claims_lookup (size : bytes * Z → Z) new (kept : gmap Z Z) i :
  is_Some (foldl (λ m s, <[snd s := size s]> m) kept new !! i) ↔
  is_Some (kept !! i) ∨ i ∈ map snd new.
Proof.
  revert kept. induction new as [|[n j] new IH]; intros kept; cbn [foldl map snd].
  - set_solver.
  - rewrite IH, elem_of_cons. destruct (decide (i = j)) as [->|Hne].
    + rewrite lookup_insert_eq. split; [intros _; right; by left|intros _; left; by eexists].
    + rewrite lookup_insert_ne by done. set_solver.
Qed.

Lemma take_claims d i :
  is_Some (DiskFs.claimed (snd (disk_take_files d)) !! i) ↔ i ∈ map snd (on_disk d).
Proof.
  unfold disk_take_files. cbn [snd DiskFs.set_dropped DiskFs.set_claimed DiskFs.claimed].
  rewrite claims_lookup, !list_elem_of_fmap. split.
  - intros [[s Hs]|(x & -> & Hx)].
    + apply map_lookup_filter_Some in Hs as [_ Hs]. cbn in Hs. by apply list_elem_of_fmap in Hs.
    + apply list_elem_of_filter in Hx as [_ Hx]. by exists x.
  - intros (x & -> & Hx). destruct (DiskFs.claimed d !! snd x) as [s|] eqn:E.
    + left. exists s. apply map_lookup_filter_Some. split; [done|]. cbn. apply list_elem_of_fmap.
      by exists x.
    + right. exists x. split; [done|]. by apply list_elem_of_filter.
Qed.

Lemma take_twice d :
  DiskTaken.segments (fst (disk_take_files (snd (disk_take_files d)))) = [].
Proof.
  set (d' := snd (disk_take_files d)).
  assert (on_disk d' = on_disk d) as E by by apply on_disk_same.
  assert (∀ i, is_Some (DiskFs.claimed d' !! i) ↔ i ∈ map snd (on_disk d)) as Hc
    by apply take_claims.
  unfold disk_take_files. cbn [fst DiskTaken.segments]. rewrite E.
  assert (∀ l, Forall (λ x, x ∈ on_disk d) l →
    filter (λ s, DiskFs.claimed d' !! snd s = None) l = []) as Hl.
  { induction 1 as [|x l Hx _ IH]; [done|]. rewrite filter_cons_False; [done|].
    assert (is_Some (DiskFs.claimed d' !! snd x)) as [s ->]; [|done].
    apply Hc, list_elem_of_fmap. by exists x. }
  apply Hl, list.Forall_forall. done.
Qed.

(** ** Removing *)

Definition is_file (n : node) : bool := match n with File _ => true | Directory _ => false end.

Lemma remove_file_lookup name d n :
  DiskFs.entries (remove_file name d) !! n
  = if bool_decide (n = name) && from_option is_file false (DiskFs.entries d !! n)
    then None else DiskFs.entries d !! n.
Proof.
  unfold remove_file. destruct (bool_decide_reflect (n = name)) as [->|Hne]; cbn [andb].
  - destruct (DiskFs.entries d !! name) as [[c|len]|] eqn:E; cbn; rewrite ?E; try done.
    by rewrite lookup_delete_eq.
  - destruct (DiskFs.entries d !! name) as [[c|len]|]; try done. cbn. by rewrite lookup_delete_ne.
Qed.

(** Removing the files of a list of names, those a test picks. *)
Definition remove_picked (pick : bytes * node → bool) (l : list (bytes * node)) (d : DiskFs.t)
    : DiskFs.t := foldl (λ d e, if pick e then remove_file (fst e) d else d) d l.

Lemma remove_picked_lookup pick l d n x :
  NoDup (map fst l) → (∀ e, e ∈ l → DiskFs.entries d !! fst e = Some (snd e)) →
  DiskFs.entries (remove_picked pick l d) !! n = Some x ↔
  DiskFs.entries d !! n = Some x ∧ ((n, x) ∈ l → pick (n, x) && is_file x = false).
Proof.
  revert d. induction l as [|[m y] l IH]; intros d Hnd Hl; cbn [remove_picked foldl fst].
  { split; [|by intros [? _]]. intros H. split; [done|]. set_solver. }
  fold (remove_picked pick l (if pick (m, y) then remove_file m d else d)).
  cbn [map fst] in Hnd. apply list.NoDup_cons in Hnd as [Hm Hnd].
  assert (∀ n, n ≠ m → DiskFs.entries (if pick (m, y) then remove_file m d else d) !! n
                       = DiskFs.entries d !! n) as Hother.
  { intros n' Hn. destruct (pick (m, y)); [|done]. by rewrite remove_file_lookup, bool_decide_false. }
  assert (DiskFs.entries (if pick (m, y) then remove_file m d else d) !! m
          = if pick (m, y) && is_file y then None else Some y) as Hthis.
  { pose proof (Hl (m, y) ltac:(left)) as Hy. cbn in Hy.
    destruct (pick (m, y)); [|done]. by rewrite remove_file_lookup, bool_decide_true, Hy by done. }
  cbn [fst]. rewrite IH; [|done|].
  2:{ intros [m' y'] Hin. cbn. rewrite Hother; [by apply (Hl (m', y')); right|].
      intros ->. apply Hm, list_elem_of_fmap. by exists (m, y'). }
  rewrite elem_of_cons. destruct (decide (n = m)) as [->|Hne].
  - rewrite Hthis. pose proof (Hl (m, y) ltac:(left)) as Hy. cbn [fst snd] in Hy. rewrite Hy.
    assert ((m, x) ∉ l) as Hno by (intros Hin; apply Hm, list_elem_of_fmap; by exists (m, x)).
    destruct (pick (m, y) && is_file y) eqn:E.
    + split; [by intros [? _]|]. intros [[= ->] H]. rewrite H in E; [done|by left].
    + split; [|by intros [? _]]. intros [[= ->] _]. by split.
  - rewrite Hother by done. split; intros [H1 H2]; (split; [done|]); [|by intros ?; apply H2; right].
    intros [[= -> _]|Hin]; [done|by apply H2].
Qed.

Lemma read_dir_nodup d : NoDup (map fst (read_dir d)).
Proof. apply NoDup_fst_map_to_list. Qed.

Lemma remove_all_lookup pick d n x :
  DiskFs.entries (remove_picked pick (read_dir d) d) !! n = Some x ↔
  DiskFs.entries d !! n = Some x ∧ pick (n, x) && is_file x = false.
Proof.
  rewrite remove_picked_lookup.
  - rewrite read_dir_elem. naive_solver.
  - apply read_dir_nodup.
  - intros [m y]. by rewrite read_dir_elem.
Qed.

Lemma remove_picked_fields pick l d :
  let d' := remove_picked pick l d in
  DiskFs.stem d' = DiskFs.stem d ∧ DiskFs.dir d' = DiskFs.dir d ∧
  DiskFs.claimed d' = DiskFs.claimed d ∧ DiskFs.dropped d' = DiskFs.dropped d.
Proof.
  revert d. induction l as [|e l IH]; intros d; [done|]. cbn [remove_picked foldl].
  fold (remove_picked pick l (if pick e then remove_file (fst e) d else d)).
  destruct (IH (if pick e then remove_file (fst e) d else d)) as (-> & -> & -> & ->).
  destruct (pick e); [|done]. unfold remove_file. by destruct (_ !! _) as [[]|].
Qed.

(** Eviction removes the files of the family. *)
Definition in_family (file_name : bytes) (e : bytes * node) : bool :=
  utf8_valid (fst e) && is_family file_name (fst e).

Lemma remove_family_picked file_name d :
  remove_segment_family file_name d = remove_picked (in_family file_name) (read_dir d) d.
Proof.
  unfold remove_segment_family, remove_picked. generalize (read_dir d). intros l.
  revert d. induction l as [|[n x] l IH]; intros d; [done|]. cbn [foldl fst].
  rewrite IH. f_equal. unfold in_family, to_str. cbn [fst]. by destruct (utf8_valid n).
Qed.

(** ** What the restart scan collects *)

(** The index and size an entry adds. *)
Definition retained (stem : bytes) (e : bytes * node) : option (Z * Z) :=
  match snd e, to_str (fst e) ≫= λ name, parse_segment_artifact name stem with
  | File content, Some (Retained index) => Some (index, blen content)
  | _, _ => None
  end.

Definition is_stale (stem : bytes) (e : bytes * node) : bool :=
  match to_str (fst e) ≫= λ name, parse_segment_artifact name stem with
  | Some Active => true
  | _ => false
  end.

Definition add_sizes (l : list (Z * Z)) (sizes : list (Z * Z)) : list (Z * Z) :=
  foldl (λ sizes '(i, n), add_size i n sizes) sizes l.

Lemma discover_step stem sizes d n x :
  DiskFs.entries d !! n = Some x →
  discover_entry stem (sizes, d) (n, x)
  = (match retained stem (n, x) with Some (i, s) => add_size i s sizes | None => sizes end,
     if is_stale stem (n, x) then remove_file n d else d).
Proof.
  intros Hx. unfold discover_entry, retained, is_stale. cbn [fst snd].
  destruct x as [content|len]; [by destruct (to_str n ≫= _) as [[i|]|]|].
  assert (remove_file n d = d) as Hsame by (unfold remove_file; by rewrite Hx).
  by destruct (to_str n ≫= _) as [[i|]|]; rewrite ?Hsame.
Qed.

Lemma discover_fold stem l sizes d :
  NoDup (map fst l) → (∀ e, e ∈ l → DiskFs.entries d !! fst e = Some (snd e)) →
  foldl (discover_entry stem) (sizes, d) l
  = (add_sizes (omap (retained stem) l) sizes, remove_picked (is_stale stem) l d).
Proof.
  revert sizes d. induction l as [|[n x] l IH]; intros sizes d Hnd Hl; [done|].
  cbn [foldl omap list_omap remove_picked]. cbn [map fst] in Hnd.
  apply list.NoDup_cons in Hnd as [Hn Hnd].
  fold (remove_picked (is_stale stem) l (if is_stale stem (n, x) then remove_file n d else d)).
  assert (∀ e, e ∈ l →
    DiskFs.entries (if is_stale stem (n, x) then remove_file n d else d) !! fst e = Some (snd e))
    as Hl'.
  { intros e He. destruct (is_stale _ _); [|apply Hl; by right]. rewrite remove_file_lookup.
    rewrite bool_decide_false; [apply Hl; by right|]. intros <-. apply Hn, list_elem_of_fmap.
    by exists e. }
  cbn [fst] in *. rewrite discover_step by (apply (Hl (n, x)); by left). rewrite IH by done.
  by destruct (retained stem (n, x)) as [[i s]|].
Qed.

(** The bytes a list of entries gives an index. *)
Definition total (index : Z) (l : list (Z * Z)) : Z :=
  foldr (λ '(i, n) acc, if index =? i then n + acc else acc) 0 l.

Lemma add_size_total i j n l : total i (add_size j n l) = total i l + if i =? j then n else 0.
Proof.
  induction l as [|[k s] l IH]; cbn [add_size].
  - cbn. destruct (i =? j); lia.
  - assert (∀ a x l, total i ((a, x) :: l) = (if i =? a then x else 0) + total i l) as Hc
      by (intros a x l'; cbn; destruct (i =? a); done).
    destruct (Z.eqb_spec j k) as [->|Hjk]; [|destruct (j <? k)]; rewrite !Hc, ?IH;
      repeat destruct (_ =? _); lia.
Qed.

Lemma add_size_keys i j n l : i ∈ map fst (add_size j n l) ↔ i = j ∨ i ∈ map fst l.
Proof.
  induction l as [|[k s] l IH]; cbn [add_size map fst]; [set_solver|].
  destruct (Z.eqb_spec j k) as [->|]; [|destruct (j <? k)]; cbn [map fst];
    rewrite ?elem_of_cons, ?IH; set_solver.
Qed.

Lemma add_size_sorted j n l :
  StronglySorted Z.lt (map fst l) → StronglySorted Z.lt (map fst (add_size j n l)).
Proof.
  induction l as [|[k s] l IH]; intros Hs; cbn [add_size map fst]; [by repeat constructor|].
  inversion Hs as [|? ? Hl Hk]; subst. cbn [map fst] in *.
  destruct (Z.eqb_spec j k) as [->|]; [done|]. destruct (Z.ltb_spec j k); cbn [map fst].
  - constructor; [done|]. constructor; [done|]. eapply list.Forall_impl; [exact Hk|]. cbn. lia.
  - constructor; [by apply IH|]. apply list.Forall_forall. intros i Hi.
    rewrite list.Forall_forall in Hk. apply add_size_keys in Hi as [->|Hi]; [lia|by apply Hk].
Qed.

Lemma add_sizes_spec l sizes :
  StronglySorted Z.lt (map fst sizes) →
  StronglySorted Z.lt (map fst (add_sizes l sizes)) ∧
  (∀ i, i ∈ map fst (add_sizes l sizes) ↔ i ∈ map fst l ∨ i ∈ map fst sizes) ∧
  (∀ i, total i (add_sizes l sizes) = total i l + total i sizes).
Proof.
  revert sizes. induction l as [|[j n] l IH]; intros sizes Hs.
  { cbn. split; [done|]. split; [set_solver|done]. }
  cbn [add_sizes foldl]. fold (add_sizes l (add_size j n sizes)).
  destruct (IH _ (add_size_sorted j n sizes Hs)) as (H1 & H2 & H3). split; [done|]. split.
  - intros i. rewrite H2, add_size_keys. cbn [map fst]. rewrite elem_of_cons. naive_solver.
  - intros i. rewrite H3, add_size_total. cbn [total foldr]. fold (total i l).
    destruct (i =? j); lia.
Qed.

(** In a map with distinct keys an index has one entry. *)
Lemma total_lookup l i s :
  StronglySorted Z.lt (map fst l) → (i, s) ∈ l → total i l = s.
Proof.
  induction l as [|[k n] l IH]; intros Hs Hin; [by apply not_elem_of_nil in Hin|].
  inversion Hs as [|? ? Hl Hk]; subst. cbn [total foldr]. fold (total i l).
  rewrite list.Forall_forall in Hk. apply elem_of_cons in Hin as [[= -> ->]|Hin].
  - rewrite Z.eqb_refl. assert (total k l = 0) as ->; [|lia].
    assert (k ∉ map fst l) as Hno by (intros Hin; specialize (Hk _ Hin); cbn in Hk; lia).
    clear -Hno. induction l as [|[j m] l IH]; [done|]. cbn [total foldr]. fold (total k l).
    cbn [map fst] in Hno. apply not_elem_of_cons in Hno as [Hne Hno].
    rewrite (proj2 (Z.eqb_neq _ _) Hne). by apply IH.
  - assert (k < i) by (apply Hk, list_elem_of_fmap; by exists (i, s)).
    rewrite (proj2 (Z.eqb_neq i k)) by lia. by apply IH.
Qed.

(** The last of the sorted keys bounds them. *)
Lemma last_key_max (l : list (Z * Z)) idx s m i :
  StronglySorted Z.lt (map fst m) → m = l ++ [(idx, s)] → i ∈ map fst m → i <= idx.
Proof.
  intros Hs -> Hi. induction l as [|[k n] l IH]; cbn [app map fst] in *.
  - apply list_elem_of_singleton in Hi. lia.
  - inversion Hs as [|? ? Hl Hk]; subst. apply elem_of_cons in Hi as [->|Hi]; [|by apply IH].
    rewrite list.Forall_forall in Hk. assert (k < idx); [|lia].
    apply Hk. rewrite map_app, elem_of_app. right. by left.
Qed.

(** ** Sealing *)

Lemma active_not_sealed stem i : active_name stem i ≠ sealed_name stem i.
Proof.
  rewrite active_sealed. intros H. apply (f_equal length) in H. rewrite length_app in H.
  cbn in H. lia.
Qed.

Lemma create_fresh d i :
  (∀ len, DiskFs.entries d !! active_name (DiskFs.stem d) i ≠ Some (Directory len)) →
  disk_create_segment i d
  = (Ok tt, DiskFs.set_entries d
       (<[active_name (DiskFs.stem d) i := File []]> (DiskFs.entries d))).
Proof.
  intros H. unfold disk_create_segment. destruct (_ !! _) as [[c|len]|] eqn:E; [done| |done].
  by destruct (H len).
Qed.

(** The name a path is renamed to, when the path is UTF-8. *)
Lemma renamed_to dir stem i :
  utf8_valid (join dir (active_name stem i)) = true →
  default (active_name stem i)
    (strip_prefix (join dir []) (strip_active_suffix (join dir (active_name stem i))))
  = sealed_name stem i.
Proof.
  unfold join. rewrite app_nil_r, (app_assoc dir). intros Hu.
  by rewrite active_stripped, strip_prefix_app.
Qed.

(** ** Main properties *)

(** The life of a segment on disk: it is created under its active name and
    sealed under the other one, with exactly the bytes written, nothing else in
    the directory changes, and the worker's next scan hands it out unless its
    index is claimed. *)
Theorem disk_segment_lifecycle d i payload :
  let active := active_name (DiskFs.stem d) i in
  let sealed := sealed_name (DiskFs.stem d) i in
  fits 32 i → utf8_valid (join (DiskFs.dir d) active) = true → utf8_valid sealed = true →
  (∀ len, DiskFs.entries d !! active ≠ Some (Directory len)) →
  (∀ len, DiskFs.entries d !! sealed ≠ Some (Directory len)) →
  let '(created, d1) := disk_create_segment i d in
  let '(answer, d2) := disk_seal payload i i d1 in
  created = Ok tt ∧ answer = Ok i ∧
  DiskFs.entries d2 = <[sealed := File payload]> (delete active (DiskFs.entries d)) ∧
  (∀ s, s ∈ on_disk d2 ↔ s = (sealed, i) ∨ s ∈ on_disk d) ∧
  (DiskFs.claimed d !! i = None → (sealed, i) ∈ DiskTaken.segments (fst (disk_take_files d2))).
Proof.
  intros active sealed Hi Hpath Hsealed Hna Hns. rewrite create_fresh by done.
  set (d1 := DiskFs.set_entries d _).
  assert (disk_seal payload i i d1
    = (Ok i, DiskFs.set_entries d (<[sealed := File payload]> (delete active (DiskFs.entries d)))))
    as ->.
  { unfold disk_seal. change (DiskFs.stem d1) with (DiskFs.stem d). fold active.
    change (DiskFs.dir d1) with (DiskFs.dir d).
    assert (DiskFs.entries d1 !! active = Some (File [])) as -> by apply lookup_insert_eq.
    pose proof (renamed_to _ _ _ Hpath) as Hname. fold active in Hname.
    cbn [DiskFs.dir DiskFs.set_entries d1]. rewrite Hname. fold sealed.
    unfold rename, default, id. cbn [DiskFs.entries DiskFs.set_entries d1].
    rewrite lookup_insert_eq, !lookup_insert_ne by apply active_not_sealed.
    destruct (DiskFs.entries d !! sealed) as [[c|len]|] eqn:E; [|by destruct (Hns len)|];
      by rewrite !delete_insert_eq. }
  set (d2 := DiskFs.set_entries d _).
  assert (∀ s, s ∈ on_disk d2 ↔ s = (sealed, i) ∨ s ∈ on_disk d) as Hdisk.
  { intros [name j]. rewrite !on_disk_elem. cbn [d2 DiskFs.entries DiskFs.set_entries].
    change (DiskFs.stem (DiskFs.set_entries d _)) with (DiskFs.stem d).
    destruct (decide (name = sealed)) as [->|Hne].
    - rewrite lookup_insert_eq. unfold sealed at 2. rewrite sealed_index by done. split.
      + intros (_ & _ & [= <-]). by left.
      + intros [[= ->]|(_ & Hu & Hp)]; [by split|]. unfold sealed in Hp.
        rewrite sealed_index in Hp by done. by split.
    - rewrite lookup_insert_ne by done. destruct (decide (name = active)) as [->|Hna'].
      + rewrite lookup_delete_eq. split; [by intros [[? ?] _]|].
        intros [[= E]|(_ & _ & Hp)]; [by destruct (active_not_sealed _ _ E)|].
        unfold active in Hp. by rewrite active_index in Hp.
      + rewrite lookup_delete_ne by done. split; [by right|]. by intros [[= -> ->]|]. }
  split_and!; try done. intros Hc. unfold disk_take_files. cbn [fst DiskTaken.segments].
  apply list_elem_of_filter. split; [done|]. apply Hdisk. by left.
Qed.

(** A scan hands out, oldest first, exactly the sealed segments of the stem
    whose index is not claimed; afterwards the claims are exactly the indices
    on disk, so claims of segments that are gone have been dropped and a scan
    right behind it hands out nothing. *)
Theorem disk_take_spec d :
  let '(taken, d') := disk_take_files d in
  StronglySorted Z.le (map snd (DiskTaken.segments taken)) ∧
  (∀ name i, (name, i) ∈ DiskTaken.segments taken ↔
     is_Some (DiskFs.entries d !! name) ∧ utf8_valid name = true ∧
     parse_segment_index name (DiskFs.stem d) = Some i ∧ DiskFs.claimed d !! i = None) ∧
  (∀ i, is_Some (DiskFs.claimed d' !! i) ↔ i ∈ map snd (on_disk d)) ∧
  DiskFs.entries d' = DiskFs.entries d ∧
  DiskTaken.segments (fst (disk_take_files d')) = [] ∧
  DiskTaken.segments_dropped taken + DiskFs.dropped d' = DiskFs.dropped d.
Proof.
  pose proof (take_claims d) as Hc. pose proof (take_twice d) as Ht.
  destruct (disk_take_files d) as [taken d'] eqn:E. cbn [fst snd] in *.
  unfold disk_take_files in E. injection E as <- <-.
  split; [|split; [|split; [exact Hc|split; [done|split; [exact Ht|cbn; lia]]]]].
  - cbn [DiskTaken.segments]. pose proof (on_disk_sorted d) as Hs. revert Hs.
    generalize (on_disk d). intros l. induction l as [|x l IH]; intros Hs; [constructor|].
    inversion Hs as [|? ? Hl Hx]; subst. destruct (decide (DiskFs.claimed d !! snd x = None)).
    + rewrite filter_cons_True by done. cbn [map]. constructor; [by apply IH|].
      apply list.Forall_forall. rewrite list.Forall_forall in Hx. intros i Hi. apply Hx.
      apply list_elem_of_fmap in Hi as (y & -> & Hy). apply list_elem_of_filter in Hy as [_ Hy].
      apply list_elem_of_fmap. by exists y.
    + rewrite filter_cons_False by done. by apply IH.
  - intros name i. cbn [DiskTaken.segments]. rewrite list_elem_of_filter, on_disk_elem. naive_solver.
Qed.

(** Restart: the scan removes the segments that were being written and
    nothing else, reports every retained index once, in order, with the bytes
    of its whole family, and starts writing behind all of them, so that no
    file of any family is ever written over; it fails only when the last index
    is taken. *)
Theorem restart_spec d :
  let '(answer, d') := discover_existing d in
  (∀ name n, DiskFs.entries d' !! name = Some n ↔
     DiskFs.entries d !! name = Some n ∧
     ¬ (is_file n = true ∧ is_stale (DiskFs.stem d) (name, n) = true)) ∧
  let found := omap (retained (DiskFs.stem d)) (read_dir d) in
  match answer with
  | Ok (closed, next) =>
      StronglySorted Z.lt (map fst closed) ∧
      (∀ i, i ∈ map fst closed ↔ i ∈ map fst found) ∧
      (∀ i s, (i, s) ∈ closed → s = total i found) ∧
      next < 2 ^ 32 ∧
      ∀ i t content, next <= i → fits 32 i → t = [] ∨ (∃ u, t = lit "." ++ u) ∧ t ≠ lit ".active" →
        utf8_valid (sealed_name (DiskFs.stem d) i ++ t) = true →
        DiskFs.entries d !! (sealed_name (DiskFs.stem d) i ++ t) ≠ Some (File content)
  | Err _ => ∃ i, i ∈ map fst found ∧ 2 ^ 32 <= i + 1
  end.
Proof.
  unfold discover_existing. rewrite discover_fold;
    [|apply read_dir_nodup|by intros [n x]; rewrite read_dir_elem].
  set (found := omap _ _). set (d' := remove_picked _ _ _).
  assert (∀ name n, DiskFs.entries d' !! name = Some n ↔ DiskFs.entries d !! name = Some n ∧
     ¬ (is_file n = true ∧ is_stale (DiskFs.stem d) (name, n) = true)) as Hentries.
  { intros name n. unfold d'. rewrite remove_all_lookup, andb_false_iff.
    destruct (is_stale _ _), (is_file n); naive_solver. }
  destruct (add_sizes_spec found [] ltac:(constructor)) as (Hsort & Hkeys & Htot).
  assert (∀ i, i ∈ map fst (add_sizes found []) ↔ i ∈ map fst found) as Hkeys'
    by (intros i; rewrite Hkeys; set_solver).
  assert (∀ i s, (i, s) ∈ add_sizes found [] → s = total i found) as Hsize.
  { intros i s Hin. apply total_lookup in Hin; [|done]. rewrite Htot in Hin. cbn in Hin. lia. }
  assert (∀ i t content, fits 32 i → t = [] ∨ (∃ u, t = lit "." ++ u) ∧ t ≠ lit ".active" →
    utf8_valid (sealed_name (DiskFs.stem d) i ++ t) = true →
    DiskFs.entries d !! (sealed_name (DiskFs.stem d) i ++ t) = Some (File content) →
    i ∈ map fst (add_sizes found [])) as Hfound.
  { intros i t content Hi Ht Hu He. apply Hkeys', list_elem_of_fmap.
    exists (i, blen content). split; [done|]. apply list_elem_of_omap.
    eexists. split; [by apply read_dir_elem|]. unfold retained, to_str. cbn [fst snd].
    rewrite Hu. cbn [mbind option_bind]. by rewrite sealed_artifact. }
  destruct (list.last (add_sizes found [])) as [[idx s]|] eqn:Hlast.
  - apply last_Some in Hlast as [l Hl].
    assert (∀ i, i ∈ map fst (add_sizes found []) → i <= idx) as Hmax
      by (intros i; by apply (last_key_max l idx s)).
    assert (idx ∈ map fst (add_sizes found [])) as Hidx
      by (rewrite Hl, map_app, elem_of_app; right; by left).
    unfold checked_add. destruct (Z.ltb_spec (idx + 1) (2 ^ 32)).
    + split; [done|]. split_and!; try done. intros i t content Hle Hi Ht Hu He.
      specialize (Hmax i (Hfound i t content Hi Ht Hu He)). lia.
    + split; [done|]. exists idx. split; [by apply Hkeys'|lia].
  - apply last_None in Hlast. split; [done|]. rewrite Hlast in *.
    split_and!; try done. intros i t content _ Hi Ht Hu He.
    specialize (Hfound i t content Hi Ht Hu He). by apply not_elem_of_nil in Hfound.
Qed.

(** The family of a segment, by what its names parse to. *)
Lemma family_artifact stem i name :
  fits 32 i → is_family (sealed_name stem i) name = true →
  parse_segment_artifact name stem = Some (Retained i) ∨ name = active_name stem i.
Proof.
  intros Hi Hf. unfold is_family in Hf. apply orb_true_iff in Hf as [Hf|Hf].
  - apply bool_decide_eq_true in Hf as ->. left. rewrite <- (app_nil_r (sealed_name stem i)).
    apply sealed_artifact; [done|by left].
  - destruct (strip_prefix _ _) as [[|c u]|] eqn:E; [done| |done].
    apply bool_decide_eq_true in Hf as ->. apply strip_prefix_some in E as ->.
    change (Byte.x2e :: u) with (lit "." ++ u).
    destruct (decide (lit "." ++ u = lit ".active")) as [->|Hne].
    + right. by rewrite active_sealed.
    + left. apply sealed_artifact; [done|right]. split; [by exists u|done].
Qed.

(** Evicting a segment removes its file and every write-back sibling and
    its claim, and no file of any other segment, however their names share a
    prefix; one eviction counts one drop. *)
Theorem eviction_exact d i reason :
  fits 32 i →
  let d' := disk_remove_sealed i reason d in
  (∀ name content, utf8_valid name = true → is_family (sealed_name (DiskFs.stem d) i) name = true →
     DiskFs.entries d' !! name ≠ Some (File content)) ∧
  (∀ name n, is_family (sealed_name (DiskFs.stem d) i) name = false →
     DiskFs.entries d' !! name = Some n ↔ DiskFs.entries d !! name = Some n) ∧
  (∀ j t, fits 32 j → j ≠ i → t = [] ∨ (∃ u, t = lit "." ++ u) ∧ t ≠ lit ".active" →
     is_family (sealed_name (DiskFs.stem d) i) (sealed_name (DiskFs.stem d) j ++ t) = false) ∧
  DiskFs.claimed d' !! i = None ∧
  DiskFs.dropped d' = DiskFs.dropped d + match reason with Eviction => 1 | Terminal => 0 end.
Proof.
  intros Hi d'. set (file_name := sealed_name (DiskFs.stem d) i).
  assert (∀ name n, DiskFs.entries d' !! name = Some n ↔
    DiskFs.entries d !! name = Some n ∧ in_family file_name (name, n) && is_file n = false) as He.
  { intros name n. unfold d', disk_remove_sealed. fold file_name.
    rewrite <- remove_all_lookup, <- remove_family_picked. by destruct reason. }
  split_and!.
  - intros name content Hu Hf H. apply He in H as [_ H]. unfold in_family in H. cbn [fst is_file] in H.
    by rewrite Hu, Hf in H.
  - intros name n Hf. rewrite He. unfold in_family. cbn [fst]. rewrite Hf, andb_false_r. naive_solver.
  - intros j t Hj Hne Ht. destruct (is_family _ _) eqn:E; [|done]. exfalso.
    pose proof (sealed_artifact (DiskFs.stem d) j Hj t Ht) as Hp.
    destruct (family_artifact _ _ _ Hi E) as [E'|E']; rewrite E' in Hp; [by injection Hp|].
    by rewrite active_artifact in Hp.
  - unfold d', disk_remove_sealed. destruct reason; cbn; by rewrite lookup_delete_eq.
  - unfold d', disk_remove_sealed. rewrite remove_family_picked.
    destruct (remove_picked_fields (in_family (sealed_name (DiskFs.stem d) i)) (read_dir d) d)
      as (_ & _ & _ & Hd). destruct reason; cbn; rewrite Hd; lia.
Qed.

(** In a directory whose path is not UTF-8 a seal renames the active file
    onto itself and reports success: the segment keeps its active name, the
    worker never sees it, and the next start deletes it. *)
Theorem non_utf8_directory d i payload :
  let active := active_name (DiskFs.stem d) i in
  fits 32 i → utf8_valid (join (DiskFs.dir d) active) = false → utf8_valid active = true →
  (∀ len, DiskFs.entries d !! active ≠ Some (Directory len)) →
  let '(_, d1) := disk_create_segment i d in
  let '(answer, d2) := disk_seal payload i i d1 in
  answer = Ok i ∧ DiskFs.entries d2 = <[active := File payload]> (DiskFs.entries d) ∧
  (∀ j, (active, j) ∉ on_disk d2) ∧
  DiskFs.entries (snd (discover_existing d2)) !! active = None.
Proof.
  intros active Hi Hpath Hu Hna. rewrite create_fresh by done.
  set (d1 := DiskFs.set_entries d _).
  assert (disk_seal payload i i d1
    = (Ok i, DiskFs.set_entries d (<[active := File payload]> (DiskFs.entries d)))) as ->.
  { unfold disk_seal. change (DiskFs.stem d1) with (DiskFs.stem d). fold active.
    assert (DiskFs.entries d1 !! active = Some (File [])) as -> by apply lookup_insert_eq.
    cbn [DiskFs.dir DiskFs.set_entries d1].
    assert (strip_prefix (join (DiskFs.dir d) [])
              (strip_active_suffix (join (DiskFs.dir d) active)) = Some active) as ->.
    { unfold strip_active_suffix, from_utf8. rewrite Hpath.
      change (strip_suffix (lit ".active") (default [] None)) with (@None bytes). cbn [default].
      unfold join. rewrite app_nil_r, app_assoc. apply strip_prefix_app. }
    unfold rename, default, id. cbn [DiskFs.entries DiskFs.set_entries].
    rewrite !lookup_insert_eq. fold active. rewrite !insert_delete_eq, !insert_insert_eq.
    cbn [DiskFs.entries DiskFs.set_entries d1]. fold active. by rewrite insert_insert_eq. }
  split; [done|]. split; [done|]. split.
  - intros j Hin. apply on_disk_elem in Hin as (_ & _ & Hp). unfold active in Hp.
    cbn [DiskFs.stem DiskFs.set_entries] in Hp. by rewrite active_index in Hp.
  - unfold discover_existing.
    rewrite discover_fold; [|apply read_dir_nodup|by intros [n x]; rewrite read_dir_elem].
    set (d2 := DiskFs.set_entries _ _). set (d3 := remove_picked _ _ _).
    assert (DiskFs.entries d3 !! active = None) as Hgone.
    { apply eq_None_not_Some. intros [x Hx]. apply remove_all_lookup in Hx as [Hx Hp].
      unfold d2 in Hx. cbn [DiskFs.entries DiskFs.set_entries] in Hx.
      rewrite lookup_insert_eq in Hx. injection Hx as <-.
      unfold is_stale, to_str in Hp. cbn [fst is_file] in Hp. rewrite Hu in Hp.
      cbn [mbind option_bind] in Hp. unfold active in Hp.
      change (DiskFs.stem d2) with (DiskFs.stem d) in Hp. by rewrite active_artifact in Hp. }
    destruct (list.last _) as [[idx s]|]; [|done]. by destruct (checked_add _ _ _).
Qed.

(** ** A directory *)

Definition example_dir (path : bytes) : DiskFs.t :=
  disk_new path (lit "trace")
    (list_to_map [(lit "trace.3.bin", File (lit "abc")); (lit "trace.3.bin.gz", File (lit "z"));
                  (lit "trace.30.bin", File (lit "abcd")); (lit "trace.4.bin.active", File []);
                  (lit "notes.bin", File (lit "x")); (lit "trace.9.bin", Directory 4096)]).

Example example_taken :
  fst (disk_take_files (example_dir (lit "/t")))
  = DiskTaken.mk [(lit "trace.3.bin", 3); (lit "trace.9.bin", 9); (lit "trace.30.bin", 30)]
      3 4103 0.
Proof. by vm_compute. Qed.

Example example_discovered :
  fst (discover_existing (example_dir (lit "/t"))) = Ok ([(3, 4); (30, 4)], 31).
Proof. by vm_compute. Qed.

Example disk_segment_lifecycle_witness :
  let '(_, d1) := disk_create_segment 31 (example_dir (lit "/t")) in
  let '(answer, d2) := disk_seal (lit "new") 31 31 d1 in
  answer = Ok 31 ∧ (lit "trace.31.bin", 31) ∈ DiskTaken.segments (fst (disk_take_files d2)).
Proof.
  pose proof (disk_segment_lifecycle (example_dir (lit "/t")) 31 (lit "new")) as H.
  cbv zeta in H.
  destruct (disk_create_segment 31 (example_dir (lit "/t"))) as [r1 d1].
  destruct (disk_seal (lit "new") 31 31 d1) as [r2 d2].
  destruct H as (_ & H1 & _ & _ & H2);
    [split; lia|by vm_compute|by vm_compute|by intros len; vm_compute|by intros len; vm_compute|].
  split; [exact H1|]. apply H2. by vm_compute.
Defined.

Example eviction_exact_witness :
  let d' := disk_remove_sealed 3 Eviction (example_dir (lit "/t")) in
  DiskFs.dropped d' = 1 ∧ DiskFs.entries d' !! lit "trace.30.bin" = Some (File (lit "abcd")) ∧
  DiskFs.entries d' !! lit "trace.3.bin.gz" = None.
Proof.
  assert (fits 32 3) as Hi by (split; lia).
  destruct (eviction_exact (example_dir (lit "/t")) 3 Eviction Hi) as (H1 & H2 & _ & _ & H3).
  split; [exact H3|]. split.
  - apply H2; by vm_compute.
  - by vm_compute.
Defined.

Example non_utf8_directory_witness :
  let '(_, d1) := disk_create_segment 31 (example_dir [Byte.x2f; Byte.xff]) in
  let '(answer, d2) := disk_seal (lit "new") 31 31 d1 in
  answer = Ok 31 ∧ DiskFs.entries (snd (discover_existing d2)) !! lit "trace.31.bin.active" = None.
Proof.
  pose proof (non_utf8_directory (example_dir [Byte.x2f; Byte.xff]) 31 (lit "new")) as H.
  cbv zeta in H.
  destruct (disk_create_segment 31 _) as [r1 d1]. destruct (disk_seal (lit "new") 31 31 d1) as [r2 d2].
  destruct H as (H1 & _ & _ & H2);
    [split; lia|by vm_compute|by vm_compute|by intros len; vm_compute|].
  by split.
Defined.
