(* ===== verification/SegmentWriter.v ===== *)
(** * The rotating segment writer (dial9-core/src/buffer.rs)

    [SegmentWriter] over any backend of the interface SegmentFs: rotation by
    size and by time, sealing with its metadata, eviction, adaptation of the
    rotation period, and finalization.  Instants and durations are integers of
    nanoseconds; the estimate computed in floating point is a parameter; a
    write into the active segment does not fail (its buffer is memory, or a
    [BufWriter] whose errors the code meets at flush and ignores). *)

From Stdlib Require Import ZArith Lia.
From stdpp Require Import base list gmap strings option.
From coqutil Require Import Byte.
From S2P Require Import Prelude.
From S2P Require Import FieldValue.
From S2P Require Import Schema.
From S2P Require Import Decoder.
From S2P Require Import EventEncoder.
From S2P Require Import Encoder.
From S2P Require Import Stream.
From S2P Require Import Format.
From S2P Require Import Sealed.
From S2P Require Import MemRing.
From S2P Require Import SegmentFs.
From S2P Require Import DiskFs.

(** ** Constants *)

Definition SEGMENT_COMPLETE_KEY : bytes := lit "segment.complete".

Definition DEFAULT_ROTATION_PERIOD : Z := 60 * SECOND.
Definition DEFAULT_DRAIN_INTERVAL : Z := 30 * SECOND.
Definition DEFAULT_MIN_ROTATION_PERIOD : Z := 5 * SECOND.
Definition ROTATION_TARGET_PERCENT : Z := 80.
Definition ROTATION_GROWTH_FACTOR : Z := 2.
Definition BYTES_PER_MIB : Z := 1024 * 1024.
Definition MAX_FILE_SIZE_CAP : Z := 100 * BYTES_PER_MIB.

Definition derive_max_file_size (max_total_size : Z) : Z :=
  Z.min (max_total_size / 4) MAX_FILE_SIZE_CAP.

Definition pick_segment_size (max_total_size : Z) : Z := Z.max (max_total_size / 8) 1.

(** ** Data *)

Inductive SealKind : Set := Drained | Overflow.

Definition is_clean (k : SealKind) : bool := match k with Drained => true | Overflow => false end.

#[global] Instance seal_kind_eq_dec : EqDecision SealKind.
Proof. solve_decision. Defined.

(** [SegmentMetadata::merge]: the new entries and whether they differ. *)
Definition merge (entries incoming : list (bytes * bytes)) : bool * list (bytes * bytes) :=
  let merged :=
    foldl (λ merged '(k, v),
             if bool_decide (k ∈ map fst merged) then merged else merged ++ [(k, v)])
      incoming entries in
  if decide (merged = entries) then (false, entries) else (true, merged).

(** [SegmentMetadata::new] on top of the defaults. *)
Definition metadata_new (defaults user_entries : list (bytes * bytes)) : list (bytes * bytes) :=
  snd (merge defaults user_entries).

Module AdaptiveRotationConfig.
Record t : Type := mk {
  min_period : Z;
  max_period : option Z;
  target_bytes : option Z }.
End AdaptiveRotationConfig.

(** [Batch] (collector.rs). *)
Module Batch.
Record t : Type := mk { encoded_bytes : bytes; event_count : Z }.
End Batch.

Inductive WriterState : Type :=
| WActive (writer : RawEncoder.t) (need_metadata : bool)
| WFinished.

Module SealCounts.
Record t : Type := mk { segments_sealed_clean : Z; segments_sealed_undrained : Z }.
End SealCounts.

Inductive writer_error : Set :=
| FsError (e : io_error)
| EncodeError (e : enc_error).

Module Writer.
Record t (F : Type) : Type := mk {
  max_file_size : Z;
  max_total_size : Z;
  rotation_period : Z;
  next_rotation_time : option Z;
  closed_files : list (Z * Z);
  active_path : Z;
  state : WriterState;
  next_index : Z;
  segment_metadata : list (bytes * bytes);
  dropped_events : Z;
  seals : SealCounts.t;
  has_real_events : bool;
  metadata_changed_since_seal : bool;
  adaptive_rotation : option AdaptiveRotationConfig.t;
  current_period : Z;
  segment_started_at : Z;
  prior_seal_kind : SealKind;
  next_drain_time : Z;
  fs : F }.

Arguments mk {F}.
Arguments max_file_size {F} _.
Arguments max_total_size {F} _.
Arguments rotation_period {F} _.
Arguments next_rotation_time {F} _.
Arguments closed_files {F} _.
Arguments active_path {F} _.
Arguments state {F} _.
Arguments next_index {F} _.
Arguments segment_metadata {F} _.
Arguments dropped_events {F} _.
Arguments seals {F} _.
Arguments has_real_events {F} _.
Arguments metadata_changed_since_seal {F} _.
Arguments adaptive_rotation {F} _.
Arguments current_period {F} _.
Arguments segment_started_at {F} _.
Arguments prior_seal_kind {F} _.
Arguments next_drain_time {F} _.
Arguments fs {F} _.

Definition set_state {F} (w : t F) (state' : WriterState) : t F :=
  mk (max_file_size w) (max_total_size w) (rotation_period w) (next_rotation_time w)
   (closed_files w) (active_path w) state' (next_index w) (segment_metadata w)
   (dropped_events w) (seals w) (has_real_events w) (metadata_changed_since_seal w)
   (adaptive_rotation w) (current_period w) (segment_started_at w) (prior_seal_kind w)
   (next_drain_time w) (fs w).

Definition set_fs {F} (w : t F) (fs' : F) : t F :=
  mk (max_file_size w) (max_total_size w) (rotation_period w) (next_rotation_time w)
   (closed_files w) (active_path w) (state w) (next_index w) (segment_metadata w)
   (dropped_events w) (seals w) (has_real_events w) (metadata_changed_since_seal w)
   (adaptive_rotation w) (current_period w) (segment_started_at w) (prior_seal_kind w)
   (next_drain_time w) fs'.

Definition set_closed {F} (w : t F) (closed_files' : list (Z * Z)) : t F :=
  mk (max_file_size w) (max_total_size w) (rotation_period w) (next_rotation_time w)
   closed_files' (active_path w) (state w) (next_index w) (segment_metadata w)
   (dropped_events w) (seals w) (has_real_events w) (metadata_changed_since_seal w)
   (adaptive_rotation w) (current_period w) (segment_started_at w) (prior_seal_kind w)
   (next_drain_time w) (fs w).

Definition set_seals {F} (w : t F) (prior_seal_kind' : SealKind) (seals' : SealCounts.t) : t F :=
  mk (max_file_size w) (max_total_size w) (rotation_period w) (next_rotation_time w)
   (closed_files w) (active_path w) (state w) (next_index w) (segment_metadata w)
   (dropped_events w) seals' (has_real_events w) (metadata_changed_since_seal w)
   (adaptive_rotation w) (current_period w) (segment_started_at w) prior_seal_kind'
   (next_drain_time w) (fs w).

Definition set_timers {F} (w : t F) (next_rotation_time' : option Z) (current_period' : Z) (segment_started_at' : Z) (next_drain_time' : Z) : t F :=
  mk (max_file_size w) (max_total_size w) (rotation_period w) next_rotation_time'
   (closed_files w) (active_path w) (state w) (next_index w) (segment_metadata w)
   (dropped_events w) (seals w) (has_real_events w) (metadata_changed_since_seal w)
   (adaptive_rotation w) current_period' segment_started_at' (prior_seal_kind w)
   next_drain_time' (fs w).

Definition set_drain {F} (w : t F) (next_drain_time' : Z) : t F :=
  mk (max_file_size w) (max_total_size w) (rotation_period w) (next_rotation_time w)
   (closed_files w) (active_path w) (state w) (next_index w) (segment_metadata w)
   (dropped_events w) (seals w) (has_real_events w) (metadata_changed_since_seal w)
   (adaptive_rotation w) (current_period w) (segment_started_at w) (prior_seal_kind w)
   next_drain_time' (fs w).

Definition set_next_index {F} (w : t F) (next_index' : Z) : t F :=
  mk (max_file_size w) (max_total_size w) (rotation_period w) (next_rotation_time w)
   (closed_files w) (active_path w) (state w) next_index' (segment_metadata w)
   (dropped_events w) (seals w) (has_real_events w) (metadata_changed_since_seal w)
   (adaptive_rotation w) (current_period w) (segment_started_at w) (prior_seal_kind w)
   (next_drain_time w) (fs w).

Definition set_metadata {F} (w : t F) (segment_metadata' : list (bytes * bytes)) (metadata_changed_since_seal' : bool) : t F :=
  mk (max_file_size w) (max_total_size w) (rotation_period w) (next_rotation_time w)
   (closed_files w) (active_path w) (state w) (next_index w) segment_metadata'
   (dropped_events w) (seals w) (has_real_events w) metadata_changed_since_seal'
   (adaptive_rotation w) (current_period w) (segment_started_at w) (prior_seal_kind w)
   (next_drain_time w) (fs w).

Definition set_dropped {F} (w : t F) (dropped_events' : Z) : t F :=
  mk (max_file_size w) (max_total_size w) (rotation_period w) (next_rotation_time w)
   (closed_files w) (active_path w) (state w) (next_index w) (segment_metadata w)
   dropped_events' (seals w) (has_real_events w) (metadata_changed_since_seal w)
   (adaptive_rotation w) (current_period w) (segment_started_at w) (prior_seal_kind w)
   (next_drain_time w) (fs w).

Definition set_real {F} (w : t F) (has_real_events' : bool) : t F :=
  mk (max_file_size w) (max_total_size w) (rotation_period w) (next_rotation_time w)
   (closed_files w) (active_path w) (state w) (next_index w) (segment_metadata w)
   (dropped_events w) (seals w) has_real_events' (metadata_changed_since_seal w)
   (adaptive_rotation w) (current_period w) (segment_started_at w) (prior_seal_kind w)
   (next_drain_time w) (fs w).

Definition set_opened {F} (w : t F) (active_path' : Z) (state' : WriterState) (has_real_events' : bool) (metadata_changed_since_seal' : bool) : t F :=
  mk (max_file_size w) (max_total_size w) (rotation_period w) (next_rotation_time w)
   (closed_files w) active_path' state' (next_index w) (segment_metadata w)
   (dropped_events w) (seals w) has_real_events' metadata_changed_since_seal'
   (adaptive_rotation w) (current_period w) (segment_started_at w) (prior_seal_kind w)
   (next_drain_time w) (fs w).
End Writer.

Abbreviation Writer := Writer.t.

Section operations.
Context {F : Type} `{SegmentFs F}.
Variable b : BusTypes.t.

(** [Duration::try_from_secs_f64(target as f64 / (closed as f64 / secs))]: from
    the target bytes, the closed bytes and the elapsed nanoseconds. *)
Variable estimate : Z → Z → Z → option Z.

(** ** Writing into the active segment *)

Definition prepare_segment (clock : Z * Z) : result WriterState enc_error :=
  match write (ClockSyncEvent b (fst clock) (snd clock)) 1 encoder_new with
  | (Ok _, e) => Ok (WActive (into_raw_encoder e) true)
  | (Err x, _) => Err x
  end.

(** The self-contained batch of [write_segment_metadata]. *)
Definition metadata_batch (clock : Z * Z) (entries : list (bytes * bytes))
    : result Encoder.t enc_error :=
  match (do! write (SegmentMetadataEvent b (fst clock) entries) 1 in
         write (ClockSyncEvent b (fst clock) (snd clock)) 2) encoder_new with
  | (Ok _, e) => Ok e
  | (Err x, _) => Err x
  end.

Definition write_segment_metadata (writer : RawEncoder.t) (clock : Z * Z)
    (entries : list (bytes * bytes)) : result RawEncoder.t enc_error :=
  match metadata_batch clock entries with
  | Ok e => Ok (write_raw writer (finish e))
  | Err x => Err x
  end.

Definition write_metadata_if_needed (r : Reads.t) (w : Writer F)
    : result unit writer_error * Writer F :=
  match Writer.state w with
  | WActive writer need_metadata =>
      if need_metadata then
        match write_segment_metadata writer (Reads.metadata_clock r) (Writer.segment_metadata w) with
        | Ok writer => (Ok tt, Writer.set_state w (WActive writer false))
        | Err x => (Err (EncodeError x), w)
        end
      else (Ok tt, w)
  | WFinished => (Ok tt, w)
  end.

(** The entries a seal writes. *)
Definition seal_entries (kind : SealKind) (w : Writer F) : list (bytes * bytes) :=
  Writer.segment_metadata w
  ++ [(SEGMENT_COMPLETE_KEY,
       if is_clean kind && is_clean (Writer.prior_seal_kind w) then lit "true" else lit "false")].

Definition write_seal_metadata (kind : SealKind) (r : Reads.t) (w : Writer F) : Writer F :=
  match Writer.state w with
  | WActive writer need_metadata =>
      match write_segment_metadata writer (Reads.seal_clock r) (seal_entries kind w) with
      | Ok writer => Writer.set_state w (WActive writer need_metadata)
      | Err _ => w
      end
  | WFinished => w
  end.

Definition count_seal (kind : SealKind) (s : SealCounts.t) : SealCounts.t :=
  let '(SealCounts.mk clean undrained) := s in
  if is_clean kind then SealCounts.mk (clean + 1) undrained
  else SealCounts.mk clean (undrained + 1).

Definition active_bytes (w : Writer F) : Z :=
  match Writer.state w with WActive writer _ => raw_bytes_written writer | WFinished => 0 end.

(** ** Periods *)

Definition next_rotation_from (now period : Z) : option Z :=
  if period =? DURATION_MAX then None else Some (now + period).

Definition target_segment_bytes (w : Writer F) : Z :=
  match Writer.adaptive_rotation w ≫= AdaptiveRotationConfig.target_bytes with
  | Some bytes => bytes
  | None => Writer.max_file_size w / 100 * ROTATION_TARGET_PERCENT
  end.

(** [x.clamp(floor, ceiling)]. *)
Definition clamp (floor ceiling x : Z) : Z :=
  if x <? floor then floor else if ceiling <? x then ceiling else x.

(** The period after [adapt_rotation_period]. *)
Definition adapt_rotation_period (closed_bytes elapsed : Z) (w : Writer F) : Z :=
  match Writer.adaptive_rotation w with
  | None => Writer.current_period w
  | Some config =>
      if (closed_bytes =? 0) || (elapsed <=? 0) then Writer.current_period w else
      match estimate (target_segment_bytes w) closed_bytes elapsed with
      | None => Writer.current_period w
      | Some estimate =>
          let ceiling :=
            default (Writer.rotation_period w) (AdaptiveRotationConfig.max_period config) in
          let floor := Z.min (AdaptiveRotationConfig.min_period config) ceiling in
          let capped := Z.min estimate (Writer.current_period w * ROTATION_GROWTH_FACTOR) in
          clamp floor ceiling capped
      end
  end.

Definition drain_interval (current_period : Z) : Z := Z.min current_period DEFAULT_DRAIN_INTERVAL.

(** ** Eviction *)

Definition closed_size (closed : list (Z * Z)) : Z := foldr (λ '(_, s) n, s + n) 0 closed.

Definition writer_total_size (w : Writer F) : Z :=
  if negb (is_disk F) then 0 else closed_size (Writer.closed_files w) + active_bytes w.

Fixpoint evict_closed (max active : Z) (closed : list (Z * Z)) (f : F) : list (Z * Z) * F :=
  if max <? closed_size closed + active then
    match closed with
    | [] => ([], f)
    | (seg_ref, _) :: closed => evict_closed max active closed (fs_remove_sealed seg_ref f)
    end
  else (closed, f).

Definition evict_oldest (w : Writer F) : Writer F :=
  if negb (is_disk F) then w else
  let '(closed, f) :=
    evict_closed (Writer.max_total_size w) (active_bytes w) (Writer.closed_files w) (Writer.fs w) in
  let w := Writer.set_fs (Writer.set_closed w closed) f in
  if Writer.max_total_size w <? writer_total_size w then Writer.set_state w WFinished else w.

(** ** Rotation *)

(** The timers of [rotate], moved before anything can fail. *)
Definition advance_timers (now : Z) (w : Writer F) : Writer F :=
  let period := adapt_rotation_period (active_bytes w)
                  (Z.max 0 (now - Writer.segment_started_at w)) w in
  Writer.set_timers w (next_rotation_from now period) period now (now + drain_interval period).

(** Hand the content of the active segment to the backend; an active file that
    is gone is given up. *)
Definition seal_active (raw : RawEncoder.t) (r : Reads.t) (w : Writer F)
    : result unit writer_error * Writer F :=
  let current_index := cast 32 (Writer.next_index w - 1) in
  let '(sealed, f) :=
    fs_seal (raw_into_inner raw) (Writer.active_path w) current_index r (Writer.fs w) in
  let w := Writer.set_fs (Writer.set_state w WFinished) f in
  match sealed with
  | Ok seg_ref =>
      (Ok tt, if is_disk F
              then Writer.set_closed w (Writer.closed_files w ++ [(seg_ref, raw_bytes_written raw)])
              else w)
  | Err NotFound => (Ok tt, w)
  | Err e => (Err (FsError e), w)
  end.

(** Open the next segment. *)
Definition open_next (r : Reads.t) (w : Writer F) : result unit writer_error * Writer F :=
  let new_path := Writer.next_index w in
  let w := Writer.set_next_index w (wrapping_add 32 (Writer.next_index w) 1) in
  let '(created, f) := fs_create_segment new_path (Writer.fs w) in
  let w := Writer.set_fs w f in
  match created with
  | Err e => (Err (FsError e), w)
  | Ok _ =>
      match prepare_segment (Reads.start_clock r) with
      | Err x => (Err (EncodeError x),
                  Writer.set_fs w (snd (fs_remove_active new_path (Writer.fs w))))
      | Ok state => (Ok tt, evict_oldest (Writer.set_opened w new_path state false false))
      end
  end.

Definition rotate (kind : SealKind) (r : Reads.t) (w : Writer F)
    : result unit writer_error * Writer F :=
  match Writer.state w with
  | WFinished => (Ok tt, w)
  | WActive _ _ =>
      let w := write_seal_metadata kind r w in
      let w := Writer.set_seals w kind (count_seal kind (Writer.seals w)) in
      let w := advance_timers (Reads.instant r) w in
      match Writer.state w with
      | WFinished => (Ok tt, w)
      | WActive raw _ =>
          match seal_active raw r w with
          | (Err e, w) => (Err e, w)
          | (Ok _, w) => open_next r w
          end
      end
  end.

Definition maybe_rotate (r : Reads.t) (w : Writer F) : result unit writer_error * Writer F :=
  match Writer.state w with
  | WFinished => (Ok tt, w)
  | WActive raw _ =>
      if Writer.max_file_size w <? raw_bytes_written raw then rotate Overflow r w else (Ok tt, w)
  end.

(** ** The public operations *)

Definition update_segment_metadata (entries : list (bytes * bytes)) (w : Writer F) : Writer F :=
  let '(changed, merged) := merge (Writer.segment_metadata w) entries in
  if changed then
    let w := match Writer.state w with
             | WActive writer _ => Writer.set_state w (WActive writer true)
             | WFinished => w
             end in
    Writer.set_metadata w merged true
  else w.

Definition should_drain (instant : Z) (w : Writer F) : bool :=
  Writer.has_real_events w && (Writer.next_drain_time w <=? instant).

Definition drained (r : Reads.t) (w : Writer F) : result bool writer_error * Writer F :=
  if negb (Writer.has_real_events w) then (Ok false, w) else
  let now := Reads.instant r in
  if match Writer.next_rotation_time w with Some deadline => deadline <=? now | None => false end
  then match rotate Drained r w with
       | (Ok _, w) => (Ok true, w)
       | (Err e, w) => (Err e, w)
       end
  else (Ok false, Writer.set_drain w (now + drain_interval (Writer.current_period w))).

Definition mark_done (w : Writer F) : Writer F := Writer.set_fs w (fs_mark_writer_done (Writer.fs w)).

(** The active segment at the end: sealed when it holds something new, removed
    otherwise. *)
Definition finish_active (raw : RawEncoder.t) (r : Reads.t) (w : Writer F)
    : result unit writer_error * Writer F :=
  if Writer.has_real_events w
     || (Writer.metadata_changed_since_seal w && (1 <? Writer.next_index w))
  then seal_active raw r w
  else
    let '(removed, f) := fs_remove_active (Writer.active_path w) (Writer.fs w) in
    let w := Writer.set_fs (Writer.set_state w WFinished) f in
    match removed with
    | Ok _ | Err NotFound => (Ok tt, w)
    | Err e => (Err (FsError e), w)
    end.

Definition finalize (r : Reads.t) (w : Writer F) : result unit writer_error * Writer F :=
  match Writer.state w with
  | WFinished => (Ok tt, mark_done w)
  | WActive _ _ =>
      let w := write_seal_metadata Drained r w in
      let w := Writer.set_seals w (Writer.prior_seal_kind w) (count_seal Drained (Writer.seals w)) in
      match Writer.state w with
      | WFinished => (Ok tt, mark_done w)
      | WActive raw _ =>
          match finish_active raw r w with
          | (Err e, w) => (Err e, mark_done w)
          | (Ok _, w) => (Ok tt, mark_done (evict_oldest w))
          end
      end
  end.

Definition write_encoded_batch (batch : Batch.t) (r : Reads.t) (w : Writer F)
    : result unit writer_error * Writer F :=
  match write_metadata_if_needed r w with
  | (Err e, w) => (Err e, w)
  | (Ok _, w) =>
      match Writer.state w with
      | WFinished =>
          (Ok tt, Writer.set_dropped w (Writer.dropped_events w + Batch.event_count batch))
      | WActive raw need_metadata =>
          if 0 <? Batch.event_count batch then
            let raw := write_raw raw (Batch.encoded_bytes batch) in
            maybe_rotate r (Writer.set_real (Writer.set_state w (WActive raw need_metadata)) true)
          else (Ok tt, w)
      end
  end.

(** ** Construction *)

(** The end of every constructor: the first segment is opened and the record
    filled in.  [first_period] is the period in force at the start. *)
Definition start_writer (max_file_size max_total_size rotation_period first_period : Z)
    (adaptive : option AdaptiveRotationConfig.t) (metadata : list (bytes * bytes))
    (closed_files : list (Z * Z)) (first_index : Z) (r : Reads.t) (f : F)
    : result (Writer F) writer_error :=
  let '(created, f) := fs_create_segment first_index f in
  match created with
  | Err e => Err (FsError e)
  | Ok _ =>
      match prepare_segment (Reads.start_clock r) with
      | Err x => Err (EncodeError x)
      | Ok state =>
          let now := Reads.instant r in
          Ok (Writer.mk max_file_size max_total_size rotation_period
                (next_rotation_from now first_period) closed_files first_index state
                (first_index + 1) metadata 0 (SealCounts.mk 0 0) false false adaptive first_period
                now Drained (now + drain_interval first_period) f)
      end
  end.

Definition first_period (rotation_period : Z) (adaptive : option AdaptiveRotationConfig.t) : Z :=
  match adaptive with
  | Some c => AdaptiveRotationConfig.min_period c
  | None => rotation_period
  end.

(** [SegmentWriter::<Disk>::create], after [discover_existing]. *)
Definition create (max_file_size max_total_size rotation_period : Z)
    (adaptive : option AdaptiveRotationConfig.t) (metadata : list (bytes * bytes))
    (discovered_closed : list (Z * Z)) (next_active_index : Z) (r : Reads.t) (f : F)
    : result (Writer F) writer_error :=
  if rotation_period =? 0 then Err (FsError IoOther) else
  match checked_add 32 next_active_index 1 with
  | None => Err (FsError IoOther)
  | Some _ =>
      match start_writer max_file_size max_total_size rotation_period
              (first_period rotation_period adaptive) adaptive metadata discovered_closed
              next_active_index r f with
      | Ok w => Ok (evict_oldest w)
      | Err e => Err e
      end
  end.

(** [SegmentWriter::single_file]. *)
Definition single_file (defaults : list (bytes * bytes)) (r : Reads.t) (f : F)
    : result (Writer F) writer_error :=
  start_writer (2 ^ 64 - 1) (2 ^ 64 - 1) DURATION_MAX DURATION_MAX None defaults [] 0 r f.

(** The checks of [create_in_memory] before the backend is built. *)
Definition memory_config_ok (max_total_size max_segment_size rotation_period : Z) : bool :=
  negb (max_total_size =? 0) && negb (max_segment_size =? 0) && negb (rotation_period =? 0)
  && negb (max_total_size <? saturating_mul 64 (PIPELINE_RESERVE_SEGMENTS + 1) max_segment_size).
End operations.

(** [SegmentWriter::<Memory>]: [create_in_memory] and [new]. *)
Definition create_in_memory (b : BusTypes.t) (max_total_size max_segment_size rotation_period : Z)
    (adaptive : option AdaptiveRotationConfig.t) (metadata : list (bytes * bytes)) (r : Reads.t)
    : result (Writer MemChannel.t) writer_error :=
  if memory_config_ok max_total_size max_segment_size rotation_period then
    match new_in_memory max_total_size max_segment_size with
    | Err e => Err (FsError e)
    | Ok c =>
        start_writer b max_segment_size max_total_size rotation_period
          (first_period rotation_period adaptive) adaptive metadata [] 0 r c
    end
  else Err (FsError (if (max_total_size =? 0) || (max_segment_size =? 0) ||
                        negb (rotation_period =? 0) then IoInvalidInput else IoOther)).

Definition memory_new (b : BusTypes.t) (max_total_size : Z) (defaults : list (bytes * bytes))
    (r : Reads.t) : result (Writer MemChannel.t) writer_error :=
  create_in_memory b max_total_size (pick_segment_size max_total_size) DEFAULT_ROTATION_PERIOD
    None defaults r.

(** ** Metadata *)

(** The first value of a key. *)
Fixpoint assoc (k : bytes) (l : list (bytes * bytes)) : option bytes :=
  match l with
  | [] => None
  | (k', v) :: l => if bool_decide (k = k') then Some v else assoc k l
  end.

Definition merge_into (merged entries : list (bytes * bytes)) : list (bytes * bytes) :=
  foldl (λ merged '(k, v),
           if bool_decide (k ∈ map fst merged) then merged else merged ++ [(k, v)]) merged entries.

Lemma merge_eq entries incoming :
  merge entries incoming
  = (negb (bool_decide (merge_into incoming entries = entries)), merge_into incoming entries).
Proof.
  unfold merge. fold (merge_into incoming entries).
  destruct (decide _) as [->|]; [by rewrite bool_decide_true|by rewrite bool_decide_false].
Qed.

Lemma assoc_app k l l' :
  assoc k (l ++ l') = match assoc k l with Some v => Some v | None => assoc k l' end.
Proof.
  induction l as [|[k' v] l IH]; [done|]. cbn. by destruct (bool_decide (k = k')).
Qed.

Lemma assoc_none k l : assoc k l = None ↔ k ∉ map fst l.
Proof.
  induction l as [|[k' v] l IH]; cbn [assoc map fst]; [set_solver|].
  rewrite not_elem_of_cons. destruct (bool_decide_reflect (k = k')) as [->|]; [split; [done|by intros [? _]]|].
  rewrite IH. naive_solver.
Qed.

Lemma merge_into_assoc k m l :
  assoc k (merge_into m l) = match assoc k m with Some v => Some v | None => assoc k l end.
Proof.
  revert m. induction l as [|[k' v] l IH]; intros m; cbn [merge_into foldl assoc].
  { by destruct (assoc k m). }
  fold (merge_into m l). destruct (bool_decide_reflect (k' ∈ map fst m)) as [Hin|Hnew].
  - fold (merge_into m l). rewrite IH. destruct (assoc k m) eqn:E; [done|].
    rewrite bool_decide_false; [done|]. intros ->. by apply assoc_none in E.
  - change (foldl _ (m ++ [(k', v)]) l) with (merge_into (m ++ [(k', v)]) l).
    rewrite IH, assoc_app. destruct (assoc k m); [done|]. cbn.
    by destruct (bool_decide (k = k')).
Qed.

Lemma merge_into_nodup m l : NoDup (map fst m) → NoDup (map fst (merge_into m l)).
Proof.
  revert m. induction l as [|[k v] l IH]; intros m Hm; [done|]. cbn [merge_into foldl].
  apply IH. destruct (bool_decide_reflect (k ∈ map fst m)); [done|].
  rewrite map_app, list.NoDup_app. split; [done|]. cbn. split; [|apply NoDup_singleton]. set_solver.
Qed.

(** Entries whose keys are all there are not taken again. *)
Lemma merge_into_known m l : Forall (λ kv, kv.1 ∈ map fst m) l → merge_into m l = m.
Proof.
  induction 1 as [|[k v] l Hk _ IH]; [done|]. cbn [merge_into foldl]. by rewrite bool_decide_true.
Qed.

Lemma merge_into_app m a c : merge_into m (a ++ c) = merge_into (merge_into m a) c.
Proof. apply foldl_app. Qed.

Lemma merge_into_prefix m l : ∃ s, merge_into m l = m ++ s ∧
  NoDup (map fst s) ∧ Forall (λ kv, kv.1 ∉ map fst m) s.
Proof.
  revert m. induction l as [|[k v] l IH]; intros m; cbn [merge_into foldl].
  { exists []. rewrite app_nil_r. split; [done|]. split; [apply NoDup_nil_2|done]. }
  destruct (bool_decide_reflect (k ∈ map fst m)) as [|Hk]; [apply IH|].
  destruct (IH (m ++ [(k, v)])) as (s & Hs & Hnd & Hf).
  exists ((k, v) :: s). fold (merge_into (m ++ [(k, v)]) l).
  change (foldl _ (m ++ [(k, v)]) l) with (merge_into (m ++ [(k, v)]) l).
  rewrite Hs, <- app_assoc. split; [done|]. rewrite list.Forall_forall in Hf. split.
  - cbn. apply list.NoDup_cons. split; [|done]. intros Hin. apply list_elem_of_fmap in Hin as (y & -> & Hy).
    apply Hf in Hy. rewrite map_app in Hy. set_solver.
  - constructor; [done|]. apply list.Forall_forall. intros y Hy. apply Hf in Hy.
    rewrite map_app in Hy. set_solver.
Qed.

Lemma merge_into_fresh m s :
  NoDup (map fst s) → Forall (λ kv, kv.1 ∉ map fst m) s → merge_into m s = m ++ s.
Proof.
  revert m. induction s as [|[k v] s IH]; intros m Hnd Hf; [by rewrite app_nil_r|].
  cbn [map fst] in Hnd. apply list.NoDup_cons in Hnd as [Hk Hnd].
  apply list.Forall_cons in Hf as [Hkm Hf]. cbn [merge_into foldl].
  rewrite bool_decide_false by done.
  change (foldl _ (m ++ [(k, v)]) s) with (merge_into (m ++ [(k, v)]) s).
  rewrite IH, <- app_assoc; [done|done|]. rewrite list.Forall_forall in *.
  intros y Hy. specialize (Hf y Hy). rewrite map_app. cbn.
  assert (y.1 ≠ k) by (intros <-; apply Hk; apply list_elem_of_fmap; by exists y).
  set_solver.
Qed.

(** ** Main properties: parts of the writer *)

(** Merging metadata: an incoming value wins over an older one of its key,
    no key is lost, the report of a change is exact, keys stay distinct, and
    sending the same entries again changes nothing. *)
Theorem merge_spec entries incoming :
  let '(changed, merged) := merge entries incoming in
  (∀ k, assoc k merged
        = match assoc k incoming with Some v => Some v | None => assoc k entries end) ∧
  (changed = false ↔ merged = entries) ∧
  (NoDup (map fst incoming) → NoDup (map fst merged)) ∧
  merge merged incoming = (false, merged).
Proof.
  rewrite merge_eq. split; [intros k; apply merge_into_assoc|]. split; [|split].
  - by rewrite negb_false_iff, bool_decide_eq_true.
  - apply merge_into_nodup.
  - rewrite merge_eq. destruct (merge_into_prefix incoming entries) as (s & Hs & Hnd & Hf).
    rewrite Hs, merge_into_app, (merge_into_known incoming incoming), merge_into_fresh by
      (done || (apply list.Forall_forall; intros y Hy; apply list_elem_of_fmap; by exists y)).
    by rewrite bool_decide_true.
Qed.

(** ** Eviction *)

Section evictions.
Context {F : Type} `{SegmentFs F}.

(** Removing sealed segments one after the other. *)
Definition remove_all (l : list (Z * Z)) (f : F) : F :=
  foldl (λ f '(i, _), fs_remove_sealed i f) f l.

Lemma evict_closed_spec max active closed f :
  ∃ k, evict_closed max active closed f = (drop k closed, remove_all (take k closed) f) ∧
    (k <= length closed)%nat ∧
    (k = length closed ∨ closed_size (drop k closed) + active <= max) ∧
    ∀ j, (j < k)%nat → max < closed_size (drop j closed) + active.
Proof.
  revert f. induction closed as [|[i s] closed IH]; intros f; cbn [evict_closed].
  - exists 0%nat. split; [by destruct (_ <? _)|]. split; [done|]. split; [by left|]. intros j Hj. lia.
  - destruct (Z.ltb_spec max (closed_size ((i, s) :: closed) + active)) as [Hover|Hfit].
    + destruct (IH (fs_remove_sealed i f)) as (k & -> & Hk & Hend & Hmin).
      exists (S k). split; [done|]. split; [cbn; lia|].
      split; [destruct Hend; [left; cbn; lia|by right]|].
      intros [|j] Hj; [done|]. apply Hmin. lia.
    + exists 0%nat. split; [done|]. split; [lia|]. split; [by right|]. intros j Hj. lia.
Qed.

Lemma closed_size_nonneg c : Forall (λ x, 0 <= x.2) c → 0 <= closed_size c.
Proof.
  induction 1 as [|[i s] c Hs _ IH]; [done|].
  change (closed_size ((i, s) :: c)) with (s + closed_size c). cbn in Hs. lia.
Qed.

(** On disk, eviction brings the closed and the active segments within
    [max_total_size], by removing the fewest oldest closed segments; when the
    active segment alone is over the budget nothing closed is left and the
    writer stops. *)
Theorem evict_oldest_spec (w : Writer F) :
  is_disk F = true → 0 <= Writer.max_total_size w →
  Forall (λ x, 0 <= x.2) (Writer.closed_files w) →
  ∃ k, let w' := evict_oldest w in
    (k <= length (Writer.closed_files w))%nat ∧
    Writer.closed_files w' = drop k (Writer.closed_files w) ∧
    Writer.fs w' = remove_all (take k (Writer.closed_files w)) (Writer.fs w) ∧
    writer_total_size w' <= Writer.max_total_size w ∧
    (∀ j, (j < k)%nat →
       Writer.max_total_size w
       < closed_size (drop j (Writer.closed_files w)) + active_bytes w) ∧
    Writer.state w'
    = if Writer.max_total_size w <? active_bytes w then WFinished else Writer.state w.
Proof.
  intros Hd Hmax Hpos. unfold evict_oldest. rewrite Hd. cbn [negb].
  destruct (evict_closed_spec (Writer.max_total_size w) (active_bytes w) (Writer.closed_files w)
              (Writer.fs w)) as (k & -> & Hk & Hend & Hmin).
  apply (list.Forall_drop _ k), closed_size_nonneg in Hpos.
  exists k. set (w1 := Writer.set_fs (Writer.set_closed w _) _).
  assert (writer_total_size w1 = closed_size (drop k (Writer.closed_files w)) + active_bytes w)
    as Ht by (unfold writer_total_size; by rewrite Hd).
  change (Writer.max_total_size w1) with (Writer.max_total_size w).
  rewrite Ht. destruct (Z.ltb_spec (Writer.max_total_size w)
    (closed_size (drop k (Writer.closed_files w)) + active_bytes w)) as [Hover|Hfit].
  - destruct Hend as [Hend|]; [|lia]. rewrite (drop_ge (Writer.closed_files w) k) in * by lia.
    cbn [closed_size foldr] in *. split_and!; try done.
    + cbn. by rewrite drop_ge by lia.
    + unfold writer_total_size, active_bytes. rewrite Hd. cbn.
      by rewrite (drop_ge (Writer.closed_files w) k) by lia.
    + by rewrite (proj2 (Z.ltb_lt _ _)) by lia.
  - split_and!; try done.
    + by rewrite Ht.
    + by rewrite (proj2 (Z.ltb_ge _ _)) by lia.
Qed.
End evictions.

(** ** Periods and timers *)

Section timers.
Context {F : Type} `{SegmentFs F}.
Variable b : BusTypes.t.
Variable estimate : Z → Z → Z → option Z.

Abbreviation adapt := (adapt_rotation_period estimate).

(** The bounds an adaptive configuration sets. *)
Definition ceiling (w : Writer F) (c : AdaptiveRotationConfig.t) : Z :=
  default (Writer.rotation_period w) (AdaptiveRotationConfig.max_period c).

Definition floor (w : Writer F) (c : AdaptiveRotationConfig.t) : Z :=
  Z.min (AdaptiveRotationConfig.min_period c) (ceiling w c).

Lemma adapt_cases closed elapsed w :
  adapt closed elapsed w = Writer.current_period w ∨
  ∃ c e, Writer.adaptive_rotation w = Some c ∧ 0 < elapsed ∧ closed ≠ 0 ∧
    estimate (target_segment_bytes w) closed elapsed = Some e ∧
    adapt closed elapsed w
    = clamp (floor w c) (ceiling w c)
        (Z.min e (Writer.current_period w * ROTATION_GROWTH_FACTOR)).
Proof.
  unfold adapt_rotation_period. destruct (Writer.adaptive_rotation w) as [c|]; [|by left].
  destruct (Z.eqb_spec closed 0); cbn [orb]; [by left|].
  destruct (Z.leb_spec elapsed 0); [by left|].
  destruct (estimate _ _ _) as [e|] eqn:E; [|by left]. right. by exists c, e.
Qed.

Lemma clamp_bounds lo hi x : lo <= hi → lo <= clamp lo hi x <= hi ∧ clamp lo hi x <= Z.max lo x.
Proof. unfold clamp. destruct (Z.ltb_spec x lo), (Z.ltb_spec hi x); lia. Qed.

(** Whatever the floating-point estimate is, a period that is adapted stays
    between the floor and the ceiling of the configuration and at most doubles
    (unless the floor is higher); without a configuration, an elapsed time, any
    bytes or an estimate it does not move. *)
Theorem adapt_bounds closed elapsed w :
  let p := adapt closed elapsed w in
  p = Writer.current_period w ∨
  ∃ c, Writer.adaptive_rotation w = Some c ∧ floor w c <= p <= ceiling w c ∧
       p <= Z.max (floor w c) (2 * Writer.current_period w).
Proof.
  cbv zeta. destruct (adapt_cases closed elapsed w) as [->|(c & e & Hc & _ & _ & _ & ->)];
    [by left|]. right. exists c. split; [done|].
  assert (floor w c <= ceiling w c) as Hle by (unfold floor; lia).
  destruct (clamp_bounds _ _ (Z.min e (Writer.current_period w * ROTATION_GROWTH_FACTOR)) Hle)
    as [Hb Hm]. split; [done|]. unfold ROTATION_GROWTH_FACTOR in *. lia.
Qed.

(** A configuration whose periods are positive. *)
Definition periods_ok (w : Writer F) : Prop :=
  0 < Writer.current_period w ∧
  ∀ c, Writer.adaptive_rotation w = Some c → 0 < floor w c.

Lemma adapt_positive closed elapsed w : periods_ok w → 0 < adapt closed elapsed w.
Proof.
  intros [Hp Hc]. destruct (adapt_cases closed elapsed w) as [->|(c & e & E & _ & _ & _ & ->)];
    [done|]. specialize (Hc c E).
  assert (floor w c <= ceiling w c) as Hle by (unfold floor; lia).
  destruct (clamp_bounds _ _ (Z.min e (Writer.current_period w * ROTATION_GROWTH_FACTOR)) Hle). lia.
Qed.

(** What the parts of a rotation leave of the timers. *)
Lemma seal_active_timers raw r w :
  Writer.next_drain_time (snd (seal_active raw r w)) = Writer.next_drain_time w.
Proof.
  unfold seal_active. destruct (fs_seal _ _ _ _ _) as [[x|[]] f]; try done.
  by destruct (is_disk F).
Qed.

Lemma evict_oldest_timers w :
  Writer.next_drain_time (evict_oldest w) = Writer.next_drain_time w.
Proof.
  unfold evict_oldest. destruct (negb _); [done|]. destruct (evict_closed _ _ _ _) as [c f].
  by destruct (_ <? _).
Qed.

Lemma open_next_timers r w :
  Writer.next_drain_time (snd (open_next b r w)) = Writer.next_drain_time w.
Proof.
  unfold open_next. destruct (fs_create_segment _ _) as [[[]|e] f]; [|done].
  destruct (prepare_segment _ _); [|done]. cbn [snd]. by rewrite evict_oldest_timers.
Qed.

Lemma write_seal_metadata_fields kind r (w : Writer F) :
  let w' := write_seal_metadata b kind r w in
  Writer.current_period w' = Writer.current_period w ∧
  Writer.adaptive_rotation w' = Writer.adaptive_rotation w ∧
  Writer.rotation_period w' = Writer.rotation_period w ∧
  ((∃ raw n, Writer.state w' = WActive raw n) ↔ ∃ raw n, Writer.state w = WActive raw n).
Proof.
  unfold write_seal_metadata. destruct (Writer.state w) as [raw n|] eqn:E.
  - destruct (write_segment_metadata _ _ _ _); cbn; rewrite ?E; naive_solver.
  - cbv zeta. rewrite E. naive_solver.
Qed.

(** A rotation, even one that fails halfway, moves the drain timer first:
    right after it no drain is due, so the flush loop does not retry it on its
    next tick. *)
Theorem rotate_no_spin kind r w :
  periods_ok w → (∃ raw n, Writer.state w = WActive raw n) →
  should_drain (Reads.instant r) (snd (rotate b estimate kind r w)) = false.
Proof.
  intros Hp (raw & n & Hs).
  assert (Reads.instant r < Writer.next_drain_time (snd (rotate b estimate kind r w))) as Hlt.
  { unfold rotate. rewrite Hs.
    destruct (write_seal_metadata_fields kind r w) as (Hc & Ha & Hrp & Hact).
    set (w1 := write_seal_metadata b kind r w) in *.
    set (w2 := Writer.set_seals w1 kind _).
    set (w3 := advance_timers estimate (Reads.instant r) w2).
    assert (Reads.instant r < Writer.next_drain_time w3) as H3.
    { change (Writer.next_drain_time w3) with (Reads.instant r + drain_interval
        (adapt (active_bytes w2) (Z.max 0 (Reads.instant r - Writer.segment_started_at w2)) w2)).
      unfold drain_interval, DEFAULT_DRAIN_INTERVAL, SECOND.
      assert (0 < adapt (active_bytes w2)
                    (Z.max 0 (Reads.instant r - Writer.segment_started_at w2)) w2); [|lia].
      apply adapt_positive. destruct Hp as [Hp1 Hp2]. split.
      { change (Writer.current_period w2) with (Writer.current_period w1). by rewrite Hc. }
      intros c E. change (Writer.adaptive_rotation w1 = Some c) in E. rewrite Ha in E. specialize (Hp2 c E). unfold floor, ceiling in *.
      change (Writer.rotation_period w2) with (Writer.rotation_period w1). by rewrite Hrp. }
    destruct (Writer.state w3) as [raw3 n3|]; [|exact H3].
    pose proof (seal_active_timers raw3 r w3) as Ht.
    destruct (seal_active raw3 r w3) as [[[]|e] w4]; cbn [snd] in *; [|lia].
    rewrite open_next_timers. lia. }
  unfold should_drain. apply andb_false_iff. right. by apply Z.leb_gt.
Qed.

(** What a failed step of a rotation leaves. *)
Lemma seal_active_stops raw r w :
  Writer.state (snd (seal_active raw r w)) = WFinished ∧
  Writer.has_real_events (snd (seal_active raw r w)) = Writer.has_real_events w.
Proof.
  unfold seal_active. destruct (fs_seal _ _ _ _ _) as [[x|[]] f]; try done.
  by destruct (is_disk F).
Qed.

Lemma open_next_fails r w e w' :
  open_next b r w = (Err e, w') →
  Writer.state w' = Writer.state w ∧ Writer.has_real_events w' = Writer.has_real_events w.
Proof.
  unfold open_next. destruct (fs_create_segment _ _) as [[[]|x] f]; [|by intros [= <- <-]].
  by destruct (prepare_segment _ _); intros [= <- <-].
Qed.

Lemma write_seal_metadata_real kind r (w : Writer F) :
  Writer.has_real_events (write_seal_metadata b kind r w) = Writer.has_real_events w.
Proof.
  unfold write_seal_metadata. destruct (Writer.state w); [|done].
  by destruct (write_segment_metadata _ _ _ _).
Qed.

Lemma rotate_fails kind r w e w' :
  rotate b estimate kind r w = (Err e, w') →
  Writer.state w' = WFinished ∧ Writer.has_real_events w' = Writer.has_real_events w.
Proof.
  unfold rotate. destruct (Writer.state w) as [raw n|]; [|done].
  pose proof (write_seal_metadata_real kind r w) as Hr.
  set (w1 := write_seal_metadata b kind r w) in *.
  set (w3 := advance_timers estimate (Reads.instant r) _).
  assert (Writer.has_real_events w3 = Writer.has_real_events w) as H3 by exact Hr.
  destruct (Writer.state w3) as [raw3 n3|]; [|done].
  destruct (seal_active_stops raw3 r w3) as [Hs Hr3].
  destruct (seal_active raw3 r w3) as [[[]|x] w4]; cbn [snd] in *.
  - intros Ho. destruct (open_next_fails _ _ _ _ Ho) as [-> ->]. split; [done|congruence].
  - intros [= <- <-]. split; [done|congruence].
Qed.

(** A rotation that fails stops the writer for good, but leaves the mark
    that the segment holds events: from the next deadline on a drain is always
    due, completing it succeeds and changes nothing, so the flush loop bumps
    the epoch and drains every thread's buffer, for batches that are dropped,
    every other tick. *)
Theorem failed_rotate_spins kind r w e w' :
  Writer.has_real_events w = true → rotate b estimate kind r w = (Err e, w') →
  Writer.state w' = WFinished ∧
  ∀ r2 deadline, Writer.next_rotation_time w' = Some deadline →
    deadline <= Reads.instant r2 → Writer.next_drain_time w' <= Reads.instant r2 →
    should_drain (Reads.instant r2) w' = true ∧ drained b estimate r2 w' = (Ok true, w').
Proof.
  intros Hreal Hrot. destruct (rotate_fails _ _ _ _ _ Hrot) as [Hs Hr]. rewrite Hreal in Hr.
  split; [done|]. intros r2 deadline Hd Hle Hdrain.
  unfold should_drain, drained, rotate. rewrite Hr, Hd, Hs. cbn [negb andb].
  by rewrite (proj2 (Z.leb_le _ _) Hle), (proj2 (Z.leb_le _ _) Hdrain).
Qed.

(** However it ends, the writer is finished and the backend is told. *)
Lemma finalize_finished r w :
  Writer.state (snd (finalize b r w)) = WFinished ∧
  ∃ f, Writer.fs (snd (finalize b r w)) = fs_mark_writer_done f.
Proof.
  assert (∀ w : Writer F, Writer.state w = WFinished →
    Writer.state (mark_done w) = WFinished ∧ ∃ f, Writer.fs (mark_done w) = fs_mark_writer_done f)
    as Hdone by (intros w0 Hs; by split; [|eexists]).
  assert (∀ w : Writer F, Writer.state w = WFinished → Writer.state (evict_oldest w) = WFinished)
    as Hevict.
  { intros w0 Hs. unfold evict_oldest. destruct (negb _); [done|].
    destruct (evict_closed _ _ _ _) as [c f]. by destruct (_ <? _). }
  unfold finalize. destruct (Writer.state w) as [raw n|] eqn:Es; [|by apply Hdone].
  set (w1 := Writer.set_seals _ _ _). destruct (Writer.state w1) as [raw1 n1|] eqn:Es1;
    [|by apply Hdone].
  assert (Writer.state (snd (finish_active raw1 r w1)) = WFinished) as Hf.
  { unfold finish_active. destruct (_ || _); [apply seal_active_stops|].
    by destruct (fs_remove_active _ _) as [[x|[]] f]. }
  destruct (finish_active raw1 r w1) as [[x|x] w2]; cbn [snd] in *;
    apply Hdone; [by apply Hevict|done].
Qed.

(** A minimum period of zero is accepted, although a zero rotation period
    is refused, and it stops the adaptation for good: the period starts at zero
    and every cap is twice zero. *)
Theorem zero_min_period_sticks closed elapsed w c :
  Writer.adaptive_rotation w = Some c → AdaptiveRotationConfig.min_period c = 0 →
  0 <= ceiling w c → Writer.current_period w = 0 →
  (∀ t x y e, estimate t x y = Some e → 0 <= e) →
  adapt closed elapsed w = 0.
Proof.
  intros Hc Hmin Hceil Hcur Hest.
  destruct (adapt_cases closed elapsed w) as [->|(c' & e & E & _ & _ & He & ->)]; [done|].
  rewrite Hc in E. injection E as <-. apply Hest in He. rewrite Hcur.
  unfold clamp, floor. rewrite Hmin. destruct (Z.ltb_spec (Z.min e (0 * ROTATION_GROWTH_FACTOR))
    (Z.min 0 (ceiling w c))), (Z.ltb_spec (ceiling w c) (Z.min e (0 * ROTATION_GROWTH_FACTOR))); lia.
Qed.
End timers.

(** ** Memory budgets *)

(** The in-memory writer is built exactly for the budgets that leave the
    ring a slot: two segments of reserve and one more; the ring then has room
    for at least one full segment, and the only other failure is of the first
    clock anchor.  (The budget [u64::MAX] is left out: there the saturated
    products pass the check and the ring may be smaller than a segment.) *)
Theorem create_in_memory_spec b max seg period adaptive metadata r :
  0 <= max < 2 ^ 64 - 1 → fits 64 seg → 0 <= period →
  match create_in_memory b max seg period adaptive metadata r with
  | Ok w => 0 < seg ∧ 3 * seg <= max ∧ 0 < period ∧
            seg <= MemChannel.max_total_size (Writer.fs w) ∧
            MemChannel.max_total_size (Writer.fs w) + 2 * seg = max ∧
            Writer.next_index w = 1 ∧ Writer.closed_files w = []
  | Err (FsError _) => seg = 0 ∨ max < 3 * seg ∨ period = 0
  | Err (EncodeError x) => prepare_segment b (Reads.start_clock r) = Err x
  end.
Proof.
  intros Hmax Hseg Hp. unfold fits in *. unfold create_in_memory, memory_config_ok, new_in_memory.
  unfold PIPELINE_RESERVE_SEGMENTS, saturating_mul, checked_sub, with_capacity.
  destruct (Z.eqb_spec max 0), (Z.eqb_spec seg 0), (Z.eqb_spec period 0); cbn [negb andb orb];
    try lia.
  destruct (Z.ltb_spec max (Z.min ((2 + 1) * seg) (2 ^ 64 - 1))); cbn [negb]; [lia|].
  destruct (Z.leb_spec (Z.min (2 * seg) (2 ^ 64 - 1)) max); [|lia].
  destruct (Z.eqb_spec (max - Z.min (2 * seg) (2 ^ 64 - 1)) 0); [lia|].
  unfold start_writer. cbn [fs_create_segment mem_fs].
  destruct (prepare_segment b (Reads.start_clock r)); [|done].
  cbn. split_and!; try done; lia.
Qed.

(** "Errors when [max_total_size == 0]" leaves two budgets out: one and two
    bytes are refused as well. *)
Theorem tiny_budget_refused b defaults r :
  memory_new b 1 defaults r = Err (FsError IoInvalidInput) ∧
  memory_new b 2 defaults r = Err (FsError IoInvalidInput).
Proof. by split. Qed.

(** ** Writers *)

(** A writer on disk with three closed segments, and one in memory. *)
Definition example_bus : BusTypes.t := BusTypes.mk 1 7 2 8.

Definition example_reads (now : Z) : Reads.t :=
  Reads.mk now (now, now + 1) (now, now + 2) (now, 1700000000000000000) 0 7.

Definition example_disk (max_total : Z) (adaptive : option AdaptiveRotationConfig.t)
    : option (Writer DiskFs.t) :=
  match start_writer example_bus 500 max_total (60 * SECOND) (first_period (60 * SECOND) adaptive)
          adaptive [] [(1, 40); (2, 30); (3, 20)] 4 (example_reads 0)
          (disk_new (lit "/t") (lit "trace") ∅) with
  | Ok w => Some w
  | Err _ => None
  end.

Definition no_estimate (target closed elapsed : Z) : option Z := None.

Definition is_active {F} (w : Writer F) : bool :=
  match Writer.state w with WActive _ _ => true | WFinished => false end.

Lemma is_active_state {F} (w : Writer F) :
  is_active w = true → ∃ raw n, Writer.state w = WActive raw n.
Proof. unfold is_active. destruct (Writer.state w) as [raw n|]; [by exists raw, n|done]. Qed.

Example evict_oldest_spec_witness :
  match example_disk 90 None with
  | Some w => Writer.closed_files (evict_oldest w) = [(3, 20)] ∧
              writer_total_size (evict_oldest w) <= 90
  | None => False
  end.
Proof.
  destruct (example_disk 90 None) as [w|] eqn:E; [|by apply (none_absurd _ E); vm_compute].
  assert (Writer.max_total_size w = 90) as Hmax by (apply (some_field _ _ _ _ E); by vm_compute).
  assert (Writer.closed_files w = [(1, 40); (2, 30); (3, 20)]) as Hc
    by (apply (some_field _ _ _ _ E); by vm_compute).
  destruct (evict_oldest_spec w ltac:(done) ltac:(lia)) as (k & _ & _ & _ & Ht & _).
  { rewrite Hc. repeat constructor; cbn; lia. }
  split; [apply (some_field (λ w, Writer.closed_files (evict_oldest w)) _ _ _ E); by vm_compute|].
  by rewrite <- Hmax.
Defined.

Example rotate_no_spin_witness :
  match example_disk 100000 None with
  | Some w => should_drain (61 * SECOND)
      (snd (rotate example_bus no_estimate Drained (example_reads (61 * SECOND)) w)) = false
  | None => False
  end.
Proof.
  destruct (example_disk 100000 None) as [w|] eqn:E; [|by apply (none_absurd _ E); vm_compute].
  apply (rotate_no_spin example_bus no_estimate Drained (example_reads (61 * SECOND)) w).
  - split.
    + apply Z.ltb_lt, (some_field (λ w, 0 <? Writer.current_period w) _ _ _ E). by vm_compute.
    + intros c Hc. rewrite (some_field Writer.adaptive_rotation _ _ None E) in Hc by by vm_compute.
      discriminate Hc.
  - apply is_active_state, (some_field _ _ _ _ E). by vm_compute.
Defined.

(** The next segment's name is taken by a directory. *)
Definition example_blocked : option (Writer DiskFs.t) :=
  match start_writer example_bus 500 100000 (60 * SECOND) (60 * SECOND)
          None [] [] 4 (example_reads 0)
          (disk_new (lit "/t") (lit "trace")
             {[active_name (lit "trace") 5 := Directory 4096]}) with
  | Ok w => Some (snd (write_encoded_batch example_bus no_estimate (Batch.mk (lit "x") 1)
                         (example_reads 1) w))
  | Err _ => None
  end.

Example failed_rotate_spins_witness :
  match example_blocked with
  | Some w =>
      let '(res, w') := rotate example_bus no_estimate Drained (example_reads (61 * SECOND)) w in
      is_ok res = false ∧ Writer.state w' = WFinished ∧
      should_drain (122 * SECOND) w' = true ∧
      drained example_bus no_estimate (example_reads (122 * SECOND)) w' = (Ok true, w')
  | None => False
  end.
Proof.
  destruct example_blocked as [w|] eqn:E; [|by apply (none_absurd _ E); vm_compute].
  set (rot w := rotate example_bus no_estimate Drained (example_reads (61 * SECOND)) w).
  change (let '(res, w') := rot w in is_ok res = false ∧ Writer.state w' = WFinished ∧
    should_drain (122 * SECOND) w' = true ∧
    drained example_bus no_estimate (example_reads (122 * SECOND)) w' = (Ok true, w')).
  assert (is_ok (fst (rot w)) = false) as Hno
    by (apply (some_field (λ w, is_ok (fst (rot w))) _ _ _ E); by vm_compute).
  assert (Writer.next_rotation_time (snd (rot w)) = Some (121 * SECOND)) as Hd
    by (apply (some_field (λ w, Writer.next_rotation_time (snd (rot w))) _ _ _ E); by vm_compute).
  assert (Writer.next_drain_time (snd (rot w)) = 91 * SECOND) as Ht
    by (apply (some_field (λ w, Writer.next_drain_time (snd (rot w))) _ _ _ E); by vm_compute).
  destruct (rot w) as [[[]|e] w'] eqn:Erot; [done|]. cbn [fst snd] in *. split; [done|].
  destruct (failed_rotate_spins example_bus no_estimate Drained (example_reads (61 * SECOND)) w e w')
    as [Hs Hspin]; [apply (some_field _ _ _ _ E); by vm_compute|exact Erot|].
  split; [done|]. apply (Hspin (example_reads (122 * SECOND)) (121 * SECOND)); [done|..];
    rewrite ?Ht; unfold SECOND; cbn; lia.
Defined.

Example zero_min_period_sticks_witness :
  let c := AdaptiveRotationConfig.mk 0 (Some (60 * SECOND)) None in
  match example_disk 100000 (Some c) with
  | Some w => adapt_rotation_period (λ _ _ _, Some (30 * SECOND)) 4000 SECOND w = 0
  | None => False
  end.
Proof.
  intros c. destruct (example_disk 100000 (Some c)) as [w|] eqn:E; [|by apply (none_absurd _ E); vm_compute].
  apply (zero_min_period_sticks (λ _ _ _, Some (30 * SECOND)) 4000 SECOND w c).
  - apply (some_field _ _ _ _ E). by vm_compute.
  - done.
  - by vm_compute.
  - apply (some_field _ _ _ _ E). by vm_compute.
  - intros t x y e [= <-]. by vm_compute.
Defined.

Example create_in_memory_spec_witness :
  match create_in_memory example_bus 1000 300 (60 * SECOND) None [] (example_reads 0) with
  | Ok w => 300 <= MemChannel.max_total_size (Writer.fs w) ∧
            MemChannel.max_total_size (Writer.fs w) + 2 * 300 = 1000
  | Err _ => False
  end.
Proof.
  pose proof (create_in_memory_spec example_bus 1000 300 (60 * SECOND) None [] (example_reads 0)) as H.
  destruct (create_in_memory _ _ _ _ _ _ _) as [w|e] eqn:E; [|by vm_compute in E].
  destruct H as (_ & _ & _ & H1 & H2 & _); [lia|split; lia|unfold SECOND; lia|]. by split.
Defined.
