(* ===== verification/Segments.v ===== *)
(** * Whole runs of the segment writer

    What becomes of the batches handed to a [SegmentWriter] over any backend:
    the backend is wrapped to record what it is asked to seal, and an abstract
    book (the segments sealed so far, the one being written, the batches
    dropped) is shown to follow the writer through every operation, failures of
    the backend included.  The theorems read properties of sealed segments off
    the book, and decode them with the theorems of Stream and Sealed. *)

From Stdlib Require Import ZArith Lia.
From stdpp Require Import base list gmap strings option.
From coqutil Require Import Byte.
From S2P Require Import Prelude.
From S2P Require Import FieldValue.
From S2P Require Import Schema.
From S2P Require Import Codec.
From S2P Require Import Decoder.
From S2P Require Import EventEncoder.
From S2P Require Import Encoder.
From S2P Require Import Stream.
From S2P Require Import Derive.
From S2P Require Import Format.
From S2P Require Import Sealed.
From S2P Require Import MemRing.
From S2P Require Import SegmentFs.
From S2P Require Import SegmentWriter.

(** An encoded batch with the events in it. *)
Definition Encoded : Type := Encoder.t * list (SchemaEntry.t * Z * list FieldValue.t).

(** What a segment holds behind its clock anchor. *)
Inductive item : Type :=
| Metadata (clock : Z * Z) (entries : list (bytes * bytes))
| User (x : Encoded).

Module Segment.
Record t : Type := mk { anchor : Z * Z; items : list item }.
End Segment.

Definition add_item (s : Segment.t) (i : item) : Segment.t :=
  Segment.mk (Segment.anchor s) (Segment.items s ++ [i]).

(** The batches of the program in a segment. *)
Definition users (s : Segment.t) : list Encoded :=
  omap (λ i, match i with User x => Some x | Metadata _ _ => None end) (Segment.items s).

Lemma users_add_user s x : users (add_item s (User x)) = users s ++ [x].
Proof. unfold users. cbn. by rewrite omap_app. Qed.

Lemma users_add_metadata s c l : users (add_item s (Metadata c l)) = users s.
Proof. unfold users. cbn. by rewrite omap_app, app_nil_r. Qed.

(** ** The bytes of a segment *)

Section bytes.
Variable b : BusTypes.t.

Definition clock_entry (c : Z * Z) : SchemaEntry.t * Z * list FieldValue.t :=
  (clock_sync_schema, fst c, [FieldValue.Varint (snd c)]).

Definition anchor_batch (c : Z * Z) : Encoded :=
  (snd (write (ClockSyncEvent b (fst c) (snd c)) 1 encoder_new), [clock_entry c]).

Definition item_batch (i : item) : Encoded :=
  match i with
  | Metadata c l =>
      (match metadata_batch b c l with Ok e => e | Err _ => encoder_new end,
       [(segment_metadata_schema, fst c, [FieldValue.StringMap l]); clock_entry c])
  | User x => x
  end.

Definition seg_batches (s : Segment.t) : list Encoded :=
  anchor_batch (Segment.anchor s) :: map item_batch (Segment.items s).

Definition seg_bytes (s : Segment.t) : bytes := joined (seg_batches s).

Lemma seg_bytes_anchor s :
  seg_bytes s = finish (fst (anchor_batch (Segment.anchor s)))
                ++ joined (map item_batch (Segment.items s)).
Proof. done. Qed.

Lemma seg_bytes_add s i : seg_bytes (add_item s i) = seg_bytes s ++ finish (fst (item_batch i)).
Proof.
  unfold seg_bytes, seg_batches, joined. cbn [add_item Segment.items Segment.anchor map concat].
  rewrite !map_app, concat_app. cbn. by rewrite app_nil_r, app_assoc.
Qed.
End bytes.

Definition clock_ok (c : Z * Z) : Prop := fits 64 (fst c) ∧ fits 64 (snd c).

(** Entries the writer can still add its own to. *)
Definition metadata_ok (l : list (bytes * bytes)) : Prop :=
  entries_ok (l ++ [(SEGMENT_COMPLETE_KEY, lit "false")]).

Lemma metadata_ok_entries l : metadata_ok l → entries_ok l.
Proof.
  unfold metadata_ok, entries_ok. cbn [value_ok]. unfold blen.
  rewrite forallb_app, length_app, !andb_true_iff, !Z.leb_le. cbn [length].
  intros [? [? _]]. split; [lia|done].
Qed.

Lemma metadata_ok_seal l v :
  blen v < 2 ^ 32 → metadata_ok l → entries_ok (l ++ [(SEGMENT_COMPLETE_KEY, v)]).
Proof.
  intros Hv. unfold metadata_ok, entries_ok. cbn [value_ok]. unfold blen.
  rewrite !forallb_app, !length_app, !andb_true_iff. intros [? [? _]].
  split; [done|]. split; [done|]. cbn [forallb]. rewrite andb_true_r.
  apply andb_true_iff. split; [done|]. by apply Z.ltb_lt.
Qed.

Section encoded.
Context {type_entry : positive → SchemaEntry.t} {slot_entry : Z → SchemaEntry.t}.
Context (b : BusTypes.t) (Hbus : knows_bus type_entry slot_entry b).

Abbreviation batch_ok := (@batch_ok type_entry slot_entry).
Abbreviation ok := (encoder_ok type_entry slot_entry).

(** A typed event on the fast path, as a step of a run. *)
Lemma fast_run_step e d ev values arc :
  ok e → mirrors e d → @event_ok type_entry slot_entry ev values →
  0 < TraceEvent.type_slot ev < STATIC_WIRE_ID_LIMIT →
  SchemaRegistry.next_id (Encoder.registry e) + 1 < 2 ^ 16 →
  Encoder.dynamic_schema_cache e = ∅ →
  ∃ e' d', write ev arc e = (Ok tt, e') ∧ ok e' ∧ mirrors e' d' ∧
    @op_ok type_entry slot_entry (OpWrite ev values arc) e ∧
    SchemaRegistry.next_id (Encoder.registry e') = SchemaRegistry.next_id (Encoder.registry e) ∧
    Encoder.dynamic_schema_cache e' = ∅.
Proof.
  intros Hok Hm Hev Hslot Hroom Hcache.
  destruct (write_fast_step e d ev values arc Hok Hm Hev Hslot)
    as (e' & delta & w & Hrun & Hc & Hn & _).
  assert (@op_ok type_entry slot_entry (OpWrite ev values arc) e) as Hop.
  { split; [done|]. split; [done|apply Hev|done|]. intros entry id.
    rewrite Hcache, lookup_empty. done. }
  destruct (op_step (OpWrite ev values arc) e d Hok Hm Hop)
    as [(e1 & d1 & evs & Hr & (Hok1 & Hm1 & _) & _)|Hr];
    cbn [run_op] in Hr; rewrite Hrun in Hr; [|discriminate]. injection Hr as <-.
  exists e', d1. by rewrite Hc.
Qed.

Lemma anchor_batch_ok c :
  clock_ok c →
  write (ClockSyncEvent b (fst c) (snd c)) 1 encoder_new = (Ok tt, fst (anchor_batch b c)) ∧
  batch_ok (anchor_batch b c).
Proof using Hbus.
  intros [Hm Hr]. pose proof (clock_event_ok b Hbus (fst c) (snd c) Hm Hr) as Hev.
  destruct (fast_run_step encoder_new idle_decoder _ _ 1 (encoder_new_ok [])
              (idle_mirrors _ encoder_new_fresh) Hev) as (e & d & Hrun & _ & _ & Hop & _);
    [apply Hbus|done|done|].
  unfold anchor_batch. rewrite Hrun. split; [done|].
  eapply (batch_ok_new [_]), (runs_ok _ _ _ _ [] _ Hop Hrun). constructor.
Qed.

Lemma metadata_batch_ok c l :
  clock_ok c → entries_ok l →
  metadata_batch b c l = Ok (fst (item_batch b (Metadata c l))) ∧
  batch_ok (item_batch b (Metadata c l)).
Proof using Hbus.
  intros [Hm Hr] Hl. pose proof (metadata_event_ok b Hbus (fst c) l Hm Hl) as Hev1.
  pose proof (clock_event_ok b Hbus (fst c) (snd c) Hm Hr) as Hev2.
  destruct (fast_run_step encoder_new idle_decoder _ _ 1 (encoder_new_ok [])
              (idle_mirrors _ encoder_new_fresh) Hev1)
    as (e1 & d1 & Hrun1 & Hok1 & Hm1 & Hop1 & Hn1 & Hc1); [apply Hbus|done|done|].
  destruct (fast_run_step e1 d1 _ _ 2 Hok1 Hm1 Hev2)
    as (e2 & d2 & Hrun2 & _ & _ & Hop2 & _); [apply Hbus|by rewrite Hn1|done|].
  assert (metadata_batch b c l = Ok e2) as Hrun.
  { unfold metadata_batch, bind. rewrite Hrun1, Hrun2. done. }
  cbn [item_batch]. rewrite Hrun. split; [done|].
  eapply (batch_ok_new [_; _]), (runs_ok _ _ _ _ [_] _ Hop1 Hrun1). eapply (runs_ok _ _ _ _ [] _ Hop2 Hrun2).
  constructor.
Qed.

Definition item_ok (i : item) : Prop :=
  match i with
  | Metadata c l => clock_ok c ∧ entries_ok l
  | User x => batch_ok x
  end.

Lemma item_batch_ok i : item_ok i → batch_ok (item_batch b i).
Proof using Hbus. destruct i as [c l|x]; [|done]. intros [Hc Hl]. by apply metadata_batch_ok. Qed.

(** A well-formed segment: metadata comes before any batch of the program. *)
Record segment_ok (s : Segment.t) : Prop := {
  anchor_ok : clock_ok (Segment.anchor s);
  items_ok : Forall item_ok (Segment.items s);
  metadata_first : Segment.items s = [] ∨
    ∃ c l rest, Segment.items s = Metadata c l :: rest }.

Lemma segment_ok_add s i :
  segment_ok s → item_ok i → Segment.items s ≠ [] ∨ (∃ c l, i = Metadata c l) →
  segment_ok (add_item s i).
Proof.
  intros [Ha Hi Hf] Hok Hor. split; [done| |right].
  - apply list.Forall_app. split; [done|by constructor].
  - cbn. destruct Hf as [E|(c & l & rest & E)]; rewrite E in *.
    + destruct Hor as [?|(c & l & ->)]; [done|]. by exists c, l, [].
    + by exists c, l, (rest ++ [i]).
Qed.

Lemma seg_batches_ok s : segment_ok s → Forall batch_ok (seg_batches b s).
Proof using Hbus.
  intros [Ha Hi _]. constructor; [by apply anchor_batch_ok|].
  apply List.Forall_map. eapply list.Forall_impl; [exact Hi|]. apply item_batch_ok.
Qed.
End encoded.

(** ** The book *)

(** The segments sealed so far with the kind of their seal, the segment being
    written, the batches dropped with their event counts. *)
Module Book.
Record t : Type := mk {
  sealed : list (Segment.t * SealKind);
  active : option Segment.t;
  dropped : list (Encoded * Z) }.
End Book.

Definition sum_counts (l : list (Encoded * Z)) : Z := foldr (λ x n, snd x + n) 0 l.

(** The kind of the last seal; a run starts as if behind a clean one. *)
Definition last_kind (l : list (Segment.t * SealKind)) : SealKind :=
  from_option snd Drained (list.last l).

(** Every sealed segment ends with the entries of its seal, and these say
    that it is complete when its seal and the one before it are clean. *)
Fixpoint marked (prior : SealKind) (l : list (Segment.t * SealKind)) : Prop :=
  match l with
  | [] => True
  | (s, k) :: l =>
      (∃ items c md, Segment.items s
         = items ++ [Metadata c (md ++ [(SEGMENT_COMPLETE_KEY,
                       if is_clean k && is_clean prior then lit "true" else lit "false")])]) ∧
      marked k l
  end.

Lemma marked_items prior l : marked prior l → Forall (λ x, Segment.items (fst x) ≠ []) l.
Proof.
  revert prior. induction l as [|[s k] l IH]; intros prior; [constructor|].
  intros [(items & c & md & Hi) Hl]. constructor; [|by eapply IH].
  cbn [fst]. rewrite Hi. by destruct items.
Qed.

Lemma last_kind_cons x l : last_kind (x :: l) = from_option snd (snd x) (list.last l).
Proof. unfold last_kind. rewrite list.last_cons. by destruct (list.last l). Qed.

Lemma last_kind_snoc l x : last_kind (l ++ [x]) = snd x.
Proof. unfold last_kind. by rewrite last_snoc. Qed.

Lemma marked_snoc prior l s k :
  marked prior l → marked (from_option snd prior (list.last l)) [(s, k)] →
  marked prior (l ++ [(s, k)]).
Proof.
  revert prior. induction l as [|[s' k'] l IH]; intros prior Hl Hs; [done|].
  destruct Hl as [Hs' Hl]. split; [done|]. fold (marked k' (l ++ [(s, k)])). apply IH; [done|].
  rewrite list.last_cons in Hs. by destruct (list.last l).
Qed.

Section book.
Context {F : Type} `{SegmentFs F}.
Context {type_entry : positive → SchemaEntry.t} {slot_entry : Z → SchemaEntry.t}.
Context (b : BusTypes.t) (Hbus : knows_bus type_entry slot_entry b).
Variable estimate : Z → Z → Z → option Z.

Abbreviation segment_ok := (@segment_ok type_entry slot_entry).
Abbreviation item_ok := (@item_ok type_entry slot_entry).

Implicit Type w : Writer (traced F).

(** The segment under the pen. *)
Record writes (w : Writer (traced F)) (k : Book.t) (raw : RawEncoder.t) (need : bool)
    (s : Segment.t) : Prop := {
  writes_bytes : raw_into_inner raw = seg_bytes b s;
  writes_ok : segment_ok s;
  writes_metadata : need = false → Segment.items s ≠ [];
  writes_real : Writer.has_real_events w = negb (bool_decide (users s = []));
  writes_dropped : Book.dropped k = [];
  writes_prior : Writer.prior_seal_kind w = last_kind (Book.sealed k) }.

(** The writer is as the book says. *)
Record follows (w : Writer (traced F)) (k : Book.t) : Prop := {
  follows_trace : Forall2 (λ call x, SealCall.payload call = seg_bytes b (fst x))
                    (snd (Writer.fs w)) (Book.sealed k);
  follows_sealed : Forall (λ x, segment_ok (fst x)) (Book.sealed k);
  follows_marked : marked Drained (Book.sealed k);
  follows_metadata : metadata_ok (Writer.segment_metadata w);
  follows_dropped : Writer.dropped_events w = sum_counts (Book.dropped k);
  follows_state :
    match Writer.state w with
    | WFinished => Book.active k = None
    | WActive raw need => ∃ s, Book.active k = Some s ∧ writes w k raw need s
    end }.

(** Every batch the book knows of, in the order it came. *)
Definition accounted (k : Book.t) : list Encoded :=
  concat (map (λ x, users (fst x)) (Book.sealed k))
  ++ from_option users [] (Book.active k) ++ map fst (Book.dropped k).

(** What stays when only the timers, the counters, the closed files, the
    backend's own state and the index change. *)
Record same_core (w w' : Writer (traced F)) : Prop := {
  same_trace : snd (Writer.fs w') = snd (Writer.fs w);
  same_metadata : Writer.segment_metadata w' = Writer.segment_metadata w;
  same_dropped : Writer.dropped_events w' = Writer.dropped_events w;
  same_prior : Writer.prior_seal_kind w' = Writer.prior_seal_kind w;
  same_real : Writer.has_real_events w' = Writer.has_real_events w }.

#[global] Instance same_core_preorder : PreOrder same_core.
Proof.
  split; [by split|]. intros w1 w2 w3 [] []. split; congruence.
Qed.

(** A writer that stopped while it held no batch of the program. *)
Definition stopped (k : Book.t) : Book.t := Book.mk (Book.sealed k) None (Book.dropped k).

Lemma follows_same w w' k :
  follows w k → same_core w w' → Writer.state w' = Writer.state w → follows w' k.
Proof.
  intros [] [] Hs. split; try congruence. rewrite Hs.
  destruct (Writer.state w); [|done]. destruct follows_state0 as (s & ? & []).
  exists s. split; [done|]. by split; try congruence.
Qed.

Lemma follows_stop w w' k :
  follows w k → same_core w w' → Writer.state w' = WFinished → follows w' (stopped k).
Proof.
  intros [] [] Hs. split; cbn [stopped Book.sealed Book.active Book.dropped]; try congruence.
  by rewrite Hs.
Qed.

Lemma stopped_accounted k :
  from_option users [] (Book.active k) = [] → accounted (stopped k) = accounted k.
Proof. intros E. unfold accounted. cbn. by rewrite E. Qed.

(** ** Parts of the operations *)

Lemma evict_closed_trace max active closed (f : traced F) :
  snd (snd (evict_closed max active closed f)) = snd f.
Proof.
  revert f. induction closed as [|[i s] closed IH]; intros [f l]; cbn [evict_closed].
  - by destruct (_ <? _).
  - destruct (_ <? _); [|done]. by rewrite IH.
Qed.

Lemma evict_oldest_same w :
  same_core w (evict_oldest w) ∧
  (Writer.state (evict_oldest w) = Writer.state w ∨ Writer.state (evict_oldest w) = WFinished).
Proof.
  unfold evict_oldest. destruct (negb _); [by split; [|left]|].
  destruct (evict_closed _ _ _ _) as [c f] eqn:E.
  assert (snd f = snd (Writer.fs w)) as Ht
    by (rewrite <- (evict_closed_trace (Writer.max_total_size w) (active_bytes w)
                      (Writer.closed_files w) (Writer.fs w)); by rewrite E).
  destruct (_ <? _); (split; [by split|]); [by right|by left].
Qed.

(** More metadata in the active segment. *)
Lemma follows_metadata_written w k raw need s c l w' need' :
  follows w k → Writer.state w = WActive raw need → Book.active k = Some s →
  clock_ok c → entries_ok l → same_core w w' → (need' = true → need = true) →
  Writer.state w' = WActive (write_raw raw (finish (fst (item_batch b (Metadata c l))))) need' →
  follows w' (Book.mk (Book.sealed k) (Some (add_item s (Metadata c l))) (Book.dropped k)).
Proof using Hbus.
  intros [] Hst Ha Hc Hl [] Hneed Hst'. rewrite Hst in follows_state0.
  destruct follows_state0 as (s' & Ha' & []). rewrite Ha in Ha'. injection Ha' as <-.
  split; cbn [Book.sealed Book.active Book.dropped]; try congruence.
  rewrite Hst'. exists (add_item s (Metadata c l)). split; [done|]. split.
  - by rewrite seg_bytes_add, <- writes_bytes0.
  - apply segment_ok_add; [done|by split|]. right. by exists c, l.
  - intros _. cbn [add_item Segment.items]. by destruct (Segment.items s).
  - rewrite users_add_metadata. congruence.
  - done.
  - cbn [Book.sealed]. congruence.
Qed.

Definition reads_ok (r : Reads.t) : Prop :=
  clock_ok (Reads.metadata_clock r) ∧ clock_ok (Reads.seal_clock r) ∧
  clock_ok (Reads.start_clock r).

(** [write_metadata_if_needed] never fails, and afterwards metadata is there. *)
Lemma write_metadata_follows w k r :
  follows w k → reads_ok r →
  ∃ w' k', write_metadata_if_needed b r w = (Ok tt, w') ∧ follows w' k' ∧
    accounted k' = accounted k ∧ Book.sealed k' = Book.sealed k ∧
    snd (Writer.fs w') = snd (Writer.fs w) ∧
    ∀ raw need, Writer.state w' = WActive raw need → need = false.
Proof using Hbus.
  intros Hf (Hc & _). pose proof (follows_state _ _ Hf) as Hs.
  unfold write_metadata_if_needed.
  destruct (Writer.state w) as [raw [|]|] eqn:E.
  - destruct Hs as (s & Ha & Hw).
    assert (entries_ok (Writer.segment_metadata w)) as Hl by apply metadata_ok_entries, Hf.
    unfold write_segment_metadata.
    destruct (metadata_batch_ok b Hbus _ _ Hc Hl) as [-> _].
    eexists _, _. split; [done|]. split.
    { eapply (follows_metadata_written w k raw true s _ _ _ false Hf E Ha Hc Hl);
        [|done|reflexivity]. by split. }
    split; [|split; [done|split; [done|cbn; by intros ? ? [= _ <-]]]].
    unfold accounted. cbn [Book.sealed Book.active Book.dropped from_option].
    by rewrite users_add_metadata, Ha.
  - exists w, k. split_and!; try done. rewrite E. by intros ? ? [= _ <-].
  - exists w, k. split_and!; try done. by rewrite E.
Qed.

(** The batches stay accounted for, and what is sealed is sealed with [kind]. *)
Record moves (kind : SealKind) (k k' : Book.t) : Prop := {
  moves_accounted : accounted k' = accounted k;
  moves_sealed : ∃ l, Book.sealed k' = Book.sealed k ++ l ∧ Forall (λ x, snd x = kind) l }.

#[global] Instance moves_preorder kind : PreOrder (moves kind).
Proof.
  split.
  - intros k. split; [done|]. exists []. by rewrite app_nil_r.
  - intros k1 k2 k3 [H1 (l1 & E1 & F1)] [H2 (l2 & E2 & F2)]. split; [congruence|].
    exists (l1 ++ l2). rewrite E2, E1, app_assoc. split; [done|]. by apply list.Forall_app.
Qed.

Lemma moves_stay kind k k' :
  accounted k' = accounted k → Book.sealed k' = Book.sealed k → moves kind k k'.
Proof. intros H1 H2. split; [done|]. exists []. by rewrite app_nil_r. Qed.

(** The segment under the pen, with the entries of its seal. *)
Definition with_seal (kind : SealKind) (r : Reads.t) w (s : Segment.t) : Segment.t :=
  add_item s (Metadata (Reads.seal_clock r) (seal_entries kind w)).

Lemma write_seal_follows w k r kind raw need :
  follows w k → reads_ok r → Writer.state w = WActive raw need →
  ∃ raw' s, let w' := write_seal_metadata b kind r w in
    let k' := Book.mk (Book.sealed k) (Some (with_seal kind r w s)) (Book.dropped k) in
    Book.active k = Some s ∧ Writer.state w' = WActive raw' need ∧ same_core w w' ∧
    follows w' k' ∧ accounted k' = accounted k ∧
    marked (last_kind (Book.sealed k)) [(with_seal kind r w s, kind)].
Proof using Hbus.
  intros Hf (_ & Hc & _) E. pose proof (follows_state _ _ Hf) as Hs. rewrite E in Hs.
  destruct Hs as (s & Ha & Hw). cbv zeta. unfold write_seal_metadata. rewrite E.
  assert (entries_ok (seal_entries kind w)) as Hl.
  { apply metadata_ok_seal; [by destruct (_ && _)|apply Hf]. }
  unfold write_segment_metadata. destruct (metadata_batch_ok b Hbus _ _ Hc Hl) as [-> _].
  eexists _, s. split; [done|]. split; [reflexivity|]. split; [by split|]. split_and!.
  - eapply (follows_metadata_written w k raw need s _ _ _ need Hf E Ha Hc Hl);
      [by split|done|reflexivity].
  - unfold accounted, with_seal. cbn [Book.sealed Book.active Book.dropped from_option].
    by rewrite users_add_metadata, Ha.
  - cbn [marked]. split; [|done]. exists (Segment.items s), (Reads.seal_clock r),
      (Writer.segment_metadata w). unfold with_seal, seal_entries.
    by rewrite <- (writes_prior _ _ _ _ _ Hw).
Qed.

(** Sealing moves the open segment to the sealed ones, whatever the backend
    answers. *)
Lemma seal_active_follows w w1 k r kind raw need s :
  follows w k → Writer.state w = WActive raw need → Book.active k = Some s →
  marked (last_kind (Book.sealed k)) [(s, kind)] →
  snd (Writer.fs w1) = snd (Writer.fs w) →
  Writer.segment_metadata w1 = Writer.segment_metadata w →
  Writer.dropped_events w1 = Writer.dropped_events w →
  let w' := snd (seal_active raw r w1) in
  let k' := Book.mk (Book.sealed k ++ [(s, kind)]) None (Book.dropped k) in
  follows w' k' ∧ Writer.state w' = WFinished ∧ moves kind k k' ∧
  Writer.prior_seal_kind w' = Writer.prior_seal_kind w1 ∧
  length (snd (Writer.fs w')) = S (length (snd (Writer.fs w))).
Proof.
  intros [] E Ha Hm Ht Hmd Hd. rewrite E in follows_state0.
  destruct follows_state0 as (s' & Ha' & []). rewrite Ha in Ha'. injection Ha' as <-. cbv zeta.
  unfold seal_active. cbn [fs_seal traced_fs]. destruct (Writer.fs w1) as [f l] eqn:Efs.
  cbn [snd] in Ht. subst l.
  destruct (fs_seal (raw_into_inner raw) _ _ r f) as [res f'] eqn:Eseal.
  set (k' := Book.mk _ None _). set (call := SealCall.mk _ _ _).
  assert (∀ w', snd (Writer.fs w') = snd (Writer.fs w) ++ [call] →
    Writer.segment_metadata w' = Writer.segment_metadata w1 →
    Writer.dropped_events w' = Writer.dropped_events w1 → Writer.state w' = WFinished →
    follows w' k') as Hdone.
  { intros w' H1 H2 H3 H4. split; cbn [Book.sealed Book.active Book.dropped k'].
    - rewrite H1. apply Forall2_app; [done|]. by constructor.
    - apply list.Forall_app. split; [done|]. by constructor.
    - by apply marked_snoc.
    - congruence.
    - congruence.
    - by rewrite H4. }
  assert (moves kind k k') as Hmv.
  { split; [|exists [(s, kind)]; split; [done|by constructor]].
    unfold accounted, k'. cbn [Book.sealed Book.active Book.dropped from_option].
    rewrite Ha, map_app, concat_app. cbn [map concat from_option fst].
    by rewrite !app_nil_r, <- app_assoc. }
  assert (∀ w', snd (Writer.fs w') = snd (Writer.fs w) ++ [call] →
    length (snd (Writer.fs w')) = S (length (snd (Writer.fs w)))) as Hlen
    by (intros w' ->; rewrite length_app; cbn; lia).
  destruct res as [x|[]]; [destruct (is_disk _)|..];
    (split; [by apply Hdone|split; [done|split; [done|split; [done|by apply Hlen]]]]).
Qed.

Lemma start_follows w k raw need c :
  follows w k → Book.active k = None → Book.dropped k = [] → clock_ok c →
  Writer.prior_seal_kind w = last_kind (Book.sealed k) →
  prepare_segment b c = Ok (WActive raw need) →
  ∀ w', Writer.state w' = WActive raw need → snd (Writer.fs w') = snd (Writer.fs w) →
    Writer.segment_metadata w' = Writer.segment_metadata w →
    Writer.dropped_events w' = Writer.dropped_events w → Writer.has_real_events w' = false →
    Writer.prior_seal_kind w' = Writer.prior_seal_kind w →
    follows w' (Book.mk (Book.sealed k) (Some (Segment.mk c [])) (Book.dropped k)).
Proof using Hbus.
  intros [] Ha Hd Hc Hp Hprep w' Hst Ht Hmd Hdr Hreal Hprior.
  unfold prepare_segment in Hprep. destruct (anchor_batch_ok b Hbus c Hc) as [Hrun _].
  rewrite Hrun in Hprep. injection Hprep as <- <-.
  split; cbn [Book.sealed Book.active Book.dropped]; try congruence. rewrite Hst.
  eexists. split; [done|]. split; try done.
  - unfold seg_bytes, seg_batches, joined. cbn [Segment.anchor Segment.items map concat].
    by rewrite app_nil_r.
  - by split; [|constructor|left].
  - cbn [Book.sealed]. congruence.
Qed.

Lemma prepare_segment_ok c : clock_ok c → ∃ raw, prepare_segment b c = Ok (WActive raw true).
Proof using Hbus.
  intros Hc. destruct (anchor_batch_ok b Hbus c Hc) as [Hrun _]. unfold prepare_segment.
  rewrite Hrun. by eexists.
Qed.

Lemma open_next_follows w k r kind :
  follows w k → Writer.state w = WFinished → Book.dropped k = [] → reads_ok r →
  Writer.prior_seal_kind w = last_kind (Book.sealed k) →
  let w' := snd (open_next b r w) in
  ∃ k', follows w' k' ∧ moves kind k k' ∧ snd (Writer.fs w') = snd (Writer.fs w).
Proof using Hbus.
  intros Hf E Hd (_ & _ & Hc) Hp. cbv zeta. unfold open_next.
  assert (Book.active k = None) as Ha
    by (pose proof (follows_state _ _ Hf) as Hs; by rewrite E in Hs).
  set (w1 := Writer.set_next_index w _).
  destruct (fs_create_segment (Writer.next_index w) (Writer.fs w1)) as [res f] eqn:Ecreate.
  assert (snd f = snd (Writer.fs w)) as Ht.
  { cbn [fs_create_segment traced_fs] in Ecreate. change (Writer.fs w1) with (Writer.fs w) in Ecreate.
    destruct (Writer.fs w) as [f0 l]. destruct (fs_create_segment _ f0) in Ecreate.
    by injection Ecreate as _ <-. }
  destruct res as [u|e].
  - destruct (prepare_segment_ok _ Hc) as [raw Hprep]. rewrite Hprep. cbn [snd].
    set (w2 := Writer.set_opened _ _ _ _ _).
    assert (follows w2 (Book.mk (Book.sealed k) (Some (Segment.mk (Reads.start_clock r) []))
                          (Book.dropped k))) as Hf2 by by eapply (start_follows w k).
    destruct (evict_oldest_same w2) as [Hsame [Hst|Hst]].
    + eexists. split; [by eapply follows_same|].
      split; [|by rewrite (same_trace _ _ Hsame)]. apply moves_stay; [|done].
      unfold accounted. cbn. by rewrite Ha.
    + eexists. split; [by eapply follows_stop|].
      split; [|by rewrite (same_trace _ _ Hsame)]. apply moves_stay; [|done].
      unfold accounted. cbn. by rewrite Ha.
  - exists k. split; [|split; [reflexivity|exact Ht]].
    apply (follows_same w); [done| |done]. by split.
Qed.

(** ** The operations *)

Lemma rotate_follows w k r kind :
  follows w k → reads_ok r →
  let w' := snd (rotate b estimate kind r w) in
  ∃ k', follows w' k' ∧ moves kind k k'.
Proof using Hbus.
  intros Hf Hr. cbv zeta. unfold rotate. destruct (Writer.state w) as [raw need|] eqn:E.
  2:{ by exists k. }
  destruct (write_seal_follows w k r kind raw need Hf Hr E)
    as (raw' & s & Ha & E1 & Hsame & Hf1 & Hacc & Hm). cbv zeta in Hf1, Hacc.
  set (w1 := write_seal_metadata b kind r w) in *.
  set (k1 := Book.mk (Book.sealed k) _ _) in *.
  set (w3 := advance_timers estimate _ _).
  change (Writer.state w3) with (Writer.state w1). rewrite E1.
  destruct (seal_active_follows w1 w3 k1 r kind raw' need _ Hf1 E1 eq_refl Hm eq_refl eq_refl eq_refl)
    as (Hf4 & E4 & Hmv & Hp & _). cbv zeta in Hf4, E4, Hmv, Hp.
  destruct (seal_active raw' r w3) as [[u|e] w4]; cbn [snd] in *.
  2:{ eexists. split; [exact Hf4|]. etrans; [by apply moves_stay|exact Hmv]. }
  assert (Book.dropped k = []) as Hd.
  { pose proof (follows_state _ _ Hf) as Hs. rewrite E in Hs. by destruct Hs as (? & _ & []). }
  edestruct (open_next_follows w4 _ r kind Hf4 E4) as (k5 & Hf5 & Hmv5 & _); [exact Hd|done| |].
  { rewrite Hp. cbn [Book.sealed]. by rewrite last_kind_snoc. }
  exists k5. split; [exact Hf5|]. etrans; [|exact Hmv5]. etrans; [by apply moves_stay|exact Hmv].
Qed.

Lemma mark_done_follows w k : follows w k → follows (mark_done w) k.
Proof.
  intros Hf. apply (follows_same w); [done| |done]. split; try done. cbn.
  by destruct (Writer.fs w).
Qed.

Lemma finalize_follows w k r :
  follows w k → reads_ok r →
  let w' := snd (finalize b r w) in ∃ k', follows w' k' ∧ moves Drained k k'.
Proof using Hbus.
  intros Hf Hr. cbv zeta. unfold finalize. destruct (Writer.state w) as [raw need|] eqn:E.
  2:{ exists k. split; [by apply mark_done_follows|done]. }
  destruct (write_seal_follows w k r Drained raw need Hf Hr E)
    as (raw' & s & Ha & E1 & Hsame & Hf1 & Hacc & Hm). cbv zeta in Hf1, Hacc.
  pose proof (follows_state _ _ Hf) as Hs. rewrite E, Ha in Hs.
  destruct Hs as (s0 & Hs0 & Hw). injection Hs0 as <-.
  set (w1 := write_seal_metadata b Drained r w) in *.
  set (k1 := Book.mk (Book.sealed k) _ _) in *.
  set (w2 := Writer.set_seals w1 _ _).
  change (Writer.state w2) with (Writer.state w1). rewrite E1. unfold finish_active.
  destruct (Writer.has_real_events w2 || _) eqn:Ereal.
  - destruct (seal_active_follows w1 w2 k1 r Drained raw' need _ Hf1 E1 eq_refl Hm eq_refl eq_refl
      eq_refl) as (Hf4 & E4 & Hmv & _). cbv zeta in Hf4, E4, Hmv.
    assert (moves Drained k (Book.mk (Book.sealed k1 ++ [(with_seal Drained r w s, Drained)]) None
                               (Book.dropped k1))) as Hmv' by (etrans; [by apply moves_stay|done]).
    destruct (seal_active raw' r w2) as [[u|e] w4]; cbn [snd] in *;
      (eexists; split; [apply mark_done_follows|exact Hmv']); [|exact Hf4].
    destruct (evict_oldest_same w4) as [Hsame4 Hst]. rewrite E4 in Hst.
    eapply follows_same; [exact Hf4|exact Hsame4|]. rewrite E4. by destruct Hst.
  - apply orb_false_iff in Ereal as [Ereal _].
    assert (users s = []) as Hu.
    { change (Writer.has_real_events w2) with (Writer.has_real_events w1) in Ereal.
      rewrite (same_real _ _ Hsame), (writes_real _ _ _ _ _ Hw) in Ereal.
      apply negb_false_iff in Ereal. by apply bool_decide_eq_true in Ereal. }
    destruct (fs_remove_active (Writer.active_path w2) (Writer.fs w2)) as [res f] eqn:Erem.
    assert (snd f = snd (Writer.fs w1)) as Ht.
    { cbn [fs_remove_active traced_fs] in Erem. change (Writer.fs w2) with (Writer.fs w1) in Erem.
      destruct (Writer.fs w1) as [f0 l]. destruct (fs_remove_active _ f0) in Erem.
      by injection Erem as _ <-. }
    set (w3 := Writer.set_fs (Writer.set_state w2 WFinished) f).
    assert (∀ w', Writer.state w' = WFinished → snd (Writer.fs w') = snd (Writer.fs w1) →
      Writer.segment_metadata w' = Writer.segment_metadata w1 →
      Writer.dropped_events w' = Writer.dropped_events w1 → follows w' (stopped k1)) as Hdone.
    { intros w' H1 H2 H3 H4. destruct Hf1.
      split; cbn [stopped Book.sealed Book.active Book.dropped]; try congruence. by rewrite H1. }
    assert (moves Drained k (stopped k1)) as Hmv.
    { apply moves_stay; [|done]. rewrite stopped_accounted; [done|]. cbn [k1 Book.active from_option].
      unfold with_seal. by rewrite users_add_metadata. }
    destruct (evict_oldest_same w3) as [[] Hst].
    exists (stopped k1). split; [|exact Hmv].
    destruct res as [u|[]]; apply mark_done_follows, Hdone; try done;
      (by rewrite ?same_trace0) || by destruct Hst.
Qed.

Lemma drained_follows w k r :
  follows w k → reads_ok r →
  let w' := snd (drained b estimate r w) in ∃ k', follows w' k' ∧ moves Drained k k'.
Proof using Hbus.
  intros Hf Hr. cbv zeta. unfold drained. destruct (negb _); [by exists k|].
  destruct (match Writer.next_rotation_time w with Some _ => _ | None => _ end).
  - destruct (rotate_follows w k r Drained Hf Hr) as (k' & Hf' & Hmv). exists k'.
    by destruct (rotate _ _ _ _ _) as [[u|e] w'].
  - exists k. split; [|done]. apply (follows_same w); [done| |done]. by split.
Qed.

Lemma update_metadata_follows w k entries :
  follows w k → metadata_ok (snd (merge (Writer.segment_metadata w) entries)) →
  follows (update_segment_metadata entries w) k.
Proof.
  intros Hf Hm. unfold update_segment_metadata.
  destruct (merge _ _) as [[|] merged]; [|done]. cbn [snd] in Hm.
  destruct Hf. destruct (Writer.state w) as [raw need|] eqn:E; split; try done; cbn.
  - destruct follows_state0 as (s & Ha & []). exists s. split; [done|]. by split.
  - by rewrite E.
Qed.

(** A batch of the program: written, or dropped by a writer that is finished. *)
Lemma write_batch_follows w k r x n :
  follows w k → reads_ok r → 0 <= n → @batch_ok type_entry slot_entry x →
  let w' := snd (write_encoded_batch b estimate (Batch.mk (finish (fst x)) n) r w) in
  ∃ k0 k', follows w' k' ∧ moves Overflow k0 k' ∧ Book.sealed k0 = Book.sealed k ∧
    accounted k0 = accounted k ++ (if 0 <? n then [x] else []).
Proof using Hbus.
  intros Hf Hr Hn Hx. cbv zeta. unfold write_encoded_batch.
  destruct (write_metadata_follows w k r Hf Hr) as (w1 & k1 & -> & Hf1 & Hacc & Hsealed & _ & Hneed).
  cbn [Batch.event_count Batch.encoded_bytes].
  destruct (Z.ltb_spec 0 n) as [Hpos|Hzero].
  2:{ exists k1, k1. rewrite app_nil_r. split_and!; try done.
      destruct (Writer.state w1) as [|] eqn:E; [done|]. apply (follows_same w1); [done| |done].
      split; try done. cbn. lia. }
  destruct Hf1. destruct (Writer.state w1) as [raw need|] eqn:E.
  - destruct follows_state0 as (s & Ha & []).
    set (w2 := Writer.set_real _ true).
    set (k2 := Book.mk (Book.sealed k1) (Some (add_item s (User x))) (Book.dropped k1)).
    assert (follows w2 k2) as Hf2.
    { split; try done. exists (add_item s (User x)). split; [done|]. split; try done.
      - by rewrite seg_bytes_add, <- writes_bytes0.
      - apply segment_ok_add; [done|done|]. left. by eapply writes_metadata0, Hneed.
      - cbn [add_item Segment.items]. by destruct (Segment.items s).
      - rewrite users_add_user. by destruct (users s). }
    exists k2. unfold maybe_rotate.
    assert (Writer.state w2 = WActive (write_raw raw (finish (fst x))) need) as -> by done.
    assert (accounted k2 = accounted k ++ [x]) as Hacc2.
    { rewrite <- Hacc. unfold accounted, k2. cbn [Book.sealed Book.active Book.dropped from_option].
      rewrite Ha, writes_dropped0, users_add_user. cbn [from_option map].
      by rewrite !app_nil_r, app_assoc. }
    match goal with |- context [if ?c then _ else _] => destruct c end.
    + destruct (rotate_follows w2 k2 r Overflow Hf2 Hr) as (k3 & Hf3 & Hmv). by exists k3.
    + by exists k2.
  - set (k2 := Book.mk (Book.sealed k1) None (Book.dropped k1 ++ [(x, n)])).
    assert (accounted k2 = accounted k ++ [x]) as Hacc2.
    { rewrite <- Hacc. unfold accounted, k2. cbn [Book.sealed Book.active Book.dropped from_option].
      rewrite follows_state0, map_app. cbn. by rewrite !app_assoc. }
    exists k2, k2. split_and!; try done. split; try done.
    + cbn [Book.dropped k2 snd Writer.dropped_events Writer.set_dropped].
      unfold sum_counts in *. rewrite follows_dropped0. clear.
      induction (Book.dropped k1) as [|[y m] l IH]; cbn; [lia|]. cbn in IH. lia.
    + cbn. by rewrite E.
Qed.

Lemma start_writer_follows max_file max_total period first adaptive metadata closed index r
    (f : F) w :
  start_writer b max_file max_total period first adaptive metadata closed index r (f, []) = Ok w →
  reads_ok r → metadata_ok metadata →
  ∃ k, follows w k ∧ Book.sealed k = [] ∧ accounted k = [].
Proof using Hbus.
  unfold start_writer. cbn [fs_create_segment traced_fs].
  destruct (fs_create_segment index f) as [[u|e] f']; [|done].
  intros Hrun (_ & _ & Hc) Hm. destruct (prepare_segment_ok _ Hc) as [raw Hprep].
  rewrite Hprep in Hrun. injection Hrun as <-.
  unfold prepare_segment in Hprep. destruct (anchor_batch_ok b Hbus _ Hc) as [Hrun _].
  rewrite Hrun in Hprep. injection Hprep as <-.
  exists (Book.mk [] (Some (Segment.mk (Reads.start_clock r) [])) []).
  split; [|done]. split; try done. eexists. split; [done|]. split; try done.
  - unfold seg_bytes, seg_batches, joined. cbn [Segment.anchor Segment.items map concat].
    by rewrite app_nil_r.
  - by split; [|constructor|left].
Qed.
End book.

(** ** Runs *)

(** A call on the writer; [UpdateMetadata] and [WriteMetadata] are what the
    metadata sources of a recorder cause. *)
Inductive call : Type :=
| Write (x : Encoded) (count : Z)
| UpdateMetadata (entries : list (bytes * bytes))
| WriteMetadata
| CheckDrained
| Finalize.

(** The seal a call may cause. *)
Definition seal_kind (o : call) : SealKind :=
  match o with Write _ _ => Overflow | _ => Drained end.

(** The batches a call hands over. *)
Definition offered (o : call) : list Encoded :=
  match o with Write x n => if 0 <? n then [x] else [] | _ => [] end.

Section runs.
Context {F : Type} `{SegmentFs F}.
Context {type_entry : positive → SchemaEntry.t} {slot_entry : Z → SchemaEntry.t}.
Variable b : BusTypes.t.
Variable estimate : Z → Z → Z → option Z.

Definition perform (o : call) (r : Reads.t) (w : Writer F) : Writer F :=
  match o with
  | Write x n => snd (write_encoded_batch b estimate (Batch.mk (finish (fst x)) n) r w)
  | UpdateMetadata l => update_segment_metadata l w
  | WriteMetadata => snd (write_metadata_if_needed b r w)
  | CheckDrained => snd (drained b estimate r w)
  | Finalize => snd (finalize b r w)
  end.

Definition run (ops : list (call * Reads.t)) (w : Writer F) : Writer F :=
  foldl (λ w '(o, r), perform o r w) w ops.

(** What the callers guarantee: a batch is the stream of an encoder, the clocks
    are machine words, the entries fit the wire. *)
Definition call_ok (o : call) (w : Writer F) : Prop :=
  match o with
  | Write x n => 0 <= n ∧ @batch_ok type_entry slot_entry x
  | UpdateMetadata l => metadata_ok (snd (merge (Writer.segment_metadata w) l))
  | _ => True
  end.

Fixpoint run_ok (ops : list (call * Reads.t)) (w : Writer F) : Prop :=
  match ops with
  | [] => True
  | (o, r) :: ops => call_ok o w ∧ reads_ok r ∧ run_ok ops (perform o r w)
  end.
End runs.

(** The kinds of the seals of a recorded run, from the calls that caused them. *)
Fixpoint seal_kinds {F : Type} `{SegmentFs F} (b : BusTypes.t) (estimate : Z → Z → Z → option Z)
    (ops : list (call * Reads.t)) (w : Writer (traced F)) : list SealKind :=
  match ops with
  | [] => []
  | (o, r) :: ops =>
      let w' := perform b estimate o r w in
      replicate (length (snd (Writer.fs w')) - length (snd (Writer.fs w))) (seal_kind o)
      ++ seal_kinds b estimate ops w'
  end.

Section run_lemmas.
Context {F : Type} `{SegmentFs F}.
Context {type_entry : positive → SchemaEntry.t} {slot_entry : Z → SchemaEntry.t}.
Context (b : BusTypes.t) (Hbus : knows_bus type_entry slot_entry b).
Variable estimate : Z → Z → Z → option Z.

Abbreviation follows := (@follows F type_entry slot_entry b).
Abbreviation run_ok := (@run_ok (traced F) _ type_entry slot_entry b estimate).

Lemma perform_follows o r (w : Writer (traced F)) k :
  follows w k → reads_ok r → @call_ok (traced F) type_entry slot_entry o w →
  ∃ k0 k', follows (perform b estimate o r w) k' ∧ moves (seal_kind o) k0 k' ∧
    Book.sealed k0 = Book.sealed k ∧ accounted k0 = accounted k ++ offered o.
Proof using Hbus.
  intros Hf Hr Ho. destruct o as [x n|l| | |]; cbn [perform seal_kind offered call_ok] in *.
  - destruct Ho as [Hn Hx]. by apply (write_batch_follows b Hbus estimate w k r x n).
  - exists k, k. rewrite app_nil_r. split; [by apply update_metadata_follows|by split].
  - destruct (write_metadata_follows b Hbus w k r Hf Hr) as (w' & k' & -> & Hf' & Ha & Hs & _).
    exists k', k'. by rewrite app_nil_r.
  - destruct (drained_follows b Hbus estimate w k r Hf Hr) as (k' & Hf' & Hmv).
    exists k, k'. by rewrite app_nil_r.
  - destruct (finalize_follows b Hbus w k r Hf Hr) as (k' & Hf' & Hmv).
    exists k, k'. by rewrite app_nil_r.
Qed.

Lemma follows_length w k : follows w k → length (snd (Writer.fs w)) = length (Book.sealed k).
Proof. intros []. by eapply Forall2_length. Qed.

Lemma kinds_replicate {A} (l : list (A * SealKind)) kind :
  Forall (λ x, snd x = kind) l → map snd l = replicate (length l) kind.
Proof. induction 1 as [|x l Hx _ IH]; [done|]. cbn. by rewrite Hx, IH. Qed.

Lemma run_follows ops w k :
  follows w k → run_ok ops w →
  ∃ k', follows (run b estimate ops w) k' ∧
    accounted k' = accounted k ++ concat (map (λ x, offered (fst x)) ops) ∧
    map snd (Book.sealed k') = map snd (Book.sealed k) ++ seal_kinds b estimate ops w.
Proof using Hbus.
  revert w k. induction ops as [|[o r] ops IH]; intros w k Hf Hops.
  { exists k. cbn. by rewrite !app_nil_r. }
  destruct Hops as (Ho & Hr & Hops).
  destruct (perform_follows o r w k Hf Hr Ho) as (k0 & k1 & Hf1 & [Ha1 (l & Hs1 & Hk)] & Hs0 & Ha0).
  destruct (IH _ _ Hf1 Hops) as (k' & Hf' & Ha' & Hs').
  exists k'. split; [exact Hf'|]. split.
  - cbn [map concat fst]. by rewrite Ha', Ha1, Ha0, <- app_assoc.
  - cbn [seal_kinds]. rewrite Hs', Hs1, map_app, <- app_assoc, Hs0. f_equal. f_equal.
    rewrite (follows_length _ _ Hf1), (follows_length _ _ Hf), Hs1, length_app, Hs0.
    rewrite (kinds_replicate l _ Hk). f_equal. lia.
Qed.
End run_lemmas.

Section start.
Context {F : Type} `{SegmentFs F}.
Context {type_entry : positive → SchemaEntry.t} {slot_entry : Z → SchemaEntry.t}.
Variable b : BusTypes.t.

(** A writer right behind a constructor, over any backend, nothing recorded. *)
Definition started (w : Writer (traced F)) : Prop :=
  ∃ max_file max_total period first adaptive metadata closed index r f w0,
    start_writer b max_file max_total period first adaptive metadata closed index r (f, [])
    = Ok w0 ∧
    (w = w0 ∨ w = evict_oldest w0) ∧ reads_ok r ∧ metadata_ok metadata.

Lemma started_follows w :
  knows_bus type_entry slot_entry b → started w →
  ∃ k, @follows F type_entry slot_entry b w k ∧ Book.sealed k = [] ∧ accounted k = [].
Proof.
  intros Hbus (mf & mt & p & fp & ad & md & cl & i & r & f & w0 & Hrun & Hw & Hr & Hm).
  destruct (start_writer_follows b Hbus mf mt p fp ad md cl i r f w0 Hrun Hr Hm)
    as (k & Hf & Hs & Ha).
  destruct Hw as [->| ->]; [by exists k|].
  destruct (evict_oldest_same w0) as [Hsame [Hst|Hst]].
  - exists k. split; [|done]. by eapply follows_same.
  - exists (stopped k). split; [by eapply follows_stop|]. split; [done|].
    rewrite stopped_accounted; [done|]. unfold accounted in Ha. rewrite Hs in Ha.
    by apply app_eq_nil in Ha as [_ [? _]%app_eq_nil].
Qed.
End start.

(** ** Main properties *)

(** The bytes handed to the backend so far, one list per sealed segment. *)
Definition payloads {F} (w : Writer (traced F)) : list bytes :=
  map SealCall.payload (snd (Writer.fs w)).

Lemma follows_payloads {F type_entry slot_entry} (b : BusTypes.t) (w : Writer (traced F)) k :
  @follows F type_entry slot_entry b w k →
  payloads w = map (λ x, seg_bytes b (fst x)) (Book.sealed k).
Proof.
  intros [Ht _ _ _ _ _]. unfold payloads. induction Ht as [|c x l l' H _ IH]; [done|].
  cbn. by rewrite H, IH.
Qed.

(** What a run from a fresh writer comes to, with the book that follows it. *)
Lemma run_accounts {F : Type} `{SegmentFs F} type_entry slot_entry b estimate ops
    (w0 : Writer (traced F)) :
  knows_bus type_entry slot_entry b → started b w0 →
  @run_ok (traced F) _ type_entry slot_entry b estimate ops w0 →
  let w := run b estimate ops w0 in
  ∃ segments active dropped,
    (concat (map (λ x, offered (fst x)) ops)
     = concat (map users segments) ++ active ++ map fst dropped ∧
     payloads w = map (seg_bytes b) segments ∧
     Writer.dropped_events w = sum_counts dropped ∧
     match Writer.state w with
     | WActive raw _ => dropped = [] ∧
         ∃ s, raw_into_inner raw = seg_bytes b s ∧ users s = active
     | WFinished => active = []
     end) ∧
    Forall (@segment_ok type_entry slot_entry) segments ∧
    Forall (λ s, Segment.items s ≠ []) segments.
Proof.
  intros Hbus Hw Hops. destruct (started_follows b w0 Hbus Hw) as (k0 & Hf0 & _ & Ha0).
  destruct (run_follows b Hbus estimate ops w0 k0 Hf0 Hops) as (k & Hf & Ha & _).
  exists (map fst (Book.sealed k)), (from_option users [] (Book.active k)), (Book.dropped k).
  rewrite Ha0 in Ha. cbn [app] in Ha. split_and!; [| | | |apply List.Forall_map, Hf|].
  - rewrite <- Ha. unfold accounted. by rewrite map_map.
  - rewrite (follows_payloads b _ _ Hf). by rewrite map_map.
  - apply Hf.
  - pose proof (follows_state _ _ _ Hf) as Hs. destruct (Writer.state _); [|by rewrite Hs].
    destruct Hs as (s & -> & []). split; [done|]. by exists s.
  - apply List.Forall_map, marked_items with Drained, Hf.
Qed.


(** What a decoder makes of the bytes of a segment. *)
Lemma segment_decodes {type_entry slot_entry} (b : BusTypes.t) s :
  knows_bus type_entry slot_entry b → @segment_ok type_entry slot_entry s →
  ∃ d fss d', decoder_new (seg_bytes b s) = Some d ∧ decode_all d = (concat fss, d') ∧
    Decoder.rest d' = [] ∧ Forall2 batch_matches fss (seg_batches b s).
Proof.
  intros Hbus Hok. exact (joined_decodes _ _ (seg_batches_ok b Hbus s Hok)).
Qed.


(** The value of [segment.complete] for each of a sequence of seals. *)
Fixpoint completeness (prior : SealKind) (kinds : list SealKind) : list bool :=
  match kinds with
  | [] => []
  | k :: kinds => (is_clean k && is_clean prior) :: completeness k kinds
  end.

(** Every sealed segment ends with the writer's entries and
    [segment.complete], and the value is true exactly when the segment was
    sealed by a drain or at the end and so was the one before it: a segment
    that overflowed, and the one behind it, say false. *)
Theorem completeness_recorded {F : Type} `{SegmentFs F} type_entry slot_entry b estimate ops
    (w0 : Writer (traced F)) :
  knows_bus type_entry slot_entry b → started b w0 →
  @run_ok (traced F) _ type_entry slot_entry b estimate ops w0 →
  Forall2 (λ payload (complete : bool), ∃ s items clock entries,
      payload = seg_bytes b s ∧
      Segment.items s = items ++ [Metadata clock (entries
        ++ [(SEGMENT_COMPLETE_KEY, if complete then lit "true" else lit "false")])])
    (payloads (run b estimate ops w0)) (completeness Drained (seal_kinds b estimate ops w0)).
Proof.
  intros Hbus Hw Hops. destruct (started_follows b w0 Hbus Hw) as (k0 & Hf0 & Hs0 & _).
  destruct (run_follows b Hbus estimate ops w0 k0 Hf0 Hops) as (k & Hf & _ & Hk).
  rewrite (follows_payloads b _ _ Hf). rewrite Hs0 in Hk. cbn [map app] in Hk. rewrite <- Hk.
  pose proof (follows_marked _ _ _ Hf) as Hm. generalize Drained, Hm. clear.
  induction (Book.sealed k) as [|[s kind] l IH]; intros prior Hm; [constructor|].
  destruct Hm as [(items & c & md & Hi) Hm]. cbn [map completeness fst snd].
  constructor; [|by apply IH]. by exists s, items, c, md.
Qed.

(** ** A run in memory *)

(** Two batches, a drain that rotates between them, an overflow, the end, and a
    batch that comes too late. *)
Definition example_writer : option (Writer (traced MemChannel.t)) :=
  match new_in_memory 100000 1000 with
  | Ok c =>
      match start_writer example_bus 280 100000 (60 * SECOND) (60 * SECOND) None
              [(lit "host", lit "a")] [] 0 (example_reads 0) (c, []) with
      | Ok w => Some w
      | Err _ => None
      end
  | Err _ => None
  end.

Definition example_calls : list (call * Reads.t) :=
  let x := anchor_batch example_bus (5, 6) in
  [(Write x 1, example_reads 1); (UpdateMetadata [(lit "pid", lit "12")], example_reads 2);
   (CheckDrained, example_reads (61 * SECOND)); (Write x 1, example_reads (61 * SECOND));
   (Write x 1, example_reads (62 * SECOND)); (Write x 1, example_reads (63 * SECOND));
   (Finalize, example_reads (64 * SECOND)); (Write x 3, example_reads (65 * SECOND))].

Lemma example_knows :
  knows_bus (bus_type_entry example_bus) (bus_slot_entry example_bus) example_bus.
Proof. apply bus_known. by split_and!. Qed.

Lemma example_started w : example_writer = Some w → started example_bus w.
Proof.
  unfold example_writer. destruct (new_in_memory 100000 1000) as [c|]; [|done].
  destruct (start_writer _ _ _ _ _ _ _ _ _ _ _) as [w0|] eqn:E; [|done]. intros [= ->].
  repeat eexists; [exact E|by left|..]; by vm_compute.
Qed.

Lemma example_run_ok w :
  example_writer = Some w →
  @run_ok (traced MemChannel.t) _ (bus_type_entry example_bus) (bus_slot_entry example_bus)
    example_bus no_estimate example_calls w.
Proof.
  intros Hw. assert (@batch_ok (bus_type_entry example_bus) (bus_slot_entry example_bus)
    (anchor_batch example_bus (5, 6))) as Hx
    by (apply (anchor_batch_ok example_bus example_knows (5, 6)); by split).
  vm_compute in Hw. injection Hw as <-. cbn [run_ok example_calls call_ok].
  repeat match goal with
  | |- _ ∧ batch_ok _ => split; [lia|exact Hx]
  | |- reads_ok _ => by vm_compute
  | |- True => done
  | |- metadata_ok _ => by vm_compute
  | |- _ ∧ _ => split
  end.
Qed.



Example completeness_recorded_witness :
  match example_writer with
  | Some w0 =>
      seal_kinds example_bus no_estimate example_calls w0 = [Drained; Overflow; Drained] ∧
      Forall2 (λ payload (complete : bool), ∃ s items clock entries,
          payload = seg_bytes example_bus s ∧
          Segment.items s = items ++ [Metadata clock (entries
            ++ [(SEGMENT_COMPLETE_KEY, if complete then lit "true" else lit "false")])])
        (payloads (run example_bus no_estimate example_calls w0)) [true; false; false]
  | None => False
  end.
Proof.
  destruct example_writer as [w0|] eqn:E; [|by vm_compute in E].
  assert (seal_kinds example_bus no_estimate example_calls w0 = [Drained; Overflow; Drained]) as Hk
    by (vm_compute in E; injection E as <-; by vm_compute).
  split; [done|].
  change [true; false; false] with (completeness Drained [Drained; Overflow; Drained]).
  rewrite <- Hk.
  exact (completeness_recorded _ _ example_bus no_estimate example_calls w0 example_knows
           (example_started w0 E) (example_run_ok w0 E)).
Defined.
