(* ===== verification/TlBuffer.v ===== *)
(** * Thread-local buffers (dial9-core/src/encoder.rs)

    [ThreadLocalBuffer] and [ThreadLocalEncoder]: events of one thread are
    encoded into a batch, which is cut when it is large, when the drain epoch
    has moved, or when the flush thread drains an idle buffer.  A panic inside
    an encoding call poisons the buffer's mutex.  A batch that is cut is a
    batch in the sense of Stream. *)

From Stdlib Require Import ZArith Lia.
From stdpp Require Import base list gmap strings option.
From coqutil Require Import Byte.
From S2P Require Import Prelude.
From S2P Require Import FieldType.
From S2P Require Import FieldValue.
From S2P Require Import Codec.
From S2P Require Import Schema.
From S2P Require Import Decoder.
From S2P Require Import EventEncoder.
From S2P Require Import Encoder.
From S2P Require Import Stream.
From S2P Require Import SegmentWriter.

Definition DEFAULT_BATCH_SIZE : Z := 1023 * 1024.

Module CachedLocation.
Record t : Type := mk { text : bytes; id : Z; batch_generation : Z }.
End CachedLocation.

(** The buffer in its mutex; [collector] is whether it has one. *)
Module ThreadLocalBuffer.
Record t : Type := mk {
  encoder : Encoder.t;
  event_count : Z;
  batch_size : Z;
  collector : bool;
  location_cache : gmap Z CachedLocation.t;
  batch_generation : Z;
  flush_epoch : Z;
  poisoned : bool }.

Definition set_encoder (b : t) (e : Encoder.t) (n : Z) : t :=
  mk e n (batch_size b) (collector b) (location_cache b) (batch_generation b) (flush_epoch b)
   (poisoned b).
Definition set_cache (b : t) (c : gmap Z CachedLocation.t) : t :=
  mk (encoder b) (event_count b) (batch_size b) (collector b) c (batch_generation b)
   (flush_epoch b) (poisoned b).
Definition set_collector (b : t) : t :=
  mk (encoder b) (event_count b) (batch_size b) true (location_cache b) (batch_generation b)
   (flush_epoch b) (poisoned b).
Definition set_epoch (b : t) (e : Z) : t :=
  mk (encoder b) (event_count b) (batch_size b) (collector b) (location_cache b)
   (batch_generation b) e (poisoned b).
Definition poison (b : t) : t :=
  mk (encoder b) (event_count b) (batch_size b) (collector b) (location_cache b)
   (batch_generation b) (flush_epoch b) true.
End ThreadLocalBuffer.

Abbreviation Buf := ThreadLocalBuffer.t.

Definition with_batch_size (batch_size : Z) : Buf :=
  ThreadLocalBuffer.mk encoder_new 0 batch_size false ∅ 0 0 false.

Definition tl_buffer_new : Buf := with_batch_size DEFAULT_BATCH_SIZE.

(** ** What a recording closure can do *)

(** [location.to_string()] of the location at an address. *)
Section locations.
Variable location_text : Z → bytes.

(** A call on the [ThreadLocalEncoder]; the values of a typed event are what
    its [encode_fields] stands for. *)
Inductive tl_call : Type :=
| Encode (ev : TraceEvent.t) (values : list FieldValue.t) (arc : Z)
| WriteEvent (schema : SchemaHandle.t) (timestamp_ns : Z) (values : list FieldValue.t)
| InternString (s : bytes)
| InternStackFrames (frames : list Z)
| InternLocation (key : Z).

(** [Refused] is an error returned to the caller, [Panicked] an [expect]. *)
Inductive outcome : Set := Done | Refused | Panicked.

(** [x_infallible]: an error is a panic. *)
Definition infallible {A} (r : result A enc_error * Encoder.t) (counted : Z) (b : Buf)
    : outcome * Buf :=
  match r with
  | (Ok _, e) =>
      (Done, ThreadLocalBuffer.set_encoder b e (ThreadLocalBuffer.event_count b + counted))
  | (Err _, e) => (Panicked, ThreadLocalBuffer.set_encoder b e (ThreadLocalBuffer.event_count b))
  end.

(** Intern the text of a location and cache the id for this batch. *)
Definition intern_and_cache (key : Z) (text : bytes) (b : Buf) : result Z enc_error * Buf :=
  match intern_string text (ThreadLocalBuffer.encoder b) with
  | (Ok id, e) =>
      let b := ThreadLocalBuffer.set_encoder b e (ThreadLocalBuffer.event_count b) in
      (Ok id, ThreadLocalBuffer.set_cache b
                (<[key := CachedLocation.mk text id (ThreadLocalBuffer.batch_generation b)]>
                   (ThreadLocalBuffer.location_cache b)))
  | (Err x, e) =>
      (Err x, ThreadLocalBuffer.set_encoder b e (ThreadLocalBuffer.event_count b))
  end.

Definition intern_location (key : Z) (b : Buf) : result Z enc_error * Buf :=
  match ThreadLocalBuffer.location_cache b !! key with
  | Some cached =>
      if negb (CachedLocation.batch_generation cached =? ThreadLocalBuffer.batch_generation b)
      then intern_and_cache key (CachedLocation.text cached) b
      else (Ok (CachedLocation.id cached), b)
  | None => intern_and_cache key (location_text key) b
  end.

Definition do_call (c : tl_call) (b : Buf) : outcome * Buf :=
  let e := ThreadLocalBuffer.encoder b in
  match c with
  | Encode ev _ arc => infallible (write ev arc e) 1 b
  | WriteEvent schema timestamp_ns values =>
      match infallible (write_event schema timestamp_ns values e) 1 b with
      | (Panicked, b) => (Refused, b)
      | r => r
      end
  | InternString s => infallible (intern_string s e) 0 b
  | InternStackFrames l => infallible (intern_stack_frames l e) 0 b
  | InternLocation key =>
      match intern_location key b with
      | (Ok _, b) => (Done, b)
      | (Err _, b) => (Panicked, b)
      end
  end.

(** The closure: calls until one panics. *)
Fixpoint do_calls (l : list tl_call) (b : Buf) : outcome * Buf :=
  match l with
  | [] => (Done, b)
  | c :: l => match do_call c b with (Panicked, b) => (Panicked, b) | (_, b) => do_calls l b end
  end.

(** ** Cutting batches *)

Definition should_flush (b : Buf) : bool :=
  ThreadLocalBuffer.batch_size b <=? bytes_written (ThreadLocalBuffer.encoder b).

(** [flush]; [reset_to_infallible] into a [Vec] does not fail. *)
Definition flush (b : Buf) : Batch.t * Buf :=
  let '(old, e) := reset_to [] (ThreadLocalBuffer.encoder b) in
  let generation := wrapping_add 64 (ThreadLocalBuffer.batch_generation b) 1 in
  (Batch.mk (match old with Ok w => w | Err _ => [] end) (ThreadLocalBuffer.event_count b),
   ThreadLocalBuffer.mk e 0 (ThreadLocalBuffer.batch_size b) (ThreadLocalBuffer.collector b)
     (if generation =? 0 then ∅ else ThreadLocalBuffer.location_cache b) generation
     (ThreadLocalBuffer.flush_epoch b) (ThreadLocalBuffer.poisoned b)).

Definition has_pending_events (b : Buf) : bool := 0 <? ThreadLocalBuffer.event_count b.

(** [with_encoder]: the batch it hands over, and whether it registered the
    buffer with the recorder.  A panic of the closure unwinds through it. *)
Definition with_encoder (f : list tl_call) (drain_epoch : Z) (b : Buf)
    : (outcome * option Batch.t * bool) * Buf :=
  if ThreadLocalBuffer.poisoned b then (Refused, None, false, b) else
  let first_call := negb (ThreadLocalBuffer.collector b) in
  match do_calls f (ThreadLocalBuffer.set_collector b) with
  | (Panicked, b) => (Panicked, None, false, ThreadLocalBuffer.poison b)
  | (_, b) =>
      if should_flush b || (ThreadLocalBuffer.flush_epoch b <? drain_epoch) then
        let '(batch, b) := flush b in
        (Done, Some batch, first_call, ThreadLocalBuffer.set_epoch b drain_epoch)
      else (Done, None, first_call, b)
  end.

(** [drain_to_collector], on the flush thread's own buffer. *)
Definition drain_to_collector (b : Buf) : option Batch.t * Buf :=
  if ThreadLocalBuffer.poisoned b then (None, b) else
  if has_pending_events b then let '(batch, b) := flush b in (Some batch, b) else (None, b).

(** One buffer of [drain_all_tl_buffers] (shared_state.rs). *)
Definition drain_idle (epoch : Z) (b : Buf) : option Batch.t * Buf :=
  if epoch <=? ThreadLocalBuffer.flush_epoch b then (None, b) else
  if ThreadLocalBuffer.poisoned b then (None, b) else
  let '(batch, b) :=
    if has_pending_events b then let '(batch, b) := flush b in (Some batch, b) else (None, b) in
  (batch, ThreadLocalBuffer.set_epoch b epoch).

(** [Drop]: what a thread leaves when it exits. *)
Definition tl_drop (b : Buf) : option Batch.t :=
  if (0 <? ThreadLocalBuffer.event_count b) && ThreadLocalBuffer.collector b
  then Some (fst (flush b)) else None.

(** What happens to a buffer. *)
Inductive tl_step : Type :=
| Record (f : list tl_call) (drain_epoch : Z)
| DrainSelf
| DrainIdle (epoch : Z).

Definition do_step (s : tl_step) (b : Buf) : option Batch.t * Buf :=
  match s with
  | Record f epoch => let '(_, batch, _, b) := with_encoder f epoch b in (batch, b)
  | DrainSelf => drain_to_collector b
  | DrainIdle epoch => drain_idle epoch b
  end.

Fixpoint do_steps (l : list tl_step) (b : Buf) : list Batch.t * Buf :=
  match l with
  | [] => ([], b)
  | s :: l =>
      let '(batch, b) := do_step s b in
      let '(batches, b) := do_steps l b in
      (match batch with Some x => x :: batches | None => batches end, b)
  end.
End locations.

(** ** Interned strings stay interned *)

(** [m] forgets no string of the pool. *)
Definition keeps_strings {A} (m : enc A) : Prop :=
  ∀ e, Encoder.string_pool e ⊆ Encoder.string_pool (snd (m e)).

Lemma keeps_ret {A} (x : A) : keeps_strings (ret x).
Proof. by intros e. Qed.

Lemma keeps_fail {A} x : keeps_strings (A := A) (fail x).
Proof. by intros e. Qed.

Lemma keeps_get {A} (f : Encoder.t → A) : keeps_strings (get f).
Proof. by intros e. Qed.

Lemma keeps_bind {A B} (m : enc A) (k : A → enc B) :
  keeps_strings m → (∀ x, keeps_strings (k x)) → keeps_strings (bind m k).
Proof.
  intros Hm Hk e. unfold bind. specialize (Hm e). destruct (m e) as [[x|err] e1]; [|done].
  cbn in Hm. etrans; [exact Hm|]. apply Hk.
Qed.

Lemma keeps_modify f :
  (∀ e, Encoder.string_pool e ⊆ Encoder.string_pool (f e)) → keeps_strings (modify f).
Proof. intros Hf e. apply Hf. Qed.

Lemma keeps_emit w : keeps_strings (emit w).
Proof. by apply keeps_modify. Qed.

Lemma keeps_delta ts : keeps_strings (timestamp_delta ts).
Proof. intros e. unfold timestamp_delta. by destruct (encode_timestamp_delta _ _). Qed.

Create HintDb keeps discriminated.
#[local] Hint Resolve keeps_ret keeps_fail keeps_get keeps_emit keeps_delta : keeps.

Ltac keeps :=
  repeat match goal with
  | |- keeps_strings (bind _ _) => apply keeps_bind; [|intros ?]
  | |- keeps_strings (modify _) => apply keeps_modify; intros ?; cbn; try done
  | |- keeps_strings (match ?x with _ => _ end) => destruct x
  | |- _ ⊆ Encoder.string_pool (if ?x then _ else _) => destruct x; done
  | |- keeps_strings _ => solve [auto with keeps]
  end.

Lemma keeps_emit_schema id entry : keeps_strings (emit_schema id entry).
Proof. unfold emit_schema. keeps. Qed.

#[local] Hint Resolve keeps_emit_schema : keeps.

Lemma keeps_slow h : keeps_strings (ensure_registered_slow h).
Proof.
  unfold ensure_registered_slow. keeps. intros e. by destruct (next_type_id _).
Qed.

#[local] Hint Resolve keeps_slow : keeps.

Lemma keeps_registered h : keeps_strings (ensure_registered h).
Proof. unfold ensure_registered. keeps. Qed.

#[local] Hint Resolve keeps_registered : keeps.

Lemma keeps_fields values fields : keeps_strings (emit_fields values fields).
Proof. revert fields. induction values; intros [|? ?]; cbn [emit_fields]; keeps. Qed.

#[local] Hint Resolve keeps_fields : keeps.

Lemma keeps_write_event h ts values : keeps_strings (write_event h ts values).
Proof. unfold write_event, emit_event_header. keeps. Qed.

Lemma keeps_write ev arc : keeps_strings (write ev arc).
Proof.
  unfold write, register_fast_id, resolve_dynamic_wire_id, emit_event_header. keeps.
Qed.

Lemma keeps_intern_string s : keeps_strings (intern_string s).
Proof.
  intros e. unfold intern_string, bind, get.
  destruct (Encoder.string_pool e !! s) eqn:E; [done|]. cbn. by apply insert_subseteq.
Qed.

Lemma keeps_intern_stack l : keeps_strings (intern_stack_frames l).
Proof. unfold intern_stack_frames. keeps. Qed.

(** ** The invariant of a buffer *)

Section invariant.
Context {type_entry : positive → SchemaEntry.t} {slot_entry : Z → SchemaEntry.t}.
Variable location_text : Z → bytes.

Abbreviation op_ok := (@op_ok type_entry slot_entry).
Abbreviation runs := (@runs type_entry slot_entry).
Abbreviation batch_ok := (@batch_ok type_entry slot_entry).
Abbreviation Log := (list (SchemaEntry.t * Z * list FieldValue.t)).

(** The encoder call behind a call of the closure. *)
Definition call_op (c : tl_call) : op :=
  match c with
  | Encode ev values arc => OpWrite ev values arc
  | WriteEvent h ts values => OpWriteEvent h ts values
  | InternString s => OpInternString s
  | InternStackFrames l => OpInternStackFrames l
  | InternLocation key => OpInternString (location_text key)
  end.

(** What the closure guarantees of a call. *)
Definition call_ok (c : tl_call) (b : Buf) : Prop :=
  op_ok (call_op c) (ThreadLocalBuffer.encoder b).

(** The event a call that went through records. *)
Definition call_log (c : tl_call) (o : outcome) : Log :=
  match o with Done => op_events (call_op c) | Refused | Panicked => [] end.

(** A cached location says what it is the text of, and its id is good for the
    batch it was interned in. *)
Definition cached_ok (b : Buf) (key : Z) (c : CachedLocation.t) : Prop :=
  CachedLocation.text c = location_text key ∧
  CachedLocation.batch_generation c <= ThreadLocalBuffer.batch_generation b ∧
  (CachedLocation.batch_generation c = ThreadLocalBuffer.batch_generation b →
   Encoder.string_pool (ThreadLocalBuffer.encoder b) !! CachedLocation.text c
   = Some (CachedLocation.id c)).

(** The buffer has encoded [log] since its last batch. *)
Record tl_ok (b : Buf) (log : Log) : Prop := {
  tl_batch : batch_ok (ThreadLocalBuffer.encoder b, log);
  tl_count : ThreadLocalBuffer.event_count b = Z.of_nat (length log);
  tl_generation : fits 64 (ThreadLocalBuffer.batch_generation b);
  tl_cache key c :
    ThreadLocalBuffer.location_cache b !! key = Some c → cached_ok b key c }.

Lemma tl_new_ok n : tl_ok (with_batch_size n) [].
Proof.
  split; [apply (batch_ok_new []); constructor|done|by split|]. intros key c Hc. cbn in Hc. by rewrite lookup_empty in Hc.
Qed.

(** One more encoder call. *)
Lemma batch_more (e : Encoder.t) (log : Log) o e1 r :
  batch_ok (e, log) → op_ok o e → run_op o e = (r, e1) →
  batch_ok (e1, log ++ match r with Ok _ => op_events o | Err _ => [] end).
Proof.
  intros (e0 & ops & Hok & Hf & Hrun) Ho Hr. exists e0, (ops ++ [o]). split; [done|].
  split; [done|]. eapply runs_app; [exact Hrun|].
  destruct r as [[]|x]; [by apply runs_one|by eapply runs_none].
Qed.

Lemma tl_step_ok b log o r e1 n cache :
  tl_ok b log → op_ok o (ThreadLocalBuffer.encoder b) →
  run_op o (ThreadLocalBuffer.encoder b) = (r, e1) →
  Encoder.string_pool (ThreadLocalBuffer.encoder b) ⊆ Encoder.string_pool e1 →
  n = ThreadLocalBuffer.event_count b
      + match r with Ok _ => Z.of_nat (length (op_events o)) | Err _ => 0 end →
  let b' := ThreadLocalBuffer.set_encoder b e1 n in
  (∀ key c, cache !! key = Some c →
     ThreadLocalBuffer.location_cache b !! key = Some c ∨ cached_ok b' key c) →
  tl_ok (ThreadLocalBuffer.set_cache b' cache)
    (log ++ match r with Ok _ => op_events o | Err _ => [] end).
Proof.
  intros [Hb Hn Hg Hc] Ho Hr Hpool -> b' Hcache. split.
  - by apply (batch_more (ThreadLocalBuffer.encoder b)).
  - cbn. rewrite Hn, length_app. destruct r; cbn; lia.
  - done.
  - intros key c Hkey. destruct (Hcache key c Hkey) as [Hold|Hnew]; [|done].
    destruct (Hc key c Hold) as (H1 & H2 & H3). split; [done|]. split; [done|].
    intros Hgen. eapply lookup_weaken; [by apply H3|exact Hpool].
Qed.

Lemma set_cache_same b e n :
  ThreadLocalBuffer.set_cache (ThreadLocalBuffer.set_encoder b e n)
    (ThreadLocalBuffer.location_cache b) = ThreadLocalBuffer.set_encoder b e n.
Proof. done. Qed.

(** [infallible] around an encoder call. *)
Lemma infallible_ok {A} b log o (r : result A enc_error * Encoder.t) :
  tl_ok b log → op_ok o (ThreadLocalBuffer.encoder b) →
  run_op o (ThreadLocalBuffer.encoder b) = discard r →
  Encoder.string_pool (ThreadLocalBuffer.encoder b) ⊆ Encoder.string_pool (snd r) →
  let '(out, b') := infallible r (Z.of_nat (length (op_events o))) b in
  tl_ok b' (log ++ match out with Done => op_events o | _ => [] end) ∧ out ≠ Refused.
Proof.
  intros Hok Ho Hr Hpool. destruct r as [[x|x] e]; cbn [infallible discard fst snd] in *.
  - split; [|done]. rewrite <- set_cache_same.
    apply (tl_step_ok b log o (Ok tt) e _ _ Hok Ho Hr Hpool eq_refl). by left.
  - split; [|done]. rewrite <- set_cache_same.
    apply (tl_step_ok b log o (Err x) e _ _ Hok Ho Hr Hpool); [lia|]. by left.
Qed.

Lemma intern_and_cache_ok b log key :
  tl_ok b log → op_ok (OpInternString (location_text key)) (ThreadLocalBuffer.encoder b) →
  let '(r, b') := intern_and_cache key (location_text key) b in
  tl_ok b' log ∧
  match r with
  | Ok id => Encoder.string_pool (ThreadLocalBuffer.encoder b') !! location_text key = Some id
  | Err _ => False
  end.
Proof.
  intros Hok Ho. unfold intern_and_cache.
  assert (∃ id e, intern_string (location_text key) (ThreadLocalBuffer.encoder b) = (Ok id, e) ∧
    Encoder.string_pool e !! location_text key = Some id) as (id & e & Hrun & Hid).
  { destruct Ho as (Hu & Hl & Hroom). unfold intern_string, bind, get.
    destruct (_ !! location_text key) as [id|] eqn:E; [by exists id, (ThreadLocalBuffer.encoder b)|].
    eexists _, _. split; [done|]. cbn. apply lookup_insert_eq. }
  rewrite Hrun. split; [|exact Hid]. rewrite <- (app_nil_r log).
  eapply (tl_step_ok b log (OpInternString (location_text key)) (Ok tt) e _ _ Hok Ho).
  - cbn [run_op]. by rewrite Hrun.
  - pose proof (keeps_intern_string (location_text key) (ThreadLocalBuffer.encoder b)) as Hk.
    by rewrite Hrun in Hk.
  - cbn. lia.
  - intros k c Hkey. apply lookup_insert_Some in Hkey as [[<- <-]|[_ ?]]; [right|by left].
    split; [done|]. cbn. split; [lia|]. done.
Qed.

Lemma intern_location_ok b log key :
  tl_ok b log → op_ok (OpInternString (location_text key)) (ThreadLocalBuffer.encoder b) →
  let '(r, b') := intern_location location_text key b in
  tl_ok b' log ∧
  match r with
  | Ok id => Encoder.string_pool (ThreadLocalBuffer.encoder b') !! location_text key = Some id
  | Err _ => False
  end.
Proof.
  intros Hok Ho. pose proof (intern_and_cache_ok b log key Hok Ho) as Hcache.
  unfold intern_location. destruct (_ !! key) as [c|] eqn:E; [|exact Hcache].
  destruct (tl_cache _ _ Hok _ _ E) as (Htext & Hle & Hid).
  destruct (Z.eqb_spec (CachedLocation.batch_generation c) (ThreadLocalBuffer.batch_generation b));
    cbn [negb]; [|by rewrite Htext].
  split; [done|]. rewrite <- Htext. by apply Hid.
Qed.

Lemma do_call_ok c b log :
  tl_ok b log → call_ok c b →
  let '(o, b') := do_call location_text c b in tl_ok b' (log ++ call_log c o).
Proof.
  intros Hok Ho. destruct c as [ev values arc|h ts values|s|l|key]; cbn [do_call].
  - pose proof (infallible_ok b log (OpWrite ev values arc) 
      (write ev arc (ThreadLocalBuffer.encoder b)) Hok Ho) as H.
    cbn [op_events length] in H. change (Z.of_nat 1) with 1 in H.
    destruct (infallible _ 1 b) as [o b'].
    apply H; [cbn; unfold discard; by destruct (write _ _ _) as [[[]|] ?]|apply keeps_write].
  - pose proof (infallible_ok b log (OpWriteEvent h ts values) 
      (write_event h ts values (ThreadLocalBuffer.encoder b)) Hok Ho) as H.
    cbn [op_events length] in H. change (Z.of_nat 1) with 1 in H.
    destruct (infallible _ 1 b) as [o b'].
    destruct H as [H Hne];
      [cbn; unfold discard; by destruct (write_event _ _ _ _) as [[[]|] ?]|apply keeps_write_event|].
    by destruct o.
  - pose proof (infallible_ok b log (OpInternString s) 
      (intern_string s (ThreadLocalBuffer.encoder b)) Hok Ho) as H.
    cbn [op_events length] in H. change (Z.of_nat 0) with 0 in H.
    destruct (infallible _ 0 b) as [o b']. apply H; [done|apply keeps_intern_string].
  - pose proof (infallible_ok b log (OpInternStackFrames l) 
      (intern_stack_frames l (ThreadLocalBuffer.encoder b)) Hok Ho) as H.
    cbn [op_events length] in H. change (Z.of_nat 0) with 0 in H.
    destruct (infallible _ 0 b) as [o b']. apply H; [done|apply keeps_intern_stack].
  - pose proof (intern_location_ok b log key Hok Ho) as H.
    destruct (intern_location _ _ _) as [[id|x] b']; destruct H as [H ?]; [|done].
    by rewrite app_nil_r.
Qed.

(** The events of a closure, and what is asked of it. *)
Fixpoint calls_log (l : list tl_call) (b : Buf) : Log :=
  match l with
  | [] => []
  | c :: l =>
      let '(o, b) := do_call location_text c b in
      call_log c o ++ match o with Panicked => [] | _ => calls_log l b end
  end.

Fixpoint calls_ok (l : list tl_call) (b : Buf) : Prop :=
  match l with
  | [] => True
  | c :: l => call_ok c b ∧ calls_ok l (snd (do_call location_text c b))
  end.

Lemma do_calls_ok l b log :
  tl_ok b log → calls_ok l b →
  tl_ok (snd (do_calls location_text l b)) (log ++ calls_log l b).
Proof.
  revert b log. induction l as [|c l IH]; intros b log Hok Hl; cbn [do_calls calls_log].
  { by rewrite app_nil_r. }
  destruct Hl as [Hc Hl]. pose proof (do_call_ok c b log Hok Hc) as H.
  destruct (do_call location_text c b) as [o b']. cbn [snd] in Hl.
  destruct o; rewrite app_assoc; [by apply IH|by apply IH|by rewrite app_nil_r].
Qed.

(** A batch that decodes to the events of [log]. *)
Definition is_batch (batch : Batch.t) (log : Log) : Prop :=
  ∃ e, Batch.encoded_bytes batch = finish e ∧ batch_ok (e, log) ∧
       Batch.event_count batch = Z.of_nat (length log).

Lemma batch_encoder_ok e log : batch_ok (e, log) → encoder_ok type_entry slot_entry e.
Proof.
  intros (e0 & ops & Hok & Hf & Hrun).
  by destruct (runs_transfer e0 ops log e idle_decoder Hrun Hok (idle_mirrors e0 Hf))
    as (d & evs & (Hok' & _) & _).
Qed.

Lemma flush_ok b log :
  tl_ok b log → let '(batch, b') := flush b in is_batch batch log ∧ tl_ok b' [].
Proof.
  intros [Hb Hn Hg Hc]. unfold flush. cbn [reset_to]. split.
  { exists (ThreadLocalBuffer.encoder b). by split. }
  unfold fits in Hg. unfold wrapping_add, cast.
  assert ((ThreadLocalBuffer.batch_generation b + 1) mod 2 ^ 64 = 0 ∨
          (ThreadLocalBuffer.batch_generation b + 1) mod 2 ^ 64
          = ThreadLocalBuffer.batch_generation b + 1) as Hgen.
  { destruct (decide (ThreadLocalBuffer.batch_generation b + 1 = 2 ^ 64)) as [->|Hne];
      [left; apply Z.mod_same; lia|right; apply Z.mod_small; lia]. }
  split; cbn -[Z.modulo Z.pow].
  - exists (snd (reset_to [] (ThreadLocalBuffer.encoder b))), [].
    split; [by eapply reset_to_ok, batch_encoder_ok|]. split; [apply reset_to_fresh|constructor].
  - done.
  - apply Z.mod_pos_bound. lia.
  - intros key c Hkey. destruct Hgen as [Hgen|Hgen]; rewrite Hgen in *.
    { cbn in Hkey. by rewrite lookup_empty in Hkey. }
    rewrite (proj2 (Z.eqb_neq _ _)) in Hkey by lia. destruct (Hc key c Hkey) as (H1 & H2 & _).
    split; [done|]. cbn -[Z.modulo Z.pow]. split; [lia|]. lia.
Qed.

Lemma tl_ok_same b b' log :
  tl_ok b log → ThreadLocalBuffer.encoder b' = ThreadLocalBuffer.encoder b →
  ThreadLocalBuffer.event_count b' = ThreadLocalBuffer.event_count b →
  ThreadLocalBuffer.batch_generation b' = ThreadLocalBuffer.batch_generation b →
  ThreadLocalBuffer.location_cache b' = ThreadLocalBuffer.location_cache b → tl_ok b' log.
Proof.
  intros [Hb Hn Hg Hc] He Hn' Hg' Hc'. split; rewrite ?He, ?Hn', ?Hg', ?Hc'; try done.
  intros key c Hkey. destruct (Hc key c Hkey) as (? & ? & ?).
  split; [done|]. by rewrite He, Hg'.
Qed.

(** The events a step records, and what is asked of its closure. *)
Definition step_log (s : tl_step) (b : Buf) : Log :=
  match s with
  | Record f _ =>
      if ThreadLocalBuffer.poisoned b then [] else calls_log f (ThreadLocalBuffer.set_collector b)
  | _ => []
  end.

Definition step_ok (s : tl_step) (b : Buf) : Prop :=
  match s with
  | Record f _ =>
      ThreadLocalBuffer.poisoned b = false → calls_ok f (ThreadLocalBuffer.set_collector b)
  | _ => True
  end.

(** A batch that was cut, or none. *)
Definition cut_ok (batch : option Batch.t) (b' : Buf) (log : Log) : Prop :=
  match batch with
  | Some x => is_batch x log ∧ tl_ok b' []
  | None => tl_ok b' log
  end.

Lemma flush_cut b log : tl_ok b log → let '(batch, b') := flush b in cut_ok (Some batch) b' log.
Proof. intros H. by apply flush_ok in H. Qed.

Lemma cut_same batch b b' log :
  cut_ok batch b log → ThreadLocalBuffer.encoder b' = ThreadLocalBuffer.encoder b →
  ThreadLocalBuffer.event_count b' = ThreadLocalBuffer.event_count b →
  ThreadLocalBuffer.batch_generation b' = ThreadLocalBuffer.batch_generation b →
  ThreadLocalBuffer.location_cache b' = ThreadLocalBuffer.location_cache b →
  cut_ok batch b' log.
Proof. destruct batch; cbn; [intros [? ?]; split; [done|]|intros]; by eapply tl_ok_same. Qed.

Lemma drain_cut b log :
  tl_ok b log →
  let '(batch, b') :=
    if has_pending_events b then let '(x, b) := flush b in (Some x, b) else (None, b) in
  cut_ok batch b' log.
Proof.
  intros H. destruct (has_pending_events b); [|done]. apply flush_cut in H.
  by destruct (flush b).
Qed.

Lemma do_step_ok s b log :
  tl_ok b log → step_ok s b →
  let '(batch, b') := do_step location_text s b in cut_ok batch b' (log ++ step_log s b).
Proof.
  intros Hok Hs. destruct s as [f epoch| |epoch]; cbn [do_step step_log step_ok] in *.
  - unfold with_encoder. destruct (ThreadLocalBuffer.poisoned b); [by rewrite app_nil_r|].
    set (b1 := ThreadLocalBuffer.set_collector b) in *.
    assert (tl_ok b1 log) as Hok1 by by eapply tl_ok_same.
    pose proof (do_calls_ok f b1 log Hok1 (Hs eq_refl)) as Hok2.
    destruct (do_calls location_text f b1) as [o b2]. cbn [snd] in Hok2.
    destruct o.
    3: { by apply (tl_ok_same b2). }
    all: destruct (should_flush b2 || _); [|exact Hok2]; apply flush_cut in Hok2;
      destruct (flush b2) as [batch b3]; by apply (cut_same (Some batch) b3).
  - rewrite app_nil_r. unfold drain_to_collector. destruct (ThreadLocalBuffer.poisoned b); [done|].
    by apply drain_cut.
  - rewrite app_nil_r. unfold drain_idle. destruct (epoch <=? _); [done|].
    destruct (ThreadLocalBuffer.poisoned b); [done|].
    pose proof (drain_cut b log Hok) as H.
    destruct (if has_pending_events b then _ else _) as [batch b']. by apply (cut_same batch b').
Qed.

(** The events of all steps, and what is asked of them. *)
Fixpoint steps_log (l : list tl_step) (b : Buf) : Log :=
  match l with
  | [] => []
  | s :: l => step_log s b ++ steps_log l (snd (do_step location_text s b))
  end.

Fixpoint steps_ok (l : list tl_step) (b : Buf) : Prop :=
  match l with
  | [] => True
  | s :: l => step_ok s b ∧ steps_ok l (snd (do_step location_text s b))
  end.

Lemma do_steps_ok l b log :
  tl_ok b log → steps_ok l b →
  let '(batches, b') := do_steps location_text l b in
  ∃ logs pending, Forall2 is_batch batches logs ∧ tl_ok b' pending ∧
    concat logs ++ pending = log ++ steps_log l b.
Proof.
  revert b log. induction l as [|s l IH]; intros b log Hok Hl; cbn [do_steps steps_log].
  { exists [], log. by rewrite app_nil_r. }
  destruct Hl as [Hs Hl]. pose proof (do_step_ok s b log Hok Hs) as H.
  destruct (do_step location_text s b) as [batch b1]. cbn [snd] in Hl |- *.
  destruct batch as [x|].
  - destruct H as [Hx Hok1]. specialize (IH b1 [] Hok1 Hl).
    destruct (do_steps location_text l b1) as [batches b2].
    destruct IH as (logs & pending & Hf & Hok2 & Hlog).
    exists ((log ++ step_log s b) :: logs), pending. split; [by constructor|]. split; [done|].
    cbn [concat]. rewrite <- app_assoc, Hlog. cbn [app]. by rewrite <- app_assoc.
  - specialize (IH b1 _ H Hl). destruct (do_steps location_text l b1) as [batches b2].
    destruct IH as (logs & pending & Hf & Hok2 & Hlog).
    exists logs, pending. split; [done|]. split; [done|]. by rewrite Hlog, <- app_assoc.
Qed.
End invariant.

(** ** Main properties *)


(** The id of a location is always good for the batch being written: a
    cached id of an earlier batch is never handed out, also when the 64-bit
    batch generation wraps around. *)
Theorem location_ids_current type_entry slot_entry location_text b log key :
  @tl_ok type_entry slot_entry location_text b log →
  @op_ok type_entry slot_entry (OpInternString (location_text key)) (ThreadLocalBuffer.encoder b) →
  ∃ id b', intern_location location_text key b = (Ok id, b') ∧
    Encoder.string_pool (ThreadLocalBuffer.encoder b') !! location_text key = Some id ∧
    @tl_ok type_entry slot_entry location_text b' log ∧
    let '(_, b'') := flush b' in
    @tl_ok type_entry slot_entry location_text b'' [] ∧
    (@op_ok type_entry slot_entry (OpInternString (location_text key))
       (ThreadLocalBuffer.encoder b'') →
     ∃ id' b3, intern_location location_text key b'' = (Ok id', b3) ∧
       Encoder.string_pool (ThreadLocalBuffer.encoder b3) !! location_text key = Some id').
Proof.
  intros Hok Ho. pose proof (intern_location_ok location_text b log key Hok Ho) as H.
  destruct (intern_location location_text key b) as [[id|x] b']; destruct H as [Hok' Hid]; [|done].
  exists id, b'. split; [done|]. split; [done|]. split; [done|].
  pose proof (flush_ok location_text b' log Hok') as Hflush. destruct (flush b') as [x b''].
  destruct Hflush as [_ Hok'']. split; [done|]. intros Ho'.
  pose proof (intern_location_ok location_text b'' [] key Hok'' Ho') as H.
  destruct (intern_location location_text key b'') as [[id'|y] b3]; destruct H as [_ H]; [|done].
  by exists id', b3.
Qed.

(** A poisoned buffer takes nothing more and is never drained again. *)
Lemma poisoned_stays location_text steps b :
  ThreadLocalBuffer.poisoned b = true →
  let '(batches, b') := do_steps location_text steps b in
  batches = [] ∧ ThreadLocalBuffer.encoder b' = ThreadLocalBuffer.encoder b ∧
  ThreadLocalBuffer.poisoned b' = true.
Proof.
  revert b. induction steps as [|s steps IH]; intros b Hp; cbn [do_steps]; [done|].
  assert (do_step location_text s b = (None, b)) as ->.
  { destruct s as [f epoch| |epoch]; cbn [do_step].
    - unfold with_encoder. by rewrite Hp.
    - unfold drain_to_collector. by rewrite Hp.
    - unfold drain_idle. destruct (_ <=? _); [done|]. by rewrite Hp. }
  specialize (IH b Hp). by destruct (do_steps location_text steps b) as [batches b'].
Qed.

(** Two event types of the program with one name and different fields, as two
    modules may have; without [wire_slot] their slot is 0. *)
Definition named_entry (fields : list FieldDef.t) : SchemaEntry.t :=
  SchemaEntry.mk (lit "Poll") fields [].

Definition named_event (rust_type : positive) (fields : list FieldDef.t) : TraceEvent.t :=
  TraceEvent.mk rust_type 0 (named_entry fields) 5 (encode_field (U16 7)).

Definition first_named : TraceEvent.t :=
  named_event 1 [FieldDef.mk (lit "n") FieldType.U16].

Definition second_named : TraceEvent.t :=
  named_event 2 [FieldDef.mk (lit "count") FieldType.U16].

(** [encode] is infallible by name only: a typed event whose name another
    type of the same batch has with other fields panics in the thread that
    records it, where [write_event] would return an error; the buffer stays
    poisoned, and from then on nothing the thread recorded since its last
    batch, or records later, is handed over while it lives. *)
Theorem name_clash_poisons location_text size epoch steps :
  let b0 := with_batch_size size in
  let '(o, batch, _, b) :=
    with_encoder location_text
      [Encode first_named [FieldValue.Varint 7] 0x1000;
       Encode second_named [FieldValue.Varint 7] 0x2000] epoch b0 in
  o = Panicked ∧ batch = None ∧ ThreadLocalBuffer.event_count b = 1 ∧
  fst (do_steps location_text steps b) = [].
Proof.
  cbv zeta. unfold with_encoder. cbn [ThreadLocalBuffer.poisoned with_batch_size].
  match goal with |- context [do_calls ?t ?l ?x] =>
    assert (∃ b, do_calls t l x = (Panicked, b) ∧ ThreadLocalBuffer.event_count b = 1)
      as (b & -> & Hn) by (eexists; split; [vm_compute; reflexivity|reflexivity]) end.
  split; [done|]. split; [done|]. split; [exact Hn|].
  pose proof (poisoned_stays location_text steps (ThreadLocalBuffer.poison b) eq_refl) as H.
  destruct (do_steps location_text steps (ThreadLocalBuffer.poison b)) as [batches b']. apply H.
Qed.

(** ** A thread *)

Definition example_steps : list tl_step :=
  let e := Encode sample_event [FieldValue.Varint 258] 0x2000 in
  [Record [e; e] 0; DrainIdle 1; Record [e; InternLocation 9] 1; Record [InternString (lit "x")] 2;
   Record [e] 2; DrainSelf; Record [e; e; e] 2].

Definition example_text (key : Z) : bytes := lit "src/main.rs:1:1".

(** Room for the calls of the example, checked along the run. *)
Definition room (e : Encoder.t) : bool :=
  (SchemaRegistry.next_id (Encoder.registry e) + 1 <? 2 ^ 16)
  && bool_decide (Encoder.dynamic_schema_cache e !! 0x2000 = None)
  && (Encoder.next_pool_id e + 1 <? 2 ^ 32).

Definition example_call (c : tl_call) : Prop :=
  c = Encode sample_event [FieldValue.Varint 258] 0x2000 ∨ c = InternLocation 9 ∨
  c = InternString (lit "x").

Fixpoint calls_room (l : list tl_call) (b : Buf) : bool :=
  match l with
  | [] => true
  | c :: l =>
      room (ThreadLocalBuffer.encoder b) && calls_room l (snd (do_call example_text c b))
  end.

Fixpoint steps_room (l : list tl_step) (b : Buf) : bool :=
  match l with
  | [] => true
  | s :: l =>
      match s with
      | Record f _ => calls_room f (ThreadLocalBuffer.set_collector b)
      | _ => true
      end && steps_room l (snd (do_step example_text s b))
  end.

Lemma example_call_ok c b :
  example_call c → room (ThreadLocalBuffer.encoder b) = true →
  @call_ok (λ _, sample_entry) (λ _, sample_entry) example_text c b.
Proof.
  unfold room. intros Hc [[H1 H2]%andb_true_iff H3]%andb_true_iff.
  apply bool_decide_eq_true in H2. apply Z.ltb_lt in H3.
  destruct Hc as [->|[->| ->]].
  - split; [exact sample_event_ok|]. by apply handle_ok_intro.
  - by split; [|split].
  - by split; [|split].
Qed.

Lemma example_calls_ok l b :
  Forall example_call l → calls_room l b = true →
  @calls_ok (λ _, sample_entry) (λ _, sample_entry) example_text l b.
Proof.
  intros Hl. revert b. induction Hl as [|c l Hc _ IH]; intros b; cbn [calls_room calls_ok]; [done|].
  intros [Hr Hrest]%andb_true_iff. split; [by apply example_call_ok|by apply IH].
Qed.

Lemma example_run_steps_ok l b :
  Forall (λ s, match s with Record f _ => Forall example_call f | _ => True end) l →
  steps_room l b = true →
  @steps_ok (λ _, sample_entry) (λ _, sample_entry) example_text l b.
Proof.
  intros Hl. revert b. induction Hl as [|s l Hs _ IH]; intros b; cbn [steps_room steps_ok]; [done|].
  intros [Hr Hrest]%andb_true_iff. split; [|by apply IH].
  destruct s; [|done|done]. intros _. by apply example_calls_ok.
Qed.

Lemma example_steps_ok :
  @steps_ok (λ _, sample_entry) (λ _, sample_entry) example_text example_steps
    (with_batch_size 1000).
Proof.
  apply example_run_steps_ok; [|by vm_compute].
  unfold example_steps, example_call.
  repeat first [apply List.Forall_cons | apply List.Forall_nil | by auto | exact I].
Qed.


Example location_ids_current_witness :
  ∃ id b', intern_location example_text 9 (with_batch_size 1000) = (Ok id, b') ∧
    Encoder.string_pool (ThreadLocalBuffer.encoder b') !! example_text 9 = Some id.
Proof.
  destruct (location_ids_current (λ _, sample_entry) (λ _, sample_entry) example_text
    (with_batch_size 1000) [] 9 (tl_new_ok example_text 1000)) as (id & b' & H1 & H2 & _).
  { repeat split; by vm_compute. }
  by exists id, b'.
Defined.
