(* ===== verification/FlushLoop.v ===== *)
(** * The flush loop (dial9-core/src/collector.rs, shared_state.rs, flush_loop.rs)

    [CentralCollector], the recording lifecycle of [SharedState], and the flush
    thread: its drain state machine and one turn of its loop, with what it does
    recorded as a list of actions.  What other threads, the sources and the
    application do during a turn is an argument: the batches that arrive, the
    batches drained from thread-local buffers (see TlBuffer), the metadata the
    sources push, the panics caught, the clocks.  The application changes the
    lifecycle between turns. *)

From Stdlib Require Import ZArith Lia.
From stdpp Require Import base list gmap strings option sorting.
From coqutil Require Import Byte.
From S2P Require Import Prelude.
From S2P Require Import Format.
From S2P Require Import MemRing.
From S2P Require Import SegmentFs.
From S2P Require Import DiskFs.
From S2P Require Import SegmentWriter.

(** ** The collector *)

Definition DEFAULT_CAPACITY : Z := 1024.

(** The queue is a [BoundedQueue], oldest batch first. *)
Module CentralCollector.
Record t : Type := mk { queue : list Batch.t; capacity : Z; dropped_batches : Z }.
End CentralCollector.

Abbreviation Collector := CentralCollector.t.

Definition collector_new : Collector := CentralCollector.mk [] DEFAULT_CAPACITY 0.

(** [BoundedQueue::force_push]: the evicted batch and the queue. *)
Definition force_push (capacity : Z) (b : Batch.t) (q : list Batch.t)
    : option Batch.t * list Batch.t :=
  if capacity <=? Z.of_nat (length q)
  then (head q, tail q ++ [b])
  else (None, q ++ [b]).

Definition accept_flush (b : Batch.t) (c : Collector) : option Batch.t * Collector :=
  let '(evicted, q) := force_push (CentralCollector.capacity c) b (CentralCollector.queue c) in
  (evicted, CentralCollector.mk q (CentralCollector.capacity c)
              (CentralCollector.dropped_batches c
               + match evicted with Some _ => 1 | None => 0 end)).

Definition next (c : Collector) : option Batch.t * Collector :=
  match CentralCollector.queue c with
  | [] => (None, c)
  | b :: q => (Some b, CentralCollector.mk q (CentralCollector.capacity c)
                         (CentralCollector.dropped_batches c))
  end.

Definition take_dropped_batches (c : Collector) : Z * Collector :=
  (CentralCollector.dropped_batches c,
   CentralCollector.mk (CentralCollector.queue c) (CentralCollector.capacity c) 0).

Definition is_empty (b : Batch.t) : bool := Batch.event_count b =? 0.

(** ** The lifecycle *)

Inductive State : Set := Disabled | Enabled | Failed | Stopped.

#[global] Instance state_eq_dec : EqDecision State.
Proof. solve_decision. Defined.

Definition enable (s : State) : State := match s with Disabled => Enabled | s => s end.
Definition disable (s : State) : State := match s with Enabled => Disabled | s => s end.

(** [fetch_max(Failed)]. *)
Definition disable_permanently (s : State) : State :=
  match s with Disabled | Enabled => Failed | s => s end.

Definition mark_stopped (s : State) : State := Stopped.

Definition is_enabled (s : State) : bool := match s with Enabled => true | _ => false end.

(** ** One turn of the loop *)

Inductive DrainState : Set := Idle | EpochBumped.

Definition SELF_DRAIN_INTERVAL : Z := 200.

(** A call on the writer. *)
Inductive writer_call : Type :=
| CallUpdate (entries : list (bytes * bytes))
| CallWrite (b : Batch.t)
| CallDrained
| CallMetadata
| CallFinalize.

(** What the loop does, in order. *)
Inductive action : Type :=
| Accepted (b : Batch.t)
| EvictedBatch (b : Batch.t)
| Popped (b : Batch.t)
| ReportDropped (n : Z)
| BumpEpoch
| DrainTlBuffers
| CallWriter (c : writer_call) (r : Reads.t).

(** A source's [segment_metadata]: what it pushed, and whether it panicked. *)
Module SourceTurn.
Record t : Type := mk { name : bytes; entries : list (bytes * bytes); panicked : bool }.
End SourceTurn.

(** The moments of a turn at which the writer reads the clocks. *)
Inductive moment : Type := AtCheck | AtWrite (k : nat) | AtDrained | AtMetadata | AtFinalize.

Module Turn.
Record t : Type := mk {
  exit : bool;
  before : list Batch.t;
  metadata : list SourceTurn.t;
  tl_drained : list Batch.t;
  from_sources : list Batch.t;
  flush_panics : list bytes;
  own_batch : option Batch.t;
  arrivals : list (list Batch.t);
  clock : moment → Reads.t }.
End Turn.

Module Loop.
Record t (F : Type) : Type := mk {
  writer : Writer F;
  collector : Collector;
  state : State;
  drain_state : DrainState;
  cycle_count : Z;
  events_written : Z;
  pending_flush_panics : list bytes }.

Arguments mk {F}.
Arguments writer {F} _.
Arguments collector {F} _.
Arguments state {F} _.
Arguments drain_state {F} _.
Arguments cycle_count {F} _.
Arguments events_written {F} _.
Arguments pending_flush_panics {F} _.

Definition set_writer {F} (l : t F) (w : Writer F) : t F :=
  mk w (collector l) (state l) (drain_state l) (cycle_count l) (events_written l)
   (pending_flush_panics l).
Definition set_collector {F} (l : t F) (c : Collector) : t F :=
  mk (writer l) c (state l) (drain_state l) (cycle_count l) (events_written l)
   (pending_flush_panics l).
Definition set_state {F} (l : t F) (s : State) : t F :=
  mk (writer l) (collector l) s (drain_state l) (cycle_count l) (events_written l)
   (pending_flush_panics l).
Definition set_drain {F} (l : t F) (d : DrainState) (n : Z) : t F :=
  mk (writer l) (collector l) (state l) d n (events_written l) (pending_flush_panics l).
Definition set_written {F} (l : t F) (n : Z) : t F :=
  mk (writer l) (collector l) (state l) (drain_state l) (cycle_count l) n
   (pending_flush_panics l).
Definition set_panics {F} (l : t F) (p : list bytes) : t F :=
  mk (writer l) (collector l) (state l) (drain_state l) (cycle_count l) (events_written l) p.
End Loop.

Abbreviation Loop := Loop.t.

Section flush_loop.
Context {F : Type} `{SegmentFs F}.
Variable b : BusTypes.t.
Variable estimate : Z → Z → Z → option Z.

(** The writer's side of a call. *)
Definition perform_call (c : writer_call) (r : Reads.t) (w : Writer F)
    : result unit writer_error * Writer F :=
  match c with
  | CallUpdate entries => (Ok tt, update_segment_metadata entries w)
  | CallWrite batch => write_encoded_batch b estimate batch r w
  | CallDrained =>
      match drained b estimate r w with
      | (Ok _, w) => (Ok tt, w)
      | (Err e, w) => (Err e, w)
      end
  | CallMetadata => write_metadata_if_needed b r w
  | CallFinalize => finalize b r w
  end.

Definition call_writer (c : writer_call) (r : Reads.t) (l : Loop F)
    : bool * list action * Loop F :=
  let '(res, w) := perform_call c r (Loop.writer l) in
  (is_ok res, [CallWriter c r], Loop.set_writer l w).

(** Batches other code hands to the collector. *)
Fixpoint accept_all (batches : list Batch.t) (l : Loop F) : list action * Loop F :=
  match batches with
  | [] => ([], l)
  | x :: batches =>
      let '(evicted, c) := accept_flush x (Loop.collector l) in
      let '(actions, l) := accept_all batches (Loop.set_collector l c) in
      (match evicted with Some y => [EvictedBatch y] | None => [] end ++ Accepted x :: actions, l)
  end.

(** The pop loop of [flush_once]: before each pop, other threads may push;
    whether it ran to an empty queue. *)
Fixpoint write_batches (fuel : nat) (k : nat) (arrivals : list (list Batch.t))
    (clock : moment → Reads.t) (l : Loop F) : bool * list action * Loop F :=
  match fuel with
  | O => (false, [], l)
  | S fuel =>
      let '(pushed, l) := accept_all (default [] (head arrivals)) l in
      match next (Loop.collector l) with
      | (None, _) => (true, pushed, l)
      | (Some x, c) =>
          let l := Loop.set_collector l c in
          if is_empty x then
            let '(ok, actions, l) := write_batches fuel (S k) (tail arrivals) clock l in
            (ok, pushed ++ Popped x :: actions, l)
          else
            let '(written, call, l) := call_writer (CallWrite x) (clock (AtWrite k)) l in
            if written then
              let l := Loop.set_written l (Loop.events_written l + Batch.event_count x) in
              let '(ok, actions, l) := write_batches fuel (S k) (tail arrivals) clock l in
              (ok, pushed ++ Popped x :: call ++ actions, l)
            else
              (false, pushed ++ Popped x :: call, Loop.set_state l (disable (Loop.state l)))
      end
  end.

(** Enough for every batch that is queued or arrives. *)
Definition pop_fuel (arrivals : list (list Batch.t)) (l : Loop F) : nat :=
  S (length (CentralCollector.queue (Loop.collector l)) + length (concat arrivals)).

Definition flush_once (drain_self : bool) (t : Turn.t) (l : Loop F)
    : list action * Loop F :=
  let '(a1, l) :=
    if is_enabled (Loop.state l) then
      let '(a, l) := accept_all (Turn.from_sources t) l in
      (a, Loop.set_panics l (Loop.pending_flush_panics l ++ Turn.flush_panics t))
    else ([], l) in
  let '(a2, l) :=
    if drain_self then accept_all (option_list (Turn.own_batch t)) l else ([], l) in
  let '(n, c) := take_dropped_batches (Loop.collector l) in
  let l := Loop.set_collector l c in
  let '(_, a3, l) := write_batches (pop_fuel (Turn.arrivals t) l) 0 (Turn.arrivals t)
                       (Turn.clock t) l in
  (a1 ++ a2 ++ ReportDropped n :: a3, l).

(** [dial9.source.<name>.flush_panicked] and its like. *)
Definition panic_entry (name what : bytes) : bytes * bytes :=
  (lit "dial9.source." ++ name ++ what, lit "true").

(** The metadata of a turn: last turn's flush panics, then each source's
    entries, or only its panic. *)
Definition source_entries (t : Turn.t) (pending : list bytes) : list (bytes * bytes) :=
  map (λ name, panic_entry name (lit ".flush_panicked")) pending
  ++ concat (map (λ s, if SourceTurn.panicked s
                       then [panic_entry (SourceTurn.name s) (lit ".segment_metadata_panicked")]
                       else SourceTurn.entries s) (Turn.metadata t)).

(** The writer's metadata is only touched when there is something to say. *)
Definition update_metadata (entries : list (bytes * bytes)) (r : Reads.t) (l : Loop F)
    : list action * Loop F :=
  match entries with
  | [] => ([], l)
  | _ => let '(_, a, l) := call_writer (CallUpdate entries) r l in (a, l)
  end.

(** The drain state machine: whether this turn drains. *)
Definition coordinate (exit : bool) (instant : Z) (l : Loop F) : bool * list action * Loop F :=
  match Loop.drain_state l with
  | Idle =>
      if negb exit && should_drain instant (Loop.writer l)
      then (false, [BumpEpoch], Loop.set_drain l EpochBumped (Loop.cycle_count l))
      else (false, [], l)
  | EpochBumped => (true, [], Loop.set_drain l Idle (Loop.cycle_count l))
  end.

Definition tl_drain (t : Turn.t) (l : Loop F) : list action * Loop F :=
  let '(a, l) := accept_all (Turn.tl_drained t) l in (DrainTlBuffers :: a, l).

(** The end of the last turn. *)
Definition finish_loop (t : Turn.t) (l : Loop F) : list action * Loop F :=
  let '(a1, l) := update_metadata
    (map (λ name, panic_entry name (lit ".flush_panicked")) (Loop.pending_flush_panics l))
    (Turn.clock t AtMetadata) l in
  let '(_, a2, l) := call_writer CallMetadata (Turn.clock t AtMetadata) l in
  let '(_, a3, l) := call_writer CallFinalize (Turn.clock t AtFinalize) l in
  (a1 ++ a2 ++ a3, l).

(** One turn: what it did; the loop ends after a turn that exits. *)
Definition turn (t : Turn.t) (l : Loop F) : list action * Loop F :=
  let '(a0, l) := accept_all (Turn.before t) l in
  if negb (Turn.exit t) && negb (is_enabled (Loop.state l)) then (a0, l) else
  let entries := source_entries t (Loop.pending_flush_panics l) in
  let '(a1, l) := update_metadata entries (Turn.clock t AtCheck) (Loop.set_panics l []) in
  let l := Loop.set_drain l (Loop.drain_state l) (Loop.cycle_count l + 1) in
  let drain_self := Turn.exit t || (Loop.cycle_count l mod SELF_DRAIN_INTERVAL =? 0) in
  let '(do_drain, a2, l) := coordinate (Turn.exit t) (Reads.instant (Turn.clock t AtCheck)) l in
  let a3 := if Turn.exit t then [BumpEpoch] else [] in
  let '(a4, l) := if Turn.exit t || do_drain then tl_drain t l else ([], l) in
  let '(a5, l) := flush_once drain_self t l in
  let '(a6, l) :=
    if do_drain && negb (Turn.exit t)
    then let '(_, a, l) := call_writer CallDrained (Turn.clock t AtDrained) l in (a, l)
    else ([], l) in
  let '(a7, l) := if Turn.exit t then finish_loop t l else ([], l) in
  (a0 ++ a1 ++ a2 ++ a3 ++ a4 ++ a5 ++ a6 ++ a7, l).

(** The loop: turns until one exits. *)
Fixpoint run_flush_loop (ts : list Turn.t) (l : Loop F) : list action * Loop F :=
  match ts with
  | [] => ([], l)
  | t :: ts =>
      let '(a, l) := turn t l in
      if Turn.exit t then (a, l) else
      let '(a', l) := run_flush_loop ts l in (a ++ a', l)
  end.
End flush_loop.

(** ** Reading a list of actions *)

Definition accepted (a : list action) : list Batch.t :=
  omap (λ x, match x with Accepted b => Some b | _ => None end) a.

Definition evicted (a : list action) : list Batch.t :=
  omap (λ x, match x with EvictedBatch b => Some b | _ => None end) a.

Definition popped (a : list action) : list Batch.t :=
  omap (λ x, match x with Popped b => Some b | _ => None end) a.

Definition calls (a : list action) : list (writer_call * Reads.t) :=
  omap (λ x, match x with CallWriter c r => Some (c, r) | _ => None end) a.

Definition reported (a : list action) : Z :=
  foldr (λ x n, match x with ReportDropped m => m + n | _ => n end) 0 a.

(** The batches written. *)
Definition writes (l : list (writer_call * Reads.t)) : list Batch.t :=
  omap (λ x, match fst x with CallWrite b => Some b | _ => None end) l.

Lemma reported_app a a' : reported (a ++ a') = reported a + reported a'.
Proof.
  unfold reported. induction a as [|x a IH]; [done|]. cbn [app foldr]. destruct x; rewrite ?IH; lia.
Qed.

Definition nonempty (l : list Batch.t) : list Batch.t :=
  filter (λ x, is_empty x = false) l.

#[global] Arguments nonempty : simpl never.

Lemma nonempty_one x : nonempty [x] = if is_empty x then [] else [x].
Proof. unfold nonempty. cbn. by destruct (is_empty x). Qed.

Section flows.
Context {F : Type} `{SegmentFs F}.
Variable b : BusTypes.t.
Variable estimate : Z → Z → Z → option Z.

Abbreviation perform_call := (perform_call b estimate).
Abbreviation call_writer := (call_writer b estimate).
Abbreviation write_batches := (write_batches b estimate).

(** The writer after a list of calls. *)
Definition after_calls (l : list (writer_call * Reads.t)) (w : Writer F) : Writer F :=
  foldl (λ w '(c, r), snd (perform_call c r w)) w l.

(** What the actions [a] did between two states of the loop: to the writer
    only the calls among them; batches leave the queue in the order they came,
    popped or evicted; the evictions are counted; what is popped is written,
    unless it is empty. *)
Record flows (l : Loop F) (a : list action) (l' : Loop F) : Prop := {
  flows_writer : Loop.writer l' = after_calls (calls a) (Loop.writer l);
  flows_order :
    popped a ++ CentralCollector.queue (Loop.collector l')
    `sublist_of` CentralCollector.queue (Loop.collector l) ++ accepted a;
  flows_all :
    CentralCollector.queue (Loop.collector l) ++ accepted a
    ≡ₚ popped a ++ evicted a ++ CentralCollector.queue (Loop.collector l');
  flows_dropped :
    reported a + CentralCollector.dropped_batches (Loop.collector l')
    = CentralCollector.dropped_batches (Loop.collector l) + Z.of_nat (length (evicted a));
  flows_written : writes (calls a) = nonempty (popped a);
  flows_capacity : CentralCollector.capacity (Loop.collector l')
                   = CentralCollector.capacity (Loop.collector l) }.

Lemma flows_nil l l' :
  Loop.writer l' = Loop.writer l → Loop.collector l' = Loop.collector l → flows l [] l'.
Proof.
  intros Hw Hc. split; rewrite ?Hc; try done; cbn; [by rewrite app_nil_r| |lia].
  by rewrite app_nil_r.
Qed.

Lemma flows_app l a l1 a' l2 : flows l a l1 → flows l1 a' l2 → flows l (a ++ a') l2.
Proof.
  intros [W1 O1 A1 D1 R1 C1] [W2 O2 A2 D2 R2 C2].
  split; unfold popped, accepted, evicted, calls, writes, nonempty in *; rewrite ?omap_app.
  - unfold after_calls in *. by rewrite foldl_app, W2, W1.
  - etrans; [|rewrite app_assoc; apply sublist_app; [exact O1|reflexivity]].
    rewrite <- !app_assoc. by apply sublist_app.
  - rewrite app_assoc, A1, <- !app_assoc, A2. solve_Permutation.
  - rewrite reported_app, length_app. lia.
  - by rewrite R1, R2, list.filter_app.
  - congruence.
Qed.

(** Everything but the writer and the collector, in a turn. *)
Record same_frame (l l' : Loop F) : Prop := {
  frame_drain : Loop.drain_state l' = Loop.drain_state l;
  frame_cycle : Loop.cycle_count l' = Loop.cycle_count l;
  frame_panics : Loop.pending_flush_panics l' = Loop.pending_flush_panics l }.

#[global] Instance same_frame_preorder : PreOrder same_frame.
Proof. split; [by split|]. intros l1 l2 l3 [] []. split; congruence. Qed.

Lemma accept_flows x (l : Loop F) :
  let '(ev, c) := accept_flush x (Loop.collector l) in
  flows l (match ev with Some y => [EvictedBatch y] | None => [] end ++ [Accepted x])
    (Loop.set_collector l c).
Proof.
  unfold accept_flush, force_push.
  destruct (_ <=? _);
    destruct (CentralCollector.queue (Loop.collector l)) as [|y q] eqn:E;
    (split; cbn; rewrite ?E; try done; try lia).
  by apply sublist_cons.
Qed.

Lemma accept_all_flows batches (l : Loop F) :
  let '(a, l') := accept_all batches l in
  flows l a l' ∧ Loop.writer l' = Loop.writer l ∧ Loop.state l' = Loop.state l ∧
  same_frame l l' ∧ accepted a = batches ∧ calls a = [] ∧ popped a = [].
Proof.
  revert l. induction batches as [|x batches IH]; intros l; cbn [accept_all].
  { split; [by apply flows_nil|]. by split_and!. }
  pose proof (accept_flows x l) as H1. destruct (accept_flush x _) as [ev c].
  specialize (IH (Loop.set_collector l c)).
  destruct (accept_all batches (Loop.set_collector l c)) as [a l'].
  destruct IH as (H2 & Hw & Hs & Hf & Ha & Hc & Hp).
  assert (match ev with Some y => [EvictedBatch y] | None => [] end ++ Accepted x :: a
          = (match ev with Some y => [EvictedBatch y] | None => [] end ++ [Accepted x]) ++ a) as ->
    by by rewrite <- app_assoc.
  split; [by eapply flows_app|]. split; [done|]. split; [done|].
  split; [by etrans; [|exact Hf]|].
  unfold accepted, calls, popped in *. rewrite !omap_app, Ha, Hc, Hp. by destruct ev.
Qed.

Lemma call_flows c r (l : Loop F) :
  match c with CallWrite _ => False | _ => True end →
  let '(_, a, l') := call_writer c r l in
  flows l a l' ∧ Loop.state l' = Loop.state l ∧ same_frame l l' ∧ a = [CallWriter c r].
Proof.
  intros Hc. unfold FlushLoop.call_writer.
  destruct (perform_call c r (Loop.writer l)) as [res w] eqn:E.
  split; [|by split_and!]. split; cbn; try done; try lia.
  - by rewrite E.
  - by rewrite app_nil_r.
  - by rewrite app_nil_r.
  - by destruct c.
Qed.

(** A batch leaves the queue, and is written or is empty. *)
Lemma pop_flows x c (l : Loop F) :
  next (Loop.collector l) = (Some x, c) → is_empty x = true →
  flows l [Popped x] (Loop.set_collector l c).
Proof.
  unfold next. destruct (CentralCollector.queue (Loop.collector l)) as [|y q] eqn:E; [done|].
  intros [= -> <-] Hx. split; cbn; rewrite ?E, ?app_nil_r; try done; try lia.
  by rewrite nonempty_one, Hx.
Qed.

Lemma pop_write_flows x c r (l l' : Loop F) :
  next (Loop.collector l) = (Some x, c) → is_empty x = false →
  Loop.writer l' = snd (perform_call (CallWrite x) r (Loop.writer l)) → Loop.collector l' = c →
  flows l [Popped x; CallWriter (CallWrite x) r] l'.
Proof.
  unfold next. destruct (CentralCollector.queue (Loop.collector l)) as [|y q] eqn:E; [done|].
  intros [= -> <-] Hx Hw Hc. split; rewrite ?Hc; cbn; rewrite ?E, ?app_nil_r; try done; try lia.
  by rewrite nonempty_one, Hx.
Qed.

Lemma write_batches_flows fuel k arrivals clock (l : Loop F) :
  let '(ok, a, l') := write_batches fuel k arrivals clock l in
  flows l a l' ∧ same_frame l l' ∧
  (ok = true → CentralCollector.queue (Loop.collector l') = [] ∧ Loop.state l' = Loop.state l).
Proof.
  revert k arrivals l. induction fuel as [|fuel IH]; intros k arrivals l; cbn [FlushLoop.write_batches].
  { split; [by apply flows_nil|]. by split_and!. }
  pose proof (accept_all_flows (default [] (head arrivals)) l) as H1.
  destruct (accept_all _ l) as [pushed l1]. destruct H1 as (H1 & _ & Hs1 & Hf1 & _).
  destruct (next (Loop.collector l1)) as [[x|] c] eqn:Hnext.
  2:{ split; [done|]. split; [done|]. intros _. split; [|done].
      unfold next in Hnext. by destruct (CentralCollector.queue (Loop.collector l1)). }
  destruct (is_empty x) eqn:Hx.
  - specialize (IH (S k) (tail arrivals) (Loop.set_collector l1 c)).
    destruct (write_batches fuel _ _ _ _) as [[ok a] l2]. destruct IH as (H2 & Hf2 & Hok).
    split; [|split].
    + eapply flows_app; [exact H1|]. change (Popped x :: a) with ([Popped x] ++ a).
      eapply flows_app; [by eapply pop_flows|exact H2].
    + etrans; [exact Hf1|]. by etrans; [|exact Hf2].
    + intros ->. destruct (Hok eq_refl) as [Hq Hs]. split; [done|]. by rewrite Hs.
  - unfold FlushLoop.call_writer.
    destruct (perform_call (CallWrite x) (clock (AtWrite k)) _) as [res w] eqn:Ew.
    destruct (is_ok res).
    + match goal with |- context [write_batches fuel (S k) (tail arrivals) clock ?y] =>
        set (l2 := y) end.
      specialize (IH (S k) (tail arrivals) l2).
      destruct (write_batches fuel _ _ _ _) as [[ok a] l3]. destruct IH as (H2 & Hf2 & Hok).
      assert (flows l1 [Popped x; CallWriter (CallWrite x) (clock (AtWrite k))] l2) as Hw.
      { eapply (pop_write_flows x c); [done|done| |done]. exact (f_equal snd (eq_sym Ew)). }
      split; [|split].
      * eapply flows_app; [exact H1|].
        change (Popped x :: [CallWriter (CallWrite x) (clock (AtWrite k))] ++ a)
          with ([Popped x; CallWriter (CallWrite x) (clock (AtWrite k))] ++ a).
        by eapply flows_app.
      * etrans; [exact Hf1|]. by etrans; [|exact Hf2].
      * intros ->. destruct (Hok eq_refl) as [Hq Hs]. split; [done|]. by rewrite Hs.
    + split; [|split; [|done]].
      * eapply flows_app; [exact H1|]. eapply (pop_write_flows x c); [done|done| |done].
        exact (f_equal snd (eq_sym Ew)).
      * etrans; [exact Hf1|]. by split.
Qed.

(** Batch traffic: neither a drain nor an end. *)
Definition traffic (x : action) : bool :=
  match x with
  | BumpEpoch | DrainTlBuffers => false
  | CallWriter (CallUpdate _ | CallWrite _) _ => true
  | CallWriter _ _ => false
  | _ => true
  end.

Lemma accept_all_traffic batches (l : Loop F) :
  Forall traffic (fst (accept_all batches l)).
Proof.
  revert l. induction batches as [|x batches IH]; intros l; cbn [accept_all]; [constructor|].
  destruct (accept_flush x _) as [ev c]. specialize (IH (Loop.set_collector l c)).
  destruct (accept_all batches _) as [a l']. cbn in *. apply list.Forall_app.
  split; [destruct ev; repeat constructor|by constructor].
Qed.

Lemma write_batches_traffic fuel k arrivals clock (l : Loop F) :
  Forall traffic (snd (fst (write_batches fuel k arrivals clock l))).
Proof.
  revert k arrivals l. induction fuel as [|fuel IH]; intros k arrivals l; cbn [FlushLoop.write_batches];
    [constructor|].
  pose proof (accept_all_traffic (default [] (head arrivals)) l) as H1.
  destruct (accept_all _ l) as [pushed l1]. destruct (next _) as [[x|] c]; [|done].
  destruct (is_empty x).
  - specialize (IH (S k) (tail arrivals) (Loop.set_collector l1 c)).
    destruct (write_batches fuel _ _ _ _) as [[ok a] l2]. cbn in *.
    apply list.Forall_app. split; [done|]. by constructor.
  - destruct (call_writer _ _ _) as [[written call] l2] eqn:E.
    unfold FlushLoop.call_writer in E. destruct (perform_call _ _ _). injection E as <- <- <-.
    destruct (is_ok _).
    + match goal with |- context [write_batches fuel (S k) (tail arrivals) clock ?y] =>
        specialize (IH (S k) (tail arrivals) y) end.
      destruct (write_batches fuel _ _ _ _) as [[ok a] l3]. cbn in *.
      apply list.Forall_app. split; [done|]. repeat constructor; done.
    + cbn in *. apply list.Forall_app. split; [done|]. repeat constructor; done.
Qed.

(** The last call on the writer was a write that failed. *)
Definition write_failed (a : list action) (w : Writer F) : Prop :=
  ∃ cs x r, calls a = cs ++ [(CallWrite x, r)] ∧
    is_ok (fst (perform_call (CallWrite x) r (after_calls cs w))) = false.

Lemma write_failed_app a a' w :
  write_failed a' (after_calls (calls a) w) → write_failed (a ++ a') w.
Proof.
  intros (cs & x & r & Hc & Hf). exists (calls a ++ cs), x, r. unfold calls, after_calls in *.
  rewrite omap_app, Hc, <- app_assoc, foldl_app. done.
Qed.

(** With the fuel of [flush_once] the pop loop ends for its own reasons. *)
Lemma write_batches_end fuel k arrivals clock (l : Loop F) :
  (length (CentralCollector.queue (Loop.collector l)) + length (concat arrivals) < fuel)%nat →
  let '(ok, a, l') := write_batches fuel k arrivals clock l in
  ok = false → write_failed a (Loop.writer l) ∧ Loop.state l' = disable (Loop.state l).
Proof.
  revert k arrivals l. induction fuel as [|fuel IH]; intros k arrivals l Hfuel; [lia|].
  cbn [FlushLoop.write_batches].
  pose proof (accept_all_flows (default [] (head arrivals)) l) as H1.
  destruct (accept_all _ l) as [pushed l1]. destruct H1 as (H1 & Hw1 & Hs1 & _ & Ha1 & Hc1 & Hp1).
  destruct (next (Loop.collector l1)) as [[x|] c] eqn:Hnext; [|done].
  assert (length (CentralCollector.queue c) + length (concat (tail arrivals)) < fuel)%nat as Hl.
  { pose proof (Permutation_length (flows_all _ _ _ H1)) as Hq. rewrite Ha1, !length_app in Hq.
    unfold next in Hnext.
    destruct (CentralCollector.queue (Loop.collector l1)) as [|y q]; [done|].
    injection Hnext as -> <-. cbn in *.
    destruct arrivals as [|z arrivals]; cbn in *; rewrite ?length_app in *; lia. }
  destruct (is_empty x) eqn:Hx.
  - specialize (IH (S k) (tail arrivals) (Loop.set_collector l1 c) Hl).
    destruct (write_batches fuel _ _ _ _) as [[ok a] l2]. intros Hok. specialize (IH Hok).
    destruct IH as [IH Hs]. split; [|by rewrite Hs; cbn; rewrite Hs1].
    apply write_failed_app. rewrite Hc1. cbn. rewrite <- Hw1.
    by apply (write_failed_app [Popped x]).
  - unfold FlushLoop.call_writer.
    destruct (perform_call (CallWrite x) (clock (AtWrite k)) _) as [res w] eqn:Ew.
    destruct (is_ok res) eqn:Eok.
    + match goal with |- context [write_batches fuel (S k) (tail arrivals) clock ?y] =>
        set (l2 := y) end.
      specialize (IH (S k) (tail arrivals) l2 Hl).
      destruct (write_batches fuel _ _ _ _) as [[ok a] l3]. intros Hok. specialize (IH Hok).
      destruct IH as [IH Hs]. split; [|by rewrite Hs; cbn; rewrite Hs1].
      apply write_failed_app. rewrite Hc1. cbn [after_calls foldl]. rewrite <- Hw1.
      apply (write_failed_app (Popped x :: [CallWriter (CallWrite x) (clock (AtWrite k))])).
      unfold after_calls. cbn [calls omap list_omap foldl].
      replace (snd _) with w by exact (f_equal snd (eq_sym Ew)). exact IH.
    + intros _. split; [|by cbn; rewrite Hs1].
      apply write_failed_app. rewrite Hc1. cbn [after_calls foldl]. rewrite <- Hw1.
      exists [], x, (clock (AtWrite k)). split; [done|].
      change (is_ok (fst (perform_call (CallWrite x) (clock (AtWrite k)) (Loop.writer (Loop.set_collector l1 c)))) = false).
      by rewrite Ew.
Qed.

Abbreviation flush_once := (flush_once b estimate).
Abbreviation update_metadata := (update_metadata b estimate).
Abbreviation finish_loop := (finish_loop b estimate).
Abbreviation turn := (turn b estimate).

(** How the pop loop ended: with an empty queue, or because a write failed,
    which disables recording. *)
Definition popped_out (a : list action) (l l' : Loop F) : Prop :=
  CentralCollector.queue (Loop.collector l') = [] ∧ Loop.state l' = Loop.state l ∨
  write_failed a (Loop.writer l) ∧ Loop.state l' = disable (Loop.state l).

Lemma popped_out_app a a' (l l1 l' : Loop F) :
  Loop.writer l1 = after_calls (calls a) (Loop.writer l) → Loop.state l1 = Loop.state l →
  popped_out a' l1 l' → popped_out (a ++ a') l l'.
Proof.
  unfold popped_out. intros Hw -> [?|[Hf ?]]; [by left|right]. split; [|done].
  apply write_failed_app. by rewrite <- Hw.
Qed.

Lemma report_flows (l : Loop F) :
  let '(n, c) := take_dropped_batches (Loop.collector l) in
  flows l [ReportDropped n] (Loop.set_collector l c).
Proof. cbn. split; cbn; rewrite ?app_nil_r; done || lia. Qed.

(** What [flush_once] keeps and gives. *)
Record flush_spec (t : Turn.t) (l : Loop F) (a : list action) (l' : Loop F) : Prop := {
  flush_flows : flows l a l';
  flush_traffic : Forall traffic a;
  flush_out : popped_out a l l';
  flush_drain : Loop.drain_state l' = Loop.drain_state l;
  flush_cycle : Loop.cycle_count l' = Loop.cycle_count l }.

Lemma flush_once_spec d t (l : Loop F) :
  let '(a, l') := flush_once d t l in flush_spec t l a l'.
Proof.
  unfold FlushLoop.flush_once.
  set (s1 := if is_enabled _ then _ else _).
  assert (flows l (fst s1) (snd s1) ∧ Forall traffic (fst s1) ∧
          Loop.state (snd s1) = Loop.state l ∧ Loop.drain_state (snd s1) = Loop.drain_state l ∧
          Loop.cycle_count (snd s1) = Loop.cycle_count l) as (F1 & T1 & S1 & D1 & C1).
  { subst s1. destruct (is_enabled _); [|split_and!; [by apply flows_nil|constructor|done..]].
    pose proof (accept_all_flows (Turn.from_sources t) l) as H1.
    pose proof (accept_all_traffic (Turn.from_sources t) l) as HT.
    destruct (accept_all _ l) as [a l1]. destruct H1 as (H1 & _ & Hs & [Hd Hc _] & _).
    split_and!; [|done..]. cbn. rewrite <- (app_nil_r a).
    eapply flows_app; [exact H1|by apply flows_nil]. }
  destruct s1 as [a1 l1]. cbn [fst snd] in *.
  set (s2 := if d then _ else _).
  assert (flows l1 (fst s2) (snd s2) ∧ Forall traffic (fst s2) ∧
          Loop.state (snd s2) = Loop.state l1 ∧ Loop.drain_state (snd s2) = Loop.drain_state l1 ∧
          Loop.cycle_count (snd s2) = Loop.cycle_count l1) as (F2 & T2 & S2 & D2 & C2).
  { subst s2. destruct d; [|split_and!; [by apply flows_nil|constructor|done..]].
    pose proof (accept_all_flows (option_list (Turn.own_batch t)) l1) as H1.
    pose proof (accept_all_traffic (option_list (Turn.own_batch t)) l1) as HT.
    destruct (accept_all _ l1) as [a l2]. destruct H1 as (H1 & _ & Hs & [Hd Hc _] & _).
    by split_and!. }
  destruct s2 as [a2 l2]. cbn [fst snd] in *.
  pose proof (report_flows l2) as F3. destruct (take_dropped_batches _) as [n c].
  set (l3 := Loop.set_collector l2 c) in *.
  pose proof (write_batches_flows (pop_fuel (Turn.arrivals t) l3) 0 (Turn.arrivals t) (Turn.clock t) l3) as H4.
  pose proof (write_batches_traffic (pop_fuel (Turn.arrivals t) l3) 0 (Turn.arrivals t) (Turn.clock t) l3) as T4.
  pose proof (write_batches_end (pop_fuel (Turn.arrivals t) l3) 0 (Turn.arrivals t) (Turn.clock t) l3) as E4.
  destruct (write_batches _ _ _ _ _) as [[ok a3] l4]. destruct H4 as (F4 & [D4 C4 _] & O4).
  specialize (E4 ltac:(unfold pop_fuel; lia)).
  assert (flows l (a1 ++ a2 ++ [ReportDropped n]) l3) as F13.
  { eapply flows_app; [exact F1|]. by eapply flows_app. }
  assert (a1 ++ a2 ++ ReportDropped n :: a3 = (a1 ++ a2 ++ [ReportDropped n]) ++ a3) as ->
    by by rewrite <- !app_assoc.
  split; [by eapply flows_app| | |by rewrite D4; cbn; rewrite D2|by rewrite C4; cbn; rewrite C2].
  - cbn in T4. rewrite !list.Forall_app. split_and!; [done|done|by repeat constructor|done].
  - eapply popped_out_app; [apply (flows_writer _ _ _ F13)|by cbn; rewrite S2|].
    unfold popped_out. destruct ok; [left; by apply O4|right; by apply E4].
Qed.

Lemma update_metadata_spec entries r (l : Loop F) :
  let '(a, l') := update_metadata entries r l in
  flows l a l' ∧ Loop.state l' = Loop.state l ∧ same_frame l l' ∧ Loop.collector l' = Loop.collector l ∧
  a = match entries with [] => [] | _ => [CallWriter (CallUpdate entries) r] end ∧
  should_drain (Reads.instant r) (Loop.writer l') = should_drain (Reads.instant r) (Loop.writer l).
Proof.
  unfold FlushLoop.update_metadata. destruct entries as [|e es].
  { split; [by apply flows_nil|]. by split_and!. }
  pose proof (call_flows (CallUpdate (e :: es)) r l I) as H1.
  unfold FlushLoop.call_writer in *. destruct (perform_call _ _ _) as [res w] eqn:E.
  destruct H1 as (H1 & Hs & Hf & Ha). split_and!; [done..|].
  cbn. injection E as <- <-. unfold update_segment_metadata.
  destruct (merge _ _) as [[] m]; [|done]. unfold should_drain.
  by destruct (Writer.state (Loop.writer l)).
Qed.

(** How the pops of a turn ended. *)
Definition emptied (a : list action) (l l' : Loop F) : Prop :=
  CentralCollector.queue (Loop.collector l') = [] ∧ Loop.state l' = Loop.state l ∨
  (∃ p, p `prefix_of` a ∧ write_failed p (Loop.writer l)) ∧
    Loop.state l' = disable (Loop.state l).

Lemma popped_out_emptied a s (l l1 l' : Loop F) :
  Loop.collector l' = Loop.collector l1 → Loop.state l' = Loop.state l1 →
  popped_out a l l1 → emptied (a ++ s) l l'.
Proof.
  unfold popped_out, emptied. intros -> -> [?|[Hf ?]]; [by left|right].
  split; [|done]. exists a. split; [by exists s|done].
Qed.

Lemma call_spec c r (l : Loop F) :
  match c with CallWrite _ => False | _ => True end →
  let '(_, a, l') := call_writer c r l in
  flows l a l' ∧ Loop.state l' = Loop.state l ∧ same_frame l l' ∧ a = [CallWriter c r] ∧
  Loop.collector l' = Loop.collector l.
Proof.
  intros Hc. pose proof (call_flows c r l Hc) as H1.
  unfold FlushLoop.call_writer in *. destruct (perform_call _ _ _). naive_solver.
Qed.

(** The end of the last turn: two calls, after the metadata. *)
Lemma finish_spec t (l : Loop F) :
  let '(a, l') := finish_loop t l in
  flows l a l' ∧ Loop.state l' = Loop.state l ∧ same_frame l l' ∧
  Loop.collector l' = Loop.collector l ∧
  ∃ a1, Forall traffic a1 ∧
    a = a1 ++ [CallWriter CallMetadata (Turn.clock t AtMetadata);
               CallWriter CallFinalize (Turn.clock t AtFinalize)].
Proof.
  unfold FlushLoop.finish_loop.
  match goal with |- context [update_metadata ?e ?r l] =>
    pose proof (update_metadata_spec e r l) as H1; destruct (update_metadata e r l) as [a1 l1] end.
  destruct H1 as (F1 & S1 & R1 & K1 & A1 & _).
  pose proof (call_spec CallMetadata (Turn.clock t AtMetadata) l1 I) as H2.
  destruct (call_writer CallMetadata _ l1) as [[o2 a2] l2]. destruct H2 as (F2 & S2 & R2 & -> & K2).
  pose proof (call_spec CallFinalize (Turn.clock t AtFinalize) l2 I) as H3.
  destruct (call_writer CallFinalize _ l2) as [[o3 a3] l3]. destruct H3 as (F3 & S3 & R3 & -> & K3).
  split; [eapply flows_app; [exact F1|]; by eapply flows_app|].
  split; [congruence|]. split; [etrans; [exact R1|]; by etrans|]. split; [congruence|].
  exists a1. split; [|done]. rewrite A1. destruct (map _ _); by repeat constructor.
Qed.

Definition bumped (d : DrainState) : bool := match d with Idle => false | EpochBumped => true end.

(** Whether a turn finds a drain due. *)
Definition due (t : Turn.t) (l : Loop F) : bool :=
  negb (bumped (Loop.drain_state l)) && negb (Turn.exit t)
  && should_drain (Reads.instant (Turn.clock t AtCheck)) (Loop.writer l).

Definition last_calls (t : Turn.t) (l : Loop F) : list action :=
  if Turn.exit t
  then [CallWriter CallMetadata (Turn.clock t AtMetadata);
        CallWriter CallFinalize (Turn.clock t AtFinalize)]
  else if bumped (Loop.drain_state l)
       then [CallWriter CallDrained (Turn.clock t AtDrained)]
       else [].

(** The middle of a turn: the marks of the drain state machine. *)
Definition marks (t : Turn.t) (l : Loop F) : list action :=
  (if due t l then [BumpEpoch] else []) ++ (if Turn.exit t then [BumpEpoch] else [])
  ++ (if Turn.exit t || bumped (Loop.drain_state l) then [DrainTlBuffers] else []).

(** What a turn that works does, in order. *)
Record turn_spec (t : Turn.t) (l : Loop F) (a : list action) (l' : Loop F) : Prop := {
  turn_flows : flows l a l';
  turn_emptied : emptied a l l';
  turn_drain : Loop.drain_state l' = if due t l then EpochBumped else Idle;
  turn_cycle : Loop.cycle_count l' = Loop.cycle_count l + 1;
  turn_shape : ∃ a1 a2, Forall traffic a1 ∧ Forall traffic a2 ∧
    a = a1 ++ marks t l ++ a2 ++ last_calls t l ∧
    ((Turn.exit t || bumped (Loop.drain_state l)) = true →
     Turn.tl_drained t `prefix_of` accepted a2) }.

Lemma coordinate_spec exit instant (l : Loop F) :
  let '(d, a, l') := coordinate exit instant l in
  let found := negb (bumped (Loop.drain_state l)) && negb exit
               && should_drain instant (Loop.writer l) in
  flows l a l' ∧ Loop.state l' = Loop.state l ∧ Loop.collector l' = Loop.collector l ∧
  d = bumped (Loop.drain_state l) ∧ a = (if found then [BumpEpoch] else []) ∧
  Loop.drain_state l' = (if found then EpochBumped else Idle) ∧
  Loop.cycle_count l' = Loop.cycle_count l.
Proof.
  unfold coordinate.
  destruct (Loop.drain_state l) eqn:Ed; [destruct exit, (should_drain instant (Loop.writer l))|];
    cbn; rewrite ?Ed; (split; [|done]); split; cbn; rewrite ?app_nil_r; done || lia.
Qed.

Lemma drain_step t (now : bool) (l : Loop F) :
  let '(a, l') := if now then tl_drain t l else ([], l) in
  flows l a l' ∧ Loop.state l' = Loop.state l ∧ same_frame l l' ∧
  ∃ a', a = (if now then [DrainTlBuffers] else []) ++ a' ∧ Forall traffic a' ∧
    (now = true → accepted a' = Turn.tl_drained t).
Proof.
  destruct now; [|split; [by apply flows_nil|]; split_and!; [done..|by exists []]].
  unfold tl_drain. pose proof (accept_all_flows (Turn.tl_drained t) l) as H1.
  pose proof (accept_all_traffic (Turn.tl_drained t) l) as T1.
  destruct (accept_all _ l) as [a l1]. destruct H1 as (H1 & _ & Hs & Hf & Ha & _).
  split; [|split_and!; [done..|by exists a]].
  change (DrainTlBuffers :: a) with ([DrainTlBuffers] ++ a).
  eapply flows_app; [|exact H1]. split; cbn; rewrite ?app_nil_r; done || lia.
Qed.

(** The end of a turn: the writer is told of the drain, or the loop ends. *)
Lemma end_step t (do_drain : bool) (l : Loop F) :
  let '(a6, l6) := if do_drain && negb (Turn.exit t)
                   then let '(_, a, l) := call_writer CallDrained (Turn.clock t AtDrained) l in (a, l)
                   else ([], l) in
  let '(a7, l7) := if Turn.exit t then finish_loop t l6 else ([], l6) in
  flows l (a6 ++ a7) l7 ∧ Loop.state l7 = Loop.state l ∧ same_frame l l7 ∧
  Loop.collector l7 = Loop.collector l ∧
  ∃ a1, Forall traffic a1 ∧
    a6 ++ a7 = a1 ++ (if Turn.exit t
                      then [CallWriter CallMetadata (Turn.clock t AtMetadata);
                            CallWriter CallFinalize (Turn.clock t AtFinalize)]
                      else if do_drain then [CallWriter CallDrained (Turn.clock t AtDrained)]
                           else []).
Proof.
  destruct (Turn.exit t) eqn:Ex; [rewrite andb_false_r; cbn [app]; apply finish_spec|].
  rewrite andb_true_r. destruct do_drain.
  - pose proof (call_spec CallDrained (Turn.clock t AtDrained) l I) as H2.
    destruct (call_writer CallDrained _ l) as [[o2 a2] l2]. destruct H2 as (F2 & S2 & R2 & -> & K2).
    rewrite app_nil_r. split_and!; [done..|]. by exists [].
  - split; [by apply flows_nil|]. split_and!; [done..|]. by exists [].
Qed.

Lemma mark_flows (c : bool) (l : Loop F) : flows l (if c then [BumpEpoch] else []) l.
Proof. destruct c; split; cbn; rewrite ?app_nil_r; done || lia. Qed.

Lemma flows_via l l0 a l' : 
  Loop.writer l0 = Loop.writer l → Loop.collector l0 = Loop.collector l → flows l0 a l' → flows l a l'.
Proof. intros Hw Hc H0. apply (flows_app _ [] l0); [by apply flows_nil|done]. Qed.

Lemma turn_works t (l : Loop F) :
  Turn.exit t || is_enabled (Loop.state l) = true →
  let '(a, l') := turn t l in turn_spec t l a l'.
Proof.
  intros Hen. unfold FlushLoop.turn.
  pose proof (accept_all_flows (Turn.before t) l) as H0.
  pose proof (accept_all_traffic (Turn.before t) l) as T0.
  destruct (accept_all _ l) as [a0 l0]. destruct H0 as (F0 & W0 & S0 & [D0 C0 _] & _).
  replace (negb _ && negb _) with false
    by (rewrite S0; destruct (Turn.exit t), (is_enabled (Loop.state l)); done).
  match goal with |- context [update_metadata ?e ?r ?x] =>
    pose proof (update_metadata_spec e r x) as H1; destruct (update_metadata e r x) as [a1 l1] end.
  destruct H1 as (F1 & S1 & [D1 C1 _] & _ & A1 & U1).
  assert (Forall traffic a1) as T1 by (rewrite A1; destruct (source_entries _ _); by repeat constructor).
  set (l2 := Loop.set_drain l1 (Loop.drain_state l1) (Loop.cycle_count l1 + 1)).
  pose proof (coordinate_spec (Turn.exit t) (Reads.instant (Turn.clock t AtCheck)) l2) as H2.
  destruct (coordinate _ _ l2) as [[do_drain a2] l3].
  destruct H2 as (F2 & S2 & _ & E2 & A2 & D2 & C2).
  change (Loop.drain_state l2) with (Loop.drain_state l1) in *.
  change (Loop.writer l2) with (Loop.writer l1) in *.
  rewrite D1 in E2, A2, D2. cbn in E2, A2, D2. rewrite D0 in E2, A2, D2.
  rewrite U1 in A2, D2. cbn in A2, D2. rewrite W0 in A2, D2. fold (due t l) in A2, D2. subst do_drain a2.
  pose proof (drain_step t (Turn.exit t || bumped (Loop.drain_state l)) l3) as H3.
  destruct (if Turn.exit t || _ then _ else _) as [a4 l4].
  destruct H3 as (F4 & S4 & [D4 C4 _] & a4' & -> & T4 & P4).
  match goal with |- context [flush_once ?d t l4] =>
    pose proof (flush_once_spec d t l4) as H5; destruct (flush_once d t l4) as [a5 l5] end.
  destruct H5 as [F5 T5 O5 D5 C5].
  pose proof (end_step t (bumped (Loop.drain_state l)) l5) as H6.
  destruct (if _ && negb _ then _ else _) as [a6 l6].
  destruct (if Turn.exit t then _ else _) as [a7 l7].
  destruct H6 as (F6 & S6 & [D6 C6 _] & K6 & a6' & T6 & E6).
  assert (flows l (a0 ++ a1 ++ (if due t l then [BumpEpoch] else [])
    ++ (if Turn.exit t then [BumpEpoch] else [])
    ++ (if Turn.exit t || bumped (Loop.drain_state l) then [DrainTlBuffers] else []) ++ a4') l4) as F04.
  { eapply flows_app; [exact F0|]. eapply flows_app; [by eapply flows_via, F1|].
    eapply flows_app; [by eapply flows_via, F2|]. eapply flows_app; [apply mark_flows|exact F4]. }
  match type of F04 with flows _ ?x _ => set (p := x) in * end.
  match goal with |- turn_spec _ _ ?x _ => replace x with (p ++ a5 ++ a6 ++ a7)
    by (subst p; by rewrite <- !app_assoc) end.
  assert (Loop.state l4 = Loop.state l) as S04 by (rewrite S4, S2; cbn; rewrite S1; cbn; done).
  split.
  - eapply flows_app; [exact F04|]. by eapply flows_app.
  - rewrite app_assoc. apply (popped_out_emptied _ _ _ l5); [done..|].
    eapply popped_out_app; [apply (flows_writer _ _ _ F04)|done|done].
  - by rewrite D6, D5, D4, D2.
  - rewrite C6, C5, C4, C2. cbn. rewrite C1. cbn. by rewrite C0.
  - exists (a0 ++ a1), (a4' ++ a5 ++ a6'). rewrite !list.Forall_app. split_and!; try done.
    + subst p. rewrite E6. unfold marks, last_calls. by rewrite <- !app_assoc.
    + intros Hnow. unfold accepted in *. rewrite omap_app, (P4 Hnow). by eexists.
Qed.

(** A turn of a loop that is off only lets batches in. *)
Lemma turn_flows_any t (l : Loop F) : let '(a, l') := turn t l in flows l a l'.
Proof.
  destruct (Turn.exit t || is_enabled (Loop.state l)) eqn:E.
  { pose proof (turn_works t l E) as H1. destruct (turn t l). apply H1. }
  unfold FlushLoop.turn. pose proof (accept_all_flows (Turn.before t) l) as H0.
  destruct (accept_all _ l) as [a l0]. destruct H0 as (F0 & _ & S0 & _).
  rewrite S0. apply orb_false_iff in E as [-> ->]. exact F0.
Qed.

Lemma run_flows ts (l : Loop F) :
  let '(a, l') := run_flush_loop b estimate ts l in flows l a l'.
Proof.
  revert l. induction ts as [|t ts IH]; intros l; cbn [run_flush_loop]; [by apply flows_nil|].
  pose proof (turn_flows_any t l) as H1. destruct (turn t l) as [a l1].
  destruct (Turn.exit t); [done|]. specialize (IH l1).
  destruct (run_flush_loop b estimate ts l1) as [a' l2]. by eapply flows_app.
Qed.

Lemma emptied_queue a (l l' : Loop F) :
  emptied a l l' →
  CentralCollector.queue (Loop.collector l') = [] ∧ Loop.state l' = Loop.state l ∨
  is_enabled (Loop.state l') = false ∧ ∃ p, p `prefix_of` a ∧ write_failed p (Loop.writer l).
Proof.
  intros [?|[Hf Hs]]; [by left|right]. rewrite Hs. split; [by destruct (Loop.state l)|done].
Qed.


(** A drain that is due completes within two turns of an enabled loop: the
    first turn bumps the epoch and drains nothing; the second drains the
    thread-local buffers, accepts what they held, writes until the queue is
    empty and only then tells the writer, and goes back to polling.  The one way
    out is a write that failed, which turns recording off. *)
Theorem drain_within_two_turns t1 t2 s (l : Loop F) :
  Loop.drain_state l = Idle → Turn.exit t1 = false → Turn.exit t2 = false →
  is_enabled (Loop.state l) = true → is_enabled s = true →
  should_drain (Reads.instant (Turn.clock t1 AtCheck)) (Loop.writer l) = true →
  let '(a1, l1) := turn t1 l in
  let '(a2, l2) := turn t2 (Loop.set_state l1 s) in
  (∃ before after, a1 = before ++ BumpEpoch :: after ∧
    Forall traffic before ∧ Forall traffic after) ∧
  (∃ before after,
    a2 = before ++ DrainTlBuffers :: after ++ [CallWriter CallDrained (Turn.clock t2 AtDrained)] ∧
    Forall traffic before ∧ Forall traffic after ∧
    Turn.tl_drained t2 `prefix_of` accepted after) ∧
  Loop.drain_state l2 = Idle ∧
  (CentralCollector.queue (Loop.collector l2) = [] ∧ is_enabled (Loop.state l2) = true ∨
   is_enabled (Loop.state l2) = false ∧
   ∃ p, p `prefix_of` a2 ∧ write_failed p (Loop.writer l1)).
Proof.
  intros Hd Hx1 Hx2 Hen Hs Hdue.
  pose proof (turn_works t1 l ltac:(by rewrite Hen, orb_true_r)) as H1.
  destruct (turn t1 l) as [a1 l1]. destruct H1 as [_ _ D1 _ (b1 & c1 & Tb1 & Tc1 & E1 & _)].
  unfold due, marks, last_calls in *. unfold due in *. rewrite Hd, Hx1, Hdue in *. cbn in D1, E1.
  pose proof (turn_works t2 (Loop.set_state l1 s) ltac:(by cbn; rewrite Hs, orb_true_r)) as H2.
  destruct (turn t2 _) as [a2 l2]. destruct H2 as [_ M2 D2 _ (b2 & c2 & Tb2 & Tc2 & E2 & P2)].
  unfold due, marks, last_calls in *. unfold due in *. cbn in D2, E2, P2.
  rewrite D1, Hx2 in *. cbn in D2, E2, P2.
  split_and!.
  - exists b1, c1. by rewrite app_nil_r in E1.
  - exists b2, c2. split_and!; [done..|by apply P2].
  - exact D2.
  - apply emptied_queue in M2. cbn in M2. naive_solver.
Qed.

(** The last turn bumps the epoch and drains the thread-local buffers in
    the same tick, writes what they and the queue held unless a write fails,
    and ends with the metadata and then the end of the trace: the writer is
    finished and the backend told that no more segments come, even if
    recording was disabled. *)
Theorem last_turn t (l : Loop F) :
  Turn.exit t = true →
  let '(a, l') := turn t l in
  (∃ before after,
    a = before ++ [BumpEpoch; DrainTlBuffers] ++ after
        ++ [CallWriter CallMetadata (Turn.clock t AtMetadata);
            CallWriter CallFinalize (Turn.clock t AtFinalize)] ∧
    Forall traffic before ∧ Forall traffic after ∧
    Turn.tl_drained t `prefix_of` accepted after) ∧
  (CentralCollector.queue (Loop.collector l') = [] ∨
   ∃ p, p `prefix_of` a ∧ write_failed p (Loop.writer l)) ∧
  Writer.state (Loop.writer l') = WFinished ∧
  ∃ f, Writer.fs (Loop.writer l') = fs_mark_writer_done f.
Proof.
  intros Hx. pose proof (turn_works t l ltac:(by rewrite Hx)) as H1.
  destruct (turn t l) as [a l']. destruct H1 as [F1 M1 _ _ (b1 & c1 & Tb1 & Tc1 & E1 & P1)].
  unfold due, marks, last_calls in *. unfold due in *. rewrite Hx, andb_false_r in *. cbn in E1, P1.
  split_and!.
  - exists b1, c1. split_and!; [done..|by apply P1].
  - destruct M1 as [[? _]|[? _]]; [by left|by right].
  - rewrite (flows_writer _ _ _ F1), E1. unfold calls, after_calls. rewrite !omap_app, !foldl_app.
    cbn. rewrite !omap_app, !foldl_app. cbn. apply finalize_finished.
  - rewrite (flows_writer _ _ _ F1), E1. unfold calls, after_calls. rewrite !omap_app, !foldl_app.
    cbn. rewrite !omap_app, !foldl_app. cbn. apply finalize_finished.
Qed.
End flows.

(** ** A recording *)

Definition example_batch (n : Z) : Batch.t := Batch.mk (lit "payload") n.

(** A turn at [now], with one batch arriving and one drained. *)
Definition example_turn (exit : bool) (now : Z) : Turn.t :=
  Turn.mk exit [example_batch 2] [SourceTurn.mk (lit "cpu") [(lit "rate", lit "99")] false]
    [example_batch 1; example_batch 0] [] [] None [[]; [example_batch 5]] (λ _, example_reads now).

Definition example_loop : option (Loop MemChannel.t) :=
  match create_in_memory example_bus 100000 1000 (60 * SECOND) None [] (example_reads 0) with
  | Ok w => Some (Loop.mk w collector_new Enabled Idle 0 0 [])
  | Err _ => None
  end.

(** After a first turn the segment holds events. *)
Definition example_running : option (Loop MemChannel.t) :=
  (λ l, snd (turn example_bus no_estimate (example_turn false SECOND) l)) <$> example_loop.


Example drain_within_two_turns_witness :
  match example_running with
  | Some l =>
      let '(a1, l1) := turn example_bus no_estimate (example_turn false (31 * SECOND)) l in
      let '(a2, l2) := turn example_bus no_estimate (example_turn false (32 * SECOND))
                         (Loop.set_state l1 Enabled) in
      Loop.drain_state l1 = EpochBumped ∧ Loop.drain_state l2 = Idle ∧ DrainTlBuffers ∈ a2
  | None => False
  end.
Proof.
  destruct example_running as [l|] eqn:E; [|by apply (none_absurd _ E); vm_compute].
  pose proof (drain_within_two_turns example_bus no_estimate (example_turn false (31 * SECOND))
    (example_turn false (32 * SECOND)) Enabled l) as H.
  assert (Loop.drain_state (snd (turn example_bus no_estimate
            (example_turn false (31 * SECOND)) l)) = EpochBumped) as Hb.
  { apply (some_field (λ l, Loop.drain_state (snd (turn example_bus no_estimate
      (example_turn false (31 * SECOND)) l))) _ _ _ E). by vm_compute. }
  destruct (turn _ _ _ l) as [a1 l1]. destruct (turn _ _ _ (Loop.set_state l1 Enabled)) as [a2 l2].
  destruct H as (_ & (before & after & -> & _) & H & _).
  - apply (some_field _ _ _ _ E). by vm_compute.
  - reflexivity.
  - reflexivity.
  - apply (some_field (λ l, is_enabled (Loop.state l)) _ _ _ E). by vm_compute.
  - reflexivity.
  - apply (some_field (λ l, should_drain (31 * SECOND) (Loop.writer l)) _ _ _ E). by vm_compute.
  - split; [exact Hb|]. split; [exact H|]. apply list.elem_of_app. right. left.
Defined.

Example last_turn_witness :
  match example_running with
  | Some l =>
      let '(a, l') := turn example_bus no_estimate (example_turn true (62 * SECOND)) l in
      Writer.state (Loop.writer l') = WFinished ∧ MemChannel.writer_done (Writer.fs (Loop.writer l')) = true
  | None => False
  end.
Proof.
  destruct example_running as [l|] eqn:E; [|by apply (none_absurd _ E); vm_compute].
  pose proof (last_turn example_bus no_estimate (example_turn true (62 * SECOND)) l eq_refl) as H.
  destruct (turn _ _ _ l) as [a l']. destruct H as (_ & _ & Hs & f & Hf).
  split; [done|]. by rewrite Hf.
Defined.
