(* ===== verification/Recording.v ===== *)
(** * A recording, from the collector to the sealed segments

    Puts the flush loop (FlushLoop) and the writer's book (Segments) together:
    the batches the flush loop pops are, in order, those of the segments it
    sealed and those a stopped writer dropped, and every segment decodes. *)

From Stdlib Require Import ZArith Lia.
From stdpp Require Import base list gmap strings option.
From coqutil Require Import Byte.
From S2P Require Import Prelude.
From S2P Require Import Schema.
From S2P Require Import Decoder.
From S2P Require Import EventEncoder.
From S2P Require Import Encoder.
From S2P Require Import Stream.
From S2P Require Import Format.
From S2P Require Import MemRing.
From S2P Require Import SegmentFs.
From S2P Require Import SegmentWriter.
From S2P Require Import Segments.
From S2P Require Import FlushLoop.

(** The flush loop's call for a call of a run. *)
Definition loop_call (o : call) : writer_call :=
  match o with
  | Write x n => CallWrite (Batch.mk (finish (fst x)) n)
  | UpdateMetadata l => CallUpdate l
  | WriteMetadata => CallMetadata
  | CheckDrained => CallDrained
  | Finalize => CallFinalize
  end.

Lemma nonempty_elem x l : x ∈ nonempty l ↔ is_empty x = false ∧ x ∈ l.
Proof. exact (list_elem_of_filter (λ x, is_empty x = false) l x). Qed.

Lemma nonempty_idemp l : nonempty (nonempty l) = nonempty l.
Proof.
  induction l as [|x l IH]; [done|]. change (x :: l) with ([x] ++ l). unfold nonempty in *.
  rewrite !list.filter_app, IH. f_equal. fold (nonempty [x]). rewrite nonempty_one.
  destruct (is_empty x) eqn:E; [done|]. fold (nonempty [x]). by rewrite nonempty_one, E.
Qed.

Section recording.
Context {F : Type} `{SegmentFs F}.
Context {type_entry : positive → SchemaEntry.t} {slot_entry : Z → SchemaEntry.t}.
Variable b : BusTypes.t.
Variable estimate : Z → Z → Z → option Z.

Abbreviation batch_ok := (@batch_ok type_entry slot_entry).
Abbreviation after_calls := (after_calls b estimate).
Abbreviation run_ok := (@run_ok (traced F) _ type_entry slot_entry b estimate).

(** A batch that a thread's encoder flushed. *)
Definition flushed (x : Batch.t) : Prop :=
  0 <= Batch.event_count x ∧
  ∃ e, Batch.encoded_bytes x = finish (fst e) ∧ batch_ok e.

(** The clocks are machine words, and the metadata fits the wire. *)
Fixpoint calls_fine (cs : list (writer_call * Reads.t)) (w : Writer (traced F)) : Prop :=
  match cs with
  | [] => True
  | (c, r) :: cs =>
      reads_ok r ∧
      match c with
      | CallUpdate l => metadata_ok (snd (merge (Writer.segment_metadata w) l))
      | _ => True
      end ∧
      calls_fine cs (snd (perform_call b estimate c r w))
  end.

Lemma perform_loop_call o r (w : Writer (traced F)) :
  snd (perform_call b estimate (loop_call o) r w) = perform b estimate o r w.
Proof. destruct o; [done..| |done]. cbn. by destruct (drained _ _ _ _) as [[]]. Qed.

Lemma after_loop_calls ops (w : Writer (traced F)) :
  after_calls (map (λ '(o, r), (loop_call o, r)) ops) w = run b estimate ops w.
Proof.
  unfold FlushLoop.after_calls, run. revert w. induction ops as [|[o r] ops IH]; intros w; [done|].
  cbn. by rewrite perform_loop_call.
Qed.

(** The calls of the loop are a run of the writer. *)
Lemma calls_run cs (w : Writer (traced F)) :
  calls_fine cs w → Forall flushed (writes cs) →
  ∃ ops, cs = map (λ '(o, r), (loop_call o, r)) ops ∧ run_ok ops w.
Proof.
  revert w. induction cs as [|[c r] cs IH]; intros w Hfine Hfl; [by exists []|].
  destruct Hfine as (Hr & Hc & Hfine).
  assert (Forall flushed (writes cs)) as Hfl'.
  { unfold writes in *. cbn in Hfl. destruct c; cbn in Hfl; [exact Hfl| |exact Hfl..].
    by inversion Hfl. }
  destruct (IH _ Hfine Hfl') as (ops & -> & Hops).
  assert (∃ o, c = loop_call o ∧ @call_ok (traced F) type_entry slot_entry o w) as (o & -> & Ho).
  { destruct c as [l|x| | |]; [by exists (UpdateMetadata l)| |by exists CheckDrained
      |by exists WriteMetadata|by exists Finalize].
    unfold writes in Hfl. cbn in Hfl. inversion Hfl as [|? ? [Hn (e & He & Hok)] _]; subst.
    exists (Write e (Batch.event_count x)). cbn. rewrite <- He. by destruct x. }
  exists ((o, r) :: ops). split; [done|]. split_and!; [done..|].
  by rewrite perform_loop_call in Hops.
Qed.

(** The batches written with events are the batches offered. *)
Lemma writes_offered ops (w : Writer (traced F)) :
  run_ok ops w →
  map Batch.encoded_bytes (nonempty (writes (map (λ '(o, r), (loop_call o, r)) ops)))
  = map (λ x, finish (fst x)) (concat (map (λ x, offered (fst x)) ops)).
Proof.
  revert w. induction ops as [|[o r] ops IH]; intros w Hops; [done|].
  destruct Hops as (Ho & _ & Hops). specialize (IH _ Hops). cbn [map concat fst].
  destruct o as [x n|l| | |]; [|exact IH..].
  change (writes ((loop_call (Write x n), r) :: map (λ '(o, r), (loop_call o, r)) ops))
    with ([Batch.mk (finish (fst x)) n] ++ writes (map (λ '(o, r), (loop_call o, r)) ops)).
  unfold nonempty in *. rewrite list.filter_app, !map_app, IH. f_equal.
  fold (nonempty [Batch.mk (finish (fst x)) n]). rewrite nonempty_one.
  unfold is_empty, offered. destruct Ho as [Hn _]. cbn [Batch.event_count].
  destruct (Z.eqb_spec n 0), (Z.ltb_spec 0 n); done || lia.
Qed.

End recording.

(** ** A recording in memory *)

Definition clock_fineb (c : Z * Z) : bool :=
  (0 <=? fst c) && (fst c <? 2 ^ 64) && (0 <=? snd c) && (snd c <? 2 ^ 64).

(** [calls_fine], as a check, for calls that bring no metadata. *)
Definition calls_fineb (cs : list (writer_call * Reads.t)) : bool :=
  forallb (λ '(c, r), clock_fineb (Reads.metadata_clock r) && clock_fineb (Reads.seal_clock r)
                      && clock_fineb (Reads.start_clock r)
                      && match c with CallUpdate _ => false | _ => true end) cs.

Lemma clock_fineb_ok c : clock_fineb c = true → clock_ok c.
Proof. unfold clock_fineb, clock_ok, fits. rewrite !andb_true_iff, !Z.leb_le, !Z.ltb_lt. lia. Qed.

Lemma calls_fineb_ok {F} `{SegmentFs F} b estimate cs (w : Writer (traced F)) :
  calls_fineb cs = true → calls_fine b estimate cs w.
Proof.
  revert w. induction cs as [|[c r] cs IH]; intros w Hb; [done|].
  cbn [calls_fineb forallb] in Hb. rewrite !andb_true_iff in Hb.
  destruct Hb as [[[[H1 H2] H3] H4] Hb]. split_and!; [|by destruct c|by apply IH].
  split_and!; by apply clock_fineb_ok.
Qed.

Definition recorded_batch (n : Z) : Batch.t :=
  Batch.mk (finish (fst (anchor_batch example_bus (5, 6)))) n.

(** Two turns that write, a drain that rotates, the end. *)
Definition recorded_turns : list Turn.t :=
  let t exit now := Turn.mk exit [recorded_batch 2] [] [recorded_batch 1; recorded_batch 0] [] []
                      None [] (λ _, example_reads now) in
  [t false SECOND; t false (61 * SECOND); t false (62 * SECOND); t true (63 * SECOND)].

Definition recorded_loop : option (Loop (traced MemChannel.t)) :=
  (λ w, Loop.mk w collector_new Enabled Idle 0 0 []) <$> example_writer.

Lemma recorded_batch_flushed n :
  0 <= n →
  @flushed (bus_type_entry example_bus) (bus_slot_entry example_bus) (recorded_batch n).
Proof.
  intros Hn. split; [done|]. exists (anchor_batch example_bus (5, 6)). split; [done|].
  apply (anchor_batch_ok example_bus example_knows (5, 6)). by split.
Qed.

