(* ===== verification/Dump.v ===== *)
(** * On-trigger dumps (dial9-core/src/dump.rs, and [ActiveDump] of
    dial9-core/src/worker/mod.rs)

    The debounce gate, the request as the trigger channel carries it, the run
    handle that sends it, and the dump registered with the worker.  A [DumpId]
    is an integer: minting is the ULID library's.  Instants and durations are
    nanoseconds; a [SystemTime] is nanoseconds since the Unix epoch. *)

From Stdlib Require Import ZArith Lia.
From stdpp Require Import base list gmap strings option sorting.
From coqutil Require Import Byte.
From S2P Require Import Prelude.
From S2P Require Import MemRing.
From S2P Require Import SegmentWriter.

(** ** Errors of the pipeline (pipeline.rs) *)

(** [Io] keeps whether its kind is [NotFound]; texts are what [Display] shows
    of the cause. *)
Inductive ProcessErrorKind : Type :=
| Io (not_found : bool) (text : bytes)
| Transfer (text : bytes) (can_retry : bool).

Definition already_deleted (k : ProcessErrorKind) : bool :=
  match k with Io not_found _ => not_found | Transfer _ _ => false end.

Definition retryable (k : ProcessErrorKind) : bool :=
  match k with Transfer _ can_retry => can_retry | Io _ _ => false end.

Definition kind_to_string (k : ProcessErrorKind) : bytes :=
  match k with
  | Io _ text => lit "I/O error: " ++ text
  | Transfer text _ => lit "S3 transfer error: " ++ text
  end.

(** ** Requests *)

Inductive Lookback : Type := Unbounded | Window (d : Z).

Module DumpRequest.
Record t : Type := mk {
  id : Z;
  triggered_at : Z;
  lookback : Lookback;
  lookforward : Z;
  metadata : list (bytes * bytes) }.

Definition push_metadata (r : t) (kv : bytes * bytes) : t :=
  mk (id r) (triggered_at r) (lookback r) (lookforward r) (metadata r ++ [kv]).
End DumpRequest.

Inductive DumpError : Type :=
| WorkerStopped
| PipelineUnavailable
| Pipeline (k : ProcessErrorKind)
| Coalesced (into : Z).

Module DumpReceipt.
Record t : Type := mk {
  dump_id : Z;
  segments_processed : Z;
  finished_at : Z;
  time_range : Z * Z;
  manifest_key : option bytes }.
End DumpReceipt.

(** ** The debounce gate *)

Module Debounce.
Record t : Type := mk { window : Z; last : option (Z * Z) }.
End Debounce.

Definition with_debounce (window : Z) : Debounce.t := Debounce.mk window None.

(** A rejected request gives its reservation back. *)
Definition release (id : Z) (g : Debounce.t) : Debounce.t :=
  match Debounce.last g with
  | Some (_, reserved) => if reserved =? id then Debounce.mk (Debounce.window g) None else g
  | None => g
  end.

(** The gate's answer to a request: the dump it folds into, if it does.
    [Instant::duration_since] saturates at zero. *)
Definition gate (id now : Z) (g : Debounce.t) : option Z * Debounce.t :=
  match Debounce.last g with
  | Some (at_, into) =>
      if Z.max 0 (now - at_) <? Debounce.window g
      then (Some into, g)
      else (None, Debounce.mk (Debounce.window g) (Some (now, id)))
  | None => (None, Debounce.mk (Debounce.window g) (Some (now, id)))
  end.

(** ** The trigger and its runs *)

(** The channel to the worker, and the gate all clones of the trigger share. *)
Module DumpTrigger.
Record t : Type := mk {
  sent : list DumpRequest.t;
  rx_closed : bool;
  debounce : option Debounce.t }.
End DumpTrigger.

Module DumpRun.
Record t : Type := mk { request : option DumpRequest.t; preempt : option DumpError }.
End DumpRun.

Definition request (id now triggered_at : Z) (lookback : Lookback) (lookforward : Z)
    (t : DumpTrigger.t) : DumpRun.t * DumpTrigger.t :=
  let accepted := DumpRun.mk (Some (DumpRequest.mk id triggered_at lookback lookforward [])) None in
  match DumpTrigger.debounce t with
  | Some g =>
      let '(folded, g) := gate id now g in
      (match folded with
       | Some into => DumpRun.mk None (Some (Coalesced into))
       | None => accepted
       end,
       DumpTrigger.mk (DumpTrigger.sent t) (DumpTrigger.rx_closed t) (Some g))
  | None => (accepted, t)
  end.

Definition dump_current_data (id now triggered_at : Z) : DumpTrigger.t → DumpRun.t * DumpTrigger.t :=
  request id now triggered_at Unbounded 0.

Definition dump_time_range (id now triggered_at lookback lookforward : Z)
    : DumpTrigger.t → DumpRun.t * DumpTrigger.t :=
  request id now triggered_at (Window lookback) lookforward.

Definition with_metadata (kv : bytes * bytes) (r : DumpRun.t) : DumpRun.t :=
  DumpRun.mk ((λ req, DumpRequest.push_metadata req kv) <$> DumpRun.request r) (DumpRun.preempt r).

(** Send the request, once; false when the worker is gone. *)
Definition dispatch (r : DumpRun.t) (t : DumpTrigger.t) : bool * DumpRun.t * DumpTrigger.t :=
  match DumpRun.request r with
  | Some req =>
      let r := DumpRun.mk None (DumpRun.preempt r) in
      if DumpTrigger.rx_closed t then (false, r, t)
      else (true, r, DumpTrigger.mk (DumpTrigger.sent t ++ [req]) false (DumpTrigger.debounce t))
  | None => (true, r, t)
  end.

Definition drop_run (r : DumpRun.t) (t : DumpTrigger.t) : DumpTrigger.t :=
  let '(_, _, t) := dispatch r t in t.

(** Awaiting a run: it is dispatched at once and then dropped, and what is left
    is the future. *)
Inductive DumpFuture : Type := Waiting | StoppedFuture | Preempted (err : DumpError).

Definition into_future (r : DumpRun.t) (t : DumpTrigger.t) : DumpFuture * DumpTrigger.t :=
  match DumpRun.preempt r with
  | Some err => (Preempted err, drop_run (DumpRun.mk (DumpRun.request r) None) t)
  | None =>
      let receipt_rx := DumpRun.request r in
      let '(sent, r, t) := dispatch r t in
      (match sent, receipt_rx with true, Some _ => Waiting | _, _ => StoppedFuture end,
       drop_run r t)
  end.

(** The worker's end of a receipt channel. *)
Inductive receipt_state : Type :=
| Open
| Answered (r : result DumpReceipt.t DumpError)
| SenderGone.

(** What a poll gives, [None] while pending. *)
Definition poll (f : DumpFuture) (rx : receipt_state) : option (result DumpReceipt.t DumpError) :=
  match f with
  | Waiting =>
      match rx with
      | Open => None
      | Answered r => Some r
      | SenderGone => Some (Err WorkerStopped)
      end
  | StoppedFuture => Some (Err WorkerStopped)
  | Preempted err => Some (Err err)
  end.

(** ** A dump registered with the worker *)

Module ActiveDump.
Record t : Type := mk {
  id : Z;
  triggered_at : Z;
  window : EpochWindow.t;
  deadline : option Z;
  metadata : list (bytes * bytes);
  segments_processed : Z;
  first_epoch : option Z;
  last_epoch : option Z;
  first_error : option ProcessErrorKind;
  pipeline_unavailable : bool }.

(** A segment made it through the pipeline. *)
Definition count (d : t) (epoch_secs seal_secs : Z) : t :=
  mk (id d) (triggered_at d) (window d) (deadline d) (metadata d) (segments_processed d + 1)
    (Some (from_option (Z.min epoch_secs) epoch_secs (first_epoch d)))
    (Some (from_option (Z.max seal_secs) seal_secs (last_epoch d)))
    (first_error d) (pipeline_unavailable d).

Definition set_error (d : t) (k : ProcessErrorKind) : t :=
  mk (id d) (triggered_at d) (window d) (deadline d) (metadata d) (segments_processed d)
    (first_epoch d) (last_epoch d) (Some k) (pipeline_unavailable d).

Definition set_unavailable (d : t) : t :=
  mk (id d) (triggered_at d) (window d) (deadline d) (metadata d) (segments_processed d)
    (first_epoch d) (last_epoch d) (first_error d) true.
End ActiveDump.

(** [duration_since(UNIX_EPOCH).unwrap_or_default().as_secs()]. *)
Definition epoch_of (system_time : Z) : Z := Z.max 0 system_time / SECOND.

(** [register]: [now] is the monotonic clock, [elapsed] the time since the
    trigger on the system clock. *)
Definition register (req : DumpRequest.t) (now elapsed : Z) : ActiveDump.t :=
  let trigger_epoch := epoch_of (DumpRequest.triggered_at req) in
  let lookforward := DumpRequest.lookforward req in
  let start_secs := match DumpRequest.lookback req with
                    | Unbounded => None
                    | Window d => Some (saturating_sub trigger_epoch (d / SECOND))
                    end in
  ActiveDump.mk (DumpRequest.id req) (DumpRequest.triggered_at req)
    (EpochWindow.mk start_secs (saturating_add 64 trigger_epoch (lookforward / SECOND)))
    (if lookforward =? 0 then None else Some (now + saturating_sub lookforward elapsed))
    (DumpRequest.metadata req) 0 None None None false.

Definition due (now : Z) (d : ActiveDump.t) : bool :=
  match ActiveDump.deadline d with None => true | Some t => t <=? now end.

Definition mark_pipeline_unavailable (d : ActiveDump.t) : ActiveDump.t :=
  match ActiveDump.first_error d with
  | None => ActiveDump.set_unavailable d
  | Some _ => d
  end.

Definition dump_time_range_of (d : ActiveDump.t) : Z * Z :=
  match ActiveDump.first_epoch d, ActiveDump.last_epoch d with
  | Some first, Some last => (first * SECOND, last * SECOND)
  | _, _ => (ActiveDump.triggered_at d, ActiveDump.triggered_at d)
  end.

Definition failed (d : ActiveDump.t) : bool :=
  (match ActiveDump.first_error d with Some _ => true | None => false end
   || ActiveDump.pipeline_unavailable d)
  && (ActiveDump.segments_processed d =? 0).

(** [into_result]; [None] is its [unreachable!]. *)
Definition into_result (manifest_key : option bytes) (now : Z) (d : ActiveDump.t)
    : option (result DumpReceipt.t DumpError) :=
  match failed d, ActiveDump.first_error d, ActiveDump.pipeline_unavailable d with
  | true, Some kind, _ => Some (Err (Pipeline kind))
  | true, None, true => Some (Err PipelineUnavailable)
  | true, None, false => None
  | false, _, _ =>
      Some (Ok (DumpReceipt.mk (ActiveDump.id d) (ActiveDump.segments_processed d) now
                  (dump_time_range_of d) manifest_key))
  end.

(** [record_dump_error]: the matched dumps (indices, in order) that have no
    error yet get one, the first of them the error itself. *)
Fixpoint record_dump_error (matched : list nat) (kind : option ProcessErrorKind) (msg : bytes)
    (dumps : list ActiveDump.t) : list ActiveDump.t :=
  match matched with
  | [] => dumps
  | i :: matched =>
      match dumps !! i with
      | Some d =>
          match ActiveDump.first_error d with
          | None =>
              record_dump_error matched None msg
                (<[i := ActiveDump.set_error d (default (Io false msg) kind)]> dumps)
          | Some _ => record_dump_error matched kind msg dumps
          end
      | None => record_dump_error matched kind msg dumps
      end
  end.

(** ** Properties of the gate *)

(** What happens at a gate: requests at their instants, and releases. *)
Inductive gate_event : Type := Requested (id now : Z) | Released (id : Z).

Definition gate_step (g : Debounce.t) (e : gate_event) : Debounce.t :=
  match e with
  | Requested id now => snd (gate id now g)
  | Released id => release id g
  end.

Definition gate_after (window : Z) (evs : list gate_event) : Debounce.t :=
  foldl gate_step (with_debounce window) evs.

Definition gate_times (evs : list gate_event) : list Z :=
  omap (λ e, match e with Requested _ now => Some now | Released _ => None end) evs.

Lemma gate_after_snoc w evs e : gate_after w (evs ++ [e]) = gate_step (gate_after w evs) e.
Proof. unfold gate_after. by rewrite foldl_app. Qed.

Lemma gate_window w evs : Debounce.window (gate_after w evs) = w.
Proof.
  induction evs as [|e evs IH] using rev_ind; [done|]. rewrite gate_after_snoc.
  destruct e; cbn; unfold gate, release.
  - destruct (Debounce.last _) as [[a x]|]; [|done]. by destruct (_ <? _).
  - destruct (Debounce.last _) as [[a x]|]; [|done]. by destruct (_ =? _).
Qed.

(** The reservation is that of the last request accepted, not given back. *)
Lemma gate_reserved w evs at_ x :
  Debounce.last (gate_after w evs) = Some (at_, x) →
  ∃ pre mid, evs = pre ++ Requested x at_ :: mid ∧
    fst (gate x at_ (gate_after w pre)) = None ∧ Released x ∉ mid ∧
    ∀ mid1 y c mid2, mid = mid1 ++ Requested y c :: mid2 →
      fst (gate y c (gate_after w (pre ++ Requested x at_ :: mid1))) = Some x.
Proof.
  revert at_ x. induction evs as [|e evs IH] using rev_ind; intros at_ x; [done|].
  rewrite gate_after_snoc. set (g := gate_after w evs) in *.
  destruct e as [y c|y]; cbn [gate_step].
  - unfold gate. destruct (Debounce.last g) as [[a z]|] eqn:El; cbn.
    + destruct (Z.max 0 (c - a) <? Debounce.window g) eqn:Ew; cbn.
      * rewrite El. intros [= -> ->]. destruct (IH _ _ eq_refl) as (pre & mid & -> & Ha & Hr & Hm).
        exists pre, (mid ++ [Requested y c]). split; [by rewrite <- app_assoc|]. split; [done|]. split.
        { rewrite elem_of_app, list_elem_of_singleton. by intros [?|?]. }
        intros mid1 y' c' mid2 E. destruct mid2 as [|e2 mid2 _] using rev_ind.
        { apply app_inj_tail in E as [-> [= -> ->]]. fold g. unfold gate. by rewrite El, Ew. }
        rewrite app_comm_cons, app_assoc in E. apply app_inj_tail in E as [-> _]. by eapply Hm.
      * intros [= -> ->]. exists evs, []. split; [done|]. split.
        { fold g. unfold gate. by rewrite El, Ew. }
        split; [set_solver|]. intros [|? ?]; discriminate.
    + intros [= -> ->]. exists evs, []. split; [done|]. split.
      { fold g. unfold gate. by rewrite El. }
      split; [set_solver|]. intros [|? ?]; discriminate.
  - unfold release. destruct (Debounce.last g) as [[a z]|] eqn:El; [|by rewrite El].
    destruct (Z.eqb_spec z y) as [->|Hne]; [done|]. rewrite El. intros [= -> ->].
    destruct (IH _ _ eq_refl) as (pre & mid & -> & Ha & Hr & Hm).
    exists pre, (mid ++ [Released y]). split; [by rewrite <- app_assoc|]. split; [done|]. split.
    { rewrite elem_of_app, list_elem_of_singleton. intros [?|[= ->]]; done. }
    intros mid1 y' c' mid2 E. destruct mid2 as [|e2 mid2 _] using rev_ind.
    { by apply app_inj_tail in E as [_ [=]]. }
    rewrite app_comm_cons, app_assoc in E. apply app_inj_tail in E as [-> _]. by eapply Hm.
Qed.

Lemma gate_times_app l l' : gate_times (l ++ l') = gate_times l ++ gate_times l'.
Proof. apply omap_app. Qed.

Lemma sorted_last {A} (R : relation A) l x y : StronglySorted R (l ++ [y]) → x ∈ l → R x y.
Proof.
  induction l as [|z l IH]; [by intros _ ?%not_elem_of_nil|].
  cbn. inversion 1 as [|? ? Hs Hf]; subst. intros [->|Hx]%elem_of_cons; [|by apply IH].
  rewrite list.Forall_forall in Hf. apply Hf, list.elem_of_app. right. left.
Qed.

Lemma sorted_app_l {A} (R : relation A) l l' : StronglySorted R (l ++ l') → StronglySorted R l.
Proof.
  induction l as [|z l IH]; cbn; [constructor|]. inversion 1 as [|? ? Hs Hf]; subst.
  constructor; [by apply IH|]. by apply list.Forall_app in Hf as [? _].
Qed.

(** Until an accepted request is given back, the gate still holds it, or the
    time of its window has passed. *)
Lemma gate_spaced w pre x a mid :
  StronglySorted Z.le (gate_times (pre ++ Requested x a :: mid)) →
  fst (gate x a (gate_after w pre)) = None → Released x ∉ mid →
  Debounce.last (gate_after w (pre ++ Requested x a :: mid)) = Some (a, x) ∨
  ∃ t, t ∈ gate_times mid ∧ a + w <= t.
Proof.
  intros Hs Ha. induction mid as [|e mid IH] using rev_ind; intros Hr.
  - left. rewrite gate_after_snoc. cbn. unfold gate in *.
    destruct (Debounce.last _) as [[a' z]|]; [|done]. by destruct (_ <? _).
  - rewrite app_comm_cons, app_assoc in Hs |- *. rewrite gate_times_app in Hs.
    specialize (IH (sorted_app_l _ _ _ Hs)). rewrite list.elem_of_app in Hr.
    destruct IH as [El|(t & Ht & Hle)]; [tauto| |].
    + rewrite gate_after_snoc. destruct e as [y c|y]; cbn [gate_step].
      * unfold gate. rewrite El, gate_window. destruct (Z.ltb_spec (Z.max 0 (c - a)) w) as [|Hle].
        { by left. }
        right. exists c. rewrite gate_times_app. split; [apply list.elem_of_app; right; left|].
        assert (a <= c); [|lia]. apply (sorted_last _ _ _ _ Hs).
        rewrite gate_times_app. apply list.elem_of_app. right. left.
      * unfold release. rewrite El. destruct (Z.eqb_spec x y) as [->|Hne]; [|by left].
        destruct Hr. right. left.
    + right. exists t. rewrite gate_times_app. split; [|done]. apply list.elem_of_app. by left.
Qed.

(** ** Main properties *)

(** The debounce gate, over any history of requests and rejections by any
    clones, on a clock that does not go back: a request folds exactly into an
    accepted one whose window it is in and which was not given back since,
    with everything between them; and one that is accepted is a whole window
    behind every accepted one before it that was not given back. *)
Theorem debounce_gate window evs y b :
  StronglySorted Z.le (gate_times (evs ++ [Requested y b])) →
  match fst (gate y b (gate_after window evs)) with
  | Some x => ∃ pre a mid, evs = pre ++ Requested x a :: mid ∧
      fst (gate x a (gate_after window pre)) = None ∧ b < a + window ∧ Released x ∉ mid ∧
      ∀ mid1 z c mid2, mid = mid1 ++ Requested z c :: mid2 →
        fst (gate z c (gate_after window (pre ++ Requested x a :: mid1))) = Some x
  | None => ∀ pre x a mid, evs = pre ++ Requested x a :: mid →
      fst (gate x a (gate_after window pre)) = None → Released x ∉ mid → a + window <= b
  end.
Proof.
  rewrite gate_times_app. intros Hs. destruct (fst (gate y b _)) as [x|] eqn:E.
  - unfold gate in E. destruct (Debounce.last (gate_after window evs)) as [[a z]|] eqn:El; [|done].
    destruct (Z.ltb_spec (Z.max 0 (b - a)) (Debounce.window (gate_after window evs))) as [Hlt|];
      [|done].
    injection E as ->. destruct (gate_reserved _ _ _ _ El) as (pre & mid & -> & Ha & Hr & Hm).
    rewrite gate_window in Hlt. exists pre, a, mid. split_and!; [done..|lia|done|done].
  - intros pre x a mid -> Ha Hr.
    destruct (gate_spaced window pre x a mid (sorted_app_l _ _ _ Hs) Ha Hr) as [El|(t & Ht & Hle)].
    + unfold gate in E. rewrite El, gate_window in E.
      destruct (Z.ltb_spec (Z.max 0 (b - a)) window); [done|].
      assert (a <= b); [|lia]. apply (sorted_last _ _ _ _ Hs).
      rewrite gate_times_app. apply list.elem_of_app. right. left.
    + assert (t <= b); [|lia]. apply (sorted_last _ _ _ _ Hs).
      rewrite gate_times_app. apply list.elem_of_app. right. by right.
Qed.

Example debounce_gate_witness :
  let evs := [Requested 1 0; Requested 2 40; Released 1; Requested 3 60; Requested 4 100] in
  fst (gate 5 150 (gate_after 100 evs)) = Some 3 ∧ fst (gate 6 160 (gate_after 100 evs)) = None ∧
  60 + 100 <= 160.
Proof.
  intros evs. split; [done|]. split; [done|].
  assert (StronglySorted Z.le (gate_times (evs ++ [Requested 6 160]))) as Hs
    by (cbn; repeat constructor; lia).
  pose proof (debounce_gate 100 evs 6 160 Hs) as H. cbn [fst] in H.
  apply (H [Requested 1 0; Requested 2 40; Released 1] 3 60 [Requested 4 100]);
    [done|done|set_solver].
Defined.
