(* ===== verification/Worker.v ===== *)
(** * The segment-processing worker (dial9-core/src/worker/mod.rs)

    The consumer of sealed segments over either backend: one pass over the
    segments taken ([process_segments]), the drain to empty of the continuous
    worker, and what a pass does to the dumps that match.  A processor is code
    of the application: for each attempt at a segment the stages are functions
    from the segment's data to what the stage gave back, and the readiness, the
    file times and the requests that came meanwhile are inputs too. *)

From Stdlib Require Import ZArith Lia.
From stdpp Require Import base list gmap strings option sorting.
From coqutil Require Import Byte.
From S2P Require Import Prelude.
From S2P Require Import Text.
From S2P Require Import Sealed.
From S2P Require Import MemRing.
From S2P Require Import SegmentFs.
From S2P Require Import DiskFs.
From S2P Require Import SegmentWriter.
From S2P Require Import Dump.

(** ** The backend as the worker sees it (fs/mod.rs) *)

Inductive Fs : Type := FsDisk (d : DiskFs.t) | FsMem (c : MemChannel.t).

(** A claim: a file and its index, or a slot with its accounting. *)
Inductive Taken : Type := TakenDisk (name : bytes) (index : Z) | TakenMem (t : TakenSegment.t).

Definition taken_index (t : Taken) : Z :=
  match t with
  | TakenDisk _ index => index
  | TakenMem t => MemSealedSegment.index (TakenSegment.slot t)
  end.

(** [take_files] and [take_files_matching]; the gauges go to metrics. *)
Definition fs_take (windows : option (list EpochWindow.t)) (fs : Fs) : list Taken * Fs :=
  match fs with
  | FsDisk d =>
      let '(taken, d) := disk_take_files d in
      (map (λ '(name, index), TakenDisk name index) (DiskTaken.segments taken), FsDisk d)
  | FsMem c =>
      let '(taken, c) := take_files_inner windows c in
      (map TakenMem (TakenFiles.segments taken), FsMem c)
  end.

Definition fs_release_claim (index : Z) (fs : Fs) : Fs :=
  match fs with FsDisk d => FsDisk (release_claim index d) | FsMem c => FsMem c end.

(** Only called for memory segments. *)
Definition fs_release_for_retry (index : Z) (payload : bytes) (attempt : Z) (epochs : Z * Z) (fs : Fs)
    : Fs :=
  match fs with
  | FsMem c => FsMem (release_for_retry c index payload attempt epochs)
  | FsDisk d => FsDisk d
  end.

(** [remove_sealed] with [Terminal]. *)
Definition fs_remove_terminal (index : Z) (fs : Fs) : Fs :=
  match fs with FsDisk d => FsDisk (disk_remove_sealed index Terminal d) | FsMem c => FsMem c end.

(** Dropping what holds the accounting of a taken segment. *)
Definition fs_drop (t : Taken) (fs : Fs) : Fs :=
  match t, fs with
  | TakenMem t, FsMem c => FsMem (drop_accounting c (TakenSegment.accounting t))
  | _, _ => fs
  end.

Definition fs_adjust (new_size : Z) (t : Taken) (fs : Fs) : Taken * Fs :=
  match t, fs with
  | TakenMem t, FsMem c =>
      let '(c, a) := adjust c (TakenSegment.accounting t) new_size in
      (TakenMem (TakenSegment.mk (TakenSegment.slot t) a), FsMem c)
  | _, _ => (t, fs)
  end.

(** [release_unprocessed], and the claim is dropped. *)
Definition fs_release_unprocessed (t : Taken) (fs : Fs) : Fs :=
  match t, fs with
  | TakenDisk _ index, _ => fs_release_claim index fs
  | TakenMem s, FsMem c => fs_drop t (FsMem (release_unprocessed (TakenSegment.slot s) c))
  | TakenMem _, _ => fs
  end.

(** [TakenSegment::load]. *)
Definition load (t : Taken) (fs : Fs) : result bytes io_error :=
  match t, fs with
  | TakenMem s, _ => Ok (MemSealedSegment.payload (TakenSegment.slot s))
  | TakenDisk name _, FsDisk d =>
      match DiskFs.entries d !! name with
      | Some (File content) => Ok content
      | Some (Directory _) => Err IoOther
      | None => Err NotFound
      end
  | TakenDisk _ _, FsMem _ => Err NotFound
  end.

(** ** One attempt at a segment *)

Module SegmentData.
Record t : Type := mk { index : Z; payload : bytes; metadata : gmap bytes bytes }.
End SegmentData.

(** What a stage gave back: the data for the next one, its error, or a panic
    with its message. *)
Inductive stage_result : Type :=
| StageOk (next : SegmentData.t)
| StageErr (kind : ProcessErrorKind)
| StagePanic (msg : bytes).

Inductive Wait : Set := Live | Deadline | Stopped.

#[global] Instance wait_eq_dec : EqDecision Wait.
Proof. solve_decision. Defined.

(** [readiness]: how the wait for the stages before this segment ended;
    [header_time] and [seal_time]: the fallbacks of the creation and of the seal
    time, the file's times on disk. *)
Module Attempt.
Record t : Type := mk {
  readiness : Wait;
  header_time : Z;
  seal_time : Z;
  stages : list (SegmentData.t → stage_result) }.
End Attempt.

(** How an attempt ended. *)
Inductive outcome : Type :=
| Succeeded
| Failed (kind : ProcessErrorKind)
| Panicked (msg : bytes).

(** The stages in order; each success adjusts the accounting to the size of
    what it gave. *)
Fixpoint run_stages (stages : list (SegmentData.t → stage_result)) (data : SegmentData.t)
    (t : Taken) (fs : Fs) : outcome * Taken * Fs :=
  match stages with
  | [] => (Succeeded, t, fs)
  | stage :: stages =>
      match stage data with
      | StageOk next =>
          let '(t, fs) := fs_adjust (blen (SegmentData.payload next)) t fs in
          run_stages stages next t fs
      | StageErr kind => (Failed kind, t, fs)
      | StagePanic msg => (Panicked msg, t, fs)
      end
  end.

(** ** One pass *)

Module PassStats.
Record t : Type := mk {
  matched_done : Z;
  retry_dump_ids : list Z;
  entered_pipeline : Z;
  interruption : option Wait }.

Definition entered (s : t) : t :=
  mk (matched_done s) (retry_dump_ids s) (entered_pipeline s + 1) (interruption s).
Definition finished (s : t) (matched : list nat) : t :=
  mk (matched_done s + match matched with [] => 0 | _ => 1 end) (retry_dump_ids s)
    (entered_pipeline s) (interruption s).
Definition retried (s : t) (ids : list Z) : t :=
  mk (matched_done s) (retry_dump_ids s ++ ids) (entered_pipeline s) (interruption s).
Definition interrupted (s : t) (r : Wait) : t :=
  mk (matched_done s) (retry_dump_ids s) (entered_pipeline s) (Some r).
End PassStats.

Definition stats_default : PassStats.t := PassStats.mk 0 [] 0 None.

(** The parts of [WorkerLoop] a pass reads and writes, with the dumps. *)
Module Pass.
Record t : Type := mk {
  fs : Fs;
  epoch_cache : gmap Z (Z * Z);
  dumps : list ActiveDump.t;
  stats : PassStats.t }.

Definition set_fs (p : t) (fs : Fs) : t := mk fs (epoch_cache p) (dumps p) (stats p).
Definition set_cache (p : t) (c : gmap Z (Z * Z)) : t := mk (fs p) c (dumps p) (stats p).
Definition set_dumps (p : t) (d : list ActiveDump.t) : t := mk (fs p) (epoch_cache p) d (stats p).
Definition set_stats (p : t) (s : PassStats.t) : t := mk (fs p) (epoch_cache p) (dumps p) s.
End Pass.

Section worker.
(** The text of a dump's id: a ULID in Crockford's base 32. *)
Variable id_text : Z → bytes.
Variable has_processors : bool.

Fixpoint join_comma (l : list bytes) : bytes :=
  match l with
  | [] => []
  | [x] => x
  | x :: l => x ++ lit "," ++ join_comma l
  end.

(** [entry(k).or_insert(v)] *)
Definition or_insert (m : gmap bytes bytes) (kv : bytes * bytes) : gmap bytes bytes :=
  match m !! fst kv with Some _ => m | None => <[fst kv := snd kv]> m end.

(** The metadata a segment enters the pipeline with. *)
Definition segment_metadata_map (epoch_secs index : Z) (matched : list ActiveDump.t)
    : gmap bytes bytes :=
  let m := <[lit "segment_index" := put_dec index]>
             (<[lit "epoch_secs" := put_dec epoch_secs]> (∅ : gmap bytes bytes)) in
  match matched with
  | [] => m
  | _ =>
      foldl (λ m d, foldl (λ m '(k, v), or_insert m (lit "dump." ++ k, v)) m (ActiveDump.metadata d))
        (<[lit "dump_id" := join_comma (map (λ d, id_text (ActiveDump.id d)) matched)]> m) matched
  end.

(** The dumps whose window the segment meets, by index. *)
Fixpoint matching_from (i : nat) (epoch_secs seal_secs : Z) (dumps : list ActiveDump.t) : list nat :=
  match dumps with
  | [] => []
  | d :: dumps =>
      (if overlaps (ActiveDump.window d) epoch_secs seal_secs then [i] else [])
      ++ matching_from (S i) epoch_secs seal_secs dumps
  end.

Definition matching (epoch_secs seal_secs : Z) (dumps : list ActiveDump.t) : list nat :=
  matching_from 0 epoch_secs seal_secs dumps.

Definition select (dumps : list ActiveDump.t) (matched : list nat) : list ActiveDump.t :=
  omap (λ i, dumps !! i) matched.

Definition uncache (p : Pass.t) (index : Z) : Pass.t :=
  Pass.set_cache p (delete index (Pass.epoch_cache p)).

Definition finish (p : Pass.t) (matched : list nat) : Pass.t :=
  Pass.set_stats p (PassStats.finished (Pass.stats p) matched).

Definition record_error (p : Pass.t) (matched : list nat) (kind : ProcessErrorKind) : Pass.t :=
  Pass.set_dumps p (record_dump_error matched (Some kind) (kind_to_string kind) (Pass.dumps p)).

(** A segment that failed or panicked for good. *)
Definition settle_error (index : Z) (matched : list nat) (kind : ProcessErrorKind) (p : Pass.t)
    : Pass.t :=
  record_error (finish (uncache (Pass.set_fs p (fs_remove_terminal index (Pass.fs p))) index) matched)
    matched kind.

(** A retryable failure: back to the ring within the budget, or unclaimed. *)
Definition settle_retryable (t : Taken) (epochs : Z * Z) (matched : list nat)
    (kind : ProcessErrorKind) (p : Pass.t) : Pass.t :=
  let ids := map ActiveDump.id (select (Pass.dumps p) matched) in
  match t with
  | TakenMem s =>
      let slot := TakenSegment.slot s in
      let attempt := MemSealedSegment.retry_count slot + 1 in
      if MEMORY_RETRY_BUDGET <? attempt then record_error (finish p matched) matched kind
      else
        let fs := fs_release_for_retry (MemSealedSegment.index slot)
                    (MemSealedSegment.payload slot) attempt epochs (Pass.fs p) in
        Pass.set_stats (Pass.set_fs p fs) (PassStats.retried (Pass.stats p) ids)
  | TakenDisk _ index =>
      Pass.set_stats (Pass.set_fs p (fs_release_claim index (Pass.fs p)))
        (PassStats.retried (Pass.stats p) ids)
  end.

Definition count_dumps (matched : list nat) (epochs : Z * Z) (dumps : list ActiveDump.t)
    : list ActiveDump.t :=
  foldl (λ ds i, alter (λ d, ActiveDump.count d (fst epochs) (snd epochs)) i ds) dumps matched.

(** What became of a segment that was run through the stages. *)
Definition settle (t : Taken) (epochs : Z * Z) (matched : list nat) (o : outcome) (p : Pass.t)
    : Pass.t :=
  let index := taken_index t in
  match o with
  | Succeeded =>
      let p := finish (uncache p index) matched in
      Pass.set_dumps p (count_dumps matched epochs (Pass.dumps p))
  | Failed kind =>
      if already_deleted kind then finish (uncache p index) matched
      else if retryable kind then settle_retryable t epochs matched kind p
      else settle_error index matched kind p
  | Panicked msg => settle_error index matched (Io false (lit "processor panicked: " ++ msg)) p
  end.

(** Outside every window: left in place, its epochs cached on disk. *)
Definition put_back (t : Taken) (epochs : Z * Z) (p : Pass.t) : Pass.t :=
  match t with
  | TakenMem s =>
      let slot := TakenSegment.slot s in
      Pass.set_fs p (fs_release_for_retry (MemSealedSegment.index slot)
                       (MemSealedSegment.payload slot) (MemSealedSegment.retry_count slot) epochs
                       (Pass.fs p))
  | TakenDisk _ index =>
      Pass.set_fs (Pass.set_cache p (<[index := epochs]> (Pass.epoch_cache p)))
        (fs_release_claim index (Pass.fs p))
  end.

Definition drop_taken (t : Taken) (p : Pass.t) : Pass.t :=
  Pass.set_fs p (fs_drop t (Pass.fs p)).

(** The creation and the seal epoch of a loaded segment. *)
Definition epochs_of (a : Attempt.t) (t : Taken) (payload : bytes) : Z * Z :=
  (fst (creation_epoch_secs (Attempt.header_time a) payload),
   match t with
   | TakenMem s => MemSealedSegment.seal_secs (TakenSegment.slot s)
   | TakenDisk _ _ => Attempt.seal_time a
   end).

(** Known to be outside every active window. *)
Definition cached_outside (t : Taken) (p : Pass.t) : bool :=
  match Pass.epoch_cache p !! taken_index t with
  | Some (start, seal) =>
      negb (existsb (λ d, overlaps (ActiveDump.window d) start seal) (Pass.dumps p))
  | None => false
  end.

Definition segment_data (t : Taken) (payload : bytes) (epochs : Z * Z) (matched : list nat)
    (dumps : list ActiveDump.t) : SegmentData.t :=
  SegmentData.mk (taken_index t) payload
    (segment_metadata_map (fst epochs) (taken_index t) (select dumps matched)).

(** One round of the loop of [process_segments], the stages being live. *)
Definition process_segment (a : Attempt.t) (t : Taken) (p : Pass.t) : Pass.t :=
  let active := negb (bool_decide (Pass.dumps p = [])) in
  if active && cached_outside t p
  then drop_taken t (Pass.set_fs p (fs_release_claim (taken_index t) (Pass.fs p))) else
  match load t (Pass.fs p) with
  | Err _ => drop_taken t p
  | Ok payload =>
      let epochs := epochs_of a t payload in
      let matched := matching (fst epochs) (snd epochs) (Pass.dumps p) in
      if active && bool_decide (matched = [])
      then drop_taken t (put_back t epochs p) else
      let p := Pass.set_stats p (PassStats.entered (Pass.stats p)) in
      let data := segment_data t payload epochs matched (Pass.dumps p) in
      let '(o, t, fs) := run_stages (Attempt.stages a) data t (Pass.fs p) in
      drop_taken t (settle t epochs matched o (Pass.set_fs p fs))
  end.

(** [process_segments]; without processors the claims are just dropped. *)
Fixpoint process_loop (l : list (Taken * Attempt.t)) (p : Pass.t) : Pass.t :=
  match l with
  | [] => p
  | (t, a) :: rest =>
      match Attempt.readiness a with
      | Live => process_loop rest (process_segment a t p)
      | r =>
          let fs := foldl (λ fs x, fs_release_unprocessed (fst x) fs)
                      (fs_release_unprocessed t (Pass.fs p)) rest in
          Pass.set_stats (Pass.set_fs p fs) (PassStats.interrupted (Pass.stats p) r)
      end
  end.

Definition process_segments (l : list (Taken * Attempt.t)) (p : Pass.t) : Pass.t :=
  if has_processors then process_loop l p
  else Pass.set_fs p (foldl (λ fs x, fs_drop (fst x) fs) (Pass.fs p) l).

(** ** The continuous worker *)

(** One cycle, between two waits: the attempts it makes, the [i]-th for the
    [i]-th segment taken.  Whether anything was taken. *)
Definition attempts (oracle : nat → Attempt.t) (taken : list Taken) : list (Taken * Attempt.t) :=
  imap (λ i t, (t, oracle i)) taken.

Definition cycle (oracle : nat → Attempt.t) (fs : Fs) : bool * Fs :=
  let '(taken, fs) := fs_take None fs in
  let p := process_segments (attempts oracle taken) (Pass.mk fs ∅ [] stats_default) in
  (negb (bool_decide (taken = [])), Pass.fs p).

(** Drain to empty at the end: before every cycle it waits for the stages
    ([live]), and gives up when told to stop instead.  Whether it came to the
    end; [None] when the fuel does not reach. *)
Fixpoint drain_to_empty (fuel : nat) (live : nat → bool) (oracle : nat → nat → Attempt.t) (fs : Fs)
    : option (bool * Fs) :=
  match fuel with
  | O => None
  | S fuel =>
      if live fuel then
        let '(more, fs) := cycle (oracle fuel) fs in
        if more then drain_to_empty fuel live oracle fs else Some (true, fs)
      else Some (false, fs)
  end.
End worker.

(** ** The continuous worker on a ring *)

Section memory.
Variable id_text : Z → bytes.
Variable has_processors : bool.

Abbreviation cycle := (cycle id_text has_processors).
Abbreviation drain_to_empty := (drain_to_empty id_text has_processors).

(** What the inputs must satisfy: the stages stay live and what they give fits
    a [usize]. *)
Definition attempt_ok (a : Attempt.t) : Prop :=
  Attempt.readiness a = Live ∧
  Forall (λ stage : SegmentData.t → stage_result,
    ∀ data next, stage data = StageOk next → fits 64 (blen (SegmentData.payload next)))
    (Attempt.stages a).

(** The worker with a segment and its accounting in hand. *)
Abbreviation working c t h :=
  (Ring.mk c (Working (TakenSegment.slot t) (TakenSegment.accounting t)) h).

Lemma run_stages_steps stages data t c h :
  Forall (λ stage : SegmentData.t → stage_result,
    ∀ data next, stage data = StageOk next → fits 64 (blen (SegmentData.payload next))) stages →
  ∃ o t' c', run_stages stages data (TakenMem t) (FsMem c) = (o, TakenMem t', FsMem c') ∧
    TakenSegment.slot t' = TakenSegment.slot t ∧ slots c' = slots c ∧
    rtc step (working c t h) (working c' t' h).
Proof.
  intros Hfit. revert data t c. induction Hfit as [|stage stages Hst _ IH]; intros data t c.
  { exists Succeeded, t, c. by split_and!. }
  cbn [run_stages]. destruct (stage data) as [next|k|msg] eqn:E.
  - cbn [fs_adjust]. destruct (adjust c (TakenSegment.accounting t) _) as [c1 a1] eqn:Ea.
    destruct (IH next (TakenSegment.mk (TakenSegment.slot t) a1) c1)
      as (o & t' & c' & -> & Hslot & Hs & Hsteps).
    exists o, t', c'. split; [done|]. split; [done|]. split.
    { rewrite Hs. unfold adjust in Ea. destruct (_ =? _); by injection Ea as <- <-. }
    eapply rtc_l; [|exact Hsteps]. by eapply step_adjust; [eapply Hst|].
  - exists (Failed k), t, c. by split_and!.
  - exists (Panicked msg), t, c. by split_and!.
Qed.

(** What a segment that was processed leaves in front of the ring. *)
Definition retried_as (s s' : MemSealedSegment.t) : Prop :=
  identity s' = identity s ∧
  MemSealedSegment.retry_count s' = MemSealedSegment.retry_count s + 1 ∧
  MemSealedSegment.retry_count s' <= MEMORY_RETRY_BUDGET.

Definition left_over (s : MemSealedSegment.t) (rest : list MemSealedSegment.t) (c : MemChannel.t)
    : Prop :=
  slots c = rest ∨ ∃ s', slots c = s' :: rest ∧ retried_as s s'.

Lemma settle_steps a t payload o p c h :
  Pass.fs p = FsMem c → payload = MemSealedSegment.payload (TakenSegment.slot t) →
  ∃ c' h', Pass.fs (settle (TakenMem t) (epochs_of a (TakenMem t) payload) [] o p) = FsMem c' ∧
    left_over (TakenSegment.slot t) (slots c) c' ∧
    rtc step (working c t h) (Ring.mk c' (Settled (TakenSegment.accounting t)) h').
Proof.
  intros Hfs Hpay.
  assert (∀ p', Pass.fs p' = FsMem c → ∃ c' h', Pass.fs p' = FsMem c' ∧
    left_over (TakenSegment.slot t) (slots c) c' ∧
    rtc step (working c t h) (Ring.mk c' (Settled (TakenSegment.accounting t)) h')) as Hgone.
  { intros p' Hp'. eexists c, _. split; [done|]. split; [by left|]. apply rtc_once, step_finish. }
  destruct o as [|k|msg]; cbn [settle].
  - by apply Hgone.
  - destruct (already_deleted k); [by apply Hgone|]. destruct (retryable k).
    + unfold settle_retryable. cbn [fs_release_for_retry]. rewrite Hfs.
      destruct (MEMORY_RETRY_BUDGET <? _) eqn:Eb; [by apply Hgone|]. apply Z.ltb_ge in Eb.
      eexists _, _. split; [done|]. split.
      * right. eexists. split; [done|]. by split_and!.
      * apply rtc_once. apply (step_retry _ _ _ _ (Attempt.header_time a)). unfold retry_segment.
        rewrite (proj2 (Z.ltb_ge _ _) Eb). unfold epochs_of. cbn [fst snd]. by rewrite Hpay.
    + apply Hgone. cbn. by rewrite Hfs.
  - apply Hgone. cbn. by rewrite Hfs.
Qed.

Lemma process_segment_steps a t p c h :
  Pass.fs p = FsMem c → Pass.dumps p = [] → attempt_ok a →
  ∃ c' h', Pass.fs (process_segment id_text a (TakenMem t) p) = FsMem c' ∧
    left_over (TakenSegment.slot t) (slots c) c' ∧
    rtc step (working c t h) (Ring.mk c' Idle h').
Proof.
  intros Hfs Hd [_ Hfit]. unfold process_segment. rewrite Hd. cbn [bool_decide andb negb].
  rewrite (bool_decide_true (_ = _)) by done. cbn [negb andb load].
  set (e := epochs_of _ _ _). change (matching (fst e) (snd e) []) with (@nil nat).
  match goal with |- context [run_stages _ ?d _ _] => set (data := d) end.
  destruct (run_stages_steps (Attempt.stages a) data t c h Hfit) as (o & t' & c1 & E & Hslot & Hs & H1).
  cbn [Pass.set_stats Pass.fs]. rewrite Hfs, E.
  match goal with |- context [settle _ _ _ _ ?q] => set (p1 := q) end.
  assert (e = epochs_of a (TakenMem t') (MemSealedSegment.payload (TakenSegment.slot t))) as ->
    by (unfold e, epochs_of; by rewrite Hslot).
  destruct (settle_steps a t' (MemSealedSegment.payload (TakenSegment.slot t)) o p1 c1 h eq_refl)
    as (c2 & h2 & E2 & Hl & H2); [by rewrite Hslot|].
  unfold drop_taken. cbn [Pass.set_fs Pass.fs]. rewrite E2. cbn [fs_drop].
  eexists _, h2. split; [done|]. split; [by rewrite <- Hslot, <- Hs|].
  etrans; [exact H1|]. etrans; [exact H2|]. apply rtc_once, step_drop.
Qed.

(** One cycle: nothing is there, or the head of the ring is dealt with. *)
Lemma cycle_steps oracle c h :
  (∀ i, attempt_ok (oracle i)) →
  ∃ more c' h', cycle oracle (FsMem c) = (more, FsMem c') ∧
    rtc step (Ring.mk c Idle h) (Ring.mk c' Idle h') ∧
    match slots c with
    | [] => more = false ∧ slots c' = []
    | s :: rest => more = true ∧ left_over s rest c'
    end.
Proof.
  intros Hok. unfold Worker.cycle. cbn [fs_take]. unfold take_files_inner.
  destruct (take_swap c) as [[now peak] c0] eqn:E0.
  assert (slots c0 = slots c) as Hs0 by (unfold take_swap in E0; by injection E0 as _ _ <-).
  destruct (take_pop None c0) as [[[[slot n] q] d] c1] eqn:E1.
  assert (rtc step (Ring.mk c Idle h) (Ring.mk c1 (match slot with Some s => Popped s | None => Idle end)
    (History.mk (History.sealed h) (History.evicted h) (History.finished h) (History.reported h + d)))) as H1.
  { eapply rtc_l; [by eapply step_swap|]. eapply rtc_once. by eapply step_pop. }
  assert (match slots c with [] => slot = None ∧ slots c1 = [] | s :: rest => slot = Some s ∧ slots c1 = rest end) as Hpop.
  { rewrite <- Hs0. unfold take_pop, slots in *. destruct (Queue.segments _) eqn:E.
    - injection E1 as <- _ _ _ <-. done.
    - injection E1 as <- _ _ _ <-. done. }
  destruct slot as [s|].
  2:{ destruct (slots c); [|by destruct Hpop]. cbn [TakenFiles.segments map].
      eexists false, c1, _. destruct Hpop as [_ Hpop].
      split; [by destruct has_processors|]. split; [exact H1|]. by split. }
  destruct (slots c) as [|s' rest]; [by destruct Hpop|]. destruct Hpop as [[= <-] Hrest].
  destruct (take_account s c1) as [t c2] eqn:E2. cbn [TakenFiles.segments map].
  assert (rtc step (Ring.mk c Idle h) (working c2 t (History.mk (History.sealed h) (History.evicted h)
    (History.finished h) (History.reported h + d)))) as H2.
  { eapply rtc_r; [exact H1|]. destruct t as [s1 a1].
    assert (s1 = s) as -> by (unfold take_account in E2; by injection E2 as -> _ _).
    by eapply step_account. }
  assert (TakenSegment.slot t = s ∧ slots c2 = rest) as [Hslot Hs2].
  { unfold take_account in E2. injection E2 as <- <-. by split. }
  unfold process_segments. destruct has_processors.
  - cbn [attempts imap process_loop]. destruct (Hok 0%nat) as [Hr _].
    rewrite Hr. set (p := Pass.mk _ _ _ _).
    match type of H2 with rtc _ _ (working _ _ ?x) =>
      destruct (process_segment_steps (oracle 0%nat) t p c2 x eq_refl eq_refl (Hok 0%nat))
        as (c' & h' & -> & Hl & H3) end.
    eexists true, c', h'. split; [done|]. split; [by etrans|]. split; [done|].
    by rewrite Hslot, Hs2 in Hl.
  - cbn [attempts imap foldl fst fs_drop Pass.set_fs Pass.fs].
    eexists true, _, _. split; [done|]. split.
    { etrans; [exact H2|]. eapply rtc_l; [apply step_finish|]. apply rtc_once, step_drop. }
    split; [done|]. by left.
Qed.

(** The attempts the retry budget still allows for the segments in a ring. *)
Definition effort (l : list MemSealedSegment.t) : nat :=
  foldr (λ s n, Z.to_nat (MEMORY_RETRY_BUDGET + 1 - MemSealedSegment.retry_count s) + n)%nat 0%nat l.

Lemma left_over_effort s rest c :
  retry_ok s → left_over s rest c → (effort (slots c) < effort (s :: rest))%nat.
Proof.
  unfold retry_ok, effort, MEMORY_RETRY_BUDGET. intros Hs [->|(s' & -> & _ & Hr & _)]; cbn [foldr];
    rewrite ?Hr; lia.
Qed.

Lemma drain_steps live oracle :
  (∀ n, live n = true) → (∀ n i, attempt_ok (oracle n i)) →
  ∀ fuel c h, ring_ok (Ring.mk c Idle h) → (effort (slots c) < fuel)%nat →
  ∃ c' h', drain_to_empty fuel live oracle (FsMem c) = Some (true, FsMem c') ∧
    rtc step (Ring.mk c Idle h) (Ring.mk c' Idle h') ∧ slots c' = [].
Proof.
  intros Hlive Hok. induction fuel as [|fuel IH]; intros c h Hring Hf; [lia|].
  cbn [Worker.drain_to_empty]. rewrite Hlive.
  destruct (cycle_steps (oracle fuel) c h (Hok fuel)) as (more & c1 & h1 & -> & Hst & Hc).
  pose proof (steps_ok _ _ Hst Hring) as Hring1.
  pose proof (ring_retries _ Hring) as Hret. cbn [Ring.channel Ring.pc owned] in Hret.
  destruct (slots c) as [|s rest]; destruct Hc as [-> Hc]; [by exists c1, h1|].
  cbn [app] in Hret. inversion Hret as [|? ? Hs _]; subst. apply left_over_effort in Hc; [|done].
  destruct (IH c1 h1 Hring1 ltac:(lia)) as (c' & h' & Hd & Hst' & He).
  exists c', h'. split; [done|]. split; [by etrans|done].
Qed.

(** The drain at the end of a recording in memory terminates whatever the
    processors do, failing and panicking included: the retry budget of the
    segments left in the ring bounds the cycles.  Each cycle is a path of the
    ring's atomic steps, the ring is empty at the end, every segment ever
    sealed was evicted or dealt with, and nothing is in flight. *)
Theorem memory_drain_terminates max seg c0 c h live oracle :
  new_in_memory max seg = Ok c0 → rtc step (ring_start c0) (Ring.mk c Idle h) →
  (∀ n, live n = true) → (∀ n i, attempt_ok (oracle n i)) →
  ∃ c' h', drain_to_empty (S (effort (slots c))) live oracle (FsMem c) = Some (true, FsMem c') ∧
    rtc step (Ring.mk c Idle h) (Ring.mk c' Idle h') ∧ slots c' = [] ∧
    map identity (History.sealed h') ≡ₚ map identity (History.evicted h' ++ History.finished h') ∧
    MemChannel.in_flight_bytes c' = 0 ∧ MemChannel.in_flight_segments c' = 0.
Proof.
  intros Hc0 Hr Hlive Hok. pose proof (steps_ok _ _ Hr (new_in_memory_start _ _ _ Hc0)) as Hring.
  destruct (drain_steps live oracle Hlive Hok _ c h Hring ltac:(apply Nat.lt_succ_diag_r))
    as (c' & h' & Hd & Hst & He).
  exists c', h'. destruct (steps_ok _ _ Hst Hring) as [_ _ Hb _ Hs _ _ Hf _ _ _ _].
  cbn [Ring.history Ring.channel Ring.pc owned live_bytes MemRing.live] in *. rewrite He in Hf.
  by split_and!.
Qed.
End memory.

(** ** A failing stage *)

(** Two segments of a fresh ring, and a stage that fails every time. *)
Definition example_segment (i : Z) : bytes := lit "TRC".

Definition failing_attempt : Attempt.t :=
  Attempt.mk Live 0 0 [λ data, StageOk (SegmentData.mk (SegmentData.index data) (lit "gz") (SegmentData.metadata data));
     λ _, StageErr (Transfer (lit "down") true)].

Definition example_ring : option MemChannel.t :=
  match new_in_memory 1000 100 with
  | Ok c => Some (snd (seal (snd (seal c 0 (example_segment 0) 5 6)) 1 (example_segment 1) 7 8))
  | Err _ => None
  end.

Example memory_drain_terminates_witness :
  match example_ring with
  | Some c =>
      effort (slots c) = 8%nat ∧
      ∃ c', drain_to_empty put_dec true 9 (λ _, true) (λ _ _, failing_attempt) (FsMem c)
            = Some (true, FsMem c') ∧ slots c' = [] ∧ MemChannel.in_flight_bytes c' = 0
  | None => False
  end.
Proof.
  destruct example_ring as [c|] eqn:E; [|by apply (none_absurd _ E); vm_compute].
  assert (effort (slots c) = 8%nat) as He by (apply (some_field (λ c, effort (slots c)) _ _ _ E); by vm_compute).
  destruct (new_in_memory 1000 100) as [c0|] eqn:E0; [|by vm_compute in E0].
  assert (∃ h, rtc step (ring_start c0) (Ring.mk c Idle h)) as [h Hr].
  { unfold example_ring in E. rewrite E0 in E. injection E as <-.
    vm_compute in E0. injection E0 as <-. eexists.
    eapply rtc_l; [eapply (step_seal _ _ _ 0 (example_segment 0) 5 6); [reflexivity|by vm_compute|by vm_compute]|].
    eapply rtc_l; [eapply (step_seal _ _ _ 1 (example_segment 1) 7 8); [reflexivity|by vm_compute|by vm_compute]|].
    apply rtc_refl. }
  split; [exact He|].
  destruct (memory_drain_terminates put_dec true 1000 100 c0 c h (λ _, true) (λ _ _, failing_attempt) E0 Hr)
    as (c' & h' & Hd & _ & Hs & _ & Hb & _).
  - done.
  - intros _ _. split; [done|]. constructor; [|constructor; [|constructor]].
    + intros data next [= <-]. by vm_compute.
    + intros data next [=].
  - exists c'. rewrite He in Hd. by split_and!.
Defined.

(** ** What a pass does to the dumps *)

(** What an attempt means to a dump that the segment matches. *)
Inductive verdict : Set := Made | Silent | Broken.

Definition verdict_eqb (v v' : verdict) : bool :=
  match v, v' with Made, Made | Silent, Silent | Broken, Broken => true | _, _ => false end.

Definition verdict_of (t : Taken) (o : outcome) : verdict :=
  match o with
  | Succeeded => Made
  | Failed kind =>
      if already_deleted kind then Silent
      else if retryable kind then
        match t with
        | TakenMem s =>
            if MEMORY_RETRY_BUDGET <? MemSealedSegment.retry_count (TakenSegment.slot s) + 1
            then Broken else Silent
        | TakenDisk _ _ => Silent
        end
      else Broken
  | Panicked _ => Broken
  end.

(** The epochs of a segment that entered the pipeline, and its verdict. *)
Module Report.
Record t : Type := mk { epoch_secs : Z; seal_secs : Z; verdict : verdict }.
End Report.

Definition concerns (d : ActiveDump.t) (r : Report.t) : bool :=
  overlaps (ActiveDump.window d) (Report.epoch_secs r) (Report.seal_secs r).

Section dumps.
Variable id_text : Z → bytes.

Definition segment_report (a : Attempt.t) (t : Taken) (p : Pass.t) : option Report.t :=
  let active := negb (bool_decide (Pass.dumps p = [])) in
  if active && cached_outside t p then None else
  match load t (Pass.fs p) with
  | Err _ => None
  | Ok payload =>
      let epochs := epochs_of a t payload in
      let matched := matching (fst epochs) (snd epochs) (Pass.dumps p) in
      if active && bool_decide (matched = []) then None else
      let data := segment_data id_text t payload epochs matched (Pass.dumps p) in
      let '(o, t, _) := run_stages (Attempt.stages a) data t (Pass.fs p) in
      Some (Report.mk (fst epochs) (snd epochs) (verdict_of t o))
  end.

Fixpoint pass_log (l : list (Taken * Attempt.t)) (p : Pass.t) : list Report.t :=
  match l with
  | [] => []
  | (t, a) :: rest =>
      match Attempt.readiness a with
      | Live => option_list (segment_report a t p) ++ pass_log rest (process_segment id_text a t p)
      | _ => []
      end
  end.
End dumps.

(** A dump up to the text of its error. *)
Definition blank_error : ProcessErrorKind := Io false [].

Definition erase (d : ActiveDump.t) : ActiveDump.t :=
  match ActiveDump.first_error d with
  | Some _ => ActiveDump.set_error d blank_error
  | None => d
  end.

(** One dump, on its own, reading the reports. *)
Definition tally (d : ActiveDump.t) (r : Report.t) : ActiveDump.t :=
  if concerns d r then
    match Report.verdict r with
    | Made => ActiveDump.count d (Report.epoch_secs r) (Report.seal_secs r)
    | Silent => d
    | Broken => ActiveDump.set_error d blank_error
    end
  else d.

Lemma matching_shift i e s dumps :
  matching_from (S i) e s dumps = map S (matching_from i e s dumps).
Proof.
  revert i. induction dumps as [|d dumps IH]; intros i; [done|]. cbn [matching_from].
  rewrite IH, map_app. by destruct (overlaps _ _ _).
Qed.

Lemma matching_cons e s d dumps :
  matching e s (d :: dumps)
  = (if overlaps (ActiveDump.window d) e s then [0%nat] else []) ++ map S (matching e s dumps).
Proof. unfold matching. cbn [matching_from]. by rewrite matching_shift. Qed.

Lemma count_dumps_shift l ep d dumps :
  count_dumps (map S l) ep (d :: dumps) = d :: count_dumps l ep dumps.
Proof.
  unfold count_dumps. revert dumps. induction l as [|i l IH]; intros dumps; [done|].
  cbn [map foldl]. apply IH.
Qed.

(** The loop over the matched indices counts each dump by itself. *)
Lemma count_matching e s dumps :
  count_dumps (matching e s dumps) (e, s) dumps
  = map (λ d, if overlaps (ActiveDump.window d) e s then ActiveDump.count d e s else d) dumps.
Proof.
  induction dumps as [|d dumps IH]; [done|]. rewrite matching_cons. cbn [map]. rewrite <- IH.
  destruct (overlaps _ _ _); [|apply count_dumps_shift].
  change (count_dumps (0%nat :: map S (matching e s dumps)) (e, s) (d :: dumps))
    with (count_dumps (map S (matching e s dumps)) (e, s) (ActiveDump.count d e s :: dumps)).
  apply count_dumps_shift.
Qed.

Lemma record_shift l kind msg d dumps :
  record_dump_error (map S l) kind msg (d :: dumps) = d :: record_dump_error l kind msg dumps.
Proof.
  revert kind dumps. induction l as [|i l IH]; intros kind dumps; [done|]. cbn [map record_dump_error].
  change ((d :: dumps) !! S i) with (dumps !! i).
  destruct (dumps !! i) as [d'|]; [|apply IH].
  destruct (ActiveDump.first_error d'); [apply IH|].
  change (<[S i := ?x]> (d :: dumps)) with (d :: <[i := x]> dumps). apply IH.
Qed.

(** An error is recorded in every matched dump that has none. *)
Lemma record_matching e s kind msg dumps :
  map erase (record_dump_error (matching e s dumps) kind msg dumps)
  = map (λ d, if overlaps (ActiveDump.window d) e s then ActiveDump.set_error d blank_error else d)
      (map erase dumps).
Proof.
  revert kind. induction dumps as [|d dumps IH]; intros kind; [done|]. rewrite matching_cons.
  cbn [map]. rewrite <- (IH kind).
  assert (overlaps (ActiveDump.window (erase d)) e s = overlaps (ActiveDump.window d) e s) as ->
    by (unfold erase; by destruct (ActiveDump.first_error d)).
  destruct (overlaps _ _ _); [|cbn [app]; by rewrite record_shift].
  cbn [app record_dump_error]. change ((d :: dumps) !! 0%nat) with (Some d). cbn [lookup].
  unfold erase at 2. destruct (ActiveDump.first_error d) eqn:E.
  - rewrite record_shift. cbn [map]. unfold erase at 1. by rewrite E.
  - change (<[0%nat := ?x]> (d :: dumps)) with (x :: dumps). rewrite record_shift. cbn [map].
    rewrite (IH None), (IH kind). by destruct d.
Qed.

Lemma erase_count d e s : erase (ActiveDump.count d e s) = ActiveDump.count (erase d) e s.
Proof. unfold erase. cbn. by destruct (ActiveDump.first_error d). Qed.

Lemma erase_window d : ActiveDump.window (erase d) = ActiveDump.window d.
Proof. unfold erase. by destruct (ActiveDump.first_error d). Qed.

Lemma settle_tally t e s o p :
  map erase (Pass.dumps (settle t (e, s) (matching e s (Pass.dumps p)) o p))
  = map (λ d, tally d (Report.mk e s (verdict_of t o))) (map erase (Pass.dumps p)).
Proof.
  assert (∀ kind q, Pass.dumps q = Pass.dumps p →
    map erase (Pass.dumps (record_error q (matching e s (Pass.dumps p)) kind))
    = map (λ d, tally d (Report.mk e s Broken)) (map erase (Pass.dumps p))) as Herr.
  { intros kind q Hq. cbn. by rewrite Hq, record_matching. }
  assert (map erase (Pass.dumps p)
    = map (λ d, tally d (Report.mk e s Silent)) (map erase (Pass.dumps p))) as Hsilent.
  { rewrite <- (map_id (map erase _)) at 1. apply map_ext. intros d. unfold tally. cbn.
    by destruct (concerns _ _). }
  destruct o as [|kind|msg]; cbn [settle verdict_of].
  - cbn [Pass.set_dumps Pass.dumps finish uncache Pass.set_stats Pass.set_cache].
    rewrite count_matching, !map_map. apply map_ext. intros d. unfold tally, concerns. cbn.
    rewrite erase_window. destruct (overlaps _ _ _); [apply erase_count|done].
  - destruct (already_deleted kind); [exact Hsilent|]. destruct (retryable kind).
    + unfold settle_retryable. destruct t as [name i|sl]; [exact Hsilent|].
      destruct (MEMORY_RETRY_BUDGET <? _); [by apply Herr|exact Hsilent].
    + by apply Herr.
  - by apply Herr.
Qed.

Section tallies.
Variable id_text : Z → bytes.

Lemma segment_tally a t p :
  map erase (Pass.dumps (process_segment id_text a t p))
  = match segment_report id_text a t p with
    | Some r => map (λ d, tally d r) (map erase (Pass.dumps p))
    | None => map erase (Pass.dumps p)
    end.
Proof.
  unfold process_segment, segment_report. destruct (_ && cached_outside t p); [done|].
  destruct (load t (Pass.fs p)) as [payload|x]; [|done].
  set (ep := epochs_of a t payload). destruct (_ && bool_decide _).
  { unfold put_back. by destruct t. }
  change (Pass.dumps (Pass.set_stats p (PassStats.entered (Pass.stats p)))) with (Pass.dumps p).
  change (Pass.fs (Pass.set_stats p (PassStats.entered (Pass.stats p)))) with (Pass.fs p).
  destruct (run_stages _ _ _ _) as [[o t'] fs]. rewrite (surjective_pairing ep) at 1.
  apply (settle_tally t' (fst ep) (snd ep) o
           (Pass.set_fs (Pass.set_stats p (PassStats.entered (Pass.stats p))) fs)).
Qed.

Lemma pass_tally l p :
  map erase (Pass.dumps (process_loop id_text l p))
  = map (λ d, foldl tally d (pass_log id_text l p)) (map erase (Pass.dumps p)).
Proof.
  revert p. induction l as [|[t a] l IH]; intros p; cbn [process_loop pass_log].
  { symmetry. apply map_id. }
  destruct (Attempt.readiness a); [|symmetry; apply map_id..].
  rewrite IH, segment_tally. destruct (segment_report id_text a t p) as [r|]; [|done].
  by rewrite map_map.
Qed.
End tallies.

(** The reports that concern a dump, and those of a verdict among them. *)
Definition mine (d : ActiveDump.t) (log : list Report.t) : list Report.t :=
  filter (λ r, concerns d r = true) log.

Definition with_verdict (v : verdict) (log : list Report.t) : list Report.t :=
  filter (λ r, verdict_eqb (Report.verdict r) v = true) log.

(** What reading the reports adds up to. *)
Record tallied (d d' : ActiveDump.t) (log : list Report.t) : Prop := {
  tallied_id : ActiveDump.id d' = ActiveDump.id d;
  tallied_triggered : ActiveDump.triggered_at d' = ActiveDump.triggered_at d;
  tallied_window : ActiveDump.window d' = ActiveDump.window d;
  tallied_deadline : ActiveDump.deadline d' = ActiveDump.deadline d;
  tallied_metadata : ActiveDump.metadata d' = ActiveDump.metadata d;
  tallied_unavailable : ActiveDump.pipeline_unavailable d' = ActiveDump.pipeline_unavailable d;
  tallied_count : ActiveDump.segments_processed d'
    = ActiveDump.segments_processed d + Z.of_nat (length (with_verdict Made (mine d log)));
  tallied_error : is_Some (ActiveDump.first_error d') ↔
    is_Some (ActiveDump.first_error d) ∨ with_verdict Broken (mine d log) ≠ [];
  tallied_span : Forall (λ r, ∃ first last,
      ActiveDump.first_epoch d' = Some first ∧ ActiveDump.last_epoch d' = Some last ∧
      first <= Report.epoch_secs r ∧ Report.seal_secs r <= last)
    (with_verdict Made (mine d log));
  tallied_first : ∀ first, ActiveDump.first_epoch d' = Some first →
    ActiveDump.first_epoch d = Some first ∨
    first ∈ map Report.epoch_secs (with_verdict Made (mine d log));
  tallied_last : ∀ last, ActiveDump.last_epoch d' = Some last →
    ActiveDump.last_epoch d = Some last ∨
    last ∈ map Report.seal_secs (with_verdict Made (mine d log)) }.

Lemma mine_app d l r :
  mine d (l ++ [r]) = mine d l ++ (if concerns d r then [r] else []).
Proof.
  unfold mine. rewrite list.filter_app. f_equal. cbn. by destruct (concerns d r).
Qed.

Lemma with_verdict_app v l r :
  with_verdict v (l ++ [r]) = with_verdict v l ++ (if verdict_eqb (Report.verdict r) v then [r] else []).
Proof.
  unfold with_verdict. rewrite list.filter_app. f_equal. cbn. by destruct (verdict_eqb _ _).
Qed.

Lemma tally_window d r : ActiveDump.window (tally d r) = ActiveDump.window d.
Proof. unfold tally. destruct (concerns d r); [|done]. by destruct (Report.verdict r). Qed.

Lemma foldl_tallied d log : tallied d (foldl tally d log) log.
Proof.
  induction log as [|r log IH] using rev_ind.
  { cbn. split; cbn; try done; try lia; try (by left); try naive_solver; constructor. }
  rewrite foldl_app. cbn [foldl]. set (d1 := foldl tally d log) in *.
  destruct IH as [Hi Ht Hw Hdl Hm Hu Hn He Hs Hf Hl].
  assert (concerns d1 r = concerns d r) as Hc by (unfold concerns; by rewrite Hw).
  unfold tally. rewrite Hc. destruct (concerns d r) eqn:Ec.
  2:{ split; rewrite ?mine_app, ?Ec, ?app_nil_r; done. }
  split; rewrite ?mine_app, ?Ec, ?with_verdict_app; try (by destruct (Report.verdict r)).
  - destruct (Report.verdict r) eqn:Ev; cbn;
      rewrite ?app_nil_r; [|done..].
    rewrite length_app, Hn. change (length [r]) with 1%nat. lia.
  - destruct (Report.verdict r) eqn:Ev; cbn;
      rewrite ?app_nil_r; [done..|].
    split; intros _; [right; by destruct (with_verdict Broken (mine d log))|by eexists].
  - destruct (Report.verdict r) eqn:Ev; cbn;
      rewrite ?app_nil_r; [|done..].
    apply list.Forall_app. split.
    + eapply list.Forall_impl; [exact Hs|]. intros x (f & la & -> & -> & H1 & H2).
      cbn. eexists _, _. split_and!; [done..| |]; lia.
    + constructor; [|constructor]. eexists _, _. split_and!; [done..| |].
      * destruct (ActiveDump.first_epoch d1); cbn; lia.
      * destruct (ActiveDump.last_epoch d1); cbn; lia.
  - destruct (Report.verdict r) eqn:Ev; cbn;
      rewrite ?app_nil_r; [|done..].
    rewrite map_app. intros first [= <-].
    destruct (ActiveDump.first_epoch d1) as [f|] eqn:E1; cbn.
    + destruct (Hf f eq_refl) as [?|?].
      * destruct (Z.min_spec (Report.epoch_secs r) f) as [[_ ->]|[_ ->]]; [right|by left].
        apply list.elem_of_app. right. left.
      * right. destruct (Z.min_spec (Report.epoch_secs r) f) as [[_ ->]|[_ ->]];
          apply list.elem_of_app; [right; left|by left].
    + right. apply list.elem_of_app. right. left.
  - destruct (Report.verdict r) eqn:Ev; cbn;
      rewrite ?app_nil_r; [|done..].
    rewrite map_app. intros last [= <-].
    destruct (ActiveDump.last_epoch d1) as [f|] eqn:E1; cbn.
    + destruct (Hl f eq_refl) as [?|?].
      * destruct (Z.max_spec (Report.seal_secs r) f) as [[_ ->]|[_ ->]]; [by left|right].
        apply list.elem_of_app. right. left.
      * right. destruct (Z.max_spec (Report.seal_secs r) f) as [[_ ->]|[_ ->]];
          apply list.elem_of_app; [by left|right; left].
    + right. apply list.elem_of_app. right. left.
Qed.

Lemma erase_tallied d d' log : tallied (erase d) (erase d') log → tallied d d' log.
Proof.
  assert (∀ x l, mine (erase x) l = mine x l) as Hmine.
  { intros x l. unfold mine, concerns. by rewrite erase_window. }
  intros [Hi Ht Hw Hdl Hm Hu Hn He Hs Hf Hl]. rewrite Hmine in *.
  unfold erase in *.
  destruct (ActiveDump.first_error d) eqn:E, (ActiveDump.first_error d') eqn:E'; cbn in *;
    (split; try done; rewrite ?E, ?E' in *; naive_solver).
Qed.

(** Over a whole pass a dump becomes what its own reports say. *)
Lemma pass_tallied id_text l p i d :
  Pass.dumps p !! i = Some d →
  ∃ d', Pass.dumps (process_loop id_text l p) !! i = Some d' ∧
        tallied d d' (pass_log id_text l p).
Proof.
  intros Hd. pose proof (f_equal (λ x, x !! i) (pass_tally id_text l p)) as H. cbn in H.
  assert (∀ {A B} (f : A → B) (x : list A), map f x !! i = f <$> x !! i) as Hmap
    by (intros; apply list_lookup_fmap).
  rewrite !Hmap, Hd in H.
  destruct (Pass.dumps (process_loop id_text l p) !! i) as [d'|]; [|done].
  exists d'. split; [done|]. apply erase_tallied. injection H as ->. apply foldl_tallied.
Qed.

Lemma scaled_elem (f : Report.t → Z) l x :
  x ∈ map f l → x * SECOND ∈ map (λ r, f r * SECOND) l.
Proof.
  intros (r & -> & Hr)%list_elem_of_fmap. apply list_elem_of_fmap. by exists r.
Qed.

(** What the reports on the segments of a dump's window make of it. *)
Definition fulfils (req : DumpRequest.t) (log : list Report.t)
    (answer : result DumpReceipt.t DumpError) : Prop :=
  let made := with_verdict Made log in
  let broken := with_verdict Broken log in
  match answer with
  | Ok r =>
      (made ≠ [] ∨ broken = []) ∧
      DumpReceipt.dump_id r = DumpRequest.id req ∧
      DumpReceipt.segments_processed r = Z.of_nat (length made) ∧
      let '(first, last) := DumpReceipt.time_range r in
      match made with
      | [] => first = DumpRequest.triggered_at req ∧ last = DumpRequest.triggered_at req
      | _ => first ∈ map (λ x, Report.epoch_secs x * SECOND) made ∧
             last ∈ map (λ x, Report.seal_secs x * SECOND) made ∧
             Forall (λ x, first <= Report.epoch_secs x * SECOND ∧
                          Report.seal_secs x * SECOND <= last) made
      end
  | Err (Pipeline _) => made = [] ∧ broken ≠ []
  | Err PipelineUnavailable => made = [] ∧ broken = []
  | Err _ => False
  end.

Lemma tallied_span_of req t0 elapsed d log :
  tallied (register req t0 elapsed) d log →
  let made := with_verdict Made (mine (register req t0 elapsed) log) in
  let '(first, last) := dump_time_range_of d in
  match made with
  | [] => first = DumpRequest.triggered_at req ∧ last = DumpRequest.triggered_at req
  | _ => first ∈ map (λ x, Report.epoch_secs x * SECOND) made ∧
         last ∈ map (λ x, Report.seal_secs x * SECOND) made ∧
         Forall (λ x, first <= Report.epoch_secs x * SECOND ∧
                      Report.seal_secs x * SECOND <= last) made
  end.
Proof.
  intros [_ Ht _ _ _ _ _ _ Hs Hf Hl] made. fold made in Hs, Hf, Hl. unfold dump_time_range_of.
  cbn [register ActiveDump.first_epoch ActiveDump.last_epoch ActiveDump.triggered_at] in *.
  destruct made as [|r made'] eqn:Em.
  - assert (ActiveDump.first_epoch d = None) as ->; [|by rewrite Ht].
    destruct (ActiveDump.first_epoch d) as [f|]; [|done].
    destruct (Hf f eq_refl) as [[=]|[]%not_elem_of_nil].
  - pose proof Hs as Hspan. inversion Hspan as [|? ? (f & la & Ef & El & _) _]; subst.
    rewrite Ef, El. destruct (Hf f Ef) as [[=]|Hin1], (Hl la El) as [[=]|Hin2].
    split_and!; [exact (scaled_elem _ (r :: made') _ Hin1)|exact (scaled_elem _ (r :: made') _ Hin2)|].
    eapply list.Forall_impl; [exact Hs|]. intros x (f' & la' & E1 & E2 & H1 & H2).
    rewrite Ef in E1. rewrite El in E2. injection E1 as <-. injection E2 as <-. unfold SECOND. lia.
Qed.

(** The answer to a dump that read the reports, marked unavailable or not; the
    branch that is unreachable in the code is not reached. *)
Lemma into_result_fulfils req t0 elapsed d log manifest now mark :
  tallied (register req t0 elapsed) d log → mark = id ∨ mark = mark_pipeline_unavailable →
  ∃ r, into_result manifest now (mark d) = Some r ∧
       fulfils req (mine (register req t0 elapsed) log) r.
Proof.
  intros Htal Hmark. pose proof (tallied_span_of _ _ _ _ _ Htal) as Hspan. cbv zeta in Hspan.
  destruct Htal as [Hi _ _ _ _ Hu Hn He _ _ _]. unfold fulfils.
  set (log' := mine _ log) in *. set (made := with_verdict Made log') in *.
  cbn [register ActiveDump.id ActiveDump.segments_processed ActiveDump.first_error
    ActiveDump.pipeline_unavailable] in Hi, Hn, He, Hu.
  rewrite Z.add_0_l in Hn.
  assert (∀ d', ActiveDump.segments_processed d' = ActiveDump.segments_processed d →
    dump_time_range_of d' = dump_time_range_of d → ActiveDump.id d' = ActiveDump.id d →
    ActiveDump.first_error d' = ActiveDump.first_error d →
    ∃ r, into_result manifest now d' = Some r ∧ match r with
      | Err PipelineUnavailable => made = [] ∧ ActiveDump.first_error d = None
      | Err (Pipeline _) => made = [] ∧ is_Some (ActiveDump.first_error d)
      | Ok r => (made ≠ [] ∨ ActiveDump.first_error d = None) ∧
          DumpReceipt.dump_id r = ActiveDump.id d ∧
          DumpReceipt.segments_processed r = ActiveDump.segments_processed d ∧
          DumpReceipt.time_range r = dump_time_range_of d
      | Err _ => False end) as H.
  { intros d' E1 E2 E3 E4. unfold into_result, failed. rewrite E1, E2, E3, E4, Hn.
    destruct (Z.eqb_spec (Z.of_nat (length made)) 0) as [E|E].
    - assert (made = []) as -> by (destruct made; [done|cbn in E; lia]).
      destruct (ActiveDump.first_error d), (ActiveDump.pipeline_unavailable d'); cbn; eexists;
        (split; [done|]); cbn; naive_solver.
    - assert (made ≠ []) by (intros ->; by apply E). rewrite andb_false_r.
      eexists. split; [done|]. cbn. split_and!; naive_solver. }
  destruct (H (mark d)) as (r & -> & Hr);
    [destruct Hmark as [->| ->]; [done|]; unfold mark_pipeline_unavailable;
     by destruct (ActiveDump.first_error d) eqn:E; cbn; rewrite ?E..|].
  exists r. split; [done|].
  assert (ActiveDump.first_error d = None ↔ with_verdict Broken log' = []) as Herr.
  { destruct (ActiveDump.first_error d) as [k|], (with_verdict Broken log'); split; try done.
    - intros _. destruct (proj1 He) as [[? [=]]|?]; [by eexists|done].
    - intros _. destruct (proj2 He) as [? [=]]. by right. }
  destruct r as [r|[| |k|into]]; cbn in Hr |- *.
  - destruct Hr as (Hm & -> & -> & ->). rewrite Hi, Hn, <- Herr. by split_and!.
  - done.
  - by rewrite <- Herr.
  - destruct Hr as [-> [k' Ek]]. split; [done|]. rewrite <- Herr, Ek. done.
  - done.
Qed.

(** What a dump reports: after a pass over any segments and any behaviour
    of the stages, the receipt of a dump registered before it counts exactly
    the segments that made it through the pipeline and meet its window, and
    spans exactly their creation and seal times; it is an error exactly when
    none made it and one that meets the window failed for good, a segment whose
    retries are spent included; one that was evicted, is to be retried, or lies
    outside the window changes nothing. *)
Theorem dump_receipts id_text l p i req t0 elapsed manifest now :
  Pass.dumps p !! i = Some (register req t0 elapsed) →
  let log := mine (register req t0 elapsed) (pass_log id_text l p) in
  ∃ d r, Pass.dumps (process_segments id_text true l p) !! i = Some d ∧
    into_result manifest now d = Some r ∧ r ≠ Err PipelineUnavailable ∧ fulfils req log r.
Proof.
  intros Hd. destruct (pass_tallied id_text l p i _ Hd) as (d & Hd' & Htal).
  destruct (into_result_fulfils _ _ _ _ _ manifest now id Htal (or_introl eq_refl)) as (r & Hr & Hful).
  exists d, r. split_and!; [done..| |done]. intros ->. unfold into_result, id in Hr.
  rewrite (tallied_unavailable _ _ _ Htal) in Hr.
  by destruct (failed d), (ActiveDump.first_error d).
Qed.

(** Three segments on disk: one is uploaded, one fails, one is outside the
    window; the dump looks back ten seconds. *)
Definition example_request : DumpRequest.t :=
  DumpRequest.mk 77 (100 * SECOND) (Window (10 * SECOND)) 0 [(lit "why", lit "slow")].

Definition example_attempt (header seal : Z) (ok : bool) : Attempt.t :=
  Attempt.mk Live header seal
    [λ data, if ok then StageOk data else StageErr (Io false (lit "broken"))].

Definition example_pass : Pass.t :=
  let d := disk_new (lit "/t") (lit "trace")
             {[ sealed_name (lit "trace") 1 := File (lit "a");
                sealed_name (lit "trace") 2 := File (lit "b");
                sealed_name (lit "trace") 3 := File (lit "c") ]} in
  Pass.mk (FsDisk d) ∅ [register example_request 0 0] stats_default.

Definition example_taken : list (Taken * Attempt.t) :=
  [(TakenDisk (sealed_name (lit "trace") 1) 1, example_attempt 70 80 true);
   (TakenDisk (sealed_name (lit "trace") 2) 2, example_attempt 85 95 true);
   (TakenDisk (sealed_name (lit "trace") 3) 3, example_attempt 95 99 false)].

Example dump_receipts_witness :
  ∃ d r, Pass.dumps (process_segments put_dec true example_taken example_pass) !! 0%nat = Some d ∧
    into_result None 5 d = Some (Ok r) ∧ DumpReceipt.segments_processed r = 1 ∧
    fst (DumpReceipt.time_range r) ∈ [85 * SECOND].
Proof.
  destruct (dump_receipts put_dec example_taken example_pass 0 example_request 0 0 None 5)
    as (d & r & Hd & Hr & Hne & H); [reflexivity|].
  assert (mine (register example_request 0 0)
            (pass_log put_dec example_taken example_pass) = [Report.mk 85 95 Made; Report.mk 95 99 Broken]) as E
    by by vm_compute.
  rewrite E in H. exists d.
  destruct r as [r|[| |k|into]]; [|destruct H; discriminate|destruct H; discriminate|destruct H; discriminate|destruct H].
  exists r. destruct H as (_ & _ & Hn & H). split; [exact Hd|]. split; [exact Hr|]. split; [exact Hn|].
  destruct (DumpReceipt.time_range r) as [f la]. destruct H as [Hf _]. exact Hf.
Defined.
