(* ===== verification/Triggered.v ===== *)
(** * The triggered worker (run_triggered of dial9-core/src/worker/mod.rs)

    On-demand operation: the worker parks until a dump request comes over the
    trigger channel, registers it, runs matching passes over the sealed
    segments, and answers it once its window has passed.  What other threads do
    (requests, the writer on the backend, time passing) and what the stages do
    are inputs of a turn of the loop; the model consumes them in the order in
    which the code awaits. *)

From Stdlib Require Import ZArith Lia.
From stdpp Require Import base list gmap strings option sorting.
From coqutil Require Import Byte.
From S2P Require Import Prelude.
From S2P Require Import Text.
From S2P Require Import Sealed.
From S2P Require Import MemRing.
From S2P Require Import SegmentFs.
From S2P Require Import DiskFs.
From S2P Require Import SegmentWriter.
From S2P Require Import Dump.
From S2P Require Import Worker.

(** ** The worker's end of the trigger channel *)

(** What was answered, and when (the monotonic clock). *)
Module Answer.
Record t : Type := mk { id : Z; at_ : Z; result : Prelude.result DumpReceipt.t DumpError }.
End Answer.

(** [sent] of the trigger is the queue of the channel; [delivered] and
    [answers] are its history. *)
Module Inbox.
Record t : Type := mk {
  now : Z;
  trigger : DumpTrigger.t;
  senders_gone : bool;
  rx_open : bool;
  answers : list Answer.t;
  delivered : list DumpRequest.t }.

Definition set_now (b : t) (n : Z) : t :=
  mk n (trigger b) (senders_gone b) (rx_open b) (answers b) (delivered b).
Definition set_trigger (b : t) (d : DumpTrigger.t) : t :=
  mk (now b) d (senders_gone b) (rx_open b) (answers b) (delivered b).
Definition shut (b : t) : t :=
  mk (now b) (trigger b) (senders_gone b) false (answers b) (delivered b).
Definition answer (b : t) (id : Z) (r : Prelude.result DumpReceipt.t DumpError) : t :=
  mk (now b) (trigger b) (senders_gone b) (rx_open b) (answers b ++ [Answer.mk id (now b) r])
    (delivered b).
End Inbox.

Definition queued (b : Inbox.t) : list DumpRequest.t := DumpTrigger.sent (Inbox.trigger b).

Definition set_queue (b : Inbox.t) (l : list DumpRequest.t) : Inbox.t :=
  Inbox.set_trigger b
    (DumpTrigger.mk l (DumpTrigger.rx_closed (Inbox.trigger b)) (DumpTrigger.debounce (Inbox.trigger b))).

(** What a holder of the trigger does: ask for a dump, await or drop a run, or
    drop the last clone. *)
Inductive caller : Type :=
| Asks (id now triggered_at : Z) (lookback : Lookback) (lookforward : Z)
| Sends (r : DumpRun.t)
| Leaves.

Definition call (b : Inbox.t) (c : caller) : Inbox.t :=
  if Inbox.senders_gone b then b else
  match c with
  | Asks id now triggered_at lookback lookforward =>
      Inbox.set_trigger b (snd (request id now triggered_at lookback lookforward (Inbox.trigger b)))
  | Sends r =>
      let '(sent, _, trigger) := dispatch r (Inbox.trigger b) in
      Inbox.mk (Inbox.now b) trigger false (Inbox.rx_open b) (Inbox.answers b)
        (Inbox.delivered b ++
           match DumpRun.request r with Some req => if sent then [req] else [] | None => [] end)
  | Leaves =>
      Inbox.mk (Inbox.now b) (Inbox.trigger b) true (Inbox.rx_open b) (Inbox.answers b)
        (Inbox.delivered b)
  end.

(** Time passes while the worker waits or works. *)
Module Gap.
Record t : Type := mk { elapsed : N; callers : list caller }.
End Gap.

Definition pass_time (g : Gap.t) (b : Inbox.t) : Inbox.t :=
  foldl call (Inbox.set_now b (Inbox.now b + Z.of_N (Gap.elapsed g))) (Gap.callers g).

(** [rx.recv()]: a request, the end of the channel, or nothing yet. *)
Inductive received : Type := Got (req : DumpRequest.t) | Closed | Pending.

Definition recv (b : Inbox.t) : received * Inbox.t :=
  match queued b with
  | req :: rest => (Got req, set_queue b rest)
  | [] => (if Inbox.senders_gone b then Closed else Pending, b)
  end.

(** [reject_pipeline_unavailable]: the reservation is given back. *)
Definition reject (req : DumpRequest.t) (b : Inbox.t) : Inbox.t :=
  let t := Inbox.trigger b in
  let t := DumpTrigger.mk (DumpTrigger.sent t) (DumpTrigger.rx_closed t)
             (release (DumpRequest.id req) <$> DumpTrigger.debounce t) in
  Inbox.answer (Inbox.set_trigger b t) (DumpRequest.id req) (Err PipelineUnavailable).

(** ** Waiting for the stages *)

(** One wake-up of the wait: what came before it, and whether every stage is
    live by then ([Some false]: told to stop first). *)
Module Wake.
Record t : Type := mk { before : Gap.t; live : option bool }.
End Wake.

Definition min_deadline (dumps : list ActiveDump.t) : option Z :=
  foldr (λ d m, match ActiveDump.deadline d, m with
                | Some x, Some y => Some (Z.min x y)
                | Some x, None => Some x
                | None, _ => m
                end) None dumps.

(** [retry_dump_ids] and [interruption] of a drain; [registered] and [reports]
    are history: the requests registered so far, with the clock, the time since
    the trigger and the number of reports then; what the passes reported. *)
Module Registration.
Record t : Type := mk { req : DumpRequest.t; now : Z; elapsed : Z; seen : nat }.
End Registration.

Definition dump_of (g : Registration.t) : ActiveDump.t :=
  register (Registration.req g) (Registration.now g) (Registration.elapsed g).

Module Loop.
Record t : Type := mk {
  fs : Fs;
  epoch_cache : gmap Z (Z * Z);
  dumps : list ActiveDump.t;
  inbox : Inbox.t;
  registered : list Registration.t;
  reports : list Report.t }.

Definition set_inbox (s : t) (b : Inbox.t) : t :=
  mk (fs s) (epoch_cache s) (dumps s) b (registered s) (reports s).
Definition set_dumps (s : t) (d : list ActiveDump.t) : t :=
  mk (fs s) (epoch_cache s) d (inbox s) (registered s) (reports s).
Definition set_fs (s : t) (fs : Fs) : t :=
  mk fs (epoch_cache s) (dumps s) (inbox s) (registered s) (reports s).
End Loop.

(** The inputs of a pass: the wait before it, what others did to the backend,
    and for the [i]-th segment taken the wait and the attempt. *)
Module PassInput.
Record t : Type := mk {
  wait : list Wake.t;
  meanwhile : Fs → Fs;
  segment : nat → list Wake.t * Attempt.t }.
End PassInput.

Module DrainResult.
Record t : Type := mk { retry_hold : list Z; interruption : option Wait }.
End DrainResult.

Definition drain_default : DrainResult.t := DrainResult.mk [] None.

(** ** Resolving dumps *)

Module DumpCompletion.
Record t : Type := mk {
  dump_id : Z;
  triggered_at : Z;
  time_range : Z * Z;
  segments_processed : Z;
  metadata : list (bytes * bytes);
  failed : bool }.
End DumpCompletion.

Definition completion (d : ActiveDump.t) : DumpCompletion.t :=
  DumpCompletion.mk (ActiveDump.id d) (ActiveDump.triggered_at d) (dump_time_range_of d)
    (ActiveDump.segments_processed d) (ActiveDump.metadata d) (failed d).

(** What a stage's [finalize_dump] comes to; [Unwound]: it panics. *)
Inductive finalized : Type := Finalized (key : option bytes) | Unwound.

(** What resolving a dump depends on: the stages, the wall clock, and what
    happens meanwhile. *)
Module Resolution.
Record t : Type := mk { stages : list (DumpCompletion.t → finalized); finished_at : Z; gap : Gap.t }.
End Resolution.

(** The last key a stage gave. *)
Definition manifest_key (stages : list (DumpCompletion.t → finalized)) (c : DumpCompletion.t)
    : option bytes :=
  foldl (λ key stage, match stage c with Finalized (Some k) => Some k | _ => key end) None stages.

(** The branch of the last [select!] that completes.  [elapsed] is the time
    since the trigger, on the system clock. *)
Inductive branch : Type := Cancelled | Received (elapsed : Z) | DeadlineReached | MoreSegments.

Module TurnInput.
Record t : Type := mk {
  passes : list PassInput.t;
  pause : Gap.t;
  resolution : Z → Resolution.t;
  stop : bool;
  final_passes : list PassInput.t;
  closing : Gap.t;
  waiting : Gap.t;
  branch : branch }.
End TurnInput.

Inductive status : Set := Running | Returned.

Section triggered.
(** As in [Worker]; without a stage the wait is over at once. *)
Variable id_text : Z → bytes.
Variable has_processors : bool.

Definition readiness (w : Wake.t) : option bool :=
  if has_processors then Wake.live w else Some true.

(** [wait_until_pipeline_live_triggered], biased in the order of the tests;
    [None] when the wake-ups end before the wait does. *)
Fixpoint wait_live (deadline : option Z) (wakes : list Wake.t) (b : Inbox.t) : option (Wait * Inbox.t) :=
  match wakes with
  | [] => None
  | w :: wakes =>
      let b := pass_time (Wake.before w) b in
      match readiness w with
      | Some true => Some (Live, b)
      | Some false => Some (Stopped, b)
      | None =>
          if from_option (λ t, t <=? Inbox.now b) false deadline then Some (Deadline, b)
          else if Inbox.rx_open b then
            match recv b with
            | (Got req, b) => wait_live deadline wakes (reject req b)
            | (Closed, b) => wait_live deadline wakes (Inbox.shut b)
            | (Pending, b) => wait_live deadline wakes b
            end
          else wait_live deadline wakes b
      end
  end.

(** ** The passes *)

(** [process_segments] with the channel: the readiness of a segment is how the
    wait before it ends, and requests that come meanwhile are rejected. *)
Fixpoint triggered_loop (l : list (Taken * (list Wake.t * Attempt.t))) (p : Pass.t) (b : Inbox.t)
    : option (list (Taken * Attempt.t) * Pass.t * Inbox.t) :=
  match l with
  | [] => Some ([], p, b)
  | (t, (wakes, a)) :: rest =>
      match wait_live (min_deadline (Pass.dumps p)) wakes b with
      | None => None
      | Some (Live, b) =>
          let a := Attempt.mk Live (Attempt.header_time a) (Attempt.seal_time a) (Attempt.stages a) in
          match triggered_loop rest (process_segment id_text a t p) b with
          | None => None
          | Some (tried, p, b) => Some ((t, a) :: tried, p, b)
          end
      | Some (r, b) =>
          let fs := foldl (λ fs x, fs_release_unprocessed (fst x) fs)
                      (fs_release_unprocessed t (Pass.fs p)) rest in
          Some ([], Pass.set_stats (Pass.set_fs p fs) (PassStats.interrupted (Pass.stats p) r), b)
      end
  end.

Definition triggered_segments (l : list (Taken * (list Wake.t * Attempt.t))) (p : Pass.t) (b : Inbox.t)
    : option (list (Taken * Attempt.t) * Pass.t * Inbox.t) :=
  if has_processors then triggered_loop l p b
  else Some ([], Pass.set_fs p (foldl (λ fs x, fs_drop (fst x) fs) (Pass.fs p) l), b).

(** [epoch_cache.retain]: only the indices dispensed. *)
Definition prune (taken : list Taken) (cache : gmap Z (Z * Z)) : gmap Z (Z * Z) :=
  filter (λ kv, fst kv ∈ map taken_index taken) cache.

(** One round of the loop of [drain_matching]; [None] for the result: again. *)
Definition drain_pass (i : PassInput.t) (s : Loop.t) : option (option DrainResult.t * Loop.t) :=
  match wait_live (min_deadline (Loop.dumps s)) (PassInput.wait i) (Loop.inbox s) with
  | None => None
  | Some (Live, b) =>
      let windows := map ActiveDump.window (Loop.dumps s) in
      let '(taken, fs) := fs_take (Some windows) (PassInput.meanwhile i (Loop.fs s)) in
      let cache := prune taken (Loop.epoch_cache s) in
      match taken with
      | [] => Some (Some drain_default,
                    Loop.mk fs cache (Loop.dumps s) b (Loop.registered s) (Loop.reports s))
      | _ =>
          let p := Pass.mk fs cache (Loop.dumps s) stats_default in
          match triggered_segments (imap (λ k t, (t, PassInput.segment i k)) taken) p b with
          | None => None
          | Some (tried, q, b) =>
              let stats := Pass.stats q in
              let s := Loop.mk (Pass.fs q) (Pass.epoch_cache q) (Pass.dumps q) b
                         (Loop.registered s) (Loop.reports s ++ pass_log id_text tried p) in
              let ids := PassStats.retry_dump_ids stats in
              match PassStats.interruption stats with
              | Some r => Some (Some (DrainResult.mk ids (Some r)), s)
              | None =>
                  if negb (bool_decide (ids = [])) then Some (Some (DrainResult.mk ids None), s)
                  else if PassStats.matched_done stats =? 0 then Some (Some drain_default, s)
                  else Some (None, s)
              end
          end
      end
  | Some (r, b) => Some (Some (DrainResult.mk [] (Some r)), Loop.set_inbox s b)
  end.

(** [drain_matching]: [None] when the passes end before it does. *)
Fixpoint drain_matching (passes : list PassInput.t) (s : Loop.t) : option (DrainResult.t * Loop.t) :=
  if bool_decide (Loop.dumps s = []) then Some (drain_default, s) else
  match passes with
  | [] => None
  | i :: passes =>
      match drain_pass i s with
      | None => None
      | Some (Some r, s) => Some (r, s)
      | Some (None, s) => drain_matching passes s
      end
  end.

(** [resolve_dump]; [None] where [into_result] is unreachable. *)
Definition resolve_dump (r : Resolution.t) (d : ActiveDump.t) (b : Inbox.t) : option Inbox.t :=
  match into_result (manifest_key (Resolution.stages r) (completion d)) (Resolution.finished_at r) d with
  | Some result => Some (Inbox.answer (pass_time (Resolution.gap r) b) (ActiveDump.id d) result)
  | None => None
  end.

Fixpoint resolve_all (oracle : Z → Resolution.t) (l : list ActiveDump.t) (b : Inbox.t) : option Inbox.t :=
  match l with
  | [] => Some b
  | d :: l =>
      match resolve_dump (oracle (ActiveDump.id d)) d b with
      | None => None
      | Some b => resolve_all oracle l b
      end
  end.

(** [swap_remove] at an index within the list. *)
Definition swap_remove {A} (i : nat) (l : list A) : list A :=
  match last l with
  | Some x => take (length l - 1) (<[i := x]> l)
  | None => l
  end.

(** The loop [while i < dumps.len()], its body taking out the dumps it
    chooses, in the order they go. *)
Fixpoint take_out (fuel i : nat) (choose : ActiveDump.t → bool) (dumps : list ActiveDump.t)
    : list ActiveDump.t * list ActiveDump.t :=
  match fuel with
  | O => ([], dumps)
  | S fuel =>
      match dumps !! i with
      | None => ([], dumps)
      | Some d =>
          if choose d then
            let '(out, dumps) := take_out fuel i choose (swap_remove i dumps) in (d :: out, dumps)
          else take_out fuel (S i) choose dumps
      end
  end.

Definition resolve_where (choose : ActiveDump.t → bool) (mark : ActiveDump.t → ActiveDump.t)
    (oracle : Z → Resolution.t) (s : Loop.t) : option Loop.t :=
  let '(out, dumps) := take_out (length (Loop.dumps s)) 0 choose (Loop.dumps s) in
  match resolve_all oracle (map mark out) (Loop.inbox s) with
  | Some b => Some (Loop.set_inbox (Loop.set_dumps s dumps) b)
  | None => None
  end.

(** ** The loop *)

Definition take_is_exhaustive (fs : Fs) : bool := match fs with FsDisk _ => true | FsMem _ => false end.

(** A dump held open by a pending retry. *)
Definition held (exhaustive : bool) (hold : list Z) (d : ActiveDump.t) : bool :=
  negb (bool_decide (hold = [])) && (negb exhaustive || bool_decide (ActiveDump.id d ∈ hold)).

Definition finished_dump (now : Z) (exhaustive : bool) (hold : list Z) (d : ActiveDump.t) : bool :=
  due now d && negb (held exhaustive hold d).

(** The first part of a turn; [true]: [continue]. *)
Definition serve_dumps (i : TurnInput.t) (s : Loop.t) : option (bool * Loop.t) :=
  if bool_decide (Loop.dumps s = []) then Some (false, s) else
  match drain_matching (TurnInput.passes i) s with
  | None => None
  | Some (r, s) =>
      let s := Loop.set_inbox s (pass_time (TurnInput.pause i) (Loop.inbox s)) in
      let now := Inbox.now (Loop.inbox s) in
      match DrainResult.interruption r with
      | Some Deadline =>
          match resolve_where (due now) mark_pipeline_unavailable (TurnInput.resolution i) s with
          | Some s => Some (true, s)
          | None => None
          end
      | interruption =>
          let hold := match interruption with Some Stopped => [] | _ => DrainResult.retry_hold r end in
          match resolve_where (finished_dump now (take_is_exhaustive (Loop.fs s)) hold) id
                  (TurnInput.resolution i) s with
          | Some s => Some (false, s)
          | None => None
          end
      end
  end.

(** Closing the channel: what is still in it fails. *)
Definition close_inbox (b : Inbox.t) : Inbox.t :=
  let t := Inbox.trigger b in
  foldl (λ b req, Inbox.answer b (DumpRequest.id req) (Err WorkerStopped))
    (Inbox.set_trigger b (DumpTrigger.mk [] true (DumpTrigger.debounce t))) (DumpTrigger.sent t).

(** The shutdown: a last drain, every open dump, every request. *)
Definition shut_down (i : TurnInput.t) (s : Loop.t) : option Loop.t :=
  match drain_matching (TurnInput.final_passes i) s with
  | None => None
  | Some (_, s) =>
      match resolve_all (TurnInput.resolution i) (Loop.dumps s) (Loop.inbox s) with
      | None => None
      | Some b =>
          Some (Loop.set_inbox (Loop.set_dumps s []) (close_inbox (pass_time (TurnInput.closing i) b)))
      end
  end.

(** The select at the end of a turn; [None] when the branch is not enabled. *)
Definition park (i : TurnInput.t) (s : Loop.t) : option Loop.t :=
  let b := pass_time (TurnInput.waiting i) (Loop.inbox s) in
  match TurnInput.branch i with
  | Cancelled => Some (Loop.set_inbox s b)
  | Received elapsed =>
      if Inbox.rx_open b then
        match recv b with
        | (Got req, b) =>
            let g := Registration.mk req (Inbox.now b) elapsed (length (Loop.reports s)) in
            Some (Loop.mk (Loop.fs s) (Loop.epoch_cache s) (Loop.dumps s ++ [dump_of g]) b
                    (Loop.registered s ++ [g]) (Loop.reports s))
        | (Closed, b) => Some (Loop.set_inbox s (Inbox.shut b))
        | (Pending, _) => None
        end
      else None
  | DeadlineReached =>
      match min_deadline (Loop.dumps s) with
      | Some t => if t <=? Inbox.now b then Some (Loop.set_inbox s b) else None
      | None => None
      end
  | MoreSegments =>
      if bool_decide (Loop.dumps s = []) then None else Some (Loop.set_inbox s b)
  end.

Definition turn (i : TurnInput.t) (s : Loop.t) : option (status * Loop.t) :=
  match serve_dumps i s with
  | None => None
  | Some (true, s) => Some (Running, s)
  | Some (false, s) =>
      if TurnInput.stop i
      then match shut_down i s with Some s => Some (Returned, s) | None => None end
      else match park i s with Some s => Some (Running, s) | None => None end
  end.

(** [run_triggered], as far as the turns given go. *)
Fixpoint run_triggered (turns : list TurnInput.t) (s : Loop.t) : option (status * Loop.t) :=
  match turns with
  | [] => Some (Running, s)
  | i :: turns =>
      match turn i s with
      | Some (Running, s) => run_triggered turns s
      | done => done
      end
  end.
End triggered.

(** A worker that starts, with a trigger that callers may have used already. *)
Definition loop_start (fs : Fs) (now : Z) (debounce : option Debounce.t) : Loop.t :=
  Loop.mk fs ∅ [] (Inbox.mk now (DumpTrigger.mk [] false debounce) false true [] []) [] [].

(** ** What happens to the inbox *)

Definition request_ids (l : list DumpRequest.t) : list Z := map DumpRequest.id l.

(** The requests the channel took that were not answered or are not received. *)
Definition inbox_ids (b : Inbox.t) : list Z :=
  map Answer.id (Inbox.answers b) ++ request_ids (queued b).

(** What is in the channel was put there. *)
Definition queue_sound (b : Inbox.t) : Prop := Forall (λ r, r ∈ Inbox.delivered b) (queued b).

(** From one inbox to a later one: time does not go back, what was delivered
    since is accounted for, and the new answers have property [P]. *)
Record later (P : Answer.t → Prop) (b b' : Inbox.t) : Prop := {
  later_now : Inbox.now b <= Inbox.now b';
  later_ids : ∃ x, Inbox.delivered b' = Inbox.delivered b ++ x ∧
                   inbox_ids b' ≡ₚ inbox_ids b ++ request_ids x;
  later_answers : ∃ new, Inbox.answers b' = Inbox.answers b ++ new ∧ Forall P new;
  later_queue : queue_sound b → queue_sound b' }.

Definition rejected (a : Answer.t) : Prop := Answer.result a = Err PipelineUnavailable.

#[global] Instance later_refl P : Reflexive (later P).
Proof.
  intros b. split; [lia|exists []; by rewrite !app_nil_r|exists []; by rewrite app_nil_r|done].
Qed.

#[global] Instance later_trans P : Transitive (later P).
Proof.
  intros a b c [H1 (x & E1 & I1) (n & N1 & F1) Q1] [H2 (y & E2 & I2) (m & N2 & F2) Q2].
  split; [lia| | |tauto].
  - exists (x ++ y). split; [by rewrite E2, E1, app_assoc|].
    rewrite I2, I1. unfold request_ids. by rewrite map_app, app_assoc.
  - exists (n ++ m). split; [by rewrite N2, N1, app_assoc|by apply list.Forall_app].
Qed.

Lemma later_weaken (P Q : Answer.t → Prop) b b' :
  (∀ a, P a → Q a) → later P b b' → later Q b b'.
Proof.
  intros HPQ [H1 H2 (new & E & F) HQ]. split; [done|done| |done]. exists new. split; [done|].
  eapply list.Forall_impl; eauto.
Qed.

Lemma later_same (P : Answer.t → Prop) b b' :
  Inbox.now b <= Inbox.now b' → Inbox.delivered b' = Inbox.delivered b →
  Inbox.answers b' = Inbox.answers b → queued b' = queued b → later P b b'.
Proof.
  intros Hn Hd Ha Hq.
  split; [done| |exists []; by rewrite app_nil_r|unfold queue_sound; by rewrite Hd, Hq].
  exists []. unfold inbox_ids. by rewrite Ha, Hq, !app_nil_r.
Qed.

Lemma call_later P b c : later P b (call b c).
Proof.
  unfold call. destruct (Inbox.senders_gone b); [done|]. destruct c as [id now t lb lf|r|].
  - apply later_same; try done. unfold queued. cbn. unfold request.
    destruct (DumpTrigger.debounce _) as [g|]; [|done]. by destruct (gate _ _ _).
  - unfold dispatch. destruct (DumpRun.request r) as [req|].
    2:{ apply later_same; try done. apply app_nil_r. }
    destruct (DumpTrigger.rx_closed _); [by apply later_same; try done; apply app_nil_r|].
    split; [done| |exists []; by rewrite app_nil_r|].
    + exists [req]. split; [done|].
      unfold inbox_ids, queued, request_ids. cbn. by rewrite map_app, app_assoc.
    + unfold queue_sound, queued. cbn. rewrite !list.Forall_forall. setoid_rewrite list.elem_of_app.
      firstorder.
  - by apply later_same.
Qed.

Lemma pass_time_later P g b : later P b (pass_time g b).
Proof.
  unfold pass_time.
  assert (later P b (Inbox.set_now b (Inbox.now b + Z.of_N (Gap.elapsed g)))) as H
    by (apply later_same; [cbn; lia|done..]).
  etrans; [exact H|]. generalize (Inbox.set_now b (Inbox.now b + Z.of_N (Gap.elapsed g))).
  induction (Gap.callers g) as [|c l IH]; intros b0; [done|]. cbn [foldl].
  etrans; [apply call_later|apply IH].
Qed.

(** Answering the request at the head of the queue. *)
Lemma answer_head_later (P : Answer.t → Prop) b b' req rest r :
  queued b = req :: rest → Inbox.now b' = Inbox.now b → Inbox.delivered b' = Inbox.delivered b →
  Inbox.answers b' = Inbox.answers b → queued b' = rest →
  P (Answer.mk (DumpRequest.id req) (Inbox.now b) r) → later P b (Inbox.answer b' (DumpRequest.id req) r).
Proof.
  intros Hq Hn Hd Ha Hq' HP. split; [cbn; lia| | |].
  - exists []. rewrite app_nil_r. split; [done|]. unfold inbox_ids, queued. cbn. fold (queued b').
    fold (queued b). rewrite Ha, Hq', Hq, map_app. cbn. rewrite app_nil_r.
    by rewrite <- app_assoc.
  - eexists. split; [by cbn; rewrite Ha|]. cbn. rewrite Hn. by repeat constructor.
  - unfold queue_sound. cbn. fold (queued b'). change (queued (Inbox.answer b' _ r)) with (queued b').
    rewrite Hq, Hq', Hd. by inversion 1.
Qed.

Section waits.
Variable has_processors : bool.

(** A wait: only requests are answered, with a rejection; it ends at the
    deadline only once that has passed. *)
Lemma wait_later deadline wakes b r b' :
  wait_live has_processors deadline wakes b = Some (r, b') →
  later rejected b b' ∧ (r = Deadline → ∃ t, deadline = Some t ∧ t <= Inbox.now b').
Proof.
  revert b. induction wakes as [|w wakes IH]; intros b; [done|]. cbn [wait_live].
  pose proof (pass_time_later rejected (Wake.before w) b) as H0.
  set (b0 := pass_time (Wake.before w) b) in *.
  destruct (readiness has_processors w) as [[]|]; [by intros [= <- <-]..|].
  destruct (from_option _ _ deadline) eqn:Ed.
  { intros [= <- <-]. split; [done|]. intros _. destruct deadline as [t|]; [|done].
    exists t. split; [done|]. by apply Z.leb_le in Ed. }
  assert (∀ b1, later rejected b0 b1 → wait_live has_processors deadline wakes b1 = Some (r, b') →
    later rejected b b' ∧ (r = Deadline → ∃ t, deadline = Some t ∧ t <= Inbox.now b')) as Hgo.
  { intros b1 H1 [H2 H3]%IH. split; [|done]. by do 2 (etrans; [done|]). }
  destruct (Inbox.rx_open b0); [|by apply Hgo]. unfold recv.
  destruct (queued b0) as [|req rest] eqn:Eq.
  - destruct (Inbox.senders_gone b0); [|by apply Hgo]. apply Hgo. by apply later_same.
  - apply Hgo. unfold reject. by apply (answer_head_later _ b0 _ req rest).
Qed.

(** A wait ends as soon as the stages, or the order to stop, are seen. *)
Lemma wait_completes deadline wakes b :
  Exists (λ w, is_Some (readiness has_processors w)) wakes →
  ∃ r b', wait_live has_processors deadline wakes b = Some (r, b').
Proof.
  intros H. revert b. induction H as [w wakes [v E]|w wakes _ IH]; intros b; cbn [wait_live].
  - rewrite E. destruct v; by eexists _, _.
  - destruct (readiness has_processors w) as [[]|]; [by eexists _, _..|].
    destruct (from_option _ _ _); [by eexists _, _|]. destruct (Inbox.rx_open _); [|apply IH].
    destruct (recv _) as [[] ?]; apply IH.
Qed.
End waits.

(** ** What a pass does to the open dumps *)

Section passes.
Variable id_text : Z → bytes.
Variable has_processors : bool.

(** The dumps after reading some reports, up to the texts of errors. *)
Definition read_by (log : list Report.t) (dumps dumps' : list ActiveDump.t) : Prop :=
  map erase dumps' = map (λ d, foldl tally d log) (map erase dumps).

Lemma read_nothing dumps : read_by [] dumps dumps.
Proof. unfold read_by. symmetry. apply map_id. Qed.

Lemma read_more l k a b c : read_by l a b → read_by k b c → read_by (l ++ k) a c.
Proof.
  unfold read_by. intros H1 H2. rewrite H2, H1, map_map. apply map_ext. intros d. by rewrite foldl_app.
Qed.

Lemma triggered_loop_reads l p b tried q b' :
  triggered_loop id_text has_processors l p b = Some (tried, q, b') →
  later rejected b b' ∧ read_by (pass_log id_text tried p) (Pass.dumps p) (Pass.dumps q).
Proof.
  revert p b tried. induction l as [|[t [wakes a]] l IH]; intros p b tried; cbn [triggered_loop].
  { intros [= <- <- <-]. split; [done|apply read_nothing]. }
  destruct (wait_live _ _ _ _) as [[r b1]|] eqn:Ew; [|done].
  apply wait_later in Ew as [H1 _].
  destruct r; [|intros [= <- <- <-]; split; [done|apply read_nothing]..].
  set (a1 := Attempt.mk Live _ _ _) in *.
  destruct (triggered_loop _ _ l _ b1) as [[[tried' q'] b2]|] eqn:E; [|done].
  intros [= <- <- <-]. apply IH in E as [H2 H3]. split; [by etrans|].
  cbn [pass_log Attempt.readiness a1]. eapply read_more; [|exact H3].
  unfold read_by. rewrite segment_tally. by destruct (segment_report _ _ _ _); [|rewrite map_id].
Qed.

Lemma triggered_segments_reads l p b tried q b' :
  triggered_segments id_text has_processors l p b = Some (tried, q, b') →
  later rejected b b' ∧ read_by (pass_log id_text tried p) (Pass.dumps p) (Pass.dumps q).
Proof.
  unfold triggered_segments. destruct has_processors eqn:E.
  - rewrite <- E. apply triggered_loop_reads.
  - intros [= <- <- <-]. split; [done|apply read_nothing].
Qed.

(** What a drain does: the requests that come meanwhile are rejected, and the
    open dumps read what the passes report. *)
Record worked (s s' : Loop.t) : Prop := {
  worked_inbox : later rejected (Loop.inbox s) (Loop.inbox s');
  worked_registered : Loop.registered s' = Loop.registered s;
  worked_reports : ∃ log, Loop.reports s' = Loop.reports s ++ log ∧
                          read_by log (Loop.dumps s) (Loop.dumps s') }.

#[global] Instance worked_refl : Reflexive worked.
Proof. intros s. split; [done|done|]. exists []. rewrite app_nil_r. split; [done|apply read_nothing]. Qed.

#[global] Instance worked_trans : Transitive worked.
Proof.
  intros a b c [H1 H2 (l & E1 & R1)] [H3 H4 (k & E2 & R2)]. split; [by etrans|congruence|].
  exists (l ++ k). split; [by rewrite E2, E1, app_assoc|by eapply read_more].
Qed.

Lemma drain_pass_works i s r s' :
  drain_pass id_text has_processors i s = Some (r, s') → worked s s'.
Proof.
  unfold drain_pass. destruct (wait_live _ _ _ _) as [[w b1]|] eqn:Ew; [|done].
  apply wait_later in Ew as [H1 _].
  assert (∀ fs c, worked s (Loop.mk fs c (Loop.dumps s) b1 (Loop.registered s) (Loop.reports s))) as H0.
  { intros fs c. split; [done|done|]. exists []. rewrite app_nil_r. split; [done|apply read_nothing]. }
  destruct w; [|intros [= <- <-]; apply H0..].
  destruct (fs_take _ _) as [taken fs]. destruct taken as [|t taken]; [intros [= <- <-]; apply H0|].
  set (p := Pass.mk _ _ _ _). destruct (triggered_segments _ _ _ _ _) as [[[tried q] b2]|] eqn:E; [|done].
  apply triggered_segments_reads in E as [H2 H3].
  assert (worked s (Loop.mk (Pass.fs q) (Pass.epoch_cache q) (Pass.dumps q) b2 (Loop.registered s)
    (Loop.reports s ++ pass_log id_text tried p))) as H4.
  { split; [by etrans|done|]. by eexists. }
  destruct (PassStats.interruption _); [by intros [= <- <-]|].
  destruct (negb _); [by intros [= <- <-]|]. destruct (_ =? 0); by intros [= <- <-].
Qed.

Lemma drain_works passes s r s' :
  drain_matching id_text has_processors passes s = Some (r, s') → worked s s'.
Proof.
  revert s. induction passes as [|i passes IH]; intros s; cbn [drain_matching];
    (destruct (bool_decide _); [by intros [= <- <-]|]); [done|].
  destruct (drain_pass _ _ i s) as [[[r1|] s1]|] eqn:E; [| |done]; apply drain_pass_works in E.
  - by intros [= <- <-].
  - intros H%IH. by etrans.
Qed.
End passes.

(** ** Which dumps are taken out *)

Lemma swap_remove_last {A} (l : list A) x : swap_remove (length l) (l ++ [x]) = l.
Proof.
  unfold swap_remove. rewrite last_snoc, length_app. cbn [length].
  rewrite Nat.add_sub. rewrite insert_app_r_alt, Nat.sub_diag by lia. apply take_app_length.
Qed.

Lemma swap_remove_mid {A} (l m : list A) x y :
  swap_remove (length l) (l ++ x :: m ++ [y]) = l ++ y :: m.
Proof.
  unfold swap_remove. rewrite app_comm_cons, app_assoc, last_snoc, length_app. cbn [length].
  rewrite Nat.add_sub, <- app_assoc, insert_app_r_alt, Nat.sub_diag by lia.
  cbn [app list_insert insert]. rewrite app_comm_cons, app_assoc.
  rewrite take_app_length'; [done|]. rewrite !length_app. done.
Qed.

(** Exactly the chosen dumps go, whatever the order they are swapped into. *)
Lemma take_out_spec choose fuel l1 l2 out rest :
  take_out fuel (length l1) choose (l1 ++ l2) = (out, rest) → (length l2 <= fuel)%nat →
  ∃ kept, rest = l1 ++ kept ∧ out ++ kept ≡ₚ l2 ∧
    Forall (λ d, choose d = true) out ∧ Forall (λ d, choose d = false) kept.
Proof.
  revert l1 l2 out. induction fuel as [|fuel IH]; intros l1 l2 out; cbn [take_out].
  { intros [= <- <-] Hl. destruct l2; [|cbn in Hl; lia]. exists []. by split_and!. }
  destruct l2 as [|d l2].
  { rewrite app_nil_r, lookup_ge_None_2 by done. intros [= <- <-] _. exists [].
    rewrite app_nil_r. by split_and!. }
  rewrite list_lookup_middle by done. cbn [length]. destruct (choose d) eqn:Ed.
  - destruct l2 as [|y l2 _] using rev_ind.
    + rewrite swap_remove_last. rewrite <- (app_nil_r l1) at 2.
      destruct (take_out _ _ _ _) as [out' rest'] eqn:E. intros [= <- <-] _.
      apply IH in E as (kept & -> & Hp & H1 & H2); [|cbn; lia].
      exists kept. split_and!; [done|by cbn; rewrite Hp|by constructor|done].
    + rewrite swap_remove_mid. destruct (take_out _ _ _ _) as [out' rest'] eqn:E. intros [= <- <-] Hl.
      apply IH in E as (kept & -> & Hp & H1 & H2); [|rewrite length_app in Hl; cbn in *; lia].
      exists kept. split_and!; [done|cbn; rewrite Hp; f_equiv; apply Permutation_cons_append|by constructor|done].
  - replace (S (length l1)) with (length (l1 ++ [d])) by (rewrite length_app; cbn; lia).
    replace (l1 ++ d :: l2) with ((l1 ++ [d]) ++ l2) by by rewrite <- app_assoc.
    intros E Hl. apply IH in E as (kept & -> & Hp & H1 & H2); [|lia].
    exists (d :: kept). rewrite <- app_assoc. split_and!; [done| |done|by constructor].
    by rewrite <- Permutation_middle, Hp.
Qed.

(** ** The invariant of the loop *)

(** A dump is a registration that read the reports since. *)
Definition tracks (regs : list Registration.t) (reports : list Report.t) (d : ActiveDump.t) : Prop :=
  ∃ g, g ∈ regs ∧ (Registration.seen g <= length reports)%nat ∧
    erase d = foldl tally (erase (dump_of g)) (drop (Registration.seen g) reports).

(** An answer to a registered dump: it was due, unless the worker is stopping,
    and says what the reports between its registration and then amount to. *)
Definition resolved (stopping : Prop) (regs : list Registration.t) (reports : list Report.t)
    (a : Answer.t) : Prop :=
  ∃ g upto, g ∈ regs ∧ (Registration.seen g <= upto <= length reports)%nat ∧
    Answer.id a = DumpRequest.id (Registration.req g) ∧
    (due (Answer.at_ a) (dump_of g) = true ∨ stopping) ∧
    fulfils (Registration.req g)
      (mine (dump_of g) (drop (Registration.seen g) (take upto reports))) (Answer.result a).

Definition explained stopping regs reports (a : Answer.t) : Prop :=
  rejected a ∨ (stopping ∧ Answer.result a = Err WorkerStopped) ∨ resolved stopping regs reports a.

Record accounts (stopping : Prop) (regs : list Registration.t) (reports : list Report.t)
    (dumps : list ActiveDump.t) (b : Inbox.t) : Prop := {
  accounts_ids : inbox_ids b ++ map ActiveDump.id dumps ≡ₚ request_ids (Inbox.delivered b);
  accounts_queue : queue_sound b;
  accounts_regs : Forall (λ g, Registration.req g ∈ Inbox.delivered b) regs;
  accounts_dumps : Forall (tracks regs reports) dumps;
  accounts_answers : Forall (explained stopping regs reports) (Inbox.answers b) }.

Definition loop_accounts (stopping : Prop) (s : Loop.t) : Prop :=
  accounts stopping (Loop.registered s) (Loop.reports s) (Loop.dumps s) (Loop.inbox s).

Lemma accounts_later stopping regs reports dumps b b' :
  accounts stopping regs reports dumps b → later rejected b b' →
  accounts stopping regs reports dumps b'.
Proof.
  intros [Hi Hq Hr Hd Ha] [_ (x & Ed & Ei) (new & En & Hn) Hq']. split; [|tauto| |done|].
  - rewrite Ei, Ed. unfold request_ids in *. rewrite map_app, <- Hi.
    rewrite <- !app_assoc. apply Permutation_app_head, Permutation_app_comm.
  - eapply list.Forall_impl; [exact Hr|]. intros g Hg. rewrite Ed. apply list.elem_of_app. by left.
  - rewrite En. apply list.Forall_app. split; [done|]. eapply list.Forall_impl; [exact Hn|]. by left.
Qed.

Lemma tally_id d r : ActiveDump.id (tally d r) = ActiveDump.id d.
Proof. unfold tally. destruct (concerns d r); [|done]. by destruct (Report.verdict r). Qed.

Lemma erase_id d : ActiveDump.id (erase d) = ActiveDump.id d.
Proof. unfold erase. by destruct (ActiveDump.first_error d). Qed.

Lemma read_by_ids log dumps dumps' :
  read_by log dumps dumps' → map ActiveDump.id dumps' = map ActiveDump.id dumps.
Proof.
  intros H. assert (∀ l, map ActiveDump.id l = map ActiveDump.id (map erase l)) as He.
  { intros l. rewrite map_map. apply map_ext. intros d. by rewrite erase_id. }
  rewrite (He dumps'), (He dumps), H, map_map. apply map_ext. intros d.
  clear H. revert d. induction log as [|r log IH]; intros d; [done|]. cbn. by rewrite IH, tally_id.
Qed.

Lemma accounts_reads stopping regs reports log dumps dumps' b :
  accounts stopping regs reports dumps b → read_by log dumps dumps' →
  accounts stopping regs (reports ++ log) dumps' b.
Proof.
  intros [Hi Hq Hr Hd Ha] Hread. split; [by rewrite (read_by_ids _ _ _ Hread)|done|done| |].
  - apply list.Forall_forall. intros d' Hd'.
    assert (erase d' ∈ map erase dumps') as He by (apply list_elem_of_fmap; by exists d').
    rewrite Hread in He. apply list_elem_of_fmap in He as (e & Ee & He).
    apply list_elem_of_fmap in He as (d & -> & Hdd).
    rewrite list.Forall_forall in Hd. destruct (Hd d Hdd) as (g & Hg & Hl & E).
    exists g. rewrite length_app. split_and!; [done|lia|].
    rewrite Ee, E, drop_app_le by lia. by rewrite foldl_app.
  - eapply list.Forall_impl; [exact Ha|]. intros a [?|[?|(g & n & Hg & Hl & Hid & Hdue & Hf)]];
      [by left|by right; left|]. right. right. exists g, n. rewrite length_app, take_app_le by lia.
    split_and!; try done; lia.
Qed.

Lemma worked_accounts stopping s s' :
  worked s s' → loop_accounts stopping s → loop_accounts stopping s'.
Proof.
  intros [Hb Hr (log & El & Hread)] H. unfold loop_accounts. rewrite Hr, El.
  eapply accounts_later; [|exact Hb]. by eapply accounts_reads.
Qed.

Lemma tracks_tallied regs reports d :
  tracks regs reports d → ∃ g, g ∈ regs ∧ (Registration.seen g <= length reports)%nat ∧
    tallied (dump_of g) d (drop (Registration.seen g) reports).
Proof.
  intros (g & Hg & Hl & E). exists g. split_and!; [done..|]. apply erase_tallied. rewrite E.
  apply foldl_tallied.
Qed.

Lemma due_later now now' d : now <= now' → due now d = true → due now' d = true.
Proof.
  unfold due. destruct (ActiveDump.deadline d); [|done]. rewrite !Z.leb_le. lia.
Qed.

Lemma mark_id mark d : mark = id ∨ mark = mark_pipeline_unavailable →
  ActiveDump.id (mark d) = ActiveDump.id d.
Proof.
  intros [->| ->]; [done|]. unfold mark_pipeline_unavailable. by destruct (ActiveDump.first_error d).
Qed.

(** Resolving a dump answers it, with what it read. *)
Lemma resolve_accounts stopping regs reports d dumps b r mark :
  accounts stopping regs reports (d :: dumps) b → due (Inbox.now b) d = true ∨ stopping →
  mark = id ∨ mark = mark_pipeline_unavailable →
  ∃ b', resolve_dump r (mark d) b = Some b' ∧ accounts stopping regs reports dumps b' ∧
        Inbox.now b <= Inbox.now b'.
Proof.
  intros H Hdue Hmark. pose proof (pass_time_later rejected (Resolution.gap r) b) as Hl.
  pose proof (accounts_later _ _ _ _ _ _ H Hl) as [Hi Hq Hr Hd Ha].
  apply later_now in Hl. inversion Hd as [|? ? Ht Hd']; subst.
  destruct (tracks_tallied _ _ _ Ht) as (g & Hg & Hlen & Htal).
  unfold resolve_dump. set (b0 := pass_time _ _) in *.
  set (manifest := manifest_key _ _).
  destruct (into_result_fulfils _ _ _ _ _ manifest (Resolution.finished_at r) mark Htal Hmark)
    as (res & -> & Hful).
  eexists. split; [done|]. split; [|done]. rewrite mark_id by done.
  split; [|done|done|done|].
  - rewrite <- Hi. unfold inbox_ids, queued. cbn. rewrite map_app. cbn. rewrite <- !app_assoc.
    apply Permutation_app_head. cbn. apply Permutation_middle.
  - apply list.Forall_app. split; [done|]. constructor; [|constructor]. right. right.
    exists g, (length reports). cbn. rewrite firstn_all. split_and!; [done..| | |done].
    + rewrite (tallied_id _ _ _ Htal). done.
    + destruct Hdue as [Hdue|?]; [left|by right]. eapply due_later; [exact Hl|].
      unfold due in *. by rewrite <- (tallied_deadline _ _ _ Htal).
Qed.

Lemma resolve_all_accounts stopping regs reports oracle mark out dumps b :
  accounts stopping regs reports (out ++ dumps) b →
  Forall (λ d, due (Inbox.now b) d = true) out ∨ stopping →
  mark = id ∨ mark = mark_pipeline_unavailable →
  ∃ b', resolve_all oracle (map mark out) b = Some b' ∧ accounts stopping regs reports dumps b' ∧
        Inbox.now b <= Inbox.now b'.
Proof.
  intros H Hdue Hmark. revert b H Hdue.
  induction out as [|d out IH]; intros b H Hdue; cbn [map resolve_all]; [by exists b|].
  destruct (resolve_accounts stopping regs reports d (out ++ dumps) b
    (oracle (ActiveDump.id (mark d))) mark H) as (b1 & -> & H1 & Hn);
    [destruct Hdue as [Hf|?]; [by inversion Hf; left|by right]|done|].
  destruct (IH b1 H1) as (b2 & E & H2 & Hn2); [|exists b2; split_and!; [done..|lia]].
  destruct Hdue as [Hf|?]; [left|by right]. inversion Hf as [|? ? _ Hf']; subst.
  eapply list.Forall_impl; [exact Hf'|]. intros d' Hd'. by eapply due_later.
Qed.

#[global] Instance accounts_perm stopping regs reports :
  Proper (Permutation ==> eq ==> iff) (accounts stopping regs reports).
Proof.
  assert (∀ l l' b, l ≡ₚ l' → accounts stopping regs reports l b → accounts stopping regs reports l' b)
    as H by (intros l l' b Hp [? ? ? ? ?]; split; try done; by rewrite <- Hp).
  intros l l' Hp b b' <-. split; by apply H.
Qed.

(** The dumps chosen, all of them due, are answered; the others stay. *)
Lemma resolve_where_accounts stopping choose mark oracle s :
  loop_accounts stopping s →
  (∀ d, choose d = true → due (Inbox.now (Loop.inbox s)) d = true) →
  mark = id ∨ mark = mark_pipeline_unavailable →
  ∃ s' out, resolve_where choose mark oracle s = Some s' ∧ loop_accounts stopping s' ∧
    out ++ Loop.dumps s' ≡ₚ Loop.dumps s ∧ Forall (λ d, choose d = true) out ∧
    Forall (λ d, choose d = false) (Loop.dumps s') ∧
    Loop.fs s' = Loop.fs s ∧ Inbox.now (Loop.inbox s) <= Inbox.now (Loop.inbox s').
Proof.
  intros H Hdue Hmark. unfold resolve_where. destruct (take_out _ _ _ _) as [out rest] eqn:E.
  apply (take_out_spec choose _ [] (Loop.dumps s)) in E as (kept & -> & Hp & Hc & Hk); [|done].
  unfold loop_accounts in H. rewrite <- Hp in H.
  destruct (resolve_all_accounts _ _ _ oracle mark out kept _ H) as (b' & -> & H' & Hn); [|done|].
  { left. eapply list.Forall_impl; [exact Hc|]. apply Hdue. }
  eexists _, out. split; [done|]. by split_and!.
Qed.

Lemma explained_weaken (P Q : Prop) regs reports a :
  (P → Q) → explained P regs reports a → explained Q regs reports a.
Proof.
  intros HPQ [?|[[? ?]|(g & n & ? & ? & ? & Hd & ?)]]; [by left|right; left; tauto|].
  right. right. exists g, n. do 3 (split; [done|]). split; [tauto|done].
Qed.

Lemma accounts_weaken (P Q : Prop) regs reports dumps b :
  (P → Q) → accounts P regs reports dumps b → accounts Q regs reports dumps b.
Proof.
  intros HPQ [? ? ? ? Ha]. split; try done. eapply list.Forall_impl; [exact Ha|].
  intros a. by apply explained_weaken.
Qed.

(** Nothing of the channel is left unanswered when it closes. *)
Lemma close_accounts regs reports b :
  accounts True regs reports [] b →
  accounts True regs reports [] (close_inbox b) ∧ queued (close_inbox b) = [] ∧
  DumpTrigger.rx_closed (Inbox.trigger (close_inbox b)) = true.
Proof.
  intros [Hi Hq Hr _ Ha]. unfold close_inbox, queue_sound, inbox_ids, queued in *.
  set (b0 := Inbox.set_trigger b _). set (l := DumpTrigger.sent (Inbox.trigger b)) in *.
  assert (∀ (l : list DumpRequest.t) b1, let b2 :=
      foldl (λ b req, Inbox.answer b (DumpRequest.id req) (Err WorkerStopped)) b1 l in
    Inbox.trigger b2 = Inbox.trigger b1 ∧ Inbox.delivered b2 = Inbox.delivered b1 ∧
    ∃ new, Inbox.answers b2 = Inbox.answers b1 ++ new ∧ map Answer.id new = request_ids l ∧
           Forall (λ a, Answer.result a = Err WorkerStopped) new) as H.
  { clear. induction l as [|req l IH]; intros b1; cbn.
    - split_and!; [done..|]. exists []. by rewrite app_nil_r.
    - destruct (IH (Inbox.answer b1 (DumpRequest.id req) (Err WorkerStopped)))
        as (Et & Ed & new & En & Ei & Hf).
      cbn zeta in *. rewrite Et, Ed, En. split_and!; [done..|]. eexists (_ :: new). cbn.
      rewrite <- app_assoc. split_and!; [done|by rewrite Ei|by constructor]. }
  destruct (H l b0) as (Et & Ed & new & En & Ei & Hf). cbn zeta in *. rewrite Et. split; [|done].
  split; unfold queue_sound, inbox_ids, queued; rewrite ?Et, ?Ed, ?En; cbn; [|done|done|done|].
  - rewrite <- Hi. unfold l. cbn. rewrite map_app, Ei, !app_nil_r. done.
  - apply list.Forall_app. split; [done|]. eapply list.Forall_impl; [exact Hf|]. intros a E.
    right. by left.
Qed.

Section runs.
Variable id_text : Z → bytes.
Variable has_processors : bool.

Lemma gap_accounts stopping s g :
  loop_accounts stopping s →
  loop_accounts stopping (Loop.set_inbox s (pass_time g (Loop.inbox s))).
Proof. intros H. eapply accounts_later; [exact H|apply pass_time_later]. Qed.

(** The dumps are served whenever the drain returns. *)
Lemma serve_accounts i s :
  loop_accounts False s → Loop.dumps s ≠ [] →
  match drain_matching id_text has_processors (TurnInput.passes i) s with
  | None => serve_dumps id_text has_processors i s = None
  | Some _ => ∃ c s', serve_dumps id_text has_processors i s = Some (c, s') ∧ loop_accounts False s'
  end.
Proof.
  intros H Hne. unfold serve_dumps. rewrite bool_decide_false by done.
  destruct (drain_matching _ _ _ _) as [[r s1]|] eqn:E; [|done].
  apply drain_works in E. apply (worked_accounts _ _ _ E) in H.
  apply (gap_accounts _ _ (TurnInput.pause i)) in H. set (s2 := Loop.set_inbox s1 _) in *.
  assert (∀ now ex hold d, finished_dump now ex hold d = true → due now d = true) as Hdue
    by (intros; unfold finished_dump in *; by bool_facts).
  assert (∀ hold, ∃ c s', match resolve_where (finished_dump (Inbox.now (Loop.inbox s2))
        (take_is_exhaustive (Loop.fs s2)) hold) id (TurnInput.resolution i) s2 with
      | Some s => Some (false, s) | None => None end = Some (c, s') ∧ loop_accounts False s') as Hf.
  { intros hold. edestruct (resolve_where_accounts False (finished_dump (Inbox.now (Loop.inbox s2))
      (take_is_exhaustive (Loop.fs s2)) hold) id (TurnInput.resolution i) s2 H)
      as (s' & out & -> & H' & _); [by apply Hdue|by left|by eexists _, _]. }
  destruct (DrainResult.interruption r) as [[]|]; [apply Hf| |apply Hf..].
  edestruct (resolve_where_accounts False (due (Inbox.now (Loop.inbox s2))) mark_pipeline_unavailable
    (TurnInput.resolution i) s2 H) as (s' & out & -> & H' & _); [done|by right|by eexists _, _].
Qed.

Lemma park_accounts i s s' : park i s = Some s' → loop_accounts False s → loop_accounts False s'.
Proof.
  intros E H. apply (gap_accounts _ _ (TurnInput.waiting i)) in H. unfold park in E.
  set (b := pass_time (TurnInput.waiting i) (Loop.inbox s)) in *.
  destruct (TurnInput.branch i) as [|el| |].
  - by injection E as <-.
  - destruct (Inbox.rx_open b); [|done]. unfold recv in E. destruct (queued b) as [|req rest] eqn:Eq.
    { destruct (Inbox.senders_gone b); [|done]. injection E as <-.
      eapply accounts_later; [exact H|]. by apply later_same. }
    injection E as <-. destruct H as [Hi Hq Hr Hd Ha]. cbn in *.
    unfold queue_sound, inbox_ids, set_queue in *. rewrite Eq in Hi, Hq.
    inversion Hq as [|? ? Hreq Hrest]; subst. split; cbn.
    + rewrite <- Hi. unfold inbox_ids. cbn. rewrite map_app, <- !app_assoc. cbn.
      apply Permutation_app_head. rewrite app_assoc. symmetry. apply Permutation_cons_append.
    + exact Hrest.
    + apply list.Forall_app. split; [done|by constructor].
    + apply list.Forall_app. split.
      * eapply list.Forall_impl; [exact Hd|]. intros d (g & Hg & Hl & Ed). exists g.
        split; [by apply list.elem_of_app; left|done].
      * constructor; [|constructor]. eexists. split; [apply list.elem_of_app; right; left|].
        cbn. split; [done|]. by rewrite drop_all.
    + eapply list.Forall_impl; [exact Ha|].
      intros a [?|[[[] ?]|(g & n & Hg & Hrest')]]; [by left|]. right. right. exists g, n.
      split; [by apply list.elem_of_app; left|done].
  - destruct (min_deadline _) as [t|]; [|done]. destruct (t <=? _); [|done]. by injection E as <-.
  - destruct (bool_decide _); [done|]. by injection E as <-.
Qed.

(** Shutting down answers everything, whenever the last drain returns. *)
Lemma shut_down_accounts i s :
  loop_accounts False s →
  match drain_matching id_text has_processors (TurnInput.final_passes i) s with
  | None => shut_down id_text has_processors i s = None
  | Some _ => ∃ s', shut_down id_text has_processors i s = Some s' ∧ loop_accounts True s' ∧
      Loop.dumps s' = [] ∧ queued (Loop.inbox s') = [] ∧
      DumpTrigger.rx_closed (Inbox.trigger (Loop.inbox s')) = true
  end.
Proof.
  intros H. unfold shut_down. destruct (drain_matching _ _ _ _) as [[r s1]|] eqn:E; [|done].
  apply drain_works in E. apply (worked_accounts _ _ _ E) in H.
  apply (accounts_weaken _ True) in H; [|done].
  rewrite <- (app_nil_r (Loop.dumps s1)) in H.
  edestruct (resolve_all_accounts True _ _ (TurnInput.resolution i) id (Loop.dumps s1) [] (Loop.inbox s1) H)
    as (b & Eb & H1 & _); [by right|by left|]. rewrite map_id in Eb. rewrite Eb.
  eapply accounts_later in H1; [|apply (pass_time_later rejected (TurnInput.closing i))].
  apply close_accounts in H1 as (H1 & Hq & Hc). eexists. split; [done|]. by split_and!.
Qed.

Definition turn_ok (st : status) (s : Loop.t) : Prop :=
  loop_accounts (st = Returned) s ∧
  (st = Returned → Loop.dumps s = [] ∧ queued (Loop.inbox s) = [] ∧
                   DumpTrigger.rx_closed (Inbox.trigger (Loop.inbox s)) = true).

Lemma turn_accounts i s st s' :
  turn id_text has_processors i s = Some (st, s') → loop_accounts False s → turn_ok st s'.
Proof.
  intros E H. unfold turn in E.
  assert (∀ s, loop_accounts False s → turn_ok Running s) as Hrun.
  { intros s0 H0. split; [by eapply accounts_weaken; [|exact H0]|done]. }
  assert (∀ c s1, serve_dumps id_text has_processors i s = Some (c, s1) → loop_accounts False s1) as Hs.
  { intros c s1 E1. destruct (decide (Loop.dumps s = [])) as [En|Hne].
    - unfold serve_dumps in E1. rewrite bool_decide_true in E1 by done. by injection E1 as <- <-.
    - pose proof (serve_accounts i s H Hne) as Hx. destruct (drain_matching _ _ _ _).
      + destruct Hx as (c' & s2 & E2 & H2). rewrite E2 in E1. by injection E1 as <- <-.
      + by rewrite Hx in E1. }
  destruct (serve_dumps _ _ i s) as [[[] s1]|]; [| |done]; specialize (Hs _ _ eq_refl).
  { injection E as <- <-. by apply Hrun. }
  destruct (TurnInput.stop i).
  - pose proof (shut_down_accounts i s1 Hs) as Hx.
    destruct (shut_down _ _ i s1) as [s2|] eqn:E2; [|done]. injection E as <- <-.
    destruct (drain_matching _ _ _ _); [|done]. destruct Hx as (s3 & [= <-] & H3 & Hend).
    split; [by eapply accounts_weaken; [|exact H3]|done].
  - destruct (park i s1) as [s2|] eqn:E2; [|done]. injection E as <- <-. apply Hrun.
    by eapply park_accounts.
Qed.

Lemma triggered_accounts turns s st s' :
  run_triggered id_text has_processors turns s = Some (st, s') → loop_accounts False s →
  turn_ok st s'.
Proof.
  revert s. induction turns as [|i turns IH]; intros s; cbn [run_triggered].
  { intros [= <- <-] H. split; [by eapply accounts_weaken; [|exact H]|done]. }
  destruct (turn _ _ i s) as [[[] s1]|] eqn:E; [| |done]; intros Er H;
    pose proof (turn_accounts _ _ _ _ E H) as H1.
  - apply (IH s1 Er). destruct H1 as [H1 _]. by eapply accounts_weaken; [|exact H1].
  - by injection Er as <- <-.
Qed.

Lemma start_accounts fs now debounce : loop_accounts False (loop_start fs now debounce).
Proof. split; try done; by constructor. Qed.
End runs.

(** ** Main properties *)



(** A dump of the example directory, and a request the worker never receives. *)
Definition no_gap : Gap.t := Gap.mk 0 [].

Definition live_wake : list Wake.t := [Wake.mk no_gap (Some true)].

Definition example_input : PassInput.t :=
  PassInput.mk live_wake id (λ i, (live_wake,
    match i with
    | 0%nat => example_attempt 70 80 true
    | 1%nat => example_attempt 85 95 true
    | _ => example_attempt 95 99 false
    end)).

Definition example_turn (stop : bool) (passes : list PassInput.t) (callers : list caller) (br : branch)
    : TurnInput.t :=
  TurnInput.mk passes no_gap (λ _, Resolution.mk [λ c, Finalized (Some (lit "manifest"))] 5 no_gap)
    stop [] no_gap (Gap.mk 3 callers) br.

Definition sending (id : Z) : caller :=
  Sends (DumpRun.mk (Some (DumpRequest.mk id (100 * SECOND) (Window (10 * SECOND)) 0 [])) None).

Definition example_turns : list TurnInput.t :=
  [example_turn false [] [sending 77] (Received 0);
   example_turn false [example_input; example_input] [sending 78] Cancelled;
   example_turn true [] [] Cancelled].

Definition example_run : option (status * Loop.t) :=
  run_triggered put_dec true example_turns (loop_start (Pass.fs example_pass) 0 None).


