(* ===== verification/Drain.v ===== *)
(** * The triggered worker makes progress (drain_matching and the shutdown of
    dial9-core/src/worker/mod.rs)

    Over either backend every round of [drain_matching] that goes round again
    leaves less to dispense, so the drain ends; and a worker told to stop
    returns, which with [Triggered] answers every request. *)

From Stdlib Require Import ZArith Lia.
From stdpp Require Import base list gmap strings option sorting.
From coqutil Require Import Byte.
From S2P Require Import Prelude.
From S2P Require Import Text.
From S2P Require Import Utf8.
From S2P Require Import Sealed.
From S2P Require Import MemRing.
From S2P Require Import SegmentFs.
From S2P Require Import DiskFs.
From S2P Require Import SegmentWriter.
From S2P Require Import Dump.
From S2P Require Import Worker.
From S2P Require Import Triggered.

(** ** What is left to dispense *)

Definition unclaimed (d : DiskFs.t) : list (bytes * Z) :=
  filter (λ x, DiskFs.claimed d !! snd x = None) (on_disk d).

Definition backlog (fs : Fs) : nat :=
  match fs with FsDisk d => length (unclaimed d) | FsMem c => length (slots c) end.

(** A directory whose sealed segments have the names the writer gives. *)
Definition regular (fs : Fs) : Prop :=
  match fs with
  | FsDisk d => ∀ name i, (name, i) ∈ on_disk d → name = sealed_name (DiskFs.stem d) i
  | FsMem _ => True
  end.

(** What the writer may do while the worker waits: evict, and anything else
    that does not add to the backlog. *)
Definition calm (f : Fs → Fs) : Prop :=
  ∀ fs, regular fs → regular (f fs) ∧ (backlog (f fs) <= backlog fs)%nat.

Lemma NoDup_omap_inj {A B} (f : A → option B) l :
  (∀ x y z, f x = Some z → f y = Some z → x = y) → NoDup l → NoDup (omap f l).
Proof.
  intros Hinj. induction 1 as [|x l Hx Hl IH]; [constructor|]. cbn.
  destruct (f x) as [y|] eqn:E; [|exact IH]. constructor; [|exact IH].
  intros (x' & Hx' & E')%list_elem_of_omap. by rewrite (Hinj x x' y) in Hx.
Qed.

Lemma on_disk_nodup d : NoDup (on_disk d).
Proof.
  unfold on_disk. rewrite find_sealed_perm.
  assert (∀ l : list (bytes * node), omap (λ n, name ← n; (λ i, (name, i)) <$>
      parse_segment_index name (DiskFs.stem d)) (map (λ x, to_str (fst x)) l)
    = omap (λ n, name ← to_str n; (λ i, (name, i)) <$> parse_segment_index name (DiskFs.stem d))
        (map fst l)) as ->.
  { induction l as [|x l IH]; [done|]. cbn [map omap list_omap]. by rewrite IH. }
  apply NoDup_omap_inj; [|apply read_dir_nodup]. intros x y [n i] Hx Hy. unfold to_str in *.
  destruct (utf8_valid x), (utf8_valid y); try done. cbn in Hx, Hy.
  destruct (parse_segment_index x _), (parse_segment_index y _); try done. cbn in *. congruence.
Qed.

(** The indices open for dispensing. *)
Definition open_at (d : DiskFs.t) (i : Z) : Prop :=
  i ∈ map snd (on_disk d) ∧ DiskFs.claimed d !! i = None.

Lemma unclaimed_open d i : i ∈ map snd (unclaimed d) ↔ open_at d i.
Proof.
  unfold open_at, unclaimed. rewrite !list_elem_of_fmap. setoid_rewrite list_elem_of_filter.
  naive_solver.
Qed.

Lemma regular_nodup d : regular (FsDisk d) → NoDup (map snd (unclaimed d)).
Proof.
  intros Hr. apply (NoDup_fmap_1 (sealed_name (DiskFs.stem d))).
  assert (sealed_name (DiskFs.stem d) <$> map snd (unclaimed d) = map fst (unclaimed d)) as ->.
  { assert (Forall (λ x, fst x = sealed_name (DiskFs.stem d) (snd x)) (unclaimed d)) as H.
    { apply list.Forall_forall. intros [n i] [_ Hin]%list_elem_of_filter. by apply Hr. }
    induction H as [|x l Hx _ IH]; [done|]. cbn. by rewrite Hx, <- IH. }
  assert (∀ l : list (bytes * Z), NoDup l → Forall (λ x, fst x = sealed_name (DiskFs.stem d) (snd x)) l →
    (∀ x, x ∈ l → x ∈ on_disk d) → NoDup (map fst l)) as H.
  { clear Hr. induction 1 as [|[n i] l Hx Hl IH]; intros Hf Hin; [constructor|]. cbn.
    inversion Hf as [|? ? Hn Hf']; subst. constructor; [|apply IH; [done|]; intros; apply Hin; by right].
    intros ([n' i'] & E & Hx')%list_elem_of_fmap. cbn in E. subst n'.
    assert ((n, i) ∈ on_disk d) as H1%on_disk_elem by (apply Hin; left).
    assert ((n, i') ∈ on_disk d) as H2%on_disk_elem by (apply Hin; by right).
    destruct H1 as (_ & _ & E1), H2 as (_ & _ & E2). rewrite E1 in E2. by injection E2 as <-. }
  apply H.
  - apply NoDup_filter, on_disk_nodup.
  - apply list.Forall_forall. intros [n i] [_ Hin]%list_elem_of_filter. by apply Hr.
  - by intros x [_ ?]%list_elem_of_filter.
Qed.

(** Fewer open indices, less to dispense. *)
Lemma open_backlog d d' :
  regular (FsDisk d) → regular (FsDisk d') → (∀ i, open_at d' i → open_at d i) →
  (backlog (FsDisk d') <= backlog (FsDisk d))%nat ∧
  ∀ i, open_at d i → ¬ open_at d' i → (backlog (FsDisk d') < backlog (FsDisk d))%nat.
Proof.
  intros Hr Hr' Hsub. unfold backlog.
  rewrite <- (length_map snd (unclaimed d)), <- (length_map snd (unclaimed d')).
  pose proof (regular_nodup d Hr). pose proof (regular_nodup d' Hr'). split.
  - apply submseteq_length, NoDup_submseteq; [done|]. intros i. rewrite !unclaimed_open. apply Hsub.
  - intros i Hi Hi'.
    apply (submseteq_length (i :: map snd (unclaimed d'))), NoDup_submseteq.
    + constructor; [by rewrite unclaimed_open|done].
    + intros j [->|Hj]%elem_of_cons; rewrite unclaimed_open; [done|].
      by apply Hsub, unclaimed_open.
Qed.

(** ** What a pass leaves on disk *)

Section disk.
Variable id_text : Z → bytes.
Variable has_processors : bool.

Lemma run_stages_disk stages data n i d :
  ∃ o, run_stages stages data (TakenDisk n i) (FsDisk d) = (o, TakenDisk n i, FsDisk d).
Proof.
  revert data. induction stages as [|stage stages IH]; intros data; cbn [run_stages]; [by eexists|].
  destruct (stage data); [|by eexists..]. cbn [fs_adjust]. apply IH.
Qed.

Definition done_of (p : Pass.t) : Z := PassStats.matched_done (Pass.stats p).

(** What one segment comes to on disk: nothing moves, its files are removed, or
    its claim is released and it does not count as done. *)
Lemma disk_segment a n i p d :
  Pass.fs p = FsDisk d →
  let p' := process_segment id_text a (TakenDisk n i) p in
  done_of p <= done_of p' ∧
  (Pass.fs p' = FsDisk d ∨
   Pass.fs p' = FsDisk (disk_remove_sealed i Terminal d) ∧
     (∃ c, DiskFs.entries d !! n = Some (File c)) ∨
   Pass.fs p' = FsDisk (release_claim i d) ∧ done_of p' = done_of p).
Proof.
  intros Hfs. unfold process_segment. destruct (_ && cached_outside _ _).
  { split; [done|]. right. right. cbn. by rewrite Hfs. }
  rewrite Hfs. unfold load. destruct (DiskFs.entries d !! n) as [[c|len]|] eqn:En;
    [|split; [done|]; left; cbn; by rewrite Hfs..].
  set (ep := epochs_of _ _ _). set (m := matching _ _ _).
  destruct (_ && bool_decide (m = [])).
  { split; [done|]. right. right. cbn. by rewrite Hfs. }
  set (p1 := Pass.set_stats p _). set (data := segment_data _ _ _ _ _ _).
  assert (Pass.fs p1 = FsDisk d) as Hfs1 by exact Hfs. rewrite Hfs1.
  destruct (run_stages_disk (Attempt.stages a) data n i d) as [o ->].
  set (p2 := Pass.set_fs p1 (FsDisk d)).
  assert (done_of p2 = done_of p) as Hd2 by done. rewrite <- Hd2.
  assert (Pass.fs p2 = FsDisk d) as Hfs2 by done. clearbody p2. clear Hd2 Hfs1 data p1.
  assert (∀ q, Pass.fs (drop_taken (TakenDisk n i) q) = Pass.fs q) as Hdrop by done.
  assert (∀ q, done_of (drop_taken (TakenDisk n i) q) = done_of q) as Hddone by done.
  rewrite Hdrop, Hddone.
  assert (∀ kind, let p' := settle_error i m kind p2 in
    done_of p2 <= done_of p' ∧ Pass.fs p' = FsDisk (disk_remove_sealed i Terminal d)) as Herr.
  { intros kind. unfold settle_error, record_error, finish, done_of. cbn. rewrite Hfs2.
    split; [destruct m; lia|done]. }
  destruct o as [|kind|msg]; cbn [settle taken_index].
  - split; [cbn; unfold done_of; cbn; destruct m; lia|]. left. done.
  - destruct (already_deleted kind).
    { split; [cbn; unfold done_of; cbn; destruct m; lia|]. by left. }
    destruct (retryable kind).
    { cbn. unfold done_of. cbn. rewrite Hfs2. split; [lia|]. right. by right. }
    destruct (Herr kind) as [H1 H2]. split; [done|]. right. left. split; [done|by eexists].
  - destruct (Herr (Io false (lit "processor panicked: " ++ msg))) as [H1 H2].
    split; [done|]. right. left. split; [done|by eexists].
Qed.

Lemma removed_sealed i d :
  let d' := disk_remove_sealed i Terminal d in
  DiskFs.stem d' = DiskFs.stem d ∧ (∀ x, x ∈ on_disk d' → x ∈ on_disk d) ∧
  DiskFs.claimed d' = delete i (DiskFs.claimed d).
Proof.
  unfold disk_remove_sealed. rewrite remove_family_picked.
  set (pick := in_family _). destruct (remove_picked_fields pick (read_dir d) d) as (Es & _ & Ec & _).
  cbn [DiskFs.set_claimed DiskFs.stem DiskFs.claimed DiskFs.entries].
  rewrite Es, Ec. split_and!; [done| |done]. intros [n j].
  rewrite !on_disk_elem. cbn [DiskFs.set_claimed DiskFs.stem DiskFs.entries]. rewrite Es.
  intros [[x Hx] H]. apply remove_all_lookup in Hx as [Hx _]. split; [by exists x|done].
Qed.

(** A segment as the scan of the directory names it. *)
Definition named (d : DiskFs.t) (t : Taken) : Prop :=
  match t with
  | TakenDisk n i => n = sealed_name (DiskFs.stem d) i ∧ utf8_valid n = true
  | TakenMem _ => False
  end.

(** A segment of the regular directory is dealt with: only its own index may
    open, and then it does not count as done. *)
Lemma disk_segment_open a n i p d :
  Pass.fs p = FsDisk d → regular (FsDisk d) → named d (TakenDisk n i) →
  let p' := process_segment id_text a (TakenDisk n i) p in
  ∃ d', Pass.fs p' = FsDisk d' ∧ DiskFs.stem d' = DiskFs.stem d ∧
    (∀ x, x ∈ on_disk d' → x ∈ on_disk d) ∧
    (∀ j, open_at d' j → open_at d j ∨ j = i) ∧ done_of p <= done_of p' ∧
    (done_of p' = done_of p ∨ ∀ j, open_at d' j → open_at d j).
Proof.
  intros Hfs Hreg [Hname Hu'] p'. destruct (disk_segment a n i p d Hfs) as [Hd H]. fold p' in Hd, H.
  destruct H as [H|[[H [c Hc]]|[H Hsame]]]; eexists; (split; [exact H|]).
  - split_and!; try done; [by left|by right].
  - destruct (removed_sealed i d) as (Es & Hs & Ec). cbn zeta in *.
    assert (∀ j, open_at (disk_remove_sealed i Terminal d) j → open_at d j) as Ho.
    { intros j [Hj Hcl]. rewrite Ec in Hcl. apply list_elem_of_fmap in Hj as ([m j'] & Ej & Hj).
      cbn in Ej. subst j'. destruct (decide (j = i)) as [->|Hne].
      - exfalso. pose proof (Hreg _ _ (Hs _ Hj)) as ->. subst n.
        apply on_disk_elem in Hj as ([x Hx] & Hu & Hp). unfold disk_remove_sealed in Hx.
        rewrite remove_family_picked in Hx. cbn [DiskFs.set_claimed DiskFs.entries] in Hx.
        apply remove_all_lookup in Hx as [Hx Hpick]. rewrite Hc in Hx. injection Hx as <-.
        unfold in_family, is_family in Hpick. cbn [fst is_file] in Hpick.
        by rewrite Hu', bool_decide_true in Hpick.
      - split; [apply list_elem_of_fmap; by exists (m, j); split; [|apply Hs]|].
        by rewrite lookup_delete_ne in Hcl. }
    split_and!; try done; [by intros j Hj; left; apply Ho|by right].
  - split_and!; try done; [|by left]. intros j [Hj Hcl].
    destruct (decide (j = i)) as [->|Hne]; [by right|left]. split; [done|].
    cbn in Hcl. by rewrite lookup_delete_ne in Hcl.
Qed.

Lemma regular_sub d d' :
  DiskFs.stem d' = DiskFs.stem d → (∀ x, x ∈ on_disk d' → x ∈ on_disk d) →
  regular (FsDisk d) → regular (FsDisk d').
Proof. intros Es Hs Hr n i Hin. rewrite Es. by apply Hr, Hs. Qed.

Lemma released_open l d :
  Forall (named d) l →
  ∃ d', foldl (λ fs x, fs_release_unprocessed x fs) (FsDisk d) l = FsDisk d' ∧
    DiskFs.stem d' = DiskFs.stem d ∧ on_disk d' = on_disk d ∧
    ∀ j, open_at d' j → open_at d j ∨ j ∈ map taken_index l.
Proof.
  revert d. induction l as [|[n i|sl] l IH]; intros d Hf.
  - exists d. split_and!; try done. by left.
  - inversion Hf as [|? ? _ Hf']; subst. cbn [foldl fs_release_unprocessed fs_release_claim].
    destruct (IH (release_claim i d) Hf') as (d' & E & Es & Eo & H).
    exists d'. split; [exact E|]. split; [exact Es|]. split; [exact Eo|]. intros j Hj.
    cbn [map taken_index]. rewrite elem_of_cons.
    destruct (H j Hj) as [[H1 H2]|?]; [|tauto]. destruct (decide (j = i)) as [|Hne]; [tauto|].
    left. split; [exact H1|]. cbn in H2. by rewrite lookup_delete_ne in H2.
  - inversion Hf as [|? ? Hn _]. by destruct Hn.
Qed.

Lemma foldl_fst {A B C} (f : C → A → C) (l : list (A * B)) c :
  foldl (λ c x, f c (fst x)) c l = foldl f c (map fst l).
Proof. revert c. induction l as [|x l IH]; intros c; [done|]. cbn. apply IH. Qed.

(** A whole pass on disk: only indices it was given open; when something was
    done, one of them does not. *)
Lemma disk_pass l p b tried q b' d :
  triggered_segments id_text has_processors l p b = Some (tried, q, b') →
  Pass.fs p = FsDisk d → regular (FsDisk d) → Forall (named d) (map fst l) →
  NoDup (map (taken_index ∘ fst) l) →
  ∃ d', Pass.fs q = FsDisk d' ∧ DiskFs.stem d' = DiskFs.stem d ∧
    (∀ x, x ∈ on_disk d' → x ∈ on_disk d) ∧
    (∀ j, open_at d' j → open_at d j ∨ j ∈ map (taken_index ∘ fst) l) ∧ done_of p <= done_of q ∧
    (done_of q = done_of p ∨
     ∃ i, i ∈ map (taken_index ∘ fst) l ∧ (open_at d' i → open_at d i)).
Proof.
  unfold triggered_segments. destruct has_processors eqn:Ehas.
  2:{ intros [= <- <- <-] Hfs _ _ _. exists d. cbn. rewrite Hfs.
      assert (∀ l : list (Taken * (list Wake.t * Attempt.t)),
        foldl (λ fs x, fs_drop (fst x) fs) (FsDisk d) l = FsDisk d) as ->.
      { induction l0 as [|[[] ?] l0 IH]; [done|exact IH..]. }
      split_and!; try done; by left. }
  rewrite <- Ehas. clear Ehas. revert p b tried d.
  induction l as [|[t [wakes a]] l IH]; intros p b tried d; cbn [triggered_loop].
  { intros [= <- <- <-] Hfs _ _ _. exists d. split_and!; try done; by left. }
  destruct (wait_live _ _ _ _) as [[r b1]|]; [|done]. intros E Hfs Hreg Hn Hnd.
  cbn [map fst] in Hn, Hnd. inversion Hn as [|? ? Ht Hn']; subst.
  change ((taken_index ∘ fst) (t, (wakes, a))) with (taken_index t) in Hnd.
  apply list.NoDup_cons in Hnd as [Hti Hnd].
  destruct (decide (r = Live)) as [->|Hr].
  - set (a1 := Attempt.mk Live _ _ _) in *.
    destruct (triggered_loop _ _ l _ b1) as [[[tried' q'] b2]|] eqn:E'; [|done].
    injection E as <- <- <-. destruct t as [n i|sl]; [|by destruct Ht].
    destruct (disk_segment_open a1 n i p d Hfs Hreg Ht)
      as (d1 & Hfs1 & Es1 & Hs1 & Ho1 & Hd1 & Hdone1).
    apply (IH _ _ _ d1) in E' as (d' & Hfs' & Es' & Hs' & Ho' & Hd' & Hdone'); [|done| | |done].
    2:{ by eapply regular_sub. }
    2:{ eapply list.Forall_impl; [exact Hn'|]. intros [m k|sl]; [|done]. unfold named. by rewrite Es1. }
    exists d'. rewrite Es'. split; [done|]. split; [done|]. split; [by intros x Hx; apply Hs1, Hs'|].
    change (map (taken_index ∘ fst) ((TakenDisk n i, (wakes, a)) :: l))
      with (i :: map (taken_index ∘ fst) l). setoid_rewrite elem_of_cons.
    split.
    { intros j [[?|?]%Ho1|?]%Ho'; tauto. }
    split; [lia|]. destruct Hdone1 as [E1|H1].
    + destruct Hdone' as [E2|(j & Hj & H2)]; [left; congruence|]. right. exists j.
      split; [by right|]. intros Hopen. destruct (Ho1 j (H2 Hopen)) as [?| ->]; [done|].
      by destruct Hti.
    + right. exists i. split; [by left|]. intros Hopen.
      destruct (Ho' i Hopen) as [?|?]; [by apply H1|]. by destruct Hti.
  - assert (q = Pass.set_stats (Pass.set_fs p (foldl (λ fs x, fs_release_unprocessed (fst x) fs)
      (fs_release_unprocessed t (Pass.fs p)) l)) (PassStats.interrupted (Pass.stats p) r)) as ->
      by (destruct r; [done|by injection E as <- <- <-..]).
    rewrite (foldl_fst (λ fs x, fs_release_unprocessed x fs)), Hfs.
    destruct (released_open (t :: map fst l) d Hn) as (d' & Ed' & Es & Eo & Ho).
    cbn [foldl] in Ed'. exists d'. cbn [Pass.fs Pass.set_stats Pass.set_fs]. rewrite Ed', Eo.
    split_and!; try done; [|by left]. intros j Hj. cbn [map]. rewrite elem_of_cons.
    destruct (Ho j Hj) as [?|Hin]; [by left|right]. cbn [map] in Hin. rewrite elem_of_cons, map_map in Hin.
    exact Hin.
Qed.
End disk.

(** ** What a pass leaves in the ring *)

Section memory.
Variable id_text : Z → bytes.
Variable has_processors : bool.

Lemma adjust_slots c a n : slots (fst (adjust c a n)) = slots c.
Proof. unfold adjust. by destruct (_ =? _). Qed.

Lemma run_stages_mem stages data t c :
  ∃ o t' c', run_stages stages data (TakenMem t) (FsMem c) = (o, TakenMem t', FsMem c') ∧
             slots c' = slots c.
Proof.
  revert data t c. induction stages as [|stage stages IH]; intros data t c; cbn [run_stages].
  { by eexists _, _, _. }
  destruct (stage data); [|by eexists _, _, _..]. cbn [fs_adjust].
  pose proof (adjust_slots c (TakenSegment.accounting t) (blen (SegmentData.payload next))) as H.
  destruct (adjust _ _ _) as [c1 a1]. cbn [fst] in H.
  destruct (IH next (TakenSegment.mk (TakenSegment.slot t) a1) c1) as (o & t' & c' & -> & E).
  exists o, t', c'. split; [done|congruence].
Qed.

(** A segment is gone from the ring, or is back at its head and not done. *)
Lemma mem_segment a t p c :
  Pass.fs p = FsMem c →
  let p' := process_segment id_text a (TakenMem t) p in
  ∃ c', Pass.fs p' = FsMem c' ∧ done_of p <= done_of p' ∧
    (slots c' = slots c ∨ (∃ s, slots c' = s :: slots c) ∧ done_of p' = done_of p).
Proof.
  intros Hfs. unfold process_segment. destruct (_ && cached_outside _ _).
  { eexists. cbn. rewrite Hfs. split; [done|]. split; [done|]. by left. }
  rewrite Hfs. unfold load. set (ep := epochs_of _ _ _). set (m := matching _ _ _).
  destruct (_ && bool_decide (m = [])).
  { eexists. cbn. rewrite Hfs. split; [done|]. split; [done|]. right. split; [|done].
    by eexists. }
  set (p1 := Pass.set_stats p _). set (data := segment_data _ _ _ _ _ _).
  assert (Pass.fs p1 = FsMem c) as Hfs1 by exact Hfs. rewrite Hfs1.
  destruct (run_stages_mem (Attempt.stages a) data t c) as (o & t' & c1 & -> & Hs).
  rewrite <- Hs. set (p2 := Pass.set_fs p1 (FsMem c1)).
  assert (done_of p2 = done_of p) as Hd2 by done. rewrite <- Hd2.
  assert (Pass.fs p2 = FsMem c1) as Hfs2 by done. clearbody p2. clear Hd2 Hfs1 data p1.
  assert (∀ q c', Pass.fs q = FsMem c' → ∃ c2, Pass.fs (drop_taken (TakenMem t') q) = FsMem c2 ∧
    slots c2 = slots c' ∧ done_of (drop_taken (TakenMem t') q) = done_of q) as Hdrop.
  { intros q c' E. eexists. cbn. by rewrite E. }
  assert (∀ q, Pass.fs q = FsMem c1 → done_of p2 <= done_of q →
    ∃ c2, Pass.fs (drop_taken (TakenMem t') q) = FsMem c2 ∧
      done_of p2 <= done_of (drop_taken (TakenMem t') q) ∧
      (slots c2 = slots c1 ∨ (∃ s, slots c2 = s :: slots c1) ∧
         done_of (drop_taken (TakenMem t') q) = done_of p2)) as Hgone.
  { intros q E H. destruct (Hdrop q c1 E) as (c2 & -> & Hs2 & ->). exists c2.
    split_and!; [done..|by left]. }
  assert (∀ q, Pass.fs q = FsMem c1 → done_of q = done_of p2 → done_of p2 <= done_of (finish q m))
    as Hfin.
  { intros q _ E. unfold done_of in *. cbn. rewrite E. destruct m; lia. }
  destruct o as [|kind|msg]; cbn [settle taken_index].
  - apply Hgone; [exact Hfs2|by apply (Hfin p2)].
  - destruct (already_deleted kind); [apply Hgone; [exact Hfs2|by apply (Hfin p2)]|].
    destruct (retryable kind).
    + unfold settle_retryable. destruct (MEMORY_RETRY_BUDGET <? _).
      { apply Hgone; [exact Hfs2|by apply (Hfin p2)]. }
      rewrite Hfs2. cbn [fs_release_for_retry]. set (q := Pass.set_stats _ _).
      edestruct (Hdrop q _ eq_refl) as (c2 & -> & Hs2 & Hd). exists c2. rewrite Hd, Hs2.
      split_and!; [done..|]. right. split; [by eexists|done].
    + unfold settle_error. rewrite Hfs2. cbn [fs_remove_terminal].
      apply Hgone; [done|exact (Hfin (uncache (Pass.set_fs p2 (FsMem c1)) 0) eq_refl eq_refl)].
  - unfold settle_error. rewrite Hfs2. cbn [fs_remove_terminal].
    apply Hgone; [done|exact (Hfin (uncache (Pass.set_fs p2 (FsMem c1)) 0) eq_refl eq_refl)].
Qed.

(** A pass over the one segment that was popped. *)
Lemma mem_pass t x p b tried q b' c :
  triggered_segments id_text has_processors [(TakenMem t, x)] p b = Some (tried, q, b') →
  Pass.fs p = FsMem c →
  ∃ c', Pass.fs q = FsMem c' ∧ done_of p <= done_of q ∧
    (slots c' = slots c ∨ (∃ s, slots c' = s :: slots c) ∧ done_of q = done_of p).
Proof.
  unfold triggered_segments. destruct has_processors eqn:Ehas.
  2:{ intros [= <- <- <-] Hfs. cbn. rewrite Hfs. eexists. split; [done|]. split; [done|]. by left. }
  rewrite <- Ehas. clear Ehas. destruct x as [wakes a]. cbn [triggered_loop].
  destruct (wait_live _ _ _ _) as [[[] b1]|]; [| | |done]; intros [= <- <- <-] Hfs.
  - by apply mem_segment.
  - cbn. rewrite Hfs. eexists. split; [done|]. split; [done|]. right. split; [by eexists|done].
  - cbn. rewrite Hfs. eexists. split; [done|]. split; [done|]. right. split; [by eexists|done].
Qed.

Lemma mem_take ws c :
  ∃ c', (∃ t, fs_take (Some ws) (FsMem c) = ([TakenMem t], FsMem c') ∧
              length (slots c) = S (length (slots c'))) ∨
        (fs_take (Some ws) (FsMem c) = ([], FsMem c') ∧ slots c' = slots c).
Proof.
  unfold fs_take, take_files_inner. destruct (take_swap c) as [[now peak] c0] eqn:E0.
  assert (slots c0 = slots c) as Hs0 by (unfold take_swap in E0; by injection E0 as _ _ <-).
  rewrite <- Hs0. unfold take_pop. fold (slots c0).
  pose proof (remove_first_spec (λ s, existsb (λ w, overlaps w (MemSealedSegment.epoch_secs s)
    (MemSealedSegment.seal_secs s)) ws) (slots c0)) as H.
  destruct (remove_first _ (slots c0)) as [[s segs]|].
  - destruct H as (l & r & El & -> & _). eexists. left. eexists. split; [done|]. rewrite El.
    cbn. rewrite !length_app. cbn. lia.
  - eexists. right. done.
Qed.
End memory.

Lemma disk_take ws d :
  regular (FsDisk d) →
  ∃ taken d', fs_take ws (FsDisk d) = (taken, FsDisk d') ∧ DiskFs.stem d' = DiskFs.stem d ∧
    on_disk d' = on_disk d ∧ Forall (named d') taken ∧
    map taken_index taken = map snd (unclaimed d) ∧ ∀ j, ¬ open_at d' j.
Proof.
  intros Hr. unfold fs_take. destruct (disk_take_files d) as [tk d'] eqn:E.
  eexists _, d'. split; [done|].
  assert (DiskFs.stem d' = DiskFs.stem d ∧ DiskFs.entries d' = DiskFs.entries d ∧
    DiskTaken.segments tk = unclaimed d) as (Es & Ee & Et)
    by (unfold disk_take_files in E; by injection E as <- <-).
  assert (on_disk d' = on_disk d) as Eo by by apply on_disk_same.
  rewrite Et. split_and!; [done|done| | |].
  - apply list.Forall_forall. intros t ([n i] & -> & Hin)%list_elem_of_fmap. cbn.
    apply list_elem_of_filter in Hin as [_ Hin]. rewrite Es. split; [by apply Hr|].
    by apply on_disk_elem in Hin as (_ & ? & _).
  - rewrite map_map. apply map_ext. by intros [].
  - intros j [Hj Hc]. rewrite Eo in Hj. apply take_claims in Hj. rewrite E in Hj. cbn in Hj.
    rewrite Hc in Hj. by destruct Hj.
Qed.

(** ** Progress of a drain *)

Section progress.
Variable id_text : Z → bytes.
Variable has_processors : bool.

(** Every wait of a pass comes to its end, and the backlog does not grow. *)
Definition ends (wakes : list Wake.t) : Prop :=
  Exists (λ w, is_Some (readiness has_processors w)) wakes.

Definition input_ok (i : PassInput.t) : Prop :=
  ends (PassInput.wait i) ∧ (∀ k, ends (fst (PassInput.segment i k))) ∧ calm (PassInput.meanwhile i).

Definition within (n : nat) (s : Loop.t) : Prop := regular (Loop.fs s) ∧ (backlog (Loop.fs s) <= n)%nat.

Definition due_dump (dumps : list ActiveDump.t) (b : Inbox.t) : Prop :=
  Exists (λ d, due (Inbox.now b) d = true) dumps.

Lemma min_deadline_due dumps t b : min_deadline dumps = Some t → t <= Inbox.now b → due_dump dumps b.
Proof.
  unfold due_dump. revert t. induction dumps as [|d dumps IH]; intros t; [done|].
  cbn [min_deadline foldr]. fold (min_deadline dumps).
  destruct (ActiveDump.deadline d) as [x|] eqn:E.
  - destruct (min_deadline dumps) as [y|]; intros [= <-] Hle.
    + destruct (Z.leb_spec x (Inbox.now b)) as [Hx|Hx].
      * left. unfold due. rewrite E. by apply Z.leb_le.
      * right. apply (IH y); [done|lia].
    + left. unfold due. rewrite E. by apply Z.leb_le.
  - intros _ _. left. unfold due. by rewrite E.
Qed.

Lemma segment_interruption a t p :
  PassStats.interruption (Pass.stats (process_segment id_text a t p))
  = PassStats.interruption (Pass.stats p).
Proof.
  unfold process_segment. destruct (_ && cached_outside _ _); [done|].
  destruct (load _ _); [|done]. set (ep := epochs_of _ _ _). set (m := matching _ _ _).
  destruct (_ && _); [by destruct t|]. destruct (run_stages _ _ _ _) as [[o t'] fs].
  destruct o as [|kind|msg]; cbn [settle]; [done| |done]. destruct (already_deleted kind); [done|].
  destruct (retryable kind); [|done]. unfold settle_retryable. destruct t' as [n i|sl]; [done|].
  by destruct (_ <? _).
Qed.

Lemma segments_return l p b :
  Forall (λ x, ends (fst (snd x))) l → PassStats.interruption (Pass.stats p) = None →
  ∃ tried q b', triggered_segments id_text has_processors l p b = Some (tried, q, b') ∧
    (PassStats.interruption (Pass.stats q) = Some Deadline → due_dump (Pass.dumps q) b').
Proof.
  unfold triggered_segments. destruct has_processors eqn:Ehas.
  2:{ intros _ Hp. eexists _, _, _. split; [done|]. cbn. by rewrite Hp. }
  unfold ends. rewrite <- Ehas. clear Ehas. intros H. revert p b.
  induction H as [|[t [wakes a]] l Hx _ IH]; intros p b Hp; cbn [triggered_loop].
  { eexists _, _, _. split; [done|]. by rewrite Hp. }
  destruct (wait_completes has_processors (min_deadline (Pass.dumps p)) wakes b Hx) as (r & b1 & E).
  rewrite E. apply wait_later in E as [_ Hdl]. destruct r.
  - set (a1 := Attempt.mk Live _ _ _).
    destruct (IH (process_segment id_text a1 t p) b1) as (tried & q & b2 & -> & Hq);
      [by rewrite segment_interruption|]. by eexists _, _, _.
  - eexists _, _, _. split; [done|]. intros _. destruct (Hdl eq_refl) as (x & Ex & Hle).
    by eapply min_deadline_due.
  - eexists _, _, _. split; [done|]. done.
Qed.

Lemma imap_keys (f : nat → list Wake.t * Attempt.t) (taken : list Taken) :
  map fst (imap (λ k t, (t, f k)) taken) = taken ∧
  map (taken_index ∘ fst) (imap (λ k t, (t, f k)) taken) = map taken_index taken.
Proof.
  revert f. induction taken as [|t taken IH]; intros f; [done|].
  destruct (IH (f ∘ S)) as [H1 H2]. cbn [imap map]. unfold compose in *. cbn [fst].
  by rewrite H1, H2.
Qed.

(** A pass over either backend: what is left to dispense does not grow, and it
    shrinks when something was done. *)
Lemma backend_pass ws fs taken fs' cache dumps b tried q b' (f : nat → list Wake.t * Attempt.t) :
  regular fs → fs_take (Some ws) fs = (taken, fs') →
  triggered_segments id_text has_processors (imap (λ k t, (t, f k)) taken)
    (Pass.mk fs' cache dumps stats_default) b = Some (tried, q, b') →
  regular (Pass.fs q) ∧ (backlog (Pass.fs q) <= backlog fs)%nat ∧
  (PassStats.matched_done (Pass.stats q) ≠ 0 → (backlog (Pass.fs q) < backlog fs)%nat).
Proof.
  intros Hr Ht E. destruct fs as [d|c].
  - destruct (disk_take (Some ws) d Hr) as (tk & d1 & E1 & Es & Eo & Hn & Hidx & Hclosed).
    rewrite Ht in E1. injection E1 as -> ->. destruct (imap_keys f tk) as [K1 K2].
    eapply disk_pass in E as (d' & -> & Es' & Hs' & Ho' & _ & Hdone'); [|done| | |].
    2:{ eapply regular_sub; [done| |exact Hr]. by rewrite Eo. }
    2:{ by rewrite K1. }
    2:{ rewrite K2, Hidx. by apply regular_nodup. }
    rewrite K2, Hidx in Ho', Hdone'.
    assert (regular (FsDisk d')) as Hr'.
    { eapply regular_sub; [|intros x Hx; rewrite <- Eo; by apply Hs'|exact Hr]. congruence. }
    assert (∀ j, open_at d' j → open_at d j) as Hsub.
    { intros j [?|Hin]%Ho'; [by destruct (Hclosed j)|]. by apply unclaimed_open. }
    destruct (open_backlog d d' Hr Hr' Hsub) as [Hle Hlt]. split_and!; [done..|].
    intros Hne. destruct Hdone' as [?|(j & Hj & Hopen)]; [done|].
    apply (Hlt j); [by apply unclaimed_open|]. intros H. by destruct (Hclosed j (Hopen H)).
  - destruct (mem_take ws c) as (c1 & [(t & E1 & Hlen)|[E1 Hs]]); rewrite Ht in E1; injection E1 as -> ->.
    + cbn [imap] in E. eapply mem_pass in E as (c' & -> & _ & H); [|done]. split; [done|].
      cbn [backlog]. rewrite Hlen. destruct H as [->|[[s ->] H]]; cbn [length]; [lia|].
      split; [lia|]. intros Hne. by destruct Hne.
    + unfold triggered_segments in E. cbn [imap triggered_loop foldl] in E.
      assert (Pass.fs q = FsMem c1 ∧ PassStats.matched_done (Pass.stats q) = 0) as [-> ->]
        by (destruct has_processors; by injection E as <- <- <-).
      split; [done|]. cbn [backlog]. rewrite Hs. split; [lia|done].
Qed.

Lemma pass_progress n i s :
  input_ok i → within n s →
  ∃ r s', drain_pass id_text has_processors i s = Some (r, s') ∧ within n s' ∧
    (r = None → (backlog (Loop.fs s') < n)%nat) ∧
    (DrainResult.interruption <$> r = Some (Some Deadline) → due_dump (Loop.dumps s') (Loop.inbox s')).
Proof.
  intros (Hw & Hsegs & Hcalm) [Hr Hb]. unfold drain_pass.
  destruct (wait_completes has_processors (min_deadline (Loop.dumps s)) _ (Loop.inbox s) Hw)
    as (w & b1 & E). rewrite E. apply wait_later in E as [_ Hdl]. destruct w.
  - destruct (Hcalm _ Hr) as [Hr0 Hb0]. destruct (fs_take _ _) as [taken fs'] eqn:Et.
    set (cache := prune _ _).
    assert (Forall (λ x, ends (fst (snd x))) (imap (λ k t, (t, PassInput.segment i k)) taken)) as Hends.
    { apply list.Forall_forall. intros x Hx. apply list_elem_of_lookup in Hx as [k Hx].
      rewrite list_lookup_imap in Hx. destruct (taken !! k); [|done]. injection Hx as <-. apply Hsegs. }
    destruct (segments_return _ (Pass.mk fs' cache (Loop.dumps s) stats_default) b1 Hends eq_refl)
      as (tried & q & b2 & E & Hq).
    destruct (backend_pass _ _ _ _ _ _ _ _ _ _ _ Hr0 Et E) as (Hrq & Hle & Hlt).
    destruct taken as [|t taken].
    + eexists _, _. split; [done|]. cbn [Loop.fs]. unfold triggered_segments in E. cbn in E.
      assert (Pass.fs q = fs') as <- by (destruct has_processors; by injection E as <- <- <-).
      split; [split; [done|cbn; lia]|]. by split.
    + rewrite E. destruct (PassStats.interruption (Pass.stats q)) as [r|] eqn:Ei.
      { eexists _, _. split; [done|]. split; [split; [done|cbn; lia]|]. split; [done|].
        cbn. intros [= ->]. by apply Hq. }
      destruct (negb _); [eexists _, _; split; [done|]; split; [split; [done|cbn; lia]|by split]|].
      destruct (Z.eqb_spec (PassStats.matched_done (Pass.stats q)) 0) as [?|Hne];
        (eexists _, _; split; [done|]; split; [split; [done|cbn; lia]|]); [by split|].
      split; [|done]. intros _. specialize (Hlt Hne). cbn. lia.
  - eexists _, _. split; [done|]. split; [by split|]. split; [done|]. intros _.
    destruct (Hdl eq_refl) as (x & Ex & Hle). by eapply min_deadline_due.
  - eexists _, _. split; [done|]. split; [by split|]. by split.
Qed.

Lemma drain_progress n passes s :
  Forall input_ok passes → within n s → (n < length passes)%nat →
  ∃ r s', drain_matching id_text has_processors passes s = Some (r, s') ∧ within n s' ∧
    (DrainResult.interruption r = Some Deadline → due_dump (Loop.dumps s') (Loop.inbox s')).
Proof.
  intros Hi. revert n s. induction Hi as [|i passes Hi _ IH]; intros n s Hn Hlen; [cbn in Hlen; lia|].
  cbn [drain_matching]. destruct (bool_decide _); [eexists _, _; by split_and!|].
  destruct (pass_progress n i s Hi Hn) as (r & s1 & -> & H1 & Hlt & Hd). destruct r as [r|].
  - eexists _, _. split; [done|]. split; [done|]. intros E. apply Hd. cbn. by rewrite E.
  - specialize (Hlt eq_refl). destruct H1 as [Hr1 _]. cbn [length] in Hlen.
    destruct (IH (backlog (Loop.fs s1)) s1) as (r & s2 & -> & [Hr2 H2] & Hd2);
      [by split|lia|]. eexists _, _. split; [done|]. split; [|done]. split; [done|lia].
Qed.
End progress.

(** ** The shutdown *)

Section shutdown.
Variable id_text : Z → bytes.
Variable has_processors : bool.

(** The inputs of a turn of a worker told to stop that are not cut short, for a
    backlog of at most [n]. *)
Definition stop_turn (n : nat) (i : TurnInput.t) : Prop :=
  TurnInput.stop i = true ∧
  Forall (input_ok has_processors) (TurnInput.passes i) ∧ (n < length (TurnInput.passes i))%nat ∧
  Forall (input_ok has_processors) (TurnInput.final_passes i) ∧
  (n < length (TurnInput.final_passes i))%nat.

Lemma read_by_length log dumps dumps' : read_by log dumps dumps' → length dumps' = length dumps.
Proof. intros H%read_by_ids%(f_equal length). by rewrite !length_map in H. Qed.

(** Serving the dumps returns; it only starts over after an answer. *)
Lemma serve_progress n i s :
  loop_accounts False s → within n s → stop_turn n i →
  ∃ again s', serve_dumps id_text has_processors i s = Some (again, s') ∧
    loop_accounts False s' ∧ within n s' ∧
    (again = true → (length (Loop.dumps s') < length (Loop.dumps s))%nat).
Proof.
  intros H Hn (_ & Hi & Hlen & _). unfold serve_dumps. destruct (bool_decide _) eqn:En.
  { eexists _, _. split; [done|]. by split_and!. }
  destruct (drain_progress id_text has_processors n _ s Hi Hn Hlen) as (r & s1 & E & Hn1 & Hdue).
  rewrite E. apply drain_works in E. pose proof (worked_accounts _ _ _ E H) as H1.
  destruct (worked_reports _ _ E) as (log & _ & Hread). apply read_by_length in Hread.
  apply (gap_accounts _ _ (TurnInput.pause i)) in H1. set (s2 := Loop.set_inbox s1 _) in *.
  assert (within n s2) as Hn2 by exact Hn1.
  assert (∀ hold, ∃ s', resolve_where (finished_dump (Inbox.now (Loop.inbox s2))
      (take_is_exhaustive (Loop.fs s2)) hold) id (TurnInput.resolution i) s2 = Some s' ∧
      loop_accounts False s' ∧ within n s') as Hf.
  { intros hold. edestruct (resolve_where_accounts False (finished_dump (Inbox.now (Loop.inbox s2))
      (take_is_exhaustive (Loop.fs s2)) hold) id (TurnInput.resolution i) s2 H1)
      as (s' & out & E' & H' & _ & _ & _ & Ef & _); [|by left|].
    { intros d Hd. unfold finished_dump in Hd. by bool_facts. }
    exists s'. split; [done|]. split; [done|]. unfold within. by rewrite Ef. }
  destruct (DrainResult.interruption r) as [[]|] eqn:Er.
  2:{ edestruct (resolve_where_accounts False (due (Inbox.now (Loop.inbox s2)))
        mark_pipeline_unavailable (TurnInput.resolution i) s2 H1)
        as (s' & out & -> & H' & Hp & _ & Hk & Ef & _); [done|by right|].
      eexists _, _. split; [done|]. split; [done|]. split; [unfold within; by rewrite Ef|]. intros _.
      change (Loop.dumps s2) with (Loop.dumps s1) in Hp. rewrite <- Hread.
      destruct out as [|d out]; [|apply Permutation_length in Hp; cbn in Hp;
                                  rewrite length_app in Hp; lia].
      exfalso. specialize (Hdue eq_refl). apply list.Exists_exists in Hdue as (d & Hd & Hdd).
      rewrite list.Forall_forall in Hk. cbn [app] in Hp. rewrite <- Hp in Hd.
      specialize (Hk d Hd). rewrite (due_later (Inbox.now (Loop.inbox s1))) in Hk; [done| |done].
      apply (later_now rejected), pass_time_later. }
  all: edestruct Hf as (s' & -> & H' & Hn'); eexists _, _; split; [done|]; by split_and!.
Qed.

End shutdown.

(** C7: A drain ends, over either backend: when every wait comes to its end and
    nothing is added to the backlog meanwhile, more passes than there are
    segments to dispense are enough, whatever the stages do. *)
Theorem drain_terminates id_text has_processors passes s :
  regular (Loop.fs s) → Forall (input_ok has_processors) passes →
  (backlog (Loop.fs s) < length passes)%nat →
  ∃ r s', drain_matching id_text has_processors passes s = Some (r, s') ∧
          (backlog (Loop.fs s') <= backlog (Loop.fs s))%nat.
Proof.
  intros Hr Hi Hlen.
  destruct (drain_progress id_text has_processors (backlog (Loop.fs s)) passes s Hi) as (r & s' & E & [_ Hle] & _);
    [by split|done|]. by exists r, s'.
Qed.

(** ** The example directory *)

Lemma example_regular : regular (Pass.fs example_pass).
Proof.
  assert (Forall (λ x, fst x = sealed_name (lit "trace") (snd x))
    (on_disk (disk_new (lit "/t") (lit "trace")
      {[ sealed_name (lit "trace") 1 := File (lit "a");
         sealed_name (lit "trace") 2 := File (lit "b");
         sealed_name (lit "trace") 3 := File (lit "c") ]}))) as H
    by (apply (bool_decide_unpack _); by vm_compute).
  intros name i Hin. rewrite list.Forall_forall in H. exact (H (name, i) Hin).
Qed.

Lemma example_input_ok : input_ok true example_input.
Proof.
  assert (ends true live_wake) as H by (left; by eexists).
  split; [exact H|]. split; [by intros k|]. by intros fs Hr.
Qed.

Definition many_inputs : list PassInput.t := repeat example_input 4.

Lemma many_inputs_ok : Forall (input_ok true) many_inputs.
Proof. repeat (apply list.Forall_cons; split; [apply example_input_ok|]). constructor. Qed.

Definition stopping_turn : TurnInput.t :=
  TurnInput.mk many_inputs no_gap (λ _, Resolution.mk [] 5 no_gap) true many_inputs no_gap no_gap
    Cancelled.

Example drain_terminates_witness :
  ∃ r s', drain_matching put_dec true many_inputs
      (Loop.set_dumps (loop_start (Pass.fs example_pass) 0 None) [register example_request 0 0])
    = Some (r, s') ∧ (backlog (Loop.fs s') <= 3)%nat.
Proof.
  apply (drain_terminates put_dec true many_inputs
    (Loop.set_dumps (loop_start (Pass.fs example_pass) 0 None) [register example_request 0 0])).
  - exact example_regular.
  - exact many_inputs_ok.
  - vm_compute. lia.
Defined.

