(* ===== verification/Lifecycle.v ===== *)
(** * The life of the worker thread (run_background_task_inner and spawn of
    dial9-core/src/worker/mod.rs, dial9-core/src/worker/state.rs)

    From the thread's first instruction to its last: the hook, the processors'
    [initialize], the run loop, the shutdown signal and the drain timeout, with
    every panic; and the status any handle reads meanwhile.  The worker's
    atomic actions and those of a reader and of other threads interleave freely
    ([event]); the run loop itself is [Worker] and [Triggered]. *)

From Stdlib Require Import ZArith Lia.
From stdpp Require Import base list gmap strings option sorting.
From coqutil Require Import Byte.
From S2P Require Import Prelude.
From S2P Require Import FlushLoop.

(** ** The published state (worker/state.rs, pipeline.rs) *)

Definition NOT_STARTED : Z := 2 ^ 64 - 1 - 2.
Definition RUNNING : Z := 2 ^ 64 - 1 - 1.
Definition STOPPED : Z := 2 ^ 64 - 1.

(** A processor is its name. *)
Inductive StopCause : Type :=
| Exited
| InitializeFailed (processor : bytes)
| Panicked
| DrainTimedOut.

Inductive PipelineStatus : Type :=
| Disconnected
| NotConfigured
| Initializing (processors : list bytes) (processor : option bytes)
| Running (processors : list bytes)
| StoppedBy (processors : list bytes) (cause : StopCause).

Module PipelineState.
Record t : Type := mk { processors : list bytes; phase : Z; cause : option StopCause }.

Definition new (processors : list bytes) : t := mk processors NOT_STARTED None.
Definition set_phase (s : t) (p : Z) : t := mk (processors s) p (cause s).
End PipelineState.

Definition set_initializing (i : nat) (s : PipelineState.t) : PipelineState.t :=
  PipelineState.set_phase s (Z.of_nat i).
Definition set_running (s : PipelineState.t) : PipelineState.t := PipelineState.set_phase s RUNNING.

(** The second half of [status], for the phase that was loaded; [None]: its
    [expect] panics. *)
Definition status_of (phase : Z) (s : PipelineState.t) : option PipelineStatus :=
  let processors := PipelineState.processors s in
  if phase =? STOPPED then StoppedBy processors <$> PipelineState.cause s
  else if phase =? RUNNING then Some (Running processors)
  else Some (Initializing processors
               (if phase <? blen processors then processors !! Z.to_nat phase else None)).

(** [pipeline_status] of a handle: without a recorder, without a worker. *)
Definition pipeline_status (inner : option (option PipelineState.t)) : option PipelineStatus :=
  match inner with
  | None => Some Disconnected
  | Some None => Some NotConfigured
  | Some (Some s) => status_of (PipelineState.phase s) s
  end.

(** The guard: the first cause recorded wins. *)
Definition record (c : StopCause) (s : PipelineState.t) : PipelineState.t :=
  PipelineState.mk (PipelineState.processors s) (PipelineState.phase s)
    (Some (default c (PipelineState.cause s))).

(** [None]: its [expect] panics. *)
Definition record_initialize_failed (s : PipelineState.t) : option PipelineState.t :=
  let phase := PipelineState.phase s in
  match (if phase <? blen (PipelineState.processors s)
         then PipelineState.processors s !! Z.to_nat phase else None) with
  | Some p => Some (record (InitializeFailed p) s)
  | None => None
  end.

(** ** Errors of a processor's [initialize] *)

(** An error as far as its causes go: the marker, an [io::Error] with what it
    wraps, or another one with its source. *)
Inductive error : Type :=
| DisableRecording (source : error)
| IoError (payload : option error)
| OtherError (source : option error).

Fixpoint disables_recording (e : error) : bool :=
  match e with
  | DisableRecording _ => true
  | IoError (Some e) | OtherError (Some e) => disables_recording e
  | IoError None | OtherError None => false
  end.

(** What [new_reporting] makes of the [io::Error] a processor gives. *)
Definition initialization_error (e : error) : error := IoError (Some (OtherError (Some e))).

(** ** The thread *)

(** [Dropping n recorded]: leaving, with [n] stop guards still to drop, the
    first of which has recorded its cause or not. *)
Inductive place : Set :=
| Starting
| Initialize (i : nat)
| Working
| Dropping (guards : nat) (recorded : bool)
| Gone.

(** [loaded]: a reader between its two reads; [readings]: what was read. *)
Module Thread.
Record t : Type := mk {
  state : PipelineState.t;
  pc : place;
  draining : bool;
  recording : State;
  loaded : option Z;
  readings : list (Z * option PipelineStatus) }.

Definition go (x : t) (s : PipelineState.t) (p : place) : t :=
  mk s p (draining x) (recording x) (loaded x) (readings x).
Definition set_recording (x : t) (r : State) : t :=
  mk (state x) (pc x) (draining x) r (loaded x) (readings x).
End Thread.

(** What can happen next: on the worker thread, to its future, to a reader, and
    to the recording. *)
Inductive event : Type :=
| HookPanics
| Setup
| SetupPanics
| InitOk
| InitFails (e : error)
| FuturePanics
| LoopReturns
| Shutdown
| DrainTimeout
| DropRecords
| DropPublishes
| Teardown
| ReadPhase
| ReadCause
| UserEnables
| UserDisables
| RecorderStops.

(** The next processor, or the loop. *)
Definition initialize_from (i : nat) (x : Thread.t) : Thread.t :=
  let s := Thread.state x in
  if Z.of_nat i <? blen (PipelineState.processors s)
  then Thread.go x (set_initializing i s) (Initialize i)
  else Thread.go x (set_running s) Working.

Definition leave (c : StopCause) (x : Thread.t) : Thread.t :=
  Thread.go x (record c (Thread.state x)) (Dropping 2 false).

(** One event, when it is enabled. *)
Definition happen (x : Thread.t) (e : event) : option Thread.t :=
  let s := Thread.state x in
  match e, Thread.pc x with
  | HookPanics, Starting => Some (Thread.go x s (Dropping 1 false))
  | Setup, Starting => Some (initialize_from 0 x)
  | SetupPanics, Starting => Some (Thread.go x s (Dropping 2 false))
  | InitOk, Initialize i => Some (initialize_from (S i) x)
  | InitFails e, Initialize i =>
      let x := if disables_recording (initialization_error e)
               then Thread.set_recording x (disable_permanently (Thread.recording x)) else x in
      Some (match record_initialize_failed s with
            | Some s => Thread.go x s (Dropping 2 false)
            | None => Thread.go x s (Dropping 2 false)
            end)
  | FuturePanics, (Initialize _ | Working) => Some (leave Panicked x)
  | LoopReturns, Working => Some (leave Exited x)
  | Shutdown, (Initialize _ | Working) =>
      if Thread.draining x then None
      else Some (Thread.mk s (Thread.pc x) true (Thread.recording x) (Thread.loaded x) (Thread.readings x))
  | DrainTimeout, (Initialize _ | Working) =>
      if Thread.draining x then Some (leave DrainTimedOut x) else None
  | DropRecords, Dropping (S n) false => Some (Thread.go x (record Panicked s) (Dropping (S n) true))
  | DropPublishes, Dropping (S n) true =>
      Some (Thread.go x (PipelineState.set_phase s STOPPED) (Dropping n false))
  | Teardown, Dropping 0 false => Some (Thread.go x s Gone)
  | ReadPhase, _ =>
      Some (Thread.mk s (Thread.pc x) (Thread.draining x) (Thread.recording x)
              (Some (PipelineState.phase s)) (Thread.readings x))
  | ReadCause, _ =>
      match Thread.loaded x with
      | Some phase =>
          Some (Thread.mk s (Thread.pc x) (Thread.draining x) (Thread.recording x) None
                  (Thread.readings x ++ [(phase, status_of phase s)]))
      | None => None
      end
  | UserEnables, _ => Some (Thread.set_recording x (enable (Thread.recording x)))
  | UserDisables, _ => Some (Thread.set_recording x (disable (Thread.recording x)))
  | RecorderStops, _ => Some (Thread.set_recording x (mark_stopped (Thread.recording x)))
  | _, _ => None
  end.

Definition thread_start (processors : list bytes) (recording : State) : Thread.t :=
  Thread.mk (PipelineState.new processors) Starting false recording None [].

Fixpoint history (x : Thread.t) (evs : list event) : option Thread.t :=
  match evs with
  | [] => Some x
  | e :: evs => match happen x e with Some x => history x evs | None => None end
  end.

(** ** Why it stopped *)

(** The end an event puts to the worker's work. *)
Definition ends_by (x : Thread.t) (e : event) : option StopCause :=
  match e, Thread.pc x with
  | HookPanics, Starting | SetupPanics, Starting => Some Panicked
  | InitFails _, Initialize i => InitializeFailed <$> PipelineState.processors (Thread.state x) !! i
  | FuturePanics, (Initialize _ | Working) => Some Panicked
  | LoopReturns, Working => Some Exited
  | DrainTimeout, (Initialize _ | Working) => Some DrainTimedOut
  | _, _ => None
  end.

Fixpoint ended (x : Thread.t) (evs : list event) : option StopCause :=
  match evs with
  | [] => None
  | e :: evs =>
      match ends_by x e with
      | Some c => Some c
      | None => match happen x e with Some x => ended x evs | None => None end
      end
  end.

(** The order of the phases: not started, the processors, running, stopped. *)
Definition rank (phase : Z) : Z := if phase =? NOT_STARTED then -1 else phase.

(** A reading, given the end of the work so far. *)
Definition reading_ok (ps : list bytes) (c : option StopCause) (r : Z * option PipelineStatus) : Prop :=
  match snd r with
  | None | Some Disconnected | Some NotConfigured => False
  | Some (Initializing l None) => l = ps ∧ rank (fst r) = -1
  | Some (Initializing l (Some p)) => l = ps ∧ ps !! Z.to_nat (rank (fst r)) = Some p
  | Some (Running l) => l = ps ∧ rank (fst r) = RUNNING
  | Some (StoppedBy l cause) => l = ps ∧ rank (fst r) = STOPPED ∧ c = Some cause
  end.

Definition at_pc (ps : list bytes) (c : option StopCause) (x : Thread.t) : Prop :=
  let s := Thread.state x in
  match Thread.pc x with
  | Starting => PipelineState.phase s = NOT_STARTED ∧ PipelineState.cause s = None ∧ c = None
  | Initialize i =>
      PipelineState.phase s = Z.of_nat i ∧ (i < length ps)%nat ∧ PipelineState.cause s = None ∧ c = None
  | Working => PipelineState.phase s = RUNNING ∧ PipelineState.cause s = None ∧ c = None
  | Dropping n recorded =>
      ∃ k, c = Some k ∧
        (PipelineState.cause s = Some k ∨ PipelineState.cause s = None ∧ k = Panicked) ∧
        (recorded = true ∨ n = 0%nat → PipelineState.cause s = Some k) ∧
        (PipelineState.phase s = STOPPED → PipelineState.cause s = Some k) ∧
        (n = 0%nat → PipelineState.phase s = STOPPED)
  | Gone => ∃ k, c = Some k ∧ PipelineState.cause s = Some k ∧ PipelineState.phase s = STOPPED
  end.

(** A phase that was stored is one of the values a phase has. *)
Definition phase_ok (ps : list bytes) (p : Z) : Prop :=
  p = NOT_STARTED ∨ (0 <= p < blen ps) ∨ p = RUNNING ∨ p = STOPPED.

Record alive (ps : list bytes) (c : option StopCause) (x : Thread.t) : Prop := {
  alive_ps : PipelineState.processors (Thread.state x) = ps;
  alive_pc : at_pc ps c x;
  alive_phase : phase_ok ps (PipelineState.phase (Thread.state x));
  alive_loaded : ∀ p, Thread.loaded x = Some p → phase_ok ps p ∧
    rank p <= rank (PipelineState.phase (Thread.state x)) ∧
    (p = STOPPED → is_Some c ∧ PipelineState.cause (Thread.state x) = c);
  alive_readings : Forall (reading_ok ps c) (Thread.readings x);
  alive_order : StronglySorted Z.le
    (map (rank ∘ fst) (Thread.readings x) ++ option_list (rank <$> Thread.loaded x));
  alive_bound : Forall (λ r, rank (fst r) <= rank (PipelineState.phase (Thread.state x)))
    (Thread.readings x) }.

Section thread.
Variable ps : list bytes.
Hypothesis few : blen ps <= NOT_STARTED.

Lemma reading_ok_mono c c' r :
  (c = None ∨ c' = c) → reading_ok ps c r → reading_ok ps c' r.
Proof.
  intros Hc. unfold reading_ok. destruct (snd r) as [[| |l [p|]|l|l k]|]; try done.
  intros (? & ? & ->). destruct Hc as [?|?]; [done|by subst].
Qed.

Lemma status_reading c x p :
  alive ps c x → Thread.loaded x = Some p →
  reading_ok ps c (p, status_of p (Thread.state x)).
Proof.
  intros [Hps _ _ Hl _ _ _] E. destruct (Hl p E) as (Hok & _ & Hst). unfold reading_ok, status_of, rank.
  cbn [fst snd]. rewrite Hps. unfold phase_ok in Hok. pose proof (blen_nonneg ps).
  unfold NOT_STARTED, RUNNING, STOPPED in *.
  destruct (Z.eqb_spec p (2 ^ 64 - 1)) as [->|H1].
  { destruct (Hst eq_refl) as [[k ->] ->]. cbn. split_and!; done. }
  destruct (Z.eqb_spec p (2 ^ 64 - 1 - 1)) as [->|H2]; [done|].
  destruct (Z.ltb_spec p (blen ps)) as [H3|H3].
  - assert (0 <= p) by lia. destruct (ps !! Z.to_nat p) as [q|] eqn:Eq.
    + split; [done|]. destruct (Z.eqb_spec p (2 ^ 64 - 1 - 2)); [lia|done].
    + exfalso. apply lookup_ge_None in Eq. unfold blen in *. lia.
  - split; [done|]. destruct (Z.eqb_spec p (2 ^ 64 - 1 - 2)); [done|lia].
Qed.

(** The worker's own step: phases go forward, and a recorded end stays. *)
Lemma go_alive c c' x s' p' :
  alive ps c x → (c = None ∨ c' = c) →
  PipelineState.processors s' = ps →
  rank (PipelineState.phase (Thread.state x)) <= rank (PipelineState.phase s') →
  phase_ok ps (PipelineState.phase s') →
  (is_Some c → PipelineState.cause (Thread.state x) = c → PipelineState.cause s' = c') →
  at_pc ps c' (Thread.go x s' p') → alive ps c' (Thread.go x s' p').
Proof.
  intros [Hps Hpc Hph Hl Hr Ho Hb] Hc Hps' Hrank Hph' Hcause Hpc'. split; try done.
  - intros p Ep. destruct (Hl p Ep) as (H1 & H2 & H3). split; [done|]. split; [cbn; lia|].
    intros ->. destruct (H3 eq_refl) as [H4 H5]. destruct Hc as [->| ->]; [by destruct H4|].
    split; [done|]. by apply Hcause.
  - eapply list.Forall_impl; [exact Hr|]. intros r. by apply reading_ok_mono.
  - eapply list.Forall_impl; [exact Hb|]. cbn. lia.
Qed.

(** What changes neither the published state nor the readings. *)
Lemma alive_same c x x' :
  Thread.state x' = Thread.state x → Thread.pc x' = Thread.pc x → Thread.loaded x' = Thread.loaded x →
  Thread.readings x' = Thread.readings x → alive ps c x → alive ps c x'.
Proof.
  intros E1 E2 E3 E4 [? Hpc ? ? ? ? ?].
  split; unfold at_pc in *; rewrite ?E1, ?E2, ?E3, ?E4 in *; done.
Qed.

Lemma initialize_alive i x :
  alive ps None x → (i <= length ps)%nat → rank (PipelineState.phase (Thread.state x)) < Z.of_nat i →
  PipelineState.cause (Thread.state x) = None →
  alive ps None (initialize_from i x).
Proof.
  intros H Hi Hrank Hcause. unfold initialize_from. rewrite (alive_ps _ _ _ H).
  unfold rank, NOT_STARTED, RUNNING in *. pose proof (blen_nonneg ps).
  destruct (Z.ltb_spec (Z.of_nat i) (blen ps)) as [Hlt|Hge].
  - apply (go_alive None); cbn; try done; [by left|by apply (alive_ps _ _ _ H)| | |].
    + unfold rank, NOT_STARTED. destruct (Z.eqb_spec (Z.of_nat i) (2 ^ 64 - 1 - 2)); [lia|lia].
    + right. left. lia.
    + split_and!; try done. unfold blen in *. lia.
  - apply (go_alive None); cbn; try done; [by left|by apply (alive_ps _ _ _ H)| |by right; right; left].
    unfold rank, RUNNING, NOT_STARTED. unfold blen in *.
    destruct (Z.eqb_spec (2 ^ 64 - 1 - 1) (2 ^ 64 - 1 - 2)); lia.
Qed.

(** Leaving with a cause that is recorded, or by a panic past the guard. *)
Lemma leave_alive c x s' n :
  alive ps None x → PipelineState.cause (Thread.state x) = None →
  PipelineState.phase (Thread.state x) ≠ STOPPED →
  PipelineState.processors s' = ps → PipelineState.phase s' = PipelineState.phase (Thread.state x) →
  PipelineState.cause s' = Some c ∨ PipelineState.cause s' = None ∧ c = Panicked →
  alive ps (Some c) (Thread.go x s' (Dropping (S n) false)).
Proof.
  intros H Hcause Hne Hps' Hphase Hc.
  apply (go_alive None); try done; [by left|by rewrite Hphase| |].
  - rewrite Hphase. apply (alive_phase _ _ _ H).
  - cbn. exists c. rewrite Hphase. split_and!; try done. by intros [|].
Qed.

Lemma drop_alive c x k :
  alive ps (Some c) x → PipelineState.processors (Thread.state x) = ps →
  PipelineState.cause (Thread.state x) = Some c →
  alive ps (Some c) (Thread.go x (PipelineState.set_phase (Thread.state x) STOPPED) (Dropping k false)).
Proof.
  intros H Hps Hc. apply (go_alive (Some c)); try done; [by right| |by right; right; right|by cbn; exists c; rewrite Hc; split_and!; try done; left].
  pose proof (alive_phase _ _ _ H) as Hok. unfold phase_ok, rank in *. cbn.
  unfold NOT_STARTED, RUNNING, STOPPED in *. change (2 ^ 64 - 1 =? 2 ^ 64 - 1 - 2) with false.
  destruct (_ =? _); lia.
Qed.

(** Before the end nothing is recorded nor published. *)
Lemma busy_alive c x :
  alive ps c x → match Thread.pc x with Starting | Initialize _ | Working => True | _ => False end →
  c = None ∧ PipelineState.cause (Thread.state x) = None ∧
  PipelineState.phase (Thread.state x) ≠ STOPPED.
Proof.
  intros H. pose proof (alive_pc _ _ _ H) as Hpc. unfold at_pc in Hpc.
  pose proof (blen_nonneg ps). unfold NOT_STARTED, RUNNING, STOPPED in *.
  destruct (Thread.pc x) as [|i| | |]; try done; intros _.
  - destruct Hpc as (-> & -> & ->). by split_and!.
  - destruct Hpc as (-> & Hi & -> & ->). split_and!; [done..|]. unfold blen in *. lia.
  - destruct Hpc as (-> & -> & ->). by split_and!.
Qed.

(** Any way the work ends. *)
Lemma end_alive c k x s' n :
  alive ps c x → match Thread.pc x with Starting | Initialize _ | Working => True | _ => False end →
  PipelineState.processors s' = ps → PipelineState.phase s' = PipelineState.phase (Thread.state x) →
  PipelineState.cause s' = Some k ∨ PipelineState.cause s' = None ∧ k = Panicked →
  alive ps (match c with Some _ => c | None => Some k end) (Thread.go x s' (Dropping (S n) false)).
Proof.
  intros H Hb Hp Hph Hc. destruct (busy_alive c x H Hb) as (-> & E & Hne). by apply leave_alive.
Qed.

Lemma reads_alive c x x' e :
  e = ReadPhase ∨ e = ReadCause → alive ps c x → happen x e = Some x' → alive ps c x'.
Proof.
  intros He H E. pose proof H as [Hps Hpc Hph Hl Hr Ho Hb].
  assert (Hcause : PipelineState.phase (Thread.state x) = STOPPED →
    is_Some c ∧ PipelineState.cause (Thread.state x) = c).
  { intros Est. unfold at_pc in Hpc. rewrite Est in Hpc. pose proof (blen_nonneg ps).
    unfold NOT_STARTED, RUNNING, STOPPED in *.
    destruct (Thread.pc x); [by destruct Hpc| |by destruct Hpc| |].
    - destruct Hpc as (Ei & Hi & _). unfold blen in *. lia.
    - destruct Hpc as (k & -> & _ & _ & H4 & _). rewrite H4 by done. by split.
    - destruct Hpc as (k & -> & -> & _). by split. }
  destruct He as [->| ->]; cbn [happen] in E.
  - injection E as <-. split; try done.
    + intros p [= <-]. split; [done|]. split; [cbn; lia|exact Hcause].
    + cbn. apply StronglySorted_app_1_l in Ho. apply StronglySorted_app. split_and!;
        [|exact Ho|repeat constructor].
      intros r1 r2 (r & -> & Hin)%list_elem_of_fmap ->%list_elem_of_singleton.
      rewrite list.Forall_forall in Hb. by apply Hb.
  - destruct (Thread.loaded x) as [p|] eqn:El; [|done]. injection E as <-.
    assert (reading_ok ps c (p, status_of p (Thread.state x))) as Hread
      by (by apply (status_reading c x)).
    split; try done; cbn.
    + apply list.Forall_app. split; [done|by constructor].
    + rewrite map_app, app_nil_r. exact Ho.
    + apply list.Forall_app. split; [done|]. constructor; [|constructor]. apply (Hl p eq_refl).
Qed.

Lemma alive_step c x e x' :
  alive ps c x → happen x e = Some x' →
  alive ps (match c with Some _ => c | None => ends_by x e end) x'.
Proof.
  intros H E. pose proof (alive_pc _ _ _ H) as Hpc. pose proof (alive_ps _ _ _ H) as Hps.
  pose proof (busy_alive c x H) as Hbusy. unfold at_pc in Hpc.
  assert (match c with Some _ => c | None => None end = c) as Hc by by destruct c.
  destruct e as [| | | |e| | | | | | | | | | | |]; cbn [happen] in E; unfold ends_by.
  - destruct (Thread.pc x) eqn:Epc; try done. injection E as <-.
    apply end_alive; try done; [by rewrite Epc|right; by destruct Hbusy as (_ & ? & _)].
  - destruct (Thread.pc x) eqn:Epc; try done. injection E as <-. destruct Hpc as (E1 & E2 & ->).
    apply initialize_alive; try done; [lia|]. by rewrite E1.
  - destruct (Thread.pc x) eqn:Epc; try done. injection E as <-.
    apply end_alive; try done; [by rewrite Epc|right; by destruct Hbusy as (_ & ? & _)].
  - destruct (Thread.pc x) as [|i| | |] eqn:Epc; try done. injection E as <-.
    destruct Hpc as (E1 & Hi & E2 & ->). apply initialize_alive; try done. rewrite E1.
    unfold rank, NOT_STARTED. destruct (_ =? _); lia.
  - destruct (Thread.pc x) as [|i| | |] eqn:Epc; try done. injection E as <-.
    destruct Hpc as (E1 & Hi & E2 & ->). rewrite Hps.
    assert (∃ p, ps !! i = Some p) as [p Ep] by (by apply lookup_lt_is_Some).
    unfold record_initialize_failed. rewrite E1, Hps, Nat2Z.id, Ep.
    rewrite (proj2 (Z.ltb_lt _ _)) by (unfold blen; lia).
    set (x1 := if disables_recording _ then _ else _).
    assert (alive ps None x1) as H1
      by (subst x1; destruct (disables_recording _); [by apply (alive_same None x)|done]).
    assert (Thread.state x1 = Thread.state x ∧ Thread.pc x1 = Initialize i) as [Es Ep1]
      by (subst x1; by destruct (disables_recording _)).
    cbn [fmap option_fmap option_map].
    apply (end_alive None); [done|by rewrite Ep1|done|by rewrite Es|left; cbn; by rewrite E2].
  - destruct (Thread.pc x) eqn:Epc; try done; injection E as <-;
      apply end_alive; try done; try (by rewrite Epc); left; destruct Hbusy as (_ & E2 & _);
      try done; cbn; by rewrite E2.
  - destruct (Thread.pc x) eqn:Epc; try done. injection E as <-.
    apply end_alive; try done; try (by rewrite Epc); left; destruct Hbusy as (_ & E2 & _);
      try done; cbn; by rewrite E2.
  - rewrite Hc. destruct (Thread.pc x) eqn:Epc; try done; destruct (Thread.draining x); try done;
      injection E as <-; by apply (alive_same c x).
  - destruct (Thread.pc x) eqn:Epc; try done; destruct (Thread.draining x); try done;
      injection E as <-; apply end_alive; try done; try (by rewrite Epc); left;
      destruct Hbusy as (_ & E2 & _); try done; cbn; by rewrite E2.
  - rewrite Hc. destruct (Thread.pc x) as [| | |[|n] []|]; try done. injection E as <-.
    destruct Hpc as (k & -> & Hcause & _ & Hst & _).
    apply (go_alive (Some k)); try done; [by right|apply (alive_phase _ _ _ H)| |].
    + intros _ Hk. cbn. by rewrite Hk.
    + assert (PipelineState.cause (record Panicked (Thread.state x)) = Some k) as Hk
        by (cbn; destruct Hcause as [->|[-> ->]]; done).
      cbn [at_pc Thread.go Thread.pc Thread.state]. exists k. rewrite Hk. by split_and!; [|left|..].
  - rewrite Hc. destruct (Thread.pc x) as [| | |[|n] []|]; try done. injection E as <-.
    destruct Hpc as (k & -> & _ & Hk & _). apply drop_alive; try done. apply Hk. by left.
  - rewrite Hc. destruct (Thread.pc x) as [| | |[|n] []|]; try done. injection E as <-.
    destruct Hpc as (k & -> & _ & Hk & _ & Hst).
    apply (go_alive (Some k)); try done; [by right|apply (alive_phase _ _ _ H)|].
    cbn. exists k. split_and!; [done|apply Hk; by right|by apply Hst].
  - rewrite Hc. apply (reads_alive c x x' ReadPhase); [by left|done..].
  - rewrite Hc. apply (reads_alive c x x' ReadCause); [by right|done..].
  - rewrite Hc. injection E as <-. by apply (alive_same c x).
  - rewrite Hc. injection E as <-. by apply (alive_same c x).
  - rewrite Hc. injection E as <-. by apply (alive_same c x).
Qed.
End thread.

Lemma history_alive ps c x evs x' :
  blen ps <= NOT_STARTED → alive ps c x → history x evs = Some x' →
  alive ps (match c with Some _ => c | None => ended x evs end) x'.
Proof.
  intros few. revert c x. induction evs as [|e evs IH]; intros c x H; cbn [history ended].
  { intros [= <-]. by destruct c. }
  destruct (happen x e) as [x1|] eqn:E; [|done].
  intros H1. pose proof (alive_step ps few c x e x1 H E) as H2. apply (IH _ _ H2) in H1.
  destruct c; [done|]. by destruct (ends_by x e).
Qed.

Lemma start_alive ps r : alive ps None (thread_start ps r).
Proof. split; try done; [by left|constructor..]. Qed.

(** ** Main properties *)

(** C8: The published status is always true: over every interleaving of the
    worker thread (hook, set-up, processors, loop, shutdown, drain timeout, any
    panic) with any reader, no read ever panics; the phases read never go
    back; a status that names a processor names the one being initialized; a
    reader sees [Stopped] only with the cause that ended the work, and once the
    thread is gone every reader sees that. *)
Theorem status_truthful ps r evs x :
  blen ps <= NOT_STARTED → history (thread_start ps r) evs = Some x →
  Forall (reading_ok ps (ended (thread_start ps r) evs)) (Thread.readings x) ∧
  StronglySorted Z.le (map (rank ∘ fst) (Thread.readings x)) ∧
  (Thread.pc x = Gone → ∃ c,
     ended (thread_start ps r) evs = Some c ∧
     pipeline_status (Some (Some (Thread.state x))) = Some (StoppedBy ps c)).
Proof.
  intros few E. eapply history_alive in E as [Hps Hpc _ _ Hr Ho _]; [|done|apply start_alive].
  split; [done|]. split; [by apply StronglySorted_app_1_l in Ho|]. intros Hgone.
  unfold at_pc in Hpc. rewrite Hgone in Hpc. destruct Hpc as (k & Ek & Ec & Eph). exists k.
  split; [done|]. cbn [pipeline_status]. unfold status_of. by rewrite Eph, Ec, Hps.
Qed.

(** What [disables_recording] finds under the wrapping of [new_reporting]. *)
Lemma marker_found e : disables_recording (initialization_error e) = disables_recording e.
Proof. done. Qed.

Lemma failed_for_good x evs x' :
  Thread.recording x = Failed ∨ Thread.recording x = Stopped → history x evs = Some x' →
  is_enabled (Thread.recording x') = false.
Proof.
  revert x. induction evs as [|e evs IH]; intros x Hx; cbn [history].
  { intros [= <-]. by destruct Hx as [->| ->]. }
  destruct (happen x e) as [x1|] eqn:E; [|done]. apply IH.
  assert (∀ f, f = enable ∨ f = disable ∨ f = disable_permanently ∨ f = mark_stopped →
    f (Thread.recording x) = Failed ∨ f (Thread.recording x) = Stopped) as Hf.
  { intros f [->|[->|[->| ->]]]; destruct Hx as [->| ->]; cbn; tauto. }
  assert (Thread.recording x1 = Thread.recording x ∨
    ∃ f, (f = enable ∨ f = disable ∨ f = disable_permanently ∨ f = mark_stopped) ∧
         Thread.recording x1 = f (Thread.recording x)) as [->|(f & Hf' & ->)]; [|done|by apply Hf].
  unfold happen, initialize_from in E.
  destruct e, (Thread.pc x) as [| | |[|] []|]; try discriminate E;
    try (destruct (Thread.draining x); try discriminate E);
    try (destruct (Thread.loaded x); try discriminate E);
    try destruct (_ <? _); try destruct (record_initialize_failed _);
    try destruct (disables_recording _); injection E as <-; try (by left);
    right; eexists; (split; [|reflexivity]); tauto.
Qed.

(** C9: A processor whose [initialize] fails with the marker for it turns the
    recording off for good, however deep the marker is wrapped: whatever the
    application and the recorder do afterwards, it is never on again. *)
Theorem recording_disabled_for_good ps r pre e post x :
  disables_recording e = true →
  history (thread_start ps r) (pre ++ InitFails e :: post) = Some x →
  is_enabled (Thread.recording x) = false.
Proof.
  intros He. generalize (thread_start ps r). induction pre as [|e' pre IH]; intros y; cbn [app history].
  - destruct (happen y (InitFails e)) as [y1|] eqn:E; [|done]. intros H.
    eapply failed_for_good; [|exact H]. cbn [happen] in E. destruct (Thread.pc y); try discriminate E.
    rewrite marker_found, He in E. injection E as <-.
    assert (disable_permanently (Thread.recording y) = Failed ∨
            disable_permanently (Thread.recording y) = Stopped) as H0
      by (destruct (Thread.recording y); cbn; tauto).
    by destruct (record_initialize_failed _).
  - destruct (happen y e'); [|done]. apply IH.
Qed.

(** Two processors, the second of which fails and disables the recording,
    while a handle reads the status between the worker's two last stores. *)
Definition failing_history : list event :=
  [ReadPhase; ReadCause; Setup; UserEnables; ReadPhase; InitOk; ReadCause; Shutdown;
   InitFails (IoError (Some (DisableRecording (IoError None)))); DropRecords; ReadPhase;
   DropPublishes; ReadCause; ReadPhase; UserEnables; DropRecords; DropPublishes; ReadCause;
   Teardown].

Abbreviation failing_thread :=
  (history (thread_start [lit "Gzip"; lit "S3"] Disabled) failing_history).

Example status_truthful_witness :
  ∃ x, failing_thread = Some x ∧
    map snd (Thread.readings x) =
      [Some (Initializing [lit "Gzip"; lit "S3"] None);
       Some (Initializing [lit "Gzip"; lit "S3"] (Some (lit "Gzip")));
       Some (Initializing [lit "Gzip"; lit "S3"] (Some (lit "S3")));
       Some (StoppedBy [lit "Gzip"; lit "S3"] (InitializeFailed (lit "S3")))] ∧
    pipeline_status (Some (Some (Thread.state x)))
      = Some (StoppedBy [lit "Gzip"; lit "S3"] (InitializeFailed (lit "S3"))).
Proof.
  destruct failing_thread as [x|] eqn:E; [|exfalso; by apply (none_absurd _ E); vm_compute].
  exists x. split; [reflexivity|].
  assert (Thread.pc x = Gone) as Hgone by (apply (some_field Thread.pc _ _ _ E); by vm_compute).
  assert (map snd (Thread.readings x) =
      [Some (Initializing [lit "Gzip"; lit "S3"] None);
       Some (Initializing [lit "Gzip"; lit "S3"] (Some (lit "Gzip")));
       Some (Initializing [lit "Gzip"; lit "S3"] (Some (lit "S3")));
       Some (StoppedBy [lit "Gzip"; lit "S3"] (InitializeFailed (lit "S3")))]) as Hr
    by (apply (some_field (λ x, map snd (Thread.readings x)) _ _ _ E); by vm_compute).
  split; [exact Hr|].
  destruct (status_truthful [lit "Gzip"; lit "S3"] Disabled failing_history x) as (_ & _ & H);
    [vm_compute; discriminate|exact E|].
  destruct (H Hgone) as (c & Hc & ->).
  assert (ended (thread_start [lit "Gzip"; lit "S3"] Disabled) failing_history
    = Some (InitializeFailed (lit "S3"))) as Hc' by by vm_compute.
  rewrite Hc in Hc'. by injection Hc' as <-.
Defined.

Example recording_disabled_for_good_witness :
  ∃ x, failing_thread = Some x ∧ is_enabled (Thread.recording x) = false.
Proof.
  destruct failing_thread as [x|] eqn:E; [|exfalso; by apply (none_absurd _ E); vm_compute].
  exists x. split; [reflexivity|].
  apply (recording_disabled_for_good [lit "Gzip"; lit "S3"] Disabled (take 8 failing_history)
    (IoError (Some (DisableRecording (IoError None)))) (drop 9 failing_history) x); [reflexivity|].
  rewrite <- E. reflexivity.
Defined.
