(* ===== verification/F64.v ===== *)
(** * Double-precision numbers

    [f64] and what the sampling code does with it: the standard library's
    specification of IEEE 754 at 53 bits of precision, round to nearest even,
    and Rust's conversions between floats and integers. *)

From Stdlib Require Import ZArith Lia SpecFloat.
From stdpp Require Import base numbers tactics.
From S2P Require Import Prelude.

Abbreviation f64 := spec_float.

(** [n as f64], [f64::from(n)]. *)
Definition f64_of (n : Z) : f64 := binary_normalize 53 1024 n 0 false.

Definition fadd : f64 → f64 → f64 := SFadd 53 1024.
Definition fmul : f64 → f64 → f64 := SFmul 53 1024.
Definition fdiv : f64 → f64 → f64 := SFdiv 53 1024.
Definition fsqrt : f64 → f64 := SFsqrt 53 1024.

(** [a < b], [a > b]: false with a NaN. *)
Definition flt (a b : f64) : bool := SFltb a b.
Definition fgt (a b : f64) : bool := SFltb b a.

Definition is_finite (x : f64) : bool :=
  match x with S754_zero _ | S754_finite _ _ _ => true | _ => false end.

Definition f64_zero : f64 := S754_zero false.

(** [x.clamp(0.0, 1.0)]. *)
Definition clamp_unit (x : f64) : f64 :=
  if flt x f64_zero then f64_zero else if fgt x (f64_of 1) then f64_of 1 else x.

(** [x as uN]: truncated, saturating, a NaN to zero. *)
Definition f64_to (w : Z) (x : f64) : Z :=
  match x with
  | S754_zero _ | S754_nan => 0
  | S754_infinity s => if s then 0 else 2 ^ w - 1
  | S754_finite s m e => if s then 0 else Z.min (2 ^ w - 1) (Z.shiftl (Zpos m) e)
  end.

(** [x.ceil() as uN]. *)
Definition f64_ceil_to (w : Z) (x : f64) : Z :=
  match x with
  | S754_finite false m e =>
      Z.min (2 ^ w - 1) (- Z.shiftl (- Zpos m) e)
  | _ => f64_to w x
  end.

Lemma f64_to_bounds w x : 0 <= w → 0 <= f64_to w x < 2 ^ w.
Proof.
  intros Hw. pose proof (Z.pow_pos_nonneg 2 w ltac:(lia) Hw).
  destruct x as [s|s| |s m e]; cbn [f64_to]; try lia; destruct s; try lia.
  pose proof (proj2 (Z.shiftl_nonneg (Zpos m) e) ltac:(lia)). lia.
Qed.

(** ** Magnitudes

    A positive number is of magnitude [d] when it lies from [2^d] on and below
    [2^(d+1)]; within the range of the exponents rounding moves it by at most
    one. *)

Definition magnitude (x : f64) (d : Z) : Prop :=
  ∃ m e, x = S754_finite false m e ∧ Z.log2 (Zpos m) + e = d.

Lemma digits_log2 p : Zpos (digits2_pos p) = Z.log2 (Zpos p) + 1.
Proof.
  assert (∀ q, digits2_pos q = Pos.size q) as H
    by (intros q; induction q as [q IH|q IH|]; cbn; rewrite ?IH; done).
  rewrite H. destruct p; cbn; lia.
Qed.

Lemma Zdigits2_log2 m : 0 < m → Zdigits2 m = Z.log2 m + 1.
Proof. destruct m as [|p|p]; try lia. intros _. apply digits_log2. Qed.

Lemma shr_1_div2 r : 0 <= shr_m r → shr_m (shr_1 r) = Z.shiftr (shr_m r) 1.
Proof. destruct r as [[|[p|p|]|p] s t]; cbn; try lia; done. Qed.

Lemma shr_iter p r : 0 <= shr_m r → shr_m (SpecFloat.iter_pos shr_1 p r) = Z.shiftr (shr_m r) (Zpos p).
Proof.
  revert r. induction p as [p IH|p IH|]; intros r Hr; cbn [SpecFloat.iter_pos].
  - assert (0 <= shr_m (shr_1 r)) as H1 by (rewrite shr_1_div2 by done; by apply Z.shiftr_nonneg).
    rewrite IH by (rewrite IH by done; by apply Z.shiftr_nonneg). rewrite IH, shr_1_div2 by done.
    rewrite !Z.shiftr_shiftr by lia. f_equal. lia.
  - rewrite IH by (rewrite IH by done; by apply Z.shiftr_nonneg). rewrite IH by done.
    rewrite Z.shiftr_shiftr by lia. f_equal. lia.
  - by apply shr_1_div2.
Qed.

Lemma shr_fexp_magnitude m e l :
  0 < m → -1000 <= Z.log2 m + e →
  let '(r, e') := shr_fexp 53 1024 m e l in
  0 < shr_m r ∧ Z.log2 (shr_m r) + e' = Z.log2 m + e ∧ e' <= Z.max e (Z.log2 m + e - 52).
Proof.
  intros Hm Hd. unfold shr_fexp, fexp, emin. rewrite Zdigits2_log2 by done.
  replace (Z.max _ _ - e) with (Z.log2 m - 52) by lia.
  assert (shr_m (shr_record_of_loc m l) = m) as Er by by destruct l as [|[]].
  unfold shr. destruct (Z.log2 m - 52) as [|p|p] eqn:En; [rewrite Er; lia| |rewrite Er; lia].
  rewrite shr_iter by (rewrite Er; lia). rewrite Er, Z.log2_shiftr by done.
  split; [|lia]. rewrite Z.shiftr_div_pow2 by lia. apply Z.div_str_pos. split; [by apply Z.pow_pos_nonneg|].
  etransitivity; [|by apply Z.log2_spec]. apply Z.pow_le_mono_r; lia.
Qed.

Lemma round_magnitude m e l :
  0 < m → -1000 <= Z.log2 m + e <= 1000 → e <= 900 →
  ∃ d, magnitude (binary_round_aux 53 1024 false m e l) d ∧ Z.log2 m + e <= d <= Z.log2 m + e + 1.
Proof.
  intros Hm Hd He. unfold binary_round_aux. pose proof (shr_fexp_magnitude m e l Hm ltac:(lia)) as H1.
  destruct (shr_fexp 53 1024 m e l) as [r e']. destruct H1 as (Hr & El & He').
  set (n := round_nearest_even _ _).
  assert (shr_m r <= n <= shr_m r + 1) as Hn
    by (subst n; unfold round_nearest_even; destruct (loc_of_shr_record r) as [|[]]; try destruct (Z.even _); lia).
  assert (Z.log2 (shr_m r) <= Z.log2 n <= Z.log2 (shr_m r) + 1) as Hlog.
  { split; [apply Z.log2_le_mono; lia|]. etransitivity; [apply (Z.log2_le_mono n (Z.succ (shr_m r))); lia|].
    apply Z.log2_succ_le. }
  pose proof (shr_fexp_magnitude n e' loc_Exact ltac:(lia) ltac:(lia)) as H2.
  destruct (shr_fexp 53 1024 n e' loc_Exact) as [r' e'']. destruct H2 as (Hr' & El' & He'').
  destruct (shr_m r') as [|p|p]; [lia| |lia]. rewrite (proj2 (Z.leb_le _ _)) by lia.
  exists (Z.log2 (Zpos p) + e''). split; [by exists p, e''|lia].
Qed.

Lemma iter_xO p n : Zpos (Pos.iter xO p n) = Z.shiftl (Zpos p) (Zpos n).
Proof.
  induction n as [|n IH] using Pos.peano_ind; [reflexivity|]. rewrite Pos.iter_succ.
  rewrite Pos2Z.inj_succ, Z.shiftl_mul_pow2, Z.pow_succ_r by lia. rewrite Z.shiftl_mul_pow2 in IH by lia. lia.
Qed.

(** [n as f64]. *)
Lemma f64_of_magnitude n : 0 < n → Z.log2 n <= 900 → ∃ d, magnitude (f64_of n) d ∧ Z.log2 n <= d <= Z.log2 n + 1.
Proof.
  destruct n as [|p|p]; try lia. intros _ Hl. unfold f64_of, binary_normalize, binary_round. rewrite digits_log2.
  pose proof (Z.log2_nonneg (Zpos p)). unfold fexp, emin, shl_align.
  replace (Z.max _ _ - 0) with (Z.log2 (Zpos p) - 52) by lia.
  destruct (Z.log2 (Zpos p) - 52) as [|q|q] eqn:Eq.
  1,2: destruct (round_magnitude (Zpos p) 0 loc_Exact) as (d & Hd & ?); try lia; exists d; split; [done|lia].
  assert (Z.log2 (Zpos (Pos.iter xO p q)) = Z.log2 (Zpos p) + Zpos q) as El by (rewrite iter_xO; apply Z.log2_shiftl; lia).
  destruct (round_magnitude (Zpos (Pos.iter xO p q)) (Z.max (Z.log2 (Zpos p) + 1 + 0 - 53) (3 - 1024 - 53)) loc_Exact)
    as (d & Hd & ?); [lia..|]. exists d. split; [done|lia].
Qed.

Lemma log2_div a b : 0 < b → 2 * b <= a → Z.log2 a - Z.log2 b - 1 <= Z.log2 (a / b) <= Z.log2 a - Z.log2 b.
Proof.
  intros Hb Ha. assert (0 < a / b) as Hq by (apply Z.div_str_pos; lia).
  pose proof (Z.log2_spec a ltac:(lia)) as [La Ua]. pose proof (Z.log2_spec b Hb) as [Lb Ub].
  pose proof (Z.log2_spec (a / b) Hq) as [Lq Uq]. pose proof (Z.log2_nonneg a). pose proof (Z.log2_nonneg b). pose proof (Z.log2_nonneg (a / b)).
  pose proof (Z.mul_div_le a b Hb). pose proof (Z.mul_succ_div_gt a b Hb).
  split.
  - enough (Z.log2 a < Z.succ (Z.log2 (a / b)) + Z.succ (Z.log2 b)) by lia.
    apply (Z.pow_lt_mono_r_iff 2); [lia..|]. rewrite Z.pow_add_r by lia. nia.
  - enough (Z.log2 (a / b) + Z.log2 b < Z.succ (Z.log2 a)) by lia.
    apply (Z.pow_lt_mono_r_iff 2); [lia..|]. rewrite Z.pow_add_r by lia. nia.
Qed.

Lemma fdiv_magnitude x y a b :
  magnitude x a → magnitude y b → -500 <= a - b <= 500 →
  ∃ d, magnitude (fdiv x y) d ∧ a - b - 1 <= d <= a - b + 1.
Proof.
  intros (m1 & e1 & -> & E1) (m2 & e2 & -> & E2) Hab. unfold fdiv, SFdiv, SFdiv_core_binary.
  rewrite !Zdigits2_log2 by done. unfold fexp, emin.
  set (e' := Z.min _ _). assert (e' <= a - b - 53) as He' by lia. assert (e' <= e1 - e2) as Hs by lia.
  set (m' := match e1 - e2 - e' with 0 => Zpos m1 | Zpos _ => Z.shiftl (Zpos m1) (e1 - e2 - e') | Zneg _ => 0 end).
  assert (m' = Z.shiftl (Zpos m1) (e1 - e2 - e')) as Em
    by (subst m'; destruct (e1 - e2 - e') as [|p|p] eqn:Es; [by rewrite Z.shiftl_0_r|done|lia]).
  assert (Z.log2 m' = Z.log2 (Zpos m1) + (e1 - e2 - e')) as Elog by (rewrite Em; apply Z.log2_shiftl; lia).
  assert (0 < m') as Hm' by (rewrite Em, Z.shiftl_mul_pow2 by lia; apply Z.mul_pos_pos; [done|apply Z.pow_pos_nonneg; lia]).
  clearbody m' e'.
  destruct (Z.div_eucl m' (Zpos m2)) as [q r] eqn:Eq. assert (q = m' / Zpos m2) as -> by (unfold Z.div; by rewrite Eq).
  assert (2 * Zpos m2 <= m') as Hge.
  { pose proof (Z.log2_spec m' Hm') as [Lm _]. pose proof (Z.log2_spec (Zpos m2) ltac:(done)) as [_ Um].
    pose proof (Z.pow_le_mono_r 2 (Z.succ (Z.succ (Z.log2 (Zpos m2)))) (Z.log2 m') ltac:(lia) ltac:(lia)) as Hp.
    pose proof (Z.log2_nonneg (Zpos m2)).
    rewrite (Z.pow_succ_r 2 (Z.succ (Z.log2 (Zpos m2)))) in Hp by lia. lia. }
  pose proof (log2_div m' (Zpos m2) ltac:(done) Hge) as Hq.
  destruct (round_magnitude (m' / Zpos m2) e' (new_location (Zpos m2) r)) as (d & Hd & ?);
    [apply Z.div_str_pos; lia|lia..|]. exists d. split; [done|lia].
Qed.

Lemma magnitude_positive x d : magnitude x d → is_finite x = true ∧ fgt x f64_zero = true.
Proof. by intros (m & e & -> & _). Qed.
