(* ===== verification/SamplingStore.v ===== *)
(** * The storage the sampling protocol runs on (dial9-sampling/src/backend.rs)

    Requests, answers and errors of a [SamplingStore].  A store itself is not
    modelled: its answers are arguments of the operations that ask it, and the
    contract the trait documents is stated where a theorem needs it. *)

From Stdlib Require Import ZArith.
From stdpp Require Import base list strings.
From S2P Require Import Prelude.

(** Version tokens are opaque: their type is the parameter [V] below, that of
    object bodies the parameter [B]. *)
Abbreviation ContinuationToken := bytes.

Inductive WriteCondition (V : Type) : Type :=
| Unconditional
| Absent
| Matches (version : V).

Arguments Unconditional {V}.
Arguments Absent {V}.
Arguments Matches {V} version.

Inductive PutOutcome (V : Type) : Type :=
| Stored (version : V)
| PreconditionFailed.

Arguments Stored {V} version.
Arguments PreconditionFailed {V}.

(** [modified_at] is a time of the store, in nanoseconds of the epoch. *)
Module StoredObject.
Record t (B V : Type) : Type := mk { body : B; version : V; modified_at : Z }.
Arguments mk {B V}.
Arguments body {B V} _.
Arguments version {B V} _.
Arguments modified_at {B V} _.
End StoredObject.

(** What a conditional write does to an object, when it is carried out. *)
Definition put_object {B V : Type} `{EqDecision V} (cond : WriteCondition V) (new : StoredObject.t B V)
    (current : option (StoredObject.t B V)) : PutOutcome V * option (StoredObject.t B V) :=
  if match cond, current with
     | Unconditional, _ | Absent, None => true
     | Matches v, Some o => bool_decide (StoredObject.version o = v)
     | _, _ => false
     end
  then (Stored (StoredObject.version new), Some new) else (PreconditionFailed, current).

Module ListRequest.
Record t : Type := mk { prefix : bytes; page_size : Z; continuation : option ContinuationToken }.
End ListRequest.

(** Of an object listed only the key counts. *)
Module ListPage.
Record t : Type := mk { objects : list bytes; continuation : option ContinuationToken }.
End ListPage.

Inductive StoreErrorKind : Set :=
| Unavailable
| Unauthorized
| InvalidResponse
| Unsupported
| WriteOutcomeUnknown.

Module StoreError.
Record t : Type := mk { kind : StoreErrorKind; source : bytes }.
End StoreError.

#[global] Instance StoreErrorKind_eq_dec : EqDecision StoreErrorKind.
Proof. solve_decision. Defined.

(** [invalid(message)]. *)
Definition invalid (message : bytes) : StoreError.t := StoreError.mk InvalidResponse message.

(** A write that may have been carried out although it failed. *)
Definition uncertain (e : StoreError.t) : bool :=
  match StoreError.kind e with WriteOutcomeUnknown | Unavailable => true | _ => false end.
