(* ===== verification/SamplingConfig.v ===== *)
(** * Sampling: the configuration and the keys (dial9-sampling/src/protocol/mod.rs,
    object_key.rs, and the keys of protocol/census.rs)

    What a process is configured with and what is refused, the times of the
    protocol derived from it, and the object keys under which processes meet:
    the roster of a pool, and the reports of a window.  Run identities (ULIDs)
    and SHA-256 draws are third-party code: the classes [Ulid] and [Draws]. *)

From Stdlib Require Import ZArith Lia SpecFloat.
From stdpp Require Import base list sorting strings option.
From coqutil Require Import Byte.
From S2P Require Import Prelude.
From S2P Require Import Text.
From S2P Require Import F64.
From S2P Require Import SamplingStore.

(** ** Escaping (object_key.rs) *)

Definition HEX : bytes := lit "0123456789ABCDEF".

Definition hex_upper (d : Z) : byte := default (z2b 0) (HEX !! Z.to_nat d).

Definition needs_hive_escape (b : byte) : bool :=
  let v := b2z b in
  (v <? 32) || (v =? 127)
  || bool_decide (v ∈ [34; 35; 37; 39; 42; 47; 58; 61; 63; 92; 123; 91; 93; 94]).

(** The characters beyond ASCII consist of bytes that need no escape. *)
Definition escape_byte (b : byte) : bytes :=
  if needs_hive_escape b
  then [z2b 37; hex_upper (Z.shiftr (b2z b) 4); hex_upper (Z.land (b2z b) 0x0f)]
  else [b].

Definition hive_escape (value : bytes) : bytes := concat (map escape_byte value).

(** ** What is third-party *)

(** [ulid::Ulid]: 128 bits, and the text of it. *)
Class Ulid : Type := {
  ulid_parse : bytes → option Z;
  ulid_text : Z → bytes;
  ulid_parse_text : ∀ u, fits 128 u → ulid_parse (ulid_text u) = Some u;
  ulid_text_plain : ∀ u, z2b 46 ∉ ulid_text u }.

(** The first eight bytes of SHA-256 over the JSON text of the arguments: of a
    draw, and of the rank in elections. *)
Class Draws : Type := {
  draw_digest : bytes → bytes → bytes → Z;
  rank_digest : list (bytes * bytes) → bytes → Z;
  draw_fits : ∀ i p r, fits 64 (draw_digest i p r);
  rank_fits : ∀ d i, fits 64 (rank_digest d i) }.

(** ** The configuration *)

Inductive StartupFailure : Type :=
| Disabled
| AssumePopulation (population : Z).

Module InternalSettings.
Record t : Type := mk {
  max_overshoot : option Z;
  poll_interval : Z;
  bucket_width : Z;
  max_clock_skew : Z }.
End InternalSettings.

Definition default_settings : InternalSettings.t :=
  InternalSettings.mk None (60 * SECOND) (60 * SECOND) (5 * SECOND).

Module Sampling.
Record t : Type := mk {
  dimensions : list (bytes * bytes);
  num_target_profilers : Z;
  if_failed : StartupFailure;
  startup_timeout : Z;
  invocation_id : bytes;
  settings : InternalSettings.t }.
End Sampling.

Definition target (c : Sampling.t) : Z := Sampling.num_target_profilers c.

(** [d.as_millis() as u64]. *)
Definition MILLISECOND : Z := 1000000.
Definition as_millis (d : Z) : Z := cast 64 (d / MILLISECOND).

Definition poll_ms (c : Sampling.t) : Z := as_millis (InternalSettings.poll_interval (Sampling.settings c)).
Definition window_ms (c : Sampling.t) : Z := as_millis (InternalSettings.bucket_width (Sampling.settings c)).
Definition skew_ms (c : Sampling.t) : Z := as_millis (InternalSettings.max_clock_skew (Sampling.settings c)).

(** Every dimension nonblank, no name twice. *)
Fixpoint dimensions_ok (names : list bytes) (dims : list (bytes * bytes)) : bool :=
  match dims with
  | [] => true
  | (name, value) :: dims =>
      if blank name || blank value || bool_decide (name ∈ names) then false
      else dimensions_ok (name :: names) dims
  end.

Definition settings_ok (s : InternalSettings.t) : bool :=
  let poll := InternalSettings.poll_interval s in
  let width := InternalSettings.bucket_width s in
  let skew := InternalSettings.max_clock_skew s in
  negb ((poll <? 100 * MILLISECOND) || (width <? poll) || (width <? SECOND) || (86400 * SECOND <? width)
        || (width <=? Z.min DURATION_MAX (4 * skew))
        || existsb (λ d, negb (d mod SECOND mod MILLISECOND =? 0)) [poll; width; skew]).

(** ** The cutoffs (protocol/census.rs) *)

Definition SPACE : Z := 2 ^ 64.

(** [None] is the whole space of ranks. *)
Module Cutoff.
Record t : Type := mk { rank : option Z }.
Definition value (c : t) : Z := default SPACE (rank c).
Definition threshold (v : Z) : t := mk (if v <? SPACE then Some v else None).
Definition probability (c : t) : f64 := fdiv (f64_of (value c)) (f64_of SPACE).
Definition from_probability (p : f64) : t := threshold (f64_to 128 (fmul (clamp_unit p) (f64_of SPACE))).
Definition includes (c : t) (r : Z) : bool := r <? value c.
End Cutoff.

(** ** Times (protocol/engine.rs) *)

(** Milliseconds, but for [operation]. *)
Module Timing.
Record t : Type := mk {
  width : Z; poll : Z; operation : Z; dispatch : Z; submission : Z; closure : Z; age : Z }.

Definition new (c : Sampling.t) : t :=
  let width := window_ms c in
  let op := width / 20 in
  let dispatch := width / 30 in
  let submission := dispatch + 3 * op in
  mk width (width * 5) (op * MILLISECOND) dispatch submission
    (submission + 2 * skew_ms c + width / 60) (width * 10).

(** [end], a keyword here. *)
Definition end_ (x : t) (window : Z) : option Z :=
  w ← checked_add 64 window 1; checked_mul 64 w (width x).

Definition completed (x : t) (now : Z) : option Z :=
  n ← checked_sub now (closure x);
  if width x =? 0 then None else checked_sub (n / width x) 1.
End Timing.

(** A report, as its key says. *)
Module Report.
Record t : Type := mk { rank : Z; cutoff : Z; identity : bytes }.
End Report.

Section config.
Context `{Ulid, Draws}.

Definition validate (c : Sampling.t) : result unit bytes :=
  if negb (bool_decide (is_Some (ulid_parse (Sampling.invocation_id c)))) then
    Err (lit "process run identity must be a valid ULID")
  else if negb (dimensions_ok [] (Sampling.dimensions c)) then
    Err (lit "dimensions must have unique, nonblank names and values")
  else if match Sampling.if_failed c with AssumePopulation p => p =? 0 | Disabled => false end then
    Err (lit "assumed population must be positive")
  else if (10000 <? target c) || negb (settings_ok (Sampling.settings c)) then
    Err (lit "target must be at most 10000; leader cadence must be 100ms..window; window must be 1s..1d and exceed four clock skews; durations need whole milliseconds")
  else Ok tt.

(** [dimensions.sort()]. *)
Definition dim_ltb (a b : bytes * bytes) : bool :=
  str_ltb (fst a) (fst b) || (bool_decide (fst a = fst b) && str_ltb (snd a) (snd b)).
Definition dim_le (a b : bytes * bytes) : Prop := dim_ltb b a = false.

#[global] Instance dim_le_dec : RelDecision dim_le.
Proof. intros a b. unfold dim_le. apply _. Defined.

Definition sorted_dimensions (c : Sampling.t) : list (bytes * bytes) :=
  merge_sort dim_le (Sampling.dimensions c).

Definition rank (c : Sampling.t) : Z := rank_digest (sorted_dimensions c) (Sampling.invocation_id c).

Definition draw (c : Sampling.t) (purpose round : bytes) : Z :=
  draw_digest (Sampling.invocation_id c) purpose round.

Definition selects (c : Sampling.t) (cutoff : Z) : bool := draw c (lit "admission") [] <? cutoff.

Definition failure_cutoff (c : Sampling.t) : Z :=
  match Sampling.if_failed c with
  | Disabled => 0
  | AssumePopulation p => if p =? 0 then 0 else Z.min (Z.shiftl (target c) 64 / p) SPACE
  end.

Definition failure_decision (c : Sampling.t) : bool :=
  match validate c with Ok _ => selects c (failure_cutoff c) | Err _ => false end.

Definition overshoot (c : Sampling.t) : Z :=
  default (f64_ceil_to 32 (fmul (f64_of 3) (fsqrt (f64_of (target c)))))
    (InternalSettings.max_overshoot (Sampling.settings c)).

(** ** The keys *)

Definition dimension_word (d : bytes * bytes) : bytes := hive_escape (fst d) ++ lit "=" ++ hive_escape (snd d).

Definition path_of (dims : list (bytes * bytes)) : bytes :=
  concat (map (λ d, dimension_word d ++ lit "/") dims).

Definition pool_path (c : Sampling.t) : bytes := path_of (sorted_dimensions c).

Definition pool_prefix (c : Sampling.t) : bytes := lit "v3/pools/" ++ pool_path c.

Definition roster_key (c : Sampling.t) : bytes := pool_prefix c ++ lit "roster.json".

Definition report_prefix (c : Sampling.t) (channel : bytes) (window : Z) : bytes :=
  lit "v3/" ++ channel ++ lit "/" ++ pool_path c ++ lit "windows/window=" ++ put_hex 16 window ++ lit "/".

Definition report_key (c : Sampling.t) (channel : bytes) (window rank : Z) (cutoff : Cutoff.t) : bytes :=
  report_prefix c channel window ++ put_hex 16 rank ++ lit "." ++ Sampling.invocation_id c
    ++ lit "." ++ put_hex 17 (Cutoff.value cutoff).

(** [parse]: the identity, the rank and the cutoff of a report under [prefix],
    in the one text they have. *)
Definition parse (key prefix : bytes) (profiler : bool) : result Report.t StoreError.t :=
  match split_on (z2b 46) <$> strip_prefix prefix key with
  | None => Err (invalid (lit "report outside requested prefix"))
  | Some (rank_hex :: identity :: cutoff_hex :: fields) =>
      match parse_hex 64 rank_hex, parse_hex 128 cutoff_hex, ulid_parse identity with
      | None, _, _ => Err (invalid (lit "invalid report rank"))
      | _, None, _ => Err (invalid (lit "invalid chosen cutoff"))
      | _, _, None => Err (invalid (lit "invalid run identity"))
      | Some rank, Some cutoff, Some id =>
          if negb (bool_decide (fields = [])) || negb (bool_decide (rank_hex = put_hex 16 rank))
             || negb (bool_decide (identity = ulid_text id))
             || negb (bool_decide (cutoff_hex = put_hex 17 cutoff))
             || (cutoff =? 0) || (SPACE <? cutoff) || (cutoff <=? rank)
             || (profiler && negb (cutoff =? SPACE))
          then Err (invalid (lit "invalid report encoding or eligibility"))
          else Ok (Report.mk rank cutoff identity)
      end
  | Some [_; _] => Err (invalid (lit "missing chosen cutoff"))
  | Some [_] => Err (invalid (lit "missing run identity"))
  | Some [] => Err (invalid (lit "missing report rank"))
  end.
End config.

(** ** Escaping is reversible *)

Fixpoint hive_unescape (s : bytes) : bytes :=
  match s with
  | c :: s' =>
      if bool_decide (c = z2b 37) then
        match s' with
        | h :: l :: r =>
            z2b (16 * default 0 (hex_digit h) + default 0 (hex_digit l)) :: hive_unescape r
        | _ => []
        end
      else c :: hive_unescape s'
  | [] => []
  end.

(** What escaping leaves of one byte: itself, or three that read back. *)
Definition escape_check (b : byte) : bool :=
  forallb (λ c, negb (bool_decide (c = z2b 47)) && negb (bool_decide (c = z2b 61))) (escape_byte b)
  && match escape_byte b with
     | [c] => bool_decide (c = b) && negb (bool_decide (c = z2b 37))
     | [c; h; l] =>
         bool_decide (c = z2b 37)
         && bool_decide (z2b (16 * default 0 (hex_digit h) + default 0 (hex_digit l)) = b)
     | _ => false
     end.

Lemma escape_checked b : escape_check b = true.
Proof.
  assert (forallb escape_check (map z2b (seqZ 0 256)) = true) as H by by vm_compute.
  rewrite forallb_forall in H. apply H. rewrite <- (byte.of_Z_unsigned b). apply in_map.
  apply list_elem_of_In, elem_of_seqZ. pose proof (b2z_fits b). unfold fits in *. lia.
Qed.

Lemma escape_byte_spec b :
  z2b 47 ∉ escape_byte b ∧ z2b 61 ∉ escape_byte b ∧
  ∀ r, hive_unescape (escape_byte b ++ r) = b :: hive_unescape r.
Proof.
  pose proof (escape_checked b) as H. unfold escape_check in H.
  apply andb_true_iff in H as [Hp Hr]. rewrite forallb_forall in Hp.
  assert (∀ c, c ∈ escape_byte b → c ≠ z2b 47 ∧ c ≠ z2b 61) as Hc.
  { intros c Hin. apply list_elem_of_In in Hin. specialize (Hp c Hin).
    apply andb_true_iff in Hp as [H1 H2]. apply negb_true_iff in H1, H2. by bool_facts. }
  split; [intros Hin; by destruct (Hc _ Hin)|]. split; [intros Hin; by destruct (Hc _ Hin)|].
  intros r. destruct (escape_byte b) as [|c [|h [|l [|]]]]; try done; apply andb_true_iff in Hr as [H1 H2];
    cbn [app hive_unescape].
  - apply negb_true_iff in H2. bool_facts. subst. by rewrite bool_decide_false.
  - bool_facts. subst c. by rewrite bool_decide_true, H2.
Qed.

Lemma hive_unescape_escape s : hive_unescape (hive_escape s) = s.
Proof.
  induction s as [|b s IH]; [done|]. unfold hive_escape in *. cbn [map concat].
  destruct (escape_byte_spec b) as (_ & _ & H). by rewrite H, IH.
Qed.

Lemma hive_escape_inj s t : hive_escape s = hive_escape t → s = t.
Proof. intros H. by rewrite <- (hive_unescape_escape s), H, hive_unescape_escape. Qed.

Lemma hive_escape_plain s : z2b 47 ∉ hive_escape s ∧ z2b 61 ∉ hive_escape s.
Proof.
  induction s as [|b s [IH1 IH2]]; [by split; apply not_elem_of_nil|].
  unfold hive_escape in *. cbn [map concat]. destruct (escape_byte_spec b) as (H1 & H2 & _).
  split; rewrite elem_of_app; tauto.
Qed.

(** ** Paths *)

Lemma dimension_word_no_slash d : z2b 47 ∉ dimension_word d.
Proof.
  unfold dimension_word. destruct d as [n v]. cbn [fst snd].
  pose proof (proj1 (hive_escape_plain n)). pose proof (proj1 (hive_escape_plain v)).
  rewrite !elem_of_app. intros [?|[Hc|?]]; try done. apply list_elem_of_singleton in Hc. done.
Qed.

(** Two texts agree up to the first slash. *)
Lemma at_slash (c : byte) a b x y : c ∉ a → c ∉ b → a ++ c :: x = b ++ c :: y → a = b ∧ x = y.
Proof.
  revert b. induction a as [|d a IH]; intros [|e b] Ha Hb; cbn [app]; [by intros [= ->]| | |].
  - intros [= <- _]. by apply not_elem_of_cons in Hb as [? _].
  - intros [= -> _]. by apply not_elem_of_cons in Ha as [? _].
  - apply not_elem_of_cons in Ha as [_ Ha]. apply not_elem_of_cons in Hb as [_ Hb].
    intros [= -> H]. by destruct (IH b Ha Hb H) as [-> ->].
Qed.

Lemma dimension_word_inj d e : dimension_word d = dimension_word e → d = e.
Proof.
  destruct d as [n v], e as [m w]. unfold dimension_word. cbn [fst snd]. intros H.
  apply (at_slash (z2b 61)) in H as [Hn Hv]; [|apply hive_escape_plain..].
  apply hive_escape_inj in Hn, Hv. by subst.
Qed.

(** What follows a path that ends with the windows tells where it ends. *)
Lemma path_of_inj l m x y :
  path_of l ++ lit "windows/" ++ x = path_of m ++ lit "windows/" ++ y → l = m ∧ x = y.
Proof.
  assert (∀ d, dimension_word d ≠ lit "windows") as Hw.
  { intros d E. assert (z2b 61 ∈ dimension_word d) as Hin.
    { unfold dimension_word. rewrite !elem_of_app. right. left. by constructor. }
    rewrite E in Hin. revert Hin. apply (bool_decide_unpack (_ ∉ _)). by vm_compute. }
  assert (z2b 47 ∉ lit "windows") as Hs by (apply (bool_decide_unpack _); by vm_compute).
  revert m. induction l as [|d l IH]; intros [|e m]; unfold path_of; cbn [map concat app]; intros H.
  - split; [done|]. by apply app_inv_head in H.
  - exfalso. rewrite <- !app_assoc in H. change (lit "windows/") with (lit "windows" ++ [z2b 47]) in H.
    rewrite <- !app_assoc in H. cbn [app] in H.
    apply at_slash in H as [E _]; [by apply (Hw e)|done|apply dimension_word_no_slash].
  - exfalso. rewrite <- !app_assoc in H. change (lit "windows/") with (lit "windows" ++ [z2b 47]) in H.
    rewrite <- !app_assoc in H. cbn [app] in H.
    apply at_slash in H as [E _]; [by apply (Hw d)|apply dimension_word_no_slash|done].
  - rewrite <- !app_assoc in H. apply at_slash in H as [E H]; [|apply dimension_word_no_slash..].
    apply dimension_word_inj in E as ->. by destruct (IH _ H) as [-> ->].
Qed.

Section keys.
Context `{Ulid, Draws}.

(** The channels of reports. *)
Definition channel_ok (channel : bytes) : Prop := channel = lit "census" ∨ channel = lit "profilers".

Lemma channels_apart ch1 ch2 x y :
  channel_ok ch1 → channel_ok ch2 → ch1 ++ lit "/" ++ x = ch2 ++ lit "/" ++ y → ch1 = ch2 ∧ x = y.
Proof. intros [->| ->] [->| ->] E; cbn in E; by simplify_eq. Qed.

Lemma report_prefix_inj c1 c2 ch1 ch2 w1 w2 x y :
  channel_ok ch1 → channel_ok ch2 → fits 64 w1 → fits 64 w2 →
  report_prefix c1 ch1 w1 ++ x = report_prefix c2 ch2 w2 ++ y →
  sorted_dimensions c1 = sorted_dimensions c2 ∧ ch1 = ch2 ∧ w1 = w2 ∧ x = y.
Proof.
  intros Hc1 Hc2 Hw1 Hw2. unfold report_prefix, pool_path. rewrite <- !app_assoc. intros E.
  apply app_inv_head in E. apply channels_apart in E as [-> E]; [|done..].
  change (lit "windows/window=") with (lit "windows/" ++ lit "window=") in E. rewrite <- !app_assoc in E.
  apply path_of_inj in E as [-> E]. apply app_inv_head in E.
  rewrite !put_hex_fixed in E by (unfold fits in *; lia).
  assert (length (hex_fixed 16 w1) = length (hex_fixed 16 w2)) as Hl by by rewrite !length_hex_fixed.
  apply app_inj_1 in E as [E1 E2]; [|done]. split_and!; [done..| |by apply app_inv_head in E2].
  apply (put_hex_inj 16); [lia|unfold fits in *; lia..|].
  by rewrite !put_hex_fixed by (unfold fits in *; lia).
Qed.

Lemma sorted_dimensions_perm c : sorted_dimensions c ≡ₚ Sampling.dimensions c.
Proof. apply merge_sort_Permutation. Qed.

Lemma hex_no_dot w n : z2b 46 ∉ hex_fixed w n.
Proof.
  intros Hin. pose proof (hex_fixed_digits w n) as Hd. rewrite list.Forall_forall in Hd.
  destruct (Hd _ Hin) as [d Ed]. by vm_compute in Ed.
Qed.

Lemma put_hex_no_dot w n : z2b 46 ∉ put_hex w n.
Proof. apply hex_no_dot. Qed.

(** What [parse] accepts as a report. *)
Definition report_ok (profiler : bool) (r : Report.t) : Prop :=
  fits 64 (Report.rank r) ∧ Report.rank r < Report.cutoff r <= SPACE ∧
  (profiler = true → Report.cutoff r = SPACE) ∧
  ∃ id, ulid_parse (Report.identity r) = Some id ∧ Report.identity r = ulid_text id.

(** The text of a report under its prefix. *)
Definition report_text (r : Report.t) : bytes :=
  put_hex 16 (Report.rank r) ++ lit "." ++ Report.identity r ++ lit "." ++ put_hex 17 (Report.cutoff r).

Lemma parse_text prefix profiler r :
  report_ok profiler r → parse (prefix ++ report_text r) prefix profiler = Ok r.
Proof.
  intros (Hr & Hc & Hp & id & Eid & Hid). unfold parse. rewrite strip_prefix_app. cbn [fmap option_fmap option_map].
  assert (z2b 46 ∉ Report.identity r) as Hi by (rewrite Hid; apply ulid_text_plain).
  assert (split_on (z2b 46) (report_text r) =
    [put_hex 16 (Report.rank r); Report.identity r; put_hex 17 (Report.cutoff r)]) as ->.
  { unfold report_text. change (lit ".") with [z2b 46]. cbn [app].
    by rewrite !split_on_app, split_on_single by (apply put_hex_no_dot || done). }
  unfold fits, SPACE in *. rewrite !parse_hex_put by (cbn; lia). rewrite Eid, <- Hid.
  rewrite !bool_decide_true by done. cbn [negb orb].
  rewrite (proj2 (Z.eqb_neq _ _)) by lia. rewrite (proj2 (Z.ltb_ge _ _)) by lia.
  rewrite (proj2 (Z.leb_gt _ _)) by lia. cbn [orb].
  destruct profiler; cbn [andb]; [rewrite (proj2 (Z.eqb_eq _ _)) by auto|]; by destruct r.
Qed.

Lemma parse_ok key prefix profiler r :
  parse key prefix profiler = Ok r → key = prefix ++ report_text r ∧ report_ok profiler r.
Proof.
  unfold parse. destruct (strip_prefix prefix key) as [suffix|] eqn:Es; [|done].
  apply strip_prefix_some in Es as ->. cbn [fmap option_fmap option_map].
  destruct (split_on (z2b 46) suffix) as [|rank_hex [|identity [|cutoff_hex fields]]] eqn:Ef; try done.
  destruct (parse_hex 64 rank_hex) as [rank|] eqn:Er; [|done].
  destruct (parse_hex 128 cutoff_hex) as [cutoff|] eqn:Ec; [|done].
  destruct (ulid_parse identity) as [id|] eqn:Eid; [|done].
  destruct (_ || _) eqn:Eg; [done|]. intros [= <-]. rewrite !orb_false_iff, !negb_false_iff in Eg.
  destruct Eg as (((((((Hf & Hr) & Hi) & Hc) & Hz) & Hs) & Hlt) & Hp). bool_facts.
  subst fields. apply split_on_three in Ef as ->. apply parse_hex_fits in Er, Ec; [|lia..].
  unfold report_text, report_ok. cbn [Report.rank Report.cutoff Report.identity]. rewrite <- Hr, <- Hc.
  split; [done|]. split; [done|]. split; [lia|]. split; [|by exists id].
  intros ->. destruct Hp as [[=]|Hp]. apply negb_false_iff in Hp. by bool_facts.
Qed.

(** Reports of a window come in the order of their ranks. *)
Lemma report_text_order prefix profiler r1 r2 :
  report_ok profiler r1 → report_ok profiler r2 →
  (Report.rank r1 < Report.rank r2 → str_ltb (prefix ++ report_text r1) (prefix ++ report_text r2) = true) ∧
  (str_ltb (prefix ++ report_text r1) (prefix ++ report_text r2) = true → Report.rank r1 <= Report.rank r2).
Proof.
  intros (H1 & _) (H2 & _). rewrite str_ltb_app. unfold report_text, fits in *.
  rewrite (put_hex_fixed 16 (Report.rank r1)), (put_hex_fixed 16 (Report.rank r2)) by (cbn; lia).
  rewrite str_ltb_hex by (cbn; lia). rewrite orb_true_iff, andb_true_iff, Z.ltb_lt, Z.eqb_eq. lia.
Qed.
End keys.

(** ** Times *)

Lemma as_millis_small d : 0 <= d <= 86400 * SECOND → as_millis d = d / MILLISECOND.
Proof.
  intros H. apply cast_id. unfold fits, MILLISECOND, SECOND in *.
  pose proof (Z.div_pos d 1000000 ltac:(lia) ltac:(lia)).
  pose proof (Z.div_le_mono d (86400 * 1000000000) 1000000 ltac:(lia) ltac:(lia)).
  change (86400 * 1000000000 / 1000000) with 86400000 in *. lia.
Qed.

(** An accepted configuration, in milliseconds. *)
Lemma accepted_ms `{Ulid} c :
  validate c = Ok tt → 0 <= InternalSettings.max_clock_skew (Sampling.settings c) →
  100 <= poll_ms c <= window_ms c ∧ 1000 <= window_ms c <= 86400000 ∧
  0 <= skew_ms c ∧ 4 * skew_ms c < window_ms c ∧ target c <= 10000.
Proof.
  unfold validate. destruct (negb _); [done|]. destruct (negb _); [done|].
  destruct (match Sampling.if_failed c with Disabled => false | AssumePopulation p => p =? 0 end); [done|].
  destruct ((10000 <? target c) || _) eqn:E; [done|]. intros _ Hs.
  rewrite orb_false_iff, negb_false_iff in E. destruct E as [Ht E].
  unfold settings_ok in E. rewrite negb_true_iff, !orb_false_iff in E.
  destruct E as (((((H1 & H2) & H3) & H4) & H5) & H6). cbn [existsb] in H6.
  rewrite !orb_false_iff, !negb_false_iff in H6. destruct H6 as (Hp & Hw & Hk & _). bool_facts.
  unfold poll_ms, window_ms, skew_ms.
  set (p := InternalSettings.poll_interval _) in *. set (w := InternalSettings.bucket_width _) in *.
  set (k := InternalSettings.max_clock_skew _) in *.
  assert (4 * k < w) as Hk4 by (unfold DURATION_MAX, SECOND in *; lia).
  unfold MILLISECOND, SECOND in *.
  assert (∀ d, 0 <= d <= 86400000000000 → d mod 1000000000 mod 1000000 = 0 →
    as_millis d * 1000000 = d) as Hms.
  { intros d Hd Hm. rewrite as_millis_small by (unfold SECOND; lia). unfold MILLISECOND.
    pose proof (Z.div_mod d 1000000000 ltac:(lia)).
    pose proof (Z.div_mod (d mod 1000000000) 1000000 ltac:(lia)).
    assert (d mod 1000000 = 0) as Hz.
    { replace d with (d mod 1000000000 / 1000000 * 1000000 + d / 1000000000 * 1000 * 1000000) by lia.
      rewrite Z.mod_add by lia. by apply Z_mod_mult. }
    pose proof (Z.div_mod d 1000000 ltac:(lia)). lia. }
  pose proof (Hms p ltac:(lia) Hp). pose proof (Hms w ltac:(lia) Hw). pose proof (Hms k ltac:(lia) Hk). lia.
Qed.

(** Width, margins and what is left of a window after its closure. *)
Lemma timing_margins `{Ulid} c :
  validate c = Ok tt → 0 <= InternalSettings.max_clock_skew (Sampling.settings c) →
  let x := Timing.new c in
  1000 <= Timing.width x <= 86400000 ∧ 0 <= skew_ms c ∧ 0 <= Timing.dispatch x ∧
  0 < Timing.operation x ∧ Timing.dispatch x < Timing.submission x ∧
  Timing.submission x + 2 * skew_ms c < Timing.closure x ∧ Timing.closure x < Timing.width x.
Proof.
  intros Hv Hs x. destruct (accepted_ms c Hv Hs) as (_ & Hw & Hk & H4 & _).
  subst x. unfold Timing.new, MILLISECOND. cbn.
  pose proof (Z.div_mod (window_ms c) 20 ltac:(lia)). pose proof (Z.mod_pos_bound (window_ms c) 20 ltac:(lia)).
  pose proof (Z.div_mod (window_ms c) 30 ltac:(lia)). pose proof (Z.mod_pos_bound (window_ms c) 30 ltac:(lia)).
  pose proof (Z.div_mod (window_ms c) 60 ltac:(lia)). pose proof (Z.mod_pos_bound (window_ms c) 60 ltac:(lia)).
  lia.
Qed.

(** The window that a clock counts as completed last. *)
Lemma completed_bounds `{Ulid} c now window :
  validate c = Ok tt → 0 <= InternalSettings.max_clock_skew (Sampling.settings c) →
  fits 64 now → Timing.completed (Timing.new c) now = Some window →
  let x := Timing.new c in
  0 <= window ∧ (window + 1) * Timing.width x + Timing.closure x <= now < (window + 2) * Timing.width x + Timing.closure x.
Proof.
  intros Hv Hs Hn. destruct (timing_margins c Hv Hs) as (Hw & Hk & Hd & Ho & Hsub & Hcl & Hclw).
  unfold Timing.completed, checked_sub. set (x := Timing.new c) in *.
  destruct (Z.leb_spec (Timing.closure x) now); [|done]. cbn [mbind option_bind].
  rewrite (proj2 (Z.eqb_neq _ _)) by lia.
  pose proof (Z.div_mod (now - Timing.closure x) (Timing.width x) ltac:(lia)).
  pose proof (Z.mod_pos_bound (now - Timing.closure x) (Timing.width x) ltac:(lia)).
  set (q := (now - Timing.closure x) / Timing.width x) in *. clearbody q x.
  destruct (Z.leb_spec 1 q); [|done]. intros [= <-]. lia.
Qed.

(** The end of a window, when its time can be told. *)
Lemma end_small x window :
  0 <= window → 1 <= Timing.width x → (window + 1) * Timing.width x < 2 ^ 64 →
  Timing.end_ x window = Some ((window + 1) * Timing.width x).
Proof.
  intros Hw Hx Hb. unfold Timing.end_, checked_add, checked_mul.
  rewrite (proj2 (Z.ltb_lt _ _)) by nia. cbn [mbind option_bind]. by rewrite (proj2 (Z.ltb_lt _ _)) by lia.
Qed.

(** ** Main properties *)

(** C14: A pool, a channel and a window have their keys to themselves: a
    listing under the report prefix of one configuration finds a report of
    another only if both have the same dimensions, in any order, whatever
    characters these hold, and the channel and the window are the same. *)
Theorem reports_isolated `{Ulid, Draws} c1 c2 ch1 ch2 w1 w2 rank cutoff :
  channel_ok ch1 → channel_ok ch2 → fits 64 w1 → fits 64 w2 →
  is_Some (strip_prefix (report_prefix c1 ch1 w1) (report_key c2 ch2 w2 rank cutoff)) →
  Sampling.dimensions c1 ≡ₚ Sampling.dimensions c2 ∧ ch1 = ch2 ∧ w1 = w2.
Proof.
  intros Hc1 Hc2 Hw1 Hw2 [s Es]. apply strip_prefix_some in Es. unfold report_key in Es. symmetry in Es.
  apply report_prefix_inj in Es as (E & -> & -> & _); [|done..]. split; [|done].
  by rewrite <- (sorted_dimensions_perm c1), E, sorted_dimensions_perm.
Qed.

(** The reports a listing may hold are exactly those a process writes: a
    key is read as a report if and only if it is the one text of that report,
    its rank below its cutoff, the cutoff within the space (all of it for a
    profiler) and its identity a run identity in canonical form; and the keys
    of a window come in the order of the ranks. *)
Theorem report_keys_exact `{Ulid} key prefix profiler r :
  (parse key prefix profiler = Ok r ↔ key = prefix ++ report_text r ∧ report_ok profiler r) ∧
  ∀ key' r', parse key prefix profiler = Ok r → parse key' prefix profiler = Ok r' →
    (Report.rank r < Report.rank r' → str_ltb key key' = true) ∧
    (str_ltb key key' = true → Report.rank r <= Report.rank r').
Proof.
  split.
  - split; [apply parse_ok|]. intros [-> H']. by apply parse_text.
  - intros key' r' E E'. apply parse_ok in E as [-> Hr]. apply parse_ok in E' as [-> Hr'].
    by eapply report_text_order.
Qed.

(** A census never races the reports it counts: when a clock says that a
    window is complete, every clock within twice the skew from it is past the
    deadline for submitting reports of that window; and the window is the last
    one that closed. *)
Theorem census_after_reports `{Ulid} c now window :
  validate c = Ok tt → 0 <= InternalSettings.max_clock_skew (Sampling.settings c) →
  fits 64 now → Timing.completed (Timing.new c) now = Some window →
  ∃ e, Timing.end_ (Timing.new c) window = Some e ∧
    (∀ writer, now <= writer + 2 * skew_ms c → e + Timing.submission (Timing.new c) < writer) ∧
    now < e + Timing.width (Timing.new c) + Timing.closure (Timing.new c).
Proof.
  intros Hv Hs Hn Hd. destruct (timing_margins c Hv Hs) as (Hw & Hk & Hdis & _ & Hsub & Hcl & Hclw).
  destruct (completed_bounds c now window Hv Hs Hn Hd) as (H0 & Hlo & Hhi). unfold fits in Hn.
  eexists. split; [apply end_small; lia|]. split; [intros writer Hwr|]; lia.
Qed.

(** ** Examples: identities in hexadecimal, draws from a sum *)

Lemma example_ulid_law u : fits 128 u → parse_hex_digits 128 (hex_fixed 32 u) = Some u.
Proof. intros Hu. unfold fits in Hu. apply parse_hex_fixed; [cbn; lia|lia]. Qed.

Definition example_ulid : Ulid :=
  Build_Ulid (parse_hex_digits 128) (hex_fixed 32) example_ulid_law (hex_no_dot 32).

Definition example_draw (parts : list bytes) : Z :=
  cast 64 (foldl (λ h b, cast 64 (Z.lxor h (b2z b) * 1099511628211)) 14695981039346656037 (concat parts)).

Lemma example_draw_fits parts : fits 64 (example_draw parts).
Proof. apply cast_fits. lia. Qed.

Definition example_draws : Draws :=
  Build_Draws (λ i p r, example_draw [i; p; r])
    (λ d i, example_draw (i :: concat (map (λ '(n, v), [n; v]) d)))
    (λ i p r, example_draw_fits _) (λ d i, example_draw_fits _).

Definition example_config (id : Z) : Sampling.t :=
  Sampling.mk [(lit "service", lit "a/b=c"); (lit "cell", lit "eu-1")] 15 (AssumePopulation 100)
    SECOND (hex_fixed 32 id) default_settings.

Lemma reports_isolated_witness :
  let _ := example_ulid in let _ := example_draws in
  let c := example_config 1 in
  let swapped := Sampling.mk [(lit "cell", lit "eu-1"); (lit "service", lit "a/b=c")] 20 Disabled
                   SECOND (hex_fixed 32 2) default_settings in
  Sampling.dimensions c ≡ₚ Sampling.dimensions swapped ∧ lit "census" = lit "census" ∧ 7 = 7.
Proof.
  intros U D c swapped.
  apply (reports_isolated c swapped (lit "census") (lit "census") 7 7 5 (Cutoff.mk None));
    [by left|by left|done|done|].
  assert (bool_decide (is_Some (strip_prefix (report_prefix c (lit "census") 7)
    (report_key swapped (lit "census") 7 5 (Cutoff.mk None)))) = true) as H by by vm_compute.
  by apply bool_decide_eq_true in H.
Defined.

Lemma census_after_reports_witness :
  let _ := example_ulid in
  ∃ e, Timing.end_ (Timing.new (example_config 1)) 1 = Some e ∧
    (∀ writer, 142000 <= writer + 2 * skew_ms (example_config 1) →
       e + Timing.submission (Timing.new (example_config 1)) < writer) ∧
    142000 < e + Timing.width (Timing.new (example_config 1)) + Timing.closure (Timing.new (example_config 1)).
Proof.
  intros U. apply (census_after_reports (example_config 1) 142000 1); [by vm_compute|done|done|by vm_compute].
Defined.
