(* ===== verification/Census.v ===== *)
(** * Sampling: the census of a window (dial9-sampling/src/protocol/census.rs)

    [observe] reads the reports of a completed window page by page, lowest
    ranks first, within a budget, and estimates how many processes wrote them.
    What the store answers to the k-th request is an argument; [serves] states
    the part of its documented contract that matters. *)

From Stdlib Require Import ZArith Lia SpecFloat.
From stdpp Require Import base list sorting strings option.
From coqutil Require Import Byte.
From S2P Require Import Prelude.
From S2P Require Import Text.
From S2P Require Import F64.
From S2P Require Import SamplingStore.
From S2P Require Import SamplingConfig.

(** ** Reading the pages *)

Module Sample.
Record t : Type := mk { estimate : f64; retained : Z }.
End Sample.

(** The locals of [observe]. *)
Module Scan.
Record t : Type := mk {
  reports : list Report.t;
  cursor : option ContinuationToken;
  cursors : list ContinuationToken;
  identities : list bytes;
  last_key : option bytes;
  exhausted : bool }.

Definition new : t := mk [] None [] [] None false.
Definition push (s : t) (key : bytes) (r : Report.t) : t :=
  mk (reports s ++ [r]) (cursor s) (cursors s) (Report.identity r :: identities s) (Some key) (exhausted s).
Definition turn_page (s : t) (next : option ContinuationToken) : t :=
  mk (reports s) next (option_list next ++ cursors s) (identities s) (last_key s) (bool_decide (next = None)).
End Scan.

(** The errors that say that the listing was not complete. *)
Definition page_cap : StoreError.t :=
  invalid (lit "LIST page cap reached without boundary or verified exhaustion").
Definition repeated_cursor : StoreError.t := invalid (lit "repeated LIST continuation cursor").

(** The sample below a boundary. *)
Definition estimate_of (boundary : Z) (reports : list Report.t) : result Sample.t StoreError.t :=
  if boundary =? 0 then Err (invalid (lit "zero rank boundary has no usable retained sample")) else
  let kept := base.filter (λ r, Report.rank r < boundary) reports in
  let estimate :=
    foldl (λ e r, fadd e (fdiv (f64_of SPACE) (f64_of (Z.min (Report.cutoff r) boundary)))) f64_zero kept in
  if is_finite estimate then Ok (Sample.mk estimate (blen kept))
  else Err (invalid (lit "census estimate overflow")).

(** The end of [observe], given the reports read and whether they are all. *)
Definition conclude (keep record_budget : Z) (reports : list Report.t) (exhausted : bool)
    : result Sample.t StoreError.t :=
  if blen reports =? record_budget then
    match reports !! Z.to_nat keep with
    | Some r => estimate_of (Report.rank r) reports
    | None => Err page_cap
    end
  else if exhausted then estimate_of SPACE reports
  else Err page_cap.

Section observe.
Context `{Ulid}.
Variable prefix : bytes.
Variable profiler : bool.

(** The objects of a page. *)
Fixpoint read_objects (objects : list bytes) (s : Scan.t) : result Scan.t StoreError.t :=
  match objects with
  | [] => Ok s
  | key :: objects =>
      if from_option (λ last, negb (str_ltb last key)) false (Scan.last_key s) then
        Err (invalid (lit "LIST keys are not globally strictly ordered"))
      else
        match parse key prefix profiler with
        | Err e => Err e
        | Ok r =>
            if bool_decide (Report.identity r ∈ Scan.identities s) then
              Err (invalid (lit "duplicate run identity in census window"))
            else read_objects objects (Scan.push s key r)
        end
  end.

(** What the store answers to the [k]-th request, or that its time ran out. *)
Variable ask : nat → ListRequest.t → result ListPage.t StoreError.t.

(** The loop over the page budget, from the [k]-th page. *)
Fixpoint read_pages (fuel k : nat) (record_budget : Z) (s : Scan.t) : result Scan.t StoreError.t :=
  match fuel with
  | O => Ok s
  | S fuel =>
      let size := Z.min (record_budget - blen (Scan.reports s)) 1000 in
      match ask k (ListRequest.mk prefix size (Scan.cursor s)) with
      | Err e => Err e
      | Ok page =>
          if size <? blen (ListPage.objects page) then
            Err (invalid (lit "LIST exceeded requested page bound"))
          else
            match read_objects (ListPage.objects page) s with
            | Err e => Err e
            | Ok s' =>
                let next := ListPage.continuation page in
                if from_option (λ token, bool_decide (token ∈ Scan.cursors s')) false next then
                  Err repeated_cursor
                else
                  let s' := Scan.turn_page s' next in
                  if Scan.exhausted s' || (blen (Scan.reports s') =? record_budget) then Ok s'
                  else read_pages fuel (S k) record_budget s'
            end
      end
  end.

Definition observe_pages (keep : Z) : result Sample.t StoreError.t :=
  match checked_add 64 keep 1 with
  | None => Err (invalid (lit "record budget overflow"))
  | Some record_budget =>
      match read_pages (Z.to_nat ((record_budget + 999) / 1000)) 0 record_budget Scan.new with
      | Err e => Err e
      | Ok s => conclude keep record_budget (Scan.reports s) (Scan.exhausted s)
      end
  end.
End observe.

Definition observe `{Ulid, Draws} (ask : nat → ListRequest.t → result ListPage.t StoreError.t)
    (c : Sampling.t) (channel : bytes) (window keep : Z) : result Sample.t StoreError.t :=
  observe_pages (report_prefix c channel window) (bool_decide (channel = lit "profilers")) ask keep.

(** ** What a census is *)

(** The listing of the keys [l], in pages of any length: cursors are positions,
    a page goes on from one, and only the end has no continuation. *)
Definition serves (l : list bytes) (position : ContinuationToken → nat)
    (ask : nat → ListRequest.t → result ListPage.t StoreError.t) : Prop :=
  ∀ k prefix size cursor, 0 < size →
    let start := from_option position 0%nat cursor in
    ∃ n next, ask k (ListRequest.mk prefix size cursor) = Ok (ListPage.mk (take n (drop start l)) next) ∧
      (start + n <= length l)%nat ∧ Z.of_nat n <= size ∧
      match next with
      | Some token => position token = (start + n)%nat ∧ (start + n < length l)%nat
      | None => start + n = length l
      end%nat.

(** Every page as long as it was asked to be, but for the last one. *)
Definition full_pages (l : list bytes) (ask : nat → ListRequest.t → result ListPage.t StoreError.t) : Prop :=
  ∀ k prefix size cursor objects token, 0 < size →
    ask k (ListRequest.mk prefix size cursor) = Ok (ListPage.mk objects (Some token)) →
    blen objects = size.

(** The keys of one window: in order, each a report, no process twice. *)
Record window_keys `{Ulid} (prefix : bytes) (profiler : bool) (l : list bytes) (rs : list Report.t) : Prop := {
  keys_order : Sorted (λ a b, str_ltb a b = true) l;
  keys_parse : Forall2 (λ key r, parse key prefix profiler = Ok r) l rs;
  keys_distinct : NoDup (map Report.identity rs) }.

(** The census of all the reports of a window, in the order of their ranks: the
    sample is what lies below the rank number [keep], which would make it too
    large; everything when there are no more. *)
Definition census_of (keep : Z) (rs : list Report.t) : result Sample.t StoreError.t :=
  estimate_of (from_option Report.rank SPACE (rs !! Z.to_nat keep)) rs.

(** ** The pages read make up the listing *)

Lemma strongly_sorted_lookup {A} (R : A → A → Prop) l i j x y :
  StronglySorted R l → l !! i = Some x → l !! j = Some y → (i < j)%nat → R x y.
Proof.
  intros Hs. revert i j. induction Hs as [|z l Hs IH Hz]; intros i j Hi Hj Hlt; [done|].
  destruct j as [|j]; [lia|]. destruct i as [|i]; cbn in Hi, Hj.
  - injection Hi as ->. rewrite list.Forall_forall in Hz. by eapply Hz, list_elem_of_lookup_2.
  - eapply IH; [exact Hi|exact Hj|lia].
Qed.

Lemma filter_none {A} (P : A → Prop) `{∀ x, Decision (P x)} l : Forall (λ x, ¬ P x) l → base.filter P l = [].
Proof. induction 1 as [|x l Hx _ IH]; [done|]. by rewrite filter_cons_False. Qed.

Section listing.
Context `{Ulid}.
Context (prefix : bytes) (profiler : bool) (l : list bytes) (rs : list Report.t).
Context (keys : window_keys prefix profiler l rs).

Lemma keys_length : length l = length rs.
Proof. eapply Forall2_length, keys_parse, keys. Qed.

Lemma key_at i key :
  l !! i = Some key → ∃ r, rs !! i = Some r ∧ parse key prefix profiler = Ok r.
Proof. intros Hk. eapply Forall2_lookup_l in Hk; [exact Hk|apply keys]. Qed.

Lemma key_after i a b : l !! i = Some a → l !! S i = Some b → str_ltb a b = true.
Proof.
  pose proof (keys_order _ _ _ _ keys) as Hs. revert i. clear keys. induction Hs as [|x k Hs IH Hx]; intros i; [done|].
  destruct i as [|i]; cbn.
  - intros [= <-]. destruct k as [|y k]; [done|]. intros [= <-]. by inversion Hx.
  - apply IH.
Qed.

(** The first [p] keys have been read. *)
Record read_to (p : nat) (s : Scan.t) : Prop := {
  read_reports : Scan.reports s = take p rs;
  read_last : Scan.last_key s = list.last (take p l);
  read_ids : ∀ i, i ∈ Scan.identities s ↔ i ∈ map Report.identity (take p rs) }.

Lemma read_objects_to n p s :
  read_to p s → (p + n <= length l)%nat →
  ∃ s', read_objects prefix profiler (take n (drop p l)) s = Ok s' ∧ read_to (p + n) s' ∧
    Scan.cursors s' = Scan.cursors s.
Proof.
  revert p s. induction n as [|n IH]; intros p s Hs Hp.
  { exists s. by rewrite Nat.add_0_r. }
  destruct (lookup_lt_is_Some_2 l p ltac:(lia)) as [key Hk]. destruct (key_at p key Hk) as (r & Hr & Ep).
  rewrite (drop_S _ _ _ Hk). cbn [take read_objects]. rewrite (read_last _ _ Hs).
  assert (from_option (λ last, negb (str_ltb last key)) false (list.last (take p l)) = false) as ->.
  { destruct p as [|p]; [by rewrite take_0|].
    destruct (lookup_lt_is_Some_2 l p ltac:(lia)) as [before Hb].
    rewrite (take_S_r _ _ _ Hb), last_snoc. cbn. by rewrite (key_after p before key). }
  rewrite Ep. rewrite bool_decide_false.
  2:{ rewrite (read_ids _ _ Hs). intros Hin.
      pose proof (keys_distinct _ _ _ _ keys) as Hd. rewrite <- (take_drop_middle rs p r Hr) in Hd.
      rewrite map_app in Hd. apply list.NoDup_app in Hd as (_ & Hd & _). apply (Hd _ Hin). cbn. by left. }
  destruct (IH (S p) (Scan.push s key r)) as (s' & E & Hs' & Hc); [|lia|].
  - split; cbn [Scan.push Scan.reports Scan.last_key Scan.identities].
    + by rewrite (read_reports _ _ Hs), (take_S_r _ _ _ Hr).
    + by rewrite (take_S_r _ _ _ Hk), last_snoc.
    + intros i. rewrite (take_S_r _ _ _ Hr), map_app, elem_of_app, elem_of_cons, (read_ids _ _ Hs). cbn.
      rewrite list_elem_of_singleton. tauto.
  - exists s'. replace (p + S n)%nat with (S p + n)%nat by lia. done.
Qed.

Context (position : ContinuationToken → nat) (ask : nat → ListRequest.t → result ListPage.t StoreError.t).
Context (contract : serves l position ask).

(** Between two pages. *)
Definition at_page (p : nat) (s : Scan.t) : Prop :=
  read_to p s ∧ (p <= length l)%nat ∧ from_option position 0%nat (Scan.cursor s) = p ∧
  Forall (λ token, (position token <= p)%nat) (Scan.cursors s).

(** One page. *)
Lemma page_read k p budget s :
  at_page p s → Z.of_nat p < budget →
  let size := Z.min (budget - blen (Scan.reports s)) 1000 in
  ∃ n next s',
    ask k (ListRequest.mk prefix size (Scan.cursor s)) = Ok (ListPage.mk (take n (drop p l)) next) ∧
    read_objects prefix profiler (take n (drop p l)) s = Ok s' ∧ read_to (p + n) s' ∧
    Scan.cursors s' = Scan.cursors s ∧ size = Z.min (budget - Z.of_nat p) 1000 ∧
    (p + n <= length l)%nat ∧ Z.of_nat n <= size ∧ blen (take n (drop p l)) = Z.of_nat n ∧
    match next with
    | Some token => position token = (p + n)%nat ∧ (p + n < length l)%nat
    | None => (p + n = length l)%nat
    end.
Proof.
  intros (Hs & Hp & Hcur & _) Hb size.
  assert (blen (Scan.reports s) = Z.of_nat p) as Hlen.
  { rewrite (read_reports _ _ Hs). unfold blen. rewrite length_take, <- keys_length. lia. }
  destruct (contract k prefix size (Scan.cursor s)) as (n & next & E & Hn & Hsz & Hnext); [lia|].
  rewrite Hcur in E, Hn, Hnext. destruct (read_objects_to n p s Hs Hn) as (s' & Es & Hs' & Hc).
  exists n, next, s'. split_and!; try done; [lia|]. unfold blen. rewrite length_take, length_drop. lia.
Qed.

Lemma read_pages_to fuel k p budget s :
  at_page p s → Z.of_nat p < budget → Scan.exhausted s = false →
  (read_pages prefix profiler ask fuel k budget s = Err repeated_cursor ∨
   ∃ q s', read_pages prefix profiler ask fuel k budget s = Ok s' ∧ read_to q s' ∧ (q <= length l)%nat ∧
     Z.of_nat q <= budget ∧ (Scan.exhausted s' = true → q = length l)) ∧
  (full_pages l ask → budget - Z.of_nat p <= 1000 * Z.of_nat fuel →
   ∃ q s', read_pages prefix profiler ask fuel k budget s = Ok s' ∧ read_to q s' ∧ (q <= length l)%nat ∧
     Z.of_nat q <= budget ∧ (Z.of_nat q = budget ∨ q = length l ∧ Scan.exhausted s' = true)).
Proof.
  revert k p s. induction fuel as [|fuel IH]; intros k p s Hat Hb Hex.
  { split; [|lia]. right. exists p, s. destruct Hat as (? & ? & _). rewrite Hex. split_and!; try done; lia. }
  cbn [read_pages]. destruct (page_read k p budget s Hat Hb)
    as (n & next & s' & E & Es & Hs' & Hc & Hsize & Hn & Hsz & Hbn & Hnext).
  rewrite E. cbn [ListPage.objects ListPage.continuation]. rewrite Hbn, Hsize, (proj2 (Z.ltb_ge _ _)) by lia.
  rewrite Es. destruct Hat as (_ & _ & _ & Hcs). rewrite <- Hc in Hcs.
  assert (∀ t, read_to (p + n) (Scan.turn_page s' t)) as Hturn by (intros t; by destruct Hs').
  assert (blen (Scan.reports s') = Z.of_nat (p + n)) as Hlen.
  { rewrite (read_reports _ _ Hs'). unfold blen. rewrite length_take, <- keys_length. lia. }
  destruct next as [token|]; cbn [from_option Scan.turn_page Scan.exhausted Scan.reports orb].
  2:{ rewrite bool_decide_true by done. cbn [orb]. split.
      - right. exists (p + n)%nat, (Scan.turn_page s' None). split_and!; try done; lia.
      - intros _ _. exists (p + n)%nat, (Scan.turn_page s' None). split_and!; try done; try lia. by right. }
  rewrite (bool_decide_false (Some token = None)) by done. cbn [orb]. destruct Hnext as [Hpos Hmore].
  assert (full_pages l ask → (0 < n)%nat ∧ Z.of_nat n = Z.min (budget - Z.of_nat p) 1000) as Hfull.
  { intros Hf. apply Hf in E; [|lia]. rewrite Hbn in E. lia. }
  rewrite Hlen. destruct (bool_decide_reflect (token ∈ Scan.cursors s')) as [Hin|Hnin].
  { split; [by left|]. intros Hf. apply Hfull in Hf as [Hf _]. exfalso.
    rewrite list.Forall_forall in Hcs. apply Hcs in Hin. lia. }
  destruct (Z.eqb_spec (Z.of_nat (p + n)) budget) as [Heq|Hne].
  { split; [right|intros _ _]; exists (p + n)%nat, (Scan.turn_page s' (Some token)); split_and!; try done; lia. }
  destruct (IH (S k) (p + n)%nat (Scan.turn_page s' (Some token))) as [IH1 IH2]; [|lia|by apply bool_decide_false|].
  { split_and!; [done|lia|done|]. cbn. constructor; [lia|]. eapply list.Forall_impl; [exact Hcs|]. cbn. lia. }
  split; [done|]. intros Hf Hfuel. destruct (Hfull Hf). apply IH2; [done|lia].
Qed.

(** Ranks grow along the listing. *)
Lemma ranks_grow i j r r' :
  rs !! i = Some r → rs !! j = Some r' → (i <= j)%nat → Report.rank r <= Report.rank r'.
Proof.
  intros Hi Hj Hle. destruct (decide (i = j)) as [->|Hne]; [rewrite Hi in Hj; injection Hj as ->; lia|].
  pose proof (keys_parse _ _ _ _ keys) as Hp.
  destruct (Forall2_lookup_r _ _ _ _ _ Hp Hi) as (key & Hk & E).
  destruct (Forall2_lookup_r _ _ _ _ _ Hp Hj) as (key' & Hk' & E').
  assert (str_ltb key key' = true) as Hlt.
  { assert (StronglySorted (λ a b, str_ltb a b = true) l) as Hs.
    { apply Sorted_StronglySorted; [|apply keys]. intros x y z. apply str_ltb_trans. }
    eapply (strongly_sorted_lookup _ _ _ _ _ _ Hs); [exact Hk|exact Hk'|lia]. }
  apply parse_ok in E as [-> Hr]. apply parse_ok in E' as [-> Hr'].
  by eapply report_text_order.
Qed.

(** Reports beyond the boundary do not count. *)
Lemma estimate_prefix q r :
  (∀ i r', rs !! i = Some r' → (q <= i)%nat → Report.rank r <= Report.rank r') →
  estimate_of (Report.rank r) (take q rs) = estimate_of (Report.rank r) rs.
Proof.
  intros Hr. unfold estimate_of.
  assert (base.filter (λ x, Report.rank x < Report.rank r) rs =
    base.filter (λ x, Report.rank x < Report.rank r) (take q rs)) as ->; [|done].
  rewrite <- (take_drop q rs) at 1. rewrite list.filter_app, <- app_nil_r. f_equal.
  apply filter_none, Forall_lookup. intros i r' Hi. rewrite lookup_drop in Hi.
  specialize (Hr _ _ Hi ltac:(lia)). lia.
Qed.

(** What of the listing the conclusion looks at. *)
Lemma conclude_prefix keep q b :
  0 <= keep → (q <= length l)%nat → Z.of_nat q = keep + 1 ∨ Z.of_nat q < keep + 1 ∧ q = length l ∧ b = true →
  conclude keep (keep + 1) (take q rs) b = census_of keep rs.
Proof.
  intros Hk Hq Hcase. pose proof keys_length. unfold conclude, census_of.
  assert (blen (take q rs) = Z.of_nat q) as -> by (unfold blen; rewrite length_take; lia).
  destruct Hcase as [Hq1|(Hlt & -> & ->)].
  - rewrite (proj2 (Z.eqb_eq _ _)) by done. rewrite lookup_take_lt by lia.
    destruct (lookup_lt_is_Some_2 rs (Z.to_nat keep) ltac:(lia)) as [r Hr]. rewrite Hr. cbn.
    apply estimate_prefix. intros i r' Hi Hge. eapply ranks_grow; [exact Hr|exact Hi|lia].
  - rewrite (proj2 (Z.eqb_neq _ _)) by lia. rewrite H0, firstn_all, lookup_ge_None_2 by lia. done.
Qed.

(** No more than [keep] of them count. *)
Lemma census_retained keep s : 0 <= keep → census_of keep rs = Ok s → Sample.retained s <= keep.
Proof.
  intros Hk. unfold census_of, estimate_of.
  set (b := from_option _ _ _). destruct (b =? 0); [done|]. destruct (is_finite _); [|done].
  intros [= <-]. cbn [Sample.retained].
  assert (base.filter (λ x, Report.rank x < b) (drop (Z.to_nat keep) rs) = []) as Hd.
  { apply filter_none, Forall_lookup. intros i r' Hi. rewrite lookup_drop in Hi. subst b.
    destruct (rs !! Z.to_nat keep) as [r|] eqn:Er; cbn.
    - pose proof (ranks_grow _ _ _ _ Er Hi ltac:(lia)). lia.
    - apply lookup_ge_None_1 in Er. apply lookup_lt_Some in Hi. lia. }
  rewrite <- (take_drop (Z.to_nat keep) rs), list.filter_app, Hd, app_nil_r. unfold blen.
  pose proof (length_filter (λ x, Report.rank x < b) (take (Z.to_nat keep) rs)).
  rewrite length_take in *. lia.
Qed.

Lemma read_pages_start keep :
  0 <= keep →
  at_page 0 Scan.new ∧ Z.of_nat 0 < keep + 1 ∧ keep + 1 - Z.of_nat 0 <= 1000 * Z.of_nat (Z.to_nat ((keep + 1 + 999) / 1000)).
Proof.
  intros Hk. split; [|split; [lia|]].
  - split; [|split; [lia|done]]. by split.
  - pose proof (Z.div_mod (keep + 1 + 999) 1000 ltac:(lia)).
    pose proof (Z.mod_pos_bound (keep + 1 + 999) 1000 ltac:(lia)). lia.
Qed.
End listing.

(** ** Main properties *)

(** C13: A census does not depend on how the store cuts its listing into pages:
    of a listing of a window's reports that a store serves by the documented
    contract, [observe] either makes exactly the census of all the reports of
    the window, although it reads no more of them than it must, or refuses to
    make one because the pages ended without a boundary or a cursor came back;
    when no page is shorter than it was asked to be it always makes the census;
    and a census counts no more than the [keep] lowest ranks. *)
Theorem census_exact `{Ulid} prefix profiler l rs position ask keep :
  window_keys prefix profiler l rs → serves l position ask → 0 <= keep → fits 64 (keep + 1) →
  let result := observe_pages prefix profiler ask keep in
  (result = census_of keep rs ∨ result = Err page_cap ∨ result = Err repeated_cursor) ∧
  (full_pages l ask → result = census_of keep rs) ∧
  (∀ s, census_of keep rs = Ok s → Sample.retained s <= keep).
Proof.
  intros Hl Hc Hk Hf result. subst result.
  apply Logic.and_assoc. split; [|by intros s; eapply census_retained]. unfold observe_pages, checked_add.
  rewrite (proj2 (Z.ltb_lt _ _)) by (unfold fits in Hf; lia).
  destruct (read_pages_start l rs position keep Hk) as (Hat & H0 & Hfuel).
  destruct (read_pages_to prefix profiler l rs Hl position ask Hc
    (Z.to_nat ((keep + 1 + 999) / 1000)) 0 0 (keep + 1) Scan.new Hat H0 eq_refl) as [Hany Hfull]. split.
  - destruct Hany as [->|(q & s & -> & Hs & Hq & Hb & Hex)]; [by right; right|].
    rewrite (read_reports _ _ _ _ Hs).
    destruct (decide (Z.of_nat q = keep + 1)) as [E|E].
    { left. eapply conclude_prefix; try done. by left. }
    destruct (Scan.exhausted s).
    { left. eapply conclude_prefix; try done. right. split; [lia|]. by rewrite Hex. }
    right. left. unfold conclude. rewrite (proj2 (Z.eqb_neq _ _)); [done|].
    unfold blen. rewrite length_take, <- (keys_length _ _ _ _ Hl). lia.
  - intros Hp. destruct (Hfull Hp Hfuel) as (q & s & -> & Hs & Hend). rewrite (read_reports _ _ _ _ Hs).
    destruct Hend as (Hq & Hb & [E|[-> ->]]); eapply conclude_prefix; try done; [by left|].
    destruct (decide (Z.of_nat (length l) = keep + 1)); [by left|right; split; [lia|done]].
Qed.

(** ** Example: a listing of three reports, in pages as long as asked *)

Definition example_position (l : list bytes) (token : ContinuationToken) : nat :=
  Nat.min (length l) (Z.to_nat (default 0 (parse_uint 64 token))).

Definition example_ask (l : list bytes) (k : nat) (req : ListRequest.t) : result ListPage.t StoreError.t :=
  let start := from_option (example_position l) 0%nat (ListRequest.continuation req) in
  let n := Nat.min (Z.to_nat (ListRequest.page_size req)) (length l - start) in
  Ok (ListPage.mk (take n (drop start l))
        (if bool_decide (start + n = length l)%nat then None else Some (put_dec (Z.of_nat (start + n))))).

Lemma example_serves l : blen l < 2 ^ 64 → serves l (example_position l) (example_ask l).
Proof.
  intros Hl k prefix size cursor Hsize start.
  assert (start <= length l)%nat as Hs by (subst start; destruct cursor; cbn; unfold example_position; lia).
  exists (Nat.min (Z.to_nat size) (length l - start)), (if bool_decide (start + Nat.min (Z.to_nat size)
    (length l - start) = length l)%nat then None else Some (put_dec (Z.of_nat (start + Nat.min (Z.to_nat size)
    (length l - start))))). split; [done|]. split; [lia|]. split; [lia|]. unfold blen in Hl.
  case_bool_decide as E; [done|]. unfold example_position. rewrite parse_uint_put by lia. cbn. lia.
Qed.

Lemma example_full l : blen l < 2 ^ 64 → full_pages l (example_ask l).
Proof.
  intros Hl k prefix size cursor objects token Hs. unfold example_ask.
  cbn [ListRequest.page_size ListRequest.continuation].
  set (start := from_option _ _ _). assert (start <= length l)%nat.
  { subst start. destruct cursor; cbn; unfold example_position; lia. }
  case_bool_decide as E; [done|]. intros [= <- _]. unfold blen. rewrite length_take, length_drop. lia.
Qed.

Definition example_reports : list Report.t :=
  [Report.mk 16 SPACE (hex_fixed 32 3); Report.mk 300 SPACE (hex_fixed 32 1);
   Report.mk 70000 100000 (hex_fixed 32 2)].

Definition example_keys (prefix : bytes) : list bytes :=
  map (λ r, prefix ++ @report_text r) example_reports.

Lemma census_exact_witness :
  let _ := example_ulid in
  let l := example_keys (lit "p/") in
  (observe_pages (lit "p/") false (example_ask l) 2 = census_of 2 example_reports ∨
   observe_pages (lit "p/") false (example_ask l) 2 = Err page_cap ∨
   observe_pages (lit "p/") false (example_ask l) 2 = Err repeated_cursor) ∧
  (full_pages l (example_ask l) → observe_pages (lit "p/") false (example_ask l) 2 = census_of 2 example_reports) ∧
  (∀ s, census_of 2 example_reports = Ok s → Sample.retained s <= 2).
Proof.
  intros U l.
  apply (census_exact (lit "p/") false l example_reports (example_position l) (example_ask l) 2);
    [|by apply example_serves|done|done].
  split.
  - repeat (constructor; [|constructor; by vm_compute]). constructor.
  - repeat (constructor; [by vm_compute|]). constructor.
  - apply (bool_decide_unpack _). by vm_compute.
Defined.
