(* ===== verification/Roster.v ===== *)
(** * Sampling: the roster of a pool (dial9-sampling/src/protocol/engine.rs)

    The shared object the processes of a pool meet at: its fields, what makes
    them valid, how it is decoded, how a leader updates it after a census, the
    lease that makes a process the leader, and the cache in which a process
    keeps the last version it has seen. *)

From Stdlib Require Import ZArith Lia SpecFloat.
From stdpp Require Import base list strings option.
From coqutil Require Import Byte.
From S2P Require Import Prelude.
From S2P Require Import Text.
From S2P Require Import F64.
From S2P Require Import SamplingStore.
From S2P Require Import SamplingConfig.
From S2P Require Import Census.

(** ** Records *)

Definition SCHEMA : Z := 6.

Module Policy.
Record t : Type := mk { schema : Z; pool : bytes; poll_ms : Z; window_ms : Z; skew_ms : Z }.
Definition new `{Draws} (c : Sampling.t) : t :=
  mk SCHEMA (pool_path c) (SamplingConfig.poll_ms c) (SamplingConfig.window_ms c) (SamplingConfig.skew_ms c).
End Policy.

Module Control.
Record t : Type := mk { source_window : option Z; effective_window : Z; reporting : Cutoff.t }.
Definition bootstrap : t := mk None 0 (Cutoff.mk None).
Definition valid (x : t) : bool :=
  (0 <? Cutoff.value (reporting x)) && from_option (λ w, w <? effective_window x) true (source_window x).
End Control.

Module Population.
Record t : Type := mk { window : Z; estimate : f64; computed_ms : Z }.

Definition fresh (x : t) (now : Z) (c : Sampling.t) : bool :=
  let timing := Timing.new c in
  match Timing.end_ timing (window x) with
  | Some e =>
      (e <=? computed_ms x) && (computed_ms x <=? saturating_add 64 now (skew_ms c * 2))
      && (now <=? saturating_add 64 e (Timing.age timing))
  | None => false
  end.

Definition admission (x : t) (target : Z) : Cutoff.t :=
  Cutoff.threshold
    (Z.max (Cutoff.value (Cutoff.from_probability (fdiv (f64_of target) (estimate x))))
       (if 0 <? target then 1 else 0)).
End Population.

Module Trim.
Record t : Type := mk {
  epoch : Z; salt : bytes; source_window : Z; effective_window : Z; created_ms : Z; survival : Cutoff.t }.
End Trim.

Module Roster.
Record t : Type := mk {
  policy : Policy.t;
  holder : bytes;
  revision : bytes;
  epoch : Z;
  control : Control.t;
  next_control : option Control.t;
  population : option Population.t;
  trim : option Trim.t;
  last_window : option Z;
  released : bool }.

Definition set_identity (r : t) (holder revision : bytes) (epoch : Z) : t :=
  mk (policy r) holder revision epoch (control r) (next_control r) (population r) (trim r)
    (last_window r) (released r).
Definition set_controls (r : t) (control : Control.t) (next : option Control.t) : t :=
  mk (policy r) (holder r) (revision r) (epoch r) control next (population r) (trim r)
    (last_window r) (released r).
Definition set_population (r : t) (p : option Population.t) : t :=
  mk (policy r) (holder r) (revision r) (epoch r) (control r) (next_control r) p (trim r)
    (last_window r) (released r).
Definition set_trim (r : t) (x : option Trim.t) : t :=
  mk (policy r) (holder r) (revision r) (epoch r) (control r) (next_control r) (population r) x
    (last_window r) (released r).
Definition set_last_window (r : t) (w : option Z) : t :=
  mk (policy r) (holder r) (revision r) (epoch r) (control r) (next_control r) (population r) (trim r)
    w (released r).
Definition set_released (r : t) (b : bool) : t :=
  mk (policy r) (holder r) (revision r) (epoch r) (control r) (next_control r) (population r) (trim r)
    (last_window r) b.
End Roster.

#[global] Instance Cutoff_eq_dec : EqDecision Cutoff.t.
Proof. solve_decision. Defined.
#[global] Instance Policy_eq_dec : EqDecision Policy.t.
Proof. solve_decision. Defined.
#[global] Instance Control_eq_dec : EqDecision Control.t.
Proof. solve_decision. Defined.
#[global] Instance f64_eq_dec : EqDecision f64.
Proof. solve_decision. Defined.
#[global] Instance Population_eq_dec : EqDecision Population.t.
Proof. solve_decision. Defined.
#[global] Instance Trim_eq_dec : EqDecision Trim.t.
Proof. solve_decision. Defined.
#[global] Instance Roster_eq_dec : EqDecision Roster.t.
Proof. solve_decision. Defined.

(** The next control takes over in its window. *)
Definition promote (window : Z) (r : Roster.t) : Roster.t :=
  match Roster.next_control r with
  | Some c => if Control.effective_window c <=? window then Roster.set_controls r c None else r
  | None => r
  end.

Definition applicable (r : Roster.t) (window : Z) : option Control.t :=
  match Roster.next_control r with
  | Some c =>
      if Control.effective_window c <=? window then Some c
      else if Control.effective_window (Roster.control r) <=? window then Some (Roster.control r) else None
  | None => if Control.effective_window (Roster.control r) <=? window then Some (Roster.control r) else None
  end.

(** [nonce]: what [nonce()] gives, a new identity each time. *)
Definition mutate (invocation_id nonce : bytes) (r : Roster.t) : result Roster.t StoreError.t :=
  match checked_add 64 (Roster.epoch r) 1 with
  | Some e => Ok (Roster.set_identity r invocation_id nonce e)
  | None => Err (invalid (lit "roster epoch overflow"))
  end.

Section roster.
Context `{Ulid, Draws}.

Definition initial (c : Sampling.t) (invocation_id nonce : bytes) : Roster.t :=
  Roster.mk (Policy.new c) invocation_id nonce 0 Control.bootstrap None None None None false.

Definition created (c : Sampling.t) (invocation_id nonce : bytes) (now_ms : Z) : Roster.t :=
  let r := initial c invocation_id nonce in
  Roster.set_identity r (Roster.holder r) (Roster.revision r) now_ms.

Definition is_ulid (s : bytes) : bool := bool_decide (is_Some (ulid_parse s)).

Definition roster_validate (r : Roster.t) : result unit StoreError.t :=
  if negb (is_ulid (Roster.holder r)) || negb (is_ulid (Roster.revision r))
     || negb (Control.valid (Roster.control r))
     || from_option (λ c, negb (Control.valid c)
          || (Control.effective_window c <=? Control.effective_window (Roster.control r)))
          false (Roster.next_control r)
     || from_option (λ p, negb (is_finite (Population.estimate p)) || negb (fgt (Population.estimate p) f64_zero))
          false (Roster.population r)
     || from_option (λ t, (Roster.epoch r <? Trim.epoch t) || negb (is_ulid (Trim.salt t))
          || (Trim.effective_window t <=? Trim.source_window t) || (Cutoff.value (Trim.survival t) =? 0))
          false (Roster.trim r)
  then Err (invalid (lit "invalid sampling roster fields"))
  else Ok tt.

Definition roster_admission (r : Roster.t) (c : Sampling.t) (now : Z) : option Cutoff.t :=
  match Roster.population r with
  | Some p => if Population.fresh p now c then Some (Population.admission p (target c)) else None
  | None => None
  end.

(** ** The leader's update *)

(** The cutoff of the reports to come. *)
Definition next_reporting (r : Roster.t) (c : Sampling.t) (sample : Sample.t) : Cutoff.t :=
  let budget := target c * 32 in
  let nominal :=
    if fgt (Sample.estimate sample) f64_zero
    then Some (Cutoff.from_probability (fdiv (f64_of budget) (Sample.estimate sample))) else None in
  if Sample.retained sample <? budget / 2 then
    Cutoff.threshold
      (Z.max (Z.min (Cutoff.value (Control.reporting (Roster.control r)) * 2) SPACE)
         (from_option Cutoff.value 1 nominal))
  else default (Control.reporting (Roster.control r)) nominal.

Definition update_census (r : Roster.t) (c : Sampling.t) (window now : Z) (sample : Sample.t) : Roster.t :=
  let r := Roster.set_controls r (Roster.control r)
             (Some (Control.mk (Some window) (now / Timing.width (Timing.new c) + 1)
                      (Cutoff.threshold (Z.max (Cutoff.value (next_reporting r c sample)) 1)))) in
  if fgt (Sample.estimate sample) f64_zero
  then Roster.set_population r (Some (Population.mk window (Sample.estimate sample) now)) else r.

(** Thinning, at most once per effective window. *)
Definition update_profilers (r : Roster.t) (c : Sampling.t) (window now : Z) (salt : bytes)
    (sample : Sample.t) : Roster.t :=
  let timing := Timing.new c in
  if fgt (Sample.estimate sample) (f64_of (saturating_add 32 (target c) (overshoot c)))
     && from_option (λ t, saturating_add 64 (Trim.effective_window t) 1 <=? window) true (Roster.trim r)
  then
    let lead := Timing.width timing + 2 * skew_ms c + 3 * (Timing.operation timing / MILLISECOND)
                + Timing.dispatch timing in
    Roster.set_trim r
      (Some (Trim.mk (Roster.epoch r) salt window
               (saturating_add 64 now lead / Timing.width timing + 1) now
               (Cutoff.threshold
                  (Z.max (Cutoff.value (Cutoff.from_probability (fdiv (f64_of (target c)) (Sample.estimate sample)))) 1))))
  else r.

Definition update (r : Roster.t) (c : Sampling.t) (window now : Z)
    (census profilers : result Sample.t StoreError.t) (salt : bytes) : Roster.t :=
  let r := match census with Ok s => update_census r c window now s | Err _ => r end in
  match profilers with Ok s => update_profilers r c window now salt s | Err _ => r end.
End roster.

(** ** Reading the object *)

Definition finite_estimate (r : Roster.t) : bool :=
  from_option (λ p, is_finite (Population.estimate p)) true (Roster.population r).

(** Two rosters that differ at most in the digits of the estimate. *)
Definition same_but_estimate (r r' : Roster.t) : Prop :=
  Roster.set_population r None = Roster.set_population r' None ∧
  (λ p, (Population.window p, Population.computed_ms p)) <$> Roster.population r
  = (λ p, (Population.window p, Population.computed_ms p)) <$> Roster.population r'.

(** serde_json: the schema number in a body, and the roster; the text of a
    roster is read back, but for the rounding of the estimate. *)
Class Json : Type := {
  json : Type;
  json_text : Roster.t → json;
  json_header : json → option Z;
  json_roster : json → option Roster.t;
  json_header_text : ∀ r, json_header (json_text r) = Some (Policy.schema (Roster.policy r));
  json_roster_text : ∀ r, finite_estimate r = true →
    ∃ r', json_roster (json_text r) = Some r' ∧ same_but_estimate r r' }.

(** What a store identifies a body with. *)
Class Versions `{Json} : Type := {
  token : Type;
  token_eq_dec : EqDecision token;
  token_of : json → token;
  token_of_inj : Inj (=) (=) token_of }.

#[global] Existing Instance token_eq_dec.
#[global] Existing Instance token_of_inj.

Module Observed.
Record t `{Versions} : Type := mk { roster : Roster.t; version : token; modified_at : Z }.
Arguments mk {_ _} roster version modified_at.
End Observed.

Module Foreign.
Record t `{Versions} : Type := mk { version : token; modified_at : Z }.
Arguments mk {_ _} version modified_at.
End Foreign.

Module Cache.
Record t `{Versions} : Type := mk { observed : option Observed.t; foreign : option Foreign.t }.
Arguments mk {_ _} observed foreign.
End Cache.

(** [t.checked_add(d)] on a [SystemTime]: seconds in 63 bits. *)
Definition system_time_add (t d : Z) : option Z :=
  if t + d <? 2 ^ 63 * SECOND then Some (t + d) else None.

Section reading.
Context `{Ulid, Draws, Versions}.

Inductive Decoded : Type :=
| DecodedRoster (o : Observed.t)
| DecodedForeign (f : Foreign.t).

Definition decode (object : StoredObject.t json token) (c : Sampling.t) : result Decoded StoreError.t :=
  let foreign := DecodedForeign (Foreign.mk (StoredObject.version object) (StoredObject.modified_at object)) in
  match json_header (StoredObject.body object) with
  | None => Err (invalid (lit "header"))
  | Some schema =>
      if negb (schema =? SCHEMA) then Ok foreign else
      match json_roster (StoredObject.body object) with
      | None => Err (invalid (lit "body"))
      | Some r =>
          if negb (bool_decide (Roster.policy r = Policy.new c)) then Ok foreign else
          match roster_validate r with
          | Err e => Err e
          | Ok _ =>
              Ok (DecodedRoster (Observed.mk r (StoredObject.version object) (StoredObject.modified_at object)))
          end
      end
  end.

(** ** The lease *)

(** [uncertainty] is the store's. *)
Definition lease_deadline (uncertainty modified_at : Z) (c : Sampling.t) : option Z :=
  let s := Sampling.settings c in
  t ← system_time_add modified_at (Z.min DURATION_MAX (InternalSettings.poll_interval s * 3));
  t ← system_time_add t (InternalSettings.max_clock_skew s);
  system_time_add t uncertainty.

Definition lease_expired (uncertainty modified_at : Z) (c : Sampling.t) (now : Z) : bool :=
  from_option (λ deadline, deadline <? now) false (lease_deadline uncertainty modified_at c).

Definition expired (uncertainty : Z) (o : Observed.t) (c : Sampling.t) (now : Z) : bool :=
  lease_expired uncertainty (Observed.modified_at o) c now.

Definition claimable (uncertainty : Z) (o : Observed.t) (c : Sampling.t) (now : Z) : bool :=
  Roster.released (Observed.roster o) || expired uncertainty o c now.

(** ** The cache *)

Definition compatible (x : Cache.t) : bool := bool_decide (Cache.foreign x = None).

(** The new state, and whether its watchers are woken. *)
Definition publish_cache (x : Cache.t) (incoming : option Decoded) : bool * Cache.t :=
  match incoming with
  | Some (DecodedForeign f) =>
      if from_option (λ g, Foreign.modified_at f <=? Foreign.modified_at g) false (Cache.foreign x)
         || from_option (λ o, Foreign.modified_at f <? Observed.modified_at o) false (Cache.observed x)
      then (false, x)
      else (true, Cache.mk None (Some f))
  | Some (DecodedRoster o) =>
      match Cache.foreign x, Cache.observed x with
      | Some f, _ =>
          if Observed.modified_at o <=? Foreign.modified_at f then (false, x)
          else (true, Cache.mk (Some o) None)
      | None, Some old =>
          if (Roster.epoch (Observed.roster o) <? Roster.epoch (Observed.roster old))
             || ((Roster.epoch (Observed.roster o) =? Roster.epoch (Observed.roster old))
                 && negb (bool_decide (Roster.revision (Observed.roster o) = Roster.revision (Observed.roster old))))
          then (false, x)
          else (true, Cache.mk (Some o) None)
      | None, None => (true, Cache.mk (Some o) None)
      end
  | None => (bool_decide (Cache.observed x = None) && bool_decide (Cache.foreign x = None), x)
  end.
End reading.

(** ** Validity *)

Lemma threshold_value v : 0 <= v <= SPACE → Cutoff.value (Cutoff.threshold v) = v.
Proof.
  intros H. unfold Cutoff.value, Cutoff.threshold, SPACE in *. cbn.
  destruct (Z.ltb_spec v (2 ^ 64)); cbn; [done|unfold SPACE; lia].
Qed.

Lemma threshold_positive v : 0 < v → 0 < Cutoff.value (Cutoff.threshold v).
Proof.
  intros H. unfold Cutoff.value, Cutoff.threshold, SPACE. cbn.
  destruct (Z.ltb_spec v (2 ^ 64)); cbn; [done|by unfold SPACE].
Qed.

Section validity.
Context `{Ulid, Draws}.

(** The parts of a valid roster. *)
Definition control_ok (x : Control.t) : Prop :=
  0 < Cutoff.value (Control.reporting x) ∧
  from_option (λ w, w < Control.effective_window x) True (Control.source_window x).

Definition trim_ok (epoch : Z) (x : Trim.t) : Prop :=
  Trim.epoch x <= epoch ∧ is_ulid (Trim.salt x) = true ∧
  Trim.source_window x < Trim.effective_window x ∧ Cutoff.value (Trim.survival x) ≠ 0.

Lemma control_valid_iff x : Control.valid x = true ↔ control_ok x.
Proof.
  unfold Control.valid, control_ok. rewrite andb_true_iff, Z.ltb_lt.
  destruct (Control.source_window x); cbn; [by rewrite Z.ltb_lt|tauto].
Qed.

Lemma from_option_false {A} (f : A → bool) (P : A → Prop) (o : option A) :
  (∀ x, f x = false ↔ P x) → from_option f false o = false ↔ from_option P True o.
Proof. intros Hf. destruct o; cbn; [apply Hf|tauto]. Qed.

Lemma roster_validate_iff r :
  roster_validate r = Ok tt ↔
  is_ulid (Roster.holder r) = true ∧ is_ulid (Roster.revision r) = true ∧ control_ok (Roster.control r) ∧
  from_option (λ c, control_ok c ∧ Control.effective_window (Roster.control r) < Control.effective_window c)
    True (Roster.next_control r) ∧
  from_option (λ p, is_finite (Population.estimate p) = true ∧ fgt (Population.estimate p) f64_zero = true)
    True (Roster.population r) ∧
  from_option (trim_ok (Roster.epoch r)) True (Roster.trim r).
Proof.
  unfold roster_validate.
  match goal with |- (if ?b then _ else _) = _ ↔ _ => transitivity (b = false); [by destruct b|] end.
  rewrite !orb_false_iff, !negb_false_iff, control_valid_iff.
  rewrite (from_option_false _ (λ c, control_ok c ∧
    Control.effective_window (Roster.control r) < Control.effective_window c)).
  2:{ intros x. by rewrite orb_false_iff, negb_false_iff, Z.leb_gt, control_valid_iff. }
  rewrite (from_option_false _ (λ p, is_finite (Population.estimate p) = true ∧
    fgt (Population.estimate p) f64_zero = true)).
  2:{ intros x. by rewrite orb_false_iff, !negb_false_iff. }
  rewrite (from_option_false _ (trim_ok (Roster.epoch r))); [tauto|].
  intros x. unfold trim_ok. rewrite !orb_false_iff, negb_false_iff, Z.ltb_ge, Z.leb_gt, Z.eqb_neq. tauto.
Qed.

(** Thinning sets only the trim. *)
Lemma trimmed_valid r x :
  trim_ok (Roster.epoch r) x → roster_validate r = Ok tt → roster_validate (Roster.set_trim r (Some x)) = Ok tt.
Proof. rewrite !roster_validate_iff. cbn. tauto. Qed.

Lemma trimmed_valid_inv r x :
  from_option (trim_ok (Roster.epoch r)) True (Roster.trim r) →
  roster_validate (Roster.set_trim r (Some x)) = Ok tt → roster_validate r = Ok tt.
Proof. rewrite !roster_validate_iff. cbn. tauto. Qed.

(** A control taken over from a census. *)
Lemma renewed_valid r x :
  roster_validate r = Ok tt → control_ok x →
  roster_validate (Roster.set_controls r (Roster.control r) (Some x)) = Ok tt ↔
  Control.effective_window (Roster.control r) < Control.effective_window x.
Proof. rewrite !roster_validate_iff. cbn. tauto. Qed.

Lemma populated_valid r p :
  is_finite (Population.estimate p) = true → fgt (Population.estimate p) f64_zero = true →
  from_option (λ p, is_finite (Population.estimate p) = true ∧ fgt (Population.estimate p) f64_zero = true)
    True (Roster.population r) →
  roster_validate (Roster.set_population r (Some p)) = Ok tt ↔ roster_validate r = Ok tt.
Proof. rewrite !roster_validate_iff. cbn. tauto. Qed.

(** A sample as [observe] gives it. *)
Lemma observe_finite ask prefix profiler keep s :
  observe_pages prefix profiler ask keep = Ok s → is_finite (Sample.estimate s) = true.
Proof.
  unfold observe_pages, conclude, estimate_of. destruct (checked_add _ _ _); [|done].
  destruct (read_pages _ _ _ _ _ _ _); [|done].
  assert (∀ b l, (if b =? 0 then Err (invalid (lit "zero rank boundary has no usable retained sample")) else
     let kept := base.filter (λ r, Report.rank r < b) l in
     let estimate := foldl (λ e r, fadd e (fdiv (f64_of SPACE) (f64_of (Z.min (Report.cutoff r) b)))) f64_zero kept in
     if is_finite estimate then Ok (Sample.mk estimate (blen kept))
     else Err (invalid (lit "census estimate overflow"))) = Ok s → is_finite (Sample.estimate s) = true) as Hs.
  { intros b l. destruct (b =? 0); [done|]. cbn zeta. destruct (is_finite _) eqn:E; [|done]. by intros [= <-]. }
  destruct (_ =? _); [destruct (_ !! _); [apply Hs|done]|]. destruct (Scan.exhausted _); [apply Hs|done].
Qed.
End validity.

(** ** The cache is the latest of what was read *)

Section cache.
Context `{Ulid, Draws, Versions}.

Definition written_at (d : Decoded) : Z :=
  match d with DecodedRoster o => Observed.modified_at o | DecodedForeign f => Foreign.modified_at f end.

Definition epoch_of_read (d : Decoded) : option Z :=
  match d with DecodedRoster o => Some (Roster.epoch (Observed.roster o)) | DecodedForeign _ => None end.

(** The versions of the object, in the order they were written: the store's
    times tell them apart, and epochs of rosters of the policy grow. *)
Definition in_order (versions : list Decoded) : Prop :=
  ∀ i j a b, versions !! i = Some a → versions !! j = Some b → (i < j)%nat →
    written_at a < written_at b ∧
    (∀ e e', epoch_of_read a = Some e → epoch_of_read b = Some e' → e < e').

Definition empty_cache : Cache.t := Cache.mk None None.

Definition cache_of (d : option Decoded) : Cache.t :=
  match d with
  | None => empty_cache
  | Some (DecodedRoster o) => Cache.mk (Some o) None
  | Some (DecodedForeign f) => Cache.mk None (Some f)
  end.

Definition deliver (versions : list Decoded) (x : Cache.t) (read : option nat) : Cache.t :=
  snd (publish_cache x (k ← read; versions !! k)).

Lemma deliver_missing versions x : deliver versions x None = x.
Proof. done. Qed.

Lemma deliver_first versions k d : versions !! k = Some d → deliver versions empty_cache (Some k) = cache_of (Some d).
Proof. intros Hk. unfold deliver. cbn. rewrite Hk. by destruct d. Qed.

Lemma deliver_latest versions m k a d :
  in_order versions → versions !! m = Some a → versions !! k = Some d →
  deliver versions (cache_of (Some a)) (Some k) = cache_of (Some (if decide (m <= k)%nat then d else a)).
Proof.
  intros Ho Hm Hk. unfold deliver. cbn [mbind option_bind]. rewrite Hk.
  destruct (decide (m = k)) as [->|Hne].
  { rewrite Hk in Hm. injection Hm as ->. rewrite decide_True by done.
    destruct a as [o|f]; cbn.
    - by rewrite Z.ltb_irrefl, Z.eqb_refl, bool_decide_true.
    - by rewrite Z.leb_refl. }
  destruct (decide (m <= k)%nat).
  - destruct (Ho m k a d Hm Hk ltac:(lia)) as [Ht He].
    destruct a as [o|f], d as [o'|f']; cbn in *; unfold publish_cache; cbn.
    + specialize (He _ _ eq_refl eq_refl). split_tests; try lia. done.
    + split_tests; try lia; done.
    + split_tests; try lia; done.
    + split_tests; try lia; done.
  - destruct (Ho k m d a Hk Hm ltac:(lia)) as [Ht He].
    destruct a as [o|f], d as [o'|f']; cbn in *; unfold publish_cache; cbn.
    + specialize (He _ _ eq_refl eq_refl). split_tests; try lia; done.
    + split_tests; try lia; done.
    + split_tests; try lia; done.
    + split_tests; try lia; done.
Qed.

Lemma deliveries_latest versions reads m a :
  in_order versions → versions !! m = Some a → Forall (λ k, (k < length versions)%nat) (omap id reads) →
  foldl (deliver versions) (cache_of (Some a)) reads
  = cache_of (versions !! Nat.max m (max_list (omap id reads))).
Proof.
  intros Ho. revert m a. induction reads as [|[k|] reads IH]; intros m a Hm Hr; cbn [foldl omap list_omap] in *.
  - cbn. by rewrite Nat.max_0_r, Hm.
  - cbn [id] in *. apply list.Forall_cons in Hr as [Hk Hr].
    destruct (lookup_lt_is_Some_2 _ _ Hk) as [d Hd]. rewrite (deliver_latest _ m k a d) by done.
    destruct (decide (m <= k)%nat).
    + rewrite (IH k d) by done. cbn. do 2 f_equal. lia.
    + rewrite (IH m a) by done. cbn. do 2 f_equal. lia.
  - rewrite deliver_missing. by apply IH.
Qed.
End cache.

(** ** Main properties *)


(** What a leader publishes after a census is a valid roster, whatever the
    census found, exactly when the control in force is not of a later window
    than the leader's clock says: a leader whose clock is behind that publishes
    a roster that nobody can decode. *)
Theorem update_valid `{Ulid, Draws} c r window now census profilers salt :
  validate c = Ok tt → 0 <= InternalSettings.max_clock_skew (Sampling.settings c) →
  roster_validate r = Ok tt → is_ulid salt = true → fits 64 now →
  window <= now / Timing.width (Timing.new c) →
  (∀ s, census = Ok s → is_finite (Sample.estimate s) = true) →
  roster_validate (update r c window now census profilers salt) = Ok tt ↔
  (∀ s, census = Ok s → Control.effective_window (Roster.control r) <= now / Timing.width (Timing.new c)).
Proof.
  intros Hc Hs Hr Hsalt Hn Hw Hf. destruct (timing_margins c Hc Hs) as (Hwid & Hk & Hd & Ho & _).
  pose proof Hr as Hparts. rewrite roster_validate_iff in Hparts. destruct Hparts as (_ & _ & _ & _ & Hpop & Htrim).
  unfold update. set (r1 := match census with Ok s => update_census r c window now s | Err _ => r end).
  assert (Roster.trim r1 = Roster.trim r ∧ Roster.epoch r1 = Roster.epoch r) as [Et Ee].
  { subst r1. destruct census as [s|]; [|done]. unfold update_census. by destruct (fgt _ _). }
  transitivity (roster_validate r1 = Ok tt).
  - destruct profilers as [s|]; [|done]. unfold update_profilers. destruct (_ && _); [|done].
    split; [apply trimmed_valid_inv; by rewrite Et, Ee|]. apply trimmed_valid.
    split_and!; cbn [Trim.epoch Trim.salt Trim.source_window Trim.effective_window Trim.survival]; [lia|done| |].
    + apply Z.lt_succ_r in Hw. eapply Z.lt_le_trans; [exact Hw|].
      enough (now / Timing.width (Timing.new c) <= _) as Hle by (apply Zsucc_le_compat, Hle).
      apply Z.div_le_mono; [lia|]. unfold saturating_add, fits in *.
      pose proof (Z.div_pos (Timing.operation (Timing.new c)) MILLISECOND ltac:(lia) ltac:(done)). lia.
    + pose proof (threshold_positive (Z.max (Cutoff.value (Cutoff.from_probability
        (fdiv (f64_of (target c)) (Sample.estimate s)))) 1) ltac:(lia)). lia.
  - subst r1. destruct census as [s|e]; [|split; [by intros _ s|done]]. unfold update_census.
    set (x := Control.mk _ _ _). set (r2 := Roster.set_controls _ _ _).
    assert (control_ok x) as Hx.
    { split; cbn [x Control.reporting Control.source_window Control.effective_window from_option option_rect];
      [apply threshold_positive; lia|cbn [from_option]; lia]. }
    pose proof (renewed_valid r x Hr Hx) as H2. fold r2 in H2.
    assert (Control.effective_window (Roster.control r) < Control.effective_window x ↔
      ∀ s0, Ok s = @Ok _ StoreError.t s0 → Control.effective_window (Roster.control r) <=
        now / Timing.width (Timing.new c)) as Hcase.
    { cbn [x Control.effective_window]. split; [intros Hlt _ _; lia|intros Hall; specialize (Hall s eq_refl); lia]. }
    rewrite <- Hcase, <- H2. destruct (fgt (Sample.estimate s) f64_zero) eqn:Eg; [|done].
    apply populated_valid; [by apply Hf|done|exact Hpop].
Qed.

(** ** Examples: bodies that are the rosters, identified by themselves *)

Definition example_json : Json :=
  Build_Json Roster.t id (λ r, Some (Policy.schema (Roster.policy r))) Some (λ r, eq_refl)
    (λ r _, ex_intro _ r (conj eq_refl (conj eq_refl eq_refl))).

Definition example_versions : @Versions example_json :=
  @Build_Versions example_json Roster.t _ id (λ a b E, E).

Definition example_roster (epoch : Z) : Roster.t :=
  let _ := example_ulid in let _ := example_draws in
  created (example_config 1) (hex_fixed 32 1) (hex_fixed 32 9) epoch.


Lemma update_valid_witness :
  let _ := example_ulid in let _ := example_draws in
  let census := Ok (Sample.mk (f64_of 100) 3) in
  roster_validate (update (example_roster 5) (example_config 1) 1 142000 census census (hex_fixed 32 7)) = Ok tt ↔
  (∀ s, census = Ok s → Control.effective_window (Roster.control (example_roster 5))
                        <= 142000 / Timing.width (Timing.new (example_config 1))).
Proof.
  intros U D census. apply update_valid; try done; try (by vm_compute).
  - by intros s [= <-].
Defined.
