(* ===== verification/Election.v ===== *)
(** * Sampling: election and leadership (dial9-sampling/src/protocol/engine.rs)

    The processes of a pool around the roster they share.  A process reads the
    roster at its start, creates it when there is none, and from then on its
    controller ([Worker] in the code) claims the lease when it has lapsed and
    makes a leader's passes: reserve a window, make its census, publish what
    follows from it.  Every write is conditional on the version that was read.
    The store carries writes out at any time after they were sent, also long
    after the sender has given up on them; requests fail, time out and are
    answered late; processes stop and crash anywhere: [step] lets all of that
    interleave. *)

From Stdlib Require Import ZArith Lia SpecFloat.
From stdpp Require Import base list gmap strings option.
From coqutil Require Import Byte.
From S2P Require Import Prelude.
From S2P Require Import Text.
From S2P Require Import F64.
From S2P Require Import SamplingStore.
From S2P Require Import SamplingConfig.
From S2P Require Import Census.
From S2P Require Import Roster.

(** ** The controller of a process *)

Module Controller.
Record t `{Versions} : Type := mk {
  cache : Cache.t;
  observed : option Observed.t;
  leader : option Observed.t;
  next_pass_ms : Z;
  election_needed : bool }.
Arguments mk {_ _}.

Definition set_cache `{Versions} (x : t) (c : Cache.t) : t :=
  mk c (observed x) (leader x) (next_pass_ms x) (election_needed x).
Definition set_leader `{Versions} (x : t) (l : option Observed.t) : t :=
  mk (cache x) (observed x) l (next_pass_ms x) (election_needed x).
Definition set_next_pass `{Versions} (x : t) (n : Z) : t :=
  mk (cache x) (observed x) (leader x) n (election_needed x).
Definition set_election_needed `{Versions} (x : t) (b : bool) : t :=
  mk (cache x) (observed x) (leader x) (next_pass_ms x) b.
End Controller.

(** [millis(time)] of a time in nanoseconds; a time before the epoch is an
    error, which ends the controller (event [Stop]). *)
Definition millis (time : Z) : Z := time / MILLISECOND.

Section controller.
Context `{Ulid, Draws, Versions}.
(** The store's [modification_time_uncertainty]; the configuration. *)
Variable uncertainty : Z.
Variable c : Sampling.t.

Definition mine (o : Observed.t) : bool :=
  bool_decide (Roster.holder (Observed.roster o) = Sampling.invocation_id c).

Definition claims (o : Observed.t) (now : Z) : bool := claimable uncertainty o c now.

(** [Worker::new]. *)
Definition controller_new (observed : option Observed.t) (foreign : option Foreign.t) (authoritative : bool)
    (now : Z) : Controller.t :=
  let election_needed :=
    authoritative &&
    match foreign, observed with
    | Some f, _ => lease_expired uncertainty (Foreign.modified_at f) c now
    | None, Some o => claims o now
    | None, None => true
    end in
  let leader := match observed with
                | Some o => if mine o && negb (claims o now) then Some o else None
                | None => None
                end in
  Controller.mk (Cache.mk observed foreign) observed leader (millis now) election_needed.

Definition consume_cache (now : Z) (x : Controller.t) : Controller.t :=
  match Cache.foreign (Controller.cache x) with
  | Some f =>
      Controller.mk (Controller.cache x) None None (Controller.next_pass_ms x)
        (lease_expired uncertainty (Foreign.modified_at f) c now)
  | None =>
      let observed := Cache.observed (Controller.cache x) in
      let leader :=
        match Controller.leader x with
        | Some l =>
            match observed with
            | Some o => if negb (bool_decide (Observed.version o = Observed.version l)) || negb (mine o)
                        then None else Some l
            | None => None
            end
        | None => None
        end in
      let leader :=
        match leader, observed with
        | None, Some o => if mine o && negb (claims o now) then Some o else None
        | _, _ => leader
        end in
      Controller.mk (Controller.cache x) observed leader (Controller.next_pass_ms x)
        (from_option (λ o, claims o now) true observed)
  end.

Definition learn (incoming : option Decoded) (now : Z) (x : Controller.t) : Controller.t :=
  consume_cache now (Controller.set_cache x (snd (publish_cache (Controller.cache x) incoming))).

Definition read_roster (object : option (StoredObject.t json token)) : result (option Decoded) StoreError.t :=
  match object with
  | None => Ok None
  | Some o => match decode o c with Ok d => Ok (Some d) | Err e => Err e end
  end.

(** The readback of [replace]: whether the write was carried out. *)
Definition reconcile (r : Roster.t) (object : option (StoredObject.t json token)) (error : StoreError.t)
    : result (option Decoded) StoreError.t :=
  match object with
  | None => Err error
  | Some o =>
      match decode o c with
      | Err e => Err e
      | Ok (DecodedRoster o) =>
          if bool_decide (Roster.revision (Observed.roster o) = Roster.revision r) && mine o
          then Ok (Some (DecodedRoster o)) else Ok None
      | Ok (DecodedForeign f) => Ok (Some (DecodedForeign f))
      end
  end.

(** What [election] writes after its authoritative read: nothing, when the
    lease is held; [None]: an error. *)
Inductive election_choice : Type :=
| Held (d : Decoded)
| Claim (cond : WriteCondition token) (r : Roster.t).

Definition elect (now : Z) (nonce : bytes) (object : option (StoredObject.t json token)) : option election_choice :=
  let claim := λ cond r,
    match mutate (Sampling.invocation_id c) nonce r with Ok r => Some (Claim cond r) | Err _ => None end in
  let fresh := created c (Sampling.invocation_id c) nonce (millis now) in
  match read_roster object with
  | Err _ => None
  | Ok (Some (DecodedRoster o)) =>
      if negb (claims o now) then Some (Held (DecodedRoster o))
      else claim (Matches (Observed.version o)) (Roster.set_released (Observed.roster o) false)
  | Ok (Some (DecodedForeign f)) =>
      if negb (lease_expired uncertainty (Foreign.modified_at f) c now) then Some (Held (DecodedForeign f))
      else claim (Matches (Foreign.version f)) fresh
  | Ok None => claim Absent fresh
  end.

(** The read at the start of a pass: what to learn, or what to reserve. *)
Inductive pass_choice : Type :=
| Superseded (d : option Decoded)
| Reserving (version : token) (r : Roster.t) (assess : option Z).

Definition begin_pass (now : Z) (nonce : bytes) (previous : Observed.t)
    (object : option (StoredObject.t json token)) : option pass_choice :=
  match read_roster object with
  | Err _ => None
  | Ok (Some (DecodedRoster current)) =>
      if negb (bool_decide (Observed.version current = Observed.version previous)) || negb (mine current)
      then Some (Superseded (Some (DecodedRoster current)))
      else
        let timing := Timing.new c in
        let window := Timing.completed timing (millis now) in
        match mutate (Sampling.invocation_id c) nonce
                (promote (millis now / Timing.width timing) (Observed.roster current)) with
        | Err _ => None
        | Ok r =>
            let assess := match window with
                          | Some w => if from_option (λ last, last <? w) true (Roster.last_window r)
                                      then Some w else None
                          | None => None
                          end in
            let r := match assess with Some w => Roster.set_last_window r (Some w) | None => r end in
            Some (Reserving (Observed.version current) r assess)
        end
  | Ok other => Some (Superseded other)
  end.

(** What a census of the reserved window leads to. *)
Definition conclude_pass (window finished : Z) (nonce salt : bytes) (reserved : Observed.t)
    (census profilers : nat → ListRequest.t → result ListPage.t StoreError.t) : option Roster.t :=
  match mutate (Sampling.invocation_id c) nonce
          (promote (millis finished / Timing.width (Timing.new c)) (Observed.roster reserved)) with
  | Err _ => None
  | Ok r =>
      Some (update r c window (millis finished)
              (observe census c (lit "census") window (target c * 32))
              (observe profilers c (lit "profilers") window (Z.max (target c * 4) 64)) salt)
  end.

(** The time of the next pass, after one. *)
Definition schedule_pass (now : Z) (x : Controller.t) : Controller.t :=
  let timing := Timing.new c in
  let now := millis now in
  let close := now / Timing.width timing * Timing.width timing + Timing.closure timing in
  let next := if now <? close then close else saturating_add 64 close (Timing.width timing) in
  Controller.set_next_pass x (Z.min next (saturating_add 64 now (poll_ms c))).
End controller.

(** ** Processes and the store *)

Inductive purpose : Type :=
| Creating
| Claiming
| ReservingFor (assess : option Z)
| Publishing
| Releasing.

(** Where a process is: before its first read, in the select at the end of the
    controller's loop, before the authoritative read of an election, before the
    read of a pass, with a write under way, reading back after an uncertain
    one, making the census of the window it reserved, gone. *)
Module Proc.
Inductive place `{Versions} : Type :=
| Starting
| Waiting
| Electing
| Passing (previous : Observed.t)
| Writing (p : purpose) (r : Roster.t)
| ReadingBack (p : purpose) (r : Roster.t)
| Assessing (window : Z) (reserved : Observed.t)
| Gone.

(** [reads]: answers to polls that were not published yet. *)
Record t `{Versions} : Type := mk {
  at_ : place;
  ctl : Controller.t;
  reads : list (result (option Decoded) StoreError.t) }.
Arguments mk {_ _}.
End Proc.

(** A conditional write of the roster on its way; [outcome]: carried out or
    refused. *)
Module Flight.
Record t `{Versions} : Type := mk {
  cond : WriteCondition token;
  roster : Roster.t;
  outcome : option (PutOutcome token) }.
Arguments mk {_ _}.
End Flight.

(** A change of the object, by a write of a process or otherwise. *)
Inductive change `{Json} : Type :=
| Written (r : Roster.t)
| Elsewhere_ (body : option json).

(** [log] and [assessed] are history: the changes of the object, the first one
    first; the windows whose census was made, with the revision that reserved
    them. *)
Module Sys.
Record t `{Versions} : Type := mk {
  object : option (StoredObject.t json token);
  flights : gmap bytes Flight.t;
  procs : list Proc.t;
  log : list change;
  assessed : list (bytes * Z) }.
Arguments mk {_ _}.
End Sys.

(** What can happen next; [now] is the clock of the process in nanoseconds,
    [nonce] and [salt] what [nonce()] gives it. *)
Inductive event `{Versions} : Type :=
| Commit (revision : bytes) (now : Z)
| Elsewhere (body : option json) (now : Z)
| Start (i : nat) (now : Z) (nonce : bytes)
| StartFails (i : nat) (now : Z)
| StartTimesOut (i : nat) (now : Z)
| Round (i : nat) (now : Z)
| ElectRead (i : nat) (now : Z) (nonce : bytes)
| ElectReadFails (i : nat) (now : Z)
| PassRead (i : nat) (now : Z) (nonce : bytes)
| Assessed (i : nat) (now : Z) (nonce salt : bytes)
    (census profilers : nat → ListRequest.t → result ListPage.t StoreError.t)
| PassFails (i : nat) (now : Z)
| Reply (i : nat) (now : Z)
| Uncertain (i : nat)
| PutFails (i : nat) (now : Z)
| Readback (i : nat) (now : Z)
| ReadbackFails (i : nat) (now : Z)
| Poll (i : nat)
| Deliver (i k : nat)
| Stop (i : nat) (nonce : bytes)
| Crash (i : nat).

Section system.
Context `{Ulid, Draws, Versions}.
Variable uncertainty : Z.
Variable cfg : nat → Sampling.t.

Definition stored (body : json) (now : Z) : StoredObject.t json token := StoredObject.mk body (token_of body) now.

Definition set_proc (s : Sys.t) (i : nat) (p : Proc.t) : Sys.t :=
  Sys.mk (Sys.object s) (Sys.flights s) (<[i := p]> (Sys.procs s)) (Sys.log s) (Sys.assessed s).

Definition put_proc (s : Sys.t) (i : nat) (p : Proc.t) (place : Proc.place) (x : Controller.t) : option Sys.t :=
  Some (set_proc s i (Proc.mk place x (Proc.reads p))).

(** Sending a write; a nonce is never given twice. *)
Definition send (s : Sys.t) (i : nat) (p : Proc.t) (cond : WriteCondition token) (r : Roster.t)
    (why : purpose) (x : Controller.t) : option Sys.t :=
  match Sys.flights s !! Roster.revision r with
  | Some _ => None
  | None =>
      let s := set_proc s i (Proc.mk (Proc.Writing why r) x (Proc.reads p)) in
      Some (Sys.mk (Sys.object s) (<[Roster.revision r := Flight.mk cond r None]> (Sys.flights s))
              (Sys.procs s) (Sys.log s) (Sys.assessed s))
  end.

(** The rest of a round after its election: a pass when the leader is due. *)
Definition after_election (now : Z) (x : Controller.t) : Proc.place * Controller.t :=
  match Controller.leader x with
  | Some l => if Controller.next_pass_ms x <=? millis now then (Proc.Passing l, Controller.set_leader x None)
              else (Proc.Waiting, x)
  | None => (Proc.Waiting, x)
  end.

Definition end_election (s : Sys.t) (i : nat) (p : Proc.t) (now : Z) (x : Controller.t) : option Sys.t :=
  let '(place, x) := after_election now x in put_proc s i p place x.

Definition end_pass (s : Sys.t) (i : nat) (p : Proc.t) (now : Z) (x : Controller.t) : option Sys.t :=
  put_proc s i p Proc.Waiting (schedule_pass (cfg i) now x).

(** [Worker::new] after the startup. *)
Definition begin (s : Sys.t) (i : nat) (p : Proc.t) (now : Z) (observed : option Observed.t)
    (foreign : option Foreign.t) (authoritative : bool) : option Sys.t :=
  put_proc s i p Proc.Waiting (controller_new uncertainty (cfg i) observed foreign authoritative now).

(** What follows a write: [res] is what [replace] returned. *)
Definition finish_write (s : Sys.t) (i : nat) (p : Proc.t) (now : Z) (why : purpose)
    (res : result (option Decoded) StoreError.t) : option Sys.t :=
  let x := Proc.ctl p in
  match why with
  | Creating =>
      match res with
      | Ok (Some (DecodedRoster o)) => begin s i p now (Some o) None true
      | Ok (Some (DecodedForeign f)) => begin s i p now None (Some f) true
      | _ => begin s i p now None None true
      end
  | _ =>
      (* [Worker::replace] *)
      let '(res, x) :=
        match res with
        | Ok (Some (DecodedRoster o)) => (Ok (Some o), x)
        | Ok (Some (DecodedForeign f)) =>
            (Ok None, Controller.set_cache x (snd (publish_cache (Controller.cache x) (Some (DecodedForeign f)))))
        | Ok None => (Ok None, x)
        | Err e => (Err e, x)
        end in
      match why, res with
      | Claiming, Ok (Some o) =>
          let x := learn uncertainty (cfg i) (Some (DecodedRoster o)) now (Controller.set_leader x (Some o)) in
          end_election s i p now (Controller.set_next_pass x (millis now))
      | Claiming, _ => end_election s i p now (Controller.set_leader x None)
      | ReservingFor assess, Ok (Some o) =>
          let x := learn uncertainty (cfg i) (Some (DecodedRoster o)) now (Controller.set_leader x (Some o)) in
          match assess with
          | Some w =>
              Some (let s := set_proc s i (Proc.mk (Proc.Assessing w o) x (Proc.reads p)) in
                    Sys.mk (Sys.object s) (Sys.flights s) (Sys.procs s) (Sys.log s)
                      (Sys.assessed s ++ [(Roster.revision (Observed.roster o), w)]))
          | None => end_pass s i p now x
          end
      | ReservingFor _, Ok None => end_pass s i p now x
      | Publishing, Ok (Some o) =>
          let x := learn uncertainty (cfg i) (Some (DecodedRoster o)) now (Controller.set_leader x (Some o)) in
          end_pass s i p now x
      | Publishing, Ok None | Publishing, Err _ | ReservingFor _, Err _ =>
          end_pass s i p now (Controller.set_leader x None)
      | _, _ => put_proc s i p Proc.Gone x
      end
  end.

(** One event, when it is enabled. *)
Definition step (s : Sys.t) (e : event) : option Sys.t :=
  match e with
  | Commit revision now =>
      f ← Sys.flights s !! revision;
      match Flight.outcome f with
      | Some _ => None
      | None =>
          let body := json_text (Flight.roster f) in
          let '(outcome, object) := put_object (Flight.cond f) (stored body now) (Sys.object s) in
          Some (Sys.mk object
                  (<[revision := Flight.mk (Flight.cond f) (Flight.roster f) (Some outcome)]> (Sys.flights s))
                  (Sys.procs s)
                  (match outcome with Stored _ => Sys.log s ++ [Written (Flight.roster f)] | _ => Sys.log s end)
                  (Sys.assessed s))
      end
  | Elsewhere body now =>
      Some (Sys.mk ((λ b, stored b now) <$> body) (Sys.flights s) (Sys.procs s)
              (Sys.log s ++ [Elsewhere_ body]) (Sys.assessed s))
  | Start i now nonce =>
      p ← Sys.procs s !! i;
      match Proc.at_ p with
      | Proc.Starting =>
          if match validate (cfg i) with Ok _ => negb (target (cfg i) =? 0) | Err _ => false end then
            match read_roster (cfg i) (Sys.object s) with
            | Err _ => begin s i p now None None false
            | Ok (Some (DecodedRoster o)) => begin s i p now (Some o) None true
            | Ok (Some (DecodedForeign f)) => begin s i p now None (Some f) true
            | Ok None =>
                match mutate (Sampling.invocation_id (cfg i)) nonce
                        (created (cfg i) (Sampling.invocation_id (cfg i)) nonce (millis now)) with
                | Ok r => send s i p Absent r Creating (Proc.ctl p)
                | Err _ => begin s i p now None None true
                end
            end
          else None
      | _ => None
      end
  | StartFails i now =>
      p ← Sys.procs s !! i;
      match Proc.at_ p with Proc.Starting => begin s i p now None None false | _ => None end
  | StartTimesOut i now =>
      p ← Sys.procs s !! i;
      match Proc.at_ p with
      | Proc.Writing Creating _ | Proc.ReadingBack Creating _ => begin s i p now None None true
      | _ => None
      end
  | Round i now =>
      p ← Sys.procs s !! i;
      match Proc.at_ p with
      | Proc.Waiting =>
          let x := consume_cache uncertainty (cfg i) now (Proc.ctl p) in
          if Controller.election_needed x
          then put_proc s i p Proc.Electing (Controller.set_election_needed x false)
          else end_election s i p now x
      | _ => None
      end
  | ElectRead i now nonce =>
      p ← Sys.procs s !! i;
      match Proc.at_ p with
      | Proc.Electing =>
          match elect uncertainty (cfg i) now nonce (Sys.object s) with
          | None => end_election s i p now (Controller.set_leader (Proc.ctl p) None)
          | Some (Held d) => end_election s i p now (learn uncertainty (cfg i) (Some d) now (Proc.ctl p))
          | Some (Claim cond r) => send s i p cond r Claiming (Proc.ctl p)
          end
      | _ => None
      end
  | ElectReadFails i now =>
      p ← Sys.procs s !! i;
      match Proc.at_ p with
      | Proc.Electing => end_election s i p now (Controller.set_leader (Proc.ctl p) None)
      | _ => None
      end
  | PassRead i now nonce =>
      p ← Sys.procs s !! i;
      match Proc.at_ p with
      | Proc.Passing previous =>
          match begin_pass (cfg i) now nonce previous (Sys.object s) with
          | None => end_pass s i p now (Controller.set_leader (Proc.ctl p) None)
          | Some (Superseded d) => end_pass s i p now (learn uncertainty (cfg i) d now (Proc.ctl p))
          | Some (Reserving v r assess) => send s i p (Matches v) r (ReservingFor assess) (Proc.ctl p)
          end
      | _ => None
      end
  | Assessed i now nonce salt census profilers =>
      p ← Sys.procs s !! i;
      match Proc.at_ p with
      | Proc.Assessing window reserved =>
          match conclude_pass (cfg i) window now nonce salt reserved census profilers with
          | None => end_pass s i p now (Controller.set_leader (Proc.ctl p) None)
          | Some r => send s i p (Matches (Observed.version reserved)) r Publishing (Proc.ctl p)
          end
      | _ => None
      end
  | PassFails i now =>
      p ← Sys.procs s !! i;
      match Proc.at_ p with
      | Proc.Passing _ | Proc.Assessing _ _ | Proc.Writing (ReservingFor _ | Publishing) _
      | Proc.ReadingBack (ReservingFor _ | Publishing) _ =>
          end_pass s i p now (Controller.set_leader (Proc.ctl p) None)
      | _ => None
      end
  | Reply i now =>
      p ← Sys.procs s !! i;
      match Proc.at_ p with
      | Proc.Writing why r =>
          f ← Sys.flights s !! Roster.revision r;
          match Flight.outcome f with
          | None => None
          | Some (Stored v) => finish_write s i p now why (Ok (Some (DecodedRoster (Observed.mk r v now))))
          | Some PreconditionFailed => finish_write s i p now why (Ok None)
          end
      | _ => None
      end
  | Uncertain i =>
      p ← Sys.procs s !! i;
      match Proc.at_ p with
      | Proc.Writing why r => put_proc s i p (Proc.ReadingBack why r) (Proc.ctl p)
      | _ => None
      end
  | PutFails i now =>
      p ← Sys.procs s !! i;
      match Proc.at_ p with
      | Proc.Writing why r => finish_write s i p now why (Err (StoreError.mk Unauthorized []))
      | _ => None
      end
  | Readback i now =>
      p ← Sys.procs s !! i;
      match Proc.at_ p with
      | Proc.ReadingBack why r =>
          finish_write s i p now why
            (reconcile (cfg i) r (Sys.object s) (StoreError.mk WriteOutcomeUnknown []))
      | _ => None
      end
  | ReadbackFails i now =>
      p ← Sys.procs s !! i;
      match Proc.at_ p with
      | Proc.ReadingBack why r => finish_write s i p now why (Err (StoreError.mk Unavailable []))
      | _ => None
      end
  | Poll i =>
      p ← Sys.procs s !! i;
      Some (set_proc s i (Proc.mk (Proc.at_ p) (Proc.ctl p)
              (Proc.reads p ++ [read_roster (cfg i) (Sys.object s)])))
  | Deliver i k =>
      p ← Sys.procs s !! i;
      d ← Proc.reads p !! k;
      let x := Proc.ctl p in
      let x := match d with
               | Ok d => Controller.set_cache x (snd (publish_cache (Controller.cache x) d))
               | Err _ => x
               end in
      Some (set_proc s i (Proc.mk (Proc.at_ p) x (delete k (Proc.reads p))))
  | Stop i nonce =>
      p ← Sys.procs s !! i;
      match Proc.at_ p with
      | Proc.Starting | Proc.Gone | Proc.Writing (Creating | Releasing) _
      | Proc.ReadingBack (Creating | Releasing) _ => None
      | _ =>
          match Controller.leader (Proc.ctl p) with
          | None => put_proc s i p Proc.Gone (Proc.ctl p)
          | Some l =>
              match mutate (Sampling.invocation_id (cfg i)) nonce (Roster.set_released (Observed.roster l) true) with
              | Err _ => put_proc s i p Proc.Gone (Controller.set_leader (Proc.ctl p) None)
              | Ok r => send s i p (Matches (Observed.version l)) r Releasing
                          (Controller.set_leader (Proc.ctl p) None)
              end
          end
      end
  | Crash i =>
      p ← Sys.procs s !! i;
      put_proc s i p Proc.Gone (Proc.ctl p)
  end.

Definition idle_controller : Controller.t := Controller.mk empty_cache None None 0 false.

(** A new pool, or one that is there already. *)
Definition system_start (n : nat) (body : option (json * Z)) : Sys.t :=
  Sys.mk ((λ '(b, t), stored b t) <$> body) ∅ (replicate n (Proc.mk Proc.Starting idle_controller []))
    [Elsewhere_ (fst <$> body)] [].

Fixpoint run_system (s : Sys.t) (evs : list event) : option Sys.t :=
  match evs with
  | [] => Some s
  | e :: evs => match step s e with Some s => run_system s evs | None => None end
  end.
End system.

(** ** What a write builds on *)

Definition opt_le (a b : option Z) : Prop :=
  match a, b with None, _ => True | Some x, Some y => x <= y | Some _, None => False end.

Definition opt_lt (a : option Z) (w : Z) : Prop := from_option (λ x, x < w) True a.

(** [r] is the next version of the roster in [b]: of the same policy, one epoch
    on, no window forgotten. *)
Definition succeeds `{Json} (b : json) (r : Roster.t) : Prop :=
  ∃ rb, json_roster b = Some rb ∧ Roster.policy rb = Roster.policy r ∧
    Roster.epoch r = Roster.epoch rb + 1 ∧ opt_le (Roster.last_window rb) (Roster.last_window r).

(** [r] starts over from an object of another policy. *)
Definition supersedes `{Json} (b : json) (r : Roster.t) : Prop :=
  (json_header b ≠ Some SCHEMA ∨ ∃ rb, json_roster b = Some rb ∧ Roster.policy rb ≠ Roster.policy r) ∧
  Roster.last_window r = None.

Definition builds_on `{Json} (before : option json) (r : Roster.t) : Prop :=
  match before with
  | None => Roster.last_window r = None
  | Some b => succeeds b r ∨ supersedes b r
  end.

Definition body_after `{Json} (x : change) : option json :=
  match x with Written r => Some (json_text r) | Elsewhere_ b => b end.

(** ** What the operations keep *)

Section facts.
Context `{Ulid, Draws, Versions}.
Variable uncertainty : Z.

Lemma mutate_facts id nonce r r' :
  mutate id nonce r = Ok r' →
  Roster.policy r' = Roster.policy r ∧ Roster.epoch r' = Roster.epoch r + 1 ∧
  Roster.last_window r' = Roster.last_window r ∧ finite_estimate r' = finite_estimate r ∧
  Roster.revision r' = nonce.
Proof. unfold mutate, checked_add. destruct (_ <? _); [|done]. by intros [= <-]. Qed.

Lemma promote_facts w r :
  Roster.policy (promote w r) = Roster.policy r ∧ Roster.epoch (promote w r) = Roster.epoch r ∧
  Roster.last_window (promote w r) = Roster.last_window r ∧ finite_estimate (promote w r) = finite_estimate r.
Proof. unfold promote. destruct (Roster.next_control r); [destruct (_ <=? _)|]; done. Qed.

Lemma update_facts r c window now census profilers salt :
  (∀ s, census = Ok s → is_finite (Sample.estimate s) = true) →
  let r' := update r c window now census profilers salt in
  Roster.policy r' = Roster.policy r ∧ Roster.epoch r' = Roster.epoch r ∧
  Roster.last_window r' = Roster.last_window r ∧ Roster.revision r' = Roster.revision r ∧
  (finite_estimate r = true → finite_estimate r' = true).
Proof.
  intros Hf. unfold update.
  assert (∀ r0, let r' := match profilers with Ok s => update_profilers r0 c window now salt s | Err _ => r0 end in
    Roster.policy r' = Roster.policy r0 ∧ Roster.epoch r' = Roster.epoch r0 ∧
    Roster.last_window r' = Roster.last_window r0 ∧ Roster.revision r' = Roster.revision r0 ∧
    (finite_estimate r0 = true → finite_estimate r' = true)) as Hp.
  { intros r0. destruct profilers; [|done]. unfold update_profilers. by destruct (_ && _). }
  destruct census as [s|]; [|apply Hp]. specialize (Hp (update_census r c window now s)).
  cbn zeta in *. destruct Hp as (-> & -> & -> & -> & Hp). unfold update_census in *.
  destruct (fgt (Sample.estimate s) f64_zero); (split_and!; [done..|]); intros Hr; apply Hp; [|done].
  cbn. by apply Hf.
Qed.

Lemma same_fields r r' :
  same_but_estimate r r' →
  Roster.policy r = Roster.policy r' ∧ Roster.epoch r = Roster.epoch r' ∧
  Roster.last_window r = Roster.last_window r' ∧ Roster.revision r = Roster.revision r'.
Proof. intros [E _]. injection E. auto. Qed.

(** A roster in memory: that of the body its version stands for. *)
Definition known (o : Observed.t) : Prop :=
  finite_estimate (Observed.roster o) = true ∧
  ∃ b rb, Observed.version o = token_of b ∧ json_roster b = Some rb ∧
    same_but_estimate (Observed.roster o) rb.

(** As a process of configuration [c] knows it. *)
Definition good (c : Sampling.t) (o : Observed.t) : Prop :=
  known o ∧ Roster.policy (Observed.roster o) = Policy.new c.

Definition good_read (c : Sampling.t) (d : option Decoded) : Prop :=
  match d with Some (DecodedRoster o) => good c o | _ => True end.

Definition good_cache (c : Sampling.t) (x : Cache.t) : Prop := from_option (good c) True (Cache.observed x).

Definition good_controller (c : Sampling.t) (x : Controller.t) : Prop :=
  good_cache c (Controller.cache x) ∧ from_option (good c) True (Controller.leader x).

Lemma decode_good c b now o :
  decode (StoredObject.mk b (token_of b) now) c = Ok (DecodedRoster o) →
  good c o ∧ Observed.version o = token_of b ∧ json_roster b = Some (Observed.roster o).
Proof.
  unfold decode. cbn. destruct (json_header b) as [schema|]; [|done]. destruct (schema =? SCHEMA); [|done]. cbn.
  destruct (json_roster b) as [r|] eqn:Er; [|done].
  destruct (bool_decide_reflect (Roster.policy r = Policy.new c)) as [Ep|]; [|done]. cbn.
  destruct (roster_validate r) as [[]|] eqn:Ev; [|done]. intros [= <-]. cbn.
  apply roster_validate_iff in Ev as (_ & _ & _ & _ & Hp & _).
  split; [|done]. split; [|done]. split.
  - cbn [Observed.roster]. unfold finite_estimate. destruct (Roster.population r); [exact (proj1 Hp)|done].
  - exists b, r. by repeat split.
Qed.

Lemma decode_foreign c b now f :
  decode (StoredObject.mk b (token_of b) now) c = Ok (DecodedForeign f) →
  Foreign.version f = token_of b ∧
  (json_header b ≠ Some SCHEMA ∨ ∃ rb, json_roster b = Some rb ∧ Roster.policy rb ≠ Policy.new c).
Proof.
  unfold decode. cbn. destruct (json_header b) as [schema|]; [|done].
  destruct (Z.eqb_spec schema SCHEMA) as [->|Hs]; cbn.
  - destruct (json_roster b) as [r|] eqn:Er; [|done].
    destruct (bool_decide_reflect (Roster.policy r = Policy.new c)) as [Ep|Ep]; cbn.
    + by destruct (roster_validate r).
    + intros [= <-]. split; [done|]. right. by exists r.
  - intros [= <-]. split; [done|]. left. by intros [= ?].
Qed.

Lemma publish_good c x d : good_cache c x → good_read c d → good_cache c (snd (publish_cache x d)).
Proof.
  intros Hx Hd. destruct d as [[o|f]|]; unfold publish_cache; cbn in *.
  - destruct (Cache.foreign x); [by destruct (_ <=? _)|]. destruct (Cache.observed x); [by destruct (_ || _)|done].
  - by destruct (_ || _).
  - done.
Qed.

Lemma consume_good c now x : good_controller c x → good_controller c (consume_cache uncertainty c now x).
Proof.
  intros [Hc Hl]. unfold consume_cache. destruct (Cache.foreign (Controller.cache x)); [by split|].
  split; [done|]. cbn [Controller.leader]. unfold good_cache in Hc.
  destruct (Controller.leader x) as [l|]; destruct (Cache.observed (Controller.cache x)) as [o|]; cbn in *; try done.
  - destruct (_ || _); [by destruct (_ && _)|done].
  - by destruct (_ && _).
Qed.

Lemma learn_good c d now x :
  good_controller c x → good_read c d → good_controller c (learn uncertainty c d now x).
Proof.
  intros [Hc Hl] Hd. apply consume_good. split; [|done]. by apply publish_good.
Qed.

Lemma controller_new_good c observed foreign a now :
  from_option (good c) True observed → good_controller c (controller_new uncertainty c observed foreign a now).
Proof.
  intros Ho. split; [done|]. cbn. destruct observed as [o|]; [|done]. by destruct (_ && _).
Qed.

(** A roster made from one that is known builds on the body it was read from. *)
Lemma builds_on_known o r :
  known o → Roster.policy r = Roster.policy (Observed.roster o) →
  Roster.epoch r = Roster.epoch (Observed.roster o) + 1 →
  opt_le (Roster.last_window (Observed.roster o)) (Roster.last_window r) →
  ∃ b rb, Observed.version o = token_of b ∧ json_roster b = Some rb ∧ succeeds b r ∧
    Roster.last_window rb = Roster.last_window (Observed.roster o).
Proof.
  intros (_ & b & rb & Hv & Hb & Hs) Hp He Hl. exists b, rb. destruct (same_fields _ _ Hs) as (Ep & Ee & El & _).
  split_and!; try done. exists rb. rewrite <- Ep, <- Ee, <- El. by rewrite Hp.
Qed.

Lemma opt_le_refl a : opt_le a a.
Proof. destruct a; cbn; [lia|done]. Qed.
End facts.

(** ** The invariant of the system *)

Section invariant.
Context `{Ulid, Draws, Versions}.
Variable uncertainty : Z.
Variable cfg : nat → Sampling.t.

Abbreviation fleet := (gmap bytes Flight.t).

(** A write that reserves window [w] past those its base reserved. *)
Definition reserves (f : Flight.t) (w : Z) : Prop :=
  Roster.last_window (Flight.roster f) = Some w ∧
  ∃ b rb, Flight.cond f = Matches (token_of b) ∧ json_roster b = Some rb ∧ opt_lt (Roster.last_window rb) w.

(** The body a write is conditional on. *)
Definition on_body (cond : WriteCondition token) (before : option json) : Prop :=
  match cond with
  | Absent => before = None
  | Matches v => ∃ b, before = Some b ∧ v = token_of b
  | Unconditional => False
  end.

Definition flight_ok (f : Flight.t) : Prop :=
  finite_estimate (Flight.roster f) = true ∧
  (∃ i, Roster.policy (Flight.roster f) = Policy.new (cfg i)) ∧
  ∃ before, on_body (Flight.cond f) before ∧ builds_on before (Flight.roster f).

Definition pending (F : fleet) (i : nat) (why : purpose) (r : Roster.t) : Prop :=
  Roster.policy r = Policy.new (cfg i) ∧
  ∃ f, F !! Roster.revision r = Some f ∧ Flight.roster f = r ∧
    match why with ReservingFor (Some w) => reserves f w | _ => True end.

Definition place_ok (F : fleet) (i : nat) (x : Proc.place) : Prop :=
  match x with
  | Proc.Passing o | Proc.Assessing _ o => good (cfg i) o
  | Proc.Writing why r | Proc.ReadingBack why r => pending F i why r
  | _ => True
  end.

Definition good_result (c : Sampling.t) (d : result (option Decoded) StoreError.t) : Prop :=
  match d with Ok d => good_read c d | Err _ => True end.

Definition proc_ok (F : fleet) (i : nat) (p : Proc.t) : Prop :=
  place_ok F i (Proc.at_ p) ∧ good_controller (cfg i) (Proc.ctl p) ∧
  Forall (good_result (cfg i)) (Proc.reads p).

(** Consecutive changes: a write found the body it was conditional on. *)
Definition linked (F : fleet) (log : list change) : Prop :=
  ∀ k before r, log !! k = Some before → log !! S k = Some (Written r) →
    ∃ f, F !! Roster.revision r = Some f ∧ Flight.roster f = r ∧
      on_body (Flight.cond f) (body_after before).

Record sys_ok (s : Sys.t) : Prop := {
  ok_flights : ∀ rev f, Sys.flights s !! rev = Some f →
    Roster.revision (Flight.roster f) = rev ∧ flight_ok f ∧
    (∀ v, Flight.outcome f = Some (Stored v) →
       v = token_of (json_text (Flight.roster f)) ∧ Written (Flight.roster f) ∈ Sys.log s);
  ok_written : ∀ r, Written r ∈ Sys.log s →
    ∃ f v, Sys.flights s !! Roster.revision r = Some f ∧ Flight.roster f = r ∧ Flight.outcome f = Some (Stored v);
  ok_links : linked (Sys.flights s) (Sys.log s);
  ok_last : ∃ x, list.last (Sys.log s) = Some x ∧ StoredObject.body <$> Sys.object s = body_after x;
  ok_token : ∀ o, Sys.object s = Some o → StoredObject.version o = token_of (StoredObject.body o);
  ok_first : ∃ b, Sys.log s !! 0%nat = Some (Elsewhere_ b);
  ok_once : NoDup (omap (λ x, match x with Written r => Some r | _ => None end) (Sys.log s));
  ok_procs : ∀ i p, Sys.procs s !! i = Some p → proc_ok (Sys.flights s) i p }.

(** Flights only come and get their outcome. *)
Definition fleet_le (F F' : fleet) : Prop :=
  ∀ rev f, F !! rev = Some f →
    ∃ f', F' !! rev = Some f' ∧ Flight.roster f' = Flight.roster f ∧ Flight.cond f' = Flight.cond f.

Lemma reserves_le f f' w :
  Flight.roster f' = Flight.roster f → Flight.cond f' = Flight.cond f → reserves f w → reserves f' w.
Proof. unfold reserves. by intros -> ->. Qed.

Lemma pending_le F F' i why r : fleet_le F F' → pending F i why r → pending F' i why r.
Proof.
  intros Hle (Hp & f & Hf & Hr & Hw). split; [done|]. destruct (Hle _ _ Hf) as (f' & Hf' & Er & Ec).
  exists f'. split; [done|]. split; [congruence|]. destruct why as [| |[w|]| |]; try done. by eapply reserves_le.
Qed.

Lemma proc_ok_le F F' i p : fleet_le F F' → proc_ok F i p → proc_ok F' i p.
Proof.
  intros Hle (Hp & Hc & Hr). split; [|done]. destruct (Proc.at_ p); try done; by eapply pending_le.
Qed.

Lemma linked_le F F' log : fleet_le F F' → linked F log → linked F' log.
Proof.
  intros Hle Hl k before r Hk Hr. destruct (Hl k before r Hk Hr) as (f & Hf & Er & Hc).
  destruct (Hle _ _ Hf) as (f' & Hf' & Er' & Ec'). exists f'. split; [done|]. split; [congruence|]. by rewrite Ec'.
Qed.

(** A process moves on. *)
Lemma set_proc_ok s i p : sys_ok s → proc_ok (Sys.flights s) i p → sys_ok (set_proc s i p).
Proof.
  intros [] Hp. split; try done. intros j q Hj. cbn in Hj. apply list_lookup_insert_Some in Hj as [(-> & -> & _)|[_ Hj]].
  - done.
  - by apply ok_procs0.
Qed.

Lemma put_proc_ok s i p place x s' :
  sys_ok s → Sys.procs s !! i = Some p → place_ok (Sys.flights s) i place → good_controller (cfg i) x →
  put_proc s i p place x = Some s' → sys_ok s'.
Proof.
  intros Hs Hp Hpl Hx [= <-]. apply set_proc_ok; [done|].
  destruct (ok_procs _ Hs _ _ Hp) as (_ & _ & Hr). by split.
Qed.

Lemma send_ok s i p cond r why x s' :
  sys_ok s → Sys.procs s !! i = Some p → flight_ok (Flight.mk cond r None) →
  Roster.policy r = Policy.new (cfg i) →
  match why with ReservingFor (Some w) => reserves (Flight.mk cond r None) w | _ => True end →
  good_controller (cfg i) x → send s i p cond r why x = Some s' → sys_ok s'.
Proof.
  intros Hs Hp Hf Hpol Hw Hx. unfold send. destruct (Sys.flights s !! Roster.revision r) eqn:E; [done|].
  intros [= <-].
  assert (fleet_le (Sys.flights s) (<[Roster.revision r := Flight.mk cond r None]> (Sys.flights s))) as Hle.
  { intros rev f Hr. exists f. split; [|done]. rewrite lookup_insert_ne; [done|congruence]. }
  destruct (ok_procs _ Hs _ _ Hp) as (_ & _ & Hreads). destruct Hs. split; cbn; try done.
  - intros rev f Hr. apply lookup_insert_Some in Hr as [[<- <-]|[_ Hr]]; [by split|by apply ok_flights0].
  - intros r' Hr'. destruct (ok_written0 _ Hr') as (f & v & Hr & ?). exists f, v. split; [|done].
    rewrite lookup_insert_ne; [done|congruence].
  - by eapply linked_le.
  - intros j q Hj. apply list_lookup_insert_Some in Hj as [(-> & <- & _)|[_ Hj]].
    + split; [|done]. cbn. split; [done|]. exists (Flight.mk cond r None). split; [apply lookup_insert_eq|done].
    + eapply proc_ok_le; [exact Hle|]. by apply ok_procs0.
Qed.

(** A change of the object. *)
Lemma linked_snoc F log before x :
  linked F log → list.last log = Some before →
  (∀ r, x = Written r → ∃ f, F !! Roster.revision r = Some f ∧ Flight.roster f = r ∧
     on_body (Flight.cond f) (body_after before)) →
  linked F (log ++ [x]).
Proof.
  intros Hl Hlast Hx k y r Hk Hr. destruct (decide (S k < length log)%nat) as [Hlt|Hge].
  - rewrite lookup_app_l in Hk, Hr by lia. by apply (Hl k y r).
  - apply lookup_lt_Some in Hr as Hlen. rewrite length_app in Hlen. cbn in Hlen.
    assert (k = pred (length log)) as -> by lia.
    rewrite lookup_app_r, (proj2 (Nat.sub_0_le _ _)) in Hr by lia. cbn in Hr. injection Hr as ->.
    rewrite lookup_app_l in Hk by lia. rewrite last_lookup in Hlast. rewrite Hlast in Hk. injection Hk as <-.
    by apply Hx.
Qed.

Lemma put_object_cases cond (new : StoredObject.t json token) current outcome object :
  (∀ o, current = Some o → StoredObject.version o = token_of (StoredObject.body o)) →
  put_object cond new current = (outcome, object) →
  outcome = Stored (StoredObject.version new) ∧ object = Some new ∧
    (cond = Unconditional ∨ on_body cond (StoredObject.body <$> current)) ∨
  outcome = PreconditionFailed ∧ object = current.
Proof.
  intros Ht. unfold put_object. destruct cond as [| |v], current as [o|]; cbn; try (intros [= <- <-]; by auto).
  destruct (bool_decide_reflect (StoredObject.version o = v)) as [E|E]; intros [= <- <-]; [left|by right].
  split; [done|]. split; [done|]. right. exists (StoredObject.body o). by rewrite <- E, (Ht o eq_refl).
Qed.

Lemma commit_ok s rev now s' :
  sys_ok s → step uncertainty cfg s (Commit rev now) = Some s' → sys_ok s'.
Proof.
  intros Hs. cbn [step]. destruct (Sys.flights s !! rev) as [f|] eqn:Ef; [|done]. cbn [mbind option_bind].
  destruct (Flight.outcome f) eqn:Eo; [done|]. destruct (put_object _ _ _) as [outcome object] eqn:Ep.
  intros [= <-]. apply put_object_cases in Ep; [|by apply Hs].
  destruct (ok_flights _ Hs _ _ Ef) as (Hrev & Hok & _).
  set (f' := Flight.mk (Flight.cond f) (Flight.roster f) (Some outcome)).
  assert (fleet_le (Sys.flights s) (<[rev := f']> (Sys.flights s))) as Hle.
  { intros rev' g Hg. destruct (decide (rev' = rev)) as [->|Hne].
    - exists f'. rewrite lookup_insert_eq. rewrite Ef in Hg. injection Hg as <-. by repeat split.
    - exists g. by rewrite lookup_insert_ne. }
  assert (Written (Flight.roster f) ∉ Sys.log s) as Hnew.
  { intros Hin. destruct (ok_written _ Hs _ Hin) as (g & v & Hg & _ & Hout). rewrite Hrev, Ef in Hg.
    injection Hg as <-. by rewrite Eo in Hout. }
  destruct (ok_last _ Hs) as (x & Hx & Hbody). destruct (ok_first _ Hs) as [b0 Hb0].
  destruct Ep as [(-> & -> & Hon)|(-> & ->)].
  - destruct Hon as [Hu|Hon]; [destruct Hok as (_ & _ & before & Hcond & _); by rewrite Hu in Hcond|].
    split; cbn.
    + intros rev' g Hg. apply lookup_insert_Some in Hg as [[<- <-]|[Hne Hg]]; cbn.
      * split; [done|]. split; [by destruct Hok|]. intros v [= <-]. split; [done|]. apply elem_of_app. right. by left.
      * destruct (ok_flights _ Hs _ _ Hg) as (? & ? & Ho). split_and!; try done.
        -- intros v Hv. destruct (Ho v Hv). split; [done|]. apply elem_of_app. by left.
    + intros r Hr. apply elem_of_app in Hr as [Hr|Hr].
      * destruct (ok_written _ Hs _ Hr) as (g & v & Hg & Er & Hv). exists g, v. split; [|done].
        rewrite lookup_insert_ne; [done|]. intros E. rewrite <- E, Ef in Hg. injection Hg as <-. by rewrite Eo in Hv.
      * apply list_elem_of_singleton in Hr. injection Hr as ->. exists f', (token_of (json_text (Flight.roster f))).
        rewrite Hrev, lookup_insert_eq. done.
    + eapply linked_snoc; [by eapply linked_le; [|apply Hs]|exact Hx|]. intros r [= <-]. exists f'.
      rewrite Hrev, lookup_insert_eq. split; [done|]. split; [done|]. cbn. by rewrite <- Hbody.
    + exists (Written (Flight.roster f)). by rewrite last_snoc.
    + by intros o [= <-].
    + exists b0. rewrite lookup_app_l; [done|]. by apply lookup_lt_Some in Hb0.
    + rewrite omap_app. cbn. apply list.NoDup_app. split; [apply Hs|]. split; [|apply NoDup_singleton].
      intros r Hr ->%list_elem_of_singleton. apply list_elem_of_omap in Hr as ([r'|] & Hin & Er); [|done].
      injection Er as ->. done.
    + intros i p Hp. eapply proc_ok_le; [exact Hle|]. by apply Hs.
  - split; cbn; try apply Hs.
    + intros rev' g Hg. apply lookup_insert_Some in Hg as [[<- <-]|[Hne Hg]]; [|by apply Hs].
      split; [done|]. split; [by destruct Hok|done].
    + intros r Hr. destruct (ok_written _ Hs _ Hr) as (g & v & Hg & Er & Hv). exists g, v. split; [|done].
      rewrite lookup_insert_ne; [done|]. intros E. rewrite <- E, Ef in Hg. injection Hg as <-. by rewrite Eo in Hv.
    + eapply linked_le; [exact Hle|apply Hs].
    + intros i p Hp. eapply proc_ok_le; [exact Hle|]. by apply Hs.
Qed.

Lemma elsewhere_ok s body now s' :
  sys_ok s → step uncertainty cfg s (Elsewhere body now) = Some s' → sys_ok s'.
Proof.
  intros Hs [= <-]. destruct (ok_last _ Hs) as (x & Hx & Hbody). destruct (ok_first _ Hs) as [b0 Hb0].
  split; cbn; try apply Hs.
  - intros rev f Hf. destruct (ok_flights _ Hs _ _ Hf) as (? & ? & Ho). split_and!; try done.
    intros v Hv. destruct (Ho v Hv). split; [done|]. apply elem_of_app. by left.
  - intros r Hr. apply elem_of_app in Hr as [Hr|Hr]; [by apply Hs|]. by apply list_elem_of_singleton in Hr.
  - eapply linked_snoc; [apply Hs|exact Hx|done].
  - exists (Elsewhere_ body). rewrite last_snoc. split; [done|]. by destruct body.
  - intros o. destruct body; [|done]. by intros [= <-].
  - exists b0. rewrite lookup_app_l; [done|]. by apply lookup_lt_Some in Hb0.
  - rewrite omap_app. cbn. rewrite app_nil_r. apply Hs.
Qed.

(** ** The writes that are sent *)

Lemma next_version_ok i o r :
  good (cfg i) o → Roster.policy r = Roster.policy (Observed.roster o) →
  Roster.epoch r = Roster.epoch (Observed.roster o) + 1 →
  opt_le (Roster.last_window (Observed.roster o)) (Roster.last_window r) → finite_estimate r = true →
  flight_ok (Flight.mk (Matches (Observed.version o)) r None).
Proof.
  intros [Hk Hp] Er Ee El Hf. split; [done|]. split; [exists i; cbn; congruence|].
  destruct (builds_on_known o r Hk Er Ee El) as (b & rb & Ev & _ & Hs & _).
  exists (Some b). cbn. rewrite Ev. split; [by exists b|by left].
Qed.

Lemma next_version_reserves i o r w :
  good (cfg i) o → opt_lt (Roster.last_window (Observed.roster o)) w → Roster.last_window r = Some w →
  reserves (Flight.mk (Matches (Observed.version o)) r None) w.
Proof.
  intros [(_ & b & rb & Ev & Eb & Es) _] Hlt Hr. split; [done|]. exists b, rb. cbn. rewrite Ev.
  split; [done|]. split; [done|]. by destruct (same_fields _ _ Es) as (_ & _ & <- & _).
Qed.

Lemma created_ok i id nonce now r cond before :
  mutate id nonce (created (cfg i) id nonce now) = Ok r → on_body cond before →
  (before = None ∨ ∃ b, before = Some b ∧ (json_header b ≠ Some SCHEMA ∨
     ∃ rb, json_roster b = Some rb ∧ Roster.policy rb ≠ Policy.new (cfg i))) →
  flight_ok (Flight.mk cond r None) ∧ Roster.policy r = Policy.new (cfg i).
Proof.
  intros E Hc Hb. apply mutate_facts in E as (Ep & _ & El & Ef & _). cbn in *.
  split; [|done]. split; [done|]. split; [by exists i|]. exists before. split; [done|]. cbn.
  destruct Hb as [->|(b & -> & Hb)]; [done|]. right. split; [|done].
  destruct Hb as [Hb|(rb & Hrb & Hne)]; [by left|right]. exists rb. by rewrite Ep.
Qed.

Lemma read_good c object d :
  (∀ o, object = Some o → StoredObject.version o = token_of (StoredObject.body o)) →
  read_roster c object = Ok d → good_read c d.
Proof.
  intros Ht. unfold read_roster. destruct object as [o|]; [|by intros [= <-]].
  destruct (decode o c) as [[o'|f]|] eqn:E; [|by intros [= <-]|done]. intros [= <-].
  destruct o as [b v t]. pose proof (Ht _ eq_refl) as Hv. cbn in Hv. subst v. by apply decode_good in E as [? _].
Qed.

Lemma read_foreign c object f :
  (∀ o, object = Some o → StoredObject.version o = token_of (StoredObject.body o)) →
  read_roster c object = Ok (Some (DecodedForeign f)) →
  ∃ b, Foreign.version f = token_of b ∧
    (json_header b ≠ Some SCHEMA ∨ ∃ rb, json_roster b = Some rb ∧ Roster.policy rb ≠ Policy.new c).
Proof.
  intros Ht. unfold read_roster. destruct object as [[b v t]|]; [|done].
  destruct (decode _ c) as [d|] eqn:E; [|done]. intros [= ->].
  pose proof (Ht _ eq_refl) as Hv. cbn in Hv. subst v. apply decode_foreign in E as [E ?]. by exists b.
Qed.

Lemma elect_ok i now nonce object cond r :
  (∀ o, object = Some o → StoredObject.version o = token_of (StoredObject.body o)) →
  elect uncertainty (cfg i) now nonce object = Some (Claim cond r) →
  flight_ok (Flight.mk cond r None) ∧ Roster.policy r = Policy.new (cfg i).
Proof.
  intros Ht. unfold elect. destruct (read_roster (cfg i) object) as [[[o|f]|]|] eqn:Er; [..|done].
  - pose proof (read_good _ _ _ Ht Er) as Hg. cbn in Hg. destruct (negb _); [done|].
    destruct (mutate _ _ _) as [r'|] eqn:Em; [|done]. intros [= <- <-].
    apply mutate_facts in Em as (Ep & Ee & El & Ef & _). cbn in *. split; [|by rewrite Ep; apply Hg].
    apply (next_version_ok i); try done; [rewrite El; apply opt_le_refl|rewrite Ef; apply Hg].
  - destruct (negb _); [done|]. destruct (mutate _ _ _) as [r'|] eqn:Em; [|done]. intros [= <- <-].
    destruct (read_foreign _ _ _ Ht Er) as (b & Hv & Hb).
    eapply created_ok; [exact Em| |right; exists b; split; [reflexivity|exact Hb]]. exists b. by split.
  - destruct (mutate _ _ _) as [r'|] eqn:Em; [|done]. intros [= <- <-].
    eapply created_ok; [exact Em|reflexivity|by left].
Qed.

Lemma elect_held i now nonce object d :
  (∀ o, object = Some o → StoredObject.version o = token_of (StoredObject.body o)) →
  elect uncertainty (cfg i) now nonce object = Some (Held d) → good_read (cfg i) (Some d).
Proof.
  intros Ht. unfold elect. destruct (read_roster (cfg i) object) as [[[o|f]|]|] eqn:Er; [..|done];
    pose proof (read_good _ _ _ Ht Er) as Hg.
  - destruct (negb _); [by intros [= <-]|by destruct (mutate _ _ _)].
  - by destruct (negb _); [intros [= <-]|destruct (mutate _ _ _)].
  - by destruct (mutate _ _ _).
Qed.

Lemma begin_pass_ok i now nonce previous object v r assess :
  (∀ o, object = Some o → StoredObject.version o = token_of (StoredObject.body o)) →
  begin_pass (cfg i) now nonce previous object = Some (Reserving v r assess) →
  flight_ok (Flight.mk (Matches v) r None) ∧ Roster.policy r = Policy.new (cfg i) ∧
  match assess with Some w => reserves (Flight.mk (Matches v) r None) w | None => True end.
Proof.
  intros Ht. unfold begin_pass. destruct (read_roster (cfg i) object) as [[[o|f]|]|] eqn:Er; [|done..].
  pose proof (read_good _ _ _ Ht Er) as Hg. cbn in Hg. destruct (_ || _); [done|].
  destruct (mutate _ _ _) as [r0|] eqn:Em; [|done].
  apply mutate_facts in Em as (Ep & Ee & El & Ef & _).
  destruct (promote_facts (millis now / Timing.width (Timing.new (cfg i))) (Observed.roster o)) as (Pp & Pe & Pl & Pf).
  rewrite Pp in Ep. rewrite Pe in Ee. rewrite Pl in El. rewrite Pf in Ef.
  set (a := match Timing.completed _ _ with Some w => _ | None => None end). intros [= <- <- <-].
  assert (match a with Some w => opt_lt (Roster.last_window (Observed.roster o)) w | None => True end) as Ha.
  { subst a. rewrite El. destruct (Timing.completed _ _) as [w|]; [|done].
    destruct (Roster.last_window (Observed.roster o)) as [l|]; cbn; [|done]. destruct (Z.ltb_spec l w); cbn; lia || done. }
  destruct Hg as [Hk Hp]. clearbody a. destruct a as [w|]; (split; [|split]); try done.
  - apply (next_version_ok i); try done; [cbn; destruct (Roster.last_window (Observed.roster o)); cbn in *; lia || done|].
    change (finite_estimate r0 = true). rewrite Ef. apply Hk.
  - cbn. congruence.
  - apply (next_version_reserves i); try done.
  - apply (next_version_ok i); try done; [rewrite El; apply opt_le_refl|rewrite Ef; apply Hk].
  - congruence.
Qed.

Lemma begin_pass_read i now nonce previous object d :
  (∀ o, object = Some o → StoredObject.version o = token_of (StoredObject.body o)) →
  begin_pass (cfg i) now nonce previous object = Some (Superseded d) → good_read (cfg i) d.
Proof.
  intros Ht. unfold begin_pass. destruct (read_roster (cfg i) object) as [[[o|f]|]|] eqn:Er; [|by intros [= <-]..|done].
  pose proof (read_good _ _ _ Ht Er) as Hg. destruct (_ || _); [by intros [= <-]|]. by destruct (mutate _ _ _).
Qed.

Lemma conclude_pass_ok i w now nonce salt reserved census profilers r :
  good (cfg i) reserved →
  conclude_pass (cfg i) w now nonce salt reserved census profilers = Some r →
  flight_ok (Flight.mk (Matches (Observed.version reserved)) r None) ∧ Roster.policy r = Policy.new (cfg i).
Proof.
  intros Hg. unfold conclude_pass. destruct (mutate _ _ _) as [r0|] eqn:Em; [|done]. intros [= <-].
  apply mutate_facts in Em as (Ep & Ee & El & Ef & _).
  destruct (promote_facts (millis now / Timing.width (Timing.new (cfg i))) (Observed.roster reserved))
    as (Pp & Pe & Pl & Pf). rewrite Pp in Ep. rewrite Pe in Ee. rewrite Pl in El. rewrite Pf in Ef.
  edestruct (update_facts r0 (cfg i) w (millis now)) as (Up & Ue & Ul & _ & Uf); [|split].
  2:{ apply (next_version_ok i); [done| | | |].
      - rewrite Up. exact Ep.
      - rewrite Ue. exact Ee.
      - rewrite Ul, El. apply opt_le_refl.
      - apply Uf. rewrite Ef. apply Hg. }
  2:{ rewrite Up, Ep. apply Hg. }
  intros s E. unfold observe in E. by eapply observe_finite.
Qed.

Lemma release_ok i l nonce r :
  good (cfg i) l → mutate (Sampling.invocation_id (cfg i)) nonce (Roster.set_released (Observed.roster l) true) = Ok r →
  flight_ok (Flight.mk (Matches (Observed.version l)) r None) ∧ Roster.policy r = Policy.new (cfg i).
Proof.
  intros Hg Em. apply mutate_facts in Em as (Ep & Ee & El & Ef & _). cbn in *.
  split; [|by rewrite Ep; apply Hg].
  apply (next_version_ok i); try done; [rewrite El; apply opt_le_refl|rewrite Ef; apply Hg].
Qed.

(** ** Every event keeps it *)

Lemma begin_ok s i p now observed foreign a s' :
  sys_ok s → Sys.procs s !! i = Some p → from_option (good (cfg i)) True observed →
  begin uncertainty cfg s i p now observed foreign a = Some s' → sys_ok s'.
Proof. intros Hs Hp Ho. eapply put_proc_ok; [done|done|done|]. by apply controller_new_good. Qed.

Lemma end_election_ok s i p now x s' :
  sys_ok s → Sys.procs s !! i = Some p → good_controller (cfg i) x →
  end_election s i p now x = Some s' → sys_ok s'.
Proof.
  intros Hs Hp Hx. unfold end_election, after_election.
  destruct (Controller.leader x) as [l|] eqn:El; [|by eapply put_proc_ok].
  destruct (_ <=? _); eapply put_proc_ok; try done; destruct Hx as [Hc Hl]; [by rewrite El in Hl|by split].
Qed.

Lemma end_pass_ok s i p now x s' :
  sys_ok s → Sys.procs s !! i = Some p → good_controller (cfg i) x →
  end_pass cfg s i p now x = Some s' → sys_ok s'.
Proof. intros Hs Hp Hx. by eapply put_proc_ok. Qed.

Lemma forget_leader c x : good_controller c x → good_controller c (Controller.set_leader x None).
Proof. by intros [? _]. Qed.

Lemma lead_good c o now x :
  good_controller c x → good c o →
  good_controller c (learn uncertainty c (Some (DecodedRoster o)) now (Controller.set_leader x (Some o))).
Proof. intros [Hc _] Ho. by apply learn_good. Qed.

Lemma lead_next_good c o now x n :
  good_controller c x → good c o →
  good_controller c (Controller.set_next_pass (learn uncertainty c (Some (DecodedRoster o)) now
    (Controller.set_leader x (Some o))) n).
Proof. intros Hx Ho. exact (lead_good c o now x Hx Ho). Qed.

Lemma assessing_ok s i p x w o a :
  sys_ok s → Sys.procs s !! i = Some p → good_controller (cfg i) x → good (cfg i) o →
  let s' := set_proc s i (Proc.mk (Proc.Assessing w o) x (Proc.reads p)) in
  sys_ok (Sys.mk (Sys.object s') (Sys.flights s') (Sys.procs s') (Sys.log s') (Sys.assessed s' ++ a)).
Proof.
  intros Hs Hp Hx Ho. enough (sys_ok (set_proc s i (Proc.mk (Proc.Assessing w o) x (Proc.reads p)))) as [] by done.
  apply set_proc_ok; [done|]. destruct (ok_procs _ Hs _ _ Hp) as (_ & _ & Hr). by split.
Qed.

Lemma finish_write_ok s i p now why res s' :
  sys_ok s → Sys.procs s !! i = Some p → good_result (cfg i) res →
  finish_write uncertainty cfg s i p now why res = Some s' → sys_ok s'.
Proof.
  intros Hs Hp Hres. destruct (ok_procs _ Hs _ _ Hp) as (_ & Hc & _). unfold finish_write.
  destruct why as [| |assess| |].
  1: destruct res as [[[o|f]|]|]; by eapply begin_ok.
  all: set (y := match res with Ok (Some (DecodedRoster o)) => (Ok (Some o), Proc.ctl p) | _ => _ end);
    assert (match fst y with Ok (Some o) => good (cfg i) o | _ => True end ∧ good_controller (cfg i) (snd y)) as Hy
      by (subst y; destruct res as [[[o|f]|]|]; (split; [done|]); try done; cbn [snd];
          destruct Hc as [Hc Hl]; (split; [|done]); by apply publish_good);
    clearbody y; destruct y as [[[o|]|e] x]; cbn [fst snd] in Hy; destruct Hy as [Ho Hx].
  all: try (eapply end_election_ok; [done..|]; first [by apply lead_next_good|by apply forget_leader]).
  all: try (eapply end_pass_ok; [done..|]; first [by apply lead_good|by apply forget_leader|done]).
  all: try (by eapply put_proc_ok).
  destruct assess as [w|]; [|eapply end_pass_ok; [done..|]; by apply lead_good].
  intros [= <-]. by apply assessing_ok; [..|apply lead_good|].
Qed.

Lemma reconcile_good c r object e :
  (∀ o, object = Some o → StoredObject.version o = token_of (StoredObject.body o)) →
  good_result c (reconcile c r object e).
Proof.
  intros Ht. unfold reconcile. destruct object as [[b v t]|]; [|done].
  destruct (decode _ c) as [[o|f]|] eqn:E; try done. destruct (_ && _); [|done].
  pose proof (Ht _ eq_refl) as Hv. cbn in Hv. subst v. by apply decode_good in E as [? _].
Qed.

(** The reply to a write that was carried out. *)
Lemma reply_good s i p why r f v now :
  sys_ok s → Sys.procs s !! i = Some p → Proc.at_ p = Proc.Writing why r →
  Sys.flights s !! Roster.revision r = Some f → Flight.outcome f = Some (Stored v) →
  good (cfg i) (Observed.mk r v now).
Proof.
  intros Hs Hp Hpl Hf Hv. destruct (ok_procs _ Hs _ _ Hp) as (Hplace & _). rewrite Hpl in Hplace.
  destruct Hplace as (Hpol & f' & Hf' & Hr & _). rewrite Hf in Hf'. injection Hf' as <-.
  destruct (ok_flights _ Hs _ _ Hf) as (_ & (Hfin & _) & Ho). destruct (Ho v Hv) as [-> _]. rewrite Hr in *.
  split; [|done]. split; [done|]. destruct (json_roster_text r Hfin) as (rb & Hb & Hsame).
  by exists (json_text r), rb.
Qed.

Lemma system_step_ok s e s' : sys_ok s → step uncertainty cfg s e = Some s' → sys_ok s'.
Proof.
  intros Hs. pose proof (ok_token _ Hs) as Ht.
  destruct e as [rev now|body now|i now nonce|i now|i now|i now|i now nonce|i now|i now nonce
    |i now nonce salt census profilers|i now|i now|i|i now|i now|i now|i|i k|i nonce|i];
    [by apply commit_ok|by apply elsewhere_ok|..]; cbn [step];
    (destruct (Sys.procs s !! i) as [p|] eqn:Ep; [|done]); cbn [mbind option_bind];
    destruct (ok_procs _ Hs _ _ Ep) as (Hpl & Hc & Hr).
  - destruct (Proc.at_ p); try done. destruct (match validate _ with Ok _ => _ | Err _ => _ end); [|done].
    destruct (read_roster _ _) as [[[o|f]|]|] eqn:Er; try (by eapply begin_ok).
    { pose proof (read_good _ _ _ Ht Er). by eapply begin_ok. }
    destruct (mutate _ _ _) as [r|] eqn:Em; [|by eapply begin_ok].
    destruct (created_ok i _ _ _ _ Absent None Em eq_refl (or_introl eq_refl)). by eapply send_ok.
  - destruct (Proc.at_ p); try done. by eapply begin_ok.
  - destruct (Proc.at_ p) as [| | | |[] r|[] r| |]; try done; by eapply begin_ok.
  - destruct (Proc.at_ p); try done. pose proof (consume_good uncertainty (cfg i) now _ Hc) as Hx.
    destruct (Controller.election_needed _); [by eapply put_proc_ok|by eapply end_election_ok].
  - destruct (Proc.at_ p); try done. destruct (elect _ _ _ _ _) as [[d|cond r]|] eqn:Ee.
    + eapply end_election_ok; [done..|]. apply learn_good; [done|]. by eapply elect_held.
    + destruct (elect_ok _ _ _ _ _ _ Ht Ee). by eapply send_ok.
    + eapply end_election_ok; [done..|]. by apply forget_leader.
  - destruct (Proc.at_ p); try done. eapply end_election_ok; [done..|]. by apply forget_leader.
  - destruct (Proc.at_ p) as [| | |previous| | | |]; try done. destruct (begin_pass _ _ _ _ _) as [[d|v r assess]|] eqn:Eb.
    + eapply end_pass_ok; [done..|]. apply learn_good; [done|]. by eapply begin_pass_read.
    + destruct (begin_pass_ok _ _ _ _ _ _ _ _ Ht Eb) as (? & ? & ?). by eapply send_ok.
    + eapply end_pass_ok; [done..|]. by apply forget_leader.
  - destruct (Proc.at_ p) as [| | | | | |w reserved|]; try done.
    destruct (conclude_pass _ _ _ _ _ _ _ _) as [r|] eqn:Eb.
    + destruct (conclude_pass_ok _ _ _ _ _ _ _ _ _ Hpl Eb). by eapply send_ok.
    + eapply end_pass_ok; [done..|]. by apply forget_leader.
  - destruct (Proc.at_ p) as [| | |previous|[] r|[] r| |]; try done;
      (eapply end_pass_ok; [done..|]; by apply forget_leader).
  - destruct (Proc.at_ p) as [| | | |why r| | |] eqn:Epl; try done.
    destruct (Sys.flights s !! _) as [f|] eqn:Ef; [|done]. cbn [mbind option_bind].
    destruct (Flight.outcome f) as [[v|]|] eqn:Eo; [| |done]; eapply finish_write_ok; try done.
    by eapply reply_good.
  - destruct (Proc.at_ p) as [| | | |why r| | |]; try done. by eapply put_proc_ok.
  - destruct (Proc.at_ p) as [| | | |why r| | |]; try done. by eapply finish_write_ok.
  - destruct (Proc.at_ p) as [| | | | |why r| |]; try done. eapply finish_write_ok; [done..|].
    by apply reconcile_good.
  - destruct (Proc.at_ p) as [| | | | |why r| |]; try done. by eapply finish_write_ok.
  - intros [= <-]. apply set_proc_ok; [done|]. split; [done|]. split; [done|]. apply list.Forall_app.
    split; [done|]. constructor; [|done]. destruct (read_roster _ _) eqn:Er; [|done]. by eapply read_good.
  - destruct (Proc.reads p !! k) as [d|] eqn:Ed; [|done]. cbn [mbind option_bind]. intros [= <-].
    apply set_proc_ok; [done|]. split; [done|]. cbn [Proc.ctl Proc.reads]. split.
    + rewrite Forall_lookup in Hr. specialize (Hr k d Ed). destruct d as [d|]; [|done].
      destruct Hc as [Hc Hl]. split; [|done]. by apply publish_good.
    + by apply Forall_delete.
  - assert (match Controller.leader (Proc.ctl p) with
      | None => put_proc s i p Proc.Gone (Proc.ctl p)
      | Some l => match mutate (Sampling.invocation_id (cfg i)) nonce (Roster.set_released (Observed.roster l) true) with
                  | Err _ => put_proc s i p Proc.Gone (Controller.set_leader (Proc.ctl p) None)
                  | Ok r => send s i p (Matches (Observed.version l)) r Releasing
                              (Controller.set_leader (Proc.ctl p) None)
                  end
      end = Some s' → sys_ok s') as Hrel.
    { destruct (Controller.leader (Proc.ctl p)) as [l|] eqn:El; [|by eapply put_proc_ok].
      destruct Hc as [Hc Hl]. rewrite El in Hl. destruct (mutate _ _ _) as [r|] eqn:Em; [|by eapply put_proc_ok].
      destruct (release_ok _ _ _ _ Hl Em). by eapply send_ok. }
    destruct (Proc.at_ p) as [| | | |[] r|[] r| |]; done.
  - by eapply put_proc_ok.
Qed.
End invariant.

(** ** No window twice *)

Section once.
Context `{Ulid, Draws, Versions}.
Variable uncertainty : Z.
Variable cfg : nat → Sampling.t.

Definition pending_place (x : Proc.place) : option (purpose * Roster.t) :=
  match x with
  | Proc.Writing why r | Proc.ReadingBack why r => Some (why, r)
  | _ => None
  end.

(** The nonce an event gives to a version of the roster. *)
Definition nonce_of (e : event) : option bytes :=
  match e with
  | Start _ _ nonce | ElectRead _ _ nonce | PassRead _ _ nonce | Assessed _ _ nonce _ _ _ | Stop _ nonce =>
      Some nonce
  | _ => None
  end.

Definition of_the_pool (e : event) : bool := match e with Elsewhere _ _ => false | _ => true end.

(** What an event comes to, as far as writes and windows are concerned. *)
Inductive move (s : Sys.t) (nonce : option bytes) : Sys.t → Prop :=
| MoveProc i p p' :
    Sys.procs s !! i = Some p →
    pending_place (Proc.at_ p') = None ∨ pending_place (Proc.at_ p') = pending_place (Proc.at_ p) →
    move s nonce (set_proc s i p')
| MoveSend i p p' f :
    Sys.procs s !! i = Some p → Sys.flights s !! Roster.revision (Flight.roster f) = None →
    nonce = Some (Roster.revision (Flight.roster f)) →
    (∃ why, pending_place (Proc.at_ p') = Some (why, Flight.roster f)) →
    move s nonce
      (Sys.mk (Sys.object s) (<[Roster.revision (Flight.roster f) := f]> (Sys.flights s))
         (<[i := p']> (Sys.procs s)) (Sys.log s) (Sys.assessed s))
| MoveCommit F log object x :
    (∀ rev, is_Some (F !! rev) ↔ is_Some (Sys.flights s !! rev)) → fleet_le (Sys.flights s) F →
    log = Sys.log s ∨ log = Sys.log s ++ [Written x] →
    move s nonce (Sys.mk object F (Sys.procs s) log (Sys.assessed s))
| MoveAssess i p w r f p' :
    Sys.procs s !! i = Some p → pending_place (Proc.at_ p) = Some (ReservingFor (Some w), r) →
    Sys.flights s !! Roster.revision r = Some f → Flight.roster f = r → reserves f w → Written r ∈ Sys.log s →
    pending_place (Proc.at_ p') = None →
    move s nonce
      (Sys.mk (Sys.object s) (Sys.flights s) (<[i := p']> (Sys.procs s)) (Sys.log s)
         (Sys.assessed s ++ [(Roster.revision r, w)])).

(** [original]: the revision of the roster that was there at the start. *)
Record once_ok (original : option bytes) (s : Sys.t) : Prop := {
  once_written : ∀ k x, Sys.log s !! S k = Some x → ∃ r, x = Written r;
  once_new : ∀ rev, is_Some (Sys.flights s !! rev) → original ≠ Some rev;
  once_original : ∀ b rb, Sys.log s !! 0%nat = Some (Elsewhere_ (Some b)) → json_roster b = Some rb →
    original = Some (Roster.revision rb);
  once_assessed : ∀ rev w, (rev, w) ∈ Sys.assessed s →
    ∃ f, Sys.flights s !! rev = Some f ∧ Written (Flight.roster f) ∈ Sys.log s ∧ reserves f w;
  once_nodup : NoDup (map fst (Sys.assessed s));
  once_pending : ∀ i p why r, Sys.procs s !! i = Some p → pending_place (Proc.at_ p) = Some (why, r) →
    is_Some (Sys.flights s !! Roster.revision r) ∧ Roster.revision r ∉ map fst (Sys.assessed s);
  once_unique : ∀ i j p q why why' r r', Sys.procs s !! i = Some p → Sys.procs s !! j = Some q →
    pending_place (Proc.at_ p) = Some (why, r) → pending_place (Proc.at_ q) = Some (why', r') →
    Roster.revision r = Roster.revision r' → i = j }.

Lemma once_move original nonce s s' :
  once_ok original s → (∀ n, nonce = Some n → original ≠ Some n) → move s nonce s' → once_ok original s'.
Proof.
  intros [] Hn [i p p' Hp Hpl|i p p' f Hp Hf Hnonce [why Hpl]|F log object x HF Hle Hlog
    |i p w r f p' Hp Hpl Hf Hr Hw Hin Hpl']; split; cbn [Sys.log Sys.flights Sys.procs Sys.assessed set_proc];
    try done.
  - intros j q why r Hj Hq. apply list_lookup_insert_Some in Hj as [(-> & -> & _)|[_ Hj]]; [|by eauto].
    destruct Hpl as [Hpl|Hpl]; rewrite Hpl in Hq; [done|by eauto].
  - intros j k q q' why why' r r' Hj Hk Hq Hq'.
    apply list_lookup_insert_Some in Hj as [(<- & <- & _)|[Hj' Hj]];
      apply list_lookup_insert_Some in Hk as [(<- & <- & _)|[Hk' Hk]]; try done.
    + destruct Hpl as [Hpl|Hpl]; rewrite Hpl in Hq; [done|]. by eapply once_unique0.
    + destruct Hpl as [Hpl|Hpl]; rewrite Hpl in Hq'; [done|]. by eapply once_unique0.
    + by eapply once_unique0.
  - intros rev Hrev. destruct (decide (rev = Roster.revision (Flight.roster f))) as [->|Hne].
    + by apply Hn.
    + rewrite lookup_insert_ne in Hrev by done. by apply once_new0.
  - intros rev w Hin. destruct (once_assessed0 rev w Hin) as (g & Hg & ?). exists g. split; [|done].
    rewrite lookup_insert_ne; [done|]. intros E. rewrite E in Hf. by rewrite Hf in Hg.
  - intros j q why' r Hj Hq. apply list_lookup_insert_Some in Hj as [(<- & <- & _)|[_ Hj]].
    + rewrite Hpl in Hq. injection Hq as <- <-. rewrite lookup_insert_eq. split; [by eexists|].
      intros Hin. apply list_elem_of_fmap in Hin as ([rev w] & E & Hin). cbn in E.
      destruct (once_assessed0 rev w Hin) as (g & Hg & _). rewrite <- E in Hg. by rewrite Hf in Hg.
    + destruct (once_pending0 _ _ _ _ Hj Hq) as [[g Hg] Hnot]. split; [|done].
      rewrite lookup_insert_ne; [by eexists|]. intros E. rewrite E in Hf. by rewrite Hf in Hg.
  - intros j k q q' why1 why2 r r' Hj Hk Hq Hq' E.
    assert (∀ l q why r, Sys.procs s !! l = Some q → pending_place (Proc.at_ q) = Some (why, r) →
      Roster.revision r ≠ Roster.revision (Flight.roster f)) as Hold.
    { intros l q0 why0 r0 Hl Hq0 E0. destruct (once_pending0 _ _ _ _ Hl Hq0) as [[g Hg] _].
      rewrite E0 in Hg. by rewrite Hf in Hg. }
    apply list_lookup_insert_Some in Hj as [(<- & <- & _)|[Hj' Hj]];
      apply list_lookup_insert_Some in Hk as [(<- & <- & _)|[Hk' Hk]]; try done.
    + rewrite Hpl in Hq. injection Hq as <- <-. by destruct (Hold _ _ _ _ Hk Hq').
    + rewrite Hpl in Hq'. injection Hq' as <- <-. by destruct (Hold _ _ _ _ Hj Hq).
    + by eapply once_unique0.
  - intros k y Hy. destruct Hlog as [->| ->]; [by eapply once_written0|].
    apply lookup_app_Some in Hy as [Hy|[Hlen Hy]]; [by eapply once_written0|].
    apply list_lookup_singleton_Some in Hy as [_ <-]. by exists x.
  - intros rev Hrev. apply once_new0. by apply HF.
  - intros b rb Hb. apply once_original0. destruct Hlog as [->| ->]; [done|].
    apply lookup_app_Some in Hb as [Hb|[_ Hb]]; [done|]. by apply list_lookup_singleton_Some in Hb as [_ ?].
  - intros rev w Hin. destruct (once_assessed0 rev w Hin) as (g & Hg & Hwr & Hres).
    destruct (Hle _ _ Hg) as (g' & Hg' & Er & Ec). exists g'. rewrite Er. split; [done|].
    split; [|by eapply reserves_le]. destruct Hlog as [->| ->]; [done|]. apply elem_of_app. by left.
  - intros j q why r Hj Hq. destruct (once_pending0 _ _ _ _ Hj Hq) as [? ?]. by rewrite HF.
  - intros rev w' Hw'. apply elem_of_app in Hw' as [Hw'|Hw']; [by apply once_assessed0|].
    apply list_elem_of_singleton in Hw'. injection Hw' as -> ->. exists f. by rewrite Hr.
  - rewrite map_app. apply list.NoDup_app. split; [done|]. cbn. split; [|apply NoDup_singleton].
    intros rev Hin' ->%list_elem_of_singleton. by apply (once_pending0 _ _ _ _ Hp Hpl).
  - intros j q why r' Hj Hq. apply list_lookup_insert_Some in Hj as [(<- & <- & _)|[Hne Hj]].
    { by rewrite Hpl' in Hq. }
    destruct (once_pending0 _ _ _ _ Hj Hq) as [? Hnot]. split; [done|]. rewrite map_app, elem_of_app. cbn.
    intros [?|E%list_elem_of_singleton]; [done|]. apply Hne. by eapply (once_unique0 i j).
  - intros j k q q' why1 why2 r1 r2 Hj Hk Hq Hq'.
    apply list_lookup_insert_Some in Hj as [(<- & <- & _)|[Hj' Hj]]; [by rewrite Hpl' in Hq|].
    apply list_lookup_insert_Some in Hk as [(<- & <- & _)|[Hk' Hk]]; [by rewrite Hpl' in Hq'|].
    by eapply once_unique0.
Qed.

Lemma put_proc_move nonce s i p place x s' :
  Sys.procs s !! i = Some p → pending_place place = None → put_proc s i p place x = Some s' → move s nonce s'.
Proof. intros Hp Hpl [= <-]. eapply MoveProc; [done|by left]. Qed.

Lemma end_election_move nonce s i p now x s' :
  Sys.procs s !! i = Some p → end_election s i p now x = Some s' → move s nonce s'.
Proof.
  intros Hp. unfold end_election, after_election.
  destruct (Controller.leader x); [destruct (_ <=? _)|]; by apply put_proc_move.
Qed.

Lemma end_pass_move nonce s i p now x s' :
  Sys.procs s !! i = Some p → end_pass cfg s i p now x = Some s' → move s nonce s'.
Proof. intros Hp. by apply put_proc_move. Qed.

Lemma send_move s i p cond r why x s' :
  Sys.procs s !! i = Some p → send s i p cond r why x = Some s' → move s (Some (Roster.revision r)) s'.
Proof.
  intros Hp. unfold send. destruct (Sys.flights s !! _) eqn:E; [done|]. intros [= <-].
  apply (MoveSend s _ i p (Proc.mk (Proc.Writing why r) x (Proc.reads p)) (Flight.mk cond r None)); try done.
  by exists why.
Qed.

(** What a write of [r] for a window that is known to have been carried out is
    answered with. *)
Definition answers (s : Sys.t) (r : Roster.t) (res : result (option Decoded) StoreError.t) : Prop :=
  match res with
  | Ok (Some (DecodedRoster o)) => Roster.revision (Observed.roster o) = Roster.revision r ∧ Written r ∈ Sys.log s
  | _ => True
  end.

Lemma finish_write_move nonce s i p now why r res s' :
  sys_ok cfg s → Sys.procs s !! i = Some p → pending_place (Proc.at_ p) = Some (why, r) → answers s r res →
  finish_write uncertainty cfg s i p now why res = Some s' → move s nonce s'.
Proof.
  intros Hs Hp Hpl Ha. unfold finish_write.
  destruct why as [| |assess| |].
  1: destruct res as [[[o|f]|]|]; by apply put_proc_move.
  all: destruct res as [[[o|f]|]|]; try (by apply end_election_move); try (by apply end_pass_move);
    try (by apply put_proc_move).
  destruct assess as [w|]; [|by apply end_pass_move]. intros [= <-]. cbn in Ha. destruct Ha as [Erev Hin].
  destruct (ok_procs _ _ Hs _ _ Hp) as (Hplace & _).
  assert (pending cfg (Sys.flights s) i (ReservingFor (Some w)) r) as (_ & g & Hg & Er & Hres).
  { destruct (Proc.at_ p); cbn in Hpl; try done; by injection Hpl as -> ->. }
  rewrite Erev.
  by eapply (MoveAssess s nonce i p w r g (Proc.mk (Proc.Assessing w o) _ (Proc.reads p))).
Qed.

(** The roster in the object, read back under the revision of a write of the
    pool, is that write. *)
Lemma readback_written original s i r e :
  sys_ok cfg s → once_ok original s → is_Some (Sys.flights s !! Roster.revision r) →
  (∀ f, Sys.flights s !! Roster.revision r = Some f → Flight.roster f = r) →
  answers s r (reconcile (cfg i) r (Sys.object s) e).
Proof.
  intros Hs Ho [f Hf] Hr. unfold reconcile. destruct (Sys.object s) as [[b v t]|] eqn:Eo; [|done].
  pose proof (ok_token _ _ Hs _ Eo) as Hv. cbn in Hv. subst v.
  destruct (decode _ (cfg i)) as [[o|fo]|] eqn:Ed; try done.
  destruct (bool_decide_reflect (Roster.revision (Observed.roster o) = Roster.revision r)) as [E|]; [|done].
  destruct (mine (cfg i) o); [|done]. cbn. split; [done|]. apply decode_good in Ed as (_ & _ & Hb).
  destruct (ok_last _ _ Hs) as (x & Hx & Hbody). rewrite Eo in Hbody. cbn in Hbody.
  destruct (ok_first _ _ Hs) as [b0 Hb0]. rewrite last_lookup in Hx.
  destruct (pred (length (Sys.log s))) as [|k].
  - rewrite Hb0 in Hx. injection Hx as <-. cbn in Hbody. subst b0.
    pose proof (once_original _ _ Ho _ _ Hb0 Hb) as Horig. exfalso.
    apply (once_new _ _ Ho (Roster.revision r)); [by eexists|]. by rewrite Horig, E.
  - destruct (once_written _ _ Ho k x Hx) as [r' ->]. cbn in Hbody. injection Hbody as ->.
    apply list_elem_of_lookup_2 in Hx as Hin. destruct (ok_written _ _ Hs _ Hin) as (g & w & Hg & Eg & _).
    destruct (ok_flights _ _ Hs _ _ Hg) as (_ & (Hfin & _) & _). rewrite Eg in Hfin.
    destruct (json_roster_text r' Hfin) as (rb & Hrb & Hsame). rewrite Hb in Hrb. injection Hrb as <-.
    destruct (same_fields _ _ Hsame) as (_ & _ & _ & Erev). rewrite E in Erev.
    rewrite Erev in Hg. rewrite <- (Hr g Hg), Eg. done.
Qed.

Lemma step_move original s e s' :
  sys_ok cfg s → once_ok original s → of_the_pool e = true → step uncertainty cfg s e = Some s' →
  move s (nonce_of e) s'.
Proof.
  intros Hs Ho He.
  assert (∀ i p why r, Sys.procs s !! i = Some p → pending_place (Proc.at_ p) = Some (why, r) →
    is_Some (Sys.flights s !! Roster.revision r) ∧
    ∀ f, Sys.flights s !! Roster.revision r = Some f → Flight.roster f = r) as Hpend.
  { intros i p why r Hp Hpl. destruct (ok_procs _ _ Hs _ _ Hp) as (Hplace & _).
    assert (pending cfg (Sys.flights s) i why r) as (_ & g & Hg & Er & _)
      by (destruct (Proc.at_ p); cbn in Hpl; try done; by injection Hpl as -> ->).
    split; [by eexists|]. intros f Hf. rewrite Hg in Hf. by injection Hf as <-. }
  destruct e as [rev now|body now|i now nonce|i now|i now|i now|i now nonce|i now|i now nonce
    |i now nonce salt census profilers|i now|i now|i|i now|i now|i now|i|i k|i nonce|i]; try done; cbn [step].
  { destruct (Sys.flights s !! rev) as [f|] eqn:Ef; [|done]. cbn [mbind option_bind].
    destruct (Flight.outcome f); [done|]. destruct (put_object _ _ _) as [outcome object]. intros [= <-].
    eapply (MoveCommit s _ _ _ _ (Flight.roster f)).
    - intros rev'. destruct (decide (rev' = rev)) as [->|Hne]; [rewrite lookup_insert_eq, Ef|by rewrite lookup_insert_ne].
      split; intros _; by eexists.
    - intros rev' g Hg. destruct (decide (rev' = rev)) as [->|Hne].
      + rewrite Ef in Hg. injection Hg as <-. eexists. by rewrite lookup_insert_eq.
      + exists g. by rewrite lookup_insert_ne.
    - destruct outcome; [by right|by left]. }
  all: (destruct (Sys.procs s !! i) as [p|] eqn:Ep; [|done]); cbn [mbind option_bind nonce_of].
  - destruct (Proc.at_ p); try done. destruct (match validate _ with Ok _ => _ | Err _ => _ end); [|done].
    destruct (read_roster _ _) as [[[o|f]|]|]; try (by apply put_proc_move).
    destruct (mutate _ _ _) as [r|] eqn:Em; [|by apply put_proc_move].
    apply mutate_facts in Em as (_ & _ & _ & _ & <-). by apply send_move.
  - destruct (Proc.at_ p); try done. by apply put_proc_move.
  - destruct (Proc.at_ p) as [| | | |[] r|[] r| |]; try done; by apply put_proc_move.
  - destruct (Proc.at_ p); try done. destruct (Controller.election_needed _); [by apply put_proc_move|by apply end_election_move].
  - destruct (Proc.at_ p); try done. destruct (elect _ _ _ _ _) as [[d|cond r]|] eqn:Ee; try (by apply end_election_move).
    enough (nonce = Roster.revision r) as -> by by apply send_move.
    unfold elect in Ee. destruct (read_roster _ _) as [[[o|f]|]|]; [..|done]; try (destruct (negb _); [done|]);
      (destruct (mutate _ _ _) eqn:Em; [|done]); injection Ee as _ <-; by apply mutate_facts in Em as (_ & _ & _ & _ & <-).
  - destruct (Proc.at_ p); try done. by apply end_election_move.
  - destruct (Proc.at_ p) as [| | |previous| | | |]; try done.
    destruct (begin_pass _ _ _ _ _) as [[d|v r assess]|] eqn:Eb; try (by apply end_pass_move).
    enough (nonce = Roster.revision r) as -> by by apply send_move.
    unfold begin_pass in Eb. destruct (read_roster _ _) as [[[o|f]|]|]; [|done..]. destruct (_ || _); [done|].
    destruct (mutate _ _ _) as [r0|] eqn:Em; [|done]. apply mutate_facts in Em as (_ & _ & _ & _ & <-).
    injection Eb as _ <- _. by destruct (match Timing.completed _ _ with Some w => _ | None => None end).
  - destruct (Proc.at_ p) as [| | | | | |w reserved|]; try done.
    destruct (conclude_pass _ _ _ _ _ _ _ _) as [r|] eqn:Eb; [|by apply end_pass_move].
    enough (nonce = Roster.revision r) as -> by by apply send_move.
    unfold conclude_pass in Eb. destruct (mutate _ _ _) as [r0|] eqn:Em; [|done].
    apply mutate_facts in Em as (_ & _ & _ & _ & <-). injection Eb as <-. symmetry.
    eapply update_facts. intros x E. unfold observe in E. by eapply observe_finite.
  - destruct (Proc.at_ p) as [| | |previous|[] r|[] r| |]; try done; by apply end_pass_move.
  - destruct (Proc.at_ p) as [| | | |why r| | |] eqn:Epl; try done.
    destruct (Sys.flights s !! _) as [f|] eqn:Ef; [|done]. cbn [mbind option_bind].
    assert (pending_place (Proc.at_ p) = Some (why, r)) as Hpl by by rewrite Epl.
    destruct (Hpend _ _ _ _ Ep Hpl) as [_ Hr]. specialize (Hr f Ef).
    destruct (Flight.outcome f) as [[v|]|] eqn:Eo; [| |done]; eapply finish_write_move; try done.
    cbn. split; [done|]. rewrite <- Hr. eapply (ok_flights _ _ Hs); [exact Ef|exact Eo].
  - destruct (Proc.at_ p) as [| | | |why r| | |] eqn:Epl; try done. intros [= <-].
    eapply MoveProc; [done|]. right. by rewrite Epl.
  - destruct (Proc.at_ p) as [| | | |why r| | |] eqn:Epl; try done.
    eapply finish_write_move; [done|done|by rewrite Epl|done].
  - destruct (Proc.at_ p) as [| | | | |why r| |] eqn:Epl; try done.
    assert (pending_place (Proc.at_ p) = Some (why, r)) as Hpl by by rewrite Epl.
    destruct (Hpend _ _ _ _ Ep Hpl) as [Hf Hr].
    eapply finish_write_move; [done|done|exact Hpl|]. by eapply readback_written.
  - destruct (Proc.at_ p) as [| | | | |why r| |] eqn:Epl; try done.
    eapply finish_write_move; [done|done|by rewrite Epl|done].
  - intros [= <-]. eapply MoveProc; [done|by right].
  - destruct (Proc.reads p !! k) as [d|]; [|done]. cbn [mbind option_bind]. intros [= <-].
    eapply MoveProc; [done|by right].
  - assert (match Controller.leader (Proc.ctl p) with
      | None => put_proc s i p Proc.Gone (Proc.ctl p)
      | Some l => match mutate (Sampling.invocation_id (cfg i)) nonce (Roster.set_released (Observed.roster l) true) with
                  | Err _ => put_proc s i p Proc.Gone (Controller.set_leader (Proc.ctl p) None)
                  | Ok r => send s i p (Matches (Observed.version l)) r Releasing
                              (Controller.set_leader (Proc.ctl p) None)
                  end
      end = Some s' → move s (Some nonce) s') as Hrel.
    { destruct (Controller.leader (Proc.ctl p)) as [l|]; [|by apply put_proc_move].
      destruct (mutate _ _ _) as [r|] eqn:Em; [|by apply put_proc_move].
      apply mutate_facts in Em as (_ & _ & _ & _ & <-). by apply send_move. }
    destruct (Proc.at_ p) as [| | | |[] r|[] r| |]; done.
  - by apply put_proc_move.
Qed.
End once.

(** ** Runs *)

Section runs.
Context `{Ulid, Draws, Versions}.
Variable uncertainty : Z.
Variable cfg : nat → Sampling.t.

Lemma start_ok n body : sys_ok cfg (system_start n body).
Proof.
  split; cbn; try done.
  - intros r Hr. by apply list_elem_of_singleton in Hr.
  - eexists. split; [done|]. by destruct body as [[b t]|].
  - intros o. destruct body as [[b t]|]; [|done]. by intros [= <-].
  - by eexists.
  - constructor.
  - intros i p Hp. apply lookup_replicate in Hp as [-> _]. by split.
Qed.

(** The revision of the roster in a body. *)
Definition revision_of (body : option json) : option bytes := Roster.revision <$> (body ≫= json_roster).

Lemma start_once n body : once_ok (revision_of (fst <$> body)) (system_start n body).
Proof.
  split; cbn.
  - by intros k x Hx.
  - intros rev [f Hf]. by rewrite lookup_empty in Hf.
  - intros b rb [= Hb] Hr. unfold revision_of. rewrite Hb. cbn. by rewrite Hr.
  - by intros rev w Hin%elem_of_nil.
  - constructor.
  - intros i p why r Hp. by apply lookup_replicate in Hp as [-> _].
  - intros i j p q why why' r r' Hp. by apply lookup_replicate in Hp as [-> _].
Qed.

Lemma run_ok s evs s' : sys_ok cfg s → run_system uncertainty cfg s evs = Some s' → sys_ok cfg s'.
Proof.
  revert s. induction evs as [|e evs IH]; intros s Hs; cbn; [by intros [= <-]|].
  destruct (step uncertainty cfg s e) as [s1|] eqn:E; [|done]. by eapply IH, system_step_ok.
Qed.

Lemma run_once original s evs s' :
  sys_ok cfg s → once_ok original s →
  Forall (λ e, of_the_pool e = true ∧ (∀ n, nonce_of e = Some n → original ≠ Some n)) evs →
  run_system uncertainty cfg s evs = Some s' → once_ok original s'.
Proof.
  intros Hs Ho Hevs. revert s Hs Ho. induction Hevs as [|e evs [He Hn] _ IH]; intros s Hs Ho; cbn; [by intros [= <-]|].
  destruct (step uncertainty cfg s e) as [s1|] eqn:E; [|done].
  eapply IH; [by eapply system_step_ok|]. eapply once_move; [done|exact Hn|]. by eapply step_move.
Qed.

(** A write of the pool in the log builds on what was there before. *)
Lemma written_builds s k before r :
  sys_ok cfg s → Sys.log s !! k = Some before → Sys.log s !! S k = Some (Written r) →
  builds_on (body_after before) r.
Proof.
  intros Hs Hk Hr. destruct (ok_links _ _ Hs k before r Hk Hr) as (f & Hf & Er & Hon).
  destruct (ok_flights _ _ Hs _ _ Hf) as (_ & (_ & _ & base & Hbase & Hb) & _). rewrite Er in Hb.
  enough (body_after before = base) as -> by done.
  destruct (Flight.cond f) as [| |v]; cbn in *; [done|congruence|].
  destruct Hon as (b & -> & ->), Hbase as (b' & -> & E). by apply token_of_inj in E as ->.
Qed.

Lemma written_facts s r : sys_ok cfg s → Written r ∈ Sys.log s →
  finite_estimate r = true ∧ ∃ i, Roster.policy r = Policy.new (cfg i).
Proof.
  intros Hs Hin. destruct (ok_written _ _ Hs _ Hin) as (f & v & Hf & Er & _).
  destruct (ok_flights _ _ Hs _ _ Hf) as (_ & (Hfin & Hpol & _) & _). by rewrite Er in Hfin, Hpol.
Qed.

(** The last window a body tells of. *)
Definition last_window_of (b : option json) : option Z := (b ≫= json_roster) ≫= Roster.last_window.

Lemma last_window_written s r :
  sys_ok cfg s → Written r ∈ Sys.log s → last_window_of (Some (json_text r)) = Roster.last_window r.
Proof.
  intros Hs Hin. destruct (written_facts s r Hs Hin) as [Hfin _]. unfold last_window_of. cbn.
  destruct (json_roster_text r Hfin) as (rb & -> & Hsame). cbn. by destruct (same_fields _ _ Hsame) as (_ & _ & -> & _).
Qed.

(** Along writes of the pool windows are not forgotten. *)
Lemma windows_grow s policy i j r r' :
  sys_ok cfg s → (∀ i, Policy.new (cfg i) = policy) →
  (∀ k x, Sys.log s !! S k = Some x → ∃ r, x = Written r) →
  Sys.log s !! S i = Some (Written r) → Sys.log s !! S j = Some (Written r') → (i <= j)%nat →
  opt_le (Roster.last_window r) (Roster.last_window r').
Proof.
  intros Hs Hpol Hall Hi. revert r'. induction j as [|j IH]; intros r' Hj Hle.
  { assert (i = 0%nat) as -> by lia. rewrite Hi in Hj. injection Hj as ->. apply opt_le_refl. }
  destruct (decide (i = S j)) as [->|Hne]; [rewrite Hi in Hj; injection Hj as ->; apply opt_le_refl|].
  assert (is_Some (Sys.log s !! S j)) as [x Hx] by (apply lookup_lt_is_Some; apply lookup_lt_Some in Hj; lia).
  destruct (Hall _ _ Hx) as [q ->]. specialize (IH q Hx ltac:(lia)).
  pose proof (written_builds s (S j) _ r' Hs Hx Hj) as Hb.
  assert (Written q ∈ Sys.log s) as Hq by by apply list_elem_of_lookup_2 in Hx.
  assert (Written r' ∈ Sys.log s) as Hr' by by apply list_elem_of_lookup_2 in Hj.
  destruct (written_facts s q Hs Hq) as (Hfin & m & Hm). destruct (written_facts s r' Hs Hr') as (_ & m' & Hm').
  destruct (json_roster_text q Hfin) as (rb & Hrb & Hsame). destruct (same_fields _ _ Hsame) as (Ep & _ & El & _).
  destruct Hb as [(rb' & Hrb' & _ & _ & Hl)|[[Hh|(rb' & Hrb' & Hne')] _]].
  - rewrite Hrb in Hrb'. injection Hrb' as <-. rewrite <- El in Hl.
    destruct (Roster.last_window r), (Roster.last_window q), (Roster.last_window r'); cbn in *; try done; lia.
  - exfalso. apply Hh. rewrite json_header_text, Hm. done.
  - exfalso. rewrite Hrb in Hrb'. injection Hrb' as <-. apply Hne'. rewrite <- Ep, Hm, Hm', !Hpol. done.
Qed.

(** What is assessed is at a place of its own in the log, past everything
    before it. *)
Lemma assessed_place original s rev w :
  sys_ok cfg s → once_ok original s → (rev, w) ∈ Sys.assessed s →
  ∃ k r, Sys.log s !! S k = Some (Written r) ∧ Roster.revision r = rev ∧ Roster.last_window r = Some w ∧
    ∃ before, Sys.log s !! k = Some before ∧ opt_lt (last_window_of (body_after before)) w.
Proof.
  intros Hs Ho Hin. destruct (once_assessed _ _ Ho _ _ Hin) as (f & Hf & Hwr & Hlast & b & rb & Hc & Hrb & Hlt).
  destruct (ok_flights _ _ Hs _ _ Hf) as (Hrev & _). apply list_elem_of_lookup_1 in Hwr as [[|k] Hk].
  { destruct (ok_first _ _ Hs) as [b0 Hb0]. by rewrite Hb0 in Hk. }
  exists k, (Flight.roster f). split; [done|]. split; [done|]. split; [done|].
  assert (is_Some (Sys.log s !! k)) as [before Hbefore]
    by (apply lookup_lt_is_Some; apply lookup_lt_Some in Hk; lia).
  exists before. split; [done|]. destruct (ok_links _ _ Hs k before _ Hbefore Hk) as (g & Hg & _ & Hon).
  rewrite Hrev, Hf in Hg. injection Hg as <-. rewrite Hc in Hon. destruct Hon as (b' & Eb & Et).
  apply token_of_inj in Et as <-. unfold last_window_of. rewrite Eb. cbn. by rewrite Hrb.
Qed.

Lemma NoDup_map_snd {A B} (l : list (A * B)) :
  NoDup (map fst l) → (∀ a a' b, (a, b) ∈ l → (a', b) ∈ l → a = a') → NoDup (map snd l).
Proof.
  induction l as [|[a b] l IH]; [constructor|]. cbn. intros [Ha Hl]%list.NoDup_cons Hinj. apply list.NoDup_cons. split.
  - intros ([a' b'] & E & Hin)%list_elem_of_fmap. cbn in E. subst b'. apply Ha.
    rewrite (Hinj a a' b); [|by left|by right]. apply list_elem_of_fmap. by exists (a', b).
  - apply IH; [done|]. intros x y z Hx Hy. by apply (Hinj x y z); right.
Qed.

(** Nothing that reserves the window [w] follows another reservation of it. *)
Lemma assessed_later s policy k k' r before w :
  sys_ok cfg s → (∀ i, Policy.new (cfg i) = policy) →
  (∀ k x, Sys.log s !! S k = Some x → ∃ r, x = Written r) →
  Sys.log s !! S k = Some (Written r) → Roster.last_window r = Some w → (k < k')%nat →
  Sys.log s !! k' = Some before → opt_lt (last_window_of (body_after before)) w → False.
Proof.
  intros Hs Hpol Hall Hk Hw Hlt Hbefore Hless. destruct k' as [|k']; [lia|].
  destruct (Hall _ _ Hbefore) as [q ->]. change (opt_lt (last_window_of (Some (json_text q))) w) in Hless. rewrite (last_window_written s q Hs) in Hless
    by by apply list_elem_of_lookup_2 in Hbefore.
  pose proof (windows_grow s policy k k' r q Hs Hpol Hall Hk Hbefore ltac:(lia)) as Hg. rewrite Hw in Hg.
  destruct (Roster.last_window q); cbn in *; [lia|done].
Qed.

(** ** Main properties *)

(** C11: No update of the roster is lost: over every interleaving of the
    processes of a pool, of their requests and of writes that are carried out
    long after they were given up, of crashes, of other policies and of
    whatever else happens to the object, each write of a process that is
    carried out replaces exactly the version it was made from - its roster one
    epoch on, no reserved window forgotten - or starts over where there was no
    roster or one of another policy; and none is carried out twice. *)
Theorem no_lost_update n body evs s :
  run_system uncertainty cfg (system_start n body) evs = Some s →
  (∀ k before r, Sys.log s !! k = Some before → Sys.log s !! S k = Some (Written r) →
     builds_on (body_after before) r) ∧
  NoDup (omap (λ x, match x with Written r => Some r | _ => None end) (Sys.log s)) ∧
  ∃ x, list.last (Sys.log s) = Some x ∧ StoredObject.body <$> Sys.object s = body_after x.
Proof.
  intros E. assert (sys_ok cfg s) as Hs by (eapply run_ok; [apply start_ok|exact E]).
  split; [|split; apply Hs]. intros k before r. by apply written_builds.
Qed.

End runs.

(** ** Examples *)

Definition example_pool (i : nat) : Sampling.t :=
  let c := example_config 1 in
  Sampling.mk (Sampling.dimensions c) (Sampling.num_target_profilers c) (Sampling.if_failed c)
    (Sampling.startup_timeout c) (hex_fixed 32 (Z.of_nat i)) (Sampling.settings c).

Definition example_empty : nat → ListRequest.t → result ListPage.t StoreError.t := λ _ _, Ok (ListPage.mk [] None).

(** Two processes start together and create the roster; the one whose write
    comes first leads, reserves window 15, makes its census, and its write is
    carried out but answered with an error. *)
Definition example_events `{Versions} : list event :=
  let t := 1000000 * MILLISECOND in
  let nonce := λ i, hex_fixed 32 (1000 + i) in
  [Start 0 t (nonce 0); Start 1 t (nonce 1); Commit (nonce 0) t; Reply 0 t; Commit (nonce 1) t; Reply 1 t;
   Round 0 t; PassRead 0 t (nonce 2); Commit (nonce 2) t; Uncertain 0; Readback 0 t;
   Assessed 0 t (nonce 3) (hex_fixed 32 7) example_empty example_empty; Commit (nonce 3) t; PassFails 0 t;
   Round 1 (2 * t); ElectRead 1 (2 * t) (nonce 4); Commit (nonce 4) (2 * t); Reply 1 (2 * t); PassRead 1 (2 * t) (nonce 5)].

Definition example_run `{Versions} (U : Ulid) (D : Draws) : option Sys.t :=
  run_system 0 example_pool (system_start 2 None) example_events.

Definition example_saw `{Versions} (r : option Sys.t) : option (list Z * nat) :=
  (λ s, (map snd (Sys.assessed s), length (Sys.log s))) <$> r.

Lemma no_lost_update_witness :
  let _ := example_ulid in let _ := example_draws in let _ := example_json in let _ := example_versions in
  match example_run example_ulid example_draws with
  | Some s => ∀ k before r, Sys.log s !! k = Some before → Sys.log s !! S k = Some (Written r) →
                builds_on (body_after before) r
  | None => False
  end.
Proof.
  intros U D J V. destruct (example_run example_ulid example_draws) as [s|] eqn:E.
  - by apply (no_lost_update 0 example_pool 2 None example_events s E).
  - assert (example_saw (example_run example_ulid example_draws) = Some ([15], 5%nat)) as H by by vm_compute.
    by rewrite E in H.
Defined.

