(* ===== verification/TraceWeights.v ===== *)
(** * Sampling: trace weights (dial9-sampling/src/trace_weights.rs)

    How many processes a recording process stands for.  The weight is shared
    between the sampling session, which thins and stops it, and the source the
    recorder polls for segment metadata.  [None] is unknown; zero is stopped. *)

From Stdlib Require Import ZArith Lia SpecFloat.
From stdpp Require Import base list strings option.
From S2P Require Import Prelude.
From S2P Require Import F64.
From S2P Require Import SamplingStore.

(** The shared weight. *)
Abbreviation weight := (option f64).

(** [TraceWeights::new] of a weight that passes its assertion; [None]: the
    assertion fails. *)
Definition weights_new (initial : f64) : option weight :=
  if is_finite initial && fgt initial f64_zero then Some (Some initial) else None.

Definition weights_unknown : weight := None.

Definition cannot_thin : StoreError.t := invalid (lit "cannot thin an excluded or unknown sampling weight").
Definition weight_lost : StoreError.t :=
  invalid (lit "sampling expansion weight is no longer finite and positive").

Definition positive_weight (x : f64) : bool := is_finite x && fgt x f64_zero.

Definition multiply (factor : f64) (w : weight) : weight * result unit StoreError.t :=
  match w with
  | Some x =>
      if fgt x f64_zero then
        let w := if positive_weight factor && positive_weight (fmul x factor) then Some (fmul x factor) else None in
        (w, match w with Some _ => Ok tt | None => Err weight_lost end)
      else (w, Err cannot_thin)
  | None => (w, Err cannot_thin)
  end.

Definition weights_stop (w : weight) : weight := Some f64_zero.

(** [==] of two weights. *)
Definition weight_eqb (a b : weight) : bool :=
  match a, b with
  | Some a, Some b => SFeqb a b
  | None, None => true
  | _, _ => false
  end.

(** The source: the pool, and the weight it wrote last.  [show] is the text of a
    number. *)
Section source.
Variable show : f64 → bytes.
Variable pool : bytes.

Definition weight_text (w : weight) : bytes := from_option show (lit "null") w.

Definition segment_metadata (emitted : option weight) (w : weight) : option weight * list (bytes * bytes) :=
  if from_option (λ e, weight_eqb e w) false emitted then (emitted, [])
  else (Some w, [(lit "dial9.sampling.pool", pool); (lit "dial9.sampling.weight", weight_text w)]).

(** What happens to a weight: the session thins or stops it, the recorder polls
    the source. *)
Inductive weight_event : Type :=
| Thin (factor : f64)
| StopWeight
| Polled.

(** The weight, what the source wrote last, and everything it wrote. *)
Fixpoint run_weight (w : weight) (emitted : option weight) (evs : list weight_event)
    : weight * list (list (bytes * bytes)) :=
  match evs with
  | [] => (w, [])
  | Thin f :: evs => run_weight (fst (multiply f w)) emitted evs
  | StopWeight :: evs => run_weight (weights_stop w) emitted evs
  | Polled :: evs =>
      let '(emitted, out) := segment_metadata emitted w in
      let '(w, outs) := run_weight w emitted evs in (w, out :: outs)
  end.

(** The weight a reader of the metadata knows after some polls. *)
Definition known_weight (before : option bytes) (outs : list (list (bytes * bytes))) : option bytes :=
  foldl (λ k out, foldl (λ k '(n, v), if bool_decide (n = lit "dial9.sampling.weight") then Some v else k) k out)
    before outs.
End source.

(** ** A weight is unknown, positive, or stopped *)

Definition weight_ok (w : weight) : Prop :=
  match w with None => True | Some x => positive_weight x = true ∨ x = f64_zero end.

Lemma multiply_ok f w : weight_ok w → weight_ok (fst (multiply f w)).
Proof.
  intros Hw. destruct w as [x|]; [|done]. unfold multiply. destruct (fgt x f64_zero); [|done].
  cbn. destruct (positive_weight f && _) eqn:E; [|done]. left. by apply andb_true_iff in E as [_ ?].
Qed.

(** Only a weight that is positive is multiplied, and the result is positive. *)
Lemma multiply_done f w w' :
  multiply f w = (w', Ok tt) → ∃ x, w = Some x ∧ w' = Some (fmul x f) ∧ positive_weight (fmul x f) = true.
Proof.
  unfold multiply. destruct w as [x|]; [|done]. destruct (fgt x f64_zero); [|done].
  destruct (positive_weight f && _) eqn:E; [|done]. intros [= <-]. exists x. split; [done|]. split; [done|].
  by apply andb_true_iff in E as [_ ?].
Qed.

Lemma multiply_stopped f : multiply f (Some f64_zero) = (Some f64_zero, Err cannot_thin).
Proof. done. Qed.

Lemma weight_eqb_refl w : weight_ok w → weight_eqb w w = true.
Proof.
  destruct w as [x|]; [|done]. cbn. intros [Hp| ->]; [|done].
  destruct x as [s|s| |s m e]; try done. unfold SFeqb, SFcompare. destruct s; rewrite Z.compare_refl; cbn;
    by rewrite Pos.compare_cont_refl.
Qed.

Lemma weight_eqb_eq a b : weight_ok a → weight_ok b → weight_eqb a b = true → a = b.
Proof.
  destruct a as [x|], b as [y|]; try done. cbn. intros Hx Hy.
  assert (∀ z, positive_weight z = true → ∃ m e, z = S754_finite false m e) as Hpos.
  { intros [[]|[]| |[] m e]; try done. by exists m, e. }
  destruct Hx as [(m & e & ->)%Hpos| ->], Hy as [(m' & e' & ->)%Hpos| ->]; try done.
  unfold SFeqb, SFcompare. destruct (Z.compare_spec e e') as [->| |]; [|done..].
  destruct (Pos.compare_cont Eq m m') eqn:E; [|done..]. by apply Pos.compare_eq in E as ->.
Qed.

Section knowledge.
Variable show : f64 → bytes.
Variable pool : bytes.

Abbreviation run := (run_weight show pool).

(** The weight the source wrote last, as a reader knows it. *)
Definition reader_knows (known : option bytes) (emitted : option weight) : Prop :=
  known = weight_text show <$> emitted ∧ from_option weight_ok True emitted.

Lemma poll_known known emitted w :
  weight_ok w → reader_knows known emitted →
  let '(emitted', out) := segment_metadata show pool emitted w in
  known_weight known [out] = Some (weight_text show w) ∧ emitted' = Some w.
Proof.
  intros Hw [-> He]. unfold segment_metadata. destruct emitted as [e|]; cbn; [|done].
  destruct (weight_eqb e w) eqn:E; [|done]. cbn in He. by apply weight_eqb_eq in E as ->.
Qed.

(** After a run whose last event is a poll the reader knows the weight. *)
Lemma run_known w known emitted evs :
  weight_ok w → reader_knows known emitted →
  let '(w', outs) := run w emitted (evs ++ [Polled]) in
  known_weight known outs = Some (weight_text show w').
Proof.
  revert w known emitted. induction evs as [|[f| |] evs IH]; intros w known emitted Hw Hk; cbn.
  - pose proof (poll_known known emitted w Hw Hk) as Hp.
    by destruct (segment_metadata show pool emitted w) as [emitted' out], Hp as [Hp _].
  - apply IH; [by apply multiply_ok|done].
  - apply IH; [by right|done].
  - pose proof (poll_known known emitted w Hw Hk) as Hp.
    destruct (segment_metadata show pool emitted w) as [emitted' out]. destruct Hp as [Hp ->].
    specialize (IH w (Some (weight_text show w)) (Some w) Hw (conj eq_refl Hw)).
    destruct (run w (Some w) (evs ++ [Polled])) as [w' outs]. cbn. cbn in Hp. unfold known_weight in Hp.
    cbn in Hp. by rewrite Hp.
Qed.

Lemma run_stopped emitted evs : fst (run (Some f64_zero) emitted evs) = Some f64_zero.
Proof.
  revert emitted. induction evs as [|[f| |] evs IH]; intros emitted; cbn; try done.
  destruct (segment_metadata show pool emitted _) as [emitted' out]. specialize (IH emitted').
  by destruct (run _ emitted' evs).
Qed.

Lemma run_stop w emitted evs : StopWeight ∈ evs → fst (run w emitted evs) = Some f64_zero.
Proof.
  revert w emitted. induction evs as [|[f| |] evs IH]; intros w emitted Hin; cbn; [by apply elem_of_nil in Hin| | |].
  - apply IH. by apply elem_of_cons in Hin as [?|?].
  - apply run_stopped.
  - destruct (segment_metadata show pool emitted w) as [emitted' out].
    assert (StopWeight ∈ evs) as Hin' by by apply elem_of_cons in Hin as [?|?].
    specialize (IH w emitted' Hin'). by destruct (run w emitted' evs).
Qed.
End knowledge.

(** ** Main property *)

(** The trace says what its process stands for: whatever is thinned and
    stopped between the polls of the recorder, a reader of the metadata written
    so far knows the weight as it was at the last poll, although it is written
    only when it has changed; and once the session has stopped it is zero for
    good. *)
Theorem weight_recorded show pool w evs :
  weight_ok w →
  let '(w', outs) := run_weight show pool w None (evs ++ [Polled]) in
  known_weight None outs = Some (weight_text show w') ∧ weight_ok w' ∧ (StopWeight ∈ evs → w' = Some f64_zero).
Proof.
  intros Hw. pose proof (run_known show pool w None None evs Hw (conj eq_refl I)) as Hk.
  pose proof (run_stop show pool w None (evs ++ [Polled])) as Hs.
  assert (∀ evs w e, weight_ok w → weight_ok (fst (run_weight show pool w e evs))) as Hok.
  { clear. induction evs as [|[f| |] evs IH]; intros w e Hw; cbn; [done|by apply IH, multiply_ok|apply IH; by right|].
    destruct (segment_metadata show pool e w) as [e' out]. specialize (IH w e' Hw).
    by destruct (run_weight show pool w e' evs). }
  specialize (Hok (evs ++ [Polled]) w None Hw). destruct (run_weight _ _ _ _ _) as [w' outs]. split; [done|].
  split; [done|]. intros Hin. apply Hs. apply elem_of_app. by left.
Qed.

Lemma weight_recorded_witness :
  let show := λ x, lit (if fgt x f64_zero then "positive" else "0") in
  let evs := [Polled; Thin (f64_of 2); Polled; StopWeight; Thin (f64_of 2)] in
  let '(w', outs) := run_weight show (lit "p/") (Some (f64_of 4)) None (evs ++ [Polled]) in
  known_weight None outs = Some (weight_text show w') ∧ weight_ok w' ∧ (StopWeight ∈ evs → w' = Some f64_zero).
Proof. intros show evs. apply (weight_recorded show (lit "p/") (Some (f64_of 4)) evs). by left. Defined.
