(* ===== verification/Observation.v ===== *)
(** * Sampling: observation (dial9-sampling/src/protocol/observation.rs)

    A process tells its pool that it is there: the driver reports it once in
    each window to the census, and once more while it records, at instants drawn
    for the window; it applies the thinning a leader has ordered, and reads the
    roster now and then.  Reports are written by tasks of their own, as is the
    reading of the roster, so [turn] is one round of the driver's loop given
    what the clock, the cache and the tasks do; [run_job] is a task. *)

From Stdlib Require Import ZArith Lia SpecFloat Sorted.
From stdpp Require Import base list strings option.
From S2P Require Import Prelude.
From S2P Require Import Text.
From S2P Require Import F64.
From S2P Require Import SamplingStore.
From S2P Require Import SamplingConfig.
From S2P Require Import Census.
From S2P Require Import Roster.
From S2P Require Import TraceWeights.

Inductive Channel : Type :=
| CensusReport
| ProfilerReport
| ControlRead.

#[global] Instance Channel_eq_dec : EqDecision Channel.
Proof. solve_decision. Defined.

Definition channel_name (x : Channel) : bytes :=
  match x with CensusReport => lit "census" | ProfilerReport => lit "profilers" | ControlRead => lit "control" end.

(** A task that was spawned. *)
Module Job.
Record t : Type := mk { channel : Channel; window : Z; rank : Z; cutoff : Cutoff.t }.
End Job.

(** How a task ends. *)
Inductive job_end : Type :=
| Finished (r : result unit StoreError.t)
| Cancelled
| Panicked (text : bytes).

Module Plan.
Record t : Type := mk {
  window : Z; cutoff : Cutoff.t; census_rank : Z; census_at : Z; profiler_rank : Z; profiler_at : Z;
  census_done : bool; profiler_done : bool }.

Definition set_done (x : t) (census profiler : bool) : t :=
  mk (window x) (cutoff x) (census_rank x) (census_at x) (profiler_rank x) (profiler_at x) census profiler.
End Plan.

(** The driver.  [signal] is whether it has not stopped the recording itself,
    [weights] the weight when the process was started to record.  A task is
    known by its place in [spawned]; [in_flight] maps the tasks that have not
    been joined to their windows and whether they only read the roster.
    [trims] is what the driver decided so far: the order to thin, and whether
    the process stays. *)
Module Driver.
Record t : Type := mk {
  born_ms : Z; cutoff : Cutoff.t; plan : option Plan.t; last_trim_epoch : Z;
  next_poll_ms : Z; poll_phase_ms : Z; poll_period_ms : Z;
  signal : bool; weights : option weight;
  in_flight : list (nat * (Z * bool)); spawned : list Job.t; trims : list (Trim.t * bool) }.

Definition set_cutoff (x : t) (c : Cutoff.t) : t :=
  mk (born_ms x) c (plan x) (last_trim_epoch x) (next_poll_ms x) (poll_phase_ms x) (poll_period_ms x)
    (signal x) (weights x) (in_flight x) (spawned x) (trims x).
Definition set_plan (x : t) (p : Plan.t) : t :=
  mk (born_ms x) (cutoff x) (Some p) (last_trim_epoch x) (next_poll_ms x) (poll_phase_ms x) (poll_period_ms x)
    (signal x) (weights x) (in_flight x) (spawned x) (trims x).
Definition set_last_trim (x : t) (e : Z) : t :=
  mk (born_ms x) (cutoff x) (plan x) e (next_poll_ms x) (poll_phase_ms x) (poll_period_ms x)
    (signal x) (weights x) (in_flight x) (spawned x) (trims x).
Definition set_poll (x : t) (next period : Z) : t :=
  mk (born_ms x) (cutoff x) (plan x) (last_trim_epoch x) next (poll_phase_ms x) period
    (signal x) (weights x) (in_flight x) (spawned x) (trims x).
Definition set_recording (x : t) (signal : bool) (w : option weight) (d : list (Trim.t * bool)) : t :=
  mk (born_ms x) (cutoff x) (plan x) (last_trim_epoch x) (next_poll_ms x) (poll_phase_ms x) (poll_period_ms x)
    signal w (in_flight x) (spawned x) (trims x ++ d).
Definition set_jobs (x : t) (f : list (nat * (Z * bool))) (s : list Job.t) : t :=
  mk (born_ms x) (cutoff x) (plan x) (last_trim_epoch x) (next_poll_ms x) (poll_phase_ms x) (poll_period_ms x)
    (signal x) (weights x) f s (trims x).
End Driver.

(** Steps that fail keep what they have done. *)
Definition andthen {A : Type} (r : Driver.t * result unit StoreError.t)
    (k : Driver.t → Driver.t * result A StoreError.t) : Driver.t * result A StoreError.t :=
  match r with (x, Ok _) => k x | (x, Err e) => (x, Err e) end.

Definition poll_overflow : StoreError.t := invalid (lit "poll time overflow").
Definition job_budget : StoreError.t := invalid (lit "sampling observation job budget exhausted").
Definition bad_clock : StoreError.t := invalid (lit "clock").

(** [millis(clock.now())], of a clock reading in nanoseconds. *)
Definition clock_ms (time : Z) : result Z StoreError.t :=
  if (time <? 0) || (2 ^ 64 <=? time / MILLISECOND) then Err bad_clock else Ok (time / MILLISECOND).

(** The first time from [now] on that is [phase] past a multiple of [period]. *)
Definition next_slot (now period phase : Z) : result Z StoreError.t :=
  match (base ← checked_mul 64 (now / period) period; checked_add 64 base (phase mod period)) with
  | None => Err poll_overflow
  | Some slot =>
      if now <=? slot then Ok slot
      else match checked_add 64 slot period with Some slot => Ok slot | None => Err poll_overflow end
  end.

Definition next_slot_after (now period phase : Z) : result Z StoreError.t :=
  match checked_add 64 now 1 with Some n => next_slot n period phase | None => Err poll_overflow end.

(** What was sent to the store: the key, when (in milliseconds), and after how
    long (in nanoseconds) the request is given up. *)
Module Attempt.
Record t : Type := mk { key : bytes; sent_ms : Z; timeout : Z }.
End Attempt.

Definition report_expired : StoreError.t := invalid (lit "report submission deadline expired").

Section driver.
Context `{Ulid, Draws, Versions}.
Variable uncertainty : Z.
Variable c : Sampling.t.

Abbreviation timing := (Timing.new c).
Abbreviation width := (Timing.width (Timing.new c)).

Definition poll_period (recording : bool) : Z := if recording then width else Timing.poll timing.

(** [ObservationDriver::new] at a clock reading. *)
Definition driver_new (time : Z) (cache : Cache.t) (signal : bool) (weights : option weight)
    : result Driver.t StoreError.t :=
  match clock_ms time with
  | Err e => Err e
  | Ok born =>
      let cutoff := from_option Control.reporting (Cutoff.mk None)
                      (Cache.observed cache ≫= λ o, applicable (Observed.roster o) (born / width)) in
      let last_trim := from_option (λ o, Roster.epoch (Observed.roster o)) 0 (Cache.observed cache) in
      let phase := draw c (lit "roster-phase") [] mod Timing.poll timing in
      match next_slot_after born (poll_period signal) phase with
      | Err e => Err e
      | Ok next => Ok (Driver.mk born cutoff None last_trim next phase (poll_period signal) signal weights [] [] [])
      end
  end.

(** ** The start of a window *)

(** The conditions under which an order to thin that is new is applied. *)
Definition trim_due (x : Driver.t) (o : Observed.t) (t : Trim.t) (window now clock : Z) (recording : bool) : bool :=
  (Trim.effective_window t =? window)
  && (Driver.born_ms x / width <=? Trim.source_window t)
  && (now <=? wrapping_add 64 (cast 64 (window * width)) (Timing.dispatch timing))
  && recording
  && negb (expired uncertainty o c clock)
  && from_option (λ e, now <=? saturating_add 64 e (Timing.age timing)) false
       (Timing.end_ timing (Trim.source_window t)).

(** Staying, with a weight that grows, or leaving.  [stopping]: somebody stops
    the weight after it was looked at. *)
Definition thin (x : Driver.t) (t : Trim.t) (stopping : bool) : Driver.t * result unit StoreError.t :=
  if Cutoff.includes (Trim.survival t) (draw c (lit "trim") (Trim.salt t)) then
    let d := [(t, true)] in
    match Driver.weights x with
    | Some (Some w) =>
        let w := if stopping then weights_stop (Some w) else Some w in
        let '(w, r) := multiply (fdiv (f64_of 1) (Cutoff.probability (Trim.survival t))) w in
        (Driver.set_recording x (Driver.signal x) (Some w) d, r)
    | w => (Driver.set_recording x (Driver.signal x) w d, Ok tt)
    end
  else
    (Driver.set_recording x false (weights_stop <$> Driver.weights x) [(t, false)], Ok tt).

Definition apply_trim (x : Driver.t) (o : Observed.t) (window now clock : Z) (up stopping : bool)
    : Driver.t * result unit StoreError.t :=
  match Roster.trim (Observed.roster o) with
  | Some t =>
      if (Driver.last_trim_epoch x <? Trim.epoch t) && (Trim.effective_window t <=? window) then
        let x := Driver.set_last_trim x (Trim.epoch t) in
        if trim_due x o t window now clock (Driver.signal x && up) then thin x t stopping else (x, Ok tt)
      else (x, Ok tt)
  | None => (x, Ok tt)
  end.

Definition instant (purpose label : bytes) (start : Z) : Z :=
  wrapping_add 64 start (draw c purpose label * width / SPACE).

Definition window_plan (x : Driver.t) (window now : Z) : Plan.t :=
  let label := put_dec window in
  let start := cast 64 (window * width) in
  let census_at := instant (lit "census-instant") label start in
  let profiler_at := instant (lit "profiler-instant") label start in
  let late := λ at_, (at_ <? Driver.born_ms x) || (saturating_add 64 at_ (Timing.dispatch timing) <? now) in
  Plan.mk window (Driver.cutoff x) (draw c (lit "census-rank") label) census_at
    (draw c (lit "profiler-rank") label) profiler_at (late census_at) (late profiler_at).

(** [up]: nobody else has stopped the recording. *)
Definition boundary (x : Driver.t) (now clock : Z) (cache : Cache.t) (up stopping : bool)
    : Driver.t * result unit StoreError.t :=
  let window := now / width in
  if from_option (λ p, window <=? Plan.window p) false (Driver.plan x) then (x, Ok tt) else
  andthen
    (match (if compatible cache then Cache.observed cache else None) with
     | Some o =>
         let x := match applicable (Observed.roster o) window with
                  | Some k => if from_option (λ s, s <? window) true (Control.source_window k)
                              then Driver.set_cutoff x (Control.reporting k) else x
                  | None => x
                  end in
         apply_trim x o window now clock up stopping
     | None => (x, Ok tt)
     end)
    (λ x, (Driver.set_plan x (window_plan x window now), Ok tt)).

(** ** Tasks *)

Definition polling (e : nat * (Z * bool)) : bool := snd (snd e).

Definition launch (x : Driver.t) (channel : Channel) (window rank : Z) (cutoff : Cutoff.t)
    : Driver.t * result unit StoreError.t :=
  if (4 <=? blen (base.filter (λ e, polling e = false) (Driver.in_flight x)))
     && negb (bool_decide (channel = ControlRead))
  then (x, Err job_budget)
  else
    let id := length (Driver.spawned x) in
    (Driver.set_jobs x (Driver.in_flight x ++ [(id, (window, bool_decide (channel = ControlRead)))])
       (Driver.spawned x ++ [Job.mk channel window rank cutoff]), Ok tt).

Definition completed (x : Driver.t) (id : nat) (e : job_end) : Driver.t * result unit StoreError.t :=
  let x := Driver.set_jobs x (base.filter (λ j, fst j ≠ id) (Driver.in_flight x)) (Driver.spawned x) in
  match e with
  | Finished _ | Cancelled => (x, Ok tt)
  | Panicked text => (x, Err (invalid (lit "sampling observation task panicked: " ++ text)))
  end.

(** The tasks that have ended, in the order they are joined. *)
Fixpoint collect (x : Driver.t) (ended : list (nat * job_end)) : Driver.t * result unit StoreError.t :=
  match ended with
  | [] => (x, Ok tt)
  | (id, e) :: ended => andthen (completed x id e) (λ x, collect x ended)
  end.

Definition stale (window : Z) (e : nat * (Z * bool)) : bool :=
  negb (polling e) && (saturating_add 64 (fst (snd e)) 1 <? window).

(** Stale reports are aborted, and tasks joined until none of them is left;
    [None]: the driver still waits when these have ended. *)
Fixpoint remove_stale (x : Driver.t) (window : Z) (ended : list (nat * job_end))
    : option (Driver.t * result unit StoreError.t) :=
  if existsb (stale window) (Driver.in_flight x) then
    match ended with
    | [] => None
    | (id, e) :: ended =>
        match completed x id e with
        | (x, Ok _) => remove_stale x window ended
        | (x, Err e) => Some (x, Err e)
        end
    end
  else Some (x, Ok tt).

(** ** A round *)

Definition poll (x : Driver.t) (now : Z) (up : bool) : Driver.t * result unit StoreError.t :=
  let period := poll_period (Driver.signal x && up) in
  andthen
    (if period =? Driver.poll_period_ms x then (x, Ok tt)
     else let x := Driver.set_poll x (Driver.next_poll_ms x) period in
          match next_slot now period (Driver.poll_phase_ms x) with
          | Ok next => (Driver.set_poll x next period, Ok tt)
          | Err e => (x, Err e)
          end)
    (λ x,
      if Driver.next_poll_ms x <=? now then
        match next_slot_after now period (Driver.poll_phase_ms x) with
        | Ok next =>
            let x := Driver.set_poll x next (Driver.poll_period_ms x) in
            if existsb polling (Driver.in_flight x) then (x, Ok tt)
            else launch x ControlRead (now / width) 0 (Cutoff.mk None)
        | Err e => (x, Err e)
        end
      else (x, Ok tt)).

(** The reports that are due, and how long to sleep after them. *)
Definition report (x : Driver.t) (now : Z) (compatible up : bool) : Driver.t * result Z StoreError.t :=
  match Driver.plan x with
  | None => (x, Err (invalid (lit "window prepared")))
  | Some p =>
      let in_time := λ at_, now <=? saturating_add 64 at_ (Timing.dispatch timing) in
      let census_now := negb (Plan.census_done p) && (Plan.census_at p <=? now) in
      let profiler_now := negb (Plan.profiler_done p) && (Plan.profiler_at p <=? now) in
      let census := census_now && (compatible && in_time (Plan.census_at p)
                      && Cutoff.includes (Plan.cutoff p) (Plan.census_rank p)) in
      let profiler := profiler_now && (compatible && in_time (Plan.profiler_at p) && (Driver.signal x && up)) in
      let p := Plan.set_done p (Plan.census_done p || census_now) (Plan.profiler_done p || profiler_now) in
      let x := Driver.set_plan x p in
      let next := Z.min (cast 64 ((now / width + 1) * width)) (Driver.next_poll_ms x) in
      let next := if Plan.census_done p then next else Z.min next (Plan.census_at p) in
      let next := if Plan.profiler_done p then next else Z.min next (Plan.profiler_at p) in
      andthen (if census then launch x CensusReport (Plan.window p) (Plan.census_rank p) (Plan.cutoff p) else (x, Ok tt))
        (λ x, andthen (if profiler then launch x ProfilerReport (Plan.window p) (Plan.profiler_rank p) (Cutoff.mk None)
                       else (x, Ok tt))
          (λ x, (x, Ok (Z.max 1 (saturating_sub next now)))))
  end.

(** What a round finds around it: the weight was stopped, tasks that have ended
    and those that end while it waits for the stale ones, the clock, the cache
    at the start of a window and when reports are due, whether the recording
    has not been stopped by others at three moments, a stop of the weight
    while it thins, and the task that ends its sleep. *)
Record seen : Type := Seen {
  weight_stopped : bool;
  ended : list (nat * job_end);
  time : Z;
  aborted : list (nat * job_end);
  boundary_clock : Z;
  boundary_cache : Cache.t;
  boundary_up : bool;
  stopping : bool;
  poll_up : bool;
  report_cache : Cache.t;
  report_up : bool;
  woken : option (nat * job_end) }.

Definition stop_seen (x : Driver.t) (e : seen) : Driver.t :=
  if weight_stopped e then Driver.set_recording x (Driver.signal x) (weights_stop <$> Driver.weights x) [] else x.

Definition turn (x : Driver.t) (e : seen) : option (Driver.t * result Z StoreError.t) :=
  match collect (stop_seen x e) (ended e) with
  | (x, Err e) => Some (x, Err e)
  | (x, Ok _) =>
      match clock_ms (time e) with
      | Err e => Some (x, Err e)
      | Ok now =>
          match remove_stale x (now / width) (aborted e) with
          | None => None
          | Some r =>
              Some (andthen r (λ x,
                andthen (boundary x now (boundary_clock e) (boundary_cache e) (boundary_up e) (stopping e)) (λ x,
                andthen (poll x now (poll_up e)) (λ x,
                match report x now (compatible (report_cache e)) (report_up e) with
                | (x, Ok sleep) =>
                    andthen (match woken e with Some (id, w) => completed x id w | None => (x, Ok tt) end)
                      (λ x, (x, Ok sleep))
                | r => r
                end))))
          end
      end
  end.

(** Rounds until the driver fails; [None]: it waits. *)
Fixpoint run_driver (x : Driver.t) (evs : list seen) : option (Driver.t * result unit StoreError.t) :=
  match evs with
  | [] => Some (x, Ok tt)
  | e :: evs =>
      match turn x e with
      | None => None
      | Some (x, Ok _) => run_driver x evs
      | Some (x, Err e) => Some (x, Err e)
      end
  end.

(** ** A report *)

(** [n] attempts are left; the clock and the answers of the store. *)
Fixpoint write_attempts (n : nat) (key : bytes) (deadline : Z) (clock : nat → Z)
    (put : nat → result (PutOutcome token) StoreError.t) (k : nat) : list Attempt.t * result unit StoreError.t :=
  match n with
  | O => ([], Err (invalid (lit "two report attempts return")))
  | S n =>
      match clock_ms (clock k) with
      | Err e => ([], Err e)
      | Ok now =>
          if deadline <=? now then ([], Err report_expired) else
          let a := Attempt.mk key now (Z.min (Timing.operation timing) ((deadline - now) * MILLISECOND)) in
          match put k with
          | Ok _ => ([a], Ok tt)
          | Err e =>
              match k with
              | O => let '(l, r) := write_attempts n key deadline clock put 1 in (a :: l, r)
              | S _ => ([a], Err e)
              end
          end
      end
  end.

Definition write_report (channel : Channel) (window rank : Z) (cutoff : Cutoff.t) (clock : nat → Z)
    (put : nat → result (PutOutcome token) StoreError.t) : list Attempt.t * result unit StoreError.t :=
  match (e ← Timing.end_ timing window; checked_add 64 e (Timing.submission timing)) with
  | None => ([], Err (invalid (lit "report deadline overflow")))
  | Some deadline =>
      write_attempts 2 (report_key c (channel_name channel) window rank cutoff) deadline clock put 0
  end.

(** A task: reads of the roster go to the cache (a failed one is dropped), and a
    report is written while the cache, as others leave it, is of the policy. *)
Definition run_job (j : Job.t) (read : result (option Decoded) StoreError.t) (cache : Cache.t)
    (others : Cache.t → Cache.t) (clock : nat → Z) (put : nat → result (PutOutcome token) StoreError.t)
    : Cache.t * (list Attempt.t * result unit StoreError.t) :=
  let cache := match Job.channel j, read with
               | ProfilerReport, _ | _, Err _ => cache
               | _, Ok d => snd (publish_cache cache d)
               end in
  let cache := others cache in
  if bool_decide (Job.channel j = ControlRead) || negb (compatible cache) then (cache, ([], Ok tt))
  else (cache, write_report (Job.channel j) (Job.window j) (Job.rank j) (Job.cutoff j) clock put).
End driver.

(** ** The tasks of a driver *)

Definition is_report (j : Job.t) : Prop := Job.channel j ≠ ControlRead.

Definition pair_of (j : Job.t) : Channel * Z := (Job.channel j, Job.window j).

Definition done_of (p : Plan.t) (channel : Channel) : bool :=
  match channel with CensusReport => Plan.census_done p | ProfilerReport => Plan.profiler_done p | ControlRead => true end.

Lemma filter_sublist_mono {A} (P : A → Prop) `{!∀ x, Decision (P x)} (l k : list A) :
  l `sublist_of` k → base.filter P l `sublist_of` base.filter P k.
Proof.
  induction 1 as [|x l k Hlk IH|x l k Hlk IH]; [done| |].
  - rewrite !list.filter_cons. destruct (decide (P x)); [by constructor|done].
  - rewrite (list.filter_cons P x k). destruct (decide (P x)); [by constructor|done].
Qed.

Section tasks.
Context `{Ulid, Draws, Versions}.
Variable uncertainty : Z.
Variable c : Sampling.t.

Definition window_draw (purpose : bytes) (window : Z) : Z := draw c purpose (put_dec window).

(** What a report says: the draws of its window. *)
Definition job_ok (j : Job.t) : Prop :=
  match Job.channel j with
  | CensusReport => Job.rank j = window_draw (lit "census-rank") (Job.window j) ∧
                    Cutoff.includes (Job.cutoff j) (Job.rank j) = true
  | ProfilerReport => Job.rank j = window_draw (lit "profiler-rank") (Job.window j) ∧ Job.cutoff j = Cutoff.mk None
  | ControlRead => True
  end.

Definition plan_ok (p : Plan.t) : Prop :=
  Plan.census_rank p = window_draw (lit "census-rank") (Plan.window p) ∧
  Plan.profiler_rank p = window_draw (lit "profiler-rank") (Plan.window p).

Record jobs_ok (x : Driver.t) : Prop := {
  jo_ids : NoDup (map fst (Driver.in_flight x));
  jo_flight : ∀ id w b, (id, (w, b)) ∈ Driver.in_flight x →
    ∃ j, Driver.spawned x !! id = Some j ∧ Job.window j = w ∧ b = bool_decide (Job.channel j = ControlRead);
  jo_polls : (length (base.filter (λ e, polling e = true) (Driver.in_flight x)) <= 1)%nat;
  jo_once : ∀ i k a b, Driver.spawned x !! i = Some a → Driver.spawned x !! k = Some b →
    is_report a → pair_of a = pair_of b → i = k;
  jo_past : ∀ j, j ∈ Driver.spawned x → is_report j →
    ∃ p, Driver.plan x = Some p ∧ Job.window j <= Plan.window p ∧
      (Job.window j = Plan.window p → done_of p (Job.channel j) = true);
  jo_recent : ∀ id w p, (id, (w, false)) ∈ Driver.in_flight x → Driver.plan x = Some p → Plan.window p <= w + 1;
  jo_jobs : ∀ j, j ∈ Driver.spawned x → job_ok j;
  jo_plan : ∀ p, Driver.plan x = Some p → plan_ok p }.

(** Nothing about the tasks and the plan changes. *)
Lemma jobs_ok_same x y :
  jobs_ok x → Driver.plan y = Driver.plan x → Driver.in_flight y = Driver.in_flight x →
  Driver.spawned y = Driver.spawned x → jobs_ok y.
Proof. intros [] Ep Ef Es. split; rewrite ?Ep, ?Ef, ?Es; done. Qed.

(** Tasks leave. *)
Lemma jobs_ok_fewer x y :
  jobs_ok x → Driver.plan y = Driver.plan x → Driver.in_flight y `sublist_of` Driver.in_flight x →
  Driver.spawned y = Driver.spawned x → jobs_ok y.
Proof.
  intros [] Ep Ef Es. split; rewrite ?Ep, ?Es; try done.
  - eapply sublist_NoDup; [exact jo_ids0|by apply fmap_sublist].
  - intros id w b Hin. by eapply jo_flight0, elem_of_sublist.
  - etransitivity; [|exact jo_polls0]. apply sublist_length. by apply filter_sublist_mono.
  - intros id w p Hin. by eapply jo_recent0, elem_of_sublist.
Qed.

Definition safe {A : Type} (r : Driver.t * result A StoreError.t) : Prop :=
  jobs_ok (fst r) ∧ snd r ≠ Err job_budget.

Lemma andthen_safe {A} r (k : Driver.t → Driver.t * result A StoreError.t) :
  safe r → (∀ x, jobs_ok x → safe (k x)) → safe (andthen r k).
Proof. destruct r as [x [u|e]]; cbn; [intros [? _] Hk; by apply Hk|]. intros [? He] _. split; [done|]. intros [= ->]. by apply He. Qed.

Lemma completed_safe x id e : jobs_ok x → safe (completed x id e).
Proof.
  intros Hx. assert (jobs_ok (fst (completed x id e))) as Hf.
  { eapply jobs_ok_fewer; [exact Hx|by destruct e| |by destruct e].
    destruct e; apply sublist_filter. }
  split; [done|]. by destruct e.
Qed.

Lemma collect_safe x l : jobs_ok x → safe (collect x l).
Proof.
  revert x. induction l as [|[id e] l IH]; intros x Hx; [by split|]. cbn.
  apply andthen_safe; [by apply completed_safe|]. intros y. apply IH.
Qed.

Lemma remove_stale_safe x window l r :
  jobs_ok x → remove_stale x window l = Some r →
  safe r ∧ (snd r = Ok tt → Forall (λ e, stale window e = false) (Driver.in_flight (fst r))).
Proof.
  revert x. induction l as [|[id e] l IH]; intros x Hx; cbn [remove_stale];
    destruct (existsb (stale window) (Driver.in_flight x)) eqn:Ex; try done.
  1,3: intros [= <-]; split; [by split|]; intros _; apply list.Forall_forall; intros y Hy; apply not_true_is_false;
    intros Hs; apply not_true_iff_false in Ex; apply Ex, existsb_exists; exists y; by rewrite <- list_elem_of_In.
  pose proof (completed_safe x id e Hx) as Hc. destruct (completed x id e) as [y [u|e']].
  - apply IH, Hc.
  - intros [= <-]. by split.
Qed.

(** ** Launching *)

Definition budget_left (x : Driver.t) : Prop :=
  (length (base.filter (λ e, polling e = false) (Driver.in_flight x)) < 4)%nat.

(** No report of this channel and window was launched. *)
Definition fresh (x : Driver.t) (channel : Channel) (window : Z) : Prop :=
  ∀ j, j ∈ Driver.spawned x → is_report j → pair_of j ≠ (channel, window).

Lemma fresh_due x p channel :
  jobs_ok x → Driver.plan x = Some p → done_of p channel = false → fresh x channel (Plan.window p).
Proof.
  intros Hx Hp Hd j Hj Hr [= Ec Ew]. destruct (jo_past _ Hx j Hj Hr) as (p' & Hp' & _ & Hdone).
  rewrite Hp in Hp'. injection Hp' as <-. specialize (Hdone Ew). by rewrite Ec, Hd in Hdone.
Qed.

(** The reports on their way, as channels and windows. *)
Definition pairs_in_flight (x : Driver.t) : list (Channel * Z) :=
  map (λ e, default (ControlRead, 0) (pair_of <$> Driver.spawned x !! fst e))
    (base.filter (λ e, polling e = false) (Driver.in_flight x)).

Lemma report_in_flight x e :
  jobs_ok x → e ∈ base.filter (λ e, polling e = false) (Driver.in_flight x) →
  ∃ j, Driver.spawned x !! fst e = Some j ∧ is_report j ∧ ∀ p, Driver.plan x = Some p → Plan.window p <= Job.window j + 1.
Proof.
  intros Hx. destruct e as [id [w b]]. intros [Hb Hin]%list_elem_of_filter. cbn in Hb. subst b.
  destruct (jo_flight _ Hx _ _ _ Hin) as (j & Hj & Hw & Hk). symmetry in Hk. apply bool_decide_eq_false in Hk.
  exists j. split; [done|]. split; [done|]. intros p Hp. rewrite Hw. by eapply jo_recent.
Qed.

Lemma pairs_nodup x : jobs_ok x → NoDup (pairs_in_flight x).
Proof.
  intros Hx. unfold pairs_in_flight. set (F := base.filter _ _).
  assert (NoDup (map fst F)) as Hids.
  { eapply sublist_NoDup; [exact (jo_ids _ Hx)|]. apply fmap_sublist, sublist_filter. }
  assert (∀ e, e ∈ F → ∃ j, Driver.spawned x !! fst e = Some j ∧ is_report j) as HF
    by (intros e He; destruct (report_in_flight x e Hx He) as (j & ? & ? & _); by exists j).
  clearbody F. induction F as [|e F IH]; [apply NoDup_nil_2|]. cbn in Hids |- *.
  apply list.NoDup_cons in Hids as [Hid Hids]. apply list.NoDup_cons. split.
  - intros (e' & E & He')%list_elem_of_fmap. apply Hid.
    destruct (HF e ltac:(by left)) as (j & Hj & Hr). destruct (HF e' ltac:(by right)) as (j' & Hj' & _).
    rewrite Hj, Hj' in E. cbn in E. rewrite (jo_once _ Hx _ _ _ _ Hj Hj' Hr E). by apply list_elem_of_fmap_2.
  - apply IH; [done|]. intros e' He'. apply HF. by right.
Qed.

Lemma pairs_recent x q :
  jobs_ok x → q ∈ pairs_in_flight x →
  ∃ j p, j ∈ Driver.spawned x ∧ is_report j ∧ q = pair_of j ∧ Driver.plan x = Some p ∧
    q ∈ [(CensusReport, Plan.window p - 1); (ProfilerReport, Plan.window p - 1);
         (CensusReport, Plan.window p); (ProfilerReport, Plan.window p)].
Proof.
  intros Hx (e & -> & He)%list_elem_of_fmap. destruct (report_in_flight x e Hx He) as (j & Hj & Hr & Hge).
  rewrite Hj. cbn [fmap option_fmap option_map default]. pose proof (list_elem_of_lookup_2 _ _ _ Hj) as Hin.
  destruct (jo_past _ Hx j Hin Hr) as (p & Hp & Hle & _). exists j, p. split_and!; try done.
  specialize (Hge p Hp). unfold pair_of, is_report in *.
  assert (Job.window j = Plan.window p ∨ Job.window j = Plan.window p - 1) as [->| ->] by lia;
    destruct (Job.channel j); try done; cbn; rewrite !elem_of_cons; tauto.
Qed.

(** A report that was not launched before fits into the budget: those that are
    still on their way are of this window or of the one before. *)
Lemma budget_for x p channel :
  jobs_ok x → Driver.plan x = Some p → channel ≠ ControlRead → fresh x channel (Plan.window p) → budget_left x.
Proof.
  intros Hx Hp Hch Hf. assert (NoDup ((channel, Plan.window p) :: pairs_in_flight x)) as Hnd.
  { apply list.NoDup_cons. split; [|by apply pairs_nodup].
    intros (j & _ & Hj & Hr & E & _)%pairs_recent; [|done]. symmetry in E. by apply (Hf j). }
  apply (NoDup_submseteq _ [(CensusReport, Plan.window p - 1); (ProfilerReport, Plan.window p - 1);
    (CensusReport, Plan.window p); (ProfilerReport, Plan.window p)]) in Hnd.
  - apply submseteq_length in Hnd. cbn in Hnd. unfold budget_left, pairs_in_flight in *. rewrite length_map in Hnd. lia.
  - intros q [->|Hq]%elem_of_cons; [destruct channel; [..|done]; rewrite !elem_of_cons; tauto|].
    apply pairs_recent in Hq as (j & p' & _ & _ & _ & Hp' & Hin); [|done]. rewrite Hp in Hp'. by injection Hp' as <-.
Qed.

(** At most four reports are on their way. *)
Lemma reports_in_flight x :
  jobs_ok x → (length (base.filter (λ e, polling e = false) (Driver.in_flight x)) <= 4)%nat.
Proof.
  intros Hx. destruct (Driver.plan x) as [p|] eqn:Hp.
  - pose proof (pairs_nodup x Hx) as Hnd.
    apply (NoDup_submseteq _ [(CensusReport, Plan.window p - 1); (ProfilerReport, Plan.window p - 1);
      (CensusReport, Plan.window p); (ProfilerReport, Plan.window p)]) in Hnd.
    + apply submseteq_length in Hnd. unfold pairs_in_flight in Hnd. by rewrite length_map in Hnd.
    + intros q (j & p' & _ & _ & _ & Hp' & Hin)%pairs_recent; [|done]. rewrite Hp in Hp'. by injection Hp' as <-.
  - destruct (base.filter _ _) as [|e F] eqn:EF; [cbn; lia|]. exfalso.
    destruct (report_in_flight x e Hx) as (j & Hj & Hr & _); [rewrite EF; by left|].
    destruct (jo_past _ Hx j (list_elem_of_lookup_2 _ _ _ Hj) Hr) as (p & Hp' & _). by rewrite Hp in Hp'.
Qed.

Lemma launch_ok x channel window rank cutoff :
  jobs_ok x → (channel = ControlRead ∨ budget_left x) →
  (channel = ControlRead → existsb polling (Driver.in_flight x) = false) →
  (channel ≠ ControlRead → fresh x channel window ∧
     ∃ p, Driver.plan x = Some p ∧ Plan.window p = window ∧ done_of p channel = true) →
  job_ok (Job.mk channel window rank cutoff) →
  let r := launch x channel window rank cutoff in
  jobs_ok (fst r) ∧ snd r = Ok tt ∧ Driver.plan (fst r) = Driver.plan x ∧
  Driver.spawned (fst r) = Driver.spawned x ++ [Job.mk channel window rank cutoff].
Proof.
  intros Hx Hb Hpoll Hnew Hj. unfold launch.
  assert ((4 <=? blen (base.filter (λ e, polling e = false) (Driver.in_flight x))) &&
    negb (bool_decide (channel = ControlRead)) = false) as ->.
  { apply andb_false_iff. destruct Hb as [->|Hb]; [by right|left]. unfold budget_left in Hb.
    apply Z.leb_gt. zlia. }
  cbn [fst snd]. split; [|by destruct x]. set (id := length (Driver.spawned x)).
  assert (∀ e, e ∈ Driver.in_flight x → (fst e < id)%nat) as Hids.
  { intros [i [w b]] Hin. destruct (jo_flight _ Hx _ _ _ Hin) as (j & Hj' & _). by apply lookup_lt_Some in Hj'. }
  split; cbn [Driver.in_flight Driver.spawned Driver.plan Driver.set_jobs].
  - rewrite map_app. apply list.NoDup_app. split; [apply Hx|]. split; [|apply NoDup_singleton].
    intros i (e & -> & He)%list_elem_of_fmap Hi. apply list_elem_of_singleton in Hi. cbn in Hi.
    specialize (Hids e He). lia.
  - intros i w b Hin. apply elem_of_app in Hin as [Hin|Hin].
    + destruct (jo_flight _ Hx _ _ _ Hin) as (j & Hj' & ?). exists j. split; [|done]. by apply lookup_app_l_Some.
    + apply list_elem_of_singleton in Hin. injection Hin as -> -> ->.
      exists (Job.mk channel window rank cutoff). split; [|done]. by apply list_lookup_middle.
  - rewrite list.filter_app, length_app. rewrite list.filter_cons, list.filter_nil.
    change (polling (id, (window, bool_decide (channel = ControlRead)))) with (bool_decide (channel = ControlRead)).
    destruct (decide (channel = ControlRead)) as [E|E].
    + enough (base.filter (λ e, polling e = true) (Driver.in_flight x) = []) as ->
        by (cbn [app length]; destruct (decide (bool_decide (channel = ControlRead) = true)); cbn; lia).
      specialize (Hpoll E). apply elem_of_nil_inv. intros e [He Hin]%list_elem_of_filter.
      apply not_true_iff_false in Hpoll. apply Hpoll, existsb_exists. exists e. by rewrite <- list_elem_of_In.
    + rewrite (bool_decide_false _ E). pose proof (jo_polls _ Hx). destruct (decide (false = true)); [done|]. cbn. lia.
  - intros i k a b Ha Hb' Hr Epair.
    apply lookup_app_Some in Ha as [Ha|[Hi Ha]], Hb' as [Hb'|[Hk Hb']].
    + by eapply jo_once.
    + apply list_lookup_singleton_Some in Hb' as [Hk0 <-]. exfalso.
      assert (channel ≠ ControlRead) as Hch by (injection Epair as E _; unfold is_report in Hr; congruence).
      destruct (Hnew Hch) as [Hf _]. by apply (Hf a (list_elem_of_lookup_2 _ _ _ Ha) Hr).
    + apply list_lookup_singleton_Some in Ha as [Hi0 <-]. exfalso.
      destruct (Hnew Hr) as [Hf _]. apply (Hf b (list_elem_of_lookup_2 _ _ _ Hb')); [|done].
      injection Epair as E _. unfold is_report in *. cbn in Hr. congruence.
    + apply list_lookup_singleton_Some in Ha as [Hi0 _], Hb' as [Hk0 _]. lia.
  - intros j Hin Hr. apply elem_of_app in Hin as [Hin| ->%list_elem_of_singleton]; [by apply Hx|].
    destruct (Hnew Hr) as (_ & p & Hp & <- & Hd). by exists p.
  - intros i w p Hin Hp. apply elem_of_app in Hin as [Hin|Hin]; [by eapply jo_recent|].
    apply list_elem_of_singleton in Hin. injection Hin as _ -> E. symmetry in E. apply bool_decide_eq_false in E.
    destruct (Hnew E) as (_ & p' & Hp' & <- & _). rewrite Hp in Hp'. injection Hp' as <-. lia.
  - intros j Hin. apply elem_of_app in Hin as [Hin| ->%list_elem_of_singleton]; [by apply Hx|done].
  - apply Hx.
Qed.

(** ** A round keeps it *)

Lemma next_slot_error now period phase e : next_slot now period phase = Err e → e ≠ job_budget.
Proof.
  unfold next_slot. destruct (_ ≫= _) as [slot|]; [destruct (_ <=? _); [done|destruct (checked_add _ _ _); [done|]]|];
    by intros [= <-].
Qed.

Lemma next_slot_after_error now period phase e : next_slot_after now period phase = Err e → e ≠ job_budget.
Proof. unfold next_slot_after. destruct (checked_add _ _ _); [apply next_slot_error|]. by intros [= <-]. Qed.

Lemma poll_safe x now up : jobs_ok x → safe (poll c x now up) ∧ Driver.plan (fst (poll c x now up)) = Driver.plan x.
Proof.
  intros Hx. unfold poll. set (period := poll_period c _).
  set (r := if period =? Driver.poll_period_ms x then _ else _).
  assert (safe r ∧ Driver.plan (fst r) = Driver.plan x) as [Hr Hp].
  { subst r. destruct (_ =? _); [by split|].
    destruct (next_slot _ _ _) as [next|e] eqn:En; (split; [split; [by eapply jobs_ok_same|]|done]); [done|].
    intros [= ->]. by apply next_slot_error in En. }
  destruct r as [y [[]|e]]; cbn [andthen fst snd] in *; [|split; [|done]; split; [apply Hr|]; intros [= ->]; by apply Hr].
  rewrite <- Hp. destruct Hr as [Hy _]. clear Hp. destruct (_ <=? _); [|by split].
  destruct (next_slot_after _ _ _) as [next|e] eqn:En.
  2: { split; [|done]. split; [done|]. intros [= ->]. by apply next_slot_after_error in En. }
  set (z := Driver.set_poll y next (Driver.poll_period_ms y)).
  assert (jobs_ok z) as Hz by by eapply jobs_ok_same.
  destruct (existsb polling (Driver.in_flight z)) eqn:Ep; [by split|].
  destruct (launch_ok z ControlRead (now / Timing.width (Timing.new c)) 0 (Cutoff.mk None)) as (Hl & Er & Epl & _);
    try done; [by left|]. split; [|done]. split; [done|]. by rewrite Er.
Qed.

Lemma thin_facts x t stopping :
  let r := thin c x t stopping in
  Driver.plan (fst r) = Driver.plan x ∧ Driver.in_flight (fst r) = Driver.in_flight x ∧
  Driver.spawned (fst r) = Driver.spawned x ∧ Driver.last_trim_epoch (fst r) = Driver.last_trim_epoch x ∧
  snd r ≠ Err job_budget.
Proof.
  unfold thin. destruct (Cutoff.includes _ _); [|done].
  destruct (Driver.weights x) as [[w|]|]; [|done..]. destruct (multiply _ _) as [w' r] eqn:Em. cbn.
  split_and!; try done. unfold multiply in Em. intros ->.
  destruct (if stopping then _ else _) as [y|]; [destruct (fgt y f64_zero)|]; [|done..].
  destruct (if _ && _ then _ else _) in Em; done.
Qed.

Lemma apply_trim_facts x o window now clock up stopping :
  let r := apply_trim uncertainty c x o window now clock up stopping in
  Driver.plan (fst r) = Driver.plan x ∧ Driver.in_flight (fst r) = Driver.in_flight x ∧
  Driver.spawned (fst r) = Driver.spawned x ∧ snd r ≠ Err job_budget.
Proof.
  unfold apply_trim. destruct (Roster.trim _) as [t|]; [|done]. destruct (_ && _); [|done].
  destruct (trim_due _ _ _ _ _ _ _ _ _); [|done].
  destruct (thin_facts (Driver.set_last_trim x (Trim.epoch t)) t stopping) as (-> & -> & -> & _ & ?). done.
Qed.

(** The plan of a later window. *)
Lemma planned_ok x p window now :
  jobs_ok x → p = window_plan c x window now →
  (∀ q, Driver.plan x = Some q → Plan.window q < window) →
  (∀ id w, (id, (w, false)) ∈ Driver.in_flight x → window <= w + 1) → jobs_ok (Driver.set_plan x p).
Proof.
  intros [] -> Hlt Hrecent. split; cbn [Driver.set_plan Driver.in_flight Driver.spawned Driver.plan]; try done.
  - intros j Hj Hr. destruct (jo_past0 j Hj Hr) as (q & Hq & Hle & _). specialize (Hlt q Hq).
    eexists. split; [done|]. cbn [window_plan Plan.window]. split; lia.
  - intros id w p Hin [= <-]. cbn [window_plan Plan.window]. by apply (Hrecent id w).
  - intros p [= <-]. by split.
Qed.

Lemma boundary_safe x now clock cache up stopping :
  jobs_ok x → (∀ id w, (id, (w, false)) ∈ Driver.in_flight x → now / Timing.width (Timing.new c) <= w + 1) →
  let r := boundary uncertainty c x now clock cache up stopping in
  safe r ∧ (snd r = Ok tt → is_Some (Driver.plan (fst r))).
Proof.
  intros Hx Hrecent. unfold boundary. set (window := now / _) in *.
  destruct (from_option _ false (Driver.plan x)) eqn:Eb.
  { split; [by split|]. intros _. cbn [fst]. destruct (Driver.plan x); [by eexists|done]. }
  assert (∀ q, Driver.plan x = Some q → Plan.window q < window) as Hlt
    by (intros q Eq; rewrite Eq in Eb; cbn in Eb; by apply Z.leb_gt).
  set (r := match (if compatible cache then Cache.observed cache else None) with Some _ => _ | None => _ end).
  assert (Driver.plan (fst r) = Driver.plan x ∧ Driver.in_flight (fst r) = Driver.in_flight x ∧
    Driver.spawned (fst r) = Driver.spawned x ∧ snd r ≠ Err job_budget) as (Ep & Ef & Es & Ee).
  { subst r. destruct (if compatible cache then _ else _) as [o|]; [|done].
    destruct (applicable (Observed.roster o) window) as [k|];
      [destruct (from_option _ true (Control.source_window k))|];
      match goal with |- context [apply_trim _ _ ?y] => by destruct (apply_trim_facts y o window now clock up stopping)
        as (-> & -> & -> & ?) end. }
  assert (jobs_ok (fst r)) as Hr by by eapply jobs_ok_same.
  destruct r as [y [[]|e]]; cbn [andthen fst snd] in *; [|split; [|done]; split; [done|]; intros [= ->]; by apply Ee].
  split; [|by eexists]. split; [|done]. eapply planned_ok; [done|done|by rewrite Ep|by rewrite Ef].
Qed.

(** Marking instants as passed. *)
Lemma done_ok x p census profiler :
  jobs_ok x → Driver.plan x = Some p →
  jobs_ok (Driver.set_plan x (Plan.set_done p (Plan.census_done p || census) (Plan.profiler_done p || profiler))).
Proof.
  intros [] Hp. split; cbn [Driver.set_plan Driver.in_flight Driver.spawned Driver.plan]; try done.
  - intros j Hj Hr. destruct (jo_past0 j Hj Hr) as (q & Hq & Hle & Hd). rewrite Hp in Hq. injection Hq as <-.
    eexists. split; [done|]. split; [done|]. cbn. intros E. specialize (Hd E).
    revert Hd. destruct (Job.channel j); cbn; [by intros ->..|done].
  - intros id w q Hin [= <-]. cbn. by eapply jo_recent0.
  - intros q [= <-]. exact (jo_plan0 p Hp).
Qed.

Lemma report_safe x now compat up :
  jobs_ok x → is_Some (Driver.plan x) → safe (report c x now compat up).
Proof.
  intros Hx [p Hp]. unfold report. rewrite Hp.
  set (census_now := negb (Plan.census_done p) && _). set (profiler_now := negb (Plan.profiler_done p) && _).
  pose proof (done_ok x p census_now profiler_now Hx Hp) as Hy.
  set (q := Plan.set_done p _ _) in *. set (y := Driver.set_plan x q) in *.
  assert (∀ ch, ch ≠ ControlRead → done_of p ch = false → fresh y ch (Plan.window p)) as Hfresh
    by (intros ch _ Hd; by apply (fresh_due x p)).
  destruct (jo_plan _ Hx _ Hp) as [Hcr Hpr].
  assert (∃ z, (if census_now && (compat && (now <=? saturating_add 64 (Plan.census_at p) (Timing.dispatch (Timing.new c)))
      && Cutoff.includes (Plan.cutoff p) (Plan.census_rank p))
    then launch y CensusReport (Plan.window q) (Plan.census_rank q) (Plan.cutoff q) else (y, Ok tt)) = (z, Ok tt) ∧
    jobs_ok z ∧ Driver.plan z = Some q ∧ (done_of p ProfilerReport = false → fresh z ProfilerReport (Plan.window q)))
    as (z & -> & Hz & Hpz & Hfz).
  - destruct (census_now && _) eqn:Ec; [|exists y; split_and!; try done; by apply Hfresh].
    apply andb_true_iff in Ec as [Hnow Hin]. apply andb_true_iff in Hin as [_ Hin].
    assert (done_of p CensusReport = false) as Hd by (subst census_now; bool_facts; done).
    destruct (launch_ok y CensusReport (Plan.window q) (Plan.census_rank q) (Plan.cutoff q)) as (Hl & Er & Hpl & Hsp);
      try done.
    + right. apply (budget_for y q CensusReport); [done..|]. by apply Hfresh.
    + intros _. split; [by apply Hfresh|]. exists q. split; [done|]. split; [done|]. cbn. rewrite Hnow. apply orb_true_r.
    + destruct (launch y _ _ _ _) as [z r]. cbn in *. subst r. exists z. split_and!; try done.
      intros Hdp j Hj. rewrite Hsp in Hj. apply elem_of_app in Hj as [Hj| ->%list_elem_of_singleton]; [by apply Hfresh|done].
  - cbn [andthen]. destruct (profiler_now && _) eqn:Ec; [|by split].
    apply andb_true_iff in Ec as [Hnow _].
    assert (done_of p ProfilerReport = false) as Hd by (subst profiler_now; bool_facts; done).
    destruct (launch_ok z ProfilerReport (Plan.window q) (Plan.profiler_rank q) (Cutoff.mk None)) as (Hl & Er & _); try done.
    + right. apply (budget_for z q ProfilerReport); [done..|]. by apply Hfz.
    + intros _. split; [by apply Hfz|]. exists q. split; [done|]. split; [done|]. cbn. rewrite Hnow. apply orb_true_r.
    + destruct (launch z _ _ _ _) as [u r]. cbn in *. by subst r.
Qed.

Lemma stop_seen_ok x e : jobs_ok x → jobs_ok (stop_seen x e).
Proof. intros Hx. unfold stop_seen. destruct (weight_stopped e); [|done]. by eapply jobs_ok_same. Qed.

Lemma turn_safe x e r : jobs_ok x → turn uncertainty c x e = Some r → safe r.
Proof.
  intros Hx. unfold turn. pose proof (collect_safe _ (ended e) (stop_seen_ok x e Hx)) as Hc.
  destruct (collect _ _) as [y [[]|err]]; [|intros [= <-]; by split; [apply Hc|intros [= ->]; apply Hc]].
  destruct Hc as [Hy _]. cbn [fst] in Hy. unfold clock_ms. destruct (_ || _); [by intros [= <-]|].
  set (now := time e / MILLISECOND). destruct (remove_stale y _ (aborted e)) as [[z u]|] eqn:Es; [|done].
  intros [= <-]. apply remove_stale_safe in Es as [Hz Hstale]; [|done].
  destruct u as [[]|err]; cbn [andthen fst snd] in *; [|split; [apply Hz|intros [= ->]; by apply Hz]].
  destruct Hz as [Hz _]. specialize (Hstale eq_refl).
  destruct (boundary_safe z now (boundary_clock e) (boundary_cache e) (boundary_up e) (stopping e) Hz) as [Hb Hplan].
  { intros id w Hin. rewrite list.Forall_forall in Hstale. specialize (Hstale _ Hin).
    unfold stale, polling, saturating_add in Hstale. cbn [fst snd negb andb] in Hstale. apply Z.ltb_ge in Hstale. lia. }
  destruct (boundary _ _ z _ _ _ _ _) as [a [[]|err]]; cbn [andthen fst snd] in *;
    [|split; [apply Hb|intros [= ->]; by apply Hb]].
  destruct Hb as [Ha _], (Hplan eq_refl) as [p Hp].
  destruct (poll_safe a now (poll_up e) Ha) as [Hpoll Hpp].
  destruct (poll _ a _ _) as [b [[]|err]]; cbn [andthen fst snd] in *;
    [|split; [apply Hpoll|intros [= ->]; by apply Hpoll]].
  destruct Hpoll as [Hb _].
  pose proof (report_safe b now (compatible (report_cache e)) (report_up e) Hb ltac:(rewrite Hpp, Hp; by eexists)) as Hr.
  destruct (report _ b _ _ _) as [d [sleep|err]]; [|done].
  apply andthen_safe; [|by split]. destruct (woken e) as [[id w]|]; [by apply completed_safe, Hr|]. split; [apply Hr|done].
Qed.

Lemma run_driver_ok x evs y r :
  jobs_ok x → run_driver uncertainty c x evs = Some (y, r) → jobs_ok y ∧ r ≠ Err job_budget.
Proof.
  revert x. induction evs as [|e evs IH]; intros x Hx; cbn; [by intros [= <- <-]|].
  destruct (turn _ _ x e) as [[z [sleep|err]]|] eqn:Et; [| |done]; apply turn_safe in Et as [Hz He]; try done.
  - by apply IH.
  - intros [= <- <-]. split; [done|]. intros [= ->]. by apply He.
Qed.

Lemma driver_new_ok time cache signal weights x :
  driver_new c time cache signal weights = Ok x → jobs_ok x.
Proof.
  unfold driver_new. destruct (clock_ms time); [|done]. destruct (next_slot_after _ _ _); [|done].
  intros [= <-]. split; cbn; try done.
  - apply NoDup_nil_2.
  - by intros id w b Hin%elem_of_nil.
  - lia.
  - by intros j Hin%elem_of_nil.
  - by intros j Hin%elem_of_nil.
Qed.

End tasks.

(** ** Thinning *)

Section thinning.
Context `{Ulid, Draws, Versions}.
Variable uncertainty : Z.
Variable c : Sampling.t.

(** What thinning is about. *)
Definition memory (x : Driver.t) : Z * Z * bool * option weight * list (Trim.t * bool) :=
  (Driver.born_ms x, Driver.last_trim_epoch x, Driver.signal x, Driver.weights x, Driver.trims x).

Lemma completed_memory x id e : memory (fst (completed x id e)) = memory x.
Proof. by destruct e. Qed.

Lemma andthen_memory {A} r (k : Driver.t → Driver.t * result A StoreError.t) m :
  memory (fst r) = m → (∀ x, memory x = m → memory (fst (k x)) = m) → memory (fst (andthen r k)) = m.
Proof. destruct r as [x [u|e]]; cbn; auto. Qed.

Lemma collect_memory x l : memory (fst (collect x l)) = memory x.
Proof.
  revert x. induction l as [|[id e] l IH]; intros x; [done|]. cbn. apply andthen_memory; [apply completed_memory|].
  intros y <-. apply IH.
Qed.

Lemma remove_stale_memory x window l r : remove_stale x window l = Some r → memory (fst r) = memory x.
Proof.
  revert x. induction l as [|[id e] l IH]; intros x; cbn [remove_stale]; destruct (existsb _ _);
    try done; try (by intros [= <-]).
  pose proof (completed_memory x id e) as Hm. destruct (completed x id e) as [y [u|e']]; cbn in Hm.
  - rewrite <- Hm. apply IH.
  - by intros [= <-].
Qed.

Lemma launch_memory x ch w r k : memory (fst (launch x ch w r k)) = memory x.
Proof. unfold launch. by destruct (_ && _). Qed.

Lemma poll_memory x now up : memory (fst (poll c x now up)) = memory x.
Proof.
  unfold poll. apply andthen_memory.
  - destruct (_ =? _); [done|]. by destruct (next_slot _ _ _).
  - intros y Hy. destruct (_ <=? _); [|done]. destruct (next_slot_after _ _ _); [|done].
    destruct (existsb _ _); [done|]. by rewrite launch_memory.
Qed.

Lemma report_memory x now compat up : memory (fst (report c x now compat up)) = memory x.
Proof.
  unfold report. destruct (Driver.plan x) as [p|]; [|done]. apply andthen_memory.
  - destruct (_ && _); [by rewrite launch_memory|done].
  - intros y Hy. apply andthen_memory; [|done]. destruct (_ && _); [by rewrite launch_memory|done].
Qed.

(** The weight after an order that the process survived. *)
Definition thinned (w : weight) (t : Trim.t) : weight :=
  match w with
  | Some _ => fst (multiply (fdiv (f64_of 1) (Cutoff.probability (Trim.survival t))) w)
  | None => None
  end.

(** What is known of a driver that started with [signal] and weight [w0] when
    the epoch was [epoch]. *)
Record thinning_ok (born epoch : Z) (signal : bool) (w0 : option weight) (x : Driver.t) : Prop := {
  th_born : Driver.born_ms x = born;
  th_last : epoch <= Driver.last_trim_epoch x;
  th_epochs : StronglySorted Z.lt (epoch :: map (λ d, Trim.epoch (fst d)) (Driver.trims x));
  th_below : Forall (λ d, Trim.epoch (fst d) <= Driver.last_trim_epoch x) (Driver.trims x);
  th_drawn : Forall (λ d, snd d = Cutoff.includes (Trim.survival (fst d)) (draw c (lit "trim") (Trim.salt (fst d))) ∧
                          born / Timing.width (Timing.new c) <= Trim.source_window (fst d)) (Driver.trims x);
  th_signal : Driver.signal x = signal && forallb snd (Driver.trims x);
  th_weight : match w0 with
              | None => Driver.weights x = None
              | Some w => Driver.weights x = Some (Some f64_zero) ∨
                          forallb snd (Driver.trims x) = true ∧
                          Driver.weights x = Some (foldl thinned w (map fst (Driver.trims x)))
              end }.

Lemma thinning_same born epoch signal w0 x y :
  memory y = memory x → thinning_ok born epoch signal w0 x → thinning_ok born epoch signal w0 y.
Proof. unfold memory. intros [= Eb El Es Ew Et] []. split; by rewrite ?Eb, ?El, ?Es, ?Ew, ?Et. Qed.

Lemma stop_seen_thinning born epoch signal w0 x e :
  thinning_ok born epoch signal w0 x → thinning_ok born epoch signal w0 (stop_seen x e).
Proof.
  intros Hx. unfold stop_seen. destruct (weight_stopped e); [|done]. destruct Hx.
  split; cbn [Driver.set_recording Driver.trims Driver.signal Driver.weights Driver.last_trim_epoch Driver.born_ms];
    rewrite ?app_nil_r; try done.
  destruct w0; [left|]; [by destruct th_weight0 as [->|[_ ->]]|by rewrite th_weight0].
Qed.

Lemma sorted_snoc (l : list Z) e : StronglySorted Z.lt l → Forall (λ x, x < e) l → StronglySorted Z.lt (l ++ [e]).
Proof.
  induction 1 as [|x l Hl IH Hx]; intros Hf; [by repeat constructor|].
  apply list.Forall_cons in Hf as [Hxe Hf]. cbn. constructor; [by apply IH|].
  apply Forall_app. split; [done|by repeat constructor].
Qed.

Lemma apply_trim_thinning born epoch signal w0 x o window now clock up stopping :
  thinning_ok born epoch signal w0 x →
  thinning_ok born epoch signal w0 (fst (apply_trim uncertainty c x o window now clock up stopping)).
Proof.
  intros Hx. unfold apply_trim. destruct (Roster.trim (Observed.roster o)) as [t|]; [|done].
  destruct (_ && _) eqn:E; [|done]. apply andb_true_iff in E as [Hlt _]. apply Z.ltb_lt in Hlt.
  destruct Hx. set (y := Driver.set_last_trim x (Trim.epoch t)).
  assert (Forall (λ d : Trim.t * bool, Trim.epoch (fst d) < Trim.epoch t) (Driver.trims x)) as Hless
    by (eapply list.Forall_impl; [exact th_below0|]; cbn; lia).
  assert (∀ b w, b = Cutoff.includes (Trim.survival t) (draw c (lit "trim") (Trim.salt t)) →
    born / Timing.width (Timing.new c) <= Trim.source_window t →
    match w0 with
    | None => w = None
    | Some w0 => w = Some (Some f64_zero) ∨
                 forallb snd (Driver.trims x ++ [(t, b)]) = true ∧
                 w = Some (foldl thinned w0 (map fst (Driver.trims x ++ [(t, b)])))
    end →
    thinning_ok born epoch signal w0 (Driver.set_recording y (Driver.signal x && b) w [(t, b)])) as Hdone.
  { intros b w Hb Hborn Hw.
    unfold y.
    split; cbn [Driver.set_recording Driver.set_last_trim Driver.trims Driver.signal Driver.weights Driver.last_trim_epoch
      Driver.born_ms]; try done; [lia|..].
    - rewrite map_app. cbn [map fst]. apply (sorted_snoc (epoch :: _)); [done|]. constructor; [lia|]. by apply Forall_map.
    - apply Forall_app. split; [eapply list.Forall_impl; [exact Hless|]; cbn; lia|]. constructor; [cbn; lia|done].
    - apply Forall_app. split; [done|]. constructor; [by split|done].
    - rewrite th_signal0, forallb_app. cbn. by rewrite andb_true_r, andb_assoc. }
  destruct (trim_due _ _ _ _ _ _ _ _ _) eqn:Hdue.
  2: { split; cbn; try done; [lia|]. eapply list.Forall_impl; [exact Hless|]. cbn. lia. }
  assert (born / Timing.width (Timing.new c) <= Trim.source_window t) as Hborn.
  { unfold trim_due in Hdue. rewrite !andb_true_iff in Hdue. destruct Hdue as (((((_ & Hb) & _) & _) & _) & _).
    apply Z.leb_le in Hb. cbn [y Driver.set_last_trim Driver.born_ms] in Hb. by rewrite th_born0 in Hb. }
  unfold thin. destruct (Cutoff.includes (Trim.survival t) _) eqn:Ei.
  - specialize (Hdone true). rewrite andb_true_r in Hdone.
    change (Driver.weights y) with (Driver.weights x). destruct (Driver.weights x) as [[w|]|] eqn:Ew.
    + destruct (multiply _ _) as [w' r] eqn:Em. apply Hdone; [done..|]. destruct w0 as [w0|]; [|done].
      assert (∀ f, multiply f (Some f64_zero) = (Some f64_zero, Err cannot_thin)) as Hz by done.
      destruct stopping; [cbn [weights_stop] in Em; rewrite Hz in Em; injection Em as <- _; by left|].
      destruct th_weight0 as [[= ->]|[Hall [= Efold]]]; [rewrite Hz in Em; injection Em as <- _; by left|].
      right. rewrite forallb_app, Hall, map_app, foldl_app. split; [done|]. cbn. rewrite <- Efold. unfold thinned.
      by rewrite Em.
    + apply Hdone; [done..|]. destruct w0 as [w0|]; [|done]. destruct th_weight0 as [[=]|[Hall [= Efold]]]. right.
      rewrite forallb_app, Hall, map_app, foldl_app. split; [done|]. cbn. by rewrite <- Efold.
    + apply Hdone; [done..|]. destruct w0 as [w0|]; [|done]. by destruct th_weight0 as [[=]|[_ [=]]].
  - specialize (Hdone false). rewrite andb_false_r in Hdone. apply Hdone; [done..|].
    change (Driver.weights y) with (Driver.weights x). destruct w0 as [w0|]; [left|by rewrite th_weight0].
    by destruct th_weight0 as [->|[_ ->]].
Qed.

Lemma boundary_thinning born epoch signal w0 x now clock cache up stopping :
  thinning_ok born epoch signal w0 x →
  thinning_ok born epoch signal w0 (fst (boundary uncertainty c x now clock cache up stopping)).
Proof.
  intros Hx. unfold boundary. destruct (from_option _ false (Driver.plan x)); [done|].
  set (r := match (if compatible cache then Cache.observed cache else None) with Some _ => _ | None => _ end).
  assert (thinning_ok born epoch signal w0 (fst r)) as Hr.
  { subst r. destruct (if compatible cache then _ else _) as [o|]; [|done]. apply apply_trim_thinning.
    destruct (applicable _ _) as [k|]; [destruct (from_option _ true _)|]; try done. by apply (thinning_same _ _ _ _ x). }
  destruct r as [y [[]|e]]; [|done]. by apply (thinning_same _ _ _ _ y).
Qed.

Lemma turn_thinning born epoch signal w0 x e r :
  thinning_ok born epoch signal w0 x → turn uncertainty c x e = Some r → thinning_ok born epoch signal w0 (fst r).
Proof.
  intros Hx%(stop_seen_thinning _ _ _ _ _ e). unfold turn. pose proof (collect_memory (stop_seen x e) (ended e)) as Hc.
  destruct (collect _ _) as [y [[]|err]]; cbn in Hc; [|intros [= <-]; by eapply thinning_same].
  unfold clock_ms. destruct (_ || _); [intros [= <-]; by eapply thinning_same|].
  set (now := time e / MILLISECOND). destruct (remove_stale y _ _) as [[z u]|] eqn:Es; [|done]. intros [= <-].
  apply remove_stale_memory in Es. cbn in Es. rewrite Hc in Es.
  assert (thinning_ok born epoch signal w0 z) as Hz by by eapply thinning_same. clear Hx Hc Es.
  destruct u as [[]|err]; cbn [andthen]; [|done].
  pose proof (boundary_thinning born epoch signal w0 z now (boundary_clock e) (boundary_cache e) (boundary_up e) (stopping e) Hz) as Hb.
  destruct (boundary _ _ z _ _ _ _ _) as [a [[]|err]]; cbn [andthen] in *; [|done].
  eapply thinning_same; [|exact Hb]. cbn. apply andthen_memory; [apply poll_memory|]. intros b Hmb.
  pose proof (report_memory b now (compatible (report_cache e)) (report_up e)) as Hr. rewrite Hmb in Hr.
  destruct (report _ b _ _ _) as [d [sleep|err]]; [|done]. apply andthen_memory; [|done].
  destruct (woken e) as [[id w]|]; [by rewrite completed_memory|done].
Qed.

Lemma run_thinning born epoch signal w0 x evs r :
  thinning_ok born epoch signal w0 x → run_driver uncertainty c x evs = Some r → thinning_ok born epoch signal w0 (fst r).
Proof.
  revert x. induction evs as [|e evs IH]; intros x Hx; cbn; [by intros [= <-]|].
  destruct (turn _ _ x e) as [[z [sleep|err]]|] eqn:Et; [| |done]; apply (turn_thinning born epoch signal w0) in Et; try done.
  - by apply IH.
  - by intros [= <-].
Qed.
End thinning.

(** ** The cutoffs are those of rosters *)

(** What the types say of a roster: its cutoffs are in 64 bits. *)
Definition cutoff_fits (k : Cutoff.t) : Prop := from_option (fits 64) True (Cutoff.rank k).

Definition roster_fits (r : Roster.t) : Prop :=
  cutoff_fits (Control.reporting (Roster.control r)) ∧
  from_option (λ k, cutoff_fits (Control.reporting k)) True (Roster.next_control r).

Definition cache_fits `{Versions} (x : Cache.t) : Prop :=
  from_option (λ o, roster_fits (Observed.roster o)) True (Cache.observed x).

Section cutoffs.
Context `{Ulid, Draws, Versions}.
Variable uncertainty : Z.
Variable c : Sampling.t.

Record cutoffs_ok (x : Driver.t) : Prop := {
  co_driver : cutoff_fits (Driver.cutoff x);
  co_plan : ∀ p, Driver.plan x = Some p → cutoff_fits (Plan.cutoff p);
  co_jobs : ∀ j, j ∈ Driver.spawned x → cutoff_fits (Job.cutoff j) }.

Definition sources (x : Driver.t) : Cutoff.t * option Plan.t * list Job.t :=
  (Driver.cutoff x, Driver.plan x, Driver.spawned x).

Lemma cutoffs_same x y : sources y = sources x → cutoffs_ok x → cutoffs_ok y.
Proof. unfold sources. intros [= Ec Ep Es] []. split; by rewrite ?Ec, ?Ep, ?Es. Qed.

Lemma applicable_fits r window k : roster_fits r → applicable r window = Some k → cutoff_fits (Control.reporting k).
Proof.
  intros [Hc Hn]. unfold applicable. destruct (Roster.next_control r) as [n|]; repeat destruct (_ <=? _);
    try done; by intros [= <-].
Qed.

Lemma collect_sources x l : sources (fst (collect x l)) = sources x.
Proof.
  revert x. induction l as [|[id e] l IH]; intros x; [done|]. cbn [collect].
  assert (sources (fst (completed x id e)) = sources x) as Hs by by destruct e.
  destruct (completed x id e) as [y [u|err]]; cbn [andthen fst] in *; [|done]. by rewrite IH.
Qed.

Lemma remove_stale_sources x window l r : remove_stale x window l = Some r → sources (fst r) = sources x.
Proof.
  revert x. induction l as [|[id e] l IH]; intros x; cbn [remove_stale]; destruct (existsb _ _);
    try done; try (by intros [= <-]).
  assert (sources (fst (completed x id e)) = sources x) as Hs by by destruct e.
  destruct (completed x id e) as [y [u|e']]; cbn in Hs; [rewrite <- Hs; apply IH|by intros [= <-]].
Qed.

Lemma launch_cutoffs x ch w r k : cutoffs_ok x → cutoff_fits k → cutoffs_ok (fst (launch x ch w r k)).
Proof.
  intros [] Hk. unfold launch. destruct (_ && _); [done|]. split; cbn; try done.
  intros j Hj. apply elem_of_app in Hj as [Hj| ->%list_elem_of_singleton]; [by apply co_jobs0|done].
Qed.

Lemma apply_trim_sources x o window now clock up stopping :
  sources (fst (apply_trim uncertainty c x o window now clock up stopping)) = sources x.
Proof.
  unfold apply_trim. destruct (Roster.trim _) as [t|]; [|done]. destruct (_ && _); [|done].
  destruct (trim_due _ _ _ _ _ _ _ _ _); [|done]. unfold thin. destruct (Cutoff.includes _ _); [|done].
  cbn [Driver.set_last_trim Driver.weights]. destruct (Driver.weights x) as [[w|]|]; [|done..].
  by destruct (multiply _ _).
Qed.

Lemma boundary_cutoffs x now clock cache up stopping :
  cutoffs_ok x → cache_fits cache → cutoffs_ok (fst (boundary uncertainty c x now clock cache up stopping)).
Proof.
  intros Hx Hc. unfold boundary. destruct (from_option _ false (Driver.plan x)); [done|].
  set (r := match (if compatible cache then Cache.observed cache else None) with Some _ => _ | None => _ end).
  assert (cutoffs_ok (fst r)) as Hr.
  { subst r. destruct (compatible cache); [|done]. unfold cache_fits in Hc.
    destruct (Cache.observed cache) as [o|]; [|done]. cbn in Hc.
    eapply cutoffs_same; [apply apply_trim_sources|].
    destruct (applicable _ _) as [k|] eqn:Ek; [|done]. destruct (from_option _ true _); [|done].
    apply applicable_fits in Ek; [|done]. by destruct Hx. }
  destruct r as [y [[]|e]]; [|done]. destruct Hr. split; try done. by intros p [= <-].
Qed.

Lemma report_cutoffs x now compat up : cutoffs_ok x → cutoffs_ok (fst (report c x now compat up)).
Proof.
  intros Hx. unfold report. destruct (Driver.plan x) as [p|] eqn:Ep; [|done].
  set (q := Plan.set_done p _ _). pose proof (co_plan _ Hx p Ep) as Hk.
  assert (cutoffs_ok (Driver.set_plan x q)) as Hy.
  { destruct Hx. split; try done. by intros u [= <-]. }
  set (r := if _ && _ then launch _ _ _ _ _ else (Driver.set_plan x q, Ok tt)).
  assert (cutoffs_ok (fst r)) as Hr
    by (subst r; match goal with |- cutoffs_ok (fst (if ?b then _ else _)) => destruct b end; [by apply launch_cutoffs|done]).
  destruct r as [z [[]|e]]; cbn [andthen fst] in *; [|done].
  set (r := if _ && _ then _ else (z, Ok tt)).
  assert (cutoffs_ok (fst r)) as Hr'
    by (subst r; match goal with |- cutoffs_ok (fst (if ?b then _ else _)) => destruct b end; [by apply launch_cutoffs|done]).
  by destruct r as [u [[]|e]].
Qed.

Lemma poll_cutoffs x now up : cutoffs_ok x → cutoffs_ok (fst (poll c x now up)).
Proof.
  intros Hx. unfold poll. set (r := if _ =? _ then _ else _).
  assert (cutoffs_ok (fst r)) as Hr.
  { subst r. destruct (_ =? _); [done|]. destruct (next_slot _ _ _); by destruct Hx. }
  destruct r as [y [[]|e]]; cbn [andthen fst] in *; [|done]. destruct (_ <=? _); [|done].
  destruct (next_slot_after _ _ _); [|done]. destruct (existsb _ _); [by destruct Hr|].
  apply launch_cutoffs; [by destruct Hr|done].
Qed.

Lemma turn_cutoffs x e r :
  cutoffs_ok x → cache_fits (boundary_cache e) → turn uncertainty c x e = Some r → cutoffs_ok (fst r).
Proof.
  intros Hx Hc. unfold turn.
  assert (cutoffs_ok (stop_seen x e)) as Hx' by (unfold stop_seen; destruct (weight_stopped e); by destruct Hx).
  pose proof (collect_sources (stop_seen x e) (ended e)) as Hs.
  destruct (collect _ _) as [y [[]|err]]; cbn in Hs; [|intros [= <-]; by eapply cutoffs_same].
  unfold clock_ms. destruct (_ || _); [intros [= <-]; by eapply cutoffs_same|].
  destruct (remove_stale y _ _) as [[z u]|] eqn:Es; [|done]. intros [= <-].
  apply remove_stale_sources in Es. cbn in Es. rewrite Hs in Es.
  assert (cutoffs_ok z) as Hz by by eapply cutoffs_same. destruct u as [[]|err]; cbn [andthen]; [|done].
  pose proof (boundary_cutoffs z (time e / MILLISECOND) (boundary_clock e) _ (boundary_up e) (stopping e) Hz Hc) as Hb.
  destruct (boundary _ _ z _ _ _ _ _) as [a [[]|err]]; cbn [andthen fst] in *; [|done].
  pose proof (poll_cutoffs a (time e / MILLISECOND) (poll_up e) Hb) as Hp.
  destruct (poll _ a _ _) as [b [[]|err]]; cbn [andthen fst] in *; [|done].
  pose proof (report_cutoffs b (time e / MILLISECOND) (compatible (report_cache e)) (report_up e) Hp) as Hr.
  destruct (report _ b _ _ _) as [d [sleep|err]]; [|done]. cbn in Hr.
  destruct (woken e) as [[id []]|]; cbn; by destruct Hr.
Qed.

Lemma run_cutoffs x evs r :
  cutoffs_ok x → Forall (λ e, cache_fits (boundary_cache e)) evs → run_driver uncertainty c x evs = Some r →
  cutoffs_ok (fst r).
Proof.
  intros Hx Hevs. revert x Hx. induction Hevs as [|e evs He _ IH]; intros x Hx; cbn; [by intros [= <-]|].
  destruct (turn _ _ x e) as [[z [sleep|err]]|] eqn:Et; [| |done]; apply turn_cutoffs in Et; try done.
  - by apply IH.
  - by intros [= <-].
Qed.

Lemma driver_new_cutoffs time cache signal weights x :
  cache_fits cache → driver_new c time cache signal weights = Ok x → cutoffs_ok x.
Proof.
  intros Hc. unfold driver_new. destruct (clock_ms time) as [born|]; [|done]. destruct (next_slot_after _ _ _); [|done].
  intros [= <-]. split; cbn; try done.
  - unfold cache_fits in Hc. destruct (Cache.observed cache) as [o|]; [|done]. cbn [mbind option_bind from_option] in *.
    destruct (applicable _ _) as [k|] eqn:Ek; [|done]. by eapply applicable_fits.
  - by intros j Hj%elem_of_nil.
Qed.
End cutoffs.

(** ** The writing of a report *)

Section writing.
Context `{Ulid, Draws, Versions}.
Variable c : Sampling.t.

Lemma write_attempts_facts n key deadline clock put k :
  let '(l, _) := write_attempts c n key deadline clock put k in
  (length l <= n)%nat ∧
  Forall (λ a, Attempt.key a = key ∧ Attempt.sent_ms a * MILLISECOND + Attempt.timeout a <= deadline * MILLISECOND) l.
Proof.
  revert k. induction n as [|n IH]; intros k; cbn [write_attempts]; [by split|].
  destruct (clock_ms (clock k)) as [now|]; [|split; [cbn; lia|constructor]].
  destruct (Z.leb_spec deadline now); [split; [cbn; lia|constructor]|].
  set (a := Attempt.mk key now _).
  assert (Attempt.key a = key ∧ Attempt.sent_ms a * MILLISECOND + Attempt.timeout a <= deadline * MILLISECOND) as Ha.
  { split; [done|]. subst a. cbn [Attempt.sent_ms Attempt.timeout]. lia. }
  destruct (put k); [split; [cbn; lia|by constructor]|]. destruct k; [|split; [cbn; lia|by constructor]].
  specialize (IH 1%nat). destruct (write_attempts c n key deadline clock put 1) as [l r]. destruct IH as [Hl Hf].
  split; [cbn; lia|by constructor].
Qed.

Lemma write_report_facts ch window rank cutoff clock put :
  let '(l, _) := write_report c ch window rank cutoff clock put in
  (length l <= 2)%nat ∧
  Forall (λ a, Attempt.key a = report_key c (channel_name ch) window rank cutoff ∧
    Attempt.sent_ms a * MILLISECOND + Attempt.timeout a
    <= ((window + 1) * Timing.width (Timing.new c) + Timing.submission (Timing.new c)) * MILLISECOND) l.
Proof.
  unfold write_report, Timing.end_, checked_add, checked_mul.
  destruct (window + 1 <? 2 ^ 64); cbn [mbind option_bind]; [|split; [cbn; lia|constructor]].
  destruct (_ <? 2 ^ 64); cbn [mbind option_bind]; [|split; [cbn; lia|constructor]].
  destruct (_ <? 2 ^ 64); [|split; [cbn; lia|constructor]]. apply write_attempts_facts.
Qed.

(** The key of a report the driver launched is that of a report any census takes. *)
Lemma job_key_ok j u :
  is_report j → job_ok c j → cutoff_fits (Job.cutoff j) → fits 128 u → Sampling.invocation_id c = ulid_text u →
  let prefix := report_prefix c (channel_name (Job.channel j)) (Job.window j) in
  parse (report_key c (channel_name (Job.channel j)) (Job.window j) (Job.rank j) (Job.cutoff j)) prefix
    (bool_decide (Job.channel j = ProfilerReport))
  = Ok (Report.mk (Job.rank j) (Cutoff.value (Job.cutoff j)) (Sampling.invocation_id c)).
Proof.
  intros Hr Hj Hc Hu Hid prefix. unfold report_key.
  apply (parse_text prefix _ (Report.mk (Job.rank j) (Cutoff.value (Job.cutoff j)) (Sampling.invocation_id c))).
  unfold report_ok. cbn [Report.rank Report.cutoff Report.identity].
  assert (fits 64 (Job.rank j) ∧ Job.rank j < Cutoff.value (Job.cutoff j) ∧
    (Job.channel j = ProfilerReport → Cutoff.value (Job.cutoff j) = SPACE)) as (Hrank & Hlt & Hall).
  { unfold job_ok in Hj. unfold is_report in Hr. destruct (Job.channel j); [| |done].
    - destruct Hj as [-> Hin]. unfold Cutoff.includes in Hin. apply Z.ltb_lt in Hin.
      split; [apply draw_fits|]. by split.
    - destruct Hj as [-> ->]. split; [apply draw_fits|]. split; [|done]. cbn. apply draw_fits. }
  split; [done|]. split; [split; [done|]|split].
  - unfold cutoff_fits in Hc. unfold Cutoff.value, SPACE. destruct (Cutoff.rank _) as [v|]; cbn in *; [|lia].
    unfold fits in Hc. lia.
  - intros E. apply Hall. by apply bool_decide_eq_true in E.
  - exists u. rewrite Hid. split; [by apply ulid_parse_text|done].
Qed.
End writing.

(** ** Main properties *)

(** C16: A process is counted once: whatever its clock does, whatever the roster
    says and however long its requests take, the driver launches at most one
    report of each channel in a window; no more than four reports and one read
    of the roster are on their way at any time; and it never refuses to launch
    one because there are too many. *)
Theorem one_report_per_window `{Ulid, Draws, Versions} uncertainty c time cache signal weights x0 evs x r :
  driver_new c time cache signal weights = Ok x0 → run_driver uncertainty c x0 evs = Some (x, r) →
  (∀ i k a b, Driver.spawned x !! i = Some a → Driver.spawned x !! k = Some b →
     is_report a → Job.channel a = Job.channel b → Job.window a = Job.window b → i = k) ∧
  (length (base.filter (λ e, polling e = false) (Driver.in_flight x)) <= 4)%nat ∧
  (length (base.filter (λ e, polling e = true) (Driver.in_flight x)) <= 1)%nat ∧
  r ≠ Err job_budget.
Proof.
  intros Hn Hr. apply (driver_new_ok c) in Hn. apply run_driver_ok in Hr as [Hx He]; [|done].
  split; [|split; [by apply (reports_in_flight c)|split; [apply Hx|done]]].
  intros i k a b Ha Hb Hrep Ec Ew. eapply (jo_once _ _ Hx); [done..|]. unfold pair_of. by rewrite Ec, Ew.
Qed.

(** C17: A report that is written is counted: every request a task of the driver
    sends, whatever the task finds in the cache and the store answers, names a
    report that any census of the window takes, with the draw of the window and
    the identity of the process; there are at most two; and both are sent and
    given up before any leader whose clock is within twice the skew may count
    the window. *)
Theorem reports_countable `{Ulid, Draws, Versions} uncertainty c time cache signal weights x0 evs x r j
    read cache1 others clock put u now closed writer :
  validate c = Ok tt → 0 <= InternalSettings.max_clock_skew (Sampling.settings c) →
  fits 128 u → Sampling.invocation_id c = ulid_text u →
  cache_fits cache → Forall (λ e, cache_fits (boundary_cache e)) evs →
  driver_new c time cache signal weights = Ok x0 → run_driver uncertainty c x0 evs = Some (x, r) →
  j ∈ Driver.spawned x →
  fits 64 now → Timing.completed (Timing.new c) now = Some closed → Job.window j <= closed →
  now <= writer + 2 * skew_ms c →
  let attempts := fst (snd (run_job c j read cache1 others clock put)) in
  (length attempts <= 2)%nat ∧
  Forall (λ a,
    parse (Attempt.key a) (report_prefix c (channel_name (Job.channel j)) (Job.window j))
      (bool_decide (Job.channel j = ProfilerReport))
    = Ok (Report.mk (Job.rank j) (Cutoff.value (Job.cutoff j)) (Sampling.invocation_id c)) ∧
    Attempt.sent_ms a * MILLISECOND + Attempt.timeout a < writer * MILLISECOND) attempts.
Proof.
  intros Hv Hs Hu Hid Hc Hevs Hn Hrun Hj Hnow Hcl Hle Hw attempts.
  pose proof (run_cutoffs _ _ _ _ _ (driver_new_cutoffs _ _ _ _ _ _ Hc Hn) Hevs Hrun) as Hco.
  apply (driver_new_ok c) in Hn. apply run_driver_ok in Hrun as [Hx _]; [|done].
  destruct (timing_margins c Hv Hs) as (Hwid & _ & _ & _ & _ & Hclo & _).
  destruct (completed_bounds c now closed Hv Hs Hnow Hcl) as (H0' & Hlo & _).
  subst attempts. unfold run_job. set (k := others _).
  destruct (bool_decide_reflect (Job.channel j = ControlRead)) as [Ech|Ech]; cbn [orb]; [split; [cbn; lia|constructor]|].
  destruct (compatible k); cbn [negb]; [|split; [cbn; lia|constructor]].
  pose proof (write_report_facts c (Job.channel j) (Job.window j) (Job.rank j) (Job.cutoff j) clock put) as Hwr.
  cbn [snd]. destruct (write_report _ _ _ _ _ _ _) as [l res]. destruct Hwr as [Hlen Hl]. split; [done|].
  eapply list.Forall_impl; [exact Hl|]. cbn beta. intros a [-> Ht]. split.
  - eapply job_key_ok; [done|by apply (jo_jobs _ _ Hx)|by apply (co_jobs _ Hco)|exact Hu|done].
  - eapply Z.le_lt_trans; [exact Ht|]. apply Z.mul_lt_mono_pos_r; [done|].
    assert ((Job.window j + 1) * Timing.width (Timing.new c) <= (closed + 1) * Timing.width (Timing.new c))
      by (apply Z.mul_le_mono_nonneg_r; lia). lia.
Qed.

(** Thinning is fair and final: whatever the rosters say, a driver follows
    an order to thin at most once and never one that is older than what it has
    followed or found at its start, nor one of a window before it was born; it
    stays exactly when its draw for that order says so; it records as long as
    it survived all of them, for good not after one it did not survive; and
    then its weight is the weight it started with divided by the survivals, in
    their order, until somebody stops it. *)
Theorem thinning_once `{Ulid, Draws, Versions} uncertainty c time cache signal weights x0 evs x r :
  driver_new c time cache signal weights = Ok x0 → run_driver uncertainty c x0 evs = Some (x, r) →
  StronglySorted Z.lt (from_option (λ o, Roster.epoch (Observed.roster o)) 0 (Cache.observed cache)
                       :: map (λ d, Trim.epoch (fst d)) (Driver.trims x)) ∧
  Forall (λ d, snd d = Cutoff.includes (Trim.survival (fst d)) (draw c (lit "trim") (Trim.salt (fst d))) ∧
    time / MILLISECOND / Timing.width (Timing.new c) <= Trim.source_window (fst d)) (Driver.trims x) ∧
  Driver.signal x = signal && forallb snd (Driver.trims x) ∧
  match weights with
  | None => Driver.weights x = None
  | Some w => Driver.weights x = Some (Some f64_zero) ∨
              forallb snd (Driver.trims x) = true ∧ Driver.weights x = Some (foldl thinned w (map fst (Driver.trims x)))
  end.
Proof.
  intros Hn Hr. set (epoch := from_option _ 0 _).
  assert (thinning_ok c (time / MILLISECOND) epoch signal weights x0) as H0'.
  { unfold driver_new, clock_ms in Hn. destruct (_ || _); [done|]. destruct (next_slot_after _ _ _); [|done].
    injection Hn as <-. split; cbn [Driver.born_ms Driver.trims Driver.signal Driver.weights Driver.last_trim_epoch];
      try done; [by repeat constructor|by rewrite andb_true_r|]. destruct weights; [by right|done]. }
  pose proof (run_thinning _ _ _ _ _ _ _ _ _ H0' Hr) as []. done.
Qed.

(** ** Examples *)

(** A roster that thins the pool by half in window 2; its epoch is that of the
    order. *)
Definition example_trim : Trim.t :=
  Trim.mk 7 (hex_fixed 32 5) 0 2 100000 (Cutoff.from_probability (fdiv (f64_of 1) (f64_of 2))).

Definition example_order : @Cache.t example_json example_versions :=
  @Cache.mk example_json example_versions
    (Some (@Observed.mk example_json example_versions (Roster.set_trim (example_roster 7) (Some example_trim))
             (example_roster 7) (100000 * MILLISECOND)))
    None.

(** A second apart, tasks end as soon as they started. *)
Definition example_seen `{Versions} (cache : Cache.t) (i : nat) : seen :=
  Seen false (map (λ k, (k, Finished (Ok tt))) (seq 0 8)) ((31 + Z.of_nat i) * SECOND) [] ((31 + Z.of_nat i) * SECOND) cache true false true cache true None.

Definition example_rounds `{Versions} (cache : Cache.t) : list seen := map (example_seen cache) (seq 0 120).

(** A process with weight 4 from the middle of window 0 to that of window 2. *)
Definition example_driver `{Ulid, Draws, Versions} : result Driver.t StoreError.t :=
  driver_new (example_config 1) (30 * SECOND) empty_cache true (Some (Some (f64_of 4))).

Definition example_driven `{Ulid, Draws, Versions} (cache : Cache.t) : option (Driver.t * Driver.t * result unit StoreError.t) :=
  match example_driver with
  | Ok x0 => (λ '(x, r), (x0, x, r)) <$> run_driver 0 (example_config 1) x0 (example_rounds cache)
  | Err _ => None
  end.

(** Five tasks, one order followed. *)
Definition example_outcome (r : option (Driver.t * Driver.t * result unit StoreError.t)) : option (nat * list bool) :=
  (λ '(_, x, _), (length (Driver.spawned x), map snd (Driver.trims x))) <$> r.

Lemma example_driven_inv `{Ulid, Draws, Versions} cache x0 x r :
  example_driven cache = Some (x0, x, r) →
  example_driver = Ok x0 ∧ run_driver 0 (example_config 1) x0 (example_rounds cache) = Some (x, r).
Proof.
  unfold example_driven. destruct example_driver as [y0|]; [|done]. destruct (run_driver _ _ _ _) as [[y q]|] eqn:E; [|done].
  intros [= <- <- <-]. by split.
Qed.

Lemma one_report_per_window_witness :
  let _ := example_ulid in let _ := example_draws in let _ := example_json in let _ := example_versions in
  match example_driven example_order with
  | Some (_, x, r) => (length (base.filter (λ e, polling e = false) (Driver.in_flight x)) <= 4)%nat ∧ r ≠ Err job_budget
  | None => False
  end.
Proof.
  intros U D J V. set (run := example_driven _).
  assert (example_outcome run = Some (5%nat, [false])) as Ho by by vm_compute.
  destruct run as [[[x0 x] r]|] eqn:E; [|done]. apply example_driven_inv in E as [E0 E1].
  split; by apply (one_report_per_window 0 (example_config 1) (30 * SECOND) empty_cache true (Some (Some (f64_of 4)))
    x0 (example_rounds example_order) x r).
Defined.

Lemma thinning_once_witness :
  let _ := example_ulid in let _ := example_draws in let _ := example_json in let _ := example_versions in
  match example_driven example_order with
  | Some (_, x, _) => map snd (Driver.trims x) = [false] ∧ Driver.signal x = true && forallb snd (Driver.trims x)
  | None => False
  end.
Proof.
  intros U D J V. set (run := example_driven _).
  assert (example_outcome run = Some (5%nat, [false])) as Ho by by vm_compute.
  destruct run as [[[x0 x] r]|] eqn:E; [|done]. apply example_driven_inv in E as [E0 E1]. split; [by injection Ho|].
  by apply (thinning_once 0 (example_config 1) (30 * SECOND) empty_cache true (Some (Some (f64_of 4)))
    x0 (example_rounds example_order) x r).
Defined.

Lemma reports_countable_witness :
  let _ := example_ulid in let _ := example_draws in let _ := example_json in let _ := example_versions in
  match example_driven example_order with
  | Some (_, x, _) => ∀ j, Driver.spawned x !! 2%nat = Some j → Job.window j <= 1 →
      blen (fst (snd (run_job (example_config 1) j (Ok None) empty_cache id (λ _, 90 * SECOND)
        (λ _, Err (StoreError.mk Unavailable []))))) <= 2
  | None => False
  end.
Proof.
  intros U D J V.
  assert (validate (example_config 1) = Ok tt) as Hv by by vm_compute.
  assert (0 <= InternalSettings.max_clock_skew (Sampling.settings (example_config 1))) as Hs by by vm_compute.
  assert (fits 128 1 ∧ fits 64 143000) as [Hu Hn] by done.
  assert (Sampling.invocation_id (example_config 1) = ulid_text 1) as Hi by by vm_compute.
  assert (Forall (λ e, cache_fits (boundary_cache e)) (example_rounds example_order)) as Hf
    by (apply list.Forall_forall; intros e (i & -> & _)%list_elem_of_fmap; by split).
  assert (Timing.completed (Timing.new (example_config 1)) 143000 = Some 1) as Hc by by vm_compute.
  assert (143000 <= 143000 + 2 * skew_ms (example_config 1)) as Hw by by vm_compute.
  set (run := example_driven _).
  assert (example_outcome run = Some (5%nat, [false])) as Ho by by vm_compute.
  destruct run as [[[x0 x] r]|] eqn:E; [|discriminate Ho]. apply example_driven_inv in E as [E0 E1]. intros j Hj Hle.
  apply (Nat2Z.inj_le _ 2).
  exact (proj1 (reports_countable 0 (example_config 1) (30 * SECOND) empty_cache true (Some (Some (f64_of 4)))
    x0 (example_rounds example_order) x r j (Ok None) empty_cache id (λ _, 90 * SECOND)
    (λ _, Err (StoreError.mk Unavailable [])) 1 143000 1 143000 Hv Hs Hu Hi I Hf E0 E1
    (list_elem_of_lookup_2 _ _ _ Hj) Hn Hc Hle Hw)).
Defined.
