(* ===== verification/Startup.v ===== *)
(** * Sampling: the startup of a process (dial9-sampling/src/lib.rs, protocol/engine.rs)

    Whether a process records, and with which weight, from one read of the
    roster: [prepare] ([prepare_using]) with what it read, and [sampling_admit] and
    [status] around it; and the writing of the roster ([replace]). *)

From Stdlib Require Import ZArith Lia SpecFloat.
From stdpp Require Import base list strings option.
From S2P Require Import Prelude.
From S2P Require Import Text.
From S2P Require Import F64.
From S2P Require Import SamplingStore.
From S2P Require Import SamplingConfig.
From S2P Require Import Roster.
From S2P Require Import Election.
From S2P Require Import TraceWeights.
From S2P Require Import Observation.

Inductive DecisionReason : Type :=
| FromRoster
| CreatedRoster
| OutsideCutoff
| TargetZero
| MissingRoster
| IncompatiblePolicy
| UnsettledRoster
| TimedOut
| InvalidConfiguration (message : bytes)
| StoreFailure (message : bytes).

#[global] Instance DecisionReason_eq_dec : EqDecision DecisionReason.
Proof. solve_decision. Defined.

(** The text of an error. *)
Definition kind_text (k : StoreErrorKind) : bytes :=
  match k with
  | Unavailable => lit "Unavailable"
  | Unauthorized => lit "Unauthorized"
  | InvalidResponse => lit "InvalidResponse"
  | Unsupported => lit "Unsupported"
  | WriteOutcomeUnknown => lit "WriteOutcomeUnknown"
  end.

Definition error_text (e : StoreError.t) : bytes := kind_text (StoreError.kind e) ++ lit ": " ++ StoreError.source e.

(** What is kept for the session: its probability and weight, its controller
    and its driver. *)
Module Session.
Record t `{Versions} : Type := mk {
  startup_probability : f64; weights : option weight; controller : Controller.t; driver : Driver.t }.
Arguments mk {_ _}.
End Session.

Module Prepared.
Record t `{Versions} : Type := mk { enabled : bool; reason : DecisionReason; session : option Session.t }.
Arguments mk {_ _}.
Definition disabled `{Versions} (reason : DecisionReason) (enabled : bool) : t := mk enabled reason None.
End Prepared.

(** The first read of the roster: not made because there is no time, cut short,
    or answered. *)
Inductive first_read `{Versions} : Type :=
| NotAsked
| CutShort
| Answered (r : result (option (StoredObject.t json token)) StoreError.t).

(** What is decided before a missing roster is created. *)
Module Choice.
Record t `{Versions} : Type := mk {
  recording : bool; reason : DecisionReason; observed : option Observed.t; foreign : option Foreign.t;
  probability : f64 }.
Arguments mk {_ _}.
End Choice.

Section startup.
Context `{Ulid, Draws, Versions}.
Variable uncertainty : Z.
Variable c : Sampling.t.

(** [failure_cutoff() as f64 / SPACE as f64]. *)
Definition failure_probability : f64 := fdiv (f64_of (failure_cutoff c)) (f64_of SPACE).

Definition first_choice (read : first_read) (clock : Z) : Choice.t :=
  let fallback := failure_decision c in
  let otherwise := λ why observed, Choice.mk fallback why observed None failure_probability in
  match read with
  | NotAsked | CutShort => otherwise TimedOut None
  | Answered (Err e) => otherwise (StoreFailure (error_text e)) None
  | Answered (Ok None) => otherwise MissingRoster None
  | Answered (Ok (Some object)) =>
      match decode object c with
      | Ok (DecodedForeign f) => Choice.mk fallback IncompatiblePolicy None (Some f) failure_probability
      | Err e => otherwise (StoreFailure (error_text e)) None
      | Ok (DecodedRoster o) =>
          match clock_ms clock with
          | Err e => otherwise (StoreFailure (error_text e)) (Some o)
          | Ok now =>
              match roster_admission (Observed.roster o) c now with
              | None => otherwise UnsettledRoster (Some o)
              | Some cutoff =>
                  let enabled := selects c (Cutoff.value cutoff) in
                  Choice.mk enabled (if enabled then FromRoster else OutsideCutoff) (Some o) None
                    (Cutoff.probability cutoff)
              end
          end
      end
  end.

(** [replace]: a conditional write and, when its outcome is unknown, one
    readback. *)
Definition replace (r : Roster.t) (put : result (PutOutcome token) StoreError.t) (now : Z)
    (readback : result (option (StoredObject.t json token)) StoreError.t) : result (option Decoded) StoreError.t :=
  match put with
  | Ok (Stored v) => Ok (Some (DecodedRoster (Observed.mk r v now)))
  | Ok PreconditionFailed => Ok None
  | Err e =>
      if uncertain e then match readback with Ok object => reconcile c r object e | Err e => Err e end
      else Err e
  end.

Definition create_expired : StoreError.t :=
  StoreError.mk Unavailable (lit "startup deadline expired while creating the roster").

(** [create_roster]: [expired] when the deadline comes first. *)
Definition create_roster (clock : Z) (first nonce : bytes) (expired : bool)
    (put : result (PutOutcome token) StoreError.t) (now : Z)
    (readback : result (option (StoredObject.t json token)) StoreError.t) : result (option Decoded) StoreError.t :=
  let id := Sampling.invocation_id c in
  match clock_ms clock with
  | Err e => Err e
  | Ok ms =>
      match mutate id nonce (created c id first ms) with
      | Err e => Err e
      | Ok r => if expired then Err create_expired else replace r put now readback
      end
  end.

(** The creation of a missing roster decides for recording. *)
Definition after_creation (x : Choice.t) (created : result (option Decoded) StoreError.t) : Choice.t * bool :=
  if bool_decide (Choice.reason x = MissingRoster) then
    match created with
    | Ok (Some (DecodedRoster o)) =>
        (Choice.mk true CreatedRoster (Some o) (Choice.foreign x) (f64_of 1), true)
    | Ok (Some (DecodedForeign f)) =>
        (Choice.mk (Choice.recording x) IncompatiblePolicy (Choice.observed x) (Some f) (Choice.probability x), false)
    | Ok None | Err _ => (x, false)
    end
  else (x, false).

Definition authoritative (why : DecisionReason) : bool :=
  match why with
  | MissingRoster | CreatedRoster | IncompatiblePolicy | FromRoster | OutsideCutoff | UnsettledRoster => true
  | _ => false
  end.

(** The weight of a process that records; [None]: the assertion on it fails. *)
Definition startup_weights (recording created : bool) (probability : f64) : option (option weight) :=
  if recording then
    if created then Some (Some weights_unknown)
    else match weights_new (fdiv (f64_of 1) probability) with Some w => Some (Some w) | None => None end
  else Some None.

(** [prepare_using]: [no_deadline] when the timeout overflows the clock, [created]
    what [create_roster] gives, the clock when the roster is looked at, when the
    controller and when the driver are made.  [None]: it panics. *)
Definition prepare (no_deadline : bool) (read : first_read) (clock : Z)
    (created : result (option Decoded) StoreError.t) (controller_clock driver_clock : Z) : option Prepared.t :=
  match validate c with
  | Err message => Some (Prepared.disabled (InvalidConfiguration message) false)
  | Ok _ =>
      if target c =? 0 then Some (Prepared.disabled TargetZero false)
      else if no_deadline then
        Some (Prepared.disabled (InvalidConfiguration (lit "startup timeout overflow")) false)
      else
        let fallback := failure_decision c in
        let '(x, made) := after_creation (first_choice read clock) created in
        match startup_weights (Choice.recording x) made (Choice.probability x) with
        | None => None
        | Some weights =>
            match clock_ms controller_clock with
            | Err e => Some (Prepared.disabled (StoreFailure (error_text e)) fallback)
            | Ok _ =>
                let controller :=
                  controller_new uncertainty c (Choice.observed x) (Choice.foreign x)
                    (authoritative (Choice.reason x)) controller_clock in
                match driver_new c driver_clock (Controller.cache controller) (Choice.recording x) weights with
                | Err e => Some (Prepared.disabled (StoreFailure (error_text e)) fallback)
                | Ok driver =>
                    Some (Prepared.mk (Choice.recording x) (Choice.reason x)
                            (Some (Session.mk (Choice.probability x) weights controller driver)))
                end
            end
        end
  end.

(** ** Around it *)

(** [Sampling::preflight]. *)
Definition preflight (no_deadline : bool) : option Prepared.t :=
  match validate c with
  | Err message => Some (Prepared.disabled (InvalidConfiguration message) false)
  | Ok _ =>
      if target c =? 0 then Some (Prepared.disabled TargetZero false)
      else if no_deadline then
        Some (Prepared.disabled (InvalidConfiguration (lit "startup timeout overflow")) false)
      else None
  end.

(** How the storage came up. *)
Inductive backend : Type :=
| BackendReady
| BackendFailed (text : bytes)
| BackendTimedOut.

(** [Sampling::admit]: [prepared] is what [prepare] gives in the time left. *)
Definition sampling_admit (timeout_is_zero no_deadline : bool) (b : backend) (prepared : option Prepared.t) : option Prepared.t :=
  if timeout_is_zero then Some (Prepared.disabled TimedOut (failure_decision c))
  else if no_deadline then
    Some (Prepared.disabled (InvalidConfiguration (lit "startup timeout overflow")) false)
  else
    match b with
    | BackendReady => prepared
    | BackendFailed text => Some (Prepared.disabled (StoreFailure text) (failure_decision c))
    | BackendTimedOut => Some (Prepared.disabled TimedOut (failure_decision c))
    end.

(** How [start_application] gets there: the configuration is looked at before a
    runtime is started, which may fail. *)
Definition start (no_deadline : bool) (runtime : result unit bytes) (timeout_is_zero no_deadline' : bool) (b : backend)
    (prepared : option Prepared.t) : option Prepared.t :=
  match preflight no_deadline with
  | Some p => Some p
  | None =>
      match runtime with
      | Ok _ => sampling_admit timeout_is_zero no_deadline' b prepared
      | Err text => Some (Prepared.disabled (StoreFailure text) (failure_decision c))
      end
  end.

(** [Sampling::status]: whether the application records and its weight, [None]
    when it does not record; an outer [None]: the assertion on the weight
    fails. *)
Definition status (p : Prepared.t) : option (bool * option weight) :=
  let probability := from_option Session.startup_probability failure_probability (Prepared.session p) in
  if Prepared.enabled p then
    match Prepared.session p ≫= Session.weights with
    | Some w => Some (true, Some w)
    | None => (λ w, (true, Some w)) <$> weights_new (fdiv (f64_of 1) probability)
    end
  else Some (false, None).
End startup.

(** ** The weight is the inverse of the probability *)

(** The probability to be below [cutoff]. *)
Definition probability_of (cutoff : Z) : f64 := fdiv (f64_of cutoff) (f64_of SPACE).

Lemma inverse_positive cutoff :
  1 <= cutoff <= SPACE → weights_new (fdiv (f64_of 1) (probability_of cutoff)) = Some (Some (fdiv (f64_of 1) (probability_of cutoff))).
Proof.
  intros Hc. assert (Z.log2 SPACE = 64) as Hs by done.
  pose proof (Z.log2_le_mono cutoff SPACE ltac:(lia)) as Hl. pose proof (Z.log2_nonneg cutoff).
  destruct (f64_of_magnitude cutoff) as (a & Ha & ?); [lia..|].
  destruct (f64_of_magnitude SPACE) as (b & Hb & ?); [done|lia|].
  destruct (f64_of_magnitude 1) as (o & Ho & Hone); [done|done|]. change (Z.log2 1) with 0 in Hone.
  destruct (fdiv_magnitude _ _ _ _ Ha Hb) as (d & Hd & ?); [lia|].
  destruct (fdiv_magnitude _ _ _ _ Ho Hd) as (e & He & ?); [lia|].
  unfold weights_new. fold (probability_of cutoff) in He. by destruct (magnitude_positive _ _ He) as [-> ->].
Qed.

Lemma threshold_le v : Cutoff.value (Cutoff.threshold v) <= SPACE.
Proof. unfold Cutoff.threshold, Cutoff.value. destruct (Z.ltb_spec v SPACE); cbn; lia. Qed.

Section decision.
Context `{Ulid, Draws, Versions}.
Variable uncertainty : Z.
Variable c : Sampling.t.

(** Where a cutoff comes from: nothing, the configuration, or the roster. *)
Definition cutoff_of (read : first_read) (cutoff : Z) : Prop :=
  cutoff = 0 ∨ cutoff = failure_cutoff c ∨
  ∃ object o now k, read = Answered (Ok (Some object)) ∧ decode object c = Ok (DecodedRoster o) ∧
    roster_admission (Observed.roster o) c now = Some k ∧ cutoff = Cutoff.value k.

(** The process is in below a cutoff. *)
Definition drawn (cutoff : Z) : bool := draw c (lit "admission") [] <? cutoff.

Lemma failure_cutoff_le : failure_cutoff c <= SPACE.
Proof. unfold failure_cutoff, SPACE. destruct (Sampling.if_failed c) as [|p]; [lia|]. destruct (_ =? _); lia. Qed.

Lemma fallback_drawn u : validate c = Ok u → failure_decision c = drawn (failure_cutoff c).
Proof. unfold failure_decision. by intros ->. Qed.

Lemma choice_drawn u read clock :
  validate c = Ok u →
  ∃ cutoff, cutoff <= SPACE ∧ cutoff_of read cutoff ∧
    Choice.recording (first_choice c read clock) = drawn cutoff ∧
    Choice.probability (first_choice c read clock) = probability_of cutoff ∧
    Choice.reason (first_choice c read clock) ≠ CreatedRoster.
Proof.
  intros Hv. pose proof (fallback_drawn u Hv) as Hf.
  assert (∀ why o f, why ≠ CreatedRoster →
    let x := Choice.mk (failure_decision c) why o f (failure_probability c) in
    ∃ cutoff, cutoff <= SPACE ∧ cutoff_of read cutoff ∧ Choice.recording x = drawn cutoff ∧
      Choice.probability x = probability_of cutoff ∧ Choice.reason x ≠ CreatedRoster) as Hfall.
  { intros why o f Hw x. exists (failure_cutoff c). split_and!; try done; [apply failure_cutoff_le|by right; left]. }
  unfold first_choice. destruct read as [| |[[object|]|e]]; try (by apply Hfall).
  destruct (decode object c) as [[o|f]|e] eqn:Ed; try (by apply Hfall).
  destruct (clock_ms clock) as [now|e]; [|by apply Hfall].
  destruct (roster_admission _ c now) as [k|] eqn:Ek; [|by apply Hfall].
  exists (Cutoff.value k). split_and!; try done.
  - unfold roster_admission in Ek. destruct (Roster.population _) as [p|]; [|done].
    destruct (Population.fresh p now c); [|done]. injection Ek as <-. apply threshold_le.
  - right. right. by exists object, o, now, k.
  - cbn. by destruct (selects c _).
Qed.

Lemma startup_weights_drawn cutoff :
  cutoff <= SPACE →
  startup_weights (drawn cutoff) false (probability_of cutoff)
  = Some (if drawn cutoff then Some (Some (fdiv (f64_of 1) (probability_of cutoff))) else None).
Proof.
  intros Hc. unfold startup_weights. destruct (drawn cutoff) eqn:Ed; [|done].
  unfold drawn in Ed. apply Z.ltb_lt in Ed. pose proof (draw_fits (Sampling.invocation_id c) (lit "admission") []) as [Hd _].
  unfold draw in Ed. by rewrite inverse_positive by lia.
Qed.

(** What a startup that does not create the roster comes to. *)
Definition drawn_startup (read : first_read) (p : Prepared.t) : Prop :=
  ∃ cutoff, cutoff_of read cutoff ∧ Prepared.enabled p = drawn cutoff ∧
    let w := if drawn cutoff then Some (Some (fdiv (f64_of 1) (probability_of cutoff))) else None in
    (∀ s, Prepared.session p = Some s → Session.startup_probability s = probability_of cutoff ∧ Session.weights s = w) ∧
    status c p = Some (drawn cutoff, w).

Lemma disabled_drawn read why : drawn_startup read (Prepared.disabled why false).
Proof.
  exists 0. assert (drawn 0 = false) as ->.
  { apply Z.ltb_ge. apply draw_fits. }
  split_and!; try done. by left.
Qed.

Lemma fallback_startup u read why : validate c = Ok u → drawn_startup read (Prepared.disabled why (failure_decision c)).
Proof.
  intros Hv. exists (failure_cutoff c). rewrite (fallback_drawn u Hv). split; [by right; left|]. split; [done|]. split; [done|].
  unfold status. cbn [Prepared.enabled Prepared.disabled Prepared.session from_option mbind option_bind].
  pose proof (startup_weights_drawn _ failure_cutoff_le) as Hw. unfold startup_weights in Hw.
  unfold failure_probability. fold (probability_of (failure_cutoff c)).
  destruct (drawn _); [|done]. destruct (weights_new _); [|done]. injection Hw as ->. done.
Qed.

Lemma prepare_drawn no_deadline read clock created controller_clock driver_clock :
  ∃ p, prepare uncertainty c no_deadline read clock created controller_clock driver_clock = Some p ∧
    if bool_decide (Prepared.reason p = CreatedRoster)
    then status c p = Some (true, Some weights_unknown) ∧
         ∃ s, Prepared.session p = Some s ∧ Session.weights s = Some weights_unknown
    else drawn_startup read p.
Proof.
  unfold prepare. destruct (validate c) as [u|message] eqn:Hv; [|eexists; split; [done|]; apply disabled_drawn].
  destruct (target c =? 0); [eexists; split; [done|]; apply disabled_drawn|].
  destruct no_deadline; [eexists; split; [done|]; apply disabled_drawn|].
  destruct (choice_drawn u read clock Hv) as (cutoff & Hle & Hof & Hrec & Hprob & Hwhy).
  set (x := first_choice c read clock) in *.
  assert (∃ y made w, after_creation x created = (y, made) ∧
    startup_weights (Choice.recording y) made (Choice.probability y) = Some w ∧
    (made = false → Choice.recording y = drawn cutoff ∧ Choice.probability y = probability_of cutoff ∧
       Choice.reason y ≠ CreatedRoster ∧ w = if drawn cutoff then Some (Some (fdiv (f64_of 1) (probability_of cutoff))) else None) ∧
    (made = true → Choice.recording y = true ∧ Choice.reason y = CreatedRoster ∧ w = Some weights_unknown))
    as (y & made & w & -> & -> & Hno & Hyes).
  { pose proof (startup_weights_drawn cutoff Hle) as Hw. rewrite <- Hrec, <- Hprob in Hw.
    unfold after_creation. destruct (bool_decide _); [destruct created as [[[o|f]|]|e]|].
    1: eexists _, true, _; split_and!; [done|done|done|done].
    all: eexists _, false, _; split; [done|]; split; [exact Hw|]; split; [|done]; intros _; rewrite Hrec, Hprob;
      by split_and!. }
  destruct (clock_ms controller_clock) as [ms|e];
    [|eexists; split; [done|]; rewrite bool_decide_false by done; by eapply fallback_startup].
  destruct (driver_new c driver_clock _ _ w) as [driver|e];
    [|eexists; split; [done|]; rewrite bool_decide_false by done; by eapply fallback_startup].
  eexists. split; [done|]. cbn [Prepared.reason]. destruct made.
  - destruct (Hyes eq_refl) as (Er & -> & ->). rewrite bool_decide_true by done. unfold status. cbn. rewrite Er.
    split; [done|]. by eexists.
  - destruct (Hno eq_refl) as (Er & Ep & Hne & ->). rewrite bool_decide_false by done. exists cutoff.
    split; [done|]. split; [done|]. split; [by intros s [= <-]|]. unfold status. cbn. rewrite Er.
    destruct (drawn cutoff); done.
Qed.
End decision.

(** ** Main property *)

(** C15: A startup always comes to a decision, without panicking, and it is a
    fair one: whatever the clock, the timeouts, the runtime, the storage and
    the roster do, there is a cutoff - zero, that of the configuration, or the
    one the roster read grants - such that the process records exactly when
    its draw is below it, and then it carries the inverse of that probability
    as its weight, both in the session and in what the application is told;
    the one exception is the process that created the roster, which records
    with an unknown weight. *)
Theorem startup_unbiased `{Ulid, Draws, Versions} uncertainty c early runtime timeout_is_zero overflow storage
    no_deadline read clock created controller_clock driver_clock :
  ∃ p,
    start c early runtime timeout_is_zero overflow storage
      (prepare uncertainty c no_deadline read clock created controller_clock driver_clock) = Some p ∧
    if bool_decide (Prepared.reason p = CreatedRoster)
    then status c p = Some (true, Some weights_unknown) ∧
         ∃ s, Prepared.session p = Some s ∧ Session.weights s = Some weights_unknown
    else drawn_startup c read p.
Proof.
  unfold start, preflight.
  destruct (validate c) as [u|message] eqn:Hv; [|eexists; split; [done|]; apply disabled_drawn].
  destruct (target c =? 0); [eexists; split; [done|]; apply disabled_drawn|].
  destruct early; [eexists; split; [done|]; apply disabled_drawn|].
  assert (∀ why, why ≠ CreatedRoster → ∃ p, Some (Prepared.disabled why (failure_decision c)) = Some p ∧
    if bool_decide (Prepared.reason p = CreatedRoster)
    then status c p = Some (true, Some weights_unknown) ∧
         ∃ s, Prepared.session p = Some s ∧ Session.weights s = Some weights_unknown
    else drawn_startup c read p) as Hfall.
  { intros why Hw. eexists. split; [done|]. rewrite bool_decide_false by done. by eapply fallback_startup. }
  destruct runtime as [v|text]; [|by apply Hfall]. unfold sampling_admit. destruct timeout_is_zero; [by apply Hfall|].
  destruct overflow; [eexists; split; [done|]; apply disabled_drawn|].
  destruct storage; [apply prepare_drawn|by apply Hfall..].
Qed.
