(* ===== verification/Registration.v ===== *)
(** * Sampling: registered recorders (dial9-sampling/src/registration.rs, lib.rs)

    The recorders of an application that sampling turns off: when the process
    is thinned, when maintenance ends, and when the application is done.
    Registrations, the tasks that watch the recording signal and the end of
    the session interleave. *)

From Stdlib Require Import ZArith Lia.
From stdpp Require Import base list option.
From S2P Require Import Prelude.

(** What has happened so far, as far as it can be seen: a recorder was turned
    off or on, the registrations were closed. *)
Inductive notice : Type :=
| DisabledRecorder (k : nat)
| EnabledRecorder (k : nat)
| ClosedRegistrations.

(** A recorder is known by the number of its registration.  [recorders] is the
    list under the lock, each with whether a task of its own still watches the
    signal; [stopping] what a running [stop] has taken out of it.  [signal] is
    the recording signal, [None] when its sender is gone. *)
Module Registrations.
Record t : Type := mk {
  closed : bool; recorders : list (nat * bool); stopping : list (nat * bool); registered : nat;
  signal : option bool; log : list notice }.
End Registrations.

Inductive registration_event : Type :=
| Register (watches : bool)
| Signal (b : option bool)
| MonitorRuns (taken : bool) (i : nat)
| StopBegins
| StopNext
| Enable (k : nat).

(** A task that watches has something to do. *)
Definition signalled (s : option bool) : bool := negb (default false s).

(** [RecorderRegistrations::register] and [stop], the tasks, and an application
    that turns a recorder on again; an event that is not enabled is [None]. *)
Definition happens (s : Registrations.t) (e : registration_event) : option Registrations.t :=
  match e with
  | Register watches =>
      let k := Registrations.registered s in
      Some (if Registrations.closed s
            then Registrations.mk true (Registrations.recorders s) (Registrations.stopping s) (S k)
                   (Registrations.signal s) (Registrations.log s ++ [DisabledRecorder k])
            else Registrations.mk false (Registrations.recorders s ++ [(k, watches)]) (Registrations.stopping s) (S k)
                   (Registrations.signal s) (Registrations.log s))
  | Signal b =>
      Some (Registrations.mk (Registrations.closed s) (Registrations.recorders s) (Registrations.stopping s)
              (Registrations.registered s) b (Registrations.log s))
  | MonitorRuns taken i =>
      match (if taken then Registrations.stopping s else Registrations.recorders s) !! i with
      | Some (k, true) =>
          if signalled (Registrations.signal s)
          then
            let update := λ (here : bool) l, if here then <[i := (k, false)]> l else l in
            Some (Registrations.mk (Registrations.closed s) (update (negb taken) (Registrations.recorders s))
                    (update taken (Registrations.stopping s)) (Registrations.registered s) (Registrations.signal s)
                    (Registrations.log s ++ [DisabledRecorder k]))
          else None
      | _ => None
      end
  | StopBegins =>
      Some (Registrations.mk true [] (Registrations.stopping s ++ Registrations.recorders s) (Registrations.registered s)
              (Registrations.signal s) (Registrations.log s ++ [ClosedRegistrations]))
  | StopNext =>
      match Registrations.stopping s with
      | (k, _) :: l => Some (Registrations.mk (Registrations.closed s) (Registrations.recorders s) l
                               (Registrations.registered s) (Registrations.signal s)
                               (Registrations.log s ++ [DisabledRecorder k]))
      | [] => None
      end
  | Enable k =>
      if (k <? Registrations.registered s)%nat
      then Some (Registrations.mk (Registrations.closed s) (Registrations.recorders s) (Registrations.stopping s)
                   (Registrations.registered s) (Registrations.signal s) (Registrations.log s ++ [EnabledRecorder k]))
      else None
  end.

Fixpoint run_registrations (s : Registrations.t) (evs : list registration_event) : option Registrations.t :=
  match evs with
  | [] => Some s
  | e :: evs => match happens s e with Some s => run_registrations s evs | None => None end
  end.

Definition no_registrations : Registrations.t := Registrations.mk false [] [] 0 (Some true) [].

(** Whether a recorder records after what has happened; it was on when it was
    registered. *)
Definition after_notice (k : nat) (b : bool) (n : notice) : bool :=
  match n with
  | DisabledRecorder k' => if bool_decide (k' = k) then false else b
  | EnabledRecorder k' => if bool_decide (k' = k) then true else b
  | ClosedRegistrations => b
  end.

Definition records (k : nat) (log : list notice) : bool := foldl (after_notice k) true log.

(** ** Every recorder is somewhere *)

(** A recorder was turned off after the registrations had been closed. *)
Definition off_at_end (k : nat) (log : list notice) : Prop :=
  ∃ l1 l2, log = l1 ++ ClosedRegistrations :: l2 ∧ DisabledRecorder k ∈ l2.

Record registrations_ok (s : Registrations.t) : Prop := {
  ro_open : Registrations.closed s = false → Registrations.stopping s = [] ∧
    ∀ k, (k < Registrations.registered s)%nat → k ∈ map fst (Registrations.recorders s);
  ro_closed : Registrations.closed s = true → Registrations.recorders s = [] ∧
    ClosedRegistrations ∈ Registrations.log s ∧
    ∀ k, (k < Registrations.registered s)%nat →
      k ∈ map fst (Registrations.stopping s) ∨ off_at_end k (Registrations.log s) }.

Lemma off_at_end_more k log n : off_at_end k log → off_at_end k (log ++ [n]).
Proof.
  intros (l1 & l2 & -> & Hk). exists l1, (l2 ++ [n]). rewrite <- app_assoc. split; [done|]. apply elem_of_app. by left.
Qed.

Lemma off_at_end_now k log : ClosedRegistrations ∈ log → off_at_end k (log ++ [DisabledRecorder k]).
Proof.
  intros (l1 & l2 & ->)%list_elem_of_split. exists l1, (l2 ++ [DisabledRecorder k]). rewrite <- app_assoc.
  split; [done|]. apply elem_of_app. right. by left.
Qed.

Lemma insert_fst (l : list (nat * bool)) i k b b' : l !! i = Some (k, b) → map fst (<[i := (k, b')]> l) = map fst l.
Proof.
  intros Hi. change (map fst) with (fmap (M:=list) (fst (A:=nat) (B:=bool))). rewrite list_fmap_insert. cbn.
  apply list_insert_id. by rewrite list_lookup_fmap, Hi.
Qed.

Lemma happens_ok s e s' : registrations_ok s → happens s e = Some s' → registrations_ok s'.
Proof.
  intros [Hopen Hclosed]. destruct s as [closed recorders stopping registered signal log].
  cbn [Registrations.closed Registrations.recorders Registrations.stopping Registrations.registered Registrations.log] in *.
  assert (∀ n, closed = true → ∀ k, (k < registered)%nat →
    k ∈ map fst stopping ∨ off_at_end k (log ++ [n])) as Hmore.
  { intros n Hc k Hk. destruct (Hclosed Hc) as (_ & _ & Hall). destruct (Hall k Hk); [by left|right].
    by apply off_at_end_more. }
  destruct e as [watches|b|taken i| | |k]; cbn [happens Registrations.closed Registrations.recorders
    Registrations.stopping Registrations.registered Registrations.signal Registrations.log].
  - destruct closed; intros [= <-]; split; cbn; try done.
    + intros _. destruct (Hclosed eq_refl) as (Hr & Hin & Hall). split; [done|]. split; [apply elem_of_app; by left|].
      intros k Hk. destruct (decide (k = registered)) as [->|Hne]; [right; by apply off_at_end_now|].
      apply Hmore; [done|lia].
    + intros _. destruct (Hopen eq_refl) as [-> Hall]. split; [done|]. intros k Hk. rewrite map_app. apply elem_of_app.
      destruct (decide (k = registered)) as [->|Hne]; [right; by left|left; apply Hall; lia].
  - intros [= <-]. by split.
  - destruct ((if taken then stopping else recorders) !! i) as [[k [|]]|] eqn:Ei; [|done..].
    destruct (signalled signal); [|done]. intros [= <-]. split; cbn.
    + intros Hc. destruct (Hopen Hc) as [-> Hall]. destruct taken; [done|]. cbn.
      split; [done|]. by rewrite (insert_fst _ _ _ _ _ Ei).
    + intros Hc. destruct (Hclosed Hc) as (-> & Hin & Hall). destruct taken; [|done]. cbn.
      split; [done|]. split; [apply elem_of_app; by left|]. rewrite (insert_fst _ _ _ _ _ Ei). by apply Hmore.
  - intros [= <-]. split; cbn; [done|]. intros _. split; [done|]. split; [apply elem_of_app; right; by left|].
    intros k Hk. destruct closed.
    + destruct (Hclosed eq_refl) as (-> & _ & _). rewrite app_nil_r. by apply Hmore.
    + destruct (Hopen eq_refl) as [-> Hall]. left. cbn. by apply Hall.
  - destruct stopping as [|[k b] l]; [done|]. intros [= <-]. split; cbn.
    + intros Hc. by destruct (Hopen Hc).
    + intros Hc. destruct (Hclosed Hc) as (-> & Hin & _). split; [done|]. split; [apply elem_of_app; by left|].
      intros k' Hk'. destruct (Hmore (DisabledRecorder k) Hc k' Hk') as [Hin'|?]; [|by right]. cbn in Hin'.
      apply elem_of_cons in Hin' as [->|?]; [right; by apply off_at_end_now|by left].
  - destruct (k <? registered)%nat; [|done]. intros [= <-]. split; cbn; [exact Hopen|]. intros Hc.
    destruct (Hclosed Hc) as (-> & Hin & _). split; [done|]. split; [apply elem_of_app; by left|]. by apply Hmore.
Qed.

Lemma run_registrations_ok s evs s' :
  registrations_ok s → run_registrations s evs = Some s' → registrations_ok s'.
Proof.
  revert s. induction evs as [|e evs IH]; intros s Hs; cbn; [by intros [= <-]|].
  destruct (happens s e) as [s1|] eqn:E; [|done]. by eapply IH, happens_ok.
Qed.

Lemma records_off k l : DisabledRecorder k ∈ l → EnabledRecorder k ∉ l → ∀ b, foldl (after_notice k) b l = false.
Proof.
  intros Hd He. assert (∀ l, EnabledRecorder k ∉ l → foldl (after_notice k) false l = false) as Hstays.
  { clear. induction l as [|n l IH]; [done|]. intros Hl. cbn [foldl]. rewrite not_elem_of_cons in Hl. destruct Hl as [Hn Hl].
    assert (after_notice k false n = false) as ->; [|by apply IH].
    destruct n as [k'|k'|]; cbn; [by destruct (bool_decide (k' = k))|by rewrite (bool_decide_false (k' = k)) by congruence|done]. }
  induction l as [|n l IH]; [by apply elem_of_nil in Hd|]. intros b. cbn [foldl].
  rewrite not_elem_of_cons in He. destruct He as [_ He]. apply elem_of_cons in Hd as [<-|Hd]; [|by apply IH].
  cbn. rewrite (bool_decide_true (k = k)) by done. by apply Hstays.
Qed.

(** ** Main property *)

(** Sampling never leaves a recorder on: once the session has ended,
    however registrations, the tasks that watch the signal and the end of the
    session interleaved, every recorder that was ever registered - also during
    or after the end - was turned off after the end had begun, so that it
    records only if the application has turned it on again since. *)
Theorem recorders_turned_off evs s k :
  run_registrations no_registrations evs = Some s →
  Registrations.closed s = true → Registrations.stopping s = [] → (k < Registrations.registered s)%nat →
  ∃ l1 l2, Registrations.log s = l1 ++ ClosedRegistrations :: l2 ∧ DisabledRecorder k ∈ l2 ∧
    (EnabledRecorder k ∉ l2 → records k (Registrations.log s) = false).
Proof.
  intros Hr Hc Hs Hk. apply run_registrations_ok in Hr; [|split; cbn; try done; split; [done|lia]].
  destruct (ro_closed _ Hr Hc) as (_ & _ & Hall). rewrite Hs in Hall.
  destruct (Hall k Hk) as [Hin%elem_of_nil|(l1 & l2 & El & Hin)]; [done|]. exists l1, l2. split; [done|]. split; [done|].
  intros He. rewrite El. unfold records. rewrite foldl_app. cbn. by apply records_off.
Qed.

(** Two recorders; the task of the first turns it off, the application turns it
    on again; a third is registered while the session ends. *)
Definition example_registrations : list registration_event :=
  [Register true; Register false; Signal (Some false); MonitorRuns false 0; Enable 0; StopBegins; Register true;
   StopNext; StopNext].

Lemma recorders_turned_off_witness :
  match run_registrations no_registrations example_registrations with
  | Some s => ∃ l1 l2, Registrations.log s = l1 ++ ClosedRegistrations :: l2 ∧ DisabledRecorder 0 ∈ l2 ∧
      (EnabledRecorder 0 ∉ l2 → records 0 (Registrations.log s) = false)
  | None => False
  end.
Proof.
  destruct (run_registrations no_registrations example_registrations) as [s|] eqn:E; [|vm_compute in E; discriminate].
  pose proof E as E'. vm_compute in E'. injection E' as Es.
  apply (recorders_turned_off example_registrations s 0 E); rewrite <- Es; [reflexivity|reflexivity|cbn; lia].
Defined.
