(* ===== verification/Unwind.v ===== *)
(** * The frame-pointer unwinder (perf-self-profile/src/sys/linux/fp_profiler/unwind.rs, unwinder.rs)

    A signal handler walks the chain of saved frame pointers of the stack it
    interrupted.  Nothing about that stack is trusted: the walk reads memory
    through a load that survives faults, and stops at the first frame that is
    not plausible.  This file models the walk and the capture of the caller's
    own frame, and proves the walk against the chain it is meant to follow. *)

From Stdlib Require Import ZArith Lia.
From stdpp Require Import base list gmap sorting.
From coqutil Require Import Byte.
From S2P Require Import Prelude.

Definition MAX_FRAMES : nat := 128.
Definition DEAD_ZONE : Z := 0x1000.
Definition MAX_FRAME_SIZE : Z := 0x40000.
Definition SAFE_LOAD_FAULT : Z := 0.
Definition USIZE_MAX : Z := 2 ^ 64 - 1.

(** [size_of::<usize>()]. *)
Definition WORD : Z := 8.

(** The two targets the crate compiles for. *)
Inductive target : Set := x86_64 | aarch64.

Definition strip_pac (arch : target) (addr : Z) : Z :=
  match arch with
  | x86_64 => addr
  | aarch64 => Z.land addr 0x0000FFFFFFFFFFFF
  end.

(** The memory a walk can see: the words that can be read. *)
Definition memory : Type := gmap Z Z.

(** [safe_load]: the word at [p], or [SAFE_LOAD_FAULT] when reading it faults. *)
Definition load (mem : memory) (p : Z) : Z := default SAFE_LOAD_FAULT (mem !! p).

Module CaptureResult.
Record t : Type := mk { frames_written : nat; truncated : bool }.
End CaptureResult.

(** [(DEAD_ZONE..=usize::MAX - DEAD_ZONE).contains(&ret_addr)]. *)
Definition plausible_return (ret_addr : Z) : bool :=
  (DEAD_ZONE <=? ret_addr) && (ret_addr <=? USIZE_MAX - DEAD_ZONE).

(** One turn of the loop of [unwind] behind its writes: either the walk ends,
    or there is a next frame. *)
Inductive turn_end : Set := Natural | Frame (saved_fp ret_addr : Z).

Definition examine (arch : target) (mem : memory) (stack_lo stack_hi fp : Z) : turn_end :=
  if (fp <? stack_lo) || (stack_hi <=? fp) then Natural
  else if negb (Z.land fp (WORD - 1) =? 0) then Natural
  else
    let saved_fp := load mem fp in
    if saved_fp =? SAFE_LOAD_FAULT then Natural
    else
      let ret_addr := strip_pac arch (load mem (wrapping_add 64 fp WORD)) in
      if ret_addr =? SAFE_LOAD_FAULT then Natural
      else if negb (plausible_return ret_addr) then Natural
      else if (saved_fp <=? fp) || (MAX_FRAME_SIZE <? saved_fp - fp) then Natural
      else Frame saved_fp ret_addr.

(** The loop of [unwind]: [n] frames are in [out]. *)
Fixpoint walk (fuel : nat) (arch : target) (mem : memory) (stack_lo stack_hi : Z) (limit n : nat)
    (fp : Z) (out : list Z) : option (CaptureResult.t * list Z) :=
  match fuel with
  | O => None
  | S fuel =>
      match examine arch mem stack_lo stack_hi fp with
      | Natural => Some (CaptureResult.mk n false, out)
      | Frame saved_fp ret_addr =>
          if (limit <=? n)%nat then Some (CaptureResult.mk n true, out)
          else walk fuel arch mem stack_lo stack_hi limit (S n) saved_fp (<[n := ret_addr]> out)
      end
  end.

(** [out] is the caller's slice: a write past its end panics, which the bound
    [limit] excludes. *)
Definition unwind (arch : target) (mem : memory) (pc fp sp : Z) (out : list Z) :
    option (CaptureResult.t * list Z) :=
  let limit := (length out `min` MAX_FRAMES)%nat in
  if (limit =? 0)%nat then Some (CaptureResult.mk 0 true, out)
  else
    let stack_hi := saturating_add 64 sp (8 * 1024 * 1024) in
    walk (S limit) arch mem sp stack_hi limit 1 fp (<[0%nat := pc]> out).

(** [read_frame_record]: the return address of the current frame and the
    caller's frame pointer, zero when it is unusable. *)
Definition read_frame_record (arch : target) (mem : memory) (fp sp : Z) : option (Z * Z * Z) :=
  if (fp <? sp) || (MAX_FRAME_SIZE <? fp - sp) || negb (Z.land fp (WORD - 1) =? 0) then None
  else
    ret_addr_slot ← checked_add 64 fp WORD;
    let ret_addr := strip_pac arch (load mem ret_addr_slot) in
    if (ret_addr =? SAFE_LOAD_FAULT) || negb (plausible_return ret_addr) then None
    else
      let caller_fp := load mem fp in
      let caller_fp :=
        if negb (caller_fp =? SAFE_LOAD_FAULT) && (fp <? caller_fp) &&
           (caller_fp - fp <=? MAX_FRAME_SIZE)
        then caller_fp else 0 in
      Some (ret_addr, caller_fp, sp).

(** [platform::capture]: [fp] and [sp] are the registers it reads. *)
Definition capture (arch : target) (mem : memory) (fp sp : Z) (out : list Z) :
    option (CaptureResult.t * list Z) :=
  match read_frame_record arch mem fp sp with
  | None => Some (CaptureResult.mk 0 false, out)
  | Some (pc, fp, sp) => unwind arch mem pc fp sp out
  end.

(** ** The chain of frames

    What the walk is meant to follow: from a frame pointer to the next, as long
    as the frame is aligned, readable, inside the stack's window, returns to a
    plausible address and points further up the stack, but not too far. *)
Section chain.
Context (arch : target) (mem : memory) (lo hi : Z).

Record link (fp fp' ra : Z) : Prop := {
  link_window : lo <= fp < hi;
  link_aligned : Z.land fp 7 = 0;
  link_saved : load mem fp = fp';
  link_return : strip_pac arch (load mem (wrapping_add 64 fp WORD)) = ra;
  link_plausible : DEAD_ZONE <= ra <= USIZE_MAX - DEAD_ZONE;
  link_up : fp < fp' <= fp + MAX_FRAME_SIZE }.

(** The frames from [fp] outwards, each with its frame pointer and its return
    address, up to the first that is no frame. *)
Inductive chain : Z → list (Z * Z) → Prop :=
| chain_end fp : (∀ fp' ra, ~ link fp fp' ra) → chain fp []
| chain_more fp fp' ra l : link fp fp' ra → chain fp' l → chain fp ((fp, ra) :: l).

Lemma examine_frame fp fp' ra :
  0 <= lo → examine arch mem lo hi fp = Frame fp' ra ↔ link fp fp' ra.
Proof.
  intros Hlo. unfold examine, plausible_return, SAFE_LOAD_FAULT. change (WORD - 1) with 7. split.
  - intros He. repeat (case_match; [done|]). injection He as <- <-. bool_facts. constructor; (done || lia).
  - intros [Hw Ha Hs Hr Hp Hu]. rewrite Hs, Hr, Ha. cbn [Z.eqb negb].
    unfold DEAD_ZONE, USIZE_MAX in *. split_tests; (done || lia).
Qed.

Lemma examine_natural fp :
  0 <= lo → examine arch mem lo hi fp = Natural ↔ ∀ fp' ra, ~ link fp fp' ra.
Proof.
  intros Hlo. split.
  - intros He fp' ra Hl. apply examine_frame in Hl; [congruence|done].
  - intros Hn. destruct (examine arch mem lo hi fp) as [|fp' ra] eqn:He; [done|].
    destruct (Hn fp' ra). by apply examine_frame.
Qed.

(** The chain is finite, and there is one. *)
Lemma chain_exists fp : 0 <= lo → ∃ l, chain fp l.
Proof.
  intros Hlo. remember (Z.to_nat (hi - fp)) as d eqn:Hd. revert fp Hd.
  induction d as [d IH] using lt_wf_ind. intros fp ->.
  destruct (examine arch mem lo hi fp) as [|fp' ra] eqn:He.
  - exists []. constructor. by apply examine_natural.
  - apply examine_frame in He; [|done]. pose proof He as [Hw _ _ _ _ Hu].
    destruct (IH (Z.to_nat (hi - fp')) ltac:(lia) fp' eq_refl) as [l Hl].
    exists ((fp, ra) :: l). by econstructor.
Qed.

Lemma link_unique fp a b x y : link fp a x → link fp b y → a = b ∧ x = y.
Proof. intros [] []; subst; done. Qed.

Lemma chain_unique fp l k : chain fp l → chain fp k → l = k.
Proof.
  intros Hl. revert k. induction Hl as [fp Hn|fp fp' ra l Hk _ IH]; intros k Hc; inv Hc.
  - done.
  - by edestruct Hn.
  - edestruct H; eauto.
  - destruct (link_unique _ _ _ _ _ Hk H) as [<- <-]. f_equal. by apply IH.
Qed.

(** Every frame of a chain lies in the window, aligned, above the one before. *)
Lemma chain_frames fp l :
  chain fp l →
  Forall (λ f, fp <= fst f ∧ lo <= fst f < hi ∧ Z.land (fst f) 7 = 0 ∧
               DEAD_ZONE <= snd f <= USIZE_MAX - DEAD_ZONE) l ∧
  StronglySorted Z.lt (fst <$> l).
Proof.
  induction 1 as [|fp fp' ra l Hk Hc [IH Hs]]; cbn; [by split; constructor|].
  destruct Hk as [Hw Ha _ _ Hp Hu]. split.
  - constructor; cbn; [lia|]. eapply list.Forall_impl; [exact IH|]. cbn. intros f Hf. lia.
  - constructor; [done|]. rewrite list.Forall_fmap. eapply list.Forall_impl; [exact IH|].
    cbn. intros f Hf. lia.
Qed.

(** The walk from [fp] appends the chain, as far as there is room. *)
Lemma walk_chain fp l : 0 <= lo → chain fp l → ∀ fuel limit n out,
  (n <= limit < n + fuel)%nat → (limit <= length out)%nat →
  walk fuel arch mem lo hi limit n fp out =
  Some (CaptureResult.mk ((n + length l) `min` limit) (bool_decide (limit < n + length l)%nat),
        list_inserts n (take (limit - n) (snd <$> l)) out).
Proof.
  intros Hlo. induction 1 as [fp Hn|fp fp' ra l Hk Hc IH]; intros fuel limit n out Hf Ho.
  - destruct fuel as [|fuel]; [lia|]. cbn [walk].
    rewrite (proj2 (examine_natural fp Hlo) Hn). cbn [length fmap list_fmap].
    rewrite take_nil, bool_decide_false by lia. cbn. do 3 f_equal. lia.
  - destruct fuel as [|fuel]; [lia|]. cbn [walk].
    rewrite (proj2 (examine_frame fp fp' ra Hlo) Hk). cbn [length fmap list_fmap].
    destruct (Nat.leb_spec limit n) as [Hle|Hlt].
    + replace (limit - n)%nat with 0%nat by lia. cbn. rewrite bool_decide_true by lia.
      do 3 f_equal. lia.
    + rewrite IH; [|lia|by rewrite length_insert].
      replace (limit - n)%nat with (S (limit - S n)) by lia. cbn [take list_inserts snd].
      rewrite list_insert_inserts_lt by lia.
      do 3 f_equal; [lia|]. apply bool_decide_ext. lia.
Qed.
End chain.

Lemma list_inserts_head {A} (ks l : list A) :
  (length ks <= length l)%nat → list_inserts 0 ks l = ks ++ drop (length ks) l.
Proof.
  revert l. induction ks as [|k ks IH]; intros [|x l] Hl; cbn in *; try done; [lia|].
  rewrite list_inserts_cons. cbn. f_equal. apply IH. lia.
Qed.

(** What [unwind] leaves in its buffer: as many frames as fit. *)
Definition kept (out : list Z) (frames : list Z) : list Z :=
  take (length out `min` MAX_FRAMES) frames.

Lemma length_kept out frames :
  length (kept out frames) = (length out `min` MAX_FRAMES `min` length frames)%nat.
Proof. apply length_take. Qed.

(** The top of the window of [unwind]. *)
Abbreviation window_top sp := (saturating_add 64 sp (8 * 1024 * 1024)).

Lemma unwind_chain arch mem pc fp sp out l :
  0 <= sp → chain arch mem sp (window_top sp) fp l →
  let frames := kept out (pc :: (snd <$> l)) in
  unwind arch mem pc fp sp out =
  Some (CaptureResult.mk (length frames) (bool_decide (length frames < S (length l))%nat),
        frames ++ drop (length frames) out).
Proof.
  intros Hsp Hl frames. unfold unwind. set (limit := (length out `min` MAX_FRAMES)%nat).
  destruct (Nat.eqb_spec limit 0) as [H0|H0].
  - subst frames. unfold kept. fold limit. by rewrite H0.
  - assert (limit <= length out)%nat by (subst limit; lia).
    rewrite (walk_chain _ _ _ _ _ _ Hsp Hl) by (rewrite ?length_insert; lia).
    assert (length frames = (S (length l) `min` limit)%nat) as Hlen.
    { subst frames. rewrite length_kept. cbn [length]. rewrite length_fmap. fold limit. lia. }
    rewrite Hlen, <- list_insert_inserts_lt by lia.
    change (<[0%nat:=pc]> (list_inserts 1 ?ks out)) with (list_inserts 0 (pc :: ks) out).
    rewrite list_inserts_head by (cbn; rewrite length_take, length_fmap; lia).
    assert (frames = pc :: take (limit - 1) (snd <$> l)) as ->.
    { subst frames. unfold kept. fold limit. destruct limit; [done|]. cbn. by rewrite Nat.sub_0_r. }
    f_equal. f_equal.
    + f_equal. apply bool_decide_ext. lia.
    + f_equal. f_equal. cbn [length]. rewrite length_take, length_fmap. lia.
Qed.

(** C20: The walk always returns, and what it captures is the interrupted
    program counter and then the frames of the one maximal chain of plausible
    frames behind the frame pointer, as many as fit the buffer and the cap of
    128; the rest of the buffer is untouched, [frames_written] is exact, and
    [truncated] says exactly whether frames were left out.  Every frame visited
    lies aligned inside the 8 MiB above the stack pointer, each above the one
    before it, whatever the memory holds. *)
Theorem unwind_follows_chain arch mem pc fp sp out :
  0 <= sp →
  ∃ l, (∀ l', chain arch mem sp (window_top sp) fp l' ↔ l' = l) ∧
    let frames := kept out (pc :: (snd <$> l)) in
    unwind arch mem pc fp sp out =
      Some (CaptureResult.mk (length frames) (bool_decide (length frames < S (length l))%nat),
            frames ++ drop (length frames) out) ∧
    Forall (λ f, sp <= fst f < window_top sp ∧ Z.land (fst f) 7 = 0) l ∧
    StronglySorted Z.lt (fst <$> l).
Proof.
  intros Hsp. destruct (chain_exists arch mem sp (window_top sp) fp Hsp) as [l Hl].
  exists l. split; [|cbn zeta; split_and!].
  - intros l'. split; [|by intros ->]. intros Hl'. by eapply chain_unique.
  - by apply unwind_chain.
  - eapply list.Forall_impl; [apply (chain_frames _ _ _ _ _ _ Hl)|]. cbn. tauto.
  - apply (chain_frames _ _ _ _ _ _ Hl).
Qed.

(** The record [read_frame_record] accepts. *)
Definition record_ok (arch : target) (mem : memory) (fp sp : Z) : Prop :=
  sp <= fp <= sp + MAX_FRAME_SIZE ∧ Z.land fp 7 = 0 ∧ fp + WORD < 2 ^ 64 ∧
  DEAD_ZONE <= strip_pac arch (load mem (fp + WORD)) <= USIZE_MAX - DEAD_ZONE.

(** The caller's frame pointer can be followed. *)
Definition caller_ok (mem : memory) (fp : Z) : Prop :=
  fp < load mem fp <= fp + MAX_FRAME_SIZE.

#[global] Instance record_ok_dec arch mem fp sp : Decision (record_ok arch mem fp sp).
Proof. unfold record_ok. apply _. Defined.

#[global] Instance caller_ok_dec mem fp : Decision (caller_ok mem fp).
Proof. unfold caller_ok. apply _. Defined.

Lemma read_frame_record_spec arch mem fp sp :
  0 <= sp →
  read_frame_record arch mem fp sp =
  if decide (record_ok arch mem fp sp)
  then Some (strip_pac arch (load mem (fp + WORD)),
             if decide (caller_ok mem fp) then load mem fp else 0, sp)
  else None.
Proof.
  intros Hsp. unfold read_frame_record, record_ok, caller_ok, checked_add, plausible_return.
  change (WORD - 1) with 7. unfold SAFE_LOAD_FAULT, WORD, DEAD_ZONE, USIZE_MAX, MAX_FRAME_SIZE.
  repeat case_decide; cbn; repeat (split_tests; cbn; try done); try lia.
Qed.

(** A capture of the calling thread returns no frame exactly when its own
    frame record is not plausible; otherwise frame 0 is the return address of
    that record, followed by the chain behind the caller's frame pointer, or by
    nothing when only that pointer is unusable. *)
Theorem capture_degrades arch mem fp sp out :
  0 < sp →
  capture arch mem fp sp out =
    if decide (record_ok arch mem fp sp) then
      let pc := strip_pac arch (load mem (fp + WORD)) in
      if decide (caller_ok mem fp) then unwind arch mem pc (load mem fp) sp out
      else Some (CaptureResult.mk (1 `min` length out) (bool_decide (out = [])),
                 kept out [pc] ++ drop 1 out)
    else Some (CaptureResult.mk 0 false, out).
Proof.
  intros Hsp. unfold capture. rewrite read_frame_record_spec by lia.
  case_decide; [|done]. cbn zeta. case_decide; [done|].
  rewrite (unwind_chain _ _ _ _ _ _ []); [|lia|].
  - cbn [fmap list_fmap length]. rewrite length_kept. cbn [length].
    destruct out as [|x out]; [done|]. cbn [length]. unfold MAX_FRAMES.
    replace (S (length out) `min` 128 `min` 1)%nat with 1%nat by lia.
    replace (1 `min` S (length out))%nat with 1%nat by lia.
    done.
  - constructor. intros fp' ra [Hw]. lia.
Qed.

(** A stack of two frames, the outer one looping on itself. *)
Definition example_stack : memory :=
  list_to_map [(0x7010, 0x7030); (0x7018, 0x401234); (0x7030, 0x7050); (0x7038, 0x401300);
               (0x7050, 0x7050); (0x7058, 0x401400)].

Lemma unwind_follows_chain_witness :
  0 <= 0x7000 ∧
  unwind x86_64 example_stack 0x401000 0x7010 0x7000 (repeat 0 2) =
    Some (CaptureResult.mk 2 true, [0x401000; 0x401234]) ∧
  ∃ l, chain x86_64 example_stack 0x7000 (window_top 0x7000) 0x7010 l ∧
    bool_decide (2 < S (length l))%nat = true.
Proof.
  destruct (unwind_follows_chain x86_64 example_stack 0x401000 0x7010 0x7000 (repeat 0 2))
    as (l & Hc & Hu & _); [lia|].
  assert (unwind x86_64 example_stack 0x401000 0x7010 0x7000 (repeat 0 2) =
    Some (CaptureResult.mk 2 true, [0x401000; 0x401234])) as Hr by (vm_compute; reflexivity).
  split; [lia|]. split; [exact Hr|]. exists l. split; [by apply Hc|].
  rewrite Hr in Hu. injection Hu as Hn Ht _. by rewrite <- Hn in Ht.
Defined.

Lemma capture_degrades_witness :
  0 < 0x7000 ∧
  capture x86_64 example_stack 0x7010 0x7000 (repeat 0 3) =
    Some (CaptureResult.mk 2 false, [0x401234; 0x401300; 0]) ∧
  capture x86_64 example_stack 0x7050 0x7000 (repeat 0 3) =
    Some (CaptureResult.mk 1 false, [0x401400; 0; 0]) ∧
  capture x86_64 example_stack 0x7011 0x7000 (repeat 0 3) =
    Some (CaptureResult.mk 0 false, [0; 0; 0]).
Proof.
  split_and!; [lia|..]; rewrite (capture_degrades x86_64 example_stack _ 0x7000) by lia;
    vm_compute; reflexivity.
Defined.
