(* ===== verification/SampleBuffer.v ===== *)
(** * The ring of profiler samples (perf-self-profile/src/sys/linux/fp_profiler/sample_buffer.rs)

    Signal handlers of any number of threads claim slots of a fixed ring and
    fill them; one thread drains it.  No lock is taken: a slot carries a
    sequence number that says whose turn it is.  Here every atomic operation of
    the code is one step, the threads interleave freely over one
    sequentially consistent memory, and the counters are 64-bit integers. *)

From Stdlib Require Import ZArith Lia.
From stdpp Require Import base list gmap relations.
From coqutil Require Import Byte.
From S2P Require Import Prelude.
From S2P Require Import Unwind.

Definition BUFFER_CAP : Z := 4096.
Definition MAX_ATTEMPTS : nat := 128.

(** The payload of a slot; a [DrainedSample] is a copy of its fields. *)
Module SampleData.
Record t : Type := mk {
  pid : Z; tid : Z; time : Z; cpu : option Z; period : Z; num_frames : Z; frames : list Z }.
End SampleData.

Module SampleSlot.
Record t : Type := mk { seq : Z; data : SampleData.t }.

Definition new (initial_seq : Z) : t :=
  mk initial_seq (SampleData.mk 0 0 0 None 0 0 (repeat 0 MAX_FRAMES)).
End SampleSlot.

#[global] Instance slot_inhabited : Inhabited SampleSlot.t := populate (SampleSlot.new 0).

Definition make_slots : list SampleSlot.t :=
  (λ i, SampleSlot.new (Z.of_nat i)) <$> seq 0 (Z.to_nat BUFFER_CAP).

Module SampleBuffer.
Record t : Type := mk { slots : list SampleSlot.t; tail : Z; head : Z; dropped : Z }.
End SampleBuffer.

(** [BUFFER]. *)
Definition buffer_start : SampleBuffer.t := SampleBuffer.mk make_slots 0 0 0.

Module SlotWriter.
Record t : Type := mk { slot : nat; ticket : Z; committed : bool }.
End SlotWriter.

(** [ticket % BUFFER_CAP]. *)
Definition slot_index (ticket : Z) : nat := Z.to_nat (ticket mod BUFFER_CAP).

Definition slot_of (b : SampleBuffer.t) (ticket : Z) : SampleSlot.t :=
  SampleBuffer.slots b !!! slot_index ticket.

Definition set_tail (tail : Z) (b : SampleBuffer.t) : SampleBuffer.t :=
  SampleBuffer.mk (SampleBuffer.slots b) tail (SampleBuffer.head b) (SampleBuffer.dropped b).

Definition set_head (head : Z) (b : SampleBuffer.t) : SampleBuffer.t :=
  SampleBuffer.mk (SampleBuffer.slots b) (SampleBuffer.tail b) head (SampleBuffer.dropped b).

Definition set_dropped (dropped : Z) (b : SampleBuffer.t) : SampleBuffer.t :=
  SampleBuffer.mk (SampleBuffer.slots b) (SampleBuffer.tail b) (SampleBuffer.head b) dropped.

Definition on_slot (f : SampleSlot.t → SampleSlot.t) (i : nat) (b : SampleBuffer.t) : SampleBuffer.t :=
  SampleBuffer.mk (alter f i (SampleBuffer.slots b)) (SampleBuffer.tail b) (SampleBuffer.head b)
    (SampleBuffer.dropped b).

(** [slot.seq.store(v)], and the writes to a slot's data. *)
Definition store_seq (v : Z) : nat → SampleBuffer.t → SampleBuffer.t :=
  on_slot (λ s, SampleSlot.mk v (SampleSlot.data s)).

Definition on_data (f : SampleData.t → SampleData.t) : nat → SampleBuffer.t → SampleBuffer.t :=
  on_slot (λ s, SampleSlot.mk (SampleSlot.seq s) (f (SampleSlot.data s))).

(** [SlotWriter::write], a write through [frames_mut], [set_num_frames], and
    the reset of a writer that is dropped. *)
Definition write (pid tid time : Z) (cpu : option Z) (period : Z) (d : SampleData.t) : SampleData.t :=
  SampleData.mk pid tid time cpu period (SampleData.num_frames d) (SampleData.frames d).

Definition write_frame (i : nat) (pc : Z) (d : SampleData.t) : SampleData.t :=
  SampleData.mk (SampleData.pid d) (SampleData.tid d) (SampleData.time d) (SampleData.cpu d)
    (SampleData.period d) (SampleData.num_frames d) (<[i := pc]> (SampleData.frames d)).

Definition set_num_frames (count : Z) (d : SampleData.t) : SampleData.t :=
  SampleData.mk (SampleData.pid d) (SampleData.tid d) (SampleData.time d) (SampleData.cpu d)
    (SampleData.period d) (Z.min count (Z.of_nat MAX_FRAMES)) (SampleData.frames d).

Definition abandon (d : SampleData.t) : SampleData.t :=
  SampleData.mk 0 0 0 None 0 0 (SampleData.frames d).

(** ** The threads *)

Inductive drop_reason : Set := Full | Exhausted.

(** Where a producer is: outside; in [claim_slot], about to load the [seq] of
    the slot of [ticket], to exchange [tail], to load [tail] anew, or to count
    the sample as dropped; holding a writer, or about to publish its slot. *)
Inductive producer : Type :=
| Outside
| Try (attempt : nat) (ticket : Z)
| Cas (attempt : nat) (ticket : Z)
| Reload (attempt : nat)
| Dropping (reason : drop_reason)
| Writing (w : SlotWriter.t)
| Publishing (w : SlotWriter.t).

(** Where the drain thread is: outside [drain], or with its local [head] about
    to load a [seq], to copy the data, to release the slot, to call [f] with the
    sample, or to store [head]. *)
Inductive drainer : Type :=
| Idle
| Look (head : Z)
| Copy (head : Z)
| Release (head : Z) (sample : SampleData.t)
| Deliver (head : Z) (sample : SampleData.t)
| Finish (head : Z).

(** The next round of the loop of [claim_slot], or its end. *)
Definition next_attempt (attempt : nat) (ticket : Z) : producer :=
  if (S attempt <? MAX_ATTEMPTS)%nat then Try (S attempt) ticket else Dropping Exhausted.

(** The round behind the load of [seq]. *)
Definition judge (seq : Z) (attempt : nat) (ticket : Z) : producer :=
  if seq =? ticket then Cas attempt ticket
  else if to_signed 64 (cast 64 (seq - ticket)) <? 0 then Dropping Full
  else Reload attempt.

(** [compare_exchange(ticket, ticket.wrapping_add(1))] on [tail], and what
    follows; [true] when the ticket is claimed. *)
Definition exchange (b : SampleBuffer.t) (attempt : nat) (ticket : Z) :
    bool * SampleBuffer.t * producer :=
  if SampleBuffer.tail b =? ticket
  then (true, set_tail (wrapping_add 64 ticket 1) b,
        Writing (SlotWriter.mk (slot_index ticket) ticket false))
  else (false, b, next_attempt attempt (SampleBuffer.tail b)).

(** The load of [seq] in [drain]. *)
Definition look (b : SampleBuffer.t) (head : Z) : drainer :=
  if SampleSlot.seq (slot_of b head) =? wrapping_add 64 head 1 then Copy head else Finish head.

(** One atomic step of the drain thread inside [drain]; the sample [f] is
    called with. *)
Definition drain_step (b : SampleBuffer.t) (d : drainer) :
    option (SampleBuffer.t * drainer * option SampleData.t) :=
  match d with
  | Idle => None
  | Look head => Some (b, look b head, None)
  | Copy head => Some (b, Release head (SampleSlot.data (slot_of b head)), None)
  | Release head sample =>
      Some (store_seq (wrapping_add 64 head BUFFER_CAP) (slot_index head) b,
            Deliver (wrapping_add 64 head 1) sample, None)
  | Deliver head sample => Some (b, Look head, Some sample)
  | Finish head => Some (set_head head b, Idle, None)
  end.

Definition has_pending (b : SampleBuffer.t) : bool :=
  0 <? to_signed 64 (cast 64 (SampleBuffer.tail b - SampleBuffer.head b)).

(** [take_dropped_count]. *)
Definition take_dropped_count (b : SampleBuffer.t) : Z * SampleBuffer.t :=
  (SampleBuffer.dropped b, set_dropped 0 b).

(** Everything: the ring, the threads, what was handed out so far (the samples
    [drain] delivered, the counts taken), and a history no code reads: how often
    [claim_slot] was called and gave up, for every ticket claimed what was
    published under it, and the first ticket each producer's call saw. *)
Module World.
Record t : Type := mk {
  buffer : SampleBuffer.t;
  producers : gmap nat producer;
  drain : drainer;
  delivered : list SampleData.t;
  taken : list Z;
  calls : nat;
  drops : nat;
  log : list (option SampleData.t);
  entered : gmap nat Z }.
End World.

Definition world_start : World.t := World.mk buffer_start ∅ Idle [] [] 0 0 [] ∅.

Definition pc (w : World.t) (p : nat) : producer := default Outside (World.producers w !! p).

Definition move (b : SampleBuffer.t) (p : nat) (c : producer) (w : World.t) : World.t :=
  World.mk b (<[p := c]> (World.producers w)) (World.drain w) (World.delivered w) (World.taken w)
    (World.calls w) (World.drops w) (World.log w) (World.entered w).

Definition count_call (p : nat) (w : World.t) : World.t :=
  World.mk (World.buffer w) (World.producers w) (World.drain w) (World.delivered w) (World.taken w)
    (S (World.calls w)) (World.drops w) (World.log w)
    (<[p := SampleBuffer.tail (World.buffer w)]> (World.entered w)).

Definition count_drop (w : World.t) : World.t :=
  World.mk (World.buffer w) (World.producers w) (World.drain w) (World.delivered w) (World.taken w)
    (World.calls w) (S (World.drops w)) (World.log w) (World.entered w).

Definition set_log (log : list (option SampleData.t)) (w : World.t) : World.t :=
  World.mk (World.buffer w) (World.producers w) (World.drain w) (World.delivered w) (World.taken w)
    (World.calls w) (World.drops w) log (World.entered w).

Definition move_drain (b : SampleBuffer.t) (d : drainer) (out : option SampleData.t) (w : World.t) :
    World.t :=
  World.mk b (World.producers w) d (World.delivered w ++ option_list out) (World.taken w)
    (World.calls w) (World.drops w) (World.log w) (World.entered w).

Definition set_taken (b : SampleBuffer.t) (n : Z) (w : World.t) : World.t :=
  World.mk b (World.producers w) (World.drain w) (World.delivered w) (World.taken w ++ [n])
    (World.calls w) (World.drops w) (World.log w) (World.entered w).

(** What the owner of a writer does to its slot's data. *)
Inductive change : Type :=
| Fields (pid tid time : Z) (cpu : option Z) (period : Z)
| FrameAt (i : nat) (pc : Z)
| Frames (count : Z).

Definition apply_change (c : change) : SampleData.t → SampleData.t :=
  match c with
  | Fields pid tid time cpu period => write pid tid time cpu period
  | FrameAt i pc => write_frame i pc
  | Frames count => set_num_frames count
  end.

(** What a thread does next.  Inside [claim_slot] and [drain] the next
    operation is determined ([Go], [GoDrain]); a writer is used by its owner. *)
Inductive action : Type :=
| Claim (p : nat)
| Go (p : nat)
| Modify (p : nat) (c : change)
| Commit (p : nat)
| DropWriter (p : nat)
| Drain
| GoDrain
| TakeDropped.

(** One step of [claim_slot], or the publication of a slot. *)
Definition go (w : World.t) (p : nat) : option World.t :=
  let b := World.buffer w in
  match pc w p with
  | Outside | Writing _ => None
  | Try attempt ticket => Some (move b p (judge (SampleSlot.seq (slot_of b ticket)) attempt ticket) w)
  | Cas attempt ticket =>
      let '(won, b, c) := exchange b attempt ticket in
      Some (move b p c (if won : bool then set_log (World.log w ++ [None]) w else w))
  | Reload attempt => Some (move b p (next_attempt attempt (SampleBuffer.tail b)) w)
  | Dropping _ =>
      Some (move (set_dropped (wrapping_add 64 (SampleBuffer.dropped b) 1) b) p Outside (count_drop w))
  | Publishing wr =>
      Some (move (store_seq (wrapping_add 64 (SlotWriter.ticket wr) 1) (SlotWriter.slot wr) b) p Outside
             (set_log (<[Z.to_nat (SlotWriter.ticket wr) :=
                Some (SampleSlot.data (SampleBuffer.slots b !!! SlotWriter.slot wr))]>
                (World.log w)) w))
  end.

(** The end of a writer: [commit], which does not touch the data, or its drop. *)
Definition publish (p : nat) (f : SampleData.t → SampleData.t) (w : World.t) : option World.t :=
  match pc w p with
  | Writing wr =>
      Some (move (on_data f (SlotWriter.slot wr) (World.buffer w)) p
             (Publishing (SlotWriter.mk (SlotWriter.slot wr) (SlotWriter.ticket wr) true)) w)
  | _ => None
  end.

Definition step (w : World.t) (a : action) : option World.t :=
  let b := World.buffer w in
  match a with
  | Claim p =>
      match pc w p with
      | Outside => Some (move b p (Try 0 (SampleBuffer.tail b)) (count_call p w))
      | _ => None
      end
  | Go p => go w p
  | Modify p c =>
      match pc w p with
      | Writing wr => Some (move (on_data (apply_change c) (SlotWriter.slot wr) b) p (Writing wr) w)
      | _ => None
      end
  | Commit p => publish p (λ d, d) w
  | DropWriter p => publish p abandon w
  | Drain =>
      match World.drain w with
      | Idle => Some (move_drain b (Look (SampleBuffer.head b)) None w)
      | _ => None
      end
  | GoDrain =>
      match drain_step b (World.drain w) with
      | Some (b, d, out) => Some (move_drain b d out w)
      | None => None
      end
  | TakeDropped => let '(n, b) := take_dropped_count b in Some (set_taken b n w)
  end.

Fixpoint run (w : World.t) (acts : list action) : option World.t :=
  match acts with
  | [] => Some w
  | a :: acts => w' ← step w a; run w' acts
  end.

(** What the threads can reach. *)
Definition reachable (w : World.t) : Prop := ∃ acts, run world_start acts = Some w.

(** ** The invariant *)

(** The ticket the drain thread is at: every ticket below it is released. *)
Definition released (w : World.t) : Z :=
  match World.drain w with
  | Idle => SampleBuffer.head (World.buffer w)
  | Look h | Copy h | Release h _ | Deliver h _ | Finish h => h
  end.

Definition claimed (w : World.t) : Z := Z.of_nat (length (World.log w)).

(** Far from the wrap-around of the counters: fewer than 2^63 samples. *)
Definition in_range (w : World.t) : Prop :=
  claimed w + BUFFER_CAP < 2 ^ 63 ∧ Z.of_nat (World.drops w) < 2 ^ 64.

Definition entry (log : list (option SampleData.t)) (k : Z) : option (option SampleData.t) :=
  log !! Z.to_nat k.

Definition held (c : producer) : option SlotWriter.t :=
  match c with Writing wr | Publishing wr => Some wr | _ => None end.

Definition claiming (c : producer) : bool :=
  match c with Try _ _ | Cas _ _ | Reload _ | Dropping _ => true | _ => false end.

(** The slot of a ticket the ring is at: held by its writer, published with its
    data, or free for the ticket. *)
Definition slot_ok (b : SampleBuffer.t) (log : list (option SampleData.t)) (k : Z) : Prop :=
  match entry log k with
  | Some (Some d) => slot_of b k = SampleSlot.mk (k + 1) d
  | _ => SampleSlot.seq (slot_of b k) = k
  end.

(** A producer whose call began at ticket [e], when tickets below [T] are
    claimed and those below [H] released. *)
Definition producer_ok (H T : Z) (log : list (option SampleData.t)) (e : Z) (c : producer) : Prop :=
  match c with
  | Outside => True
  | Try i t => (i < MAX_ATTEMPTS)%nat ∧ 0 <= e ∧ e + Z.of_nat i <= t <= T
  | Cas i t => (i < MAX_ATTEMPTS)%nat ∧ 0 <= e ∧ e + Z.of_nat i <= t <= T ∧ t < H + BUFFER_CAP
  | Reload i => (i < MAX_ATTEMPTS)%nat ∧ 0 <= e ∧ e + Z.of_nat i < T
  | Dropping Full => True
  | Dropping Exhausted => e + Z.of_nat MAX_ATTEMPTS <= T
  | Writing wr | Publishing wr =>
      0 <= SlotWriter.ticket wr ∧ SlotWriter.slot wr = slot_index (SlotWriter.ticket wr) ∧
      entry log (SlotWriter.ticket wr) = Some None
  end.

(** How far the callback of [drain] has got. *)
Definition handed (w : World.t) : Z :=
  match World.drain w with Deliver h _ => h - 1 | _ => released w end.

Definition drain_ok (log : list (option SampleData.t)) (d : drainer) : Prop :=
  match d with
  | Idle | Look _ | Finish _ => True
  | Copy h => 0 <= h ∧ ∃ d, entry log h = Some (Some d)
  | Release h d => 0 <= h ∧ entry log h = Some (Some d)
  | Deliver h d => 0 < h ∧ entry log (h - 1) = Some (Some d)
  end.

Record inv (w : World.t) : Prop := {
  inv_slots : length (SampleBuffer.slots (World.buffer w)) = Z.to_nat BUFFER_CAP;
  inv_tail : SampleBuffer.tail (World.buffer w) = claimed w;
  inv_head : 0 <= SampleBuffer.head (World.buffer w) <= released w;
  inv_span : released w <= claimed w <= released w + BUFFER_CAP;
  inv_done k : 0 <= k < released w → ∃ d, entry (World.log w) k = Some (Some d);
  inv_slot k : released w <= k < released w + BUFFER_CAP →
    slot_ok (World.buffer w) (World.log w) k;
  inv_producer p : producer_ok (released w) (claimed w) (World.log w)
    (default 0 (World.entered w !! p)) (pc w p);
  inv_owner p q wr wr' : held (pc w p) = Some wr → held (pc w q) = Some wr' →
    SlotWriter.ticket wr = SlotWriter.ticket wr' → p = q;
  inv_held k : 0 <= k → entry (World.log w) k = Some None →
    ∃ p wr, held (pc w p) = Some wr ∧ SlotWriter.ticket wr = k;
  inv_drain : drain_ok (World.log w) (World.drain w);
  inv_delivered : Some <$> World.delivered w = take (Z.to_nat (handed w)) (World.log w);
  inv_dropped : SampleBuffer.dropped (World.buffer w) + foldr Z.add 0 (World.taken w) =
    Z.of_nat (World.drops w) ∧ 0 <= SampleBuffer.dropped (World.buffer w) <= Z.of_nat (World.drops w);
  inv_calls : World.calls w = (length (World.log w) + World.drops w +
    size (filter (λ e, claiming (snd e) = true) (World.producers w)))%nat }.

(** ** Slots *)

Lemma slot_index_lt t : (slot_index t < Z.to_nat BUFFER_CAP)%nat.
Proof. unfold slot_index, BUFFER_CAP. pose proof (Z.mod_pos_bound t 4096). lia. Qed.

Lemma slot_index_inj H j k :
  H <= j < H + BUFFER_CAP → H <= k < H + BUFFER_CAP → slot_index j = slot_index k → j = k.
Proof.
  unfold slot_index, BUFFER_CAP. intros Hj Hk He.
  pose proof (Z.mod_pos_bound j 4096). pose proof (Z.mod_pos_bound k 4096).
  assert (j mod 4096 = k mod 4096) as Hm by lia.
  pose proof (Z.div_mod j 4096). pose proof (Z.div_mod k 4096). nia.
Qed.

(** The ticket of the window that has the slot of [t]. *)
Lemma slot_index_window H t : ∃ k, H <= k < H + BUFFER_CAP ∧ slot_index k = slot_index t ∧
  (t - k) mod BUFFER_CAP = 0.
Proof.
  exists (H + (t - H) mod BUFFER_CAP). unfold slot_index, BUFFER_CAP.
  pose proof (Z.mod_pos_bound (t - H) 4096). split; [lia|].
  rewrite Zplus_mod_idemp_r. replace (H + (t - H)) with t by lia. split; [done|].
  rewrite Zminus_mod, Zplus_mod_idemp_r. replace (H + (t - H)) with t by lia.
  by rewrite Z.sub_diag.
Qed.

Lemma slot_of_on_slot f b i t :
  length (SampleBuffer.slots b) = Z.to_nat BUFFER_CAP →
  slot_of (on_slot f i b) t = if decide (i = slot_index t) then f (slot_of b t) else slot_of b t.
Proof.
  intros Hl. unfold slot_of, on_slot. cbn [SampleBuffer.slots]. case_decide as Hd.
  - subst i. apply list_lookup_total_correct. rewrite list_lookup_alter_eq.
    rewrite list_lookup_lookup_total_lt; [done|]. rewrite Hl. apply slot_index_lt.
  - rewrite !list_lookup_total_alt, list_lookup_alter_ne; done.
Qed.

(** Writing to the slot of one ticket of the window leaves the others alone. *)
Lemma slot_ok_other f b log H j k :
  length (SampleBuffer.slots b) = Z.to_nat BUFFER_CAP →
  H <= j < H + BUFFER_CAP → H <= k < H + BUFFER_CAP → j <> k →
  slot_ok b log k → slot_ok (on_slot f (slot_index j) b) log k.
Proof.
  intros Hl Hj Hk Hn. unfold slot_ok. rewrite slot_of_on_slot by done.
  rewrite decide_False; [done|]. intros He. by apply (slot_index_inj H) in He.
Qed.

Lemma slot_ok_log b log log' k : entry log' k = entry log k → slot_ok b log k → slot_ok b log' k.
Proof. unfold slot_ok. by intros ->. Qed.

(** ** Moving one producer *)

Lemma pc_move b p c w q : pc (move b p c w) q = if decide (p = q) then c else pc w q.
Proof.
  unfold pc, move. cbn [World.producers]. case_decide as Hd.
  - subst q. by rewrite lookup_insert_eq.
  - by rewrite lookup_insert_ne.
Qed.

Definition claims_of (m : gmap nat producer) : nat :=
  size (filter (λ e, claiming (snd e) = true) m).

Lemma claims_of_delete m p :
  claims_of m = (claims_of (delete p m) + Nat.b2n (claiming (default Outside (m !! p))))%nat.
Proof.
  unfold claims_of. destruct (m !! p) as [c|] eqn:Hp; cbn [default].
  - rewrite <- (insert_delete_id m p c Hp) at 1. destruct (claiming c) eqn:Hc.
    + rewrite map_filter_insert_True by done. rewrite map_size_insert_None; [unfold id; rewrite Hc; cbn; lia|].
      apply map_lookup_filter_None. left. apply lookup_delete_eq.
    + rewrite map_filter_insert_False by (cbn; congruence).
      rewrite delete_delete_eq. unfold id. rewrite Hc. cbn. lia.
  - rewrite delete_id by done. cbn. lia.
Qed.

Lemma claims_of_insert m p c :
  (claims_of (<[p := c]> m) + Nat.b2n (claiming (default Outside (m !! p))) =
   claims_of m + Nat.b2n (claiming c))%nat.
Proof.
  rewrite (claims_of_delete (<[p := c]> m) p), (claims_of_delete m p).
  rewrite delete_insert_eq, lookup_insert_eq. cbn. lia.
Qed.

Lemma producer_ok_mono H H' T T' log log' e c :
  H <= H' → T <= T' →
  (∀ wr, held c = Some wr → entry log (SlotWriter.ticket wr) = Some None →
     entry log' (SlotWriter.ticket wr) = Some None) →
  producer_ok H T log e c → producer_ok H' T' log' e c.
Proof.
  intros HH HT Hl. destruct c as [|i t|i t|i|[]|wr|wr]; cbn; try done; try lia.
  - intros (? & ? & ?). eauto.
  - intros (? & ? & ?). eauto.
Qed.

(** A step inside [claim_slot] that neither claims nor ends. *)
Lemma inv_move w p c :
  inv w → held (pc w p) = None → held c = None → claiming c = claiming (pc w p) →
  producer_ok (released w) (claimed w) (World.log w) (default 0 (World.entered w !! p)) c →
  inv (move (World.buffer w) p c w).
Proof.
  intros [] Hp Hc Hcl Hok. split; try done.
  - intros q. rewrite pc_move. cbn [World.entered]. case_decide; [by subst q|done].
  - intros q r wr wr'. rewrite !pc_move. do 2 case_decide; subst; try congruence. eauto.
  - intros k Hk Hn. destruct (inv_held0 k Hk Hn) as (q & wr & Hq & Ht).
    exists q, wr. rewrite pc_move. split; [|done]. case_decide; [congruence|done].
  - cbn [move World.calls World.drops World.log World.producers].
    fold (claims_of (World.producers w)) in inv_calls0.
    fold (claims_of (<[p:=c]> (World.producers w))).
    pose proof (claims_of_insert (World.producers w) p c) as Hi.
    unfold pc in Hcl. rewrite Hcl in Hi. lia.
Qed.

Section cursors.
Context (w : World.t) (Hw : inv w) (Hr : in_range w).

Lemma released_bounds : 0 <= released w <= claimed w ∧ claimed w <= released w + BUFFER_CAP.
Proof. destruct Hw. lia. Qed.

Lemma entry_claimed k x : 0 <= k → entry (World.log w) k = Some x → k < claimed w.
Proof. intros Hk He. apply lookup_lt_Some in He. unfold claimed. lia. Qed.

Lemma entry_free k : claimed w <= k → entry (World.log w) k = None.
Proof. intros Hk. apply lookup_ge_None. unfold claimed in Hk. lia. Qed.

(** The owner of a writer has a ticket the ring is at. *)
Lemma held_ticket q wr : held (pc w q) = Some wr →
  released w <= SlotWriter.ticket wr < claimed w ∧ 0 <= SlotWriter.ticket wr ∧
  SlotWriter.slot wr = slot_index (SlotWriter.ticket wr) ∧
  entry (World.log w) (SlotWriter.ticket wr) = Some None.
Proof.
  intros Hq. pose proof (inv_producer w Hw q) as Ho.
  assert (0 <= SlotWriter.ticket wr ∧ SlotWriter.slot wr = slot_index (SlotWriter.ticket wr) ∧
    entry (World.log w) (SlotWriter.ticket wr) = Some None) as (H0 & H1 & H2).
  { destruct (pc w q); try done; injection Hq as <-; done. }
  pose proof (entry_claimed _ _ H0 H2). split_and!; try done;
  apply Z.nlt_ge. intros Hlt. destruct (inv_done w Hw (SlotWriter.ticket wr)) as [d Hd]; [lia|].
  congruence.
Qed.

(** What the sequence number of the slot of [t] says of [t]. *)
Lemma seq_says t : 0 <= t <= claimed w →
  let s := SampleSlot.seq (slot_of (World.buffer w) t) in
  0 <= s < 2 ^ 63 ∧
  (s = t → t < released w + BUFFER_CAP) ∧
  (s < t → t = claimed w ∧ claimed w = released w + BUFFER_CAP) ∧
  (t < s → t < claimed w).
Proof.
  intros Ht. destruct (slot_index_window (released w) t) as (k & Hk & Hi & Hm).
  pose proof released_bounds as Hb. destruct Hr as [Hr1 _]. destruct Hw.
  specialize (inv_slot0 k Hk). unfold slot_ok in inv_slot0.
  assert (slot_of (World.buffer w) t = slot_of (World.buffer w) k) as ->.
  { unfold slot_of. by rewrite Hi. }
  assert (t = k ∨ t + BUFFER_CAP <= k ∨ k + BUFFER_CAP <= t) as Hcase.
  { unfold BUFFER_CAP in *. apply Z.mod_divide in Hm as [q Hq]; [|done]. nia. }
  unfold BUFFER_CAP in *.
  destruct (entry (World.log w) k) as [[d|]|] eqn:He; rewrite ?inv_slot0.
  - apply entry_claimed in He; [|lia]. cbn. lia.
  - apply entry_claimed in He; [|lia]. cbn. lia.
  - cbn. lia.
Qed.

Lemma next_attempt_ok H T log e i t : (i < MAX_ATTEMPTS)%nat → 0 <= e →
  e + Z.of_nat i < t <= T → producer_ok H T log e (next_attempt i t).
Proof.
  intros Hi He Ht. unfold next_attempt. destruct (Nat.ltb_spec (S i) MAX_ATTEMPTS); cbn.
  - lia.
  - unfold MAX_ATTEMPTS in *. lia.
Qed.

Lemma held_next_attempt i t : held (next_attempt i t) = None.
Proof. unfold next_attempt. by case_match. Qed.

Lemma claiming_next_attempt i t : claiming (next_attempt i t) = true.
Proof. unfold next_attempt. by case_match. Qed.

Lemma judge_ok e i t :
  producer_ok (released w) (claimed w) (World.log w) e (Try i t) →
  producer_ok (released w) (claimed w) (World.log w) e
    (judge (SampleSlot.seq (slot_of (World.buffer w) t)) i t).
Proof.
  intros (Hi & He & Ht). destruct (seq_says t ltac:(lia)) as (Hs & H1 & H2 & H3).
  unfold judge. destruct (Z.eqb_spec (SampleSlot.seq (slot_of (World.buffer w) t)) t) as [Heq|Hne].
  - cbn. specialize (H1 Heq). lia.
  - destruct (Z.ltb_spec (to_signed 64 (cast 64 (SampleSlot.seq (slot_of (World.buffer w) t) - t))) 0)
      as [Hd|Hd]; [done|].
    cbn. split_and!; [done|done|]. destruct Hr as [Hr1 _]. unfold BUFFER_CAP in Hr1.
    revert Hd. unfold to_signed, cast. intros Hd.
    assert (t < SampleSlot.seq (slot_of (World.buffer w) t)) as Hlt.
    { apply Z.nle_gt. intros Hle. revert Hd.
      rewrite <- (Z_mod_plus_full _ 1), Z.mod_small by lia.
      split_tests; lia. }
    specialize (H3 Hlt). lia.
Qed.

Lemma held_judge s i t : held (judge s i t) = None.
Proof. unfold judge. repeat case_match; done. Qed.

Lemma claiming_judge s i t : claiming (judge s i t) = true.
Proof. unfold judge. repeat case_match; done. Qed.
End cursors.

Lemma in_range_log w w' :
  (length (World.log w) <= length (World.log w'))%nat → (World.drops w <= World.drops w')%nat →
  in_range w' → in_range w.
Proof. unfold in_range, claimed. lia. Qed.

(** ** Claims *)

Lemma inv_call w p :
  inv w → pc w p = Outside →
  inv (move (World.buffer w) p (Try 0 (SampleBuffer.tail (World.buffer w))) (count_call p w)).
Proof.
  intros Hw Hp. pose proof (released_bounds w Hw) as Hb. pose proof Hw as []. split; try done.
  - intros q. rewrite pc_move. unfold pc. cbn [move count_call World.entered World.producers].
    fold (pc w q). case_decide as Hd.
    + subst q. rewrite lookup_insert_eq. cbn. rewrite inv_tail0. unfold MAX_ATTEMPTS.
      unfold released, claimed in *. cbn. lia.
    + rewrite lookup_insert_ne by done. apply inv_producer0.
  - intros q r wr wr'. rewrite !pc_move. do 2 case_decide; cbn; try congruence.
    unfold pc. cbn [count_call World.producers]. fold (pc w q) (pc w r). eauto.
  - intros k Hk Hn. destruct (inv_held0 k Hk Hn) as (q & wr & Hq & Ht).
    exists q, wr. rewrite pc_move. split; [|done]. case_decide; [subst q; by rewrite Hp in Hq|done].
  - cbn [move count_call World.calls World.drops World.log World.producers].
    fold (claims_of (World.producers w)) in inv_calls0.
    fold (claims_of (<[p:=Try 0 (SampleBuffer.tail (World.buffer w))]> (World.producers w))).
    pose proof (claims_of_insert (World.producers w) p (Try 0 (SampleBuffer.tail (World.buffer w)))) as Hi.
    unfold pc in Hp. rewrite Hp in Hi. cbn in Hi. lia.
Qed.

Lemma entry_app_l log x k d : entry log k = Some d → entry (log ++ [x]) k = Some d.
Proof. apply lookup_app_l_Some. Qed.

(** The history behind a claim: one more ticket, not published. *)
Lemma entry_snoc log k :
  0 <= k → entry (log ++ [None]) k =
  if decide (k = Z.of_nat (length log)) then Some None else entry log k.
Proof.
  intros Hk. unfold entry. case_decide as Hd.
  - by rewrite Hd, Nat2Z.id, lookup_app_r, Nat.sub_diag.
  - destruct (decide (Z.to_nat k < length log)%nat); [by rewrite lookup_app_l|].
    trans (@None (option SampleData.t)); [|symmetry]; apply lookup_ge_None;
      rewrite ?length_app; cbn; lia.
Qed.

Lemma drain_ok_mono log log' d :
  (∀ k x, 0 <= k → entry log k = Some (Some x) → entry log' k = Some (Some x)) →
  drain_ok log d → drain_ok log' d.
Proof.
  intros Hm. destruct d as [| | h | h x | h x |]; cbn; try done.
  - intros (Hh & x & Hx). eauto.
  - intros [Hh Hx]. eauto.
  - intros [Hh Hx]. split; [done|]. apply Hm; [lia|done].
Qed.

Lemma handed_claimed w : inv w → handed w <= claimed w.
Proof.
  intros Hw. pose proof (released_bounds w Hw) as Hb. unfold handed, released in *.
  destruct (World.drain w); lia.
Qed.

Definition claim_writer (t : Z) : producer := Writing (SlotWriter.mk (slot_index t) t false).

Lemma claim_owner w p q r wr wr' :
  inv w → held (pc w p) = None →
  let c q := if decide (p = q) then claim_writer (claimed w) else pc w q in
  held (c q) = Some wr → held (c r) = Some wr' →
  SlotWriter.ticket wr = SlotWriter.ticket wr' → q = r.
Proof.
  intros Hw Hp c. unfold c. do 2 case_decide; cbn; intros Hq Hr Heq; subst; try done.
  - injection Hq as <-. cbn in Heq. destruct (held_ticket w Hw _ _ Hr) as [? _]. lia.
  - injection Hr as <-. cbn in Heq. destruct (held_ticket w Hw _ _ Hq) as [? _]. lia.
  - by eapply (inv_owner w Hw).
Qed.

Lemma inv_claim w p i :
  inv w → claimed w + 1 < 2 ^ 63 → pc w p = Cas i (claimed w) →
  inv (move (set_tail (wrapping_add 64 (claimed w) 1) (World.buffer w)) p
         (claim_writer (claimed w)) (set_log (World.log w ++ [None]) w)).
Proof.
  intros Hw Hr Hp. pose proof (released_bounds w Hw) as Hb. pose proof Hw as [].
  pose proof (inv_producer0 p) as Hok. rewrite Hp in Hok. destruct Hok as (_ & _ & _ & Hroom).
  set (w' := move _ _ _ _).
  assert (claimed w' = claimed w + 1) as HT by (unfold claimed; cbn; rewrite length_app; cbn; lia).
  assert (∀ k, 0 <= k → entry (World.log w') k =
    if decide (k = claimed w) then Some None else entry (World.log w) k) as Hlog by apply entry_snoc.
  assert (∀ q, pc w' q = if decide (p = q) then claim_writer (claimed w) else pc w q) as Hpc
    by (intros q; etransitivity; [apply pc_move|done]).
  split; try done; change (released w') with (released w); rewrite ?HT.
  - cbn. unfold wrapping_add, cast. rewrite Z.mod_small; lia.
  - lia.
  - intros k Hk. rewrite Hlog, decide_False by lia. by apply inv_done0.
  - intros k Hk. specialize (inv_slot0 k Hk). change (slot_ok (World.buffer w) (World.log w') k).
    unfold slot_ok in *. rewrite Hlog by lia. case_decide; [|done]. subst k.
    by rewrite entry_free in inv_slot0.
  - intros q. rewrite Hpc. case_decide as Hd.
    + cbn. rewrite Hlog, decide_True by lia. split_and!; [lia|done|done].
    + eapply producer_ok_mono; [..|apply inv_producer0]; [done|lia|].
      intros wr _ He. by apply entry_app_l.
  - intros q r wr wr'. rewrite !Hpc. apply claim_owner; [done|by rewrite Hp].
  - intros k Hk. rewrite Hlog by done. case_decide as Hd; intros Hn.
    + exists p. eexists. rewrite Hpc, decide_True by done. by split.
    + destruct (inv_held0 k Hk Hn) as (q & wr & Hq & Hk').
      exists q, wr. rewrite Hpc. case_decide; [subst q; by rewrite Hp in Hq|done].
  - eapply drain_ok_mono, inv_drain0. intros k x _. apply entry_app_l.
  - change (handed w') with (handed w). cbn [w' move World.delivered set_log World.log].
    rewrite inv_delivered0, take_app_le; [done|]. pose proof (handed_claimed w Hw).
    unfold claimed in *. lia.
  - fold (claims_of (World.producers w)) in inv_calls0. fold (claims_of (World.producers w')).
    pose proof (claims_of_insert (World.producers w) p (claim_writer (claimed w))) as Hi.
    unfold pc in Hp. rewrite Hp in Hi. cbn in Hi |- *. rewrite length_app. cbn. lia.
Qed.

(** ** Ends of calls and writers *)

Lemma inv_drop w p r :
  inv w → Z.of_nat (World.drops w) + 1 < 2 ^ 64 → pc w p = Dropping r →
  inv (move (set_dropped (wrapping_add 64 (SampleBuffer.dropped (World.buffer w)) 1) (World.buffer w))
         p Outside (count_drop w)).
Proof.
  intros Hw Hr Hp. pose proof Hw as []. set (w' := move _ _ _ _).
  assert (∀ q, pc w' q = if decide (p = q) then Outside else pc w q) as Hpc
    by (intros q; etransitivity; [apply pc_move|done]).
  split; try done.
  - intros q. rewrite Hpc. case_decide; [done|apply inv_producer0].
  - intros q r' wr wr'. rewrite !Hpc. do 2 case_decide; try done. eauto.
  - intros k Hk Hn. destruct (inv_held0 k Hk Hn) as (q & wr & Hq & Ht).
    exists q, wr. rewrite Hpc. case_decide; [subst q; by rewrite Hp in Hq|done].
  - cbn. unfold wrapping_add, cast. rewrite Z.mod_small by lia. lia.
  - fold (claims_of (World.producers w)) in inv_calls0. fold (claims_of (World.producers w')).
    pose proof (claims_of_insert (World.producers w) p Outside) as Hi.
    unfold pc in Hp. rewrite Hp in Hi. cbn in Hi |- *. lia.
Qed.

(** The owner of a writer touches the data of its slot, nothing else. *)
Lemma inv_write w p wr wr' f c :
  inv w → held (pc w p) = Some wr → held c = Some wr' →
  SlotWriter.slot wr' = SlotWriter.slot wr → SlotWriter.ticket wr' = SlotWriter.ticket wr →
  inv (move (on_data f (SlotWriter.slot wr) (World.buffer w)) p c w).
Proof.
  intros Hw Hp Hc Hs Ht. destruct (held_ticket w Hw p wr Hp) as (Hb & H0 & Hi & He).
  pose proof (released_bounds w Hw) as Hb'.
  pose proof Hw as []. set (w' := move _ _ _ _).
  assert (∀ q, pc w' q = if decide (p = q) then c else pc w q) as Hpc by (intros q; apply pc_move).
  split; try done.
  - cbn. by rewrite length_alter.
  - intros k Hk. specialize (inv_slot0 k Hk). cbn [w' move World.buffer World.log]. unfold on_data.
    rewrite Hi. destruct (decide (k = SlotWriter.ticket wr)) as [->|Hn].
    + unfold slot_ok in *. rewrite He in *. rewrite slot_of_on_slot, decide_True by done. done.
    + apply (slot_ok_other _ _ _ (released w)); try done; lia.
  - intros q. rewrite Hpc. case_decide; [|apply inv_producer0].
    assert (0 <= SlotWriter.ticket wr' ∧ SlotWriter.slot wr' = slot_index (SlotWriter.ticket wr') ∧
      entry (World.log w) (SlotWriter.ticket wr') = Some None) by (rewrite Hs, Ht; done).
    destruct c; try done; by injection Hc as ->.
  - intros q r x y. rewrite !Hpc. do 2 case_decide; subst; try done; intros Hx Hy Heq.
    + replace x with wr' in Heq by congruence. rewrite Ht in Heq. eauto.
    + replace y with wr' in Heq by congruence. rewrite Ht in Heq. eauto.
    + eauto.
  - intros k Hk Hn. destruct (inv_held0 k Hk Hn) as (q & x & Hq & Hx).
    destruct (decide (p = q)) as [<-|Hpq].
    + exists p, wr'. rewrite Hpc, decide_True by done. split; [done|]. congruence.
    + exists q, x. by rewrite Hpc, decide_False.
  - fold (claims_of (World.producers w)) in inv_calls0. fold (claims_of (World.producers w')).
    pose proof (claims_of_insert (World.producers w) p c) as Hn. fold (pc w p) in Hn.
    assert (claiming c = false) as Hcc by (by destruct c).
    assert (claiming (pc w p) = false) as Hcp by (by destruct (pc w p)).
    rewrite Hcc, Hcp in Hn. cbn in Hn |- *. lia.
Qed.

Lemma entry_insert log t d k :
  0 <= t → 0 <= k → entry log t <> None →
  entry (<[Z.to_nat t := d]> log) k = if decide (k = t) then Some d else entry log k.
Proof.
  intros Ht Hk He. unfold entry in *. case_decide as Hd.
  - subst k. apply list_lookup_insert_eq. by apply lookup_lt_is_Some, not_eq_None_Some.
  - apply list_lookup_insert_ne. lia.
Qed.

(** A writer's slot is published: the history records what is in it. *)
Lemma inv_publish w p wr :
  inv w → claimed w + 1 < 2 ^ 63 → pc w p = Publishing wr →
  let d := SampleSlot.data (SampleBuffer.slots (World.buffer w) !!! SlotWriter.slot wr) in
  inv (move (store_seq (wrapping_add 64 (SlotWriter.ticket wr) 1) (SlotWriter.slot wr) (World.buffer w))
         p Outside (set_log (<[Z.to_nat (SlotWriter.ticket wr) := Some d]> (World.log w)) w)).
Proof.
  intros Hw Hr Hp d. assert (held (pc w p) = Some wr) as Hheld by (by rewrite Hp).
  destruct (held_ticket w Hw p wr Hheld) as (Hb & H0 & Hi & He).
  pose proof (released_bounds w Hw) as Hb'. pose proof (handed_claimed w Hw) as Hh.
  pose proof Hw as []. set (w' := move _ _ _ _). set (t := SlotWriter.ticket wr) in *.
  assert (∀ q, pc w' q = if decide (p = q) then Outside else pc w q) as Hpc
    by (intros q; etransitivity; [apply pc_move|done]).
  assert (∀ k, 0 <= k → entry (World.log w') k =
    if decide (k = t) then Some (Some d) else entry (World.log w) k) as Hlog.
  { intros k Hk. apply entry_insert; [done..|congruence]. }
  assert (claimed w' = claimed w) as HT by (unfold claimed; cbn; by rewrite length_insert).
  split; try done; change (released w') with (released w); rewrite ?HT.
  - cbn. by rewrite length_alter.
  - done.
  - done.
  - intros k Hk. rewrite Hlog, decide_False by lia. by apply inv_done0.
  - intros k Hk. specialize (inv_slot0 k Hk). cbn [w' move World.buffer]. unfold store_seq.
    rewrite Hi. destruct (decide (k = t)) as [->|Hn].
    + unfold slot_ok. rewrite Hlog, decide_True by (done || lia).
      rewrite slot_of_on_slot, decide_True by done. unfold wrapping_add, cast.
      rewrite Z.mod_small by lia. unfold d, slot_of. by rewrite Hi.
    + apply (slot_ok_log _ (World.log w) (World.log w')).
      { rewrite Hlog, decide_False; [done|done|lia]. }
      apply (slot_ok_other _ _ _ (released w)); try done; lia.
  - intros q. rewrite Hpc. case_decide as Hd; [done|].
    eapply producer_ok_mono; [apply Z.le_refl..| |apply inv_producer0]. intros x Hx Hn.
    destruct (held_ticket w Hw q x Hx) as (_ & Hx0 & _ & _).
    change (entry (World.log w') (SlotWriter.ticket x) = Some None).
    rewrite Hlog by done. case_decide as Heq; [|done].
    destruct Hd. by eapply inv_owner0.
  - intros q r x y. rewrite !Hpc. do 2 case_decide; try done. eauto.
  - intros k Hk. rewrite Hlog by done. case_decide as Heq; intros Hn; [done|].
    destruct (inv_held0 k Hk Hn) as (q & x & Hq & Hx). exists q, x. rewrite Hpc.
    case_decide; [|done]. subst q. rewrite Hheld in Hq. injection Hq as <-. done.
  - eapply drain_ok_mono, inv_drain0. intros k x Hk Hx. rewrite Hlog by done.
    case_decide; [|done]. congruence.
  - change (handed w') with (handed w). cbn [w' move World.delivered set_log World.log].
    rewrite inv_delivered0. symmetry. apply take_insert_ge.
    unfold handed, released in *. destruct (World.drain w); lia.
  - fold (claims_of (World.producers w)) in inv_calls0. fold (claims_of (World.producers w')).
    pose proof (claims_of_insert (World.producers w) p Outside) as Hn.
    unfold pc in Hp. rewrite Hp in Hn. cbn in Hn |- *. rewrite length_insert. lia.
Qed.

(** ** The drain thread *)

(** A step that leaves the slots alone. *)
Lemma inv_drain_move w b d out :
  inv w → let w' := move_drain b d out w in
  SampleBuffer.slots b = SampleBuffer.slots (World.buffer w) →
  SampleBuffer.tail b = SampleBuffer.tail (World.buffer w) →
  SampleBuffer.dropped b = SampleBuffer.dropped (World.buffer w) →
  0 <= SampleBuffer.head b <= released w →
  released w' = released w → drain_ok (World.log w) d →
  Some <$> World.delivered w' = take (Z.to_nat (handed w')) (World.log w) → inv w'.
Proof.
  intros [] w' Hs Ht Hd Hh Hr Hok Hdel.
  split; try done; rewrite ?Hr; cbn; rewrite ?Hs, ?Ht, ?Hd; try done.
  intros k Hk. specialize (inv_slot0 k Hk). unfold slot_ok, slot_of in *. by rewrite Hs.
Qed.

(** The drain thread's ticket is published when its slot says so. *)
Lemma look_ok w h :
  inv w → in_range w → World.drain w = Look h →
  drain_ok (World.log w) (look (World.buffer w) h).
Proof.
  intros Hw [Hr _] Hd. pose proof (released_bounds w Hw) as Hb. destruct Hw.
  assert (released w = h) as HR by (unfold released; by rewrite Hd).
  specialize (inv_slot0 h). unfold slot_ok in inv_slot0. rewrite HR in *.
  unfold look. destruct (Z.eqb_spec (SampleSlot.seq (slot_of (World.buffer w) h)) (wrapping_add 64 h 1))
    as [Heq|]; [|done]. cbn. split; [lia|].
  unfold wrapping_add, cast in Heq. unfold BUFFER_CAP in *. rewrite Z.mod_small in Heq by lia.
  specialize (inv_slot0 ltac:(lia)). destruct (entry (World.log w) h) as [[d|]|]; [by exists d|lia..].
Qed.

Lemma released_look w b b' h out :
  let w' := move_drain b (look b' h) out w in
  released w' = h ∧ handed w' = h.
Proof. unfold handed, released, move_drain, look. cbn [World.drain]. by destruct (_ =? _). Qed.

(** The release of a slot: the window moves on by one ticket. *)
Lemma inv_release w h d :
  inv w → in_range w → World.drain w = Release h d →
  inv (move_drain (store_seq (wrapping_add 64 h BUFFER_CAP) (slot_index h) (World.buffer w))
         (Deliver (wrapping_add 64 h 1) d) None w).
Proof.
  intros Hw [Hr _] Hd. pose proof (released_bounds w Hw) as Hb. pose proof Hw as [].
  assert (released w = h) as HR by (unfold released; by rewrite Hd).
  rewrite Hd in inv_drain0. destruct inv_drain0 as [Hh He].
  pose proof (entry_claimed w _ _ Hh He) as Hlt. rewrite HR in *.
  unfold wrapping_add, cast. unfold BUFFER_CAP in Hr, Hb. rewrite !Z.mod_small by (unfold BUFFER_CAP; lia).
  set (w' := move_drain _ _ _ _).
  assert (released w' = h + 1) as HR' by done.
  split; try done; rewrite ?HR'; try done.
  - cbn. by rewrite length_alter.
  - cbn. lia.
  - change (claimed w') with (claimed w). unfold BUFFER_CAP. lia.
  - intros k Hk. change (World.log w') with (World.log w).
    destruct (decide (k = h)) as [->|]; [by exists d|]. apply inv_done0. lia.
  - intros k Hk. cbn [w' move_drain World.buffer World.log]. unfold store_seq.
    destruct (decide (k = h + BUFFER_CAP)) as [->|Hn].
    + unfold slot_ok. rewrite entry_free by (unfold BUFFER_CAP; lia).
      rewrite slot_of_on_slot, decide_True; try done. unfold slot_index, BUFFER_CAP.
      f_equal. rewrite <- (Z_mod_plus_full h 1). f_equal.
    + apply (slot_ok_other _ _ _ h); try done; unfold BUFFER_CAP in *; try lia.
      apply inv_slot0. unfold BUFFER_CAP. lia.
  - intros p. eapply producer_ok_mono; [..|apply inv_producer0]; try done. lia.
  - cbn. split; [lia|]. by replace (h + 1 - 1) with h by lia.
  - change (handed w') with (h + 1 - 1). cbn [w' move_drain World.delivered World.log option_list].
    rewrite app_nil_r, inv_delivered0. unfold handed. rewrite Hd, HR. f_equal. lia.
Qed.

Lemma inv_drain_step w b d out :
  inv w → in_range w → drain_step (World.buffer w) (World.drain w) = Some (b, d, out) →
  inv (move_drain b d out w).
Proof.
  intros Hw Hr Hs. pose proof (released_bounds w Hw) as Hb.
  destruct (World.drain w) as [|h|h|h x|h x|h] eqn:Hd; cbn in Hs; try discriminate;
    injection Hs as <- <- <-;
    pose proof Hw as []; rewrite Hd in *;
    assert (released w = h) as HR by (unfold released; by rewrite Hd);
    unfold handed in inv_delivered0; rewrite Hd, ?HR in *.
  - apply inv_drain_move; try done; rewrite ?HR; try lia.
    + by apply released_look.
    + by apply look_ok.
    + rewrite (proj2 (released_look _ _ _ _ _)). cbn. by rewrite app_nil_r, inv_delivered0.
  - destruct inv_drain0 as (Hh & x & Hx).
    apply inv_drain_move; try done; rewrite ?HR; try lia.
    + cbn. split; [done|]. specialize (inv_slot0 h ltac:(unfold BUFFER_CAP; lia)).
      unfold slot_ok in inv_slot0. rewrite Hx in inv_slot0. by rewrite inv_slot0.
    + cbn. by rewrite app_nil_r, inv_delivered0.
  - by apply inv_release.
  - destruct inv_drain0 as (Hh & Hx).
    apply inv_drain_move; try done; rewrite ?HR; try lia.
    cbn. rewrite fmap_app, inv_delivered0. unfold handed, released. cbn.
    replace (Z.to_nat h) with (S (Z.to_nat (h - 1))) by lia. by rewrite (take_S_r _ _ (Some x)).
  - apply inv_drain_move; try done; rewrite ?HR; cbn; try lia.
    by rewrite app_nil_r, inv_delivered0.
Qed.

(** ** Every reachable state *)

Lemma sum_snoc l n : foldr Z.add 0 (l ++ [n]) = foldr Z.add 0 l + n.
Proof. induction l as [|x l IH]; cbn; lia. Qed.

Lemma inv_take w :
  inv w → let '(n, b) := take_dropped_count (World.buffer w) in inv (set_taken b n w).
Proof. intros []. cbn. split; try done. cbn. rewrite sum_snoc. lia. Qed.

Lemma inv_call_drain w :
  inv w → World.drain w = Idle →
  inv (move_drain (World.buffer w) (Look (SampleBuffer.head (World.buffer w))) None w).
Proof.
  intros Hw Hd. pose proof Hw as [].
  assert (released w = SampleBuffer.head (World.buffer w)) as HR by (unfold released; by rewrite Hd).
  apply inv_drain_move; try done.
  unfold handed in *. cbn. by rewrite app_nil_r, inv_delivered0, Hd, HR.
Qed.

Lemma inv_go w p w' : inv w → in_range w → in_range w' → go w p = Some w' → inv w'.
Proof.
  intros Hw Hr Hr' Hs. pose proof (inv_producer w Hw p) as Hok. unfold go in Hs.
  destruct (pc w p) as [|i t|i t|i|r|wr|wr] eqn:Hp; try discriminate.
  - injection Hs as <-. apply inv_move; rewrite ?Hp; [done|done|apply held_judge|apply claiming_judge|].
    by apply judge_ok.
  - pose proof Hok as (Hi & He & Ht & Hroom). unfold exchange in Hs.
    destruct (Z.eqb_spec (SampleBuffer.tail (World.buffer w)) t) as [Heq|Hne].
    + injection Hs as <-. rewrite (inv_tail w Hw) in Heq. subst t.
      apply (inv_claim w p i); try done. destruct Hr as [Hr _]. unfold BUFFER_CAP in Hr. lia.
    + injection Hs as <-.
      apply inv_move; rewrite ?Hp; [done|done|apply held_next_attempt|apply claiming_next_attempt|].
      rewrite (inv_tail w Hw) in *. apply next_attempt_ok; try done. lia.
  - injection Hs as <-. destruct Hok as (Hi & He & Ht).
    apply inv_move; rewrite ?Hp; [done|done|apply held_next_attempt|apply claiming_next_attempt|].
    rewrite (inv_tail w Hw). apply next_attempt_ok; done.
  - injection Hs as <-. apply (inv_drop w p r); try done. destruct Hr' as [_ Hr']. cbn in Hr'. lia.
  - injection Hs as <-. apply (inv_publish w p wr); try done. destruct Hr as [Hr _].
    unfold BUFFER_CAP in Hr. lia.
Qed.

Lemma inv_step w a w' : inv w → in_range w → in_range w' → step w a = Some w' → inv w'.
Proof.
  intros Hw Hr Hr' Hs. destruct a as [p|p|p c|p|p| | |]; cbn in Hs.
  - destruct (pc w p) eqn:Hp; try discriminate. injection Hs as <-. by apply inv_call.
  - by apply (inv_go w p).
  - destruct (pc w p) as [| | | | |wr|] eqn:Hp; try discriminate. injection Hs as <-.
    apply (inv_write w p wr wr); by rewrite ?Hp.
  - unfold publish in Hs. destruct (pc w p) as [| | | | |wr|] eqn:Hp; try discriminate.
    injection Hs as <-. by eapply inv_write; rewrite ?Hp.
  - unfold publish in Hs. destruct (pc w p) as [| | | | |wr|] eqn:Hp; try discriminate.
    injection Hs as <-. by eapply inv_write; rewrite ?Hp.
  - destruct (World.drain w) eqn:Hd; try discriminate. injection Hs as <-. by apply inv_call_drain.
  - destruct (drain_step (World.buffer w) (World.drain w)) as [[[b d] out]|] eqn:Hd; [|done].
    injection Hs as <-. by apply inv_drain_step.
  - injection Hs as <-. by apply (inv_take w).
Qed.

(** The history only grows. *)
Lemma step_grows w a w' :
  step w a = Some w' →
  (length (World.log w) <= length (World.log w'))%nat ∧ (World.drops w <= World.drops w')%nat.
Proof.
  destruct a as [p|p|p c|p|p| | |]; cbn; unfold go, publish, exchange; intros Hs;
    repeat (case_match; try discriminate); simplify_eq; cbn;
    rewrite ?length_app, ?length_insert; cbn; lia.
Qed.

Lemma run_grows acts w w' :
  run w acts = Some w' →
  (length (World.log w) <= length (World.log w'))%nat ∧ (World.drops w <= World.drops w')%nat.
Proof.
  revert w. induction acts as [|a acts IH]; cbn; intros w Hs; [by injection Hs as <-|].
  apply bind_Some in Hs as (v & Hv & Hs). apply step_grows in Hv. apply IH in Hs. lia.
Qed.

Lemma inv_run acts w w' : inv w → in_range w' → run w acts = Some w' → inv w'.
Proof.
  revert w. induction acts as [|a acts IH]; cbn; intros w Hw Hr Hs; [by injection Hs as <-|].
  apply bind_Some in Hs as (v & Hv & Hs).
  pose proof (run_grows _ _ _ Hs) as [H1 H2]. pose proof (step_grows _ _ _ Hv) as [H3 H4].
  apply (IH v); [|done|done].
  apply (inv_step w a); try done; (eapply in_range_log; [| |done]; lia).
Qed.

Lemma inv_start : inv world_start.
Proof.
  split; try done; try (unfold BUFFER_CAP, claimed, released; cbn; lia).
  intros k Hk. change (released world_start) with 0 in Hk. unfold slot_ok. cbn.
  unfold slot_of, buffer_start, make_slots, slot_index. cbn [SampleBuffer.slots].
  rewrite Z.mod_small by lia. rewrite (list_lookup_total_correct _ _ (SampleSlot.new k)); [done|].
  rewrite list_lookup_fmap, lookup_seq_lt by lia. cbn. do 2 f_equal. lia.
Qed.

Lemma inv_reachable w : reachable w → in_range w → inv w.
Proof. intros [acts Hs] Hr. apply (inv_run acts world_start); [apply inv_start|done|done]. Qed.

(** ** What the ring promises *)

(** Whose step an action is. *)
Definition actor (a : action) : option nat :=
  match a with
  | Claim p | Go p | Modify p _ | Commit p | DropWriter p => Some p
  | Drain | GoDrain | TakeDropped => None
  end.

Lemma slots_on_slot_ne f i j b :
  i <> j → SampleBuffer.slots (on_slot f i b) !!! j = SampleBuffer.slots b !!! j.
Proof. intros Hn. cbn. by rewrite !list_lookup_total_alt, list_lookup_alter_ne. Qed.

(** Two writers, and a writer and the drain thread, are never at the same slot. *)
Lemma writers_apart w p q wr wr' :
  inv w → held (pc w p) = Some wr → held (pc w q) = Some wr' → p <> q →
  SlotWriter.slot wr <> SlotWriter.slot wr'.
Proof.
  intros Hw Hp Hq Hn Hs.
  destruct (held_ticket w Hw p wr Hp) as (Hb & _ & Hi & _).
  destruct (held_ticket w Hw q wr' Hq) as (Hb' & _ & Hi' & _).
  pose proof (released_bounds w Hw) as Hr. apply Hn. eapply (inv_owner w Hw); [done..|].
  apply (slot_index_inj (released w)); [lia|lia|congruence].
Qed.

Definition draining (d : drainer) : option Z :=
  match d with Copy h | Release h _ => Some h | _ => None end.

Lemma drain_apart w p wr h :
  inv w → held (pc w p) = Some wr → draining (World.drain w) = Some h →
  SlotWriter.slot wr <> slot_index h.
Proof.
  intros Hw Hp Hd Hs. destruct (held_ticket w Hw p wr Hp) as (Hb & H0 & Hi & He).
  pose proof (released_bounds w Hw) as Hr. pose proof (inv_drain w Hw) as Hok.
  assert (released w = h ∧ ∃ d, entry (World.log w) h = Some (Some d)) as [HR [d Hx]].
  { unfold released. destruct (World.drain w); try done; injection Hd as ->; cbn in Hok;
      destruct Hok as [_ Hok]; [done|]. eauto. }
  assert (SlotWriter.ticket wr = h) as Ht.
  { apply (slot_index_inj (released w)); [lia|unfold BUFFER_CAP; lia|congruence]. }
  congruence.
Qed.

(** Cases of a step. *)
Ltac step_cases H :=
  unfold go, publish, exchange in H; repeat (case_match; try discriminate); simplify_eq.

(** A step moves its own thread only. *)
Lemma step_pc w a w' p : step w a = Some w' → actor a <> Some p → pc w' p = pc w p.
Proof.
  intros Hs Ha. destruct a as [q|q|q c|q|q| | |]; cbn in Hs, Ha; step_cases Hs;
    unfold pc; cbn; rewrite ?lookup_insert_ne by congruence; done.
Qed.

(** The slot a step writes to. *)
Definition touched (w : World.t) (a : action) : option nat :=
  match a with
  | Modify p _ | Commit p | DropWriter p | Go p => SlotWriter.slot <$> held (pc w p)
  | GoDrain => slot_index <$> draining (World.drain w)
  | _ => None
  end.

Lemma step_slots w a w' i :
  step w a = Some w' → touched w a <> Some i →
  SampleBuffer.slots (World.buffer w') !!! i = SampleBuffer.slots (World.buffer w) !!! i.
Proof.
  intros Hs Ht. destruct a as [q|q|q c|q|q| | |]; cbn in Hs, Ht.
  - by step_cases Hs.
  - step_cases Hs; try done. apply slots_on_slot_ne. cbn in Ht. congruence.
  - step_cases Hs. apply slots_on_slot_ne. cbn in Ht. congruence.
  - step_cases Hs. apply slots_on_slot_ne. cbn in Ht. congruence.
  - step_cases Hs. apply slots_on_slot_ne. cbn in Ht. congruence.
  - by step_cases Hs.
  - destruct (World.drain w); cbn in Hs; simplify_eq; try done.
    apply slots_on_slot_ne. cbn in Ht. congruence.
  - by step_cases Hs.
Qed.

(** C18: While a producer holds a writer, its slot is its own: no step of any
    other thread, the drain thread included, changes the slot's data or its
    sequence number or takes the writer away; and the drain thread never copies
    or recycles the slot meanwhile. *)
Theorem writer_exclusive w p wr a w' :
  reachable w → in_range w → held (pc w p) = Some wr →
  step w a = Some w' → actor a <> Some p →
  SampleBuffer.slots (World.buffer w') !!! SlotWriter.slot wr =
    SampleBuffer.slots (World.buffer w) !!! SlotWriter.slot wr ∧
  held (pc w' p) = Some wr ∧
  (∀ h, draining (World.drain w) = Some h → slot_index h <> SlotWriter.slot wr).
Proof.
  intros Hreach Hr Hp Hs Ha. pose proof (inv_reachable w Hreach Hr) as Hw.
  split; [|split; [by rewrite (step_pc w a w')|intros h Hd He; by eapply drain_apart]].
  apply (step_slots w a); [done|]. intros Ht.
  assert (∀ q, SlotWriter.slot <$> held (pc w q) = Some (SlotWriter.slot wr) → q = p) as Hq.
  { intros q Hq. apply fmap_Some in Hq as (x & Hx & He). destruct (decide (q = p)); [done|].
    by destruct (writers_apart w p q wr x Hw Hp Hx ltac:(congruence)). }
  destruct a; cbn in Ht, Ha; try done; try (apply Hq in Ht; congruence).
  apply fmap_Some in Ht as (h & Hd & He). by eapply drain_apart.
Qed.

(** C19: First in, first out, exactly once: what [drain] has called [f] with are
    the samples published under the first tickets, in ticket order, without a
    gap and without a repetition, each as it stood when its writer published
    it. *)
Theorem drained_in_order w :
  reachable w → in_range w →
  ∃ n, (n <= length (World.log w))%nat ∧
    Some <$> World.delivered w = take n (World.log w) ∧
    released w - 1 <= Z.of_nat n <= released w.
Proof.
  intros Hreach Hr. pose proof (inv_reachable w Hreach Hr) as Hw.
  pose proof (handed_claimed w Hw) as Hh. pose proof (released_bounds w Hw) as Hb.
  pose proof (inv_drain w Hw) as Hd. exists (Z.to_nat (handed w)).
  split; [unfold claimed in Hh; lia|split; [by apply inv_delivered|]].
  unfold handed, released in *. destruct (World.drain w); cbn in Hd; lia.
Qed.

(** Every call of [claim_slot] is accounted for: it has a ticket, or is
    counted in [dropped] or in what [take_dropped_count] returned before, or is
    still running.  A sample is dropped for a full ring only when every slot is
    taken at that moment, and for contention only when 128 other samples were
    claimed since its call began. *)
Theorem drops_accounted w :
  reachable w → in_range w →
  Z.of_nat (World.calls w) =
    claimed w + SampleBuffer.dropped (World.buffer w) + foldr Z.add 0 (World.taken w) +
    Z.of_nat (claims_of (World.producers w)) ∧
  (∀ p w', step w (Go p) = Some w' → pc w' p = Dropping Full →
     pc w p = Dropping Full ∨ claimed w = released w + BUFFER_CAP) ∧
  (∀ p, pc w p = Dropping Exhausted →
     default 0 (World.entered w !! p) + Z.of_nat MAX_ATTEMPTS <= claimed w).
Proof.
  intros Hreach Hr. pose proof (inv_reachable w Hreach Hr) as Hw. split; [|split].
  - pose proof (inv_calls w Hw) as Hc. fold (claims_of (World.producers w)) in Hc.
    destruct (inv_dropped w Hw) as [Hd _]. unfold claimed. lia.
  - intros p w' Hs Hp. pose proof (inv_producer w Hw p) as Hok. right. cbn in Hs.
    unfold go in Hs. destruct (pc w p) as [|i t|i t|i|r|wr|wr] eqn:Hq; try discriminate;
      unfold exchange in Hs; repeat (case_match; try discriminate); simplify_eq;
      rewrite pc_move, decide_True in Hp by done; try discriminate;
      try (unfold next_attempt in Hp; by destruct (_ <? _)%nat).
    destruct Hok as (_ & He & Ht). destruct (seq_says w Hw Hr t ltac:(lia)) as (Hs & _ & H2 & _).
    unfold judge in Hp. destruct (_ =? _); [done|].
    destruct (Z.ltb_spec (to_signed 64 (cast 64 (SampleSlot.seq (slot_of (World.buffer w) t) - t))) 0)
      as [Hd|Hd]; [|done].
    apply H2. destruct Hr as [Hr _]. unfold BUFFER_CAP in Hr. apply Z.nle_gt. intros Hle.
    revert Hd. unfold to_signed, cast. rewrite Z.mod_small by lia. split_tests; lia.
  - intros p Hp. pose proof (inv_producer w Hw p) as Hok. by rewrite Hp in Hok.
Qed.

(** How many more steps a call of [claim_slot] can take. *)
Definition claim_rank (c : producer) : nat :=
  match c with
  | Try i _ => 2 * (MAX_ATTEMPTS - i) + 1
  | Cas i _ | Reload i => 2 * (MAX_ATTEMPTS - i)
  | Dropping _ => 1
  | Outside | Writing _ | Publishing _ => 0
  end.

Definition is_go (p : nat) (a : action) : bool :=
  match a with Go q => (q =? p)%nat | _ => false end.

Definition is_claim (p : nat) (a : action) : bool :=
  match a with Claim q => (q =? p)%nat | _ => false end.

Definition own_steps (p : nat) (acts : list action) : nat := length (List.filter (is_go p) acts).

Lemma next_attempt_rank i t :
  (i < MAX_ATTEMPTS)%nat → (claim_rank (next_attempt i t) < 2 * (MAX_ATTEMPTS - i))%nat.
Proof. unfold next_attempt, MAX_ATTEMPTS. intros Hi. case_match; cbn; lia. Qed.

Lemma claim_rank_step w a w' p :
  inv w → step w a = Some w' → is_claim p a = false → claiming (pc w' p) = true →
  claiming (pc w p) = true ∧
  (claim_rank (pc w' p) + Nat.b2n (is_go p a) <= claim_rank (pc w p))%nat.
Proof.
  intros Hw Hs Hc Hcl. pose proof (inv_producer w Hw p) as Hok.
  destruct (decide (actor a = Some p)) as [Ha|Ha].
  - destruct a as [q|q|q c|q|q| | |]; cbn in Ha, Hc, Hs; simplify_eq; cbn [is_go];
      rewrite ?Nat.eqb_refl in *; try done; step_cases Hs; rewrite pc_move, decide_True in * by done;
      try done; (split; [done|]); cbn [Nat.b2n].
    + destruct Hok as (Hi & _). unfold judge, MAX_ATTEMPTS in *. repeat case_match; cbn; lia.
    + destruct Hok as (Hi & _). pose proof (next_attempt_rank attempt (SampleBuffer.tail (World.buffer w)) Hi).
      cbn [claim_rank]. lia.
    + destruct Hok as (Hi & _). pose proof (next_attempt_rank attempt (SampleBuffer.tail (World.buffer w)) Hi).
      cbn [claim_rank]. lia.
  - rewrite (step_pc w a w' p Hs Ha) in *. split; [done|].
    assert (is_go p a = false) as ->; [|cbn; lia].
    destruct a; try done. cbn in *. apply Nat.eqb_neq. congruence.
Qed.

Lemma claim_rank_run acts w w' p :
  inv w → in_range w' → run w acts = Some w' → Forall (λ a, is_claim p a = false) acts →
  claiming (pc w' p) = true →
  (claim_rank (pc w' p) + own_steps p acts <= claim_rank (pc w p))%nat.
Proof.
  intros Hw Hr Hs Hc Hcl.
  cut (claiming (pc w p) = true ∧
       (claim_rank (pc w' p) + own_steps p acts <= claim_rank (pc w p))%nat); [tauto|].
  revert w Hw Hs. induction Hc as [|a acts Ha Hc IH]; intros w Hw Hs; cbn in Hs.
  - injection Hs as ->. split; [done|]. cbn. lia.
  - apply bind_Some in Hs as (v & Hv & Hs).
    pose proof (run_grows _ _ _ Hs) as [H1 H2]. pose proof (step_grows _ _ _ Hv) as [H3 H4].
    assert (inv v) as Hiv by (apply (inv_step w a); try done; (eapply in_range_log; [| |done]; lia)).
    destruct (IH v Hiv Hs) as [Hcv Hle].
    destruct (claim_rank_step w a v p Hw Hv Ha Hcv) as [Hcw Hle']. split; [done|].
    unfold own_steps in *. cbn [List.filter]. destruct (is_go p a); cbn in *; lia.
Qed.

(** A call of [claim_slot] ends after at most 257 atomic operations of its
    own, whatever all other threads do in between: a signal handler never
    spins. *)
Theorem claim_slot_bounded w acts w' p :
  reachable w → in_range w' → run w acts = Some w' →
  Forall (λ a, is_claim p a = false) acts → claiming (pc w' p) = true →
  (own_steps p acts < 257)%nat.
Proof.
  intros Hreach Hr Hs Hc Hcl. pose proof (run_grows _ _ _ Hs) as [H1 H2].
  assert (inv w) as Hw by (apply inv_reachable; [done|]; eapply in_range_log; [..|done]; lia).
  pose proof (claim_rank_run acts w w' p Hw Hr Hs Hc Hcl) as Hle.
  assert (0 < claim_rank (pc w' p))%nat as Hpos.
  { pose proof (inv_producer w' (inv_run _ _ _ Hw Hr Hs) p) as Hok.
    destruct (pc w' p); cbn in *; unfold MAX_ATTEMPTS in *; try done; lia. }
  assert (claim_rank (pc w p) <= 257)%nat; [|lia].
  destruct (pc w p); cbn; unfold MAX_ATTEMPTS; lia.
Qed.

Lemma run_go_drain w b d out n :
  drain_step (World.buffer w) (World.drain w) = Some (b, d, out) →
  run w (repeat GoDrain (S n)) = run (move_drain b d out w) (repeat GoDrain n).
Proof. intros Hs. cbn. by rewrite Hs. Qed.

(** One turn of the loop of [drain] over a published sample. *)
Lemma drain_round w h :
  inv w → in_range w → World.drain w = Look h → h < claimed w →
  (∀ p, held (pc w p) = None) →
  ∃ w', run w (repeat GoDrain 4) = Some w' ∧ World.drain w' = Look (h + 1) ∧
    World.log w' = World.log w ∧ World.producers w' = World.producers w ∧
    World.drops w' = World.drops w.
Proof.
  intros Hw Hr Hd Hlt Hq. pose proof (released_bounds w Hw) as Hb.
  assert (released w = h) as HR by (unfold released; by rewrite Hd). rewrite HR in Hb.
  assert (wrapping_add 64 h 1 = h + 1) as Hwrap.
  { destruct Hr as [Hr _]. unfold BUFFER_CAP, wrapping_add, cast in *. apply Z.mod_small. lia. }
  assert (∃ d, slot_of (World.buffer w) h = SampleSlot.mk (h + 1) d) as [d Hslot].
  { pose proof (inv_slot w Hw h) as Hs. unfold slot_ok in Hs.
    destruct (entry (World.log w) h) as [[d|]|] eqn:He.
    - exists d. apply Hs. unfold BUFFER_CAP. lia.
    - destruct (inv_held w Hw h) as (p & wr & Hp & _); [lia|done|]. by rewrite Hq in Hp.
    - apply lookup_ge_None in He. unfold claimed in Hlt. lia. }
  eexists. split; [|split; [|split; [|split]]].
  - rewrite (run_go_drain w (World.buffer w) (Copy h) None).
    + do 3 (erewrite run_go_drain; [|reflexivity]). reflexivity.
    + rewrite Hd. cbn. unfold look. by rewrite Hslot, Hwrap, Z.eqb_refl.
  - cbn. by rewrite Hwrap.
  - done.
  - done.
  - done.
Qed.

Lemma run_app acts acts' w : run w (acts ++ acts') = v ← run w acts; run v acts'.
Proof.
  revert w. induction acts as [|a acts IH]; intros w; cbn; [done|].
  destruct (step w a); cbn; [apply IH|done].
Qed.

Lemma drain_rounds n w h :
  inv w → in_range w → World.drain w = Look h → claimed w = h + Z.of_nat n →
  (∀ p, held (pc w p) = None) →
  ∃ w', run w (repeat GoDrain (4 * n)) = Some w' ∧ World.drain w' = Look (h + Z.of_nat n) ∧
    World.log w' = World.log w ∧ World.drops w' = World.drops w.
Proof.
  revert w h. induction n as [|n IH]; intros w h Hw Hr Hd Hn Hq.
  - exists w. by rewrite Hd, Z.add_0_r.
  - destruct (drain_round w h Hw Hr Hd ltac:(lia) Hq) as (v & Hs & Hv & Hl & Hp & Hx).
    assert (in_range v) as Hrv by (unfold in_range, claimed in *; by rewrite Hl, Hx).
    destruct (IH v (h + 1)) as (w' & Hs' & Hd' & Hl' & Hx').
    + by eapply inv_run.
    + done.
    + done.
    + unfold claimed in *. rewrite Hl. lia.
    + intros p. unfold pc. rewrite Hp. apply Hq.
    + exists w'. replace (4 * S n)%nat with (4 + 4 * n)%nat by lia. rewrite repeat_app, run_app, Hs.
      split; [exact Hs'|]. rewrite Hd', Hl', Hl, Hx', Hx. split; [f_equal; lia|done].
Qed.

(** Once the producers are done with their writers, one call of [drain]
    hands over everything that was ever claimed and is still in the ring, and
    returns: 4 steps for each sample and 2 more.  Nothing stays pending. *)
Theorem drain_catches_up w :
  reachable w → in_range w → World.drain w = Idle → (∀ p, held (pc w p) = None) →
  ∃ w', run w (Drain :: repeat GoDrain (4 * Z.to_nat (claimed w - released w) + 2)) = Some w' ∧
    World.drain w' = Idle ∧ Some <$> World.delivered w' = World.log w ∧
    has_pending (World.buffer w') = false.
Proof.
  intros Hreach Hr Hd Hq. pose proof (inv_reachable w Hreach Hr) as Hw.
  pose proof (released_bounds w Hw) as Hb.
  assert (released w = SampleBuffer.head (World.buffer w)) as HR by (unfold released; by rewrite Hd).
  set (n := Z.to_nat (claimed w - released w)).
  pose proof (inv_call_drain w Hw Hd) as Hw1. set (w1 := move_drain _ _ _ _) in Hw1.
  destruct (drain_rounds n w1 (released w)) as (v & Hs & Hv & Hl & Hx); try done.
  { by rewrite HR. }
  { change (claimed w1) with (claimed w). subst n. lia. }
  replace (released w + Z.of_nat n) with (claimed w) in Hv by (subst n; lia).
  assert (claimed v = claimed w) as HT by (unfold claimed; by rewrite Hl).
  assert (in_range v) as Hrv by (destruct Hr; split; [by rewrite HT|by rewrite Hx]).
  assert (inv v) as Hvi by (by eapply inv_run).
  assert (SampleSlot.seq (slot_of (World.buffer v) (claimed w)) = claimed w) as Hseq.
  { assert (released v = claimed w) as HRv by (unfold released; by rewrite Hv).
    pose proof (inv_slot v Hvi (claimed w)) as Hok. unfold slot_ok in Hok.
    rewrite (entry_free v) in Hok by (rewrite HT; lia). apply Hok. rewrite HRv. unfold BUFFER_CAP. lia. }
  assert (run w (Drain :: repeat GoDrain (4 * n + 2)) =
    Some (move_drain (set_head (claimed w) (World.buffer v)) Idle None
           (move_drain (World.buffer v) (Finish (claimed w)) None v))) as Hrun.
  { trans (run w1 (repeat GoDrain (4 * n + 2))); [cbn; by rewrite Hd|].
    rewrite repeat_app, run_app, Hs. cbn [mbind option_bind].
    rewrite (run_go_drain v (World.buffer v) (Finish (claimed w)) None); [reflexivity|].
    rewrite Hv. cbn [drain_step]. unfold look. rewrite Hseq.
    destruct (Z.eqb_spec (claimed w) (wrapping_add 64 (claimed w) 1)) as [He|]; [|done].
    destruct Hr as [Hr _]. unfold wrapping_add, cast, BUFFER_CAP in *. rewrite Z.mod_small in He; lia. }
  eexists. split; [exact Hrun|]. split_and!; [done| |].
  - cbn. rewrite !app_nil_r, (inv_delivered v Hvi). unfold handed, released. rewrite Hv, Hl.
    cbn. apply take_ge. unfold claimed. lia.
  - unfold has_pending. cbn. rewrite (inv_tail v Hvi), HT, Z.sub_diag. done.
Qed.

(** ** A run of two producers and the drain thread *)

Definition after (acts : list action) : World.t := default world_start (run world_start acts).

(** Both call [claim_slot] at once; the second loses the exchange and retries. *)
Definition race_acts : list action :=
  [Claim 0; Claim 1; Go 0; Go 1; Go 0; Go 1; Go 1; Go 1;
   Modify 0 (Fields 1000 42 999 (Some 3) 10); Modify 0 (FrameAt 0 0x1234); Modify 0 (Frames 1)].

(** The first commits, the second is dropped. *)
Definition quiet_acts : list action := race_acts ++ [Commit 0; DropWriter 1; Go 1; Go 0].

Definition example_sample : SampleData.t :=
  SampleData.mk 1000 42 999 (Some 3) 10 1 (0x1234 :: repeat 0 127).

Definition empty_sample : SampleData.t := SampleData.mk 0 0 0 None 0 0 (repeat 0 128).

Lemma after_reachable acts : run world_start acts = Some (after acts) → reachable (after acts).
Proof. intros Hs. by exists acts. Qed.

Lemma after_runs acts :
  match run world_start acts with Some _ => true | None => false end = true →
  run world_start acts = Some (after acts).
Proof. unfold after. by destruct (run world_start acts). Qed.

Lemma run_after_step acts acts' :
  match run world_start acts with Some _ => true | None => false end = true →
  run world_start (acts ++ acts') = run (after acts) acts'.
Proof. unfold after. rewrite run_app. by destruct (run world_start acts). Qed.

Lemma race_runs : run world_start race_acts = Some (after race_acts).
Proof. apply after_runs. vm_compute. reflexivity. Qed.

Lemma quiet_runs : run world_start quiet_acts = Some (after quiet_acts).
Proof. apply after_runs. vm_compute. reflexivity. Qed.

Lemma in_range_small w : (length (World.log w) < 1000)%nat → (World.drops w < 1000)%nat → in_range w.
Proof. unfold in_range, claimed, BUFFER_CAP. lia. Qed.

Lemma race_in_range : in_range (after race_acts).
Proof. apply in_range_small; vm_compute; lia. Qed.

Lemma quiet_in_range : in_range (after quiet_acts).
Proof. apply in_range_small; vm_compute; lia. Qed.

Lemma quiet_held p : held (pc (after quiet_acts) p) = None.
Proof.
  unfold pc. assert (World.producers (after quiet_acts) = <[0%nat := Outside]> {[1%nat := Outside]}) as ->
    by (vm_compute; reflexivity).
  destruct (decide (p = 0%nat)) as [->|]; [by rewrite lookup_insert_eq|].
  rewrite lookup_insert_ne by done. destruct (decide (p = 1%nat)) as [->|].
  - by rewrite lookup_singleton_eq.
  - by rewrite lookup_singleton_ne.
Qed.

Lemma writer_exclusive_witness :
  ∃ w', step (after race_acts) (Modify 1 (Frames 7)) = Some w' ∧
    SampleBuffer.slots (World.buffer w') !!! 0%nat = SampleSlot.mk 0 example_sample.
Proof.
  assert (match step (after race_acts) (Modify 1 (Frames 7)) with Some _ => true | None => false end = true)
    as Hsome by (vm_compute; reflexivity).
  destruct (step (after race_acts) (Modify 1 (Frames 7))) as [w'|] eqn:Hs; [|discriminate].
  exists w'. split; [reflexivity|].
  destruct (writer_exclusive (after race_acts) 0%nat (SlotWriter.mk 0 0 false) (Modify 1 (Frames 7)) w')
    as [He _]; [exact (after_reachable _ race_runs)|exact race_in_range|vm_compute; reflexivity|exact Hs|
    discriminate|].
  etransitivity; [exact He|]. vm_compute. reflexivity.
Defined.

Lemma drained_in_order_witness :
  ∃ n, Some <$> World.delivered (after (quiet_acts ++ Drain :: repeat GoDrain 4)) =
    take n (World.log (after (quiet_acts ++ Drain :: repeat GoDrain 4))) ∧
    World.delivered (after (quiet_acts ++ Drain :: repeat GoDrain 4)) = [example_sample].
Proof.
  set (acts := quiet_acts ++ Drain :: repeat GoDrain 4).
  assert (run world_start acts = Some (after acts)) as Hs
    by (apply after_runs; vm_compute; reflexivity).
  assert (in_range (after acts)) as Hr by (apply in_range_small; vm_compute; lia).
  destruct (drained_in_order (after acts) (after_reachable _ Hs) Hr) as (n & _ & Hd & _).
  exists n. split; [exact Hd|]. vm_compute. reflexivity.
Defined.

Lemma drops_accounted_witness :
  World.calls (after race_acts) = 2%nat ∧
  Z.of_nat (World.calls (after race_acts)) =
    claimed (after race_acts) + 0 + 0 + Z.of_nat (claims_of (World.producers (after race_acts))).
Proof.
  split; [vm_compute; reflexivity|].
  destruct (drops_accounted (after race_acts) (after_reachable _ race_runs) race_in_range) as [Hc _].
  etransitivity; [exact Hc|]. vm_compute. reflexivity.
Defined.

Lemma claim_slot_bounded_witness :
  claiming (pc (after (take 6 race_acts)) 1) = true ∧
  (own_steps 1 (drop 2 (take 6 race_acts)) < 257)%nat.
Proof.
  split; [vm_compute; reflexivity|].
  apply (claim_slot_bounded (after (take 2 race_acts)) _ (after (take 6 race_acts))).
  - apply after_reachable, after_runs. vm_compute. reflexivity.
  - apply in_range_small; vm_compute; lia.
  - rewrite <- (run_after_step (take 2 race_acts)). { apply after_runs. vm_compute. reflexivity. }
    vm_compute. reflexivity.
  - repeat constructor.
  - vm_compute. reflexivity.
Defined.

Lemma drain_catches_up_witness :
  ∃ w', run (after quiet_acts) (Drain :: repeat GoDrain 10) = Some w' ∧
    Some <$> World.delivered w' = [Some example_sample; Some empty_sample].
Proof.
  destruct (drain_catches_up (after quiet_acts) (after_reachable _ quiet_runs) quiet_in_range)
    as (w' & Hs & _ & Hd & _); [vm_compute; reflexivity|exact quiet_held|].
  exists w'. split; [exact Hs|]. etransitivity; [exact Hd|]. vm_compute. reflexivity.
Defined.
