(* ===== verification/Paths.v ===== *)
(** * Paths and dates: the texts object keys are made of

    More of what the program uses of Rust's [str] ([trim], substrings, signed
    numbers, padded numbers), and the calendar of the [time] crate as an
    interface with the part of its documented behaviour the code relies on. *)

From Stdlib Require Import ZArith Lia.
From stdpp Require Import base list strings option.
From coqutil Require Import Byte.
From S2P Require Import Prelude.
From S2P Require Import Text.

Definition SLASH : byte := z2b 47.

Definition starts_with (p s : bytes) : bool := bool_decide (is_Some (strip_prefix p s)).

Definition ends_with (p s : bytes) : bool := bool_decide (is_Some (strip_suffix p s)).

(** [s.contains(p)]. *)
Definition contains (p s : bytes) : bool := bool_decide (is_Some (split_once p s)).

(** [s.trim_end_matches(c)], [s.trim_start_matches(c)], [s.trim_matches(c)]. *)
Fixpoint trim_start_char (c : byte) (s : bytes) : bytes :=
  match s with
  | x :: r => if bool_decide (x = c) then trim_start_char c r else s
  | [] => []
  end.

Definition trim_end_char (c : byte) (s : bytes) : bytes := reverse (trim_start_char c (reverse s)).

Definition trim_char (c : byte) (s : bytes) : bytes := trim_end_char c (trim_start_char c s).

(** [s.trim()]: blanks in front, then blanks behind. *)
Fixpoint trim_start_loop (fuel : nat) (ps : list bytes) (s : bytes) : bytes :=
  match fuel with
  | O => s
  | S fuel => match strip_any ps s with Some r => trim_start_loop fuel ps r | None => s end
  end.

Definition trim (s : bytes) : bytes :=
  let s := trim_start_loop (length s) whitespace s in
  reverse (trim_start_loop (length s) (reverse <$> whitespace) (reverse s)).

(** [s.parse::<iN>()]: a sign, then digits. *)
Definition parse_int (w : Z) (s : bytes) : option Z :=
  let value v := if bool_decide (fits_signed w v) then Some v else None in
  match s with
  | [] => None
  | c :: r =>
      if bool_decide (c = z2b 45) && negb (bool_decide (r = [])) then
        v ← parse_digits w 0 r; value (- v)
      else v ← parse_uint w s; value v
  end.

(** [format!("{n:0wd}")] for a signed [n]. *)
Definition put_padded (w : nat) (n : Z) : bytes :=
  let sign := if n <? 0 then [z2b 45] else [] in
  let digits := put_dec (Z.abs n) in
  sign ++ repeat (z2b 48) (w - length sign - length digits) ++ digits.

(** ** Their laws *)

Lemma starts_with_true p s : starts_with p s = true ↔ ∃ r, s = p ++ r.
Proof.
  unfold starts_with, is_Some. rewrite bool_decide_eq_true. by setoid_rewrite strip_prefix_some.
Qed.

Lemma ends_with_true p s : ends_with p s = true ↔ ∃ r, s = r ++ p.
Proof.
  unfold ends_with, is_Some. rewrite bool_decide_eq_true. by setoid_rewrite strip_suffix_some.
Qed.

Lemma split_once_some p s a b : split_once p s = Some (a, b) → s = a ++ p ++ b.
Proof.
  revert a b. induction s as [|c s IH]; intros a b; cbn [split_once].
  - destruct (strip_prefix p []) eqn:E; [|done]. intros [= <- <-]. by apply strip_prefix_some in E.
  - destruct (strip_prefix p (c :: s)) eqn:E.
    + intros [= <- <-]. by apply strip_prefix_some in E.
    + intros H. apply fmap_Some in H as ([x y] & H & [= -> ->]). cbn. f_equal. by apply IH.
Qed.

Lemma split_once_occurs p a b : is_Some (split_once p (a ++ p ++ b)).
Proof.
  induction a as [|c a IH]; cbn [app].
  - destruct p as [|c p]; [by destruct b|]. change ((c :: p) ++ b) with (c :: (p ++ b)).
    cbn [split_once]. change (c :: (p ++ b)) with ((c :: p) ++ b). by rewrite strip_prefix_app.
  - cbn [split_once]. destruct (strip_prefix p (c :: a ++ p ++ b)); [by eexists|].
    destruct IH as [[x y] ->]. by eexists.
Qed.

Lemma contains_true p s : contains p s = true ↔ ∃ a b, s = a ++ p ++ b.
Proof.
  unfold contains. rewrite bool_decide_eq_true. split.
  - intros [[a b] H]. exists a, b. by apply split_once_some.
  - intros (a & b & ->). apply split_once_occurs.
Qed.

(** The first occurrence of one character. *)
Lemma split_once_char c a b : c ∉ a → split_once [c] (a ++ c :: b) = Some (a, b).
Proof.
  induction a as [|x a IH]; cbn [app]; intros H.
  - cbn. by rewrite bool_decide_true.
  - apply not_elem_of_cons in H as [Hx Hs]. cbn. rewrite bool_decide_false by done.
    by rewrite IH.
Qed.

Lemma split_once_none c s : c ∉ s → split_once [c] s = None.
Proof.
  intros H. destruct (split_once [c] s) as [[a b]|] eqn:E; [|done].
  apply split_once_some in E. subst s. destruct H. rewrite !elem_of_app. right. left.
  by apply list_elem_of_singleton.
Qed.

Lemma split_on_app_gen c a b :
  split_on c (a ++ c :: b) = split_on c a ++ split_on c b.
Proof.
  induction a as [|x a IH]; cbn [app split_on].
  - by rewrite bool_decide_true.
  - rewrite IH. destruct (bool_decide (x = c)); [done|].
    destruct (split_on c a) as [|f l] eqn:E; [by apply split_on_nonempty in E|]. done.
Qed.

(** A path of words without slashes, behind any path. *)
Definition join_slash (words : list bytes) : bytes :=
  match words with [] => [] | w :: ws => w ++ concat ((λ w, SLASH :: w) <$> ws) end.

Lemma join_slash_cons w v ws : join_slash (w :: v :: ws) = w ++ SLASH :: join_slash (v :: ws).
Proof. done. Qed.

Lemma split_join words :
  words <> [] → Forall (λ w, SLASH ∉ w) words → split_on SLASH (join_slash words) = words.
Proof.
  intros Hne H. induction H as [|w ws Hw Hws IH]; [done|].
  destruct ws as [|v ws].
  - cbn. rewrite app_nil_r. by apply split_on_single.
  - rewrite join_slash_cons, split_on_app, IH by done. done.
Qed.

(** ** Numbers *)

Lemma put_dec_sign n : 0 <= n → ∀ s, put_dec n <> z2b 45 :: s.
Proof.
  intros Hn s E. destruct (put_dec_digits n Hn) as [_ Hd]. rewrite E in Hd.
  apply list.Forall_cons in Hd as [[x Hx] _]. by vm_compute in Hx.
Qed.

Lemma parse_int_put n : 0 <= n < 2 ^ 63 → parse_int 64 (put_dec n) = Some n.
Proof.
  intros Hn. pose proof (parse_uint_put 64 n) as Hp. pose proof (put_dec_sign n ltac:(lia)) as Hs.
  destruct (put_dec_digits n) as [Hne _]; [lia|]. unfold parse_int.
  destruct (put_dec n) as [|c r]; [done|].
  rewrite (bool_decide_false (c = z2b 45)) by (intros ->; by eapply Hs). cbn [andb].
  rewrite Hp by lia. cbn [mbind option_bind]. rewrite bool_decide_true; [done|].
  unfold fits_signed. lia.
Qed.

Lemma put_dec_no c n : 0 <= n → digit c = None → c ∉ put_dec n.
Proof.
  intros Hn Hc Hin. destruct (put_dec_digits n Hn) as [_ Hd].
  rewrite list.Forall_forall in Hd. destruct (Hd c Hin) as [x Hx]. congruence.
Qed.

Lemma put_dec_digit d : 0 <= d < 10 → put_dec d = [z2b (48 + d)].
Proof.
  intros Hd. unfold put_dec. cbn [put_dec_loop]. rewrite Z.mod_small, Z.div_small by lia. reflexivity.
Qed.

(** A padded number, digit by digit, and the order of padded numbers. *)
Fixpoint dec_fixed (w : nat) (n : Z) : bytes :=
  match w with O => [] | S w => dec_fixed w (n / 10) ++ [z2b (48 + n mod 10)] end.

Lemma dec_fixed_zero w : dec_fixed w 0 = repeat (z2b 48) w.
Proof.
  induction w as [|w IH]; [done|]. cbn [dec_fixed]. change (0 / 10) with 0. rewrite IH.
  change (z2b (48 + 0 mod 10)) with (z2b 48). by rewrite <- repeat_cons.
Qed.

Lemma put_dec_loop_fixed fuel k n acc :
  (1 <= k <= fuel)%nat → 0 <= n < 10 ^ Z.of_nat k →
  repeat (z2b 48) (k + length acc - length (put_dec_loop fuel n acc)) ++ put_dec_loop fuel n acc =
  dec_fixed k n ++ acc.
Proof.
  revert k n acc. induction fuel as [|fuel IH]; intros k n acc Hk Hn; [lia|].
  destruct k as [|k]; [lia|]. cbn [put_dec_loop dec_fixed].
  rewrite Nat2Z.inj_succ, Z.pow_succ_r in Hn by lia. rewrite <- app_assoc. cbn [app].
  destruct (Z.eqb_spec (n / 10) 0) as [H0|H0].
  - rewrite H0, dec_fixed_zero. cbn [length]. do 2 f_equal. lia.
  - destruct k as [|k]; [cbn in Hn; rewrite Z.div_small in H0; lia|].
    rewrite <- (IH (S k) (n / 10) (z2b (48 + n mod 10) :: acc)); [|lia|].
    + cbn [length]. do 2 f_equal. lia.
    + split; [apply Z.div_pos; lia|]. apply Z.div_lt_upper_bound; lia.
Qed.

Lemma put_padded_fixed w n :
  (1 <= w <= 20)%nat → 0 <= n < 10 ^ Z.of_nat w → put_padded w n = dec_fixed w n.
Proof.
  intros Hw Hn. unfold put_padded. rewrite (proj2 (Z.ltb_ge n 0)) by lia. rewrite Z.abs_eq by lia.
  pose proof (put_dec_loop_fixed 20 w n [] Hw Hn) as H. rewrite app_nil_r in H. rewrite <- H. unfold put_dec.
  cbn [app length]. do 2 f_equal. lia.
Qed.

Lemma str_ltb_fixed w n m a b :
  0 <= n < 10 ^ Z.of_nat w → 0 <= m < 10 ^ Z.of_nat w →
  str_ltb (dec_fixed w n ++ a) (dec_fixed w m ++ b) = (n <? m) || ((n =? m) && str_ltb a b).
Proof.
  revert n m a b. induction w as [|w IH]; intros n m a b Hn Hm.
  { cbn in Hn, Hm. assert (n = 0 ∧ m = 0) as [-> ->] by lia. done. }
  cbn [dec_fixed]. rewrite <- !app_assoc. rewrite Nat2Z.inj_succ, Z.pow_succ_r in Hn, Hm by lia.
  pose proof (Z.div_mod n 10). pose proof (Z.mod_pos_bound n 10).
  pose proof (Z.div_mod m 10). pose proof (Z.mod_pos_bound m 10).
  rewrite IH by (split; [apply Z.div_pos; lia|apply Z.div_lt_upper_bound; lia]).
  cbn [app str_ltb]. rewrite !byte.unsigned_of_Z. unfold byte.wrap.
  rewrite !(Z.mod_small (48 + _)) by lia.
  destruct (decide (n mod 10 = m mod 10)) as [E|E].
  - rewrite E, Z.ltb_irrefl, bool_decide_true by done. cbn [orb andb]. split_tests; cbn; try done; lia.
  - rewrite (bool_decide_false (z2b _ = _)).
    + split_tests; cbn; try done; lia.
    + intros Hc. apply (f_equal b2z) in Hc. rewrite !byte.unsigned_of_Z in Hc. unfold byte.wrap in Hc.
      rewrite !(Z.mod_small (48 + _)) in Hc by lia. lia.
Qed.

Lemma str_ltb_padded w n m a b :
  (1 <= w <= 20)%nat → 0 <= n < 10 ^ Z.of_nat w → 0 <= m < 10 ^ Z.of_nat w →
  str_ltb (put_padded w n ++ a) (put_padded w m ++ b) = (n <? m) || ((n =? m) && str_ltb a b).
Proof. intros Hw Hn Hm. rewrite !put_padded_fixed by done. by apply str_ltb_fixed. Qed.

Lemma put_padded_inj w n m :
  (1 <= w <= 20)%nat → 0 <= n < 10 ^ Z.of_nat w → 0 <= m < 10 ^ Z.of_nat w →
  put_padded w n = put_padded w m → n = m.
Proof.
  intros Hw Hn Hm E. pose proof (str_ltb_padded w n m [] [] Hw Hn Hm) as H1.
  pose proof (str_ltb_padded w m n [] [] Hw Hm Hn) as H2. rewrite E, str_ltb_irrefl in H1, H2.
  split_tests; try done; lia.
Qed.

(** ** The calendar

    [time::OffsetDateTime::from_unix_timestamp] and the accessors the code
    reads: an error outside the years -9999 to 9999, otherwise the date and the
    time of day in UTC. *)
Module Civil.
Record t : Type := mk { year : Z; month : Z; day : Z; hour : Z; minute : Z }.

(** The order of dates. *)
Definition before (a b : t) : Prop :=
  year a < year b ∨ (year a = year b ∧ (month a < month b ∨ (month a = month b ∧ day a < day b))).
End Civil.

Definition DAY : Z := 86400.
Definition TIMESTAMP_MIN : Z := -377705116800.
Definition TIMESTAMP_MAX : Z := 253402300799.

Class Calendar : Type := {
  civil : Z → option Civil.t;
  civil_range t : is_Some (civil t) ↔ TIMESTAMP_MIN <= t <= TIMESTAMP_MAX;
  civil_clock t x : civil t = Some x →
    Civil.hour x = t mod DAY / 3600 ∧ Civil.minute x = t mod 3600 / 60;
  civil_date t x : civil t = Some x →
    1 <= Civil.month x <= 12 ∧ 1 <= Civil.day x <= 31 ∧ (0 <= t → 1970 <= Civil.year x <= 9999);
  civil_day t u x y : civil t = Some x → civil u = Some y → t / DAY = u / DAY →
    Civil.year x = Civil.year y ∧ Civil.month x = Civil.month y ∧ Civil.day x = Civil.day y;
  civil_order t u x y : civil t = Some x → civil u = Some y → t / DAY < u / DAY →
    Civil.before x y }.

(** The Gregorian calendar, by eras of 400 years of 146097 days that begin in
    March. *)
Definition ERA_DAYS : Z := 146097.

(** The year of its era that the [doe]-th day is in, and the day of the year. *)
Definition year_of_era (doe : Z) : Z := (doe - doe / 1460 + doe / 36524 - doe / 146096) / 365.

Definition day_of_year (doe : Z) : Z :=
  let yoe := year_of_era doe in doe - (365 * yoe + yoe / 4 - yoe / 100).

Definition month_index (doy : Z) : Z := (5 * doy + 2) / 153.

Definition day_of_month (doy : Z) : Z := doy - (153 * month_index doy + 2) / 5 + 1.

(** Year, month and day of the [n]-th day of the epoch. *)
Definition day_date (n : Z) : Z * Z * Z :=
  let z := n + 719468 in
  let doe := z mod ERA_DAYS in
  let mp := month_index (day_of_year doe) in
  let m := if mp <? 10 then mp + 3 else mp - 9 in
  (year_of_era doe + z / ERA_DAYS * 400 + (if m <=? 2 then 1 else 0), m, day_of_month (day_of_year doe)).

Definition gregorian (t : Z) : Civil.t :=
  let '(y, m, d) := day_date (t / DAY) in
  Civil.mk y m d (t mod DAY / 3600) (t mod 3600 / 60).

(** Linear arithmetic over quotients by constants. *)
Ltac divisions := Z.to_euclidean_division_equations; lia.

Lemma year_of_era_bounds doe :
  0 <= doe < ERA_DAYS → 0 <= year_of_era doe <= 399 ∧ 0 <= day_of_year doe <= 365.
Proof. unfold day_of_year, year_of_era, ERA_DAYS. intros H. divisions. Qed.

Lemma month_bounds doy :
  0 <= doy <= 365 →
  0 <= month_index doy <= 11 ∧ 1 <= day_of_month doy <= 31 ∧ (month_index doy < 10 ↔ doy < 306).
Proof. unfold day_of_month, month_index. intros H. divisions. Qed.

Lemma year_of_era_lt doe doe' :
  0 <= doe < doe' → doe' < ERA_DAYS →
  year_of_era doe <= year_of_era doe' ∧
  (year_of_era doe = year_of_era doe' → day_of_year doe < day_of_year doe').
Proof.
  unfold ERA_DAYS. intros H H'. split.
  - unfold year_of_era. divisions.
  - unfold day_of_year. intros ->. lia.
Qed.

Lemma month_lt doy doy' :
  0 <= doy < doy' → doy' <= 365 →
  month_index doy <= month_index doy' ∧
  (month_index doy = month_index doy' → day_of_month doy < day_of_month doy').
Proof.
  intros H H'. split; [unfold month_index; divisions|]. unfold day_of_month. intros ->. lia.
Qed.

Lemma day_date_ranges n : let '(_, m, d) := day_date n in 1 <= m <= 12 ∧ 1 <= d <= 31.
Proof.
  unfold day_date. cbn zeta. set (doe := (n + 719468) mod ERA_DAYS).
  assert (0 <= doe < ERA_DAYS) as Hdoe by (by apply Z.mod_pos_bound).
  destruct (year_of_era_bounds doe Hdoe) as [_ Hdoy].
  destruct (month_bounds _ Hdoy) as (Hm & Hd & _).
  destruct (Z.ltb_spec (month_index (day_of_year doe)) 10); lia.
Qed.

Lemma day_date_years n : 0 <= n <= 2932896 → let '(y, _, _) := day_date n in 1970 <= y <= 9999.
Proof.
  intros Hn. unfold day_date. cbn zeta. set (z := n + 719468).
  assert (0 <= z mod ERA_DAYS < ERA_DAYS) as Hdoe by (by apply Z.mod_pos_bound).
  pose proof (Z.div_mod z ERA_DAYS ltac:(done)) as Hz.
  destruct (year_of_era_bounds _ Hdoe) as [_ Hdoy].
  destruct (month_bounds _ Hdoy) as (Hm & _ & Hlt).
  set (era := z / ERA_DAYS) in *. set (doe := z mod ERA_DAYS) in *.
  assert (1969 <= year_of_era doe + era * 400 <= 9999 ∧
    (day_of_year doe < 306 → 1970 <= year_of_era doe + era * 400) ∧
    (306 <= day_of_year doe → year_of_era doe + era * 400 <= 9998)) as (Hy & Hlo & Hhi).
  { clearbody era doe. unfold day_of_year, year_of_era, ERA_DAYS in *. subst z. divisions. }
  destruct (Z.ltb_spec (month_index (day_of_year doe)) 10); split_tests; lia.
Qed.

Lemma day_date_lt n n' : n < n' →
  let '(y, m, d) := day_date n in let '(y', m', d') := day_date n' in
  y < y' ∨ (y = y' ∧ (m < m' ∨ (m = m' ∧ d < d'))).
Proof.
  intros Hn. unfold day_date. cbn zeta. set (z := n + 719468). set (z' := n' + 719468).
  assert (0 <= z mod ERA_DAYS < ERA_DAYS) as Hdoe by (by apply Z.mod_pos_bound).
  assert (0 <= z' mod ERA_DAYS < ERA_DAYS) as Hdoe' by (by apply Z.mod_pos_bound).
  pose proof (Z.div_mod z ERA_DAYS ltac:(done)) as Hz. pose proof (Z.div_mod z' ERA_DAYS ltac:(done)) as Hz'.
  destruct (year_of_era_bounds _ Hdoe) as [Hy Hdoy]. destruct (year_of_era_bounds _ Hdoe') as [Hy' Hdoy'].
  destruct (month_bounds _ Hdoy) as (Hm & Hd & _). destruct (month_bounds _ Hdoy') as (Hm' & Hd' & _).
  assert (z / ERA_DAYS < z' / ERA_DAYS ∨
    z / ERA_DAYS = z' / ERA_DAYS ∧ z mod ERA_DAYS < z' mod ERA_DAYS) as Hera
    by (unfold ERA_DAYS in *; lia).
  destruct (Z.ltb_spec (month_index (day_of_year (z mod ERA_DAYS))) 10),
    (Z.ltb_spec (month_index (day_of_year (z' mod ERA_DAYS))) 10); split_tests; try lia;
    destruct Hera as [Hera|[Hera Hlt]]; try lia;
    destruct (year_of_era_lt _ _ ltac:(split; [apply Hdoe|exact Hlt]) (proj2 Hdoe')) as [Hle Heq];
    destruct (Z.eq_dec (year_of_era (z mod ERA_DAYS)) (year_of_era (z' mod ERA_DAYS))) as [He|He]; try lia;
    destruct (month_lt _ _ ltac:(split; [apply Hdoy|exact (Heq He)]) (proj2 Hdoy')) as [Hml Hme]; lia.
Qed.

(** The interface holds of it. *)
Definition gregorian_civil (t : Z) : option Civil.t :=
  if bool_decide (TIMESTAMP_MIN <= t <= TIMESTAMP_MAX) then Some (gregorian t) else None.

Definition gregorian_calendar : Calendar.
Proof.
  refine {| civil := gregorian_civil |}; unfold gregorian_civil.
  - intros t. case_bool_decide; split; try done.
  - intros t x. case_bool_decide; [|done]. intros [= <-]. unfold gregorian.
    by destruct (day_date _) as [[y m] d].
  - intros t x. case_bool_decide as Ht; [|done]. intros [= <-]. unfold gregorian.
    pose proof (day_date_ranges (t / DAY)) as Hr. pose proof (day_date_years (t / DAY)) as Hy.
    destruct (day_date _) as [[y m] d]. cbn. split_and!; try lia; intros H0; apply Hy;
      unfold TIMESTAMP_MAX, DAY in *; (split; [apply Z.div_pos; lia|]);
      apply Z.lt_succ_r, Z.div_lt_upper_bound; lia.
  - intros t u x y. do 2 (case_bool_decide; [|done]). intros [= <-] [= <-] Hd. unfold gregorian.
    rewrite Hd. by destruct (day_date _) as [[? ?] ?].
  - intros t u x y. do 2 (case_bool_decide; [|done]). intros [= <-] [= <-] Hd. unfold gregorian.
    pose proof (day_date_lt _ _ Hd). by destruct (day_date _) as [[? ?] ?], (day_date _) as [[? ?] ?].
Defined.
