(* ===== verification/ObjectKeys.v ===== *)
(** * Keys of trace objects (dial9-destinations-s3/src/s3.rs, segment_object_key.rs;
      dial9-viewer/src/segment_object_key_parser.rs, segment_object_key_codec.rs, source_key_scope.rs)

    The uploader of a recorder names the objects it writes; the viewer, another
    program, reads service, host, time and index back from those names, and
    from names of older layouts.  This file models both sides and proves that
    they agree. *)

From Stdlib Require Import ZArith Lia.
From stdpp Require Import base list gmap strings option.
From coqutil Require Import Byte.
From S2P Require Import Prelude.
From S2P Require Import Text.
From S2P Require Import Utf8.
From S2P Require Import SamplingConfig.
From S2P Require Import Paths.

(** ** The uploader's keys *)

Module KeyContext.
Record t : Type := mk { index : Z; epoch_secs : Z; boot_id : bytes }.
End KeyContext.

(** The fields of [S3Config] that make keys; [key_fn] is the caller's. *)
Module S3Config.
Record t : Type := mk {
  bucket : bytes;
  service_name : bytes;
  instance_path : bytes;
  boot_id : bytes;
  prefix : option bytes;
  key_fn : option (KeyContext.t → bytes) }.
End S3Config.

(** [{:04}-{:02}-{:02}] of a date. *)
Definition date_text (x : Civil.t) : bytes :=
  put_padded 4 (Civil.year x) ++ lit "-" ++ put_padded 2 (Civil.month x) ++ lit "-" ++
  put_padded 2 (Civil.day x).

(** [{:02}{:02}] of a time of day. *)
Definition time_text (x : Civil.t) : bytes :=
  put_padded 2 (Civil.hour x) ++ put_padded 2 (Civil.minute x).

(** A partition value: [name=escaped]. *)
Definition partition (name : string) (value : bytes) : bytes := lit name ++ lit "=" ++ hive_escape value.

(** [format_v1_segment_object_key]. *)
Definition v1_suffix (date service time instance boot_id filename : bytes) : bytes :=
  join_slash [lit "version=1"; partition "date" date; partition "service" service;
    partition "time" time; partition "instance" instance; partition "boot" boot_id; filename].

Definition format_v1_segment_object_key (prefix : option bytes)
    (date service time instance boot_id filename : bytes) : bytes :=
  let suffix := v1_suffix date service time instance boot_id filename in
  match prefix with Some p => p ++ lit "/" ++ suffix | None => suffix end.

Section keys.
Context {Cal : Calendar}.

(** [from_unix_timestamp(epoch_secs as i64).unwrap_or(UNIX_EPOCH)]. *)
Definition date_time (epoch_secs : Z) : Civil.t :=
  match civil (to_signed 64 epoch_secs) with
  | Some x => x
  | None => default (Civil.mk 1970 1 1 0 0) (civil 0)
  end.

Definition time_bucket_from_epoch (epoch_secs : Z) : bytes * bytes :=
  let x := date_time epoch_secs in (date_text x, time_text x).

(** [metadata.get("epoch_secs").and_then(|s| s.parse().ok()).unwrap_or(0)]. *)
Definition epoch_of (metadata : gmap bytes bytes) : Z :=
  default 0 (s ← metadata !! lit "epoch_secs"; parse_uint 64 s).

Definition is_gzip (metadata : gmap bytes bytes) : bool :=
  bool_decide (metadata !! lit "content_encoding" = Some (lit "gzip")).

Definition file_name (epoch_secs index : Z) (gzip : bool) : bytes :=
  put_dec epoch_secs ++ lit "-" ++ put_dec index ++ (if gzip then lit ".bin.gz" else lit ".bin").

(** [S3Config::object_key]; a segment is its index. *)
Definition object_key (c : S3Config.t) (index : Z) (metadata : gmap bytes bytes) : bytes :=
  let epoch_secs := epoch_of metadata in
  match S3Config.key_fn c with
  | Some key_fn => key_fn (KeyContext.mk index epoch_secs (S3Config.boot_id c))
  | None =>
      let '(date, time) := time_bucket_from_epoch epoch_secs in
      format_v1_segment_object_key (S3Config.prefix c) date (S3Config.service_name c) time
        (S3Config.instance_path c) (S3Config.boot_id c) (file_name epoch_secs index (is_gzip metadata))
  end.
End keys.

Definition manifest_key (c : S3Config.t) (dump_id : bytes) : bytes :=
  match S3Config.prefix c with
  | Some p => p ++ lit "/dumps/" ++ dump_id ++ lit ".json"
  | None => lit "dumps/" ++ dump_id ++ lit ".json"
  end.

(** ** The viewer's parser *)

(** [hive_unescape]: one layer of [%HH]; [None] for a broken escape or when the
    result is not UTF-8. *)
Fixpoint unescape_bytes (s : bytes) : option bytes :=
  match s with
  | [] => Some []
  | c :: s' =>
      if bool_decide (c = z2b 37) then
        match s' with
        | h :: l :: r =>
            high ← hex_digit h; low ← hex_digit l;
            rest ← unescape_bytes r; Some (z2b (Z.lor (Z.shiftl high 4) low) :: rest)
        | _ => None
        end
      else rest ← unescape_bytes s'; Some (c :: rest)
  end.

Definition hive_unescape (value : bytes) : option bytes :=
  if bool_decide (z2b 37 ∈ value) then d ← unescape_bytes value; from_utf8 d else Some value.

Inductive layout : Set := Version1 | PositionalWithBoot | PositionalWithoutBoot | Unknown.

#[global] Instance layout_eq_dec : EqDecision layout.
Proof. solve_decision. Defined.

Module ParsedKey.
Record t : Type := mk {
  layout : layout;
  date : option bytes;
  time : option bytes;
  service : option bytes;
  instance : option bytes;
  boot_id : option bytes;
  filename : bytes;
  epoch_secs : option Z;
  segment_index : option Z }.
End ParsedKey.

Definition all_digits (s : bytes) : bool := forallb (λ c, bool_decide (is_Some (digit c))) s.

Definition is_date (value : bytes) : bool :=
  (length value =? 10)%nat && bool_decide (value !! 4%nat = Some (z2b 45)) &&
  bool_decide (value !! 7%nat = Some (z2b 45)) && all_digits (take 4 value) &&
  all_digits (take 2 (drop 5 value)) && all_digits (drop 8 value).

Definition is_time (value : bytes) : bool := (length value =? 4)%nat && all_digits value.

Definition strip_s3 (key : bytes) : bytes :=
  match strip_prefix (lit "s3://") key with
  | Some rest => match split_once [SLASH] rest with Some (_, path) => path | None => rest end
  | None => key
  end.

(** [decode_partition]: [None] without the name, [Some None] for a bad value. *)
Definition decode_partition (segment : bytes) (name : string) : option (option bytes) :=
  rest ← strip_prefix (lit name) segment;
  encoded ← strip_prefix (lit "=") rest;
  Some (hive_unescape encoded).

Definition parse_version1 (parts : list bytes) : option (bytes * bytes * bytes * bytes * bytes) :=
  if (length parts <? 7)%nat then None
  else
    match drop (length parts - 7) parts with
    | v :: d :: s :: t :: i :: b :: _ =>
        if negb (bool_decide (v = lit "version=1")) then None
        else
          date ← mjoin (decode_partition d "date");
          _ ← guard (is_date date = true);
          service ← mjoin (decode_partition s "service");
          time ← mjoin (decode_partition t "time");
          _ ← guard (is_time time = true);
          instance ← mjoin (decode_partition i "instance");
          boot_id ← mjoin (decode_partition b "boot");
          Some (date, service, time, instance, boot_id)
    | _ => None
    end.

Definition parse_filename (filename : bytes) : option (Z * Z) :=
  stem ← match strip_suffix (lit ".bin.gz") filename with
         | Some s => Some s
         | None => strip_suffix (lit ".bin") filename
         end;
  '(epoch, index) ← split_once (lit "-") stem;
  if bool_decide (z2b 45 ∈ index) then None
  else e ← parse_int 64 epoch; i ← parse_uint 32 index; Some (e, i).

(** The date, time, service and instance of a positional layout that has [n]
    words, and the word behind them. *)
Definition positional (n : nat) (parts : list bytes) : option (bytes * bytes * bytes * bytes * bytes) :=
  if (n <=? length parts)%nat then
    match drop (length parts - n) parts with
    | d :: t :: s :: i :: b :: _ => if is_date d && is_time t then Some (d, t, s, i, b) else None
    | _ => None
    end
  else None.

Definition parse_segment_object_key (key : bytes) : ParsedKey.t :=
  let parts := split_on SLASH (strip_s3 key) in
  let filename := default [] (list.last parts) in
  let epoch_secs := fst <$> parse_filename filename in
  let segment_index := snd <$> parse_filename filename in
  match parse_version1 parts with
  | Some (date, service, time, instance, boot_id) =>
      ParsedKey.mk Version1 (Some date) (Some time) (Some service) (Some instance) (Some boot_id)
        filename epoch_secs segment_index
  | None =>
      match positional 6 parts with
      | Some (d, t, s, i, b) =>
          ParsedKey.mk PositionalWithBoot (Some d) (Some t) (Some s) (Some i) (Some b)
            filename epoch_secs segment_index
      | None =>
          match positional 5 parts with
          | Some (d, t, s, i, _) =>
              ParsedKey.mk PositionalWithoutBoot (Some d) (Some t) (Some s) (Some i) None
                filename epoch_secs segment_index
          | None =>
              ParsedKey.mk Unknown None None None None None filename epoch_secs segment_index
          end
      end
  end.

Definition has_version1_anchor (key : bytes) : bool :=
  bool_decide (lit "version=1" ∈ split_on SLASH (strip_s3 key)).

(** The last place where a date is followed by a time:
    [parts.windows(2).rposition(..)]. *)
Fixpoint date_anchor (parts : list bytes) : option nat :=
  match parts with
  | d :: (t :: _) as rest =>
      match date_anchor rest with
      | Some n => Some (S n)
      | None => if is_date d && is_time t then Some 0%nat else None
      end
  | _ => None
  end.

(** The path [scope_fields_inner] looks at: [s3://bucket] without a slash is
    kept whole. *)
Definition scope_path (key : bytes) : bytes :=
  match strip_prefix (lit "s3://") key with
  | Some rest => match split_once [SLASH] rest with Some (_, path) => path | None => key end
  | None => key
  end.

Definition scope_fields_inner (key : bytes) (allow_custom_fallback : bool) :
    option (bytes * bytes * bytes) :=
  let parsed := parse_segment_object_key key in
  if negb (bool_decide (ParsedKey.layout parsed = Unknown)) then
    _ ← ParsedKey.time parsed;
    date ← ParsedKey.date parsed; service ← ParsedKey.service parsed;
    instance ← ParsedKey.instance parsed; Some (date, service, instance)
  else if has_version1_anchor key then None
  else
    let parts := split_on SLASH (scope_path key) in
    match date_anchor parts with
    | Some anchor =>
        date ← parts !! anchor; service ← parts !! (anchor + 2)%nat;
        host ← parts !! (anchor + 3)%nat; Some (date, service, host)
    | None =>
        if allow_custom_fallback
        then Some (default [] (parts !! 0%nat), default [] (parts !! 2%nat), default [] (parts !! 3%nat))
        else None
    end.

Definition scope_fields (key : bytes) : option (bytes * bytes * bytes) := scope_fields_inner key true.

Definition dated_scope_fields (key : bytes) : option (bytes * bytes * bytes) :=
  scope_fields_inner key false.

(** [is_trace_segment], [full_source_key] (ingest/aggregate.rs). *)
Definition is_trace_segment (key : bytes) : bool :=
  (ends_with (lit ".bin.gz") key || ends_with (lit ".bin") key) &&
  negb (contains (lit "/samples/") key) && negb (contains (lit "/dict/") key) &&
  negb (contains (lit "/flamegraph-data/") key).

Definition full_source_key (source_is_local : bool) (source_bucket key : bytes) : bytes :=
  if source_is_local then key else lit "s3://" ++ source_bucket ++ lit "/" ++ key.

(** ** Escaped values are read back *)

Lemma escape_byte_read b r :
  unescape_bytes (escape_byte b ++ r) = rest ← unescape_bytes r; Some (b :: rest).
Proof.
  assert (forallb (λ b,
    match escape_byte b with
    | [c] => bool_decide (c = b) && negb (bool_decide (c = z2b 37))
    | [c; h; l] =>
        bool_decide (c = z2b 37) &&
        match hex_digit h, hex_digit l with
        | Some x, Some y => bool_decide (z2b (Z.lor (Z.shiftl x 4) y) = b)
        | _, _ => false
        end
    | _ => false
    end) (map z2b (seqZ 0 256)) = true) as Hall by (by vm_compute).
  rewrite forallb_forall in Hall. specialize (Hall b).
  assert (In b (map z2b (seqZ 0 256))) as Hin.
  { rewrite <- (byte.of_Z_unsigned b). apply in_map, list_elem_of_In, elem_of_seqZ.
    pose proof (b2z_fits b). unfold fits in *. lia. }
  specialize (Hall Hin). destruct (escape_byte b) as [|c [|h [|l [|]]]]; try done.
  - apply andb_true_iff in Hall as [H1 H2]. apply negb_true_iff in H2. bool_facts. subst c.
    cbn [app unescape_bytes]. by rewrite bool_decide_false.
  - apply andb_true_iff in Hall as [H1 H2]. bool_facts. subst c. cbn [app unescape_bytes].
    rewrite bool_decide_true by done. destruct (hex_digit h) as [x|]; [|done].
    destruct (hex_digit l) as [y|]; [|done]. bool_facts. cbn [mbind option_bind]. by rewrite H2.
Qed.

Lemma unescape_escape s : unescape_bytes (hive_escape s) = Some s.
Proof.
  induction s as [|b s IH]; [done|]. unfold hive_escape in *. cbn [map concat].
  by rewrite escape_byte_read, IH.
Qed.

Lemma unescape_plain s : z2b 37 ∉ s → unescape_bytes s = Some s.
Proof.
  induction s as [|c s IH]; [done|]. intros H. apply not_elem_of_cons in H as [Hc Hs].
  cbn [unescape_bytes]. rewrite bool_decide_false by done. by rewrite IH.
Qed.

Lemma hive_unescape_read s : utf8_valid s = true → hive_unescape (hive_escape s) = Some s.
Proof.
  intros Hv. unfold hive_unescape. pose proof (unescape_escape s) as Hu. case_bool_decide as Hp.
  - rewrite Hu. cbn [mbind option_bind]. by apply from_utf8_valid.
  - rewrite unescape_plain in Hu by done. congruence.
Qed.

(** Texts of digits and hyphens are not touched by escaping. *)
Definition plain (s : bytes) : Prop := Forall (λ c, is_Some (digit c) ∨ c = z2b 45) s.

Lemma digit_plain c : is_Some (digit c) → needs_hive_escape c = false ∧ c <> z2b 37 ∧ c <> SLASH ∧ c <> z2b 45.
Proof.
  intros [d Hd]. apply digit_some in Hd as [-> Hd].
  assert (d ∈ seqZ 0 10) as Hin by (apply elem_of_seqZ; lia).
  assert (Forall (λ d, needs_hive_escape (z2b (48 + d)) = false ∧ z2b (48 + d) <> z2b 37 ∧
    z2b (48 + d) <> SLASH ∧ z2b (48 + d) <> z2b 45) (seqZ 0 10)) as Hall
    by (apply (bool_decide_unpack _); by vm_compute).
  rewrite list.Forall_forall in Hall. by apply Hall.
Qed.

Lemma plain_facts s : plain s → hive_escape s = s ∧ z2b 37 ∉ s ∧ SLASH ∉ s.
Proof.
  induction 1 as [|c s Hc Hs (IH1 & IH2 & IH3)]; [split_and!; [done|apply not_elem_of_nil..]|].
  assert (needs_hive_escape c = false ∧ c <> z2b 37 ∧ c <> SLASH) as (H1 & H2 & H3).
  { destruct Hc as [Hc| ->]; [|by vm_compute]. destruct (digit_plain c Hc) as (? & ? & ? & _). done. }
  assert (escape_byte c = [c]) as He by (unfold escape_byte; by rewrite H1).
  unfold hive_escape in *. cbn [map concat]. rewrite He, IH1.
  split_and!; [done|..]; apply not_elem_of_cons; split; congruence || done.
Qed.

Lemma plain_digits s : all_digits s = true ↔ Forall (λ c, is_Some (digit c)) s.
Proof.
  unfold all_digits. rewrite forallb_forall, list.Forall_forall. setoid_rewrite <- list_elem_of_In.
  by setoid_rewrite bool_decide_eq_true.
Qed.

Lemma put_dec_loop_length fuel n k acc :
  (1 <= k)%nat → 0 <= n < 10 ^ Z.of_nat k →
  (length (put_dec_loop fuel n acc) <= k + length acc)%nat.
Proof.
  revert n k acc. induction fuel as [|fuel IH]; intros n k acc Hk Hn; [cbn; lia|].
  cbn [put_dec_loop]. destruct (Z.eqb_spec (n / 10) 0) as [|H0]; [cbn; lia|].
  destruct k as [|[|k]]; [lia|..].
  - rewrite Z.div_small in H0; lia.
  - pose proof (IH (n / 10) (S k) (z2b (48 + n mod 10) :: acc) ltac:(lia)) as Hl.
    rewrite (Nat2Z.inj_succ (S k)), Z.pow_succ_r in Hn by lia.
    cbn [length] in Hl. enough (0 <= n / 10 < 10 ^ Z.of_nat (S k)) as Hb by (specialize (Hl Hb); lia).
    split; [apply Z.div_pos; lia|]. apply Z.div_lt_upper_bound; lia.
Qed.

Lemma put_padded_digits w n :
  (1 <= w)%nat → 0 <= n < 10 ^ Z.of_nat w →
  length (put_padded w n) = w ∧ Forall (λ c, is_Some (digit c)) (put_padded w n).
Proof.
  intros Hw Hn. unfold put_padded. rewrite (proj2 (Z.ltb_ge n 0)) by lia. cbn [app length].
  rewrite Z.abs_eq, Nat.sub_0_r by lia.
  pose proof (put_dec_loop_length 20 n w [] Hw Hn) as Hl. fold (put_dec n) in Hl. cbn [length] in Hl.
  destruct (put_dec_digits n) as [_ Hd]; [lia|]. split.
  - rewrite length_app, repeat_length. lia.
  - apply list.Forall_app. split; [|done]. apply list.Forall_forall. intros c Hc.
    apply list_elem_of_In, repeat_spec in Hc as ->. by eexists.
Qed.

(** ** Dates, times and names of files *)

#[local] Opaque put_padded put_dec.

Lemma digits_plain s : Forall (λ c, is_Some (digit c)) s → plain s.
Proof. intros H. eapply list.Forall_impl; [exact H|]. by left. Qed.

Lemma plain_app s t : plain s → plain t → plain (s ++ t).
Proof. intros. by apply list.Forall_app. Qed.

Lemma plain_hyphen : plain (lit "-").
Proof. by constructor; [right|constructor]. Qed.

(** A date the format has four digits for. *)
Definition four_digits (x : Civil.t) : Prop :=
  0 <= Civil.year x <= 9999 ∧ 1 <= Civil.month x <= 12 ∧ 1 <= Civil.day x <= 31.

Lemma date_text_ok x : four_digits x → is_date (date_text x) = true ∧ plain (date_text x).
Proof.
  intros (Hy & Hm & Hd). unfold date_text.
  destruct (put_padded_digits 4 (Civil.year x)) as [Ly Dy]; [lia|cbn; lia|].
  destruct (put_padded_digits 2 (Civil.month x)) as [Lm Dm]; [lia|cbn; lia|].
  destruct (put_padded_digits 2 (Civil.day x)) as [Ld Dd]; [lia|cbn; lia|].
  split; [|exact (plain_app _ _ (digits_plain _ Dy) (plain_app _ _ plain_hyphen
    (plain_app _ _ (digits_plain _ Dm) (plain_app _ _ plain_hyphen (digits_plain _ Dd)))))].
  destruct (put_padded 4 (Civil.year x)) as [|y1 [|y2 [|y3 [|y4 [|]]]]]; try done.
  destruct (put_padded 2 (Civil.month x)) as [|m1 [|m2 [|]]]; try done.
  destruct (put_padded 2 (Civil.day x)) as [|d1 [|d2 [|]]]; try done.
  pose proof (proj2 (plain_digits _) Dy) as Ey. pose proof (proj2 (plain_digits _) Dm) as Em.
  pose proof (proj2 (plain_digits _) Dd) as Ed. unfold is_date.
  change (take 4 _) with [y1; y2; y3; y4]. change (take 2 (drop 5 _)) with [m1; m2].
  change (drop 8 _) with [d1; d2]. by rewrite Ey, Em, Ed.
Qed.

Lemma time_text_ok x :
  0 <= Civil.hour x < 24 → 0 <= Civil.minute x < 60 →
  is_time (time_text x) = true ∧ plain (time_text x).
Proof.
  intros Hh Hm. unfold time_text, is_time.
  destruct (put_padded_digits 2 (Civil.hour x)) as [Lh Dh]; [lia|cbn; lia|].
  destruct (put_padded_digits 2 (Civil.minute x)) as [Lm Dm]; [lia|cbn; lia|].
  rewrite length_app, Lh, Lm.
  assert (Forall (λ c, is_Some (digit c)) (put_padded 2 (Civil.hour x) ++ put_padded 2 (Civil.minute x)))
    as Hd by (exact (proj2 (list.Forall_app _ _ _) (conj Dh Dm))).
  split; [by rewrite (proj2 (plain_digits _) Hd)|by apply digits_plain].
Qed.

Lemma put_dec_plain n : 0 <= n → plain (put_dec n) ∧ z2b 45 ∉ put_dec n.
Proof.
  intros Hn. destruct (put_dec_digits n Hn) as [_ Hd]. split; [by apply digits_plain|].
  by apply put_dec_no.
Qed.

Lemma file_name_ok e i g :
  0 <= e < 2 ^ 63 → fits 32 i →
  parse_filename (file_name e i g) = Some (e, i) ∧ SLASH ∉ file_name e i g.
Proof.
  intros He [Hi0 Hi]. destruct (put_dec_plain e) as [Pe Ne]; [lia|].
  destruct (put_dec_plain i) as [Pi Ni]; [lia|]. split.
  - unfold parse_filename, file_name.
    set (stem := put_dec e ++ lit "-" ++ put_dec i).
    assert (match strip_suffix (lit ".bin.gz") (stem ++ (if g then lit ".bin.gz" else lit ".bin")) with
            | Some s => Some s
            | None => strip_suffix (lit ".bin") (stem ++ (if g then lit ".bin.gz" else lit ".bin"))
            end = Some stem) as Hs.
    { destruct g; [by rewrite strip_suffix_app|].
      assert (strip_suffix (lit ".bin.gz") (stem ++ lit ".bin") = None) as ->
        by (unfold strip_suffix; rewrite reverse_app; reflexivity).
      apply strip_suffix_app. }
    assert (put_dec e ++ lit "-" ++ put_dec i ++ (if g then lit ".bin.gz" else lit ".bin") =
      stem ++ (if g then lit ".bin.gz" else lit ".bin")) as -> by (subst stem; by rewrite <- !app_assoc).
    rewrite Hs. cbn [mbind option_bind]. subst stem. change (lit "-" ++ put_dec i) with (z2b 45 :: put_dec i).
    change (lit "-") with [z2b 45]. rewrite split_once_char by done. cbn [mbind option_bind].
    rewrite bool_decide_false by done. rewrite parse_int_put by lia. cbn [mbind option_bind].
    by rewrite parse_uint_put by (unfold fits in *; lia).
  - destruct (plain_facts _ Pe) as (_ & _ & S1). destruct (plain_facts _ Pi) as (_ & _ & S2).
    unfold file_name. rewrite !elem_of_app. intros [H|[H|[H|H]]]; try done.
    + by vm_compute in H; apply list_elem_of_singleton in H.
    + destruct g; revert H; apply (bool_decide_unpack _); by vm_compute.
Qed.

Lemma partition_read name value :
  utf8_valid value = true → decode_partition (partition name value) name = Some (Some value).
Proof.
  intros Hv. unfold decode_partition, partition. rewrite strip_prefix_app. cbn [mbind option_bind].
  rewrite strip_prefix_app. cbn [mbind option_bind]. by rewrite hive_unescape_read.
Qed.

Lemma partition_plain name value :
  plain value → decode_partition (partition name value) name = Some (Some value).
Proof.
  intros Hp. destruct (plain_facts _ Hp) as (He & Hn & _). unfold decode_partition, partition.
  rewrite He, strip_prefix_app. cbn [mbind option_bind]. rewrite strip_prefix_app.
  cbn [mbind option_bind]. unfold hive_unescape. by rewrite bool_decide_false.
Qed.

Lemma partition_no_slash name value : SLASH ∉ lit name → SLASH ∉ partition name value.
Proof.
  intros Hn. unfold partition. rewrite !elem_of_app. intros [H|[H|H]].
  - done.
  - revert H. apply (bool_decide_unpack _). by vm_compute.
  - by apply (proj1 (hive_escape_plain value)).
Qed.

Ltac no_slash := apply (bool_decide_unpack _); by vm_compute.

(** The words of a key, and what the parser makes of them. *)
Lemma v1_parts prefix date service time instance boot filename :
  SLASH ∉ filename →
  split_on SLASH (format_v1_segment_object_key prefix date service time instance boot filename) =
  match prefix with Some p => split_on SLASH p | None => [] end ++
    [lit "version=1"; partition "date" date; partition "service" service; partition "time" time;
     partition "instance" instance; partition "boot" boot; filename].
Proof.
  intros Hf. unfold format_v1_segment_object_key, v1_suffix.
  assert (∀ words, words <> [] → Forall (λ w, SLASH ∉ w) words →
    split_on SLASH (match prefix with Some p => p ++ lit "/" ++ join_slash words | None => join_slash words end) =
    match prefix with Some p => split_on SLASH p | None => [] end ++ words) as Hgen.
  { intros words Hne Hw. destruct prefix as [p|].
    - change (lit "/" ++ join_slash words) with (SLASH :: join_slash words).
      by rewrite split_on_app_gen, split_join.
    - by apply split_join. }
  apply Hgen; [discriminate|]. apply list.Forall_cons; split; [no_slash|].
  do 5 (apply list.Forall_cons; split; [apply partition_no_slash; no_slash|]).
  apply list.Forall_cons; split; [exact Hf|constructor].
Qed.

Lemma drop_tail {A} (l k : list A) : drop (length (l ++ k) - length k) (l ++ k) = k.
Proof. rewrite length_app. replace (length l + length k - length k)%nat with (length l) by lia. apply drop_app_length. Qed.

Lemma v1_parse l date service time instance boot filename :
  is_date date = true → plain date → is_time time = true → plain time →
  utf8_valid service = true → utf8_valid instance = true → utf8_valid boot = true →
  parse_version1 (l ++
    [lit "version=1"; partition "date" date; partition "service" service; partition "time" time;
     partition "instance" instance; partition "boot" boot; filename]) =
  Some (date, service, time, instance, boot).
Proof.
  intros Hd Pd Ht Pt Hs Hi Hb. unfold parse_version1.
  destruct (Nat.ltb_spec (length (l ++ [lit "version=1"; partition "date" date; partition "service" service;
    partition "time" time; partition "instance" instance; partition "boot" boot; filename])) 7) as [Hlt|_].
  { rewrite length_app in Hlt. cbn in Hlt. lia. }
  change 7%nat with (length [lit "version=1"; partition "date" date; partition "service" service;
    partition "time" time; partition "instance" instance; partition "boot" boot; filename]) at 1.
  rewrite drop_tail, bool_decide_true by done. cbn [negb].
  rewrite (partition_plain "date" date Pd), (partition_plain "time" time Pt),
    (partition_read "service" service Hs), (partition_read "instance" instance Hi),
    (partition_read "boot" boot Hb).
  cbn [mjoin option_join mbind option_bind]. rewrite !option_guard_True by done. reflexivity.
Qed.

(** ** The keys of a recorder's segments *)
Section written.
Context {Cal : Calendar}.

(** A configuration with the default layout; its strings are Rust's. *)
Record default_layout (c : S3Config.t) : Prop := {
  layout_key_fn : S3Config.key_fn c = None;
  layout_service : utf8_valid (S3Config.service_name c) = true;
  layout_instance : utf8_valid (S3Config.instance_path c) = true;
  layout_boot : utf8_valid (S3Config.boot_id c) = true }.

(** The creation time of a segment, in the years the calendar has. *)
Definition dated (metadata : gmap bytes bytes) : Prop := 0 <= epoch_of metadata <= TIMESTAMP_MAX.

Lemma date_time_civil e : 0 <= e <= TIMESTAMP_MAX → civil e = Some (date_time e).
Proof.
  intros He. unfold date_time, to_signed. unfold TIMESTAMP_MAX in He.
  rewrite (proj2 (Z.ltb_lt e (2 ^ (64 - 1)))) by lia.
  destruct (proj2 (civil_range e)) as [x Hx]; [unfold TIMESTAMP_MIN, TIMESTAMP_MAX; lia|]. by rewrite Hx.
Qed.

Lemma civil_four_digits e x : 0 <= e → civil e = Some x → four_digits x.
Proof.
  intros He Hx. destruct (civil_date e x Hx) as (Hm & Hd & Hy). unfold four_digits. specialize (Hy He). lia.
Qed.

Lemma civil_clock_ok e x :
  civil e = Some x → 0 <= Civil.hour x < 24 ∧ 0 <= Civil.minute x < 60.
Proof. intros Hx. destruct (civil_clock e x Hx) as [-> ->]. unfold DAY. divisions. Qed.

Lemma object_key_v1 c index metadata :
  S3Config.key_fn c = None →
  object_key c index metadata =
  format_v1_segment_object_key (S3Config.prefix c) (date_text (date_time (epoch_of metadata)))
    (S3Config.service_name c) (time_text (date_time (epoch_of metadata))) (S3Config.instance_path c)
    (S3Config.boot_id c) (file_name (epoch_of metadata) index (is_gzip metadata)).
Proof. unfold object_key. by intros ->. Qed.

(** The words of the key behind those of the prefix. *)
Definition key_words (c : S3Config.t) (index : Z) (metadata : gmap bytes bytes) : list bytes :=
  let x := date_time (epoch_of metadata) in
  [lit "version=1"; partition "date" (date_text x); partition "service" (S3Config.service_name c);
   partition "time" (time_text x); partition "instance" (S3Config.instance_path c);
   partition "boot" (S3Config.boot_id c); file_name (epoch_of metadata) index (is_gzip metadata)].

Definition prefix_words (c : S3Config.t) : list bytes :=
  match S3Config.prefix c with Some p => split_on SLASH p | None => [] end.

Lemma object_key_words c index metadata :
  default_layout c → dated metadata → fits 32 index →
  split_on SLASH (object_key c index metadata) = prefix_words c ++ key_words c index metadata.
Proof.
  intros Hc Hm Hi. rewrite object_key_v1 by apply Hc. apply v1_parts.
  unfold dated, TIMESTAMP_MAX in Hm. apply file_name_ok; [lia|done].
Qed.

Lemma strip_s3_full local bucket key :
  SLASH ∉ bucket → (local = true → starts_with (lit "s3://") key = false) →
  strip_s3 (full_source_key local bucket key) = key.
Proof.
  intros Hb Hl. unfold strip_s3, full_source_key. destruct local.
  - specialize (Hl eq_refl). unfold starts_with in Hl. bool_facts.
    by rewrite (proj2 (eq_None_not_Some _) Hl).
  - rewrite strip_prefix_app. change (lit "/" ++ key) with (SLASH :: key).
    by rewrite split_once_char.
Qed.

Definition parsed_key (c : S3Config.t) (index : Z) (metadata : gmap bytes bytes) : ParsedKey.t :=
  let e := epoch_of metadata in
  let x := date_time e in
  ParsedKey.mk Version1 (Some (date_text x)) (Some (time_text x)) (Some (S3Config.service_name c))
    (Some (S3Config.instance_path c)) (Some (S3Config.boot_id c)) (file_name e index (is_gzip metadata))
    (Some e) (Some index).

Lemma parse_object_key c index metadata key :
  default_layout c → dated metadata → fits 32 index →
  strip_s3 key = object_key c index metadata →
  parse_segment_object_key key = parsed_key c index metadata.
Proof.
  intros Hc Hm Hi Hk. pose proof (object_key_words c index metadata Hc Hm Hi) as Hw.
  unfold dated in Hm. pose proof (date_time_civil _ Hm) as Hx.
  destruct (date_text_ok (date_time (epoch_of metadata))) as [Hd Pd].
  { eapply civil_four_digits; [|exact Hx]. lia. }
  destruct (civil_clock_ok _ _ Hx) as [Hh Hmin].
  destruct (time_text_ok (date_time (epoch_of metadata)) Hh Hmin) as [Ht Pt].
  destruct (file_name_ok (epoch_of metadata) index (is_gzip metadata)) as [Hf _];
    [unfold TIMESTAMP_MAX in Hm; lia|done|].
  unfold parse_segment_object_key. rewrite Hk, Hw. unfold key_words.
  rewrite v1_parse by (try done; apply Hc).
  change [lit "version=1"; ?a; ?b; ?d; ?e; ?f; ?g] with ([lit "version=1"; a; b; d; e; f] ++ [g]).
  rewrite app_assoc, list.last_snoc. cbn [default from_option id]. by rewrite Hf.
Qed.

(** C21: The viewer reads back every default key an uploader writes: whatever the
    prefix and whatever characters service, instance and boot id hold, the key
    parses, as a local file or under any bucket, to exactly these, the segment's
    index and creation second, and the UTC date and minute of that second; the
    scope of the object is its date, service and instance. *)
Theorem viewer_reads_key c index metadata local bucket :
  default_layout c → dated metadata → fits 32 index → SLASH ∉ bucket →
  (local = true → starts_with (lit "s3://") (object_key c index metadata) = false) →
  let key := full_source_key local bucket (object_key c index metadata) in
  parse_segment_object_key key = parsed_key c index metadata ∧
  civil (epoch_of metadata) = Some (date_time (epoch_of metadata)) ∧
  scope_fields key = Some (date_text (date_time (epoch_of metadata)), S3Config.service_name c,
                           S3Config.instance_path c).
Proof.
  intros Hc Hm Hi Hb Hl key.
  assert (parse_segment_object_key key = parsed_key c index metadata) as Hp.
  { apply parse_object_key; [done..|]. by apply strip_s3_full. }
  split; [done|]. split; [by apply date_time_civil|].
  unfold scope_fields, scope_fields_inner. by rewrite Hp.
Qed.

(** No two segments of a bucket share a key: if two uploaders, of whatever
    services and with whatever prefixes, write the same default key, then
    service, instance, boot id, segment index, creation second and encoding are
    the same. *)
Theorem object_keys_apart c1 c2 i1 i2 m1 m2 :
  default_layout c1 → default_layout c2 → dated m1 → dated m2 → fits 32 i1 → fits 32 i2 →
  object_key c1 i1 m1 = object_key c2 i2 m2 →
  S3Config.service_name c1 = S3Config.service_name c2 ∧
  S3Config.instance_path c1 = S3Config.instance_path c2 ∧
  S3Config.boot_id c1 = S3Config.boot_id c2 ∧
  i1 = i2 ∧ epoch_of m1 = epoch_of m2 ∧ is_gzip m1 = is_gzip m2.
Proof.
  intros Hc1 Hc2 Hm1 Hm2 Hi1 Hi2 Heq.
  assert (parsed_key c1 i1 m1 = parsed_key c2 i2 m2) as Hp.
  { pose proof (strip_s3_full false [] (object_key c1 i1 m1) ltac:(apply not_elem_of_nil) ltac:(done)) as Hs.
    rewrite <- (parse_object_key c1 i1 m1 _ Hc1 Hm1 Hi1 Hs).
    apply parse_object_key; [done..|]. by rewrite Hs. }
  assert (S3Config.service_name c1 = S3Config.service_name c2) as Hs
    by (apply (inj Some); exact (f_equal ParsedKey.service Hp)).
  assert (S3Config.instance_path c1 = S3Config.instance_path c2) as Hn
    by (apply (inj Some); exact (f_equal ParsedKey.instance Hp)).
  assert (S3Config.boot_id c1 = S3Config.boot_id c2) as Hb
    by (apply (inj Some); exact (f_equal ParsedKey.boot_id Hp)).
  assert (i1 = i2) as Hi by (apply (inj Some); exact (f_equal ParsedKey.segment_index Hp)).
  assert (epoch_of m1 = epoch_of m2) as He by (apply (inj Some); exact (f_equal ParsedKey.epoch_secs Hp)).
  pose proof (f_equal ParsedKey.filename Hp) as Hf. clear Hp Heq.
  do 5 (split; [assumption|]). unfold parsed_key in Hf. cbn [ParsedKey.filename] in Hf.
  rewrite He, Hi in Hf. unfold file_name in Hf. do 3 apply app_inv_head in Hf.
  clear -Hf. destruct (is_gzip m1), (is_gzip m2); [reflexivity|discriminate..|reflexivity].
Qed.
End written.

(** ** Examples *)

Definition example_s3 : S3Config.t :=
  S3Config.mk (lit "traces") (lit "payments/api") (lit "cluster/worker=blue") (lit "boot%=1")
    (Some (lit "company/date=archive/%25")) None.

Definition example_metadata : gmap bytes bytes :=
  <[lit "epoch_secs" := lit "1786736220"]> {[lit "content_encoding" := lit "gzip"]}.

Lemma example_layout : default_layout example_s3.
Proof. split; vm_compute; reflexivity. Qed.

Lemma example_dated : dated example_metadata.
Proof. apply (bool_decide_unpack _). vm_compute. exact I. Qed.

Lemma viewer_reads_key_witness :
  scope_fields (full_source_key false (lit "traces") (object_key (Cal := gregorian_calendar) example_s3 3 example_metadata))
  = Some (lit "2026-08-14", lit "payments/api", lit "cluster/worker=blue").
Proof.
  destruct (viewer_reads_key (Cal := gregorian_calendar) example_s3 3 example_metadata false (lit "traces"))
    as (_ & _ & Hs); [exact example_layout|exact example_dated|done|no_slash|discriminate|].
  etransitivity; [exact Hs|]. vm_compute. reflexivity.
Defined.

Lemma object_keys_apart_witness :
  object_key (Cal := gregorian_calendar) example_s3 3 example_metadata =
    object_key (Cal := gregorian_calendar) example_s3 3 example_metadata ∧
  S3Config.service_name example_s3 = lit "payments/api".
Proof.
  split; [reflexivity|].
  destruct (object_keys_apart (Cal := gregorian_calendar) example_s3 example_s3 3 3 example_metadata
    example_metadata) as [Hs _];
    [exact example_layout|exact example_layout|exact example_dated|exact example_dated|done|done|reflexivity|].
  etransitivity; [exact Hs|]. reflexivity.
Defined.
