(* ===== verification/Storage.v ===== *)
(** * The viewer's storage (dial9-viewer/src/storage.rs, storage/s3.rs, server/error.rs)

    The interface through which the viewer sees trace objects, what its clients
    may rely on as a class of laws, and the S3 backend that implements it over
    the SDK's client, whose pages are a parameter. *)

From Stdlib Require Import ZArith Lia.
From stdpp Require Import base list strings option.
From coqutil Require Import Byte.
From S2P Require Import Prelude.
From S2P Require Import Text.
From S2P Require Import Paths.

(** The messages of errors are left out. *)
Module StorageError.
Inductive t : Set := NotFound | Unauthorized | AccountNotSignedUp | WrongRegion | BadRequest | Other.
End StorageError.

Definition storage_error_response (err : StorageError.t) : Z :=
  match err with
  | StorageError.Unauthorized => 401
  | StorageError.AccountNotSignedUp => 403
  | StorageError.NotFound => 404
  | StorageError.WrongRegion => 421
  | StorageError.BadRequest => 400
  | StorageError.Other => 500
  end.

(** [classify_s3_error], of the error's code. *)
Definition classify_s3_error (code : option bytes) : StorageError.t :=
  let any words := existsb (λ w, bool_decide (code = Some (lit w))) words in
  if any ["InvalidAccessKeyId"; "SignatureDoesNotMatch"; "ExpiredToken"; "ExpiredTokenException";
         "InvalidToken"; "AccessDenied"; "AccessDeniedException"; "UnrecognizedClientException";
         "InvalidClientTokenId"; "AuthorizationHeaderMalformed"]%string then StorageError.Unauthorized
  else if any ["NotSignedUp"; "OptInRequired"]%string then StorageError.AccountNotSignedUp
  else if any ["PermanentRedirect"; "Redirect"; "IllegalLocationConstraintException"]%string
  then StorageError.WrongRegion
  else if any ["NoSuchBucket"; "NoSuchKey"; "NotFound"]%string then StorageError.NotFound
  else if any ["InvalidBucketName"]%string then StorageError.BadRequest
  else StorageError.Other.

Module ObjectInfo.
Record t : Type := mk { key : bytes; size : Z; last_modified : option bytes }.
End ObjectInfo.

Module ListPage.
Record t : Type := mk { objects : list ObjectInfo.t; truncated : bool }.
End ListPage.

(** The part of the trait [StorageBackend] that the browser uses. *)
Class StorageBackend : Type := {
  list_objects : bytes → bytes → Z → result ListPage.t StorageError.t;
  list_prefixes : bytes → bytes → result (list bytes) StorageError.t }.

(** ** What a bucket with the objects [keys] lists *)

Definition under (prefix : bytes) (keys : list bytes) : list bytes :=
  filter (λ k, starts_with prefix k = true) keys.

(** The directory below [prefix] that [key] is in. *)
Definition child_of (prefix key : bytes) : option bytes :=
  rest ← strip_prefix prefix key; '(name, _) ← split_once [SLASH] rest; Some (prefix ++ name ++ [SLASH]).

Definition children (prefix : bytes) (keys : list bytes) : list bytes :=
  remove_dups (omap (child_of prefix) keys).

Definition MAX_CHILDREN : Z := 1000.

(** What listings promise: a listing that is not marked as truncated is
    complete, any listing is of objects that exist; a listing of directories is
    complete below its silent bound. *)
Class Lists (B : StorageBackend) (bucket : bytes) (keys : list bytes) : Prop := {
  lists_objects prefix cap page : list_objects bucket prefix cap = Ok page →
    ∃ rest, under prefix keys = (ObjectInfo.key <$> ListPage.objects page) ++ rest ∧
      (ListPage.truncated page = false → rest = []);
  lists_children prefix l : list_prefixes bucket prefix = Ok l →
    (∀ c, c ∈ l → c ∈ children prefix keys) ∧
    (blen (children prefix keys) < MAX_CHILDREN → ∀ c, c ∈ children prefix keys → c ∈ l) }.

(** ** The S3 client *)

Module S3Object.
Record t : Type := mk { key : option bytes; size : option Z; last_modified : option bytes }.
End S3Object.

Module Output.
Record t : Type := mk {
  contents : list S3Object.t;
  common_prefixes : list (option bytes);
  is_truncated : option bool;
  next_continuation_token : option bytes }.
End Output.

(** The SDK: one request of [ListObjectsV2] (bucket, prefix, continuation
    token), and its paginator (bucket, prefix, delimiter), which ends at an
    error.  An error is its code. *)
Class S3Client : Type := {
  send : bytes → bytes → option bytes → result Output.t (option bytes);
  paginate : bytes → bytes → option bytes → list (result Output.t (option bytes)) }.

(** ** The S3 backend *)

Definition object_info (key : bytes) (obj : S3Object.t) : ObjectInfo.t :=
  ObjectInfo.mk key (default 0 (S3Object.size obj)) (S3Object.last_modified obj).

(** The objects of a page, up to the cap; whether the cap was met. *)
Fixpoint push_objects (cap : Z) (contents : list S3Object.t) (objects : list ObjectInfo.t) :
    list ObjectInfo.t * bool :=
  match contents with
  | [] => (objects, false)
  | obj :: contents =>
      if cap <=? blen objects then (objects, true)
      else
        push_objects cap contents
          match S3Object.key obj with Some key => objects ++ [object_info key obj] | None => objects end
  end.

Fixpoint list_pages (cap : Z) (pages : list (result Output.t (option bytes))) (objects : list ObjectInfo.t) :
    result ListPage.t StorageError.t :=
  match pages with
  | [] => Ok (ListPage.mk objects false)
  | Err code :: _ => Err (classify_s3_error code)
  | Ok page :: pages =>
      let '(objects, truncated) := push_objects cap (Output.contents page) objects in
      if truncated then Ok (ListPage.mk objects true) else list_pages cap pages objects
  end.

(** The child prefixes of a page, up to the bound; whether it was met. *)
Fixpoint push_prefixes (cps : list (option bytes)) (prefixes : list bytes) : list bytes * bool :=
  match cps with
  | [] => (prefixes, false)
  | cp :: cps =>
      let prefixes := match cp with Some p => prefixes ++ [p] | None => prefixes end in
      if MAX_CHILDREN <=? blen prefixes then (prefixes, true) else push_prefixes cps prefixes
  end.

Fixpoint prefix_pages (pages : list (result Output.t (option bytes))) (prefixes : list bytes) :
    result (list bytes) StorageError.t :=
  match pages with
  | [] => Ok prefixes
  | Err code :: _ => Err (classify_s3_error code)
  | Ok page :: pages =>
      let '(prefixes, truncated) := push_prefixes (Output.common_prefixes page) prefixes in
      if truncated then Ok prefixes else prefix_pages pages prefixes
  end.

(** The objects of a page that have a key. *)
Definition with_keys (contents : list S3Object.t) : list ObjectInfo.t :=
  omap (λ obj, key ← S3Object.key obj; Some (object_info key obj)) contents.

Section backend.
Context {C : S3Client}.

Definition list_objects_paginated (bucket prefix : bytes) (cap : Z) : result ListPage.t StorageError.t :=
  list_pages cap (paginate bucket prefix None) [].

Definition s3_list_prefixes (bucket prefix : bytes) : result (list bytes) StorageError.t :=
  prefix_pages (paginate bucket prefix (Some (lit "/"))) [].

(** [list_objects_all]: one request after the other; it has no end of its own,
    [None] is out of fuel. *)
Fixpoint list_all (fuel : nat) (bucket prefix : bytes) (continuation : option bytes)
    (objects : list ObjectInfo.t) : option (result (list ObjectInfo.t) StorageError.t) :=
  match fuel with
  | O => None
  | S fuel =>
      match send bucket prefix continuation with
      | Err code => Some (Err (classify_s3_error code))
      | Ok resp =>
          let objects := objects ++ with_keys (Output.contents resp) in
          match Output.is_truncated resp, Output.next_continuation_token resp with
          | Some true, Some token => list_all fuel bucket prefix (Some token) objects
          | _, _ => Some (Ok objects)
          end
      end
  end.

(** The chain of responses [list_objects_all] follows. *)
Inductive responses (bucket prefix : bytes) : option bytes → list Output.t → Prop :=
| responses_last token resp :
    send bucket prefix token = Ok resp → Output.is_truncated resp <> Some true →
    responses bucket prefix token [resp]
| responses_next token resp next rest :
    send bucket prefix token = Ok resp → Output.is_truncated resp = Some true →
    Output.next_continuation_token resp = Some next → responses bucket prefix (Some next) rest →
    responses bucket prefix token (resp :: rest).

Lemma list_all_responses bucket prefix token rs fuel objects :
  responses bucket prefix token rs → (length rs <= fuel)%nat →
  list_all fuel bucket prefix token objects =
  Some (Ok (objects ++ with_keys (rs ≫= Output.contents))).
Proof.
  intros H. revert fuel objects. induction H as [token resp Hs Ht|token resp next rest Hs Ht Hn Hr IH];
    intros [|fuel] objects Hf; cbn in Hf; try lia; cbn [list_all]; rewrite Hs.
  - assert (with_keys ([resp] ≫= Output.contents) = with_keys (Output.contents resp)) as ->
      by (cbn; by rewrite app_nil_r).
    destruct (Output.is_truncated resp) as [[]|]; [by destruct Ht|done..].
  - rewrite Ht, Hn, IH by lia. rewrite <- app_assoc. do 3 f_equal.
    unfold with_keys. cbn. by rewrite omap_app.
Qed.
End backend.

(** ** The backend keeps the interface

    What S3 documents of a bucket with the objects [keys]: the pages of a
    listing are the objects below the prefix in order, those of a listing with
    a delimiter the directories below it, each once. *)

(** The responses before the first error. *)
Fixpoint answered (pages : list (result Output.t (option bytes))) : list Output.t :=
  match pages with Ok page :: pages => page :: answered pages | _ => [] end.

Definition no_error (pages : list (result Output.t (option bytes))) : Prop :=
  ∃ outs, pages = Ok <$> outs.

Class Serves (C : S3Client) (bucket : bytes) (keys : list bytes) : Prop := {
  serves_objects prefix : let pages := paginate bucket prefix None in
    ∃ rest, under prefix keys = omap S3Object.key (answered pages ≫= Output.contents) ++ rest ∧
      (no_error pages → rest = []);
  serves_children prefix : let pages := paginate bucket prefix (Some (lit "/")) in
    let found := omap id (answered pages ≫= Output.common_prefixes) in
    NoDup found ∧ (∀ c, c ∈ found → c ∈ children prefix keys) ∧
    (no_error pages → ∀ c, c ∈ children prefix keys → c ∈ found) }.

Lemma keys_with_keys contents : ObjectInfo.key <$> with_keys contents = omap S3Object.key contents.
Proof.
  induction contents as [|[[key|] size modified] contents IH]; [done|..];
    unfold with_keys in *; cbn [omap list_omap S3Object.key mbind option_bind fmap list_fmap].
  - cbn. f_equal. exact IH.
  - exact IH.
Qed.

Lemma push_objects_spec cap contents objects :
  let '(objects', truncated) := push_objects cap contents objects in
  ∃ seen rest, contents = seen ++ rest ∧ objects' = objects ++ with_keys seen ∧
    (truncated = false → rest = []).
Proof.
  revert objects. induction contents as [|obj contents IH]; intros objects; cbn [push_objects].
  - exists [], []. unfold with_keys. cbn. by rewrite app_nil_r.
  - destruct (cap <=? blen objects).
    { exists [], (obj :: contents). unfold with_keys. cbn. by rewrite app_nil_r. }
    specialize (IH match S3Object.key obj with
      Some key => objects ++ [object_info key obj] | None => objects end).
    destruct (push_objects _ _ _) as [objects' truncated]. destruct IH as (seen & rest & -> & -> & Ht).
    exists (obj :: seen), rest. split; [done|]. split; [|done].
    destruct obj as [[key|] size modified]; [|done]. cbn [S3Object.key].
    unfold with_keys. cbn. by rewrite <- app_assoc.
Qed.

Lemma list_pages_spec cap pages objects page :
  list_pages cap pages objects = Ok page →
  ∃ seen rest, answered pages ≫= Output.contents = seen ++ rest ∧
    ListPage.objects page = objects ++ with_keys seen ∧
    (ListPage.truncated page = false → rest = [] ∧ no_error pages).
Proof.
  revert objects. induction pages as [|[out|code] pages IH]; intros objects; cbn [list_pages]; [|..|done].
  - intros [= <-]. exists [], []. unfold with_keys. cbn. rewrite app_nil_r. split; [done|]. split; [done|]. intros _. by split; [|exists []].
  - pose proof (push_objects_spec cap (Output.contents out) objects) as Hp.
    destruct (push_objects _ _ _) as [objects' truncated]. destruct Hp as (seen & rest & Hc & -> & Ht).
    destruct truncated.
    + intros [= <-]. exists seen, (rest ++ (answered pages ≫= Output.contents)). cbn.
      rewrite Hc, <- app_assoc. split; [done|]. by split.
    + intros Hl. rewrite (Ht eq_refl), app_nil_r in Hc. destruct (IH _ Hl) as (seen' & rest' & He & Ho & Hr).
      exists (seen ++ seen'), rest'. cbn. rewrite Hc, He, Ho. unfold with_keys. rewrite omap_app, <- !app_assoc.
      split; [done|]. split; [done|]. intros Hf. destruct (Hr Hf) as [Hn [outs ->]]. split; [done|].
      by exists (out :: outs).
Qed.

Lemma push_prefixes_spec cps prefixes :
  let '(prefixes', truncated) := push_prefixes cps prefixes in
  ∃ seen rest, cps = seen ++ rest ∧ prefixes' = prefixes ++ omap id seen ∧
    (if truncated then MAX_CHILDREN <= blen prefixes' else rest = []).
Proof.
  revert prefixes. induction cps as [|cp cps IH]; intros prefixes; cbn [push_prefixes].
  - exists [], []. cbn. by rewrite app_nil_r.
  - destruct (Z.leb_spec MAX_CHILDREN (blen match cp with Some p => prefixes ++ [p] | None => prefixes end)).
    + exists [cp], cps. split; [done|]. split; [|done]. destruct cp; cbn; by rewrite ?app_nil_r.
    + specialize (IH match cp with Some p => prefixes ++ [p] | None => prefixes end).
      destruct (push_prefixes _ _) as [prefixes' truncated]. destruct IH as (seen & rest & -> & -> & Ht).
      exists (cp :: seen), rest. split; [done|]. split; [|done]. destruct cp; cbn; by rewrite <- ?app_assoc.
Qed.

Lemma prefix_pages_spec pages prefixes l :
  prefix_pages pages prefixes = Ok l →
  ∃ rest, prefixes ++ omap id (answered pages ≫= Output.common_prefixes) = l ++ rest ∧
    (blen l < MAX_CHILDREN → rest = [] ∧ no_error pages).
Proof.
  revert prefixes. induction pages as [|[out|code] pages IH]; intros prefixes; cbn [prefix_pages]; [|..|done].
  - intros [= <-]. exists []. split; [done|]. intros _. by split; [|exists []].
  - pose proof (push_prefixes_spec (Output.common_prefixes out) prefixes) as Hp.
    destruct (push_prefixes _ _) as [prefixes' truncated]. destruct Hp as (seen & rest & Hc & -> & Ht).
    cbn [answered]. change ((out :: answered pages) ≫= Output.common_prefixes)
      with (Output.common_prefixes out ++ (answered pages ≫= Output.common_prefixes)).
    rewrite omap_app, Hc, omap_app. destruct truncated.
    + intros [= <-]. eexists. split; [by rewrite <- !app_assoc|]. lia.
    + subst rest. intros Hl. destruct (IH _ Hl) as (rest & He & Hr). exists rest.
      rewrite <- He. cbn [omap list_omap]. rewrite app_nil_r, <- !app_assoc. split; [done|].
      intros Hlt. destruct (Hr Hlt) as [-> [outs ->]]. split; [done|]. by exists (out :: outs).
Qed.

#[export] Instance S3Backend {C : S3Client} : StorageBackend :=
  {| list_objects := list_objects_paginated; list_prefixes := s3_list_prefixes |}.

(** The S3 backend lists what the bucket holds. *)
#[export] Instance s3_lists {C : S3Client} bucket keys : Serves C bucket keys → Lists S3Backend bucket keys.
Proof.
  intros HC. split.
  - intros prefix cap page Hl. cbn in Hl. unfold list_objects_paginated in Hl.
    destruct (list_pages_spec _ _ _ _ Hl) as (seen & rest & Hs & Ho & Ht).
    destruct (serves_objects (keys := keys) prefix) as (rest' & Hu & He). cbn zeta in *.
    rewrite Hs, omap_app in Hu. exists (omap S3Object.key rest ++ rest').
    rewrite Ho, Hu. cbn [app]. rewrite keys_with_keys, <- app_assoc. split; [done|].
    intros Hf. destruct (Ht Hf) as [-> Hn]. by rewrite (He Hn).
  - intros prefix l Hl. cbn in Hl. unfold s3_list_prefixes in Hl.
    destruct (prefix_pages_spec _ _ _ Hl) as (rest & Hs & Ht). cbn [app] in Hs.
    destruct (serves_children (keys := keys) prefix) as (Hnd & Hsub & Hall). cbn zeta in *.
    rewrite Hs in *. split.
    + intros c Hc. apply Hsub, elem_of_app. by left.
    + intros Hlt c Hc. assert (blen l < MAX_CHILDREN) as Hl'.
      { apply list.NoDup_app in Hnd as (Hnd & _ & _). eapply Z.le_lt_trans; [|exact Hlt]. unfold blen.
        apply inj_le, submseteq_length, list.NoDup_submseteq; [done|]. intros x Hx. apply Hsub, elem_of_app. by left. }
      destruct (Ht Hl') as [-> Hn]. specialize (Hall Hn c Hc). by rewrite app_nil_r in Hall.
Qed.

(** A bucket that answers in one page. *)
Definition one_page (keys : list bytes) (prefix : bytes) (delimiter : option bytes) : Output.t :=
  match delimiter with
  | None => Output.mk ((λ k, S3Object.mk (Some k) (Some 1) None) <$> under prefix keys) [] (Some false) None
  | Some _ => Output.mk [] (Some <$> children prefix keys) (Some false) None
  end.

Definition one_page_client (keys : list bytes) : S3Client :=
  {| send _ prefix _ := Ok (one_page keys prefix None);
     paginate _ prefix delimiter := [Ok (one_page keys prefix delimiter)] |}.

Lemma omap_some_id {A} (l : list A) : omap id (Some <$> l) = l.
Proof. induction l as [|x l IH]; [done|]. cbn. by f_equal. Qed.

Lemma one_page_serves bucket keys : Serves (one_page_client keys) bucket keys.
Proof.
  split; intros prefix; cbn.
  - exists []. rewrite !app_nil_r. split; [|done].
    induction (under prefix keys) as [|k l IH]; [done|]. cbn. by f_equal.
  - rewrite app_nil_r, omap_some_id. split_and!; [apply NoDup_remove_dups|done|done].
Qed.
