(* ===== verification/SourceLayout.v ===== *)
(** * Days of a window and their layouts (dial9-viewer/src/source_layout.rs)

    Objects of the current layout lie below a directory per date and service,
    those of the historical layout below date, minute and service.  For a
    window this file computes its days, finds the services that have objects in
    the current layout, and decides for a service which layouts each day needs,
    from the bucket or from a hint an earlier answer carried. *)

From Stdlib Require Import ZArith Lia.
From stdpp Require Import base list gmap sets strings option sorting.
From coqutil Require Import Byte.
From S2P Require Import Prelude.
From S2P Require Import Text.
From S2P Require Import SamplingConfig.
From S2P Require Import Paths.
From S2P Require Import ObjectKeys.
From S2P Require Import Storage.

Definition MAX_DISCOVERY_DAYS : Z := 2000.
Definition HINT_VERSION : Z := 1.
Definition HINT_TTL_SECS : Z := 300.
Definition I64_MAX : Z := 2 ^ 63 - 1.

(** [a op b] of [i64]s in a release build. *)
Definition wrapping_i64 (v : Z) : Z := to_signed 64 (cast 64 v).

Module LayoutSet.
Inductive t : Set := Historical | Version1 | Both.
Definition historical (l : t) : bool := match l with Historical | Both => true | Version1 => false end.
Definition version1 (l : t) : bool := match l with Version1 | Both => true | Historical => false end.
End LayoutSet.

Module DayLayout.
Record t : Type := mk { date : bytes; from : Z; to : Z; layout : LayoutSet.t }.
Definition set_layout (l : LayoutSet.t) (d : t) : t := mk (date d) (from d) (to d) l.
End DayLayout.

(** Sets of strings are iterated in the order of their bytes. *)
Definition str_le (a b : bytes) : Prop := str_ltb b a = false.

#[global] Instance str_le_dec : RelDecision str_le.
Proof. intros a b. unfold str_le. apply _. Defined.

Definition in_order (s : gset bytes) : list bytes := merge_sort str_le (elements s).

Module Version1Services.
Record t : Type := mk {
  dates_by_service : gmap bytes (gset bytes);
  scanned_days : list DayLayout.t;
  truncated : bool }.

Definition dates_for (x : t) (service : bytes) : option (gset bytes) := dates_by_service x !! service.

(** All services recorded, in order. *)
Definition recorded (x : t) : list bytes := in_order (dom (dates_by_service x)).

Definition on (x : t) (date service : bytes) : bool :=
  match dates_for x service with Some dates => bool_decide (date ∈ dates) | None => false end.

Definition services (x : t) : list bytes :=
  filter (λ s, existsb (λ day, on x (DayLayout.date day) s) (scanned_days x) = true) (recorded x).

Definition services_on (x : t) (date : bytes) : list bytes := filter (λ s, on x date s = true) (recorded x).

Definition first_date_for (x : t) (service : bytes) : option bytes :=
  dates ← dates_for x service; head (in_order dates).

Definition record (service date : bytes) (x : t) : t :=
  mk (partial_alter (λ dates, Some ({[date]} ∪ default ∅ dates)) service (dates_by_service x))
     (scanned_days x) (truncated x).
End Version1Services.

Definition join_prefix (base tail : bytes) : bytes :=
  match base with [] => tail | _ => trim_end_char SLASH base ++ lit "/" ++ tail end.

Definition version1_day_root (base date : bytes) : bytes :=
  join_prefix base (lit "version=1/date=" ++ date ++ lit "/").

(** [buffer_unordered] gives the results of a stream of requests in any order. *)
Class Arrival : Type := {
  arrival {A} : list A → list A;
  arrival_perm {A} (l : list A) : arrival l ≡ₚ l }.

(** [for result in results { let x = result?; .. }]. *)
Fixpoint collect_ok {A E} (l : list (result A E)) : result (list A) E :=
  match l with
  | [] => Ok []
  | Ok x :: l => match collect_ok l with Ok xs => Ok (x :: xs) | Err e => Err e end
  | Err e :: _ => Err e
  end.

(** What an answer tells the client about the layouts of a service. *)
Module LayoutHint.
Record t : Type := mk {
  v : Z;
  bucket : bytes;
  base : bytes;
  service : bytes;
  first_day : bytes;
  last_day : bytes;
  first_v1_day : option bytes;
  expires_at : Z }.
End LayoutHint.

(** Its text, by serde_json. *)
Class HintJson : Type := {
  hint_text : LayoutHint.t → bytes;
  hint_parse : bytes → option LayoutHint.t;
  hint_parse_text h : hint_parse (hint_text h) = Some h }.

Module ResolvedServiceLayouts.
Record t : Type := mk { days : list DayLayout.t; truncated : bool }.
End ResolvedServiceLayouts.

Section calendar.
Context {Cal : Calendar}.

(** The day from [day_start], clipped to the window. *)
Definition day_from (from to : Z) (layout : LayoutSet.t) (day_start : Z) (x : Civil.t) : DayLayout.t :=
  DayLayout.mk (date_text x) (Z.max from day_start) (Z.min to (Z.min (day_start + 86399) I64_MAX)) layout.

(** The loop of [day_layouts_with_limit]. *)
Fixpoint day_loop (fuel : nat) (from to : Z) (layout : LayoutSet.t) (limit day_start : Z)
    (days : list DayLayout.t) : result (list DayLayout.t * bool) StorageError.t :=
  match fuel with
  | O => Ok (days, false)
  | S fuel =>
      if to <? day_start then Ok (days, false)
      else if blen days =? limit then Ok (days, true)
      else
        match civil day_start with
        | None => Err StorageError.Other
        | Some x =>
            let days := days ++ [day_from from to layout day_start x] in
            if I64_MAX <? day_start + DAY then Ok (days, false)
            else day_loop fuel from to layout limit (day_start + DAY) days
        end
  end.

Definition day_layouts_with_limit (from to : Z) (layout : LayoutSet.t) (limit : Z) :
    result (list DayLayout.t * bool) StorageError.t :=
  let day_start := wrapping_i64 (from / DAY * DAY) in
  day_loop (S (Z.to_nat (Z.min limit ((to - day_start) / DAY + 1)))) from to layout limit day_start [].

Definition discovery_day_layouts (from to : Z) (layout : LayoutSet.t) :
    result (list DayLayout.t * bool) StorageError.t :=
  day_layouts_with_limit from to layout MAX_DISCOVERY_DAYS.

Definition previous_day_layout (from : Z) (layout : LayoutSet.t) : result (option DayLayout.t) StorageError.t :=
  let day_start := from / DAY * DAY in
  if bool_decide (fits_signed 64 day_start) && bool_decide (fits_signed 64 (day_start - 1)) then
    match day_layouts_with_limit (day_start - 1) (day_start - 1) layout 1 with
    | Ok (days, _) => Ok (list.last days)
    | Err e => Err e
    end
  else Ok None.

Section discovery.
Context {B : StorageBackend} {Arr : Arrival}.

(** The service a directory below the day's root is of. *)
Definition service_of_child (root child : bytes) : option bytes :=
  rest ← strip_prefix root child; name ← strip_suffix (lit "/") rest;
  _ ← guard (contains (lit "/") name = false);
  encoded ← strip_prefix (lit "service=") name;
  ObjectKeys.hive_unescape encoded.

Definition record_children (date root : bytes) (found : list bytes) (services : Version1Services.t) :
    Version1Services.t :=
  foldl (λ services child,
    match service_of_child root child with
    | Some service => Version1Services.record service date services
    | None => services
    end) services found.

Definition discover_version1_services (bucket base : bytes) (from to : Z) :
    result Version1Services.t StorageError.t :=
  match discovery_day_layouts from to LayoutSet.Version1 with
  | Err e => Err e
  | Ok (days, truncated) =>
      match (if blen days <? MAX_DISCOVERY_DAYS then previous_day_layout from LayoutSet.Version1 else Ok None) with
      | Err e => Err e
      | Ok previous_day =>
          let requests := (λ day, (DayLayout.date day, version1_day_root base (DayLayout.date day))) <$>
            (option_list previous_day ++ days) in
          let results := arrival ((λ request : bytes * bytes,
            match list_prefixes bucket (snd request) with
            | Ok found => Ok (request, found)
            | Err e => Err e
            end) <$> requests) in
          match collect_ok results with
          | Err e => Err e
          | Ok results =>
              Ok (foldl (λ services result,
                    record_children (fst (fst result)) (snd (fst result)) (snd result) services)
                  (Version1Services.mk ∅ days truncated) results)
          end
      end
  end.
End discovery.

Definition classify_days (days : list DayLayout.t) (first_v1_day : option bytes) : list DayLayout.t :=
  (λ day, DayLayout.set_layout
    match first_v1_day with
    | None => LayoutSet.Historical
    | Some first =>
        if str_ltb (DayLayout.date day) first then LayoutSet.Historical
        else if bool_decide (DayLayout.date day = first) then LayoutSet.Both
        else LayoutSet.Version1
    end day) <$> days.

(** ** Hints *)
Section hints.
Context {J : HintJson}.

Definition encode_hint (bucket base service : bytes) (days : list DayLayout.t) (first_v1_day : option bytes)
    (now : Z) : bytes :=
  let first_day := default [] (DayLayout.date <$> head days) in
  let last_day := default [] (DayLayout.date <$> list.last days) in
  hint_text (LayoutHint.mk HINT_VERSION bucket base service first_day last_day first_v1_day
    (Z.min (now + HINT_TTL_SECS) I64_MAX)).

(** Whether a day of the window, or the day before it, has this date. *)
Definition known_date (days : list DayLayout.t) (previous : option DayLayout.t) (date : bytes) : bool :=
  existsb (λ day, bool_decide (DayLayout.date day = date)) (option_list previous ++ days).

Definition decode_hint (encoded bucket base service : bytes) (days : list DayLayout.t) (now : Z) :
    option (option bytes) :=
  hint ← hint_parse encoded;
  first_day ← head days;
  last_day ← list.last days;
  let previous := match previous_day_layout (DayLayout.from first_day) LayoutSet.Version1 with
                  | Ok previous => previous | Err _ => None end in
  if negb (LayoutHint.v hint =? HINT_VERSION) || negb (bool_decide (LayoutHint.bucket hint = bucket)) ||
     negb (bool_decide (LayoutHint.base hint = base)) || negb (bool_decide (LayoutHint.service hint = service)) ||
     (LayoutHint.expires_at hint <? now) ||
     str_ltb (DayLayout.date first_day) (LayoutHint.first_day hint) ||
     str_ltb (LayoutHint.last_day hint) (DayLayout.date last_day) ||
     match LayoutHint.first_v1_day hint with
     | Some date => negb (known_date days previous date)
     | None => false
     end
  then None
  else Some (LayoutHint.first_v1_day hint).

Definition resolve_service_layouts {B : StorageBackend} {Arr : Arrival} (bucket base : bytes) (from to : Z)
    (service : bytes) (hint : option bytes) (now : Z) :
    result ResolvedServiceLayouts.t StorageError.t :=
  match discovery_day_layouts from to LayoutSet.Historical with
  | Err e => Err e
  | Ok (days, truncated) =>
      match (encoded ← hint; decode_hint encoded bucket base service days now) with
      | Some first_v1_day => Ok (ResolvedServiceLayouts.mk (classify_days days first_v1_day) truncated)
      | None =>
          match discover_version1_services bucket base from to with
          | Err e => Err e
          | Ok discovery =>
              let first_v1_day := Version1Services.first_date_for discovery service in
              Ok (ResolvedServiceLayouts.mk (classify_days days first_v1_day)
                    (truncated || Version1Services.truncated discovery))
          end
      end
  end.
End hints.
End calendar.

(** ** The order of strings *)

Lemma str_ltb_total a b : str_ltb a b = false → str_ltb b a = false → a = b.
Proof.
  revert b. induction a as [|x a IH]; intros [|y b]; cbn [str_ltb]; try done.
  destruct (Z.ltb_spec (b2z x) (b2z y)), (Z.ltb_spec (b2z y) (b2z x)); try done; try lia.
  assert (x = y) as -> by (apply byte.unsigned_inj; lia).
  rewrite bool_decide_true by done. cbn [orb andb]. intros H1 H2. f_equal. by apply IH.
Qed.

Lemma str_ltb_asym a b : str_ltb a b = true → str_ltb b a = false.
Proof.
  intros H. destruct (str_ltb b a) eqn:E; [|done]. pose proof (str_ltb_trans a b a H E) as Hc.
  by rewrite str_ltb_irrefl in Hc.
Qed.

#[global] Instance str_le_total : Total str_le.
Proof. intros a b. unfold str_le. destruct (str_ltb b a) eqn:E; [right; by apply str_ltb_asym|by left]. Qed.

#[global] Instance str_le_trans : Transitive str_le.
Proof.
  intros a b c Hab Hbc. unfold str_le in *. destruct (str_ltb c a) eqn:E; [|done].
  destruct (decide (b = c)) as [->|Hne]; [congruence|].
  destruct (str_ltb b c) eqn:E'; [|by destruct Hne; apply str_ltb_total].
  pose proof (str_ltb_trans b c a E' E). congruence.
Qed.

Lemma elem_of_in_order x s : x ∈ in_order s ↔ x ∈ s.
Proof. unfold in_order. by rewrite merge_sort_Permutation, elem_of_elements. Qed.

Lemma head_in_order s :
  match head (in_order s) with
  | Some x => x ∈ s ∧ ∀ y, y ∈ s → str_le x y
  | None => s ≡ ∅
  end.
Proof.
  pose proof (Sorted_merge_sort str_le (elements s)) as Hs. apply Sorted_StronglySorted in Hs; [|apply _].
  pose proof (λ y, elem_of_in_order y s) as Hin. unfold in_order in *.
  destruct (merge_sort str_le (elements s)) as [|x l]; cbn.
  - intros y. rewrite <- Hin. set_solver.
  - inversion Hs as [|? ? _ Hall]; subst. split; [apply Hin; by left|]. intros y Hy. apply Hin in Hy.
    apply elem_of_cons in Hy as [->|Hy]; [|by rewrite list.Forall_forall in Hall; apply Hall].
    unfold str_le. apply str_ltb_irrefl.
Qed.

(** ** What is recorded of services *)
Module Recorded.
Import Version1Services.

Lemma on_record date service x d s :
  on (record service date x) d s = true ↔ on x d s = true ∨ (d = date ∧ s = service).
Proof.
  unfold on, dates_for, record. cbn [dates_by_service]. destruct (decide (s = service)) as [->|Hne].
  - rewrite lookup_partial_alter_eq. destruct (dates_by_service x !! service) as [dates|]; cbn;
      rewrite ?bool_decide_eq_true; set_solver.
  - rewrite lookup_partial_alter_ne by done. intuition congruence.
Qed.

Lemma on_fold date root found x d s :
  on (record_children date root found x) d s = true ↔
  on x d s = true ∨ (d = date ∧ ∃ child, child ∈ found ∧ service_of_child root child = Some s).
Proof.
  unfold record_children. revert x. induction found as [|child found IH]; intros x; cbn [foldl].
  - split; [by left|]. intros [H|(_ & c & Hc & _)]; [done|by apply not_elem_of_nil in Hc].
  - rewrite IH. setoid_rewrite elem_of_cons. destruct (service_of_child root child) as [s'|] eqn:E.
    + rewrite on_record. naive_solver.
    + naive_solver.
Qed.

Lemma scanned_fold date root found x :
  scanned_days (record_children date root found x) = scanned_days x ∧
  truncated (record_children date root found x) = truncated x.
Proof.
  unfold record_children. revert x. induction found as [|child found IH]; intros x; cbn [foldl]; [done|].
  destruct (IH match service_of_child root child with
    | Some service => record service date x | None => x end) as [-> ->].
  by destruct (service_of_child root child).
Qed.

Lemma first_date_spec x s :
  match first_date_for x s with
  | Some d => on x d s = true ∧ ∀ d', on x d' s = true → str_le d d'
  | None => ∀ d', on x d' s = false
  end.
Proof.
  unfold first_date_for, on. destruct (dates_for x s) as [dates|]; cbn [mbind option_bind]; [|done].
  pose proof (head_in_order dates) as Hh. destruct (head (in_order dates)) as [d|].
  - setoid_rewrite bool_decide_eq_true. exact Hh.
  - intros d'. apply bool_decide_eq_false. set_solver.
Qed.

Lemma on_recorded x d s : on x d s = true → s ∈ recorded x.
Proof.
  unfold on, recorded. intros H. apply elem_of_in_order, elem_of_dom. unfold dates_for in H.
  by destruct (dates_by_service x !! s).
Qed.
End Recorded.

Lemma elem_services_on x d s : s ∈ Version1Services.services_on x d ↔ Version1Services.on x d s = true.
Proof.
  unfold Version1Services.services_on. rewrite list_elem_of_filter. split; [by intros []|].
  intros H. split; [done|]. by apply (Recorded.on_recorded x d).
Qed.

Lemma collect_ok_spec {A E} (l : list (result A E)) xs : collect_ok l = Ok xs ↔ l = Ok <$> xs.
Proof.
  revert xs. induction l as [|[x|e] l IH]; intros xs; cbn [collect_ok].
  - split; [by intros [= <-]|]. by destruct xs.
  - destruct (collect_ok l) as [ys|e].
    + split; [intros [= <-]; cbn; f_equal; by apply IH|]. destruct xs as [|z xs]; [done|].
      intros [= -> H]. apply IH in H. congruence.
    + split; [done|]. destruct xs as [|z xs]; [done|]. intros [= -> H]. apply IH in H. congruence.
  - split; [done|]. by destruct xs.
Qed.

(** ** The days of a window *)
Section days.
Context {Cal : Calendar}.

(** The [n]-th day since the epoch, clipped to a window. *)
Definition day_at (from to : Z) (layout : LayoutSet.t) (n : Z) : DayLayout.t :=
  day_from from to layout (DAY * n) (date_time (DAY * n)).

Lemma civil_date_time t x : civil t = Some x → date_time t = x.
Proof.
  intros Hx. pose proof (proj1 (civil_range t) ltac:(by eexists)) as Hr. unfold TIMESTAMP_MIN, TIMESTAMP_MAX in Hr.
  unfold date_time, to_signed. rewrite (proj2 (Z.ltb_lt t (2 ^ (64 - 1)))) by lia. by rewrite Hx.
Qed.

Lemma day_loop_spec from to layout limit n days fuel days' truncated :
  blen days <= limit →
  Z.min (limit - blen days) ((to - DAY * n) / DAY + 1) < Z.of_nat fuel →
  day_loop fuel from to layout limit (DAY * n) days = Ok (days', truncated) →
  ∃ k, 0 <= k ∧ days' = days ++ (day_at from to layout <$> seqZ n k) ∧
    (∀ m, n <= m < n + k → is_Some (civil (DAY * m)) ∧ DAY * m <= to) ∧
    (if truncated then blen days' = limit else to < DAY * (n + k)).
Proof.
  revert n days. induction fuel as [|fuel IH]; intros n days Hb Hf; cbn [day_loop].
  { unfold DAY in *. intros [= <- <-]. exists 0. rewrite Z.add_0_r. cbn. rewrite app_nil_r.
    split_and!; [lia|done|lia|]. assert (0 <= limit - blen days) by lia. divisions. }
  destruct (Z.ltb_spec to (DAY * n)) as [Ht|Ht].
  { intros [= <- <-]. exists 0. rewrite Z.add_0_r. cbn. rewrite app_nil_r. split_and!; [lia|done|lia|done]. }
  destruct (Z.eqb_spec (blen days) limit) as [He|He].
  { intros [= <- <-]. exists 0. cbn. rewrite app_nil_r. split_and!; [lia|done|lia|done]. }
  destruct (civil (DAY * n)) as [x|] eqn:Hx; [|done].
  assert (is_Some (civil (DAY * n))) as Hs by (by eexists).
  pose proof (proj1 (civil_range (DAY * n)) Hs) as Hr. unfold TIMESTAMP_MIN, TIMESTAMP_MAX in Hr.
  rewrite (proj2 (Z.ltb_ge I64_MAX (DAY * n + DAY))) by (unfold I64_MAX, DAY in *; lia).
  replace (DAY * n + DAY) with (DAY * (n + 1)) by lia. intros Hl.
  assert (day_from from to layout (DAY * n) x = day_at from to layout n) as Hd
    by (unfold day_at; by rewrite (civil_date_time _ _ Hx)).
  rewrite Hd in Hl.
  destruct (IH (n + 1) (days ++ [day_at from to layout n])) as (k & Hk & -> & Hm & Ht');
    [unfold blen in *; rewrite length_app; cbn; lia| |exact Hl|].
  { unfold blen in *. rewrite length_app. cbn [length]. unfold DAY in *. clear -Hf. divisions. }
  exists (1 + k). rewrite <- app_assoc. cbn [app]. rewrite seqZ_app by lia.
  assert (seqZ n 1 = [n]) as -> by (rewrite seqZ_cons by lia; done).
  split_and!; [lia|done| |].
  - intros m Hmn. destruct (Z.eq_dec m n) as [->|]; [done|]. apply Hm. lia.
  - revert Ht'. rewrite <- app_assoc. cbn [app]. destruct truncated; [done|]. intros. unfold DAY in *. lia.
Qed.

Lemma wrapping_i64_id v : fits_signed 64 v → wrapping_i64 v = v.
Proof.
  unfold fits_signed, wrapping_i64, cast, to_signed. intros Hv. destruct (Z.ltb_spec v 0).
  - replace (v mod 2 ^ 64) with (v + 2 ^ 64).
    + split_tests; lia.
    + rewrite <- (Z.mod_add v 1 (2 ^ 64)) by lia. rewrite Z.mod_small; lia.
  - rewrite Z.mod_small by lia. split_tests; lia.
Qed.

(** The days listed are consecutive from the first, exist in the calendar and
    begin in the window; a list not truncated reaches its end. *)
Lemma day_layouts_spec from to layout limit days truncated :
  - DAY <= from < 2 ^ 63 → 0 <= limit →
  day_layouts_with_limit from to layout limit = Ok (days, truncated) →
  ∃ k, 0 <= k ∧ days = day_at from to layout <$> seqZ (from / DAY) k ∧
    (∀ m, from / DAY <= m < from / DAY + k → is_Some (civil (DAY * m)) ∧ DAY * m <= to) ∧
    (if truncated then blen days = limit else to < DAY * (from / DAY + k)).
Proof.
  intros Hf Hl. unfold day_layouts_with_limit.
  assert (wrapping_i64 (from / DAY * DAY) = DAY * (from / DAY)) as ->.
  { rewrite wrapping_i64_id; [lia|]. unfold fits_signed, DAY in *. clear -Hf. divisions. }
  intros Hd. apply day_loop_spec in Hd; [exact Hd|unfold blen; cbn; lia|]. unfold blen. cbn [length]. lia.
Qed.

(** The days do not depend on the layout asked for. *)
Lemma day_layouts_layout from to layout layout' limit :
  day_layouts_with_limit from to layout' limit =
  match day_layouts_with_limit from to layout limit with
  | Ok (days, truncated) => Ok (DayLayout.set_layout layout' <$> days, truncated)
  | Err e => Err e
  end.
Proof.
  unfold day_layouts_with_limit. change [] with (DayLayout.set_layout layout' <$> []) at 1.
  generalize (@nil DayLayout.t) as days. generalize (wrapping_i64 (from / DAY * DAY)) at 2 4 as start.
  generalize (S (Z.to_nat (Z.min limit ((to - wrapping_i64 (from / DAY * DAY)) / DAY + 1)))) as fuel.
  induction fuel as [|fuel IH]; intros start days; cbn [day_loop]; [done|].
  assert (blen (DayLayout.set_layout layout' <$> days) = blen days) as -> by (unfold blen; by rewrite length_fmap).
  destruct (to <? start); [done|]. destruct (blen days =? limit); [done|]. destruct (civil start) as [x|]; [|done].
  assert ((DayLayout.set_layout layout' <$> days) ++ [day_from from to layout' start x] =
    DayLayout.set_layout layout' <$> (days ++ [day_from from to layout start x])) as -> by (by rewrite fmap_app).
  destruct (I64_MAX <? start + DAY); [done|]. apply IH.
Qed.

Lemma in_days from to layout limit days e :
  0 <= from < 2 ^ 63 → 0 <= limit →
  day_layouts_with_limit from to layout limit = Ok (days, false) → from <= e <= to →
  is_Some (civil (DAY * (e / DAY))) ∧ day_at from to layout (e / DAY) ∈ days.
Proof.
  intros Hf Hl Hd He. assert (- DAY <= from < 2 ^ 63) as Hf' by (unfold DAY; lia).
  destruct (day_layouts_spec _ _ _ _ _ _ Hf' Hl Hd) as (k & Hk & -> & Hm & Ht).
  assert (from / DAY <= e / DAY < from / DAY + k) as Hn by (unfold DAY in *; divisions).
  split; [by apply Hm|]. apply list_elem_of_fmap. exists (e / DAY). split; [done|]. apply elem_of_seqZ. lia.
Qed.
End days.

(** ** What discovery finds *)

(** A day's directory names the service. *)
Definition published (base : bytes) (keys : list bytes) (date service : bytes) : Prop :=
  ∃ child, child ∈ children (version1_day_root base date) keys ∧
    service_of_child (version1_day_root base date) child = Some service.

(** The listing of the day's directory is below the silent bound of
    [list_prefixes]. *)
Definition few_services (base : bytes) (keys : list bytes) (date : bytes) : Prop :=
  blen (children (version1_day_root base date) keys) < MAX_CHILDREN.

Section discovered.
Context {Cal : Calendar} {B : StorageBackend} {Arr : Arrival} {bucket : bytes} {keys : list bytes}.
Context {L : Lists B bucket keys}.

(** The dates discovery asks for. *)
Definition asked (from : Z) (days : list DayLayout.t) : result (list bytes) StorageError.t :=
  match (if blen days <? MAX_DISCOVERY_DAYS then previous_day_layout from LayoutSet.Version1 else Ok None) with
  | Err e => Err e
  | Ok previous_day => Ok (DayLayout.date <$> (option_list previous_day ++ days))
  end.

Lemma record_all results x :
  let y := foldl (λ services (result : bytes * bytes * list bytes),
    record_children (fst (fst result)) (snd (fst result)) (snd result) services) x results in
  Version1Services.scanned_days y = Version1Services.scanned_days x ∧
  Version1Services.truncated y = Version1Services.truncated x ∧
  ∀ d s, Version1Services.on y d s = true ↔
    Version1Services.on x d s = true ∨
    ∃ root found child, (d, root, found) ∈ results ∧ child ∈ found ∧ service_of_child root child = Some s.
Proof.
  cbn zeta. revert x. induction results as [|[[date root] found] results IH]; intros x; cbn [foldl].
  - split_and!; [done|done|]. intros d s. split; [by left|].
    intros [H|(r & f & c & H & _)]; [done|by apply not_elem_of_nil in H].
  - destruct (IH (record_children date root found x)) as (Hs & Ht & Ho). cbn [fst snd].
    destruct (Recorded.scanned_fold date root found x) as [Hs' Ht'].
    split; [by rewrite Hs|]. split; [by rewrite Ht|]. intros d s. rewrite Ho, Recorded.on_fold.
    setoid_rewrite elem_of_cons. split.
    + intros [[H|(-> & c & Hc & Hcs)]|(r & f & c & Hr & Hc & Hcs)]; [by left|..]; right.
      * exists root, found, c. split; [by left|done].
      * exists r, f, c. split; [by right|done].
    + intros [H|(r & f & c & [Hr|Hr] & Hc & Hcs)]; [by left; left|..].
      * injection Hr as -> -> ->. left. right. split; [done|]. by exists c.
      * right. by exists r, f, c.
Qed.

Lemma discover_spec base from to services :
  discover_version1_services bucket base from to = Ok services →
  ∃ days dates, discovery_day_layouts from to LayoutSet.Version1 = Ok (days, Version1Services.truncated services) ∧
    asked from days = Ok dates ∧ Version1Services.scanned_days services = days ∧
    ∀ d s,
      (Version1Services.on services d s = true → d ∈ dates ∧ published base keys d s) ∧
      (d ∈ dates → few_services base keys d → published base keys d s →
       Version1Services.on services d s = true).
Proof.
  unfold discover_version1_services.
  destruct (discovery_day_layouts from to LayoutSet.Version1) as [[days truncated]|e]; [|done].
  destruct (if blen days <? MAX_DISCOVERY_DAYS then previous_day_layout from LayoutSet.Version1 else Ok None) as [previous|e] eqn:Hp; [|done].
  set (requests := (λ day, (DayLayout.date day, version1_day_root base (DayLayout.date day))) <$> _).
  set (answer := λ request : bytes * bytes, match list_prefixes bucket (snd request) with
    | Ok found => Ok (request, found) | Err e => Err e end).
  destruct (collect_ok (arrival (answer <$> requests))) as [results|e] eqn:Hc; [|done].
  intros [= <-]. apply collect_ok_spec in Hc.
  assert (∀ r : bytes * bytes * list bytes, r ∈ results ↔ fst r ∈ requests ∧ list_prefixes bucket (snd (fst r)) = Ok (snd r)) as Hr.
  { intros r. transitivity (Ok (E := StorageError.t) r ∈ arrival (answer <$> requests)).
    - rewrite Hc. rewrite list_elem_of_fmap. split; [by exists r|]. by intros (? & [= ->] & ?).
    - rewrite arrival_perm, list_elem_of_fmap. unfold answer. split.
      + intros (q & Hq & Hin). destruct (list_prefixes bucket (snd q)) eqn:E; [|done]. by injection Hq as ->.
      + intros [Hin He]. exists (fst r). rewrite He. split; [by destruct r|done]. }
  destruct (record_all results (Version1Services.mk ∅ days truncated)) as (Hs & Ht & Ho).
  exists days. eexists. rewrite Ht. split_and!; [reflexivity|unfold asked; rewrite Hp; reflexivity|exact Hs|].
  assert (∀ d root : bytes, (d, root) ∈ requests ↔ d ∈ DayLayout.date <$> (option_list previous ++ days) ∧
    root = version1_day_root base d) as Hreq.
  { intros d root. unfold requests. rewrite !list_elem_of_fmap. split.
    - intros (day & [= -> ->] & Hin). split; [by exists day|done].
    - intros [(day & -> & Hin) ->]. by exists day. }
  intros d s. rewrite Ho. split.
  - intros [H|(root & found & child & Hin & Hch & Hsv)].
    { unfold Version1Services.on, Version1Services.dates_for in H. cbn in H. by rewrite lookup_empty in H. }
    apply Hr in Hin as [Hin Hl]. cbn [fst snd] in *. apply Hreq in Hin as [Hd ->]. split; [done|].
    exists child. split; [|done]. by apply (lists_children (keys := keys) _ _ Hl).
  - intros Hd Hf (child & Hch & Hsv). right.
    assert (∃ found, (d, version1_day_root base d, found) ∈ results) as [found Hin].
    { assert ((d, version1_day_root base d) ∈ requests) as Hq by (by apply Hreq).
      assert (answer (d, version1_day_root base d) ∈ arrival (answer <$> requests)) as Ha
        by (rewrite arrival_perm; by apply list_elem_of_fmap_2).
      rewrite Hc in Ha. apply list_elem_of_fmap in Ha as (r & Ha & Hin). unfold answer in Ha. cbn [snd] in Ha.
      destruct (list_prefixes bucket (version1_day_root base d)) as [found|]; [|done].
      injection Ha as <-. by exists found. }
    exists (version1_day_root base d), found, child. split; [done|]. split; [|done].
    apply Hr in Hin as [_ Hl]. by apply (lists_children (keys := keys) _ _ Hl).
Qed.
End discovered.
