(* ===== verification/Browse.v ===== *)
(** * Browsing traces (dial9-viewer/src/server/browse.rs, services.rs, prefixes.rs)

    A browse request lists the objects of a window: it fans out over prefixes
    of dates, services and times, and lists hours that hold too much again by
    ten minutes.  This file models the handlers and proves that what they list
    is what uploaders wrote. *)

From Stdlib Require Import ZArith Lia.
From stdpp Require Import base list gmap sets strings option sorting.
From coqutil Require Import Byte.
From S2P Require Import Prelude.
From S2P Require Import Text.
From S2P Require Import Utf8.
From S2P Require Import SamplingConfig.
From S2P Require Import Paths.
From S2P Require Import ObjectKeys.
From S2P Require Import Storage.
From S2P Require Import SourceLayout.

Definition PER_PREFIX_CAP : Z := 10000.
Definition MAX_PREFIXES : Z := 2000.
Definition MINUTE_GRANULARITY_THRESHOLD_SECS : Z := 600.

(** services.rs. *)
Definition LOCAL_OBJECT_CAP : Z := 10000.
Definition DISCOVERY_WINDOW_SECS : Z := 600.

Inductive granularity : Set := Hour | Minute.

#[global] Instance granularity_eq_dec : EqDecision granularity.
Proof. solve_decision. Defined.

Module ListingPrefix.
Record t : Type := mk { key : bytes; granularity : granularity }.
End ListingPrefix.

Module BrowseParams.
Record t : Type := mk {
  bucket : option bytes;
  prefix : option bytes;
  service : option bytes;
  layout_hint : option bytes;
  from : Z;
  to : Z }.
End BrowseParams.

(** services.rs. *)
Module ServicesParams.
Record t : Type := mk { bucket : option bytes; prefix : option bytes; from : Z; to : Z }.
End ServicesParams.

Module BrowseResponse.
Record t : Type := mk { objects : list ObjectInfo.t; truncated : bool }.
End BrowseResponse.

(** The part of [AppState] the handlers read; [resolve] gives the backend of
    the caller's credentials or refuses with a status. *)
Module AppState.
Record t : Type := mk {
  default_bucket : option bytes;
  default_prefix : option bytes;
  time_partitioned_source : bool;
  resolve : result StorageBackend Z }.
End AppState.

Module ServiceMetadata.
Record t : Type := mk { service : bytes; host_count : option Z; layout_hint : option bytes }.
End ServiceMetadata.

Module ServicesResponse.
Record t : Type := mk {
  services : list bytes;
  service_metadata : list ServiceMetadata.t;
  truncated : bool }.
End ServicesResponse.

(** [.map(str::trim).filter(|s| !s.is_empty())]. *)
Definition normalize (s : option bytes) : option bytes :=
  s ← s; let s := trim s in if bool_decide (s = []) then None else Some s.

Definition resolve_base (default_prefix key_prefix : option bytes) : bytes :=
  match default_prefix, key_prefix with
  | Some pfx, Some kp =>
      let default := trim_char SLASH pfx in
      let requested := trim_char SLASH kp in
      if bool_decide (default = []) || bool_decide (requested = default) ||
         starts_with (default ++ lit "/") requested
      then requested else default ++ lit "/" ++ requested
  | Some pfx, None => pfx
  | None, Some kp => kp
  | None, None => []
  end.

(** [storage_error_response] of a failed call. *)
Definition http {A} (r : result A StorageError.t) : result A Z :=
  match r with Ok x => Ok x | Err e => Err (storage_error_response e) end.

Definition nonempty (s : bytes) : option bytes := if bool_decide (s = []) then None else Some s.

Definition key_service (key : bytes) : option bytes :=
  '(_, service, _) ← dated_scope_fields key; nonempty service.

Definition key_host (key : bytes) : option bytes :=
  '(_, _, host) ← dated_scope_fields key; nonempty host.

Definition wanted (service : option bytes) (key : bytes) : bool :=
  match service with None => true | Some w => bool_decide (key_service key = Some w) end.

(** [objects.retain(..)], also the filters of [browse_local]. *)
Definition retained (service : option bytes) (objects : list ObjectInfo.t) : list ObjectInfo.t :=
  filter (λ o, is_trace_segment (ObjectInfo.key o) && wanted service (ObjectInfo.key o) = true) objects.

Definition browse_local {B : StorageBackend} (bucket base : bytes) (service : option bytes) :
    result BrowseResponse.t Z :=
  match http (list_objects bucket base PER_PREFIX_CAP) with
  | Err e => Err e
  | Ok page => Ok (BrowseResponse.mk (retained service (ListPage.objects page)) (ListPage.truncated page))
  end.

Section prefixes.
Context {Cal : Calendar}.

Definition bucket_parts (epoch : Z) (gran : granularity) : option (bytes * bytes) :=
  x ← civil epoch;
  Some (date_text x, match gran with Hour => put_padded 2 (Civil.hour x) | Minute => time_text x end).

Definition step_of (gran : granularity) : Z := match gran with Hour => 3600 | Minute => 60 end.

(** The prefixes collected so far, and whether the bound was met. *)
Abbreviation listing := (list ListingPrefix.t * bool)%type.

Fixpoint append_loop (fuel : nat) (to : Z) (gran : granularity) (build : bytes → bytes → bytes) (t : Z)
    (prefixes : list ListingPrefix.t) : listing :=
  match fuel with
  | O => (prefixes, false)
  | S fuel =>
      if to <? t then (prefixes, false)
      else if blen prefixes =? MAX_PREFIXES then (prefixes, true)
      else
        let prefixes :=
          match bucket_parts t gran with
          | Some (date, time) => prefixes ++ [ListingPrefix.mk (build date time) gran]
          | None => prefixes
          end in
        if I64_MAX <? t + step_of gran then (prefixes, false)
        else append_loop fuel to gran build (t + step_of gran) prefixes
  end.

Definition append_time_prefixes (from to : Z) (gran : granularity) (build : bytes → bytes → bytes)
    (st : listing) : listing :=
  let '(prefixes, truncated) := st in
  if truncated then st
  else
    let start := wrapping_i64 (from - from mod step_of gran) in
    append_loop (S (Z.to_nat ((to - start) / step_of gran + 1))) to gran build start prefixes.

Definition historical_prefix (base : bytes) (tail : bytes) (date time : bytes) : bytes :=
  join_prefix base (date ++ lit "/" ++ time ++ tail).

Definition version1_prefix (base encoded_service : bytes) (date time : bytes) : bytes :=
  join_prefix base (lit "version=1/date=" ++ date ++ lit "/service=" ++ encoded_service ++ lit "/time=" ++ time).

(** One day of [service_time_prefixes]. *)
Definition service_day (base service : bytes) (gran : granularity) (st : listing) (day : DayLayout.t) : listing :=
  if snd st then st
  else
    let st := if LayoutSet.historical (DayLayout.layout day)
              then append_time_prefixes (DayLayout.from day) (DayLayout.to day) Minute
                     (historical_prefix base (lit "/" ++ service ++ lit "/")) st
              else st in
    if negb (snd st) && LayoutSet.version1 (DayLayout.layout day)
    then append_time_prefixes (DayLayout.from day) (DayLayout.to day) gran
           (version1_prefix base (hive_escape service)) st
    else st.

Definition service_time_prefixes (base : bytes) (days : list DayLayout.t) (service : bytes)
    (version1_granularity : granularity) : listing :=
  foldl (service_day base service version1_granularity) ([], false) days.

(** One day of [unscoped_time_prefixes]. *)
Definition unscoped_day (base : bytes) (gran : granularity) (version1 : Version1Services.t) (st : listing)
    (day : DayLayout.t) : listing :=
  if snd st then st
  else
    let st := append_time_prefixes (DayLayout.from day) (DayLayout.to day) gran (historical_prefix base []) st in
    foldl (λ st service,
      append_time_prefixes (DayLayout.from day) (DayLayout.to day) gran
        (version1_prefix base (hive_escape service)) st)
      st (Version1Services.services_on version1 (DayLayout.date day)).

Definition unscoped_time_prefixes (base : bytes) (gran : granularity) (version1 : Version1Services.t) : listing :=
  foldl (unscoped_day base gran version1) ([], false) (Version1Services.scanned_days version1).

Definition historical_minute_prefixes (base : bytes) (from to : Z) : list bytes * bool :=
  let '(listing, truncated) := append_time_prefixes from to Minute (historical_prefix base []) ([], false) in
  (ListingPrefix.key <$> listing, truncated).

(** ** The handlers *)
Section handlers.
Context {Arr : Arrival} {J : HintJson}.

(** The prefixes a request fans out to. *)
Definition fan_out {B : StorageBackend} (bucket base : bytes) (from to : Z) (service layout_hint : option bytes)
    (now : Z) : result listing StorageError.t :=
  let window := wrapping_i64 (to - from) in
  let gran := if window <? MINUTE_GRANULARITY_THRESHOLD_SECS then Minute else Hour in
  match service with
  | Some service =>
      match resolve_service_layouts bucket base from to service layout_hint now with
      | Err e => Err e
      | Ok resolved =>
          let '(prefixes, truncated) :=
            service_time_prefixes base (ResolvedServiceLayouts.days resolved) service gran in
          Ok (prefixes, truncated || ResolvedServiceLayouts.truncated resolved)
      end
  | None =>
      match discover_version1_services bucket base from to with
      | Err e => Err e
      | Ok version1 =>
          let '(prefixes, truncated) := unscoped_time_prefixes base gran version1 in
          Ok (prefixes, truncated || Version1Services.truncated version1)
      end
  end.

(** Whether an hour is listed again. *)
Definition overflowed (result : ListingPrefix.t * ListPage.t) : bool :=
  ListPage.truncated (snd result) && bool_decide (ListingPrefix.granularity (fst result) = Hour).

Definition refine (prefix : bytes) : list bytes := (λ digit, prefix ++ put_dec digit) <$> seqZ 0 6.

(** The pages that make the answer. *)
Definition merge (pages : list ListPage.t) : list ObjectInfo.t * bool :=
  (pages ≫= ListPage.objects, existsb ListPage.truncated pages).

Definition browse_s3 {B : StorageBackend} (bucket base : bytes) (from to : Z)
    (service layout_hint : option bytes) (now : Z) : result BrowseResponse.t Z :=
  match http (fan_out bucket base from to service layout_hint now) with
  | Err e => Err e
  | Ok (prefixes, range_truncated) =>
      match collect_ok ((λ prefix, match http (list_objects bucket (ListingPrefix.key prefix) PER_PREFIX_CAP) with
                                   | Ok page => Ok (prefix, page) | Err e => Err e end) <$> prefixes) with
      | Err e => Err e
      | Ok results =>
          let '(objects, truncated) := merge (snd <$> filter (λ r, overflowed r = false) results) in
          let refined := filter (λ r, overflowed r = true) results ≫= λ r, refine (ListingPrefix.key (fst r)) in
          match collect_ok (arrival ((λ p, http (list_objects bucket p PER_PREFIX_CAP)) <$> refined)) with
          | Err e => Err e
          | Ok pages =>
              let '(objects', truncated') := merge pages in
              Ok (BrowseResponse.mk (retained service (objects ++ objects'))
                    (range_truncated || truncated || truncated'))
          end
      end
  end.

Definition browse (state : AppState.t) (params : BrowseParams.t) (now : Z) : result BrowseResponse.t Z :=
  let service := normalize (BrowseParams.service params) in
  match AppState.resolve state with
  | Err e => Err e
  | Ok B =>
      match union (BrowseParams.bucket params) (AppState.default_bucket state) with
      | None => Err 400
      | Some bucket =>
          if BrowseParams.to params <? BrowseParams.from params then Err 400
          else
            let base := resolve_base (AppState.default_prefix state) (normalize (BrowseParams.prefix params)) in
            if AppState.time_partitioned_source state
            then browse_s3 bucket base (BrowseParams.from params) (BrowseParams.to params) service
                   (BrowseParams.layout_hint params) now
            else browse_local bucket base service
      end
  end.

(** The hosts of each service in a flat listing. *)
Definition hosts_by_service (objects : list ObjectInfo.t) : gmap bytes (gset bytes) :=
  foldl (λ hosts object,
    match key_service (ObjectInfo.key object) with
    | None => hosts
    | Some service =>
        partial_alter (λ known,
          Some (match key_host (ObjectInfo.key object) with
                | Some host => {[host]} ∪ default ∅ known
                | None => default ∅ known
                end)) service hosts
    end) ∅ objects.

Definition metadata_from_hosts (hosts : gmap bytes (gset bytes)) : list ServiceMetadata.t :=
  (λ service, ServiceMetadata.mk service (Some (Z.of_nat (size (default ∅ (hosts !! service))))) None)
    <$> in_order (dom hosts).

(** The service a historical minute holds a directory of. *)
Definition historical_service (minute_prefix child : bytes) : option bytes :=
  rest ← strip_prefix (minute_prefix ++ lit "/") child; segment ← strip_suffix (lit "/") rest;
  if bool_decide (segment = []) || contains (lit "/") segment then None else Some segment.

(** The partitioned branch of [list_services]. *)
Definition services_s3 {B : StorageBackend} (bucket base : bytes) (from to now : Z) :
    result ServicesResponse.t Z :=
  match http (discover_version1_services bucket base from to) with
  | Err e => Err e
  | Ok version1 =>
      let discovery_from := Z.max (Z.max (to - DISCOVERY_WINDOW_SECS) (- 2 ^ 63)) from in
      let '(prefixes, truncated) := historical_minute_prefixes base discovery_from to in
      match collect_ok (arrival ((λ prefix, match http (list_prefixes bucket (prefix ++ lit "/")) with
                                           | Ok found => Ok (prefix, found) | Err e => Err e end) <$> prefixes)) with
      | Err e => Err e
      | Ok results =>
          let services : gset bytes :=
            list_to_set (Version1Services.services version1) ∪
            list_to_set (results ≫= λ result, omap (historical_service (fst result)) (snd result)) in
          let metadata := (λ service, ServiceMetadata.mk service None
            (if Version1Services.truncated version1 then None
             else Some (encode_hint bucket base service (Version1Services.scanned_days version1)
                          (Version1Services.first_date_for version1 service) now))) <$> in_order services in
          Ok (ServicesResponse.mk (in_order services) metadata
                (truncated || Version1Services.truncated version1))
      end
  end.

Definition list_services (state : AppState.t) (params : ServicesParams.t) (now : Z) : result ServicesResponse.t Z :=
  if ServicesParams.to params <? ServicesParams.from params then Err 400
  else
    match AppState.resolve state with
    | Err e => Err e
    | Ok B =>
        match union (ServicesParams.bucket params) (AppState.default_bucket state) with
        | None => Err 400
        | Some bucket =>
            let base := resolve_base (AppState.default_prefix state) (normalize (ServicesParams.prefix params)) in
            if negb (AppState.time_partitioned_source state) then
              match http (list_objects bucket base LOCAL_OBJECT_CAP) with
              | Err e => Err e
              | Ok page =>
                  let hosts := hosts_by_service (ListPage.objects page) in
                  Ok (ServicesResponse.mk (in_order (dom hosts)) (metadata_from_hosts hosts)
                        (ListPage.truncated page))
              end
            else services_s3 bucket base (ServicesParams.from params) (ServicesParams.to params) now
        end
    end.
End handlers.
End prefixes.

(** ** Dates and times as words *)

#[local] Opaque put_padded put_dec.

Section words.
Context {Cal : Calendar}.

(** The seconds the calendar has, from 1970. *)
Definition on_calendar (t : Z) : Prop := 0 <= t <= TIMESTAMP_MAX.

Definition time_of (gran : granularity) (t : Z) : bytes :=
  match gran with
  | Hour => put_padded 2 (Civil.hour (date_time t))
  | Minute => time_text (date_time t)
  end.

Definition date_of (t : Z) : bytes := date_text (date_time t).

Lemma bucket_parts_on t gran : on_calendar t → bucket_parts t gran = Some (date_of t, time_of gran t).
Proof. intros Ht. unfold bucket_parts. rewrite (date_time_civil t Ht). by destruct gran. Qed.

Lemma on_calendar_day t n : on_calendar t → t / DAY = n → on_calendar (DAY * n).
Proof. unfold on_calendar, TIMESTAMP_MAX, DAY. intros. divisions. Qed.

Lemma date_of_day t u : on_calendar t → on_calendar u → t / DAY = u / DAY → date_of t = date_of u.
Proof.
  intros Ht Hu Hd. unfold date_of, date_text.
  destruct (civil_day t u _ _ (date_time_civil t Ht) (date_time_civil u Hu) Hd) as (-> & -> & ->). done.
Qed.

Lemma four_digits_on t : on_calendar t → four_digits (date_time t).
Proof. intros Ht. eapply civil_four_digits; [|by apply date_time_civil]. apply Ht. Qed.

Lemma before_ltb x y :
  four_digits x → four_digits y → Civil.before x y → str_ltb (date_text x) (date_text y) = true.
Proof.
  intros (Hy & Hm & Hd) (Hy' & Hm' & Hd') Hb. unfold date_text.
  rewrite <- (app_nil_r (put_padded 2 (Civil.day x))), <- (app_nil_r (put_padded 2 (Civil.day y))).
  rewrite str_ltb_padded by (cbn; lia). rewrite str_ltb_app, str_ltb_padded by (cbn; lia).
  rewrite str_ltb_app, str_ltb_padded by (cbn; lia). unfold Civil.before in Hb.
  split_tests; cbn; try done; lia.
Qed.

Lemma date_of_lt t u : on_calendar t → on_calendar u → t / DAY < u / DAY → str_ltb (date_of t) (date_of u) = true.
Proof.
  intros Ht Hu Hlt. apply before_ltb; [by apply four_digits_on..|].
  by apply (civil_order t u); [apply date_time_civil..|].
Qed.

Lemma date_of_inj t u : on_calendar t → on_calendar u → date_of t = date_of u → t / DAY = u / DAY.
Proof.
  intros Ht Hu E. destruct (Z.lt_trichotomy (t / DAY) (u / DAY)) as [H|[H|H]]; [|done|].
  - pose proof (date_of_lt t u Ht Hu H) as Hl. by rewrite E, str_ltb_irrefl in Hl.
  - pose proof (date_of_lt u t Hu Ht H) as Hl. by rewrite E, str_ltb_irrefl in Hl.
Qed.

Lemma date_of_plain t : on_calendar t → plain (date_of t).
Proof. intros Ht. by apply date_text_ok, four_digits_on. Qed.

Lemma clock_on t : on_calendar t →
  Civil.hour (date_time t) = t mod DAY / 3600 ∧ Civil.minute (date_time t) = t mod 3600 / 60.
Proof. intros Ht. by apply civil_clock, date_time_civil. Qed.

Lemma clock_bounds t : on_calendar t →
  0 <= Civil.hour (date_time t) < 24 ∧ 0 <= Civil.minute (date_time t) < 60.
Proof. intros Ht. by eapply civil_clock_ok, date_time_civil. Qed.

Lemma time_of_length gran t : on_calendar t →
  length (time_of gran t) = match gran with Hour => 2%nat | Minute => 4%nat end.
Proof.
  intros Ht. destruct (clock_bounds t Ht) as [Hh Hm]. unfold time_of, time_text.
  destruct (put_padded_digits 2 (Civil.hour (date_time t))) as [Lh _]; [lia|cbn; lia|].
  destruct (put_padded_digits 2 (Civil.minute (date_time t))) as [Lm _]; [lia|cbn; lia|].
  destruct gran; [exact Lh|]. rewrite length_app, Lh, Lm. reflexivity.
Qed.

Lemma time_of_inj gran t u :
  on_calendar t → on_calendar u → t / DAY = u / DAY → time_of gran t = time_of gran u →
  t / step_of gran = u / step_of gran.
Proof.
  intros Ht Hu Hd E. destruct (clock_bounds t Ht) as [Hh Hm]. destruct (clock_bounds u Hu) as [Hh' Hm'].
  destruct (clock_on t Ht) as [Eh Em]. destruct (clock_on u Hu) as [Eh' Em'].
  assert (Civil.hour (date_time t) = Civil.hour (date_time u) ∧
    (gran = Minute → Civil.minute (date_time t) = Civil.minute (date_time u))) as [H1 H2].
  { unfold time_of, time_text in E. destruct gran.
    - apply put_padded_inj in E; [|lia|cbn; lia..]. split; [exact E|discriminate].
    - destruct (put_padded_digits 2 (Civil.hour (date_time t))) as [Lh _]; [lia|cbn; lia|].
      destruct (put_padded_digits 2 (Civil.hour (date_time u))) as [Lh' _]; [lia|cbn; lia|].
      apply app_inj_1 in E as [E1 E2]; [|rewrite Lh, Lh'; reflexivity].
      apply put_padded_inj in E1; [|lia|cbn; lia..]. apply put_padded_inj in E2; [|lia|cbn; lia..]. split; [exact E1|intros _; exact E2]. }
  rewrite Eh, Eh' in H1. rewrite Em, Em' in H2. unfold step_of, DAY in *. clear - Hd H1 H2.
  destruct gran; [|specialize (H2 eq_refl)]; divisions.
Qed.

(** The time of a key begins with its hour, then a digit below six. *)
Lemma time_hour t : on_calendar t →
  time_text (date_time t) = time_of Hour t ++ put_padded 2 (Civil.minute (date_time t)) ∧
  ∃ d r, 0 <= d < 6 ∧ put_padded 2 (Civil.minute (date_time t)) = put_dec d ++ r.
Proof.
  intros Ht. split; [reflexivity|]. destruct (clock_bounds t Ht) as [_ Hm].
  exists (Civil.minute (date_time t) / 10), [z2b (48 + Civil.minute (date_time t) mod 10)].
  split; [divisions|]. rewrite put_padded_fixed by (cbn; lia). cbn [dec_fixed app].
  assert (0 <= Civil.minute (date_time t) / 10 < 6) as Hd by divisions.
  rewrite put_dec_digit by lia. rewrite (Z.mod_small (_ / 10)) by lia. reflexivity.
Qed.
End words.

(** ** The prefixes of a request

    A listing [st] grows by a list, or by the beginning of it when the bound is
    met, and stays as it is once it was met. *)
Section grow.
Context {Cal : Calendar}.

Record grows (f : list ListingPrefix.t * bool → list ListingPrefix.t * bool) (more : list ListingPrefix.t) : Prop := {
  grows_stop ps : f (ps, true) = (ps, true);
  grows_more ps : ∃ l rest truncated, f (ps, false) = (ps ++ l, truncated) ∧ more = l ++ rest ∧
    (truncated = false → rest = []) }.

Lemma grows_none : grows id [].
Proof. split; [done|]. intros ps. exists [], [], false. by rewrite app_nil_r. Qed.

Lemma grows_comp f g a b : grows f a → grows g b → grows (λ st, g (f st)) (a ++ b).
Proof.
  intros [Fs Fm] [Gs Gm]. split; [intros ps; by rewrite Fs|]. intros ps.
  destruct (Fm ps) as (l & rest & [] & Hf & -> & Ht).
  - exists l, (rest ++ b), true. rewrite Hf, Gs, <- app_assoc. by split_and!.
  - rewrite Ht, app_nil_r by done. destruct (Gm (ps ++ l)) as (l' & rest' & tr & Hg & -> & Ht').
    exists (l ++ l'), rest', tr. rewrite Hf, Hg, <- !app_assoc. by split_and!.
Qed.

Lemma grows_ext f g a : (∀ st, f st = g st) → grows f a → grows g a.
Proof. intros E [Hs Hm]. split; intros ps; rewrite <- E; [apply Hs|apply Hm]. Qed.

Lemma grows_fold {A} (f : list ListingPrefix.t * bool → A → list ListingPrefix.t * bool) more l :
  (∀ x, x ∈ l → grows (λ st, f st x) (more x)) → grows (λ st, foldl f st l) (l ≫= more).
Proof.
  induction l as [|x l IH]; intros H; [apply grows_none|]. cbn [foldl].
  apply (grows_comp (λ st, f st x) (λ st, foldl f st l)); [apply H; by left|].
  apply IH. intros y Hy. apply H. by right.
Qed.

(** The prefixes of all times of a stretch. *)
Definition times (gran : granularity) (build : bytes → bytes → bytes) (from to : Z) : list ListingPrefix.t :=
  (λ n, let t := step_of gran * n in ListingPrefix.mk (build (date_of t) (time_of gran t)) gran)
    <$> seqZ (from / step_of gran) (to / step_of gran - from / step_of gran + 1).

Lemma step_of_pos gran : 60 <= step_of gran <= 3600.
Proof. by destruct gran. Qed.

Lemma append_loop_spec fuel to gran build n ps :
  0 <= n → to <= TIMESTAMP_MAX → (to - step_of gran * n) / step_of gran + 1 < Z.of_nat fuel →
  ∃ l rest truncated, append_loop fuel to gran build (step_of gran * n) ps = (ps ++ l, truncated) ∧
    times gran build (step_of gran * n) to = l ++ rest ∧ (truncated = false → rest = []).
Proof.
  revert n ps. induction fuel as [|fuel IH]; intros n ps Hn Hto Hf; pose proof (step_of_pos gran) as Hs;
    unfold times; rewrite (Z.mul_comm (step_of gran) n), Z.div_mul, (Z.mul_comm n) by lia.
  { exists [], [], false. rewrite app_nil_r. split_and!; [done| |done]. cbn [append_loop app].
    assert (to / step_of gran - n + 1 <= 0) as Hle.
    { replace (to - step_of gran * n) with (to + (- n) * step_of gran) in Hf by lia. rewrite Z.div_add in Hf by lia. lia. }
    rewrite seqZ_nil by done. done. }
  cbn [append_loop]. destruct (Z.ltb_spec to (step_of gran * n)) as [Ht|Ht].
  { exists [], [], false. rewrite app_nil_r. split_and!; [done| |done].
    assert (to / step_of gran < n) as Hlt by (apply Z.div_lt_upper_bound; lia). rewrite seqZ_nil by lia. done. }
  destruct (Z.eqb_spec (blen ps) MAX_PREFIXES) as [He|He].
  { eexists [], _, true. rewrite app_nil_r. by split_and!. }
  assert (n <= to / step_of gran) as Hle by (apply Z.div_le_lower_bound; lia).
  rewrite bucket_parts_on by (unfold on_calendar; lia).
  rewrite (proj2 (Z.ltb_ge I64_MAX (step_of gran * n + step_of gran)))
    by (unfold I64_MAX, TIMESTAMP_MAX in *; lia).
  replace (step_of gran * n + step_of gran) with (step_of gran * (n + 1)) by lia.
  set (p := ListingPrefix.mk _ _).
  destruct (IH (n + 1) (ps ++ [p])) as (l & rest & tr & Hl & Hr & Htr); [lia|done| |].
  { replace (to - step_of gran * (n + 1)) with (to - step_of gran * n + (-1) * step_of gran) by lia.
    rewrite Z.div_add by lia. lia. }
  exists (p :: l), rest, tr. rewrite Hl, <- app_assoc. split_and!; [done| |done].
  rewrite seqZ_cons by lia. cbn [fmap list_fmap app]. f_equal. rewrite <- Hr. unfold times.
  rewrite (Z.mul_comm _ (n + 1)), Z.div_mul by lia. do 2 f_equal; lia.
Qed.

Lemma append_grows from to gran build :
  0 <= from → to <= TIMESTAMP_MAX → from <= TIMESTAMP_MAX →
  grows (append_time_prefixes from to gran build) (times gran build from to).
Proof.
  intros Hf Ht Hft. pose proof (step_of_pos gran) as Hs. split; [done|]. intros ps.
  unfold append_time_prefixes.
  assert (wrapping_i64 (from - from mod step_of gran) = step_of gran * (from / step_of gran)) as ->.
  { pose proof (Z.div_mod from (step_of gran)). pose proof (Z.mod_pos_bound from (step_of gran)).
    assert (0 <= from / step_of gran) by (apply Z.div_pos; lia).
    unfold wrapping_i64, cast, to_signed, TIMESTAMP_MAX in *. rewrite Z.mod_small by lia.
    rewrite (proj2 (Z.ltb_lt _ (2 ^ (64 - 1)))) by lia. lia. }
  destruct (append_loop_spec (S (Z.to_nat ((to - step_of gran * (from / step_of gran)) / step_of gran + 1)))
    to gran build (from / step_of gran) ps) as (l & rest & tr & Hl & Hr & Htr);
    [apply Z.div_pos; lia|done|lia|].
  exists l, rest, tr. split; [done|]. split; [|done]. rewrite <- Hr. unfold times.
  by rewrite (Z.mul_comm (step_of gran)), Z.div_mul by lia.
Qed.

(** A time of the stretch is in one of them. *)
Lemma in_times gran build from to t :
  0 <= from → from <= t <= to →
  ListingPrefix.mk (build (date_of (step_of gran * (t / step_of gran))) (time_of gran (step_of gran * (t / step_of gran)))) gran
    ∈ times gran build from to.
Proof.
  intros Hf Ht. pose proof (step_of_pos gran). apply list_elem_of_fmap. exists (t / step_of gran). split; [done|].
  apply elem_of_seqZ. pose proof (Z.div_le_mono from t (step_of gran)). pose proof (Z.div_le_mono t to (step_of gran)). lia.
Qed.
End grow.

(** ** What a request fans out to *)
Section fan.
Context {Cal : Calendar}.

Definition proper (day : DayLayout.t) : Prop :=
  0 <= DayLayout.from day ∧ DayLayout.from day <= TIMESTAMP_MAX ∧ DayLayout.to day <= TIMESTAMP_MAX.

Definition historical_times (base tail : bytes) (gran : granularity) (day : DayLayout.t) : list ListingPrefix.t :=
  times gran (historical_prefix base tail) (DayLayout.from day) (DayLayout.to day).

Definition version1_times (base : bytes) (gran : granularity) (day : DayLayout.t) (service : bytes) :
    list ListingPrefix.t :=
  times gran (version1_prefix base (hive_escape service)) (DayLayout.from day) (DayLayout.to day).

Definition service_more (base service : bytes) (gran : granularity) (day : DayLayout.t) : list ListingPrefix.t :=
  (if LayoutSet.historical (DayLayout.layout day)
   then historical_times base (lit "/" ++ service ++ lit "/") Minute day else []) ++
  (if LayoutSet.version1 (DayLayout.layout day) then version1_times base gran day service else []).

Definition unscoped_more (base : bytes) (gran : granularity) (version1 : Version1Services.t) (day : DayLayout.t) :
    list ListingPrefix.t :=
  historical_times base [] gran day ++
  (Version1Services.services_on version1 (DayLayout.date day) ≫= version1_times base gran day).

Lemma append_day_grows day gran build :
  proper day → grows (append_time_prefixes (DayLayout.from day) (DayLayout.to day) gran build)
    (times gran build (DayLayout.from day) (DayLayout.to day)).
Proof. intros (H1 & H2 & H3). by apply append_grows. Qed.

Lemma grows_if (b : bool) f more : grows f more → grows (λ st, if b then f st else st) (if b then more else []).
Proof. intros H. destruct b; [done|apply grows_none]. Qed.

Lemma service_day_grows base service gran day :
  proper day → grows (λ st, service_day base service gran st day) (service_more base service gran day).
Proof.
  intros Hp. eapply grows_ext; cycle 1.
  { unfold service_more. apply grows_comp; apply grows_if, append_day_grows, Hp. }
  intros [ps tr]. unfold service_day. cbn [snd]. destruct tr.
  - by destruct (LayoutSet.historical _), (LayoutSet.version1 _).
  - destruct (if LayoutSet.historical (DayLayout.layout day) then _ else _) as [ps' []]; cbn [snd negb andb].
    + by destruct (LayoutSet.version1 _).
    + done.
Qed.

Lemma unscoped_day_grows base gran version1 day :
  proper day → grows (λ st, unscoped_day base gran version1 st day) (unscoped_more base gran version1 day).
Proof.
  intros Hp. eapply grows_ext; cycle 1.
  { unfold unscoped_more. apply (grows_comp
      (append_time_prefixes (DayLayout.from day) (DayLayout.to day) gran (historical_prefix base []))
      (λ st, foldl (λ st service, append_time_prefixes (DayLayout.from day) (DayLayout.to day) gran
        (version1_prefix base (hive_escape service)) st) st
        (Version1Services.services_on version1 (DayLayout.date day)))); [by apply append_day_grows|].
    apply grows_fold. intros s _. by apply append_day_grows. }
  intros [ps tr]. unfold unscoped_day. cbn [snd]. destruct tr; [|done]. cbn [append_time_prefixes].
  induction (Version1Services.services_on version1 (DayLayout.date day)) as [|s l IH]; [done|]. apply IH.
Qed.

(** The prefixes of a request, without the bound; the days of [days] are those
    of the window. *)
Definition all_prefixes (base : bytes) (gran : granularity) (service : option bytes) (days : list DayLayout.t)
    (version1 : Version1Services.t) : list ListingPrefix.t :=
  match service with
  | Some s => days ≫= service_more base s gran
  | None => days ≫= unscoped_more base gran version1
  end.

Lemma service_prefixes_spec base service gran days ps tr :
  Forall proper days → service_time_prefixes base days service gran = (ps, tr) →
  ∃ rest, (days ≫= service_more base service gran) = ps ++ rest ∧ (tr = false → rest = []).
Proof.
  intros Hd He. destruct (grows_fold (service_day base service gran) (service_more base service gran) days) as [_ Hm].
  { intros x Hx. apply service_day_grows. rewrite list.Forall_forall in Hd. by apply Hd. }
  destruct (Hm []) as (l & rest & tr' & Hl & Hr & Ht). unfold service_time_prefixes in He. rewrite He in Hl.
  injection Hl as -> ->. by exists rest.
Qed.

Lemma unscoped_prefixes_spec base gran version1 ps tr :
  Forall proper (Version1Services.scanned_days version1) → unscoped_time_prefixes base gran version1 = (ps, tr) →
  ∃ rest, (Version1Services.scanned_days version1 ≫= unscoped_more base gran version1) = ps ++ rest ∧
    (tr = false → rest = []).
Proof.
  intros Hd He. destruct (grows_fold (unscoped_day base gran version1) (unscoped_more base gran version1)
    (Version1Services.scanned_days version1)) as [_ Hm].
  { intros x Hx. apply unscoped_day_grows. rewrite list.Forall_forall in Hd. by apply Hd. }
  destruct (Hm []) as (l & rest & tr' & Hl & Hr & Ht). unfold unscoped_time_prefixes in He. rewrite He in Hl.
  injection Hl as -> ->. by exists rest.
Qed.

(** The days of a window are proper, and a day's date is that of its times. *)
Lemma day_at_proper from to layout n :
  0 <= from → on_calendar (DAY * n) → from <= to → from / DAY <= n → DAY * n <= to →
  proper (day_at from to layout n) ∧
  ∀ t, DAY * n <= t <= DAY * n + 86399 → on_calendar t ∧ date_of t = DayLayout.date (day_at from to layout n).
Proof.
  intros Hf Hn Hft Hfn Hto.
  assert (∀ t, DAY * n <= t <= DAY * n + 86399 → on_calendar t ∧ t / DAY = n) as Hin.
  { unfold on_calendar, TIMESTAMP_MAX, DAY in *. intros t Ht. divisions. }
  assert (from <= DAY * n + 86399) as Hfd by (unfold DAY in *; divisions).
  split.
  - destruct (Hin (DAY * n + 86399)) as [[_ Hl] _]; [lia|]. destruct Hn as [Hn0 Hn].
    unfold proper, day_at, day_from. cbn [DayLayout.from DayLayout.to]. split_and!; lia.
  - intros t Ht. destruct (Hin t Ht) as [Hc Hd]. split; [done|].
    change (DayLayout.date _) with (date_of (DAY * n)). apply date_of_day; [done|done|].
    rewrite (Z.mul_comm DAY), Z.div_mul by done. done.
Qed.
End fan.

(** ** Keys below the prefixes *)
Section keys.
Context {Cal : Calendar}.

(** The browser looks below the uploader's prefix, give or take slashes behind
    it. *)
Definition based (c : S3Config.t) (base : bytes) : Prop :=
  match S3Config.prefix c with
  | None => base = []
  | Some p => base <> [] ∧ trim_end_char SLASH base = p
  end.

Lemma join_prefix_app base a b : join_prefix base (a ++ b) = join_prefix base a ++ b.
Proof. destruct base; [done|]. cbn [join_prefix]. by rewrite <- !app_assoc. Qed.

Lemma join_prefix_inj base a b : join_prefix base a = join_prefix base b → a = b.
Proof. destruct base; [done|]. cbn [join_prefix]. intros H. by do 2 apply app_inv_head in H. Qed.

Lemma v1_suffix_shape D E T I B F :
  join_slash [lit "version=1"; lit "date" ++ lit "=" ++ D; lit "service" ++ lit "=" ++ E;
    lit "time" ++ lit "=" ++ T; lit "instance" ++ lit "=" ++ I; lit "boot" ++ lit "=" ++ B; F] =
  (lit "version=1/date=" ++ D ++ lit "/service=" ++ E ++ lit "/time=" ++ T) ++
    SLASH :: join_slash [lit "instance" ++ lit "=" ++ I; lit "boot" ++ lit "=" ++ B; F].
Proof. rewrite <- !app_assoc. reflexivity. Qed.

(** The key behind the service and the time. *)
Lemma key_shape c index metadata base :
  default_layout c → on_calendar (epoch_of metadata) → based c base →
  ∃ rest, object_key c index metadata =
    version1_prefix base (hive_escape (S3Config.service_name c)) (date_of (epoch_of metadata))
      (time_of Minute (epoch_of metadata)) ++ SLASH :: rest.
Proof.
  intros Hc Hm Hb. rewrite object_key_v1 by apply Hc.
  destruct (plain_facts _ (date_of_plain _ Hm)) as (He & _ & _).
  assert (hive_escape (time_of Minute (epoch_of metadata)) = time_of Minute (epoch_of metadata)) as Ht.
  { destruct (clock_bounds _ Hm) as [Hh Hmin]. exact (proj1 (plain_facts _ (proj2 (time_text_ok _ Hh Hmin)))). }
  eexists. unfold format_v1_segment_object_key, version1_prefix.
  rewrite <- join_prefix_app. transitivity (join_prefix base
    (v1_suffix (date_of (epoch_of metadata)) (S3Config.service_name c) (time_of Minute (epoch_of metadata))
      (S3Config.instance_path c) (S3Config.boot_id c)
      (ObjectKeys.file_name (epoch_of metadata) index (is_gzip metadata)))).
  { unfold based in Hb. destruct (S3Config.prefix c) as [p|].
    - destruct Hb as [Hne <-]. destruct base; [done|]. reflexivity.
    - subst base. reflexivity. }
  f_equal. unfold v1_suffix, partition. rewrite He, Ht. apply v1_suffix_shape.
Qed.

Lemma version1_prefix_app base s d t u : version1_prefix base s d (t ++ u) = version1_prefix base s d t ++ u.
Proof. unfold version1_prefix. rewrite <- join_prefix_app, <- !app_assoc. done. Qed.

Lemma version1_prefix_root base s d t :
  version1_prefix base s d t = version1_day_root base d ++ lit "service=" ++ s ++ SLASH :: lit "time=" ++ t.
Proof.
  unfold version1_prefix, version1_day_root. rewrite <- join_prefix_app. f_equal. rewrite <- !app_assoc. reflexivity.
Qed.

(** A key's directory below the day's root names its service. *)
Lemma key_published c index metadata base keys :
  default_layout c → on_calendar (epoch_of metadata) → based c base →
  object_key c index metadata ∈ keys →
  published base keys (date_of (epoch_of metadata)) (S3Config.service_name c).
Proof.
  intros Hc Hm Hb Hin. destruct (key_shape c index metadata base Hc Hm Hb) as [rest Hk].
  rewrite version1_prefix_root in Hk. set (root := version1_day_root base (date_of (epoch_of metadata))) in *.
  set (enc := hive_escape (S3Config.service_name c)) in *.
  assert (SLASH ∉ enc) as Hs by apply hive_escape_plain.
  assert (SLASH ∉ lit "service=" ++ enc) as Hse.
  { rewrite elem_of_app. intros [H|H]; [|done]. revert H. no_slash. }
  exists (root ++ (lit "service=" ++ enc) ++ [SLASH]). split.
  - unfold children. apply elem_of_remove_dups, list_elem_of_omap. exists (object_key c index metadata).
    split; [done|]. unfold child_of. rewrite Hk, <- !app_assoc, strip_prefix_app. cbn [mbind option_bind].
    rewrite app_assoc, <- app_comm_cons, split_once_char by done. cbn [mbind option_bind].
    by rewrite <- !app_assoc.
  - unfold service_of_child. rewrite strip_prefix_app. cbn [mbind option_bind].
    change (lit "/") with [SLASH]. rewrite strip_suffix_app. cbn [mbind option_bind].
    assert (contains [SLASH] (lit "service=" ++ enc) = false) as ->.
    { unfold contains. rewrite split_once_none by done. reflexivity. }
    rewrite option_guard_True by done. cbn [mbind option_bind]. rewrite strip_prefix_app. cbn [mbind option_bind].
    apply hive_unescape_read, Hc.
Qed.

(** A listing of the service's times has the key below one of its prefixes;
    below an hour's, the key is below one of its ten minutes. *)
Lemma key_in_times c index metadata base gran day :
  default_layout c → based c base → on_calendar (epoch_of metadata) → 0 <= DayLayout.from day →
  DayLayout.from day <= epoch_of metadata <= DayLayout.to day →
  ∃ p, p ∈ version1_times base gran day (S3Config.service_name c) ∧
    (p = ListingPrefix.mk (ListingPrefix.key p) gran) ∧
    starts_with (ListingPrefix.key p) (object_key c index metadata) = true ∧
    (gran = Hour → ∃ q, q ∈ refine (ListingPrefix.key p) ∧ starts_with q (object_key c index metadata) = true).
Proof.
  intros Hc Hb Hm Hf He. destruct (key_shape c index metadata base Hc Hm Hb) as [rest Hk].
  set (e := epoch_of metadata) in *. pose proof (step_of_pos gran) as Hs.
  set (u := step_of gran * (e / step_of gran)).
  assert (on_calendar u ∧ u / DAY = e / DAY ∧ u / step_of gran = e / step_of gran) as (Hu & Hud & Hus).
  { subst u. destruct Hm as [Hm0 Hm1]. unfold on_calendar, TIMESTAMP_MAX, DAY in *. clear - Hm0 Hm1.
    destruct gran; cbn [step_of]; split_and!; divisions. }
  eexists. split; [exact (in_times gran _ _ _ e Hf He)|]. split; [done|]. cbn [ListingPrefix.key]. fold u.
  rewrite (date_of_day u e Hu Hm Hud). destruct (clock_on u Hu) as [Eh Em]. destruct (clock_on e Hm) as [Eh' Em'].
  destruct (time_hour e Hm) as [Hth (d & r & Hd & Hdr)].
  destruct gran.
  - assert (time_of Hour u = time_of Hour e) as ->.
    { unfold time_of. rewrite Eh, Eh'. f_equal. unfold step_of, DAY in *. clear -Hud Hus. divisions. }
    change (time_of Minute e) with (time_text (date_time e)) in Hk. rewrite Hth, Hdr, version1_prefix_app in Hk. split.
    + apply starts_with_true. eexists. rewrite Hk, <- app_assoc. reflexivity.
    + intros _. exists (version1_prefix base (hive_escape (S3Config.service_name c)) (date_of e) (time_of Hour e) ++ put_dec d).
      split; [apply list_elem_of_fmap; exists d; split; [done|apply elem_of_seqZ; lia]|].
      apply starts_with_true. eexists. rewrite Hk, <- !app_assoc. reflexivity.
  - assert (time_of Minute u = time_of Minute e) as ->.
    { unfold time_of, time_text. rewrite Eh, Eh', Em, Em'. unfold step_of, DAY in *. f_equal; f_equal; clear -Hud Hus; divisions. }
    split; [|discriminate]. apply starts_with_true. by exists (SLASH :: rest).
Qed.
End keys.

(** ** What the fan-out covers *)
Section covers.
Context {Cal : Calendar} {B : StorageBackend} {Arr : Arrival} {J : HintJson} {bucket : bytes} {keys : list bytes}.
Context {L : Lists B bucket keys}.

(** The days of a window with their layouts. *)
Definition window_days (from to : Z) (lay : Z → LayoutSet.t) (k : Z) : list DayLayout.t :=
  (λ n, day_at from to (lay n) n) <$> seqZ (from / DAY) k.

Definition consecutive (from to k : Z) : Prop :=
  0 <= k ∧ ∀ n, from / DAY <= n < from / DAY + k → on_calendar (DAY * n) ∧ DAY * n <= to.

(** A list of days that was cut has the full number. *)
Lemma discovery_days_cut from to layout days tr :
  0 <= from < 2 ^ 63 → discovery_day_layouts from to layout = Ok (days, tr) →
  ∃ k, days = window_days from to (λ _, layout) k ∧ consecutive from to k ∧
    (if tr then k = MAX_DISCOVERY_DAYS else to < DAY * (from / DAY + k)).
Proof.
  intros Hf Hd. assert (- DAY <= from < 2 ^ 63) as Hf' by (unfold DAY; lia).
  destruct (day_layouts_spec from to layout MAX_DISCOVERY_DAYS days tr Hf' ltac:(done) Hd) as (k & Hk & -> & Hm & Ht).
  exists k. split; [done|]. split.
  - split; [done|]. intros n Hn. destruct (Hm n Hn) as [Hc Hto]. split; [|done].
    apply civil_range in Hc. unfold on_calendar. split; [|apply Hc]. unfold DAY in *. divisions.
  - destruct tr; [|done]. unfold blen in Ht. rewrite length_fmap, length_seqZ in Ht. lia.
Qed.

Lemma discovery_days from to layout days tr :
  0 <= from < 2 ^ 63 → discovery_day_layouts from to layout = Ok (days, tr) →
  ∃ k, days = window_days from to (λ _, layout) k ∧ consecutive from to k ∧
    (tr = false → to < DAY * (from / DAY + k)).
Proof.
  intros Hf Hd. destruct (discovery_days_cut _ _ _ _ _ Hf Hd) as (k & -> & Hk & Ht). exists k.
  split_and!; [done..|]. by intros ->.
Qed.

Lemma classify_window from to layout k first :
  classify_days (window_days from to (λ _, layout) k) first =
  window_days from to (λ n, match first with
    | None => LayoutSet.Historical
    | Some first =>
        if str_ltb (date_of (DAY * n)) first then LayoutSet.Historical
        else if bool_decide (date_of (DAY * n) = first) then LayoutSet.Both else LayoutSet.Version1
    end) k.
Proof. unfold classify_days, window_days. rewrite <- list_fmap_compose. done. Qed.

Lemma window_proper from to lay k :
  0 <= from → from <= to → consecutive from to k → Forall proper (window_days from to lay k).
Proof.
  intros Hf Hft [Hk Hn]. apply list.Forall_forall. intros d Hd.
  apply list_elem_of_fmap in Hd as (n & -> & Hin). apply elem_of_seqZ in Hin. destruct (Hn n Hin) as [Hc Hto].
  apply day_at_proper; [done..|lia|done].
Qed.

Lemma window_asked from to layout k dates n :
  asked from (window_days from to (λ _, layout) k) = Ok dates → from / DAY <= n < from / DAY + k →
  date_of (DAY * n) ∈ dates.
Proof.
  unfold asked. destruct (if _ : bool then _ else _) as [previous|]; [|done]. intros [= <-] Hn.
  apply list_elem_of_fmap. exists (day_at from to layout n). split; [done|]. apply elem_of_app. right.
  apply list_elem_of_fmap. exists n. split; [done|]. apply elem_of_seqZ. lia.
Qed.

(** The service's directory in a day makes the day one of the current layout. *)
Definition day_covered (base : bytes) (service : option bytes) (version1 : Version1Services.t) (lay : Z → LayoutSet.t)
    (n : Z) : Prop :=
  ∀ s, few_services base keys (date_of (DAY * n)) → published base keys (date_of (DAY * n)) s →
    match service with
    | Some wanted => s = wanted → LayoutSet.version1 (lay n) = true
    | None => s ∈ Version1Services.services_on version1 (date_of (DAY * n))
    end.

(** The layouts resolved for a service: with a hint they are what it says,
    without one they cover the days the service has a directory in. *)
Lemma service_layouts_spec base from to s hint now resolved :
  0 <= from < 2 ^ 63 → resolve_service_layouts bucket base from to s hint now = Ok resolved →
  ∃ (lay : Z → LayoutSet.t) (k : Z) (tr : bool),
    ResolvedServiceLayouts.days resolved = window_days from to lay k ∧ consecutive from to k ∧
    (if tr then k = MAX_DISCOVERY_DAYS else to < DAY * (from / DAY + k)) ∧
    (ResolvedServiceLayouts.truncated resolved = false → tr = false) ∧
    (hint = None → ∀ version1 n, from / DAY <= n < from / DAY + k → day_covered base (Some s) version1 lay n).
Proof.
  intros Hf. unfold resolve_service_layouts.
  destruct (discovery_day_layouts from to LayoutSet.Historical) as [[days trd]|] eqn:Hd; [|done].
  destruct (discovery_days_cut _ _ _ _ _ Hf Hd) as (k & -> & Hk & Htd).
  destruct (encoded ← hint; decode_hint encoded bucket base s (window_days from to (λ _, LayoutSet.Historical) k) now)
    as [first|] eqn:Hh.
  - intros [= <-]. cbn [ResolvedServiceLayouts.days ResolvedServiceLayouts.truncated]. rewrite classify_window.
    eexists _, k, trd. split_and!; [reflexivity|done|done|done|by intros ->].
  - destruct (discover_version1_services bucket base from to) as [discovery|] eqn:Hv; [|done].
    destruct (discover_spec _ _ _ _ Hv) as (days & dates & Hd' & Ha & Hsc & Hon).
    destruct (discovery_days _ _ _ _ _ Hf Hd') as (k' & -> & Hk' & Htd').
    assert (k = k') as Hkk.
    { unfold discovery_day_layouts in Hd, Hd'.
      rewrite (day_layouts_layout from to LayoutSet.Historical), Hd in Hd'. injection Hd' as Hd' _.
      apply (f_equal length) in Hd'. unfold window_days in Hd'.
      rewrite !length_fmap, !length_seqZ in Hd'. destruct Hk, Hk'. lia. }
    intros [= <-]. cbn [ResolvedServiceLayouts.days ResolvedServiceLayouts.truncated]. rewrite classify_window.
    eexists _, k, trd. split_and!; [reflexivity|done|done|by intros [? _]%orb_false_iff|].
    intros _ version1 n Hn s' Hfew Hpub ->. cbn beta.
    assert (Version1Services.on discovery (date_of (DAY * n)) s = true) as Hons.
    { apply Hon; [|done..]. eapply window_asked; [exact Ha|]. rewrite <- Hkk. lia. }
    pose proof (Recorded.first_date_spec discovery s) as Hfirst.
    destruct (Version1Services.first_date_for discovery s) as [first|].
    + destruct Hfirst as [_ Hmin]. specialize (Hmin _ Hons). unfold str_le in Hmin. rewrite Hmin.
      by case_bool_decide.
    + by rewrite Hfirst in Hons.
Qed.

Lemma fan_out_spec base from to service hint now ps tr :
  0 <= from < 2 ^ 63 → from <= to → fan_out bucket base from to service hint now = Ok (ps, tr) →
  ∃ gran lay k version1 rest,
    consecutive from to k ∧
    all_prefixes base gran service (window_days from to lay k) version1 = ps ++ rest ∧
    (tr = false → rest = [] ∧ to < DAY * (from / DAY + k)) ∧
    (hint = None → ∀ n, from / DAY <= n < from / DAY + k → day_covered base service version1 lay n).
Proof.
  intros Hf Hft. unfold fan_out.
  set (gran := if wrapping_i64 (to - from) <? _ then Minute else Hour).
  destruct service as [s|]; cbn [all_prefixes].
  - destruct (resolve_service_layouts bucket base from to s hint now) as [resolved|] eqn:Hr; [|done].
    destruct (service_layouts_spec _ _ _ _ _ _ _ Hf Hr) as (lay & k & tr' & Hdays & Hk & Hend & Htr & Hcov).
    destruct (service_time_prefixes base _ s gran) as [ps' trp] eqn:Hs. intros [= <- <-].
    rewrite Hdays in Hs. apply service_prefixes_spec in Hs as (rest & Hl & Ht); [|apply window_proper; [apply Hf|done|done]].
    exists gran, lay, k, (Version1Services.mk ∅ [] false), rest. split; [done|]. split; [exact Hl|].
    split; [|by intros Hh; apply Hcov].
    intros Ho. apply orb_false_iff in Ho as [-> Ho]. split; [by apply Ht|]. by rewrite (Htr Ho) in Hend.
  - destruct (discover_version1_services bucket base from to) as [version1|] eqn:Hv; [|done].
    destruct (discover_spec _ _ _ _ Hv) as (days & dates & Hd' & Ha & Hsc & Hon).
    destruct (discovery_days _ _ _ _ _ Hf Hd') as (k & -> & Hk & Htd).
    destruct (unscoped_time_prefixes base gran version1) as [ps' trp] eqn:Hs. intros [= <- <-].
    apply unscoped_prefixes_spec in Hs as (rest & Hr & Ht); [|rewrite Hsc; apply window_proper; [apply Hf|done|done]].
    exists gran, (λ _, LayoutSet.Version1), k, version1, rest. split; [done|]. rewrite Hsc in Hr.
    split; [exact Hr|]. split; [intros Ho; apply orb_false_iff in Ho as [-> Ho]; split; [by apply Ht|by apply Htd]|].
    intros _ n Hn s Hfew Hpub. apply elem_services_on, Hon; [|done..]. by eapply window_asked.
Qed.

Lemma http_ok {A} (r : result A StorageError.t) x : http r = Ok x → r = Ok x.
Proof. destruct r; [by intros [= ->]|done]. Qed.

(** A listing that is not truncated has every key below its prefix. *)
Lemma listed prefix cap page key :
  list_objects bucket prefix cap = Ok page → ListPage.truncated page = false →
  key ∈ keys → starts_with prefix key = true → key ∈ ObjectInfo.key <$> ListPage.objects page.
Proof.
  intros Hl Ht Hin Hp. destruct (lists_objects (keys := keys) prefix cap page Hl) as (rest & Hu & Hr).
  rewrite (Hr Ht), app_nil_r in Hu. rewrite <- Hu. unfold under. by apply list_elem_of_filter.
Qed.

Lemma collect_ok_fmap {A X E} (f : A → result X E) l xs :
  collect_ok (f <$> l) = Ok xs → ∀ x, x ∈ l → ∃ y, y ∈ xs ∧ f x = Ok y.
Proof.
  intros H x Hx. apply collect_ok_spec in H. apply (list_elem_of_fmap_2 f) in Hx. rewrite H in Hx.
  apply list_elem_of_fmap in Hx as (y & Hy & Hin). by exists y.
Qed.

Lemma collect_ok_image {A X E} (f : A → result X E) l xs :
  collect_ok (arrival (f <$> l)) = Ok xs → ∀ x, x ∈ l → ∃ y, y ∈ xs ∧ f x = Ok y.
Proof.
  intros H x Hx. pose proof H as H'. apply collect_ok_spec in H'.
  apply (list_elem_of_fmap_2 f) in Hx. rewrite <- (arrival_perm (f <$> l)), H' in Hx.
  apply list_elem_of_fmap in Hx as (y & Hy & Hin). by exists y.
Qed.

Lemma merged pages objects key page :
  merge pages = (objects, false) → page ∈ pages →
  ListPage.truncated page = false ∧
  (key ∈ ObjectInfo.key <$> ListPage.objects page → key ∈ ObjectInfo.key <$> objects).
Proof.
  intros [= <- Ht] Hp. split.
  - destruct (ListPage.truncated page) eqn:E; [|done]. rewrite <- Ht. symmetry. apply existsb_exists.
    exists page. split; [by apply list_elem_of_In|done].
  - intros Hk. apply list_elem_of_fmap in Hk as (o & -> & Ho). apply list_elem_of_fmap_2, list_elem_of_bind.
    by exists page.
Qed.

Lemma retained_in service objects key :
  key ∈ ObjectInfo.key <$> objects → is_trace_segment key && wanted service key = true →
  key ∈ ObjectInfo.key <$> retained service objects.
Proof.
  intros Hk Hr. apply list_elem_of_fmap in Hk as (o & -> & Ho). apply list_elem_of_fmap_2.
  unfold retained. by apply list_elem_of_filter.
Qed.

(** What is below a prefix of the fan-out is in the answer. *)
Lemma browse_s3_lists base from to service hint now objects :
  browse_s3 bucket base from to service hint now = Ok (BrowseResponse.mk objects false) →
  ∃ ps, fan_out bucket base from to service hint now = Ok (ps, false) ∧
    ∀ p key, p ∈ ps → key ∈ keys → starts_with (ListingPrefix.key p) key = true →
      (ListingPrefix.granularity p = Hour →
       ∃ q, q ∈ refine (ListingPrefix.key p) ∧ starts_with q key = true) →
      is_trace_segment key && wanted service key = true → key ∈ ObjectInfo.key <$> objects.
Proof.
  unfold browse_s3. destruct (http _) as [[ps tr]|] eqn:Hf; [|done]. apply http_ok in Hf.
  destruct (collect_ok _) as [results|] eqn:Hc; [|done].
  destruct (merge (snd <$> _)) as [objects1 tr1] eqn:Hm1.
  destruct (collect_ok (arrival _)) as [pages|] eqn:Hc2; [|done].
  destruct (merge pages) as [objects2 tr2] eqn:Hm2. intros [= <- Ht].
  apply orb_false_iff in Ht as [Ht ->]. apply orb_false_iff in Ht as [-> ->].
  exists ps. split; [done|]. intros p key Hp Hin Hst Hhour Hret. apply retained_in; [|done].
  rewrite fmap_app, elem_of_app.
  destruct (collect_ok_fmap _ _ _ Hc p Hp) as ([p' page] & Hres & Hpage).
  destruct (http (list_objects bucket (ListingPrefix.key p) PER_PREFIX_CAP)) as [pg|] eqn:Hl; [|done].
  injection Hpage as <- ->. apply http_ok in Hl. destruct (overflowed (p, page)) eqn:Ho.
  - right. unfold overflowed in Ho. cbn [fst snd] in Ho. apply andb_true_iff in Ho as [Htr Hg].
    apply bool_decide_eq_true in Hg. destruct (Hhour Hg) as (q & Hq & Hqs).
    assert (q ∈ filter (λ r, overflowed r = true) results ≫= λ r, refine (ListingPrefix.key (fst r))) as Hqin.
    { apply list_elem_of_bind. exists (p, page). split; [done|]. apply list_elem_of_filter. split; [|done].
      unfold overflowed. cbn [fst snd]. by rewrite Htr, bool_decide_true. }
    destruct (collect_ok_image _ _ _ Hc2 q Hqin) as (pg & Hpg & Hlq). apply http_ok in Hlq.
    destruct (merged _ _ key _ Hm2 Hpg) as [Htq Hto]. by apply Hto, (listed _ _ _ _ Hlq).
  - left. assert (page ∈ snd <$> filter (λ r, overflowed r = false) results) as Hpin.
    { apply list_elem_of_fmap. exists (p, page). split; [done|]. by apply list_elem_of_filter. }
    destruct (merged _ _ key _ Hm1 Hpin) as [Htq Hto]. by apply Hto, (listed _ _ _ _ Hl).
Qed.
End covers.

(** ** A segment is found *)
Section found.
Context {Cal : Calendar} {B : StorageBackend} {Arr : Arrival} {J : HintJson} {bucket : bytes} {keys : list bytes}.
Context {L : Lists B bucket keys}.

Lemma own_service c index metadata :
  default_layout c → on_calendar (epoch_of metadata) → fits 32 index →
  starts_with (lit "s3://") (object_key c index metadata) = false → S3Config.service_name c <> [] →
  key_service (object_key c index metadata) = Some (S3Config.service_name c).
Proof.
  intros Hc Hm Hi Hs Hne. unfold key_service, dated_scope_fields, scope_fields_inner.
  assert (strip_s3 (object_key c index metadata) = object_key c index metadata) as Hk
    by (apply (strip_s3_full true [] _ ltac:(apply not_elem_of_nil) (λ _, Hs))).
  rewrite (parse_object_key c index metadata _ Hc Hm Hi Hk). unfold parsed_key.
  cbn [ParsedKey.layout ParsedKey.time ParsedKey.date ParsedKey.service ParsedKey.instance].
  rewrite (bool_decide_false (Version1 = Unknown)) by discriminate. cbn [negb mbind option_bind].
  unfold nonempty. by rewrite bool_decide_false.
Qed.

(** A service's times of a day of the window are part of the fan-out. *)
Lemma day_in_all base gran service s days version1 day p :
  day ∈ days → p ∈ version1_times base gran day s →
  match service with
  | Some wanted => s = wanted ∧ LayoutSet.version1 (DayLayout.layout day) = true
  | None => s ∈ Version1Services.services_on version1 (DayLayout.date day)
  end →
  p ∈ all_prefixes base gran service days version1.
Proof.
  intros Hd Hp Hs. unfold all_prefixes. destruct service as [wanted|].
  - destruct Hs as [-> Hl]. apply list_elem_of_bind. exists day. split; [|done].
    unfold service_more. rewrite Hl. apply elem_of_app. by right.
  - apply list_elem_of_bind. exists day. split; [|done]. unfold unscoped_more. apply elem_of_app. right.
    apply list_elem_of_bind. by exists s.
Qed.

End found.

(** ** No object is listed twice *)

(** No key is below both prefixes. *)
Definition apart (p q : bytes) : Prop := ∀ u v, p ++ u <> q ++ v.

Fixpoint all_apart (l : list bytes) : Prop :=
  match l with [] => True | p :: l => Forall (apart p) l ∧ all_apart l end.

#[global] Instance apart_symmetric : Symmetric apart.
Proof. intros p q H u v E. by apply (H v u). Qed.

Lemma apart_app p q x y : apart p q → apart (p ++ x) (q ++ y).
Proof. intros H u v. rewrite <- !app_assoc. apply H. Qed.

Lemma all_apart_app l1 l2 :
  all_apart (l1 ++ l2) ↔ all_apart l1 ∧ all_apart l2 ∧ ∀ p q, p ∈ l1 → q ∈ l2 → apart p q.
Proof.
  induction l1 as [|p l1 IH]; cbn [app all_apart].
  - split; [intros H; split; [done|]; split; [done|]; by intros p q Hp%not_elem_of_nil|by intros (_ & H & _)].
  - rewrite list.Forall_app, IH. setoid_rewrite elem_of_cons. rewrite (list.Forall_forall (apart p) l2). naive_solver.
Qed.

Lemma all_apart_perm l1 l2 : l1 ≡ₚ l2 → all_apart l1 → all_apart l2.
Proof.
  induction 1 as [|p l1 l2 Hp IH|p q l|l1 l2 l3 _ IH1 _ IH2]; cbn [all_apart]; [done| | |by auto].
  - intros [H1 H2]. split; [by rewrite <- Hp|by apply IH].
  - rewrite !list.Forall_cons. intros ([H1 H2] & H3 & H4). by split_and!; [symmetry|..].
Qed.

Lemma fmap_bind_list {A X Y} (f : X → Y) (g : A → list X) l : f <$> (l ≫= g) = l ≫= λ x, f <$> g x.
Proof. induction l as [|x l IH]; [done|]. cbn. rewrite fmap_app. f_equal. exact IH. Qed.

Lemma all_apart_bind {A} (f : A → list bytes) l :
  (∀ x, x ∈ l → all_apart (f x)) → NoDup l →
  (∀ x y p q, x ∈ l → y ∈ l → x <> y → p ∈ f x → q ∈ f y → apart p q) → all_apart (l ≫= f).
Proof.
  induction l as [|x l IH]; intros Ha Hnd Hx; [done|]. apply list.NoDup_cons in Hnd as [Hnx Hnd].
  change ((x :: l) ≫= f) with (f x ++ (l ≫= f)). apply all_apart_app. split_and!.
  - apply Ha. by left.
  - apply IH; [intros y Hy; apply Ha; by right|done|]. intros y z p q Hy Hz. apply Hx; by right.
  - intros p q Hp Hq. apply list_elem_of_bind in Hq as (y & Hq & Hy).
    apply (Hx x y); [by left|by right|by intros ->|done|done].
Qed.

Lemma all_apart_fmap {A} (f : A → bytes) l :
  NoDup l → (∀ x y, x ∈ l → y ∈ l → x <> y → apart (f x) (f y)) → all_apart (f <$> l).
Proof.
  induction l as [|x l IH]; intros Hnd Hx; [done|]. apply list.NoDup_cons in Hnd as [Hnx Hnd].
  cbn [fmap list_fmap all_apart]. split.
  - apply list.Forall_forall. intros q Hq. apply list_elem_of_fmap in Hq as (y & -> & Hy).
    apply Hx; [by left|by right|by intros ->].
  - apply IH; [done|]. intros y z Hy Hz. apply Hx; by right.
Qed.

Lemma refine_apart p : all_apart (refine p).
Proof.
  unfold refine. apply all_apart_fmap; [apply NoDup_seqZ|]. intros x y Hx Hy Hne u v E.
  apply elem_of_seqZ in Hx, Hy. rewrite <- !app_assoc in E. apply app_inv_head in E.
  rewrite !put_dec_digit in E by lia. injection E as E _. apply (f_equal digit) in E.
  rewrite !digit_put in E by lia. congruence.
Qed.

(** Listings of prefixes that are apart have no object in common. *)
Lemma apart_listings {A} (pre : A → bytes) (names : A → list bytes) l :
  all_apart (pre <$> l) → (∀ x, x ∈ l → NoDup (names x) ∧ ∀ k, k ∈ names x → starts_with (pre x) k = true) →
  NoDup (l ≫= names).
Proof.
  induction l as [|x l IH]; intros Ha Hn; [constructor|]. cbn [fmap list_fmap all_apart] in Ha. destruct Ha as [Hx Ha].
  change ((x :: l) ≫= names) with (names x ++ (l ≫= names)). apply list.NoDup_app. split_and!.
  - apply Hn. by left.
  - intros k Hk Hk'. apply list_elem_of_bind in Hk' as (y & Hky & Hy).
    destruct (Hn x ltac:(by left)) as [_ Hkx]. destruct (Hn y ltac:(by right)) as [_ Hky'].
    specialize (Hkx k Hk). specialize (Hky' k Hky). apply starts_with_true in Hkx as [u ->].
    apply starts_with_true in Hky' as [v E]. rewrite list.Forall_forall in Hx.
    by apply (Hx (pre y) ltac:(by apply list_elem_of_fmap_2) u v).
  - apply IH; [done|]. intros y Hy. apply Hn. by right.
Qed.

Section apart_prefixes.
Context {Cal : Calendar}.

Lemma historical_apart base tail1 tail2 d1 d2 t1 t2 :
  SLASH ∉ d1 → SLASH ∉ d2 → (d1 <> d2 ∨ length t1 = length t2 ∧ t1 <> t2) →
  apart (historical_prefix base tail1 d1 t1) (historical_prefix base tail2 d2 t2).
Proof.
  intros H1 H2 Hne u v E. unfold historical_prefix in E. rewrite <- !join_prefix_app in E.
  apply join_prefix_inj in E. rewrite <- !app_assoc in E. change (lit "/" ++ ?x) with (SLASH :: x) in E.
  apply at_slash in E as [-> E]; [|done..]. destruct Hne as [Hne|[Hl Hne]]; [done|].
  by apply app_inj_1 in E as [-> _].
Qed.

Lemma version1_apart base e1 e2 d1 d2 t1 t2 :
  SLASH ∉ d1 → SLASH ∉ d2 → SLASH ∉ e1 → SLASH ∉ e2 →
  (d1 <> d2 ∨ e1 <> e2 ∨ length t1 = length t2 ∧ t1 <> t2) →
  apart (version1_prefix base e1 d1 t1) (version1_prefix base e2 d2 t2).
Proof.
  intros H1 H2 H3 H4 Hne u v E. unfold version1_prefix in E. rewrite <- !join_prefix_app in E.
  apply join_prefix_inj in E. rewrite <- !app_assoc in E. apply app_inv_head in E.
  change (lit "/service=" ++ ?x) with (SLASH :: lit "service=" ++ x) in E.
  apply at_slash in E as [-> E]; [|done..]. apply app_inv_head in E.
  change (lit "/time=" ++ ?x) with (SLASH :: lit "time=" ++ x) in E.
  apply at_slash in E as [-> E]; [|done..]. apply app_inv_head in E.
  destruct Hne as [|[|[Hl Hne]]]; [done..|]. by apply app_inj_1 in E as [-> _].
Qed.

Lemma layouts_apart base tail e d1 d2 t1 t2 :
  plain d1 → d1 <> [] → apart (historical_prefix base tail d1 t1) (version1_prefix base e d2 t2).
Proof.
  intros Hp Hne u v E. unfold historical_prefix, version1_prefix in E. rewrite <- !join_prefix_app in E.
  apply join_prefix_inj in E. destruct d1 as [|x d1]; [done|]. apply (f_equal head) in E.
  change (head _) with (Some x) in E at 1. change (head _) with (Some (z2b 118)) in E.
  injection E as ->. apply list.Forall_cons in Hp as [[[n H]|H] _]; by vm_compute in H.
Qed.

(** A prefix of a day. *)
Definition day_word (base d p : bytes) : Prop :=
  (∃ tail t, p = historical_prefix base tail d t) ∨
  (∃ e t, SLASH ∉ e ∧ p = version1_prefix base e d t).

Lemma day_words_apart base d1 d2 p q :
  plain d1 → plain d2 → d1 <> [] → d2 <> [] → d1 <> d2 → day_word base d1 p → day_word base d2 q → apart p q.
Proof.
  intros P1 P2 N1 N2 Hne. destruct (plain_facts _ P1) as (_ & _ & S1). destruct (plain_facts _ P2) as (_ & _ & S2).
  intros [(tail & t & ->)|(e & t & He & ->)] [(tail' & t' & ->)|(e' & t' & He' & ->)].
  - apply historical_apart; [exact S1|exact S2|by left].
  - by apply layouts_apart.
  - symmetry. by apply layouts_apart.
  - apply version1_apart; [exact S1|exact S2|exact He|exact He'|by left].
Qed.

(** The prefixes of a day's times. *)
Section one_day.
Context (from to n : Z) (layout : LayoutSet.t).
Hypothesis Hfrom : 0 <= from.
Hypothesis Hday : on_calendar (DAY * n).
Hypothesis Hfirst : from / DAY <= n.

Let day := day_at from to layout n.

Lemma time_in_day gran m :
  m ∈ seqZ (DayLayout.from day / step_of gran)
        (DayLayout.to day / step_of gran - DayLayout.from day / step_of gran + 1) →
  on_calendar (step_of gran * m) ∧ step_of gran * m / DAY = n ∧ date_of (step_of gran * m) = date_of (DAY * n).
Proof.
  intros Hm. apply elem_of_seqZ in Hm. unfold day, day_at, day_from in Hm. cbn [DayLayout.from DayLayout.to] in Hm.
  assert (DAY * n <= step_of gran * m <= DAY * n + 86399) as Hb.
  { assert (step_of gran * m <= Z.min to (Z.min (DAY * n + 86399) I64_MAX)) as Hu.
    { transitivity (step_of gran * (Z.min to (Z.min (DAY * n + 86399) I64_MAX) / step_of gran)).
      - pose proof (step_of_pos gran). apply Z.mul_le_mono_nonneg_l; lia.
      - pose proof (step_of_pos gran). apply Z.mul_div_le. lia. }
    assert (DAY * n / step_of gran <= m) as Hl.
    { transitivity (Z.max from (DAY * n) / step_of gran); [|lia]. pose proof (step_of_pos gran).
      apply Z.div_le_mono; lia. }
    split; [|lia]. clear -Hl. unfold DAY in *. destruct gran; cbn [step_of] in *; divisions. }
  assert (on_calendar (step_of gran * m) ∧ step_of gran * m / DAY = n) as [Hc Hd].
  { unfold on_calendar, TIMESTAMP_MAX, DAY in *. clear -Hb Hday. divisions. }
  split; [done|]. split; [done|]. apply date_of_day; [done|done|].
  by rewrite Hd, (Z.mul_comm DAY), Z.div_mul by done.
Qed.

Lemma times_words gran build p :
  p ∈ ListingPrefix.key <$> times gran build (DayLayout.from day) (DayLayout.to day) →
  ∃ t, p = build (date_of (DAY * n)) t.
Proof.
  intros Hp. apply list_elem_of_fmap in Hp as (lp & -> & Hp). apply list_elem_of_fmap in Hp as (m & -> & Hm).
  destruct (time_in_day gran m Hm) as (_ & _ & Hd). cbn [ListingPrefix.key]. rewrite Hd. by eexists.
Qed.

Lemma times_apart gran build :
  (∀ t1 t2, length t1 = length t2 → t1 <> t2 → apart (build (date_of (DAY * n)) t1) (build (date_of (DAY * n)) t2)) →
  all_apart (ListingPrefix.key <$> times gran build (DayLayout.from day) (DayLayout.to day)).
Proof.
  intros Hb. unfold times. rewrite <- list_fmap_compose. apply all_apart_fmap; [apply NoDup_seqZ|].
  intros m m' Hm Hm' Hne. destruct (time_in_day gran m Hm) as (Hc & Hn & Hd).
  destruct (time_in_day gran m' Hm') as (Hc' & Hn' & Hd'). cbn. rewrite Hd, Hd'. apply Hb.
  - pose proof (time_of_length gran _ Hc) as H1. pose proof (time_of_length gran _ Hc') as H2.
    by rewrite H1, H2.
  - intros E. apply time_of_inj in E; [|exact Hc|exact Hc'|by rewrite Hn, Hn'].
    pose proof (step_of_pos gran). rewrite !(Z.mul_comm (step_of gran)), !Z.div_mul in E by lia. exact (Hne E).
Qed.

Lemma date_word : plain (date_of (DAY * n)) ∧ date_of (DAY * n) <> [] ∧ SLASH ∉ date_of (DAY * n).
Proof.
  pose proof (date_of_plain _ Hday) as Hp. split; [done|]. split; [|by apply plain_facts].
  destruct (date_text_ok (date_time (DAY * n)) (four_digits_on _ Hday)) as [Hd _]. intros E.
  unfold date_of in E. rewrite E in Hd. discriminate Hd.
Qed.

Lemma historical_day base tail gran :
  all_apart (ListingPrefix.key <$> historical_times base tail gran day) ∧
  ∀ p, p ∈ ListingPrefix.key <$> historical_times base tail gran day →
    ∃ t, p = historical_prefix base tail (date_of (DAY * n)) t.
Proof.
  destruct date_word as (_ & _ & Hs). split; [|intros p; apply times_words].
  apply times_apart. intros t1 t2 Hl Hne. apply historical_apart; [exact Hs|exact Hs|by right].
Qed.

Lemma version1_day base gran s :
  all_apart (ListingPrefix.key <$> version1_times base gran day s) ∧
  ∀ p, p ∈ ListingPrefix.key <$> version1_times base gran day s →
    ∃ t, p = version1_prefix base (hive_escape s) (date_of (DAY * n)) t.
Proof.
  destruct date_word as (_ & _ & Hs). split; [|intros p; apply times_words].
  apply times_apart. intros t1 t2 Hl Hne.
  apply version1_apart; [exact Hs|exact Hs|apply hive_escape_plain|apply hive_escape_plain|by right; right].
Qed.

Lemma services_on_nodup version1 date : NoDup (Version1Services.services_on version1 date).
Proof.
  unfold Version1Services.services_on, Version1Services.recorded, in_order. apply list.NoDup_filter.
  rewrite merge_sort_Permutation. apply NoDup_elements.
Qed.

Lemma service_more_apart base s gran :
  all_apart (ListingPrefix.key <$> service_more base s gran day) ∧
  ∀ p, p ∈ ListingPrefix.key <$> service_more base s gran day → day_word base (date_of (DAY * n)) p.
Proof.
  destruct date_word as (Hp & Hne & _). unfold service_more. rewrite fmap_app.
  destruct (historical_day base (lit "/" ++ s ++ lit "/") Minute) as [Ha Hw].
  destruct (version1_day base gran s) as [Ha' Hw']. split.
  - apply all_apart_app. split; [by destruct (LayoutSet.historical _)|].
    split; [by destruct (LayoutSet.version1 _)|]. intros p q H1 H2.
    destruct (LayoutSet.historical _); [|by apply not_elem_of_nil in H1].
    destruct (LayoutSet.version1 _); [|by apply not_elem_of_nil in H2].
    destruct (Hw p H1) as [t ->]. destruct (Hw' q H2) as [t' ->]. by apply layouts_apart.
  - intros p. rewrite elem_of_app. intros [H|H].
    + destruct (LayoutSet.historical _); [|by apply not_elem_of_nil in H]. destruct (Hw p H) as [t ->]. left. by eexists _, t.
    + destruct (LayoutSet.version1 _); [|by apply not_elem_of_nil in H]. destruct (Hw' p H) as [t ->]. right.
      eexists _, t. split; [|done]. apply hive_escape_plain.
Qed.

Lemma unscoped_more_apart base gran version1 :
  all_apart (ListingPrefix.key <$> unscoped_more base gran version1 day) ∧
  ∀ p, p ∈ ListingPrefix.key <$> unscoped_more base gran version1 day → day_word base (date_of (DAY * n)) p.
Proof.
  destruct date_word as (Hp & Hne & Hsl). unfold unscoped_more. rewrite fmap_app, fmap_bind_list.
  destruct (historical_day base [] gran) as [Ha Hw].
  assert (∀ p, p ∈ Version1Services.services_on version1 (DayLayout.date day) ≫=
    (λ s, ListingPrefix.key <$> version1_times base gran day s) →
    ∃ s t, p = version1_prefix base (hive_escape s) (date_of (DAY * n)) t) as Hall.
  { intros p H. apply list_elem_of_bind in H as (s & H & _). destruct (version1_day base gran s) as [_ Hv].
    destruct (Hv p H) as [t ->]. by exists s, t. }
  split.
  - apply all_apart_app. split; [done|]. split.
    + apply all_apart_bind; [intros s _; apply version1_day|apply services_on_nodup|].
      intros s s' p q _ _ Hss H1 H2. apply version1_day in H1 as [t ->]. apply version1_day in H2 as [t' ->].
      apply version1_apart; [exact Hsl|exact Hsl|apply hive_escape_plain|apply hive_escape_plain|].
      right. left. intros E. by apply hive_escape_inj in E.
    + intros p q H1 H2. destruct (Hw p H1) as [t ->]. destruct (Hall q H2) as (s & t' & ->). by apply layouts_apart.
  - intros p. rewrite elem_of_app. intros [H|H].
    + destruct (Hw p H) as [t ->]. left. by eexists _, t.
    + destruct (Hall p H) as (s & t & ->). right. eexists _, t. split; [|done]. apply hive_escape_plain.
Qed.
End one_day.
End apart_prefixes.

Section once.
Context {Cal : Calendar} {B : StorageBackend} {Arr : Arrival} {J : HintJson} {bucket : bytes} {keys : list bytes}.
Context {L : Lists B bucket keys}.

Lemma all_prefixes_apart base gran service from to lay k version1 :
  0 <= from → consecutive from to k →
  all_apart (ListingPrefix.key <$> all_prefixes base gran service (window_days from to lay k) version1).
Proof.
  intros Hf [Hk Hcon].
  assert (∀ more : DayLayout.t → list ListingPrefix.t,
    (∀ n, from / DAY <= n < from / DAY + k →
      all_apart (ListingPrefix.key <$> more (day_at from to (lay n) n)) ∧
      ∀ p, p ∈ ListingPrefix.key <$> more (day_at from to (lay n) n) → day_word base (date_of (DAY * n)) p) →
    all_apart (ListingPrefix.key <$> (window_days from to lay k ≫= more))) as Hgen.
  { intros more Hmore. unfold window_days. rewrite list_fmap_bind, fmap_bind_list. apply all_apart_bind.
    - intros n Hn. apply elem_of_seqZ in Hn. by apply Hmore.
    - apply NoDup_seqZ.
    - intros n m p q Hn Hm Hne Hp Hq. apply elem_of_seqZ in Hn, Hm.
      destruct (Hcon n Hn) as [Hcn _]. destruct (Hcon m Hm) as [Hcm _].
      destruct (date_word n Hcn) as (Pn & Nn & _). destruct (date_word m Hcm) as (Pm & Nm & _).
      apply (day_words_apart base _ _ p q Pn Pm Nn Nm); [|by apply Hmore|by apply Hmore].
      intros E. apply (date_of_inj _ _ Hcn Hcm) in E. apply Hne.
      rewrite !(Z.mul_comm DAY), !Z.div_mul in E by done. exact E. }
  unfold all_prefixes. destruct service as [s|]; apply Hgen; intros n Hn; destruct (Hcon n Hn) as [Hcn Hto].
  - by apply service_more_apart.
  - by apply unscoped_more_apart.
Qed.

Lemma listed_names prefix cap page :
  NoDup keys → list_objects bucket prefix cap = Ok page →
  NoDup (ObjectInfo.key <$> ListPage.objects page) ∧
  ∀ key, key ∈ ObjectInfo.key <$> ListPage.objects page → starts_with prefix key = true ∧ key ∈ keys.
Proof.
  intros Hnd Hl. destruct (lists_objects (keys := keys) prefix cap page Hl) as (rest & Hu & _).
  assert (NoDup (under prefix keys)) as Hn by (by apply list.NoDup_filter).
  rewrite Hu in Hn. apply list.NoDup_app in Hn as (Hn & _ & _). split; [done|].
  intros key Hk. assert (key ∈ under prefix keys) as Hin by (rewrite Hu, elem_of_app; by left).
  by apply list_elem_of_filter in Hin.
Qed.

(** The prefixes listed for an answer, each with its page. *)
Definition answers (l : list (bytes * ListPage.t)) : Prop :=
  ∀ q page, (q, page) ∈ l → list_objects bucket q PER_PREFIX_CAP = Ok page.

Lemma answers_names l :
  NoDup keys → answers l → all_apart (fst <$> l) →
  NoDup (ObjectInfo.key <$> ((snd <$> l) ≫= ListPage.objects)) ∧
  ∀ key, key ∈ ObjectInfo.key <$> ((snd <$> l) ≫= ListPage.objects) → key ∈ keys.
Proof.
  intros Hnd Ha Hap. rewrite list_fmap_bind, fmap_bind_list. split.
  - apply (apart_listings fst); [done|]. intros [q page] Hin. cbn [fst snd].
    destruct (listed_names q _ page Hnd (Ha q page Hin)) as [Hn Hk]. split; [done|].
    intros key Hkey. by apply Hk.
  - intros key Hkey. apply list_elem_of_bind in Hkey as ([q page] & Hkey & Hin).
    by apply (listed_names q _ page Hnd (Ha q page Hin)).
Qed.

Lemma pair_listed {A} (f : A → result ListPage.t Z) (l : list A) (rs : list (A * ListPage.t)) :
  ((λ x, match f x with Ok page => Ok (x, page) | Err e => Err e end) <$> l) = (Ok <$> rs) →
  fst <$> rs = l ∧ ∀ r, r ∈ rs → f (fst r) = Ok (snd r).
Proof.
  revert rs. induction l as [|x l IH]; intros [|[y page] rs] E; try discriminate E.
  - split; [done|]. by intros r Hr%not_elem_of_nil.
  - cbn [fmap list_fmap] in E. injection E as Ex E. destruct (f x) as [pg|] eqn:Hx; [|discriminate Ex].
    injection Ex as <- <-. destruct (IH rs E) as [<- Hr]. split; [done|].
    intros r [->|Hin]%elem_of_cons; [done|]. by apply Hr.
Qed.

Lemma ok_perm {X} (l1 l2 : list X) : (Ok (E := Z) <$> l1) ≡ₚ (Ok <$> l2) → l1 ≡ₚ l2.
Proof.
  intros H. apply (omap_Permutation (λ r : result X Z, match r with Ok x => Some x | Err _ => None end)) in H.
  assert (∀ l : list X, omap (λ r : result X Z, match r with Ok x => Some x | Err _ => None end) (Ok <$> l) = l) as E.
  { induction l as [|x l IH]; [done|]. cbn. by f_equal. }
  by rewrite !E in H.
Qed.

Lemma arrived_listed (f : bytes → result ListPage.t Z) (l : list bytes) (pages : list ListPage.t) :
  arrival (f <$> l) = (Ok <$> pages) →
  ∃ pages0, pages0 ≡ₚ pages ∧ (f <$> l) = (Ok <$> pages0).
Proof.
  intros E. pose proof (arrival_perm (f <$> l)) as Hp. rewrite E in Hp.
  assert (∃ pages0 : list ListPage.t, (f <$> l) = (Ok <$> pages0)) as [pages0 E0].
  { assert (∀ x, x ∈ l → ∃ page, f x = Ok page) as Hx.
    { intros x Hx. apply (list_elem_of_fmap_2 f) in Hx. rewrite <- Hp in Hx.
      apply list_elem_of_fmap in Hx as (page & -> & _). by exists page. }
    clear -Hx. induction l as [|x l IH]; [by exists []|].
    destruct (Hx x ltac:(by left)) as [page Hpage]. destruct IH as [pages IH]; [intros y Hy; apply Hx; by right|].
    exists (page :: pages). cbn. by rewrite Hpage, IH. }
  exists pages0. split; [|done]. rewrite E0 in Hp. symmetry. by apply ok_perm.
Qed.

Lemma zip_listed (f : bytes → result ListPage.t Z) (l : list bytes) (pages : list ListPage.t) :
  (f <$> l) = (Ok <$> pages) → fst <$> zip l pages = l ∧ snd <$> zip l pages = pages ∧
  ∀ q page, (q, page) ∈ zip l pages → f q = Ok page.
Proof.
  revert pages. induction l as [|x l IH]; intros [|page pages] E; try discriminate E.
  - split_and!; [done|done|]. by intros q pg Hq%not_elem_of_nil.
  - cbn [fmap list_fmap] in E. injection E as Ex E. destruct (IH pages E) as (E1 & E2 & Hz).
    cbn [zip fmap list_fmap]. split; [by f_equal|]. split; [by f_equal|].
    intros q pg [Hq|Hin]%elem_of_cons; [by injection Hq as -> ->|]. by apply Hz.
Qed.

Lemma retained_names service objects :
  NoDup (ObjectInfo.key <$> objects) → NoDup (ObjectInfo.key <$> retained service objects).
Proof.
  unfold retained. induction objects as [|o objects IH]; [done|]. cbn [fmap list_fmap].
  intros [Hn Hnd]%list.NoDup_cons. rewrite filter_cons. destruct (decide _); [|by apply IH].
  cbn [fmap list_fmap]. apply list.NoDup_cons. split; [|by apply IH]. intros H. apply Hn.
  apply list_elem_of_fmap in H as (x & E & Hx). apply list_elem_of_filter in Hx as [_ Hx].
  rewrite E. by apply list_elem_of_fmap_2.
Qed.

Lemma filter_split {A} (b : A → bool) l :
  l ≡ₚ filter (λ x, b x = false) l ++ filter (λ x, b x = true) l.
Proof.
  induction l as [|x l IH]; [done|]. rewrite !filter_cons. destruct (b x) eqn:E.
  - rewrite decide_False by done. rewrite decide_True by done. rewrite <- Permutation_middle. by constructor.
  - rewrite decide_True by done. rewrite decide_False by done. cbn. by constructor.
Qed.

(** Hours listed again by ten minutes keep the prefixes apart. *)
Lemma refined_apart (ps again : list bytes) :
  all_apart (ps ++ again) → all_apart (ps ++ (again ≫= refine)).
Proof.
  intros (H1 & H2 & H3)%all_apart_app. apply all_apart_app.
  assert (∀ p q, q ∈ refine p → ∃ x, q = p ++ x) as Hr.
  { intros p q Hq. apply list_elem_of_fmap in Hq as (d & -> & _). by eexists. }
  split; [done|]. split.
  - clear H1 H3. induction again as [|p again IH]; [done|]. cbn [all_apart] in H2. destruct H2 as [Hp H2].
    change ((p :: again) ≫= refine) with (refine p ++ (again ≫= refine)). apply all_apart_app.
    split; [apply refine_apart|]. split; [by apply IH|]. intros q r Hq Hr'.
    apply list_elem_of_bind in Hr' as (p' & Hr' & Hp'). destruct (Hr p q Hq) as [x ->].
    destruct (Hr p' r Hr') as [y ->]. apply apart_app. rewrite list.Forall_forall in Hp. by apply Hp.
  - intros p q Hp Hq. apply list_elem_of_bind in Hq as (p' & Hq & Hp'). destruct (Hr p' q Hq) as [x ->].
    rewrite <- (app_nil_r p). apply apart_app. by apply H3.
Qed.

(** Browsing lists every object once, and only what it was asked for:
    whatever the hint, the order of arrival and the truncation, the keys of an
    answer are distinct objects of the bucket, trace segments, and of the
    service asked for; the prefixes of a request never overlap. *)
Theorem browse_lists_once base from to service hint now objects truncated :
  NoDup keys → 0 <= from < 2 ^ 63 → from <= to →
  browse_s3 bucket base from to service hint now = Ok (BrowseResponse.mk objects truncated) →
  NoDup (ObjectInfo.key <$> objects) ∧
  ∀ key, key ∈ ObjectInfo.key <$> objects →
    key ∈ keys ∧ is_trace_segment key = true ∧ (∀ s, service = Some s → key_service key = Some s).
Proof.
  intros Hnd Hf Hft. unfold browse_s3. destruct (http (fan_out _ _ _ _ _ _ _)) as [[ps tr]|] eqn:Hfan; [|done].
  apply http_ok in Hfan. destruct (collect_ok _) as [results|] eqn:Hc; [|done].
  destruct (merge (snd <$> _)) as [objects1 tr1] eqn:Hm1.
  destruct (collect_ok (arrival _)) as [pages|] eqn:Hc2; [|done].
  destruct (merge pages) as [objects2 tr2] eqn:Hm2. intros [= <- _].
  destruct (fan_out_spec (keys := keys) _ _ _ _ _ _ _ _ Hf Hft Hfan)
    as (gran & lay & k & version1 & rest & Hcon & Hall & _ & _).
  pose proof (all_prefixes_apart base gran service from to lay k version1 ltac:(apply Hf) Hcon) as Hap.
  rewrite Hall, fmap_app in Hap. apply all_apart_app in Hap as (Hap & _ & _).
  apply collect_ok_spec in Hc, Hc2. injection Hm1 as <- _. injection Hm2 as <- _.
  apply (pair_listed (λ p, http (list_objects bucket (ListingPrefix.key p) PER_PREFIX_CAP))) in Hc as [<- Hres].
  apply arrived_listed in Hc2 as (pages0 & Hperm & Hc2).
  set (kept := filter (λ r, overflowed r = false) results) in *.
  set (again := filter (λ r, overflowed r = true) results) in *.
  set (refined := again ≫= λ r, refine (ListingPrefix.key (fst r))) in *.
  destruct (zip_listed _ _ _ Hc2) as (Hz1 & Hz2 & Hz).
  set (l := ((λ r : ListingPrefix.t * ListPage.t, (ListingPrefix.key (fst r), snd r)) <$> kept) ++ zip refined pages0).
  assert (answers l) as Hl.
  { intros q page. unfold l. rewrite elem_of_app. intros [Hin|Hin].
    - apply list_elem_of_fmap in Hin as (r & [= -> ->] & Hin). apply http_ok, Hres.
      unfold kept in Hin. apply list_elem_of_filter in Hin as [_ Hin]. exact Hin.
    - by apply http_ok, Hz. }
  assert (all_apart (fst <$> l)) as Hla.
  { unfold l. rewrite fmap_app, <- list_fmap_compose, Hz1.
    assert (refined = ((λ r : ListingPrefix.t * ListPage.t, ListingPrefix.key (fst r)) <$> again) ≫= refine) as ->
      by (by rewrite list_fmap_bind).
    apply refined_apart. rewrite <- fmap_app. eapply all_apart_perm; [|exact Hap].
    rewrite <- list_fmap_compose. apply fmap_Permutation. apply filter_split. }
  destruct (answers_names l Hnd Hl Hla) as [Hn Hk].
  assert (((snd <$> l) ≫= ListPage.objects) ≡ₚ ((snd <$> kept) ≫= ListPage.objects) ++ (pages ≫= ListPage.objects)) as Hobj.
  { unfold l. rewrite fmap_app, Hz2, <- list_fmap_compose, bind_app. apply Permutation_app; [done|]. by rewrite Hperm. }
  rewrite Hobj in Hn. split; [by apply retained_names|]. intros key Hkey.
  apply list_elem_of_fmap in Hkey as (o & -> & Ho). unfold retained in Ho.
  apply list_elem_of_filter in Ho as [Hw Ho]. apply andb_true_iff in Hw as [Hw1 Hw2].
  split; [apply Hk; rewrite Hobj; by apply list_elem_of_fmap_2|]. split; [done|]. intros s ->. unfold wanted in Hw2.
  by apply bool_decide_eq_true in Hw2.
Qed.
End once.
