(* ===== verification/LayoutHints.v ===== *)
(** * Hints about layouts (dial9-viewer/src/source_layout.rs)

    An answer of [list_services] carries a hint the client may echo; with a hint
    that is accepted the browser spares the discovery.  A hint of any window
    that is accepted for another decides as discovery there would have. *)

From Stdlib Require Import ZArith Lia.
From stdpp Require Import base list gmap sets strings option.
From coqutil Require Import Byte.
From S2P Require Import Prelude.
From S2P Require Import Text.
From S2P Require Import Paths.
From S2P Require Import ObjectKeys.
From S2P Require Import Storage.
From S2P Require Import SourceLayout.
From S2P Require Import Browse.

Section hints.
Context {Cal : Calendar}.

Lemma window_length from to lay k : 0 <= k → blen (window_days from to lay k) = k.
Proof. intros Hk. unfold blen, window_days. rewrite length_fmap, length_seqZ. lia. Qed.

Lemma previous_spec from layout previous :
  0 <= from < 2 ^ 63 → previous_day_layout from layout = Ok previous →
  ∃ day, previous = Some day ∧ DayLayout.date day = date_of (DAY * (from / DAY - 1)).
Proof.
  intros Hf. unfold previous_day_layout.
  rewrite !bool_decide_true by (unfold fits_signed, DAY; clear -Hf; divisions). cbn [andb].
  destruct (day_layouts_with_limit _ _ _ _) as [[days tr]|] eqn:Hd; [|done]. intros [= <-].
  assert (- DAY <= from / DAY * DAY - 1 < 2 ^ 63) as Hr by (unfold DAY; clear -Hf; divisions).
  destruct (day_layouts_spec _ _ _ 1 _ _ Hr ltac:(done) Hd) as (k & Hk & -> & Hm & Ht).
  assert ((from / DAY * DAY - 1) / DAY = from / DAY - 1) as Hn by (unfold DAY; clear; divisions). rewrite Hn in *.
  assert (k = 1) as ->.
  { destruct tr.
    - unfold blen in Ht. rewrite length_fmap, length_seqZ in Ht. lia.
    - assert (k < 2). { destruct (decide (k < 2)); [done|]. destruct (Hm (from / DAY)) as [_ Hle]; [lia|].
        unfold DAY in *. lia. }
      unfold DAY in *. lia. }
  eexists. split; [reflexivity|]. done.
Qed.

(** The dates discovery asks for: those of the window and the day before. *)
Definition asked_dates (from k : Z) : list bytes := (λ n, date_of (DAY * n)) <$> seqZ (from / DAY - 1) (k + 1).

Lemma asked_spec from to layout k dates :
  0 <= from < 2 ^ 63 → 0 <= k < MAX_DISCOVERY_DAYS →
  asked from (window_days from to (λ _, layout) k) = Ok dates → dates = asked_dates from k.
Proof.
  intros Hf Hk. unfold asked. rewrite window_length, (proj2 (Z.ltb_lt _ _)) by lia.
  destruct (previous_day_layout from LayoutSet.Version1) as [previous|] eqn:Hp; [|done].
  destruct (previous_spec _ _ _ Hf Hp) as (day & -> & Hday). intros [= <-].
  unfold asked_dates. rewrite (seqZ_cons (from / DAY - 1)) by lia. cbn [option_list app fmap list_fmap].
  rewrite Hday. f_equal. unfold window_days. rewrite <- list_fmap_compose.
  replace (Z.succ (from / DAY - 1)) with (from / DAY) by lia. by replace (Z.pred (k + 1)) with k by lia.
Qed.

Lemma elem_asked d from k : d ∈ asked_dates from k ↔ ∃ n, d = date_of (DAY * n) ∧ from / DAY - 1 <= n < from / DAY + k.
Proof.
  unfold asked_dates. rewrite list_elem_of_fmap. split; intros (n & -> & Hn); exists n; (split; [done|]).
  - apply elem_of_seqZ in Hn. lia.
  - apply elem_of_seqZ. lia.
Qed.

(** The days of a window that is not truncated. *)
Lemma whole_window from to k :
  from <= to → consecutive from to k → to < DAY * (from / DAY + k) → k = to / DAY - from / DAY + 1.
Proof.
  intros Hft [Hk Hc] Ht. assert (to / DAY < from / DAY + k) by (unfold DAY in *; clear -Ht; divisions).
  assert (from / DAY <= to / DAY) by (unfold DAY; clear -Hft; divisions).
  destruct (Z.eq_dec k 0) as [->|]; [lia|]. destruct (Hc (from / DAY + k - 1)) as [_ Hle]; [lia|].
  assert (from / DAY + k - 1 <= to / DAY) by (unfold DAY in *; clear -Hle; divisions). lia.
Qed.

Lemma not_truncated from to layout days tr :
  0 <= from < 2 ^ 63 → to / DAY - from / DAY + 1 < MAX_DISCOVERY_DAYS →
  discovery_day_layouts from to layout = Ok (days, tr) → tr = false.
Proof.
  intros Hf Hm Hd. destruct tr; [|done]. assert (- DAY <= from < 2 ^ 63) as Hf' by (unfold DAY; lia).
  destruct (day_layouts_spec from to layout MAX_DISCOVERY_DAYS days true Hf' ltac:(done) Hd) as (k & Hk & -> & Hn & Hb).
  unfold blen in Hb. rewrite length_fmap, length_seqZ, Z2Nat.id in Hb by lia. subst k. unfold MAX_DISCOVERY_DAYS in *.
  destruct (Hn (from / DAY + 2000 - 1)) as [_ Hle]; [lia|]. unfold DAY in *. clear -Hle Hm. divisions.
Qed.

Lemma window_ends from to layout k :
  1 <= k → ∃ first last,
    head (window_days from to layout k) = Some first ∧ list.last (window_days from to layout k) = Some last ∧
    DayLayout.date first = date_of (DAY * (from / DAY)) ∧ DayLayout.from first = Z.max from (DAY * (from / DAY)) ∧
    DayLayout.date last = date_of (DAY * (from / DAY + k - 1)).
Proof.
  intros Hk. exists (day_at from to (layout (from / DAY)) (from / DAY)),
    (day_at from to (layout (from / DAY + k - 1)) (from / DAY + k - 1)). unfold window_days. split_and!; [|..|done|done|done].
  - by rewrite seqZ_cons by lia.
  - replace k with ((k - 1) + 1) at 1 by lia. rewrite seqZ_app by lia.
    assert (seqZ (from / DAY + (k - 1)) 1 = [from / DAY + k - 1]) as ->
      by (rewrite seqZ_cons by lia; cbn; f_equal; lia).
    rewrite fmap_app. apply list.last_snoc.
Qed.
End hints.

Section agree.
Context {Cal : Calendar} {B : StorageBackend} {Arr : Arrival} {J : HintJson} {bucket : bytes} {keys : list bytes}.
Context {L : Lists B bucket keys}.

(** What a complete discovery knows. *)
Record discovered (base : bytes) (from to : Z) (x : Version1Services.t) (k : Z) : Prop := {
  discovered_days : consecutive from to k ∧ k = to / DAY - from / DAY + 1;
  discovered_scanned : Version1Services.scanned_days x = window_days from to (λ _, LayoutSet.Version1) k;
  discovered_on d s : Version1Services.on x d s = true ↔ d ∈ asked_dates from k ∧ published base keys d s }.

Lemma discover_complete base from to x :
  0 <= from < 2 ^ 63 → from <= to → to / DAY - from / DAY + 1 < MAX_DISCOVERY_DAYS →
  (∀ d, few_services base keys d) →
  discover_version1_services bucket base from to = Ok x →
  ∃ k, discovered base from to x k.
Proof.
  intros Hf Hft Hmax Hfew Hx. destruct (discover_spec (keys := keys) _ _ _ _ Hx) as (days & dates & Hd & Ha & Hs & Hon).
  rewrite (not_truncated _ _ _ _ _ Hf Hmax Hd) in Hd. destruct (discovery_days _ _ _ _ _ Hf Hd) as (k & -> & Hc & Hto).
  pose proof (whole_window from to k Hft Hc (Hto eq_refl)) as Hk. exists k.
  apply asked_spec in Ha; [|done|destruct Hc; lia]. subst dates. split; [done|done|].
  intros d s. split; [apply Hon|]. intros [Hin Hp]. by apply Hon.
Qed.

Lemma first_agrees base from to x k from' to' x' k' s :
  discovered base from to x k → discovered base from' to' x' k' →
  (∀ d, d ∈ asked_dates from' k' → d ∈ asked_dates from k) →
  match Version1Services.first_date_for x s with Some d => d ∈ asked_dates from' k' | None => True end →
  Version1Services.first_date_for x s = Version1Services.first_date_for x' s.
Proof.
  intros Hx Hx' Hsub Hin. pose proof (Recorded.first_date_spec x s) as Hf.
  pose proof (Recorded.first_date_spec x' s) as Hf'.
  assert (∀ d, Version1Services.on x' d s = true → Version1Services.on x d s = true) as Himp.
  { intros d Hd. apply (discovered_on _ _ _ _ _ Hx') in Hd as [Hd Hp].
    apply (discovered_on _ _ _ _ _ Hx). split; [by apply Hsub|done]. }
  destruct (Version1Services.first_date_for x s) as [d|].
  - destruct Hf as [Hd Hmin]. apply (discovered_on _ _ _ _ _ Hx) in Hd as [_ Hp].
    assert (Version1Services.on x' d s = true) as Hd' by (by apply (discovered_on _ _ _ _ _ Hx')).
    destruct (Version1Services.first_date_for x' s) as [d'|].
    + destruct Hf' as [Hd'' Hmin']. f_equal. apply str_ltb_total.
      * exact (Hmin' _ Hd').
      * exact (Hmin _ (Himp _ Hd'')).
    + by rewrite Hf' in Hd'.
  - destruct (Version1Services.first_date_for x' s) as [d'|]; [|done].
    destruct Hf' as [Hd' _]. apply Himp in Hd'. by rewrite Hf in Hd'.
Qed.

(** An accepted hint is of a window around this one, and the date it names is
    one of those discovery would ask for. *)
Lemma hint_accepted base s from0 to0 k0 F now0 from to layout k now first :
  0 <= from0 → 0 <= from < 2 ^ 63 → consecutive from0 to0 k0 → 1 <= k0 → consecutive from to k → 1 <= k →
  decode_hint (encode_hint bucket base s (window_days from0 to0 (λ _, LayoutSet.Version1) k0) F now0)
    bucket base s (window_days from to (λ _, layout) k) now = Some first →
  first = F ∧ from0 / DAY <= from / DAY ∧ from / DAY + k <= from0 / DAY + k0 ∧
  match F with Some d => d ∈ asked_dates from k | None => True end.
Proof.
  intros Hf0 Hf [_ Hc0] Hk0 [_ Hc] Hk. unfold decode_hint, encode_hint. rewrite hint_parse_text.
  destruct (window_ends from0 to0 (λ _, LayoutSet.Version1) k0 Hk0) as (f0 & l0 & -> & -> & Df0 & _ & Dl0).
  destruct (window_ends from to (λ _, layout) k Hk) as (f & l & -> & -> & Df & Ff & Dl).
  cbn [mbind option_bind fmap option_fmap option_map default from_option id]. destruct (_ || _) eqn:E; [discriminate 1|].
  cbn [LayoutHint.first_v1_day]. intros Hfirst. apply (inj Some) in Hfirst as <-. split; [reflexivity|].
  apply orb_false_iff in E as [E Ed]. apply orb_false_iff in E as [E El]. apply orb_false_iff in E as [_ Ef].
  cbn [LayoutHint.first_day LayoutHint.last_day LayoutHint.first_v1_day] in *. rewrite Df0, Df in Ef. rewrite Dl0, Dl in El.
  assert (∀ n, DAY * n / DAY = n) as Hdd by (intros n; by rewrite (Z.mul_comm DAY), Z.div_mul).
  assert (∀ n m, on_calendar (DAY * n) → on_calendar (DAY * m) →
    str_ltb (date_of (DAY * n)) (date_of (DAY * m)) = false → m <= n) as Hord.
  { intros n m Hn Hm E. destruct (decide (m <= n)) as [|Hlt]; [done|].
    rewrite (date_of_lt _ _ Hn Hm) in E; [done|]. rewrite !Hdd. lia. }
  split; [apply Hord; [apply Hc; lia|apply Hc0; lia|exact Ef]|].
  split; [enough (from / DAY + k - 1 <= from0 / DAY + k0 - 1) by lia; apply Hord; [apply Hc0; lia|apply Hc; lia|exact El]|].
  destruct F as [d|]; [|exact I]. apply negb_false_iff in Ed. unfold known_date in Ed. apply existsb_exists in Ed as (day & Hin & Hday).
  apply bool_decide_eq_true in Hday. subst d. apply list_elem_of_In, elem_of_app in Hin. apply elem_asked.
  destruct Hin as [Hin|Hin].
  - assert (DayLayout.from f = from) as Hff by (rewrite Ff; unfold DAY; clear; divisions). rewrite Hff in Hin.
    destruct (previous_day_layout from LayoutSet.Version1) as [previous|] eqn:Hp; [|by apply not_elem_of_nil in Hin].
    destruct (previous_spec _ _ _ Hf Hp) as (pday & -> & Hdate). apply list_elem_of_singleton in Hin as ->.
    exists (from / DAY - 1). split; [exact Hdate|]. lia.
  - apply list_elem_of_fmap in Hin as (n & -> & Hn). apply elem_of_seqZ in Hn. exists n. split; [reflexivity|]. lia.
Qed.

(** C33: A hint never changes what is browsed: if the hint [list_services] made
    for one window - of a bucket that did not change, in complete listings - is
    echoed for any other window, the layouts of its days are those that
    discovery finds there, whether the hint is accepted or not. *)
Theorem hint_agrees base from0 to0 wide s now0 from to now r1 r2 :
  0 <= from0 < 2 ^ 63 → from0 <= to0 → to0 / DAY - from0 / DAY + 1 < MAX_DISCOVERY_DAYS →
  0 <= from < 2 ^ 63 → from <= to → to / DAY - from / DAY + 1 < MAX_DISCOVERY_DAYS →
  (∀ d, few_services base keys d) →
  discover_version1_services bucket base from0 to0 = Ok wide →
  let hint := encode_hint bucket base s (Version1Services.scanned_days wide)
                (Version1Services.first_date_for wide s) now0 in
  resolve_service_layouts bucket base from to s (Some hint) now = Ok r1 →
  resolve_service_layouts bucket base from to s None now = Ok r2 →
  ResolvedServiceLayouts.days r1 = ResolvedServiceLayouts.days r2.
Proof.
  intros Hf0 Hft0 Hm0 Hf Hft Hm Hfew Hw hint. unfold resolve_service_layouts.
  destruct (discovery_day_layouts from to LayoutSet.Historical) as [[days tr]|] eqn:Hd; [|done]. cbn [mbind option_bind].
  destruct (decode_hint hint bucket base s days now) as [first|] eqn:Hh; [|congruence].
  destruct (discover_version1_services bucket base from to) as [narrow|] eqn:Hn; [|done].
  intros [= <-] [= <-]. cbn [ResolvedServiceLayouts.days]. f_equal.
  destruct (discover_complete base from0 to0 wide Hf0 Hft0 Hm0 Hfew Hw) as [k0 Hx0].
  destruct (discover_complete base from to narrow Hf Hft Hm Hfew Hn) as [k Hx].
  pose proof (not_truncated _ _ _ _ _ Hf Hm Hd) as ->.
  destruct (discovery_days _ _ _ _ _ Hf Hd) as (k' & -> & Hc & Hto).
  assert (k' = k) as -> by (rewrite (whole_window from to k' Hft Hc (Hto eq_refl)); symmetry; apply Hx).
  assert (1 <= k ∧ 1 <= k0) as [Hk1 Hk01].
  { destruct (discovered_days _ _ _ _ _ Hx) as [_ ->]. destruct (discovered_days _ _ _ _ _ Hx0) as [_ ->].
    unfold DAY. clear -Hft Hft0. divisions. }
  unfold hint in Hh. rewrite (discovered_scanned _ _ _ _ _ Hx0) in Hh.
  apply hint_accepted in Hh as (-> & Hlo & Hhi & Hin); [|apply Hf0|done|apply Hx0|done|apply Hx|done].
  apply (first_agrees base from0 to0 wide k0 from to narrow k s Hx0 Hx); [|done].
  intros d. rewrite !elem_asked. intros (n & -> & Hn'). exists n. split; [done|]. lia.
Qed.
End agree.

(** ** Examples *)

#[export] Instance in_turn : Arrival := {| arrival A l := l; arrival_perm A l := Permutation_refl l |}.

(** Hints as the digits of a number. *)
Fixpoint pos_bytes (p : positive) : bytes :=
  match p with xH => [] | xO p => z2b 48 :: pos_bytes p | xI p => z2b 49 :: pos_bytes p end.

Fixpoint bytes_pos (s : bytes) : positive :=
  match s with
  | [] => xH
  | c :: s => if bool_decide (c = z2b 48) then xO (bytes_pos s) else xI (bytes_pos s)
  end.

Lemma bytes_pos_bytes p : bytes_pos (pos_bytes p) = p.
Proof. induction p as [p IH|p IH|]; cbn [pos_bytes bytes_pos]; [..|done]; by rewrite IH. Qed.

(** A field is its bytes, each announced, and an end. *)
Fixpoint field (s : bytes) : bytes :=
  match s with [] => [z2b 48] | c :: s => z2b 49 :: c :: field s end.

Fixpoint read_field (s : bytes) : option (bytes * bytes) :=
  match s with
  | c :: x :: r =>
      if bool_decide (c = z2b 48) then Some ([], x :: r)
      else '(f, r) ← read_field r; Some (x :: f, r)
  | [c] => if bool_decide (c = z2b 48) then Some ([], []) else None
  | [] => None
  end.

Lemma read_field_text s r : read_field (field s ++ r) = Some (s, r).
Proof.
  induction s as [|c s IH]; [by destruct r|]. cbn [field app read_field].
  rewrite bool_decide_false by done. by rewrite IH.
Qed.

Definition example_text (h : LayoutHint.t) : bytes :=
  field (LayoutHint.bucket h) ++ field (LayoutHint.base h) ++ field (LayoutHint.service h) ++
  field (LayoutHint.first_day h) ++ field (LayoutHint.last_day h) ++
  field (pos_bytes (encode (LayoutHint.v h, LayoutHint.expires_at h))) ++
  match LayoutHint.first_v1_day h with Some d => field d | None => [] end.

Definition example_parse (s : bytes) : option LayoutHint.t :=
  '(bucket, s) ← read_field s; '(base, s) ← read_field s; '(service, s) ← read_field s;
  '(first_day, s) ← read_field s; '(last_day, s) ← read_field s; '(numbers, s) ← read_field s;
  '(v, expires_at) ← decode (bytes_pos numbers);
  Some (LayoutHint.mk v bucket base service first_day last_day (fst <$> read_field s) expires_at).

#[export] Instance example_json : HintJson.
Proof.
  refine {| hint_text := example_text; hint_parse := example_parse |}.
  intros [v bucket base service first_day last_day first_v1_day expires_at]. unfold example_text, example_parse.
  cbn [LayoutHint.bucket LayoutHint.base LayoutHint.service LayoutHint.first_day LayoutHint.last_day LayoutHint.v
    LayoutHint.expires_at LayoutHint.first_v1_day].
  do 6 (rewrite read_field_text; cbn [mbind option_bind]). rewrite bytes_pos_bytes, decode_encode.
  cbn [mbind option_bind]. destruct first_v1_day as [d|]; [|done].
  pose proof (read_field_text d []) as Hr. rewrite app_nil_r in Hr. by rewrite Hr.
Defined.

Definition example_key : bytes := object_key (Cal := gregorian_calendar) example_s3 3 example_metadata.

Definition example_client : S3Client := one_page_client [example_key; lit "company/readme.txt"].

#[local] Existing Instance gregorian_calendar.

Lemma example_lists : Lists (@S3Backend example_client) (lit "traces") [example_key; lit "company/readme.txt"].
Proof. apply s3_lists, one_page_serves. Defined.

Lemma few_children base keys date : blen keys < MAX_CHILDREN → few_services base keys date.
Proof.
  intros Hk. unfold few_services, children. eapply Z.le_lt_trans; [|exact Hk]. unfold blen. apply inj_le.
  transitivity (length (omap (child_of (version1_day_root base date)) keys)).
  - generalize (omap (child_of (version1_day_root base date)) keys) as l. intros l.
    induction l as [|x l IH]; [done|]. cbn [remove_dups]. destruct (decide_rel _ _ _); cbn [length]; lia.
  - clear Hk. induction keys as [|k keys IH]; [done|]. cbn [omap list_omap].
    destruct (child_of _ k); cbn [length]; lia.
Qed.

Lemma example_names_once : NoDup [example_key; lit "company/readme.txt"].
Proof. apply (bool_decide_unpack _). vm_compute. exact I. Defined.


Lemma browse_lists_once_witness :
  NoDup (ObjectInfo.key <$> [ObjectInfo.mk example_key 1 None]).
Proof.
  refine (proj1 (browse_lists_once (L := example_lists) (lit "company/date=archive/%25") 1786734000 1786737600
    None None 0 _ false example_names_once _ _ _)); [lia|lia|]. vm_compute. reflexivity.
Defined.

Definition example_base : bytes := lit "company/date=archive/%25".

Definition example_wide : Version1Services.t :=
  match discover_version1_services (B := @S3Backend example_client) (lit "traces") example_base
          1786300000 1786900000 with
  | Ok x => x
  | Err _ => Version1Services.mk ∅ [] false
  end.

Definition example_resolve (hint : option bytes) : result ResolvedServiceLayouts.t StorageError.t :=
  resolve_service_layouts (B := @S3Backend example_client) (lit "traces") example_base
    1786700000 1786800000 (lit "payments/api") hint 120.

Definition example_hint : bytes :=
  encode_hint (lit "traces") example_base (lit "payments/api") (Version1Services.scanned_days example_wide)
    (Version1Services.first_date_for example_wide (lit "payments/api")) 100.

Definition example_resolved : ResolvedServiceLayouts.t :=
  match example_resolve (Some example_hint) with Ok x => x | Err _ => ResolvedServiceLayouts.mk [] true end.

Lemma hint_agrees_witness :
  ∃ r2, example_resolve None = Ok r2 ∧
    ResolvedServiceLayouts.days example_resolved = ResolvedServiceLayouts.days r2.
Proof.
  exists example_resolved.
  assert (example_resolve None = Ok example_resolved) as H2 by (vm_compute; reflexivity). split; [exact H2|].
  refine (hint_agrees (L := example_lists) example_base 1786300000 1786900000 example_wide
    (lit "payments/api") 100 1786700000 1786800000 120 example_resolved example_resolved _ _ _ _ _ _ _ _ _ H2).
  1-6: clear; unfold DAY, MAX_DISCOVERY_DAYS; divisions.
  - intros d. apply few_children. vm_compute. reflexivity.
  - vm_compute. reflexivity.
  - vm_compute. reflexivity.
Defined.
