(* ===== verification/Uploader.v ===== *)
(** * The S3 stage of the pipeline (dial9-destinations-s3/src/s3.rs, connection.rs)

    A stage that uploads segments and the manifests of dumps: how its client is
    made, a circuit breaker that paces its attempts, what it puts and removes,
    what a manifest lists.  What the SDK, the file system and the clocks answer
    is an argument of each call; [None] is a call that is cancelled while the
    client is being made. *)

From Stdlib Require Import ZArith Lia.
From stdpp Require Import base list gmap strings option.
From coqutil Require Import Byte.
From S2P Require Import Prelude.
From S2P Require Import Text.
From S2P Require Import Paths.
From S2P Require Import Dump.
From S2P Require Import Worker.
From S2P Require Import Triggered.
From S2P Require Import Lifecycle.
From S2P Require Import ObjectKeys.

(** ** The circuit breaker; instants and durations are nanoseconds *)

Definition INITIAL_BACKOFF : Z := 1 * SECOND.
Definition MAX_BACKOFF : Z := 300 * SECOND.

Module CircuitBreaker.
Inductive t : Type := Closed | Open (next_retry backoff : Z).

Definition new : t := Closed.

Definition should_attempt (now : Z) (b : t) : bool :=
  match b with Closed => true | Open next_retry _ => next_retry <=? now end.

Definition retry_delay (now : Z) (b : t) : Z :=
  match b with Closed => 0 | Open next_retry _ => Z.max 0 (next_retry - now) end.

Definition on_success (_ : t) : t := Closed.

Definition on_failure (now : Z) (b : t) : t :=
  let backoff := match b with
                 | Closed => INITIAL_BACKOFF
                 | Open _ backoff => Z.min (backoff * 2) MAX_BACKOFF
                 end in
  Open (now + backoff) backoff.
End CircuitBreaker.

(** ** Errors *)

(** The SDK's error of a put; [Other] stands for variants to come. *)
Module SdkError.
Inductive t : Type :=
| ConstructionFailure | TimeoutError | DispatchFailure | ResponseError | ServiceError (status : Z) | Other.
End SdkError.

Definition put_error_kind (text : bytes) (e : SdkError.t) : ProcessErrorKind :=
  Transfer text
    match e with
    | SdkError.TimeoutError | SdkError.DispatchFailure | SdkError.ResponseError => true
    | SdkError.ServiceError status => (500 <=? status) || (status =? 429)
    | _ => false
    end.

Module FailureBehavior.
Inductive t : Type := DisableDial9 (source : option error) | DisableS3 (source : option error).

Definition with_source (source : error) (b : t) : t :=
  match b with DisableDial9 _ => DisableDial9 (Some source) | DisableS3 _ => DisableS3 (Some source) end.

(** As an error among the causes of another. *)
Definition as_error (b : t) : error :=
  match b with DisableDial9 source | DisableS3 source => OtherError source end.

Definition initialization_result (b : t) : result unit error :=
  match b with
  | DisableDial9 _ => Err (IoError (Some (DisableRecording (as_error b))))
  | DisableS3 _ => Ok tt
  end.
End FailureBehavior.

(** ** What goes to S3 *)

(** [valid_user_metadata_key], of the lower-cased key. *)
Definition valid_user_metadata_key (key : bytes) : bool :=
  negb (bool_decide (key = [])) && (blen key <=? 128) &&
  forallb (λ b, let v := b2z b in
    ((97 <=? v) && (v <=? 122)) || ((48 <=? v) && (v <=? 57)) || (v =? 45) || (v =? 95)) key &&
  negb (existsb (λ w, bool_decide (key = lit w))
    ["service"; "boot-id"; "segment-index"; "start-time"; "host"; "dump-id"]%string).

Definition valid_user_metadata_value (value : bytes) : bool :=
  (blen value <=? 256) && forallb (λ b, (32 <=? b2z b) && (b2z b <=? 126)) value.

Definition to_ascii_lowercase (s : bytes) : bytes :=
  (λ b, let v := b2z b in if (65 <=? v) && (v <=? 90) then z2b (v + 32) else b) <$> s.

Module PutRequest.
Record t : Type := mk {
  bucket : bytes;
  key : bytes;
  content_type : bytes;
  metadata : gmap bytes bytes;
  body : bytes }.
End PutRequest.

Inductive put_reply : Type := Stored | PutFailed (e : SdkError.t) (text : bytes).

Inductive remove_reply : Type := Removed | AlreadyGone | RemoveFailed (text : bytes).

(** What a call did outside, in order. *)
Inductive effect : Type :=
| Put (r : PutRequest.t) (reply : put_reply)
| Remove (path : bytes) (reply : remove_reply).

(** The answers one call meets: of the client's future and the region's
    detection ([None]: cancelled there), the clock before and after the put, the
    put and the removal, and the order in which the metadata is visited. *)
Module Env.
Record t : Type := mk {
  client : option (result unit FailureBehavior.t);
  region_found : bool;
  attempt_at : Z;
  put : put_reply;
  remove : remove_reply;
  failed_at : Z;
  order : gmap bytes bytes → list (bytes * bytes) }.
End Env.

Module DumpManifest.
Record t : Type := mk {
  dump_id : bytes;
  triggered_at : bytes;
  time_range : bytes * bytes;
  segments_processed : Z;
  metadata : gmap bytes bytes;
  segments : list bytes }.
End DumpManifest.

(** ** The stage *)

(** [Future]: the client is still to be made. *)
Inductive client_source : Set := Future | ReadyClient.

Module UploaderState.
Inductive t : Type :=
| Pending (s3_config : S3Config.t) (source : client_source)
| Ready (config : S3Config.t) (circuit_breaker : CircuitBreaker.t)
| Failed (behavior : FailureBehavior.t).
End UploaderState.

Module S3PipelineUploader.
Record t : Type := mk { state : UploaderState.t; dump_keys : gmap bytes (list bytes) }.

Definition new (s3_config : S3Config.t) (client : bool) : t :=
  mk (UploaderState.Pending s3_config (if client then ReadyClient else Future)) ∅.

(** [with_client_future] and [set_client]; [None] where they panic. *)
Definition set_source (source : client_source) (u : t) : option t :=
  match state u with
  | UploaderState.Pending c _ => Some (mk (UploaderState.Pending c source) (dump_keys u))
  | _ => None
  end.

Definition set_boot_id (boot_id : bytes) (u : t) : t :=
  match state u with
  | UploaderState.Pending (S3Config.mk b s i _ p k) source =>
      mk (UploaderState.Pending (S3Config.mk b s i boot_id p k) source) (dump_keys u)
  | _ => u
  end.

Definition is_disabled (u : t) : bool :=
  match state u with UploaderState.Failed (FailureBehavior.DisableS3 _) => true | _ => false end.

Definition set_state (s : UploaderState.t) (u : t) : t := mk s (dump_keys u).

Definition set_breaker (c : S3Config.t) (b : CircuitBreaker.t) (u : t) : t :=
  mk (UploaderState.Ready c b) (dump_keys u).
End S3PipelineUploader.

(** What a call of the stage answers. *)
Inductive answer : Type :=
| Initialized (r : result unit error)
| Processed (data : SegmentData.t) (r : result unit ProcessErrorKind)
| Finalized (key : option bytes)
| Cancelled.

(** The calls the worker makes. *)
Inductive call : Type :=
| Initialize
| Process (disk_path : option bytes) (data : SegmentData.t)
| Finalize (completion : DumpCompletion.t).

(** A call with what it did and answered. *)
Module Entry.
Record t : Type := mk { env : Env.t; made : call; effects : list effect; answered : answer }.
End Entry.

Section uploader.
Context {Cal : Calendar}.
Variable id_text : Z → bytes.
Variable rfc3339 : Z → bytes.
Variable manifest_json : DumpManifest.t → option bytes.
Variable error_text : error → bytes.

Definition manifest_of (c : DumpCompletion.t) (segments : list bytes) : DumpManifest.t :=
  DumpManifest.mk (id_text (DumpCompletion.dump_id c)) (rfc3339 (DumpCompletion.triggered_at c))
    (rfc3339 (fst (DumpCompletion.time_range c)), rfc3339 (snd (DumpCompletion.time_range c)))
    (DumpCompletion.segments_processed c)
    (foldl (λ m '(k, v), <[k := v]> m) ∅ (DumpCompletion.metadata c)) segments.

(** The caller's pairs, with their [dump.] stripped, as S3 user metadata. *)
Definition user_pair (m : gmap bytes bytes) (kv : bytes * bytes) : gmap bytes bytes :=
  match strip_prefix (lit "dump.") (fst kv) with
  | Some stripped =>
      let header_key := to_ascii_lowercase stripped in
      if valid_user_metadata_key header_key && valid_user_metadata_value (snd kv)
      then <[header_key := snd kv]> m else m
  | None => m
  end.

Definition object_metadata (c : S3Config.t) (index : Z) (metadata : gmap bytes bytes)
    (order : gmap bytes bytes → list (bytes * bytes)) : gmap bytes bytes :=
  let m : gmap bytes bytes :=
    <[lit "host" := S3Config.instance_path c]> (
    <[lit "start-time" := default (lit "0") (metadata !! lit "epoch_secs")]> (
    <[lit "segment-index" := put_dec index]> (
    <[lit "boot-id" := S3Config.boot_id c]> (
    <[lit "service" := S3Config.service_name c]> ∅)))) in
  match metadata !! lit "dump_id" with
  | Some dump_ids => foldl user_pair (<[lit "dump-id" := dump_ids]> m) (order metadata)
  | None => m
  end.

Definition put_request (c : S3Config.t) (data : SegmentData.t) (order : gmap bytes bytes → list (bytes * bytes)) :
    PutRequest.t :=
  PutRequest.mk (S3Config.bucket c) (object_key c (SegmentData.index data) (SegmentData.metadata data))
    (if is_gzip (SegmentData.metadata data) then lit "application/gzip" else lit "application/octet-stream")
    (object_metadata c (SegmentData.index data) (SegmentData.metadata data) order) (SegmentData.payload data).

(** [S3Uploader::upload_and_delete] of the payload, for a file or a segment in
    memory. *)
Definition upload_and_delete (c : S3Config.t) (e : Env.t) (disk_path : option bytes) (data : SegmentData.t) :
    result bytes ProcessErrorKind * list effect :=
  let req := put_request c data (Env.order e) in
  match Env.put e with
  | PutFailed err text => (Err (put_error_kind text err), [Put req (Env.put e)])
  | Stored =>
      match disk_path with
      | None => (Ok (PutRequest.key req), [Put req Stored])
      | Some path =>
          let effects := [Put req Stored; Remove path (Env.remove e)] in
          match Env.remove e with
          | Removed | AlreadyGone => (Ok (PutRequest.key req), effects)
          | RemoveFailed text => (Err (Io false text), effects)
          end
      end
  end.

(** [ensure_initialized]. *)
Definition ensure_initialized (e : Env.t) (u : S3PipelineUploader.t) :
    option (result unit error) * S3PipelineUploader.t :=
  let build c u :=
    if Env.region_found e
    then (Some (Ok tt), S3PipelineUploader.set_breaker c CircuitBreaker.new u)
    else (None, u) in
  match S3PipelineUploader.state u with
  | UploaderState.Ready _ _ => (Some (Ok tt), u)
  | UploaderState.Failed behavior => (Some (FailureBehavior.initialization_result behavior), u)
  | UploaderState.Pending c ReadyClient => build c u
  | UploaderState.Pending c Future =>
      match Env.client e with
      | None => (None, u)
      | Some (Err behavior) =>
          (Some (FailureBehavior.initialization_result behavior),
           S3PipelineUploader.set_state (UploaderState.Failed behavior) u)
      | Some (Ok _) => build c (S3PipelineUploader.set_state (UploaderState.Pending c ReadyClient) u)
      end
  end.

(** The dumps a segment belongs to. *)
Definition dump_ids (data : SegmentData.t) : list bytes :=
  match SegmentData.metadata data !! lit "dump_id" with
  | Some ids => filter (λ id, id <> []) (split_on (z2b 44) ids)
  | None => []
  end.

Definition remember (key : bytes) (ids : list bytes) (m : gmap bytes (list bytes)) : gmap bytes (list bytes) :=
  foldl (λ m id, partial_alter (λ keys, Some (default [] keys ++ [key])) id m) m ids.

Definition taken (data : SegmentData.t) : SegmentData.t :=
  SegmentData.mk (SegmentData.index data) [] (SegmentData.metadata data).

Definition process (e : Env.t) (disk_path : option bytes) (data : SegmentData.t) (u : S3PipelineUploader.t) :
    S3PipelineUploader.t * list effect * answer :=
  match ensure_initialized e u with
  | (None, u) => (u, [], Cancelled)
  | (Some (Err error), u) => (u, [], Processed data (Err (Io false (error_text error))))
  | (Some (Ok _), u) =>
      if S3PipelineUploader.is_disabled u then (u, [], Processed data (Ok tt))
      else
        match S3PipelineUploader.state u with
        | UploaderState.Ready c b =>
            if negb (CircuitBreaker.should_attempt (Env.attempt_at e) b)
            then (u, [], Processed data (Err (Transfer (lit "circuit breaker open") true)))
            else
              match upload_and_delete c e disk_path data with
              | (Ok key, effects) =>
                  (S3PipelineUploader.mk (UploaderState.Ready c (CircuitBreaker.on_success b))
                     (remember key (dump_ids data) (S3PipelineUploader.dump_keys u)),
                   effects, Processed (taken data) (Ok tt))
              | (Err kind, effects) =>
                  (if already_deleted kind then u
                   else S3PipelineUploader.set_breaker c (CircuitBreaker.on_failure (Env.failed_at e) b) u,
                   effects, Processed (taken data) (Err kind))
              end
        | _ => (u, [], Processed data (Err (Io false (lit "S3 uploader in unexpected state"))))
        end
  end.

Definition manifest_request (c : S3Config.t) (id body : bytes) : PutRequest.t :=
  PutRequest.mk (S3Config.bucket c) (ObjectKeys.manifest_key c id) (lit "application/json") ∅ body.

Definition finalize_dump (e : Env.t) (completion : DumpCompletion.t) (u : S3PipelineUploader.t) :
    S3PipelineUploader.t * list effect * answer :=
  let id := id_text (DumpCompletion.dump_id completion) in
  let segments := default [] (S3PipelineUploader.dump_keys u !! id) in
  let u := S3PipelineUploader.mk (S3PipelineUploader.state u) (delete id (S3PipelineUploader.dump_keys u)) in
  if DumpCompletion.failed completion then (u, [], Finalized None)
  else
    match ensure_initialized e u with
    | (None, u) => (u, [], Cancelled)
    | (Some (Err _), u) => (u, [], Finalized None)
    | (Some (Ok _), u) =>
        match S3PipelineUploader.state u with
        | UploaderState.Ready c b =>
            if negb (CircuitBreaker.should_attempt (Env.attempt_at e) b) then (u, [], Finalized None)
            else
              match manifest_json (manifest_of completion segments) with
              | None => (u, [], Finalized None)
              | Some body =>
                  let req := manifest_request c id body in
                  match Env.put e with
                  | Stored => (S3PipelineUploader.set_breaker c (CircuitBreaker.on_success b) u,
                               [Put req Stored], Finalized (Some (PutRequest.key req)))
                  | PutFailed _ _ =>
                      (S3PipelineUploader.set_breaker c (CircuitBreaker.on_failure (Env.failed_at e) b) u,
                       [Put req (Env.put e)], Finalized None)
                  end
              end
        | _ => (u, [], Finalized None)
        end
    end.

(** [wait_until_live]: how long the stage asks to wait. *)
Definition wait_until_live (now : Z) (u : S3PipelineUploader.t) : Z :=
  match S3PipelineUploader.state u with
  | UploaderState.Ready _ b => CircuitBreaker.retry_delay now b
  | _ => 0
  end.

(** ** Runs of the stage *)

Definition step (u : S3PipelineUploader.t) (e : Env.t) (k : call) : S3PipelineUploader.t * list effect * answer :=
  match k with
  | Initialize =>
      match ensure_initialized e u with
      | (Some r, u) => (u, [], Initialized r)
      | (None, u) => (u, [], Cancelled)
      end
  | Process disk_path data => process e disk_path data u
  | Finalize completion => finalize_dump e completion u
  end.

Fixpoint run (u : S3PipelineUploader.t) (calls : list (Env.t * call)) : S3PipelineUploader.t * list Entry.t :=
  match calls with
  | [] => (u, [])
  | (e, k) :: calls =>
      let '(u, effects, a) := step u e k in
      let '(u, log) := run u calls in
      (u, Entry.mk e k effects a :: log)
  end.

(** ** What a call does, branch by branch *)

Definition configured (c : S3Config.t) (u : S3PipelineUploader.t) : Prop :=
  match S3PipelineUploader.state u with
  | UploaderState.Pending c' _ | UploaderState.Ready c' _ => c' = c
  | UploaderState.Failed _ => True
  end.

(** The breaker an initialized stage has: that of [u], or a new one. *)
Definition breaker_of (u : S3PipelineUploader.t) : CircuitBreaker.t :=
  match S3PipelineUploader.state u with UploaderState.Ready _ b => b | _ => CircuitBreaker.new end.

Lemma ensure_spec c e u r u' :
  configured c u → ensure_initialized e u = (r, u') →
  configured c u' ∧ S3PipelineUploader.dump_keys u' = S3PipelineUploader.dump_keys u ∧
  breaker_of u' = breaker_of u ∧
  (r = Some (Ok tt) → S3PipelineUploader.is_disabled u' = false →
   S3PipelineUploader.state u' = UploaderState.Ready c (breaker_of u)).
Proof.
  unfold configured, ensure_initialized, breaker_of, S3PipelineUploader.is_disabled. destruct u as [s keys].
  cbn [S3PipelineUploader.state]. intros Hc.
  destruct s as [c' []|c' b|behavior]; [destruct (Env.client e) as [[[]|behavior]|]|..];
    [destruct (Env.region_found e)| | |destruct (Env.region_found e)|..];
    intros [= <- <-]; cbn; subst; try done; by destruct behavior.
Qed.

(** The entries of a log. *)
Definition process_entry (c : S3Config.t) (path : option bytes) (data : SegmentData.t) (x : Entry.t) : Prop :=
  let req := put_request c data (Env.order (Entry.env x)) in
  match Entry.effects x with
  | [] => ∀ data', Entry.answered x = Processed data' (Ok tt) → data' = data
  | [Put req' (PutFailed err text)] =>
      req' = req ∧ Entry.answered x = Processed (taken data) (Err (put_error_kind text err))
  | [Put req' Stored] => req' = req ∧ path = None ∧ Entry.answered x = Processed (taken data) (Ok tt)
  | [Put req' Stored; Remove p reply] =>
      req' = req ∧ path = Some p ∧
      Entry.answered x = Processed (taken data) (match reply with RemoveFailed text => Err (Io false text) | _ => Ok tt end)
  | _ => False
  end.

Definition finalize_entry (c : S3Config.t) (completion : DumpCompletion.t) (segments : list bytes) (x : Entry.t) : Prop :=
  match Entry.effects x with
  | [] => ∀ k, Entry.answered x <> Finalized (Some k)
  | [Put req reply] =>
      DumpCompletion.failed completion = false ∧
      (∃ body, manifest_json (manifest_of completion segments) = Some body ∧
        req = manifest_request c (id_text (DumpCompletion.dump_id completion)) body) ∧
      Entry.answered x = Finalized (match reply with Stored => Some (PutRequest.key req) | _ => None end)
  | _ => False
  end.

Lemma process_spec c e path data u u' effects a :
  configured c u → process e path data u = (u', effects, a) →
  configured c u' ∧ process_entry c path data (Entry.mk e (Process path data) effects a).
Proof.
  intros Hc. unfold process, process_entry. cbn [Entry.effects Entry.env Entry.answered].
  destruct (ensure_initialized e u) as [r u1] eqn:He. destruct (ensure_spec c _ _ _ _ Hc He) as (Hc1 & Hk & Hb & Hr).
  destruct r as [[[]|err]|]; [|by intros [= <- <- <-]..].
  destruct (S3PipelineUploader.is_disabled u1) eqn:Hd.
  { intros [= <- <- <-]. split; [done|]. by intros data' [= <-]. }
  rewrite (Hr eq_refl eq_refl). destruct (CircuitBreaker.should_attempt _ _); cbn [negb]; [|by intros [= <- <- <-]].
  unfold upload_and_delete. destruct (Env.put e) as [|err text].
  - destruct path as [p|]; [destruct (Env.remove e)|]; by intros [= <- <- <-].
  - by intros [= <- <- <-].
Qed.

Lemma finalize_spec c e completion u u' effects a :
  configured c u → finalize_dump e completion u = (u', effects, a) →
  configured c u' ∧
  finalize_entry c completion
    (default [] (S3PipelineUploader.dump_keys u !! id_text (DumpCompletion.dump_id completion)))
    (Entry.mk e (Finalize completion) effects a).
Proof.
  intros Hc. unfold finalize_dump, finalize_entry. cbn [Entry.effects Entry.env Entry.answered].
  set (u0 := S3PipelineUploader.mk _ _). assert (configured c u0) as Hc0 by exact Hc.
  destruct (DumpCompletion.failed completion); [by intros [= <- <- <-]|].
  destruct (ensure_initialized e u0) as [r u1] eqn:He. destruct (ensure_spec c _ _ _ _ Hc0 He) as (Hc1 & Hk & Hb & Hr).
  destruct r as [[[]|err]|]; [|by intros [= <- <- <-]..].
  destruct (S3PipelineUploader.is_disabled u1) eqn:Hd.
  { unfold S3PipelineUploader.is_disabled in Hd. destruct (S3PipelineUploader.state u1); [done..|].
    by intros [= <- <- <-]. }
  rewrite (Hr eq_refl eq_refl). destruct (CircuitBreaker.should_attempt _ _); cbn [negb]; [|by intros [= <- <- <-]].
  destruct (manifest_json _) as [body|] eqn:Hj; [|by intros [= <- <- <-]].
  destruct (Env.put e) as [|err text]; intros [= <- <- <-]; (split; [done|]; split; [done|]; split; [|done]);
    by exists body.
Qed.

Definition entry_ok (c : S3Config.t) (segments : bytes → list bytes) (x : Entry.t) : Prop :=
  match Entry.made x with
  | Initialize => Entry.effects x = []
  | Process path data => process_entry c path data x
  | Finalize completion =>
      finalize_entry c completion (segments (id_text (DumpCompletion.dump_id completion))) x
  end.

Lemma step_spec c u e k u' effects a :
  configured c u → step u e k = (u', effects, a) →
  configured c u' ∧
  entry_ok c (λ id, default [] (S3PipelineUploader.dump_keys u !! id)) (Entry.mk e k effects a).
Proof.
  intros Hc. unfold entry_ok. destruct k as [|path data|completion]; cbn [step Entry.made].
  - destruct (ensure_initialized e u) as [[r|] u1] eqn:He; intros [= <- <- <-];
      (split; [by apply (ensure_spec c _ _ _ _ Hc He)|done]).
  - by apply process_spec.
  - by apply finalize_spec.
Qed.

(** ** Manifests *)

(** The keys an entry adds to the manifest of a dump. *)
Definition listed (id : bytes) (x : Entry.t) : list bytes :=
  match Entry.made x, Entry.answered x, Entry.effects x with
  | Process _ data, Processed _ (Ok _), Put req Stored :: _ =>
      (λ _, PutRequest.key req) <$> filter (λ i, i = id) (dump_ids data)
  | _, _, _ => []
  end.

(** The keys of a dump's segments since it was last finalized. *)
Definition add_listed (id : bytes) (keys : list bytes) (x : Entry.t) : list bytes :=
  match Entry.made x with
  | Finalize completion =>
      if bool_decide (id_text (DumpCompletion.dump_id completion) = id) then [] else keys
  | _ => keys ++ listed id x
  end.

Definition since (id : bytes) (log : list Entry.t) : list bytes := foldl (add_listed id) [] log.

Lemma remember_spec key ids m id :
  default [] (remember key ids m !! id) = default [] (m !! id) ++ ((λ _, key) <$> filter (λ i, i = id) ids).
Proof.
  unfold remember. revert m. induction ids as [|i ids IH]; intros m; cbn [foldl]; [cbn; by rewrite app_nil_r|].
  rewrite IH, filter_cons. destruct (decide (i = id)) as [->|Hne].
  - rewrite lookup_partial_alter_eq. cbn. by rewrite <- app_assoc.
  - by rewrite lookup_partial_alter_ne.
Qed.

Lemma step_keys c u e k u' effects a id :
  configured c u → step u e k = (u', effects, a) →
  default [] (S3PipelineUploader.dump_keys u' !! id) =
  add_listed id (default [] (S3PipelineUploader.dump_keys u !! id)) (Entry.mk e k effects a).
Proof.
  intros Hc. unfold add_listed, listed. cbn [Entry.made Entry.answered Entry.effects].
  destruct k as [|path data|completion]; cbn [step].
  - destruct (ensure_initialized e u) as [[r|] u1] eqn:He; intros [= <- <- <-]; rewrite app_nil_r;
      by destruct (ensure_spec c _ _ _ _ Hc He) as (_ & -> & _).
  - unfold process. destruct (ensure_initialized e u) as [r u1] eqn:He.
    destruct (ensure_spec c _ _ _ _ Hc He) as (Hc1 & Hk & Hb & Hr). rewrite <- Hk.
    destruct r as [[[]|err]|]; [|by intros [= <- <- <-]; rewrite app_nil_r..].
    destruct (S3PipelineUploader.is_disabled u1) eqn:Hd; [by intros [= <- <- <-]; rewrite app_nil_r|].
    rewrite (Hr eq_refl eq_refl).
    destruct (CircuitBreaker.should_attempt _ _); cbn [negb]; [|by intros [= <- <- <-]; rewrite app_nil_r].
    unfold upload_and_delete. destruct (Env.put e) as [|err text].
    + destruct path as [p|]; [destruct (Env.remove e)|]; intros [= <- <- <-]; cbn [S3PipelineUploader.dump_keys];
        rewrite ?remember_spec, ?app_nil_r; done.
    + intros [= <- <- <-]. by rewrite app_nil_r.
  - unfold finalize_dump. set (u0 := S3PipelineUploader.mk _ _).
    assert (configured c u0) as Hc0 by exact Hc.
    assert (default [] (S3PipelineUploader.dump_keys u0 !! id) =
      if bool_decide (id_text (DumpCompletion.dump_id completion) = id) then []
      else default [] (S3PipelineUploader.dump_keys u !! id)) as <-.
    { cbn [u0 S3PipelineUploader.dump_keys]. case_bool_decide as Hi; [rewrite Hi; by rewrite lookup_delete_eq|].
      by rewrite lookup_delete_ne. }
    destruct (DumpCompletion.failed completion); [by intros [= <- <- <-]|].
    destruct (ensure_initialized e u0) as [r u1] eqn:He.
    destruct (ensure_spec c _ _ _ _ Hc0 He) as (Hc1 & Hk & Hb & Hr). rewrite <- Hk.
    destruct r as [[[]|err]|]; [|by intros [= <- <- <-]..].
    destruct (S3PipelineUploader.state u1); [by intros [= <- <- <-]| |by intros [= <- <- <-]].
    destruct (CircuitBreaker.should_attempt _ _); cbn [negb]; [|by intros [= <- <- <-]].
    destruct (manifest_json _); [|by intros [= <- <- <-]]. by destruct (Env.put e); intros [= <- <- <-].
Qed.

(** ** The theorems *)

(** The state an entry of a log was made in. *)
Lemma run_split u calls u' before x after :
  run u calls = (u', before ++ x :: after) →
  ∃ calls1 u1 u2, run u calls1 = (u1, before) ∧
    step u1 (Entry.env x) (Entry.made x) = (u2, Entry.effects x, Entry.answered x).
Proof.
  revert u calls. induction before as [|y before IH]; intros u [|[e k] calls] H; cbn [run] in H;
    try (destruct (step u e k) as [[u1 effects] a] eqn:Hs; destruct (run u1 calls) as [u2 log] eqn:Hr); try done.
  - injection H as -> <- ->. exists [], u, u1. by split.
  - injection H as -> <- ->. destruct (IH _ _ Hr) as (calls1 & u3 & u4 & H1 & H2).
    exists ((e, k) :: calls1), u3, u4. cbn [run]. by rewrite Hs, H1.
Qed.

Lemma run_configured c u calls u' log : configured c u → run u calls = (u', log) → configured c u'.
Proof.
  revert u log. induction calls as [|[e k] calls IH]; intros u log Hc; cbn [run]; [by intros [= <- _]|].
  destruct (step u e k) as [[u1 effects] a] eqn:Hs. destruct (run u1 calls) as [u2 log'] eqn:Hr.
  intros [= <- _]. eapply IH; [|exact Hr]. by apply (step_spec c _ _ _ _ _ _ Hc Hs).
Qed.

Lemma run_keys c u calls u' log id :
  configured c u → run u calls = (u', log) →
  default [] (S3PipelineUploader.dump_keys u' !! id) =
  foldl (add_listed id) (default [] (S3PipelineUploader.dump_keys u !! id)) log.
Proof.
  revert u log. induction calls as [|[e k] calls IH]; intros u log Hc; cbn [run]; [by intros [= <- <-]|].
  destruct (step u e k) as [[u1 effects] a] eqn:Hs. destruct (run u1 calls) as [u2 log'] eqn:Hr.
  intros [= <- <-]. cbn [foldl]. rewrite <- (step_keys c u e k u1 effects a id Hc Hs).
  apply IH; [|exact Hr]. by apply (step_spec c _ _ _ _ _ _ Hc Hs).
Qed.

Lemma run_entry c client calls u' log x :
  run (S3PipelineUploader.new c client) calls = (u', log) → x ∈ log →
  ∃ before, before `prefix_of` log ∧ entry_ok c (λ id, since id before) x.
Proof.
  intros Hr Hx. apply list_elem_of_split in Hx as (before & after & ->).
  destruct (run_split _ _ _ _ _ _ Hr) as (calls1 & u1 & u2 & H1 & H2).
  assert (configured c (S3PipelineUploader.new c client)) as Hc by done.
  pose proof (run_configured c _ _ _ _ Hc H1) as Hc1.
  destruct (step_spec c _ _ _ _ _ _ Hc1 H2) as [_ Hok]. exists before. split; [by eexists|].
  unfold entry_ok in *. destruct x as [e k effects a]. cbn [Entry.made Entry.env Entry.effects Entry.answered] in *.
  destruct k; [done..|]. by rewrite (run_keys c _ _ _ _ _ Hc H1) in Hok.
Qed.

(** C22: A segment's file is removed only once S3 holds the segment: in any run
    of the stage, whatever the SDK, the file system and the clocks answer, a
    file is removed only by the call that processed its segment, after a put of
    the segment's whole payload under its key was confirmed; a segment the
    stage reports as done was put so, or is passed on unchanged because uploads
    are disabled; and an error that will be retried leaves the file alone. *)
Theorem removed_after_stored c client calls u' log x :
  run (S3PipelineUploader.new c client) calls = (u', log) → x ∈ log →
  (∀ p reply, Remove p reply ∈ Entry.effects x →
     ∃ data, Entry.made x = Process (Some p) data ∧
       Entry.effects x = [Put (put_request c data (Env.order (Entry.env x))) Stored; Remove p reply]) ∧
  (∀ p data data', Entry.made x = Process p data → Entry.answered x = Processed data' (Ok tt) →
     (data' = data ∧ Entry.effects x = []) ∨
     ∃ rest, Entry.effects x = Put (put_request c data (Env.order (Entry.env x))) Stored :: rest) ∧
  (∀ data' kind, Entry.answered x = Processed data' (Err kind) → retryable kind = true →
     ∀ p reply, Remove p reply ∉ Entry.effects x).
Proof.
  intros Hr Hx. destruct (run_entry _ _ _ _ _ _ Hr Hx) as (before & _ & Hok).
  destruct x as [e k effects a]. unfold entry_ok in Hok. cbn [Entry.made Entry.env Entry.effects Entry.answered] in *.
  destruct k as [|path data|completion].
  - subst effects. split_and!; [by intros p reply H%not_elem_of_nil|done|].
    by intros data' kind _ _ p reply H%not_elem_of_nil.
  - unfold process_entry in Hok. cbn [Entry.env Entry.effects Entry.answered] in Hok.
    destruct effects as [|[req [|err text]|p1 reply1] [|[|p' reply'] [|]]]; try done.
    + split_and!; [by intros p reply H%not_elem_of_nil| |by intros data' kind _ _ p reply H%not_elem_of_nil].
      intros p data0 data' [= -> ->] Ha. left. by rewrite (Hok _ Ha).
    + destruct Hok as (-> & -> & Ha). split_and!.
      * by intros p reply [|H%not_elem_of_nil]%elem_of_cons.
      * intros p data0 data' [= <- <-] _. right. by eexists.
      * intros data' kind Ha'. by rewrite Ha in Ha'.
    + destruct Hok as (-> & -> & Ha). split_and!.
      * intros p reply [|[H|H%not_elem_of_nil]%elem_of_cons]%elem_of_cons; [done| |done].
        injection H as -> ->. by exists data.
      * intros p data0 data' [= <- <-] _. right. by eexists.
      * intros data' kind Ha'. rewrite Ha in Ha'. destruct reply'; [discriminate Ha'..|].
        injection Ha' as _ <-. discriminate 1.
    + destruct Hok as [-> Ha]. split_and!.
      * by intros p reply [|H%not_elem_of_nil]%elem_of_cons.
      * intros p data0 data' _ Ha'. by rewrite Ha in Ha'.
      * by intros data' kind _ _ p reply [|H%not_elem_of_nil]%elem_of_cons.
  - unfold finalize_entry in Hok. cbn [Entry.effects Entry.answered] in Hok.
    destruct effects as [|[req reply'|p' reply'] [|]]; try done.
    + split_and!; [by intros p reply H%not_elem_of_nil|done|by intros data' kind _ _ p reply H%not_elem_of_nil].
    + split_and!; [by intros p reply [|H%not_elem_of_nil]%elem_of_cons|done|].
      by intros data' kind _ _ p reply [|H%not_elem_of_nil]%elem_of_cons.
Qed.

Lemma since_stored id log key :
  key ∈ since id log →
  ∃ x req rest data, x ∈ log ∧ Entry.made x = Process (data.1) (data.2) ∧ id ∈ dump_ids (data.2) ∧
    Entry.effects x = Put req Stored :: rest ∧ key = PutRequest.key req.
Proof.
  unfold since. induction log as [|x log IH] using rev_ind; [by intros H%not_elem_of_nil|].
  rewrite foldl_app. cbn [foldl]. unfold add_listed at 1, listed. intros Hk.
  assert (key ∈ foldl (add_listed id) [] log ∨
    ∃ path data req rest, Entry.made x = Process path data ∧ id ∈ dump_ids data ∧
      Entry.effects x = Put req Stored :: rest ∧ key = PutRequest.key req) as [H|(path & data & req & rest & H)].
  { destruct (Entry.made x) as [|path data|completion].
    - left. by rewrite app_nil_r in Hk.
    - destruct (Entry.answered x) as [|data' [[]|kind]| |]; rewrite ?app_nil_r in Hk; try by left.
      destruct (Entry.effects x) as [|[req [|err text]|p reply] rest]; rewrite ?app_nil_r in Hk; try by left.
      apply elem_of_app in Hk as [Hk|Hk]; [by left|right]. apply list_elem_of_fmap in Hk as (i & -> & Hi).
      apply list_elem_of_filter in Hi as [-> Hi]. by exists path, data, req, rest.
    - case_bool_decide; [by apply not_elem_of_nil in Hk|by left]. }
  - destruct (IH H) as (x0 & req & rest & data & Hx0 & Hrest). exists x0, req, rest, data. split; [|done].
    apply elem_of_app. by left.
  - exists x, req, rest, (path, data). split; [apply elem_of_app; right; by left|done].
Qed.


(** ** The pace of the attempts *)

Definition attempted (x : Entry.t) : bool := negb (bool_decide (length (Entry.effects x) = 0%nat)).

Definition went_wrong (x : Entry.t) : bool :=
  match Entry.answered x with Processed _ (Err _) | Finalized None => true | _ => false end.

(** The attempts that failed since one succeeded: how many besides the last,
    and when the last one failed. *)
Definition count_failure (failures : option (nat * Z)) (x : Entry.t) : option (nat * Z) :=
  if attempted x then
    if went_wrong x
    then Some (match failures with Some (n, _) => S n | None => 0%nat end, Env.failed_at (Entry.env x))
    else None
  else failures.

Definition failures (log : list Entry.t) : option (nat * Z) := foldl count_failure None log.

(** The pause after the [n]-th failure in a row, from none. *)
Definition pace (n : nat) : Z := Z.min (INITIAL_BACKOFF * 2 ^ Z.of_nat n) MAX_BACKOFF.

Lemma pace_next n : Z.min (pace n * 2) MAX_BACKOFF = pace (S n).
Proof.
  unfold pace, INITIAL_BACKOFF, MAX_BACKOFF, SECOND. rewrite Nat2Z.inj_succ, Z.pow_succ_r by lia. lia.
Qed.

Definition open_after (failures : option (nat * Z)) : CircuitBreaker.t :=
  match failures with
  | None => CircuitBreaker.Closed
  | Some (n, last) => CircuitBreaker.Open (last + pace n) (pace n)
  end.

Lemma open_after_failure now f :
  CircuitBreaker.on_failure now (open_after f) =
  open_after (Some (match f with Some (n, _) => S n | None => 0%nat end, now)).
Proof.
  destruct f as [[n last]|]; [|done]. unfold CircuitBreaker.on_failure, open_after. cbv beta iota zeta.
  by rewrite pace_next.
Qed.

Lemma step_breaker c u e k u' effects a f :
  configured c u → step u e k = (u', effects, a) → breaker_of u = open_after f →
  let x := Entry.mk e k effects a in
  breaker_of u' = open_after (count_failure f x) ∧
  (attempted x = true → CircuitBreaker.should_attempt (Env.attempt_at e) (open_after f) = true) ∧
  (∀ data, a = Processed data (Err (Transfer (lit "circuit breaker open") true)) → effects = [] →
   CircuitBreaker.should_attempt (Env.attempt_at e) (open_after f) = false).
Proof.
  intros Hc Hs Hf. cbn zeta. unfold count_failure, attempted, went_wrong. cbn [Entry.effects Entry.answered Entry.env].
  destruct k as [|path data|completion]; cbn [step] in Hs.
  - destruct (ensure_initialized e u) as [[r|] u1] eqn:He; injection Hs as <- <- <-;
      destruct (ensure_spec c _ _ _ _ Hc He) as (_ & _ & Hb & _); rewrite Hb; by split_and!.
  - unfold process in Hs. destruct (ensure_initialized e u) as [r u1] eqn:He.
    destruct (ensure_spec c _ _ _ _ Hc He) as (Hc1 & Hk & Hb & Hr).
    destruct r as [[[]|err]|]; [|injection Hs as <- <- <-; rewrite Hb; by split_and!..].
    destruct (S3PipelineUploader.is_disabled u1) eqn:Hd; [injection Hs as <- <- <-; rewrite Hb; by split_and!|].
    rewrite (Hr eq_refl eq_refl), Hf in Hs.
    destruct (CircuitBreaker.should_attempt _ _) eqn:Ha; cbn [negb] in Hs;
      [|injection Hs as <- <- <-; rewrite Hb; by split_and!].
    unfold upload_and_delete in Hs. destruct (Env.put e) as [|err text].
    + destruct path as [p|]; [destruct (Env.remove e)|]; injection Hs as <- <- <-; cbn;
        rewrite ?open_after_failure; by split_and!.
    + injection Hs as <- <- <-. cbn. rewrite open_after_failure. by split_and!.
  - unfold finalize_dump in Hs. set (u0 := S3PipelineUploader.mk _ _) in *.
    assert (configured c u0) as Hc0 by exact Hc. assert (breaker_of u0 = breaker_of u) as Hb0 by done.
    destruct (DumpCompletion.failed completion); [injection Hs as <- <- <-; by split_and!|].
    destruct (ensure_initialized e u0) as [r u1] eqn:He. destruct (ensure_spec c _ _ _ _ Hc0 He) as (Hc1 & Hk & Hb & Hr).
    rewrite Hb0 in Hb, Hr.
    destruct r as [[[]|err]|]; [|injection Hs as <- <- <-; rewrite Hb; by split_and!..].
    destruct (S3PipelineUploader.is_disabled u1) eqn:Hd.
    { unfold S3PipelineUploader.is_disabled in Hd. destruct (S3PipelineUploader.state u1); [done..|].
      injection Hs as <- <- <-. rewrite Hb. by split_and!. }
    rewrite (Hr eq_refl eq_refl), Hf in Hs.
    destruct (CircuitBreaker.should_attempt _ _) eqn:Ha; cbn [negb] in Hs;
      [|injection Hs as <- <- <-; rewrite Hb; by split_and!].
    destruct (manifest_json _); [|injection Hs as <- <- <-; rewrite Hb; by split_and!].
    destruct (Env.put e); injection Hs as <- <- <-; cbn; rewrite ?open_after_failure; by split_and!.
Qed.

Lemma run_breaker c u calls u' log f :
  configured c u → breaker_of u = open_after f → run u calls = (u', log) →
  breaker_of u' = open_after (foldl count_failure f log).
Proof.
  revert u log f. induction calls as [|[e k] calls IH]; intros u log f Hc Hf; cbn [run]; [by intros [= <- <-]|].
  destruct (step u e k) as [[u1 effects] a] eqn:Hs. destruct (run u1 calls) as [u2 log'] eqn:Hr.
  intros [= <- <-]. cbn [foldl]. destruct (step_breaker c _ _ _ _ _ _ f Hc Hs Hf) as (Hb & _).
  eapply IH; [|exact Hb|exact Hr]. by apply (step_spec c _ _ _ _ _ _ Hc Hs).
Qed.

(** C24: S3 is never spammed and never given up: after [n] failed attempts in a
    row - puts of segments or of manifests - the stage makes the next one only
    when a pause of 1 s, doubled with each failure up to 300 s, is over, and
    refuses a segment with the breaker's error only before that; waiting as
    long as [wait_until_live] asks is enough. *)
Theorem breaker_paces c client calls u' before x after :
  run (S3PipelineUploader.new c client) calls = (u', before ++ x :: after) →
  (∀ n last, failures before = Some (n, last) → attempted x = true →
     last + Z.min (SECOND * 2 ^ Z.of_nat n) (300 * SECOND) <= Env.attempt_at (Entry.env x)) ∧
  (∀ data, Entry.answered x = Processed data (Err (Transfer (lit "circuit breaker open") true)) →
     Entry.effects x = [] →
     ∃ n last, failures before = Some (n, last) ∧
       Env.attempt_at (Entry.env x) < last + Z.min (SECOND * 2 ^ Z.of_nat n) (300 * SECOND)) ∧
  ∀ now, match S3PipelineUploader.state u' with
         | UploaderState.Ready _ b => CircuitBreaker.should_attempt (now + wait_until_live now u') b = true
         | _ => wait_until_live now u' = 0
         end.
Proof.
  intros Hr. destruct (run_split _ _ _ _ _ _ Hr) as (calls1 & u1 & u2 & H1 & H2).
  assert (configured c (S3PipelineUploader.new c client)) as Hc by done.
  pose proof (run_configured c _ _ _ _ Hc H1) as Hc1.
  pose proof (run_breaker c _ _ _ _ None Hc eq_refl H1) as Hb. change (foldl _ _ before) with (failures before) in Hb.
  destruct (step_breaker c _ _ _ _ _ _ _ Hc1 H2 Hb) as (_ & Hatt & Hopen). destruct x as [e k effects a].
  cbn [Entry.env Entry.made Entry.effects Entry.answered] in *. split_and!.
  - intros n last Hf Hx. specialize (Hatt Hx). rewrite Hf in Hatt. cbn in Hatt. apply Z.leb_le in Hatt.
    unfold pace, INITIAL_BACKOFF, MAX_BACKOFF in Hatt. lia.
  - intros data Ha He. specialize (Hopen data Ha He). destruct (failures before) as [[n last]|]; [|done].
    exists n, last. split; [done|]. cbn in Hopen. apply Z.leb_gt in Hopen.
    unfold pace, INITIAL_BACKOFF, MAX_BACKOFF in Hopen. lia.
  - intros now. unfold wait_until_live. destruct (S3PipelineUploader.state u') as [| ? []|]; [done|done| |done].
    cbn. apply Z.leb_le. lia.
Qed.
End uploader.

(** ** Examples *)

Definition example_json_of (m : DumpManifest.t) : option bytes :=
  Some (lit "{" ++ DumpManifest.dump_id m ++ join_slash (DumpManifest.segments m) ++ lit "}").

Definition example_stage_run (calls : list (Env.t * call)) : S3PipelineUploader.t * list Entry.t :=
  run (Cal := gregorian_calendar) (λ _, lit "DUMP") (λ _, lit "now") example_json_of (λ _, lit "error")
    (S3PipelineUploader.new example_s3 false) calls.

Definition example_env (at_ : Z) (put : put_reply) : Env.t :=
  Env.mk (Some (Ok tt)) true at_ put Removed (at_ + 5) map_to_list.

Definition example_segment (index : Z) : SegmentData.t :=
  SegmentData.mk index (lit "payload") (<[lit "dump_id" := lit "OTHER,DUMP"]> example_metadata).

Definition example_completion : DumpCompletion.t := DumpCompletion.mk 7 0 (0, 1) 2 [(lit "user", lit "me")] false.

Definition throttled : put_reply := PutFailed (SdkError.ServiceError 503) (lit "slow down").

Definition example_before : list (Env.t * call) :=
  [(example_env 0 Stored, Initialize);
   (example_env 10 throttled, Process (Some (lit "a.bin")) (example_segment 1));
   (example_env 500 Stored, Process (Some (lit "a.bin")) (example_segment 1));
   (example_env (2 * SECOND) Stored, Process (Some (lit "a.bin")) (example_segment 1));
   (example_env (3 * SECOND) Stored, Process None (example_segment 2))].

Definition example_last : Env.t * call := (example_env (4 * SECOND) Stored, Finalize example_completion).

Definition example_stage : S3PipelineUploader.t := fst (example_stage_run (example_before ++ [example_last])).
Definition example_log : list Entry.t := snd (example_stage_run (example_before ++ [example_last])).

Definition entry_at (n : nat) : Entry.t :=
  default (Entry.mk (example_env 0 Stored) Initialize [] Cancelled) (example_log !! n).

Lemma example_stage_runs : example_stage_run (example_before ++ [example_last]) = (example_stage, example_log).
Proof. unfold example_stage, example_log. by destruct (example_stage_run _). Defined.

Lemma entry_in n : (n < 6)%nat → example_log !! n = Some (entry_at n).
Proof.
  intros Hn. assert (length example_log = 6%nat) as Hl by (vm_compute; reflexivity).
  unfold entry_at. destruct (example_log !! n) as [x|] eqn:E; [reflexivity|].
  apply lookup_ge_None_1 in E. lia.
Qed.

Lemma example_split n : (n < 6)%nat →
  example_stage_run (example_before ++ [example_last]) =
  (example_stage, take n example_log ++ entry_at n :: drop (S n) example_log).
Proof. intros Hn. rewrite (take_drop_middle _ _ _ (entry_in n Hn)). apply example_stage_runs. Qed.

Lemma removed_after_stored_witness :
  ∃ data, Entry.made (entry_at 3) = Process (Some (lit "a.bin")) data ∧
    Entry.effects (entry_at 3) =
      [Put (put_request (Cal := gregorian_calendar) example_s3 data (Env.order (Entry.env (entry_at 3)))) Stored;
       Remove (lit "a.bin") Removed].
Proof.
  destruct (removed_after_stored (Cal := gregorian_calendar) (λ _, lit "DUMP") (λ _, lit "now") example_json_of
    (λ _, lit "error") example_s3 false (example_before ++ [example_last]) example_stage example_log (entry_at 3)
    example_stage_runs (list_elem_of_lookup_2 _ 3 _ (entry_in 3 ltac:(lia)))) as [Hremoved _].
  apply (Hremoved (lit "a.bin") Removed). assert (existsb (λ e,
    match e with Remove p Removed => bool_decide (p = lit "a.bin") | _ => false end) (Entry.effects (entry_at 3)) = true) as H
    by (vm_compute; reflexivity).
  apply existsb_exists in H as ([|p []] & Hin & Hp); try discriminate Hp. apply bool_decide_eq_true in Hp as <-.
  by apply list_elem_of_In.
Defined.


Lemma breaker_paces_witness :
  failures (take 3 example_log) = Some (0%nat, 15) ∧
  15 + Z.min (SECOND * 2 ^ Z.of_nat 0) (300 * SECOND) <= Env.attempt_at (Entry.env (entry_at 3)).
Proof.
  assert (failures (take 3 example_log) = Some (0%nat, 15)) as Hf by (vm_compute; reflexivity).
  assert (attempted (entry_at 3) = true) as Ha by (vm_compute; reflexivity). split; [exact Hf|].
  destruct (breaker_paces (Cal := gregorian_calendar) (λ _, lit "DUMP") (λ _, lit "now") example_json_of
    (λ _, lit "error") example_s3 false (example_before ++ [example_last]) example_stage (take 3 example_log)
    (entry_at 3) _ (example_split 3 ltac:(lia))) as [Hpace _]. exact (Hpace 0%nat 15 Hf Ha).
Defined.
