(* ===== verification/PartKeys.v ===== *)
(** * Part files and scopes of the viewer (dial9-viewer/src/ingest/aggregate.rs)

    Where the parts of a folded source file are stored, which source files a
    query's scope selects and in which order they are folded.  BLAKE3 is a
    parameter. *)

From Stdlib Require Import ZArith Lia.
From stdpp Require Import base list strings option sorting.
From coqutil Require Import Byte.
From S2P Require Import Prelude.
From S2P Require Import Text.
From S2P Require Import SamplingConfig.
From S2P Require Import Paths.
From S2P Require Import ObjectKeys.
From S2P Require Import Storage.
From S2P Require Import SourceLayout.

Definition ORDER_VERSION : Z := 1.
Definition SAMPLES_FORMAT_VERSION : Z := 11.
Definition NANOS : Z := 1000000000.

(** [a.saturating_op(b)] of [i64]s. *)
Definition clamp_i64 (v : Z) : Z := Z.max (- 2 ^ 63) (Z.min v I64_MAX).

(** The hash, 32 bytes. *)
Class Blake3 : Type := {
  blake3 : bytes → bytes;
  blake3_length s : length (blake3 s) = 32%nat }.

(** [to_hex]. *)
Definition to_hex (s : bytes) : bytes := s ≫= λ b, hex_fixed 2 (b2z b).

Definition bucket_segment (source_bucket : bytes) : bytes :=
  (λ c, if bool_decide (c = SLASH) then z2b 95 else c) <$> source_bucket.

Definition parse_source_bucket (source_key : bytes) : bytes :=
  match strip_prefix (lit "s3://") source_key with
  | Some rest => match split_once [SLASH] rest with Some (b, _) => b | None => rest end
  | None => lit "local"
  end.

Definition versioned_root (output_prefix source_bucket : bytes) : bytes :=
  trim_end_char SLASH output_prefix ++ lit "/v" ++ put_dec SAMPLES_FORMAT_VERSION ++ lit "/bucket=" ++
    bucket_segment source_bucket.

(** The part files of one source file, the [samples] part being the record that
    it is folded. *)
Inductive part : Set := Samples | Dict | Polls | Spans.

#[global] Instance part_eq_dec : EqDecision part.
Proof. solve_decision. Defined.

Section hash.
Context {H : Blake3}.

Definition order_key (source_key : bytes) : bytes :=
  take 16 (blake3 (put_le 4 ORDER_VERSION ++ source_key)).

Definition part_leaf_of (source_key : bytes) : bytes := take 32 (to_hex (blake3 source_key)).

(** [samples_part_key] and [spans_part_key]; [None] is the panic of
    [required_scope_fields]. *)
Definition scoped_part_key (table : string) (output_prefix source_key : bytes) : option bytes :=
  '(date, service, host) ← scope_fields source_key;
  Some (versioned_root output_prefix (parse_source_bucket source_key) ++ lit "/" ++ lit table ++
    lit "/service=" ++ hive_escape service ++ lit "/date=" ++ hive_escape date ++
    lit "/host=" ++ hive_escape host ++ lit "/" ++ part_leaf_of source_key ++ lit ".parquet").

Definition samples_part_key : bytes → bytes → option bytes := scoped_part_key "samples".
Definition spans_part_key : bytes → bytes → option bytes := scoped_part_key "spans".

Definition dict_part_key (output_prefix source_key : bytes) : bytes :=
  versioned_root output_prefix (parse_source_bucket source_key) ++ lit "/dict/stacks/" ++
    part_leaf_of source_key ++ lit ".parquet".

Definition polls_part_key (output_prefix source_key : bytes) : bytes :=
  versioned_root output_prefix (parse_source_bucket source_key) ++ lit "/polls/" ++
    part_leaf_of source_key ++ lit ".parquet".

Definition part_key (p : part) (output_prefix source_key : bytes) : option bytes :=
  match p with
  | Samples => samples_part_key output_prefix source_key
  | Spans => spans_part_key output_prefix source_key
  | Dict => Some (dict_part_key output_prefix source_key)
  | Polls => Some (polls_part_key output_prefix source_key)
  end.
End hash.

Definition samples_prefix (output_prefix source_bucket : bytes) : bytes :=
  versioned_root output_prefix source_bucket ++ lit "/samples/".

Definition folded_set_prefix (output_prefix source_bucket : bytes) (service : option bytes) : bytes :=
  match service with
  | Some service => samples_prefix output_prefix source_bucket ++ lit "service=" ++ hive_escape service ++ lit "/"
  | None => samples_prefix output_prefix source_bucket
  end.

(** ** Scopes *)

Module Scope.
Record t : Type := mk {
  start_ns : option Z; end_ns : option Z; service : option bytes; hosts : list bytes }.
End Scope.

Definition host_of (key : bytes) : option bytes := snd <$> scope_fields key.

(** The last word of a path. *)
Definition file_of (key : bytes) : bytes := default [] (list.last (split_on SLASH key)).

Definition parse_epoch_secs (key : bytes) : option Z :=
  stem ← head (split_on (z2b 46) (file_of key));
  ts ← head (split_on (z2b 45) stem);
  parse_int 64 ts.

Definition time_matches (scope : Scope.t) (segment_duration_secs epoch_secs : Z) : bool :=
  let file_start_ns := clamp_i64 (epoch_secs * NANOS) in
  let file_end_ns := clamp_i64 (wrapping_i64 (epoch_secs + segment_duration_secs) * NANOS) in
  match Scope.start_ns scope with Some start => negb (file_end_ns <=? start) | None => true end &&
  match Scope.end_ns scope with Some stop => negb (stop <=? file_start_ns) | None => true end.

Definition scope_matches (key : bytes) (scope : Scope.t) (segment_duration_secs : Z) : bool :=
  match scope_fields key with
  | None => false
  | Some (_, service, host) =>
      match Scope.service scope with Some want => bool_decide (service = want) | None => true end &&
      (bool_decide (Scope.hosts scope = []) || existsb (λ h, bool_decide (h = host)) (Scope.hosts scope)) &&
      (if bool_decide (is_Some (Scope.start_ns scope)) || bool_decide (is_Some (Scope.end_ns scope)) then
         match parse_epoch_secs key with
         | None => true
         | Some epoch_secs => time_matches scope segment_duration_secs epoch_secs
         end
       else true)
  end.

(** [sort_by_key]: stable. *)
Section sort.
Context {A : Type} (key : A → bytes).

Fixpoint insert_by_key (x : A) (l : list A) : list A :=
  match l with
  | [] => [x]
  | y :: l' => if str_ltb (key y) (key x) then y :: insert_by_key x l' else x :: l
  end.

Definition sort_by_key (l : list A) : list A := foldr insert_by_key [] l.
End sort.

Section order.
Context {H : Blake3}.

Definition matched_and_ordered (objects : list ObjectInfo.t) (scope : Scope.t) (segment_duration_secs : Z) :
    list ObjectInfo.t :=
  sort_by_key (λ o, order_key (ObjectInfo.key o))
    (filter (λ o, is_trace_segment (ObjectInfo.key o) = true ∧
                  scope_matches (ObjectInfo.key o) scope segment_duration_secs = true) objects).

(** The total is a sum of [u64]s. *)
Definition ordered_full_keys_with_size (objects : list ObjectInfo.t) (scope : Scope.t)
    (segment_duration_secs : Z) (source_is_local : bool) (source_bucket : bytes) : list (bytes * bytes) * Z :=
  let matched := matched_and_ordered objects scope segment_duration_secs in
  ((λ o, (ObjectInfo.key o, full_source_key source_is_local source_bucket (ObjectInfo.key o))) <$> matched,
   foldl (λ total o, cast 64 (total + Z.max 0 (ObjectInfo.size o))) 0 matched).
End order.

(** ** Sorting *)

Section sorted.
Context {A : Type} (key : A → bytes).

Lemma insert_by_key_perm x l : insert_by_key key x l ≡ₚ x :: l.
Proof.
  induction l as [|y l IH]; [done|]. cbn [insert_by_key].
  destruct (str_ltb _ _); [|done]. rewrite IH. apply Permutation_swap.
Qed.

Lemma sort_by_key_perm l : sort_by_key key l ≡ₚ l.
Proof. induction l as [|x l IH]; [done|]. cbn [sort_by_key foldr]. by rewrite insert_by_key_perm, IH. Qed.

Lemma insert_by_key_sorted x l :
  StronglySorted (λ a b, str_le (key a) (key b)) l →
  StronglySorted (λ a b, str_le (key a) (key b)) (insert_by_key key x l).
Proof.
  induction 1 as [|y l Hs IH Hy]; cbn [insert_by_key]; [by repeat constructor|].
  destruct (str_ltb (key y) (key x)) eqn:E.
  - constructor; [done|]. rewrite insert_by_key_perm. constructor; [|done]. by apply str_ltb_asym.
  - constructor; [by constructor|]. constructor; [done|]. eapply list.Forall_impl; [exact Hy|].
    intros z Hz. cbn. by transitivity (key y).
Qed.

Lemma sort_by_key_sorted l : StronglySorted (λ a b, str_le (key a) (key b)) (sort_by_key key l).
Proof. induction l; [constructor|]. by apply insert_by_key_sorted. Qed.
End sorted.

Lemma elem_of_sort_by_key {A} (key : A → bytes) x l : x ∈ sort_by_key key l ↔ x ∈ l.
Proof. by rewrite sort_by_key_perm. Qed.

(** ** The keys of parts *)

Lemma hex_char_no_slash d : 0 <= d < 16 → hex_char d <> SLASH.
Proof.
  intros Hd. assert (d ∈ seqZ 0 16) as Hin by (apply elem_of_seqZ; lia).
  revert d Hin Hd. apply (list.Forall_forall (λ d, 0 <= d < 16 → hex_char d <> SLASH)).
  repeat constructor; by vm_compute.
Qed.

Lemma hex_fixed_no_slash w n : SLASH ∉ hex_fixed w n.
Proof.
  revert n. induction w as [|w IH]; intros n; cbn [hex_fixed]; [apply not_elem_of_nil|].
  rewrite elem_of_app. intros [H|H]; [by apply IH in H|]. apply list_elem_of_singleton in H.
  by apply (hex_char_no_slash (n mod 16)); [apply Z.mod_pos_bound|].
Qed.

Lemma to_hex_no_slash s : SLASH ∉ to_hex s.
Proof.
  unfold to_hex. rewrite list_elem_of_bind. intros (b & Hb & _). by apply hex_fixed_no_slash in Hb.
Qed.

(** The words of a part's key behind the root; [None] as in [part_key]. *)
Definition part_words {H : Blake3} (p : part) (k : bytes) : option (list bytes) :=
  let file := part_leaf_of k ++ lit ".parquet" in
  let scoped table :=
    '(date, service, host) ← scope_fields k;
    Some [lit table; lit "service=" ++ hive_escape service; lit "date=" ++ hive_escape date;
          lit "host=" ++ hive_escape host; file] in
  match p with
  | Samples => scoped "samples"%string
  | Spans => scoped "spans"%string
  | Dict => Some [lit "dict"; lit "stacks"; file]
  | Polls => Some [lit "polls"; file]
  end.

Section keys.
Context {H : Blake3}.

Lemma part_key_words p prefix k :
  part_key p prefix k =
  words ← part_words p k;
  Some (versioned_root prefix (parse_source_bucket k) ++ SLASH :: join_slash words).
Proof.
  destruct p; cbn [part_key part_words]; unfold samples_part_key, spans_part_key, scoped_part_key;
    [destruct (scope_fields k) as [[[date service] host]|]; [|done]| | |
     destruct (scope_fields k) as [[[date service] host]|]; [|done]];
    cbn [mbind option_bind]; f_equal; unfold dict_part_key, polls_part_key; f_equal;
    cbn [join_slash concat fmap list_fmap app]; rewrite ?app_nil_r, <- ?app_assoc; reflexivity.
Qed.

Lemma leaf_file_no_slash k : SLASH ∉ part_leaf_of k ++ lit ".parquet".
Proof.
  rewrite elem_of_app. intros [Hin|Hin].
  - unfold part_leaf_of in Hin. apply list_elem_of_lookup in Hin as [i Hi]. apply lookup_take_Some in Hi as [Hi _].
    apply list_elem_of_lookup_2 in Hi. by apply to_hex_no_slash in Hi.
  - revert Hin. apply (bool_decide_unpack _). by vm_compute.
Qed.

Lemma no_slash_value l v : SLASH ∉ lit l → SLASH ∉ lit l ++ hive_escape v.
Proof.
  intros Hl. rewrite elem_of_app. intros [Hin|Hin]; [exact (Hl Hin)|]. exact (proj1 (hive_escape_plain v) Hin).
Qed.

Lemma part_words_no_slash p k words : part_words p k = Some words → words <> [] ∧ Forall (λ w, SLASH ∉ w) words.
Proof.
  pose proof (leaf_file_no_slash k) as Hf.
  assert (∀ table (o : option (bytes * bytes * bytes)), SLASH ∉ lit table →
    (('(date, service, host) ← o;
      Some [lit table; lit "service=" ++ hive_escape service; lit "date=" ++ hive_escape date;
            lit "host=" ++ hive_escape host; part_leaf_of k ++ lit ".parquet"]) = Some words) →
    words <> [] ∧ Forall (λ w, SLASH ∉ w) words) as Hscoped.
  { intros table [[[date service] host]|] Ht H1; [|discriminate H1]. apply (inj Some) in H1 as <-. split; [discriminate|].
    repeat apply list.Forall_cons_2; [exact Ht|apply no_slash_value; no_slash..|exact Hf|apply list.Forall_nil_2]. }
  destruct p; cbn [part_words]; intros Hw; try (eapply Hscoped, Hw; no_slash);
    apply (inj Some) in Hw as <-; (split; [discriminate|]); repeat apply list.Forall_cons_2;
    try exact Hf; try apply list.Forall_nil_2; no_slash.
Qed.

Lemma part_key_split p prefix k a :
  part_key p prefix k = Some a →
  ∃ words, part_words p k = Some words ∧
    a = versioned_root prefix (parse_source_bucket k) ++ SLASH :: join_slash words ∧
    split_on SLASH a = split_on SLASH (versioned_root prefix (parse_source_bucket k)) ++ words.
Proof.
  rewrite part_key_words. destruct (part_words p k) as [words|] eqn:E; [|done].
  cbn [mbind option_bind]. intros [= <-]. exists words. split_and!; [done..|].
  destruct (part_words_no_slash _ _ _ E). by rewrite split_on_app_gen, split_join.
Qed.

(** Every key of a part ends in a word that tells the part and in its leaf. *)
Definition part_mark (p : part) (w : bytes) : Prop :=
  match p with
  | Samples | Spans => ∃ host, w = lit "host=" ++ hive_escape host
  | Dict => w = lit "stacks"
  | Polls => w = lit "polls"
  end.

Lemma part_words_last p k words :
  part_words p k = Some words →
  ∃ front w, words = front ++ [w; part_leaf_of k ++ lit ".parquet"] ∧ part_mark p w ∧
    (p = Samples ∨ p = Spans → length front = 3%nat ∧
       head front = Some (if bool_decide (p = Samples) then lit "samples" else lit "spans")).
Proof.
  destruct p; cbn [part_words]; intros Hw;
    try (destruct (scope_fields k) as [[[date service] host]|]; [|discriminate Hw]);
    cbn [mbind option_bind] in Hw; apply (inj Some) in Hw as <-.
  - exists [lit "samples"; lit "service=" ++ hive_escape service; lit "date=" ++ hive_escape date]. eexists.
    split; [reflexivity|]. split; [by exists host|]. intros _. split; reflexivity.
  - exists [lit "dict"]. eexists. split; [reflexivity|]. split; [reflexivity|]. intros [Hp|Hp]; discriminate Hp.
  - exists []. eexists. split; [reflexivity|]. split; [reflexivity|]. intros [Hp|Hp]; discriminate Hp.
  - exists [lit "spans"; lit "service=" ++ hive_escape service; lit "date=" ++ hive_escape date]. eexists.
    split; [reflexivity|]. split; [by exists host|]. intros _. split; reflexivity.
Qed.

Lemma mark_apart w p q : part_mark p w → part_mark q w →
  p = q ∨ (p = Samples ∧ q = Spans) ∨ (p = Spans ∧ q = Samples).
Proof.
  intros Hp Hq. destruct p, q; cbn [part_mark] in Hp, Hq; try (by left); try (right; left; done);
    try (right; right; done);
    repeat match goal with Hh : ∃ _, _ |- _ => destruct Hh as [? ?] end; subst; exfalso;
    match goal with Hh : _ = _ |- _ => discriminate Hh end.
Qed.

(** Keys of parts are equal only for the same part and the same leaf. *)
Lemma part_keys_apart p q prefix prefix' k k' a :
  part_key p prefix k = Some a → part_key q prefix' k' = Some a →
  p = q ∧ part_leaf_of k = part_leaf_of k'.
Proof.
  intros Hp Hq. destruct (part_key_split _ _ _ _ Hp) as (words & Hw & _ & Hs).
  destruct (part_key_split _ _ _ _ Hq) as (words' & Hw' & _ & Hs'). rewrite Hs in Hs'.
  destruct (part_words_last _ _ _ Hw) as (front & w & -> & Hm & Hf).
  destruct (part_words_last _ _ _ Hw') as (front' & w' & -> & Hm' & Hf').
  rewrite !app_assoc in Hs'. apply app_inj_2 in Hs' as [Hs' He]; [|reflexivity].
  assert (w = w') as <- by congruence.
  assert (part_leaf_of k = part_leaf_of k') as Hl.
  { assert (part_leaf_of k ++ lit ".parquet" = part_leaf_of k' ++ lit ".parquet") as H1 by congruence.
    by apply app_inv_tail in H1. }
  split; [|exact Hl]. destruct (mark_apart _ _ _ Hm Hm') as [->|Hx]; [done|]. exfalso.
  assert ((p = Samples ∨ p = Spans) ∧ (q = Samples ∨ q = Spans)) as [Hps Hqs]
    by (destruct Hx as [[-> ->]|[-> ->]]; split; auto).
  destruct (Hf Hps) as [Hlen Hhd], (Hf' Hqs) as [Hlen' Hhd'].
  apply app_inj_2 in Hs' as [_ He']; [|congruence]. rewrite He', Hhd' in Hhd.
  destruct Hx as [[-> ->]|[-> ->]]; discriminate Hhd.
Qed.

(** The record of a fold determines where its other parts are. *)
Lemma marker_determines prefix prefix' k k' a :
  part_key Samples prefix k = Some a → part_key Samples prefix' k' = Some a →
  ∀ q, part_key q prefix k = part_key q prefix' k'.
Proof.
  intros Hp Hq. destruct (part_keys_apart _ _ _ _ _ _ _ Hp Hq) as [_ Hl].
  destruct (part_key_split _ _ _ _ Hp) as (words & Hw & Ha & Hs).
  destruct (part_key_split _ _ _ _ Hq) as (words' & Hw' & Ha' & Hs'). rewrite Hs in Hs'.
  apply app_inj_2 in Hs' as [_ He].
  2: { destruct (part_words_last _ _ _ Hw) as (f & w & -> & _ & Hf).
       destruct (part_words_last _ _ _ Hw') as (f' & w' & -> & _ & Hf').
       rewrite !length_app. destruct (Hf (or_introl eq_refl)) as [-> _], (Hf' (or_introl eq_refl)) as [-> _]. reflexivity. }
  subst words'. rewrite Ha in Ha'. apply app_inv_tail in Ha'.
  intros q. rewrite !part_key_words, Ha'. cbn [part_words] in Hw, Hw'.
  destruct (scope_fields k) as [[[date service] host]|] eqn:Ek; [|discriminate Hw].
  destruct (scope_fields k') as [[[date' service'] host']|] eqn:Ek'; [|discriminate Hw'].
  cbn [mbind option_bind] in Hw, Hw'. rewrite <- Hw' in Hw. apply (inj Some) in Hw.
  injection Hw as H1 H2 H3 _. apply hive_escape_inj in H1, H2, H3.
  subst. destruct q; cbn [part_words]; rewrite ?Ek, ?Ek', Hl; reflexivity.
Qed.

(** ** Listings of markers *)

(** The leaf of a listed key. *)
Definition leaf_of_listed (key : bytes) : option bytes := strip_suffix (lit ".parquet") (file_of key).

Lemma file_of_last a words w : split_on SLASH a = words ++ [w] → file_of a = w.
Proof. intros Hs. unfold file_of. by rewrite Hs, list.last_snoc. Qed.

Lemma leaf_of_marker prefix k a : part_key Samples prefix k = Some a → leaf_of_listed a = Some (part_leaf_of k).
Proof.
  intros Hp. destruct (part_key_split _ _ _ _ Hp) as (words & Hw & _ & Hs).
  destruct (part_words_last _ _ _ Hw) as (front & w & -> & _ & _). unfold leaf_of_listed.
  rewrite (file_of_last a (split_on SLASH (versioned_root prefix (parse_source_bucket k)) ++ front ++ [w])
             (part_leaf_of k ++ lit ".parquet")).
  - apply strip_suffix_app.
  - rewrite Hs, <- !app_assoc. reflexivity.
Qed.

(** A listing for the file's bucket, of all services or of its own, has it. *)
Lemma marker_listed prefix k a service :
  part_key Samples prefix k = Some a →
  (service = None ∨ ∃ date host, scope_fields k = Some (date, default [] service, host) ∧ is_Some service) →
  starts_with (folded_set_prefix prefix (parse_source_bucket k) service) a = true.
Proof.
  cbn [part_key]. unfold samples_part_key, scoped_part_key. intros Hp Hs.
  destruct (scope_fields k) as [[[date svc] host]|]; [|discriminate Hp].
  cbn [mbind option_bind] in Hp. apply (inj Some) in Hp as <-.
  apply starts_with_true. unfold folded_set_prefix, samples_prefix.
  destruct Hs as [->|(d & h & Heq & [s ->])].
  - eexists. rewrite <- !app_assoc. reflexivity.
  - cbn [default] in Heq. injection Heq as _ -> _. eexists. rewrite <- !app_assoc. reflexivity.
Qed.
End keys.
