(* ===== verification/Fold.v ===== *)
(** * Folding source files (dial9-viewer/src/ingest/aggregate.rs)

    Any number of requests fold source files at the same time.  A fold takes
    the lock of its file, skips a file that is folded already, fetches, decodes
    on a blocking thread and writes the parts, the [samples] part last; three
    semaphores bound the stages.  Here every step between two awaits is one
    step of a task, the requests to the output store are issued, take effect
    and are answered in steps of their own, and a task may be cancelled at any
    await.  What decoding a fetched object yields is a parameter, and so are
    the objects, which do not change. *)

From Stdlib Require Import ZArith Lia.
From stdpp Require Import base list gmap sets fin_sets strings option.
From coqutil Require Import Byte.
From S2P Require Import Prelude.
From S2P Require Import ObjectKeys.
From S2P Require Import PartKeys.

(** [source] and [output] are the addresses of the backends. *)
Module AggContext.
Record t : Type := mk {
  source : Z;
  output : Z;
  source_bucket : bytes;
  source_is_local : bool;
  output_bucket : bytes;
  output_prefix : bytes;
  source_prefixes : list bytes;
  segment_duration_secs : Z }.
End AggContext.

(** Where an object is: backend, bucket, key; of a [samples] part it is the
    [FoldIdentity]. *)
Definition address : Type := Z * bytes * bytes.

#[global] Instance address_eq_dec : EqDecision address.
Proof. unfold address. apply _. Defined.
#[global] Instance address_countable : Countable address.
Proof. unfold address. apply _. Defined.

Module EncodedParts.
Record t : Type := mk { samples_buf : bytes; dict_buf : bytes; polls_buf : bytes; spans_buf : bytes }.

Definition buf (p : part) (e : t) : bytes :=
  match p with Samples => samples_buf e | Dict => dict_buf e | Polls => polls_buf e | Spans => spans_buf e end.
End EncodedParts.

(** A request that puts an object. *)
Inductive put : Set := Issued | Landed | Answered (ok : bool).

Inductive outcome : Set := Folded | Failed | Cancelled | Panicked.

(** Where a call of [fold_one] is. *)
Inductive pc : Type :=
| Start
| AwaitFile
| Checking
| AwaitInflight
| AwaitFetch
| Fetching
| AwaitCpu (b : bytes)
| Decoding (b : bytes)
| Decoded (r : option EncodedParts.t)
| WritingParts (e : EncodedParts.t) (dict polls spans : put)
| WritingMarker (e : EncodedParts.t) (samples : put)
| Leaving (r : outcome)
| Releasing (r : outcome)
| Done (r : outcome).

(** What a call holds there: the [FoldFileLock], the guard of the file's mutex,
    permits. *)
Definition has_handle (p : pc) : bool := match p with Start | Done _ => false | _ => true end.
Definition has_guard (p : pc) : bool :=
  match p with Start | AwaitFile | Leaving _ | Releasing _ | Done _ => false | _ => true end.
Definition has_inflight (p : pc) : bool :=
  match p with Checking | AwaitInflight => false | p => has_guard p end.
Definition has_fetch (p : pc) : bool := match p with Fetching => true | _ => false end.
Definition has_cpu (p : pc) : bool := match p with Decoding _ | Decoded _ => true | _ => false end.

Module Task.
Record t : Type := mk { agg : AggContext.t; raw_key : bytes; lock : nat; at_ : pc }.
Definition set_at (p : pc) (x : t) : t := mk (agg x) (raw_key x) (lock x) p.
Definition new (agg : AggContext.t) (raw_key : bytes) : t := mk agg raw_key 0 Start.
End Task.

(** The shared state: [FoldLimits] with its registry of locks, the blocking
    threads that decode, the output store, and puts whose caller is gone. *)
Module State.
Record t : Type := mk {
  tasks : list Task.t;
  files : gmap address nat;
  next_lock : nat;
  inflight : Z;
  fetch : Z;
  cpu : Z;
  blocking : gset nat;
  store : gmap address bytes;
  orphans : list (address * bytes) }.
End State.

(** [FoldLimits::new]: permits of the semaphores. *)
Module FoldLimits.
Record t : Type := mk { fetch : Z; cpu : Z; inflight : Z }.

Definition new (fetch_permits cpu_permits inflight_permits : Z) : t :=
  mk (Z.max fetch_permits 1) (Z.max cpu_permits 1) (Z.max inflight_permits 1).

Definition MAX_DECODE_CONCURRENCY : Z := 1.

Definition from_available_parallelism (available : option Z) : t :=
  let par := default 4 available in
  let cpu := Z.min par MAX_DECODE_CONCURRENCY in
  let inflight := cpu * 2 in
  new inflight cpu inflight.
End FoldLimits.

Definition b2n (b : bool) : nat := if b then 1 else 0.

(** How many tasks are where [f] holds. *)
Definition count (f : Task.t → bool) (l : list Task.t) : nat := sum_list ((λ x, b2n (f x)) <$> l).

Definition holds (h : pc → bool) (x : Task.t) : bool := h (Task.at_ x).

Definition handle_of (n : nat) (x : Task.t) : bool := has_handle (Task.at_ x) && (Task.lock x =? n)%nat.
Definition guard_of (n : nat) (x : Task.t) : bool := has_guard (Task.at_ x) && (Task.lock x =? n)%nat.

Section fold.
Context {H : Blake3}.

Definition full_key (x : Task.t) : bytes :=
  full_source_key (AggContext.source_is_local (Task.agg x)) (AggContext.source_bucket (Task.agg x)) (Task.raw_key x).

Definition part_at (p : part) (x : Task.t) : option address :=
  pair (AggContext.output (Task.agg x), AggContext.output_bucket (Task.agg x)) <$>
    part_key p (AggContext.output_prefix (Task.agg x)) (full_key x).

Definition fold_identity (x : Task.t) : option address := part_at Samples x.

(** The object of a put. *)
Definition written (p : part) (x : Task.t) (e : EncodedParts.t) : list (address * bytes) :=
  option_list ((λ a, (a, EncodedParts.buf p e)) <$> part_at p x).

(** Puts on their way, which a call that ends does not take back. *)
Definition on_the_way (x : Task.t) : list (address * bytes) :=
  let pending p e s := match s with Issued => written p x e | _ => [] end in
  match Task.at_ x with
  | WritingParts e dict polls spans => pending Dict e dict ++ pending Polls e polls ++ pending Spans e spans
  | WritingMarker e samples => pending Samples e samples
  | _ => []
  end.

Definition set_task (i : nat) (x : Task.t) (s : State.t) : State.t :=
  State.mk (<[i := x]> (State.tasks s)) (State.files s) (State.next_lock s) (State.inflight s) (State.fetch s)
    (State.cpu s) (State.blocking s) (State.store s) (State.orphans s).

Definition goto (i : nat) (x : Task.t) (p : pc) (s : State.t) : State.t := set_task i (Task.set_at p x) s.

Definition add_permits (inflight fetch cpu : Z) (s : State.t) : State.t :=
  State.mk (State.tasks s) (State.files s) (State.next_lock s) (State.inflight s + inflight)
    (State.fetch s + fetch) (State.cpu s + cpu) (State.blocking s) (State.store s) (State.orphans s).

Definition set_files (files : gmap address nat) (next_lock : nat) (s : State.t) : State.t :=
  State.mk (State.tasks s) files next_lock (State.inflight s) (State.fetch s) (State.cpu s) (State.blocking s)
    (State.store s) (State.orphans s).

Definition set_blocking (blocking : gset nat) (s : State.t) : State.t :=
  State.mk (State.tasks s) (State.files s) (State.next_lock s) (State.inflight s) (State.fetch s) (State.cpu s)
    blocking (State.store s) (State.orphans s).

Definition set_store (store : gmap address bytes) (s : State.t) : State.t :=
  State.mk (State.tasks s) (State.files s) (State.next_lock s) (State.inflight s) (State.fetch s) (State.cpu s)
    (State.blocking s) store (State.orphans s).

Definition set_orphans (orphans : list (address * bytes)) (s : State.t) : State.t :=
  State.mk (State.tasks s) (State.files s) (State.next_lock s) (State.inflight s) (State.fetch s) (State.cpu s)
    (State.blocking s) (State.store s) orphans.

(** The end of the body: permits and the guard are released, puts on their way
    are left to themselves. *)
Definition leave_fold (i : nat) (x : Task.t) (r : outcome) (s : State.t) : State.t :=
  let p := Task.at_ x in
  goto i x (Leaving r)
    (set_orphans (State.orphans s ++ on_the_way x)
       (add_permits (Z.of_nat (b2n (has_inflight p))) (Z.of_nat (b2n (has_fetch p))) (Z.of_nat (b2n (has_cpu p))) s)).

(** [Arc::strong_count] of a lock. *)
Definition strong_count (n : nat) (s : State.t) : nat := count (handle_of n) (State.tasks s).

(** [FoldLimits::file_lock], under the mutex of the registry: [Weak::upgrade]
    succeeds while someone holds the lock. *)
Definition file_lock (d : address) (s : State.t) : nat * State.t :=
  match State.files s !! d with
  | Some n =>
      if (0 <? strong_count n s)%nat then (n, s)
      else (State.next_lock s, set_files (<[d := State.next_lock s]> (State.files s)) (S (State.next_lock s)) s)
  | None => (State.next_lock s, set_files (<[d := State.next_lock s]> (State.files s)) (S (State.next_lock s)) s)
  end.

(** [FoldFileLock::drop]; the handle itself is released behind it. *)
Definition drop_lock (x : Task.t) (s : State.t) : State.t :=
  match fold_identity x with
  | Some d =>
      if (strong_count (Task.lock x) s =? 1)%nat
      then set_files (delete d (State.files s)) (State.next_lock s) s else s
  | None => s
  end.

(** ** Steps

    What others do is part of a step: whether a request succeeds, whether the
    decoder panics, when a put takes effect. *)
Inductive event : Type :=
| Call (i : nat)
| Lock (i : nat)
| Check (i : nat) (ok : bool)
| AcquireInflight (i : nat)
| AcquireFetch (i : nat)
| Fetch (i : nat) (ok : bool)
| AcquireCpu (i : nat)
| DecodeEnds (i : nat) (panicked : bool)
| Resume (i : nat)
| Lands (i : nat) (p : part)
| Answers (i : nat) (p : part) (ok : bool)
| Cancel (i : nat)
| DropLock (i : nat)
| ReleaseLock (i : nat)
| OrphanLands (n : nat).

(** The put of a part, with what becomes of the call when it changes. *)
Definition slot (p : part) (q : pc) : option (put * EncodedParts.t * (put → pc)) :=
  match q, p with
  | WritingParts e dict polls spans, Dict => Some (dict, e, λ x, WritingParts e x polls spans)
  | WritingParts e dict polls spans, Polls => Some (polls, e, λ x, WritingParts e dict x spans)
  | WritingParts e dict polls spans, Spans => Some (spans, e, λ x, WritingParts e dict polls x)
  | WritingMarker e samples, Samples => Some (samples, e, λ x, WritingMarker e x)
  | _, _ => None
  end.

Definition put_all (l : list (address * bytes)) (m : gmap address bytes) : gmap address bytes :=
  foldl (λ m '(a, v), <[a := v]> m) m l.

Definition put_lands (i : nat) (p : part) (x : Task.t) (s : State.t) : option State.t :=
  '(w, e, q) ← slot p (Task.at_ x);
  match w with
  | Issued => Some (goto i x (q Landed) (set_store (put_all (written p x e) (State.store s)) s))
  | _ => None
  end.

(** A put is answered after it took effect, or with an error at any time. *)
Definition put_answers (i : nat) (p : part) (ok : bool) (x : Task.t) (s : State.t) : option State.t :=
  '(w, e, q) ← slot p (Task.at_ x);
  match w, ok with
  | Landed, _ => Some (goto i x (q (Answered ok)) s)
  | Issued, false => Some (goto i x (q (Answered false)) (set_orphans (State.orphans s ++ written p x e) s))
  | _, _ => None
  end.

Section step.
(** The objects of the source backends, and [decode_and_encode]. *)
Variable object : Z → bytes → bytes → option bytes.
Variable decode_and_encode : bytes → bytes → option EncodedParts.t.

(** What a call does when what it waits for is there. *)
Definition resume (i : nat) (x : Task.t) (s : State.t) : option State.t :=
  match Task.at_ x with
  | Decoded (Some e) => Some (goto i x (WritingParts e Issued Issued Issued) (add_permits 0 0 1 s))
  | Decoded None => Some (leave_fold i x Failed s)
  | WritingParts e (Answered dict) (Answered polls) (Answered spans) =>
      if dict && polls && spans then Some (goto i x (WritingMarker e Issued) s) else Some (leave_fold i x Failed s)
  | WritingMarker e (Answered ok) => Some (leave_fold i x (if ok then Folded else Failed) s)
  | _ => None
  end.

(** The completion marker of the file. *)
Definition check_marker (i : nat) (ok : bool) (x : Task.t) (s : State.t) : State.t :=
  if negb ok then leave_fold i x Failed s
  else if bool_decide (is_Some (a ← fold_identity x; State.store s !! a)) then leave_fold i x Folded s
  else goto i x AwaitInflight s.

Definition fetched (i : nat) (ok : bool) (x : Task.t) (s : State.t) : State.t :=
  match (if ok then object (AggContext.source (Task.agg x)) (AggContext.source_bucket (Task.agg x)) (Task.raw_key x)
         else None) with
  | Some b => goto i x (AwaitCpu b) (add_permits 0 1 0 s)
  | None => leave_fold i x Failed s
  end.

(** The closure on a blocking thread ends, whether or not its caller waits. *)
Definition decode_ends (i : nat) (panicked : bool) (x : Task.t) (s : State.t) : State.t :=
  let s := set_blocking (State.blocking s ∖ {[i]}) s in
  match Task.at_ x with
  | Decoding b => goto i x (Decoded (if panicked then None else decode_and_encode b (full_key x))) s
  | _ => s
  end.

Definition fold_step (e : event) (i : nat) (x : Task.t) (s : State.t) : option State.t :=
  match e, Task.at_ x with
  | Call _, Start =>
      match fold_identity x with
      | None => Some (goto i x (Done Panicked) s)
      | Some d => let '(n, s) := file_lock d s in
          Some (set_task i (Task.mk (Task.agg x) (Task.raw_key x) n AwaitFile) s)
      end
  | Lock _, AwaitFile =>
      if (count (guard_of (Task.lock x)) (State.tasks s) =? 0)%nat then Some (goto i x Checking s) else None
  | Check _ ok, Checking => Some (check_marker i ok x s)
  | AcquireInflight _, AwaitInflight =>
      if 0 <? State.inflight s then Some (goto i x AwaitFetch (add_permits (-1) 0 0 s)) else None
  | AcquireFetch _, AwaitFetch =>
      if 0 <? State.fetch s then Some (goto i x Fetching (add_permits 0 (-1) 0 s)) else None
  | Fetch _ ok, Fetching => Some (fetched i ok x s)
  | AcquireCpu _, AwaitCpu b =>
      if 0 <? State.cpu s
      then Some (goto i x (Decoding b) (set_blocking ({[i]} ∪ State.blocking s) (add_permits 0 0 (-1) s)))
      else None
  | DecodeEnds _ panicked, _ =>
      if bool_decide (i ∈ State.blocking s) then Some (decode_ends i panicked x s) else None
  | Resume _, _ => resume i x s
  | Lands _ p, _ => put_lands i p x s
  | Answers _ p ok, _ => put_answers i p ok x s
  | Cancel _, Start => Some (goto i x (Done Cancelled) s)
  | Cancel _, p => if has_handle p && match p with Leaving _ | Releasing _ => false | _ => true end
                   then Some (leave_fold i x Cancelled s) else None
  | DropLock _, Leaving r => Some (goto i x (Releasing r) (drop_lock x s))
  | ReleaseLock _, Releasing r => Some (goto i x (Done r) s)
  | _, _ => None
  end.

Definition task_of (e : event) : option nat :=
  match e with
  | Call i | Lock i | Check i _ | AcquireInflight i | AcquireFetch i | Fetch i _ | AcquireCpu i | DecodeEnds i _
  | Resume i | Lands i _ | Answers i _ _ | Cancel i | DropLock i | ReleaseLock i => Some i
  | OrphanLands _ => None
  end.

Definition next (e : event) (s : State.t) : option State.t :=
  match e with
  | OrphanLands n =>
      o ← State.orphans s !! n;
      Some (set_orphans (delete n (State.orphans s)) (set_store (put_all [o] (State.store s)) s))
  | _ => i ← task_of e; x ← State.tasks s !! i; fold_step e i x s
  end.

Definition start (limits : FoldLimits.t) (calls : list (AggContext.t * bytes)) (store : gmap address bytes) : State.t :=
  State.mk ((λ '(agg, raw_key), Task.new agg raw_key) <$> calls) ∅ 0 (FoldLimits.inflight limits)
    (FoldLimits.fetch limits) (FoldLimits.cpu limits) ∅ store [].

Fixpoint run (es : list event) (s : State.t) : option State.t :=
  match es with [] => Some s | e :: es => s ← next e s; run es s end.
End step.
End fold.

(** ** Counting *)

Lemma count_cons f x l : count f (x :: l) = (b2n (f x) + count f l)%nat.
Proof. done. Qed.

Definition total (f : Task.t → nat) (l : list Task.t) : nat := sum_list (f <$> l).

Lemma total_cons f x l : total f (x :: l) = (f x + total f l)%nat.
Proof. done. Qed.

Lemma total_insert f i x y l :
  l !! i = Some x → (total f (<[i := y]> l) + f x = total f l + f y)%nat.
Proof.
  revert i. induction l as [|z l IH]; intros [|i] Hi; try discriminate Hi.
  - apply (inj Some) in Hi as ->. change (<[0%nat := y]> (x :: l)) with (y :: l). rewrite !total_cons. lia.
  - change (<[S i := y]> (z :: l)) with (z :: <[i := y]> l). specialize (IH i Hi). rewrite !total_cons. lia.
Qed.

Lemma count_insert f i x y l :
  l !! i = Some x → (count f (<[i := y]> l) + b2n (f x) = count f l + b2n (f y))%nat.
Proof. exact (total_insert (λ x, b2n (f x)) i x y l). Qed.

Lemma count_ge f i x l : l !! i = Some x → f x = true → (1 <= count f l)%nat.
Proof.
  revert i. induction l as [|z l IH]; intros [|i]; try discriminate; cbn [lookup list_lookup]; rewrite count_cons.
  - intros [= ->] ->. cbn. lia.
  - intros Hi Hf. specialize (IH i Hi Hf). lia.
Qed.

Lemma count_two f i j x y l :
  l !! i = Some x → l !! j = Some y → i <> j → f x = true → f y = true → (2 <= count f l)%nat.
Proof.
  intros Hi Hj Hne Hx Hy. revert i j Hi Hj Hne.
  induction l as [|z l IH]; intros [|i] [|j]; try discriminate; cbn [lookup list_lookup]; intros Hi Hj Hne; try done.
  - apply (inj Some) in Hi as ->. pose proof (count_ge f j y l Hj Hy). rewrite count_cons, Hx. cbn [b2n]. lia.
  - apply (inj Some) in Hj as ->. pose proof (count_ge f i x l Hi Hx). rewrite count_cons, Hy. cbn [b2n]. lia.
  - specialize (IH i j Hi Hj ltac:(congruence)). rewrite count_cons. lia.
Qed.

Lemma count_zero f l : count f l = 0%nat → ∀ i x, l !! i = Some x → f x = false.
Proof.
  intros Hc i x Hi. destruct (f x) eqn:E; [|done]. pose proof (count_ge f i x l Hi E). lia.
Qed.

Lemma count_none f l : (∀ i x, l !! i = Some x → f x = false) → count f l = 0%nat.
Proof.
  induction l as [|z l IH]; intros Hf; [done|]. rewrite count_cons.
  rewrite (Hf 0%nat z eq_refl), IH; [done|]. intros i x Hi. exact (Hf (S i) x Hi).
Qed.

(** ** The steps as a relation *)
Section moves.
Context {H : Blake3}.
Variable object : Z → bytes → bytes → option bytes.
Variable decode_and_encode : bytes → bytes → option EncodedParts.t.

Definition source_of (x : Task.t) : option bytes :=
  object (AggContext.source (Task.agg x)) (AggContext.source_bucket (Task.agg x)) (Task.raw_key x).

(** Whether the body of [fold_one] is left by a fold that is done. *)
Definition completes (x : Task.t) (s : State.t) : Prop :=
  (Task.at_ x = Checking ∧ ∃ a, fold_identity x = Some a ∧ is_Some (State.store s !! a)) ∨
  (∃ e, Task.at_ x = WritingMarker e (Answered true)).

Inductive moves (i : nat) (x : Task.t) (s : State.t) : State.t → Prop :=
| Enters d n s1 : Task.at_ x = Start → fold_identity x = Some d → file_lock d s = (n, s1) →
    moves i x s (set_task i (Task.mk (Task.agg x) (Task.raw_key x) n AwaitFile) s1)
| Refuses r : Task.at_ x = Start → r <> Folded → moves i x s (goto i x (Done r) s)
| TakesLock : Task.at_ x = AwaitFile → count (guard_of (Task.lock x)) (State.tasks s) = 0%nat →
    moves i x s (goto i x Checking s)
| Proceeds : Task.at_ x = Checking → moves i x s (goto i x AwaitInflight s)
| TakesInflight : Task.at_ x = AwaitInflight → 0 < State.inflight s →
    moves i x s (goto i x AwaitFetch (add_permits (-1) 0 0 s))
| TakesFetch : Task.at_ x = AwaitFetch → 0 < State.fetch s →
    moves i x s (goto i x Fetching (add_permits 0 (-1) 0 s))
| Fetches b : Task.at_ x = Fetching → source_of x = Some b →
    moves i x s (goto i x (AwaitCpu b) (add_permits 0 1 0 s))
| TakesCpu b : Task.at_ x = AwaitCpu b → 0 < State.cpu s →
    moves i x s (goto i x (Decoding b) (set_blocking ({[i]} ∪ State.blocking s) (add_permits 0 0 (-1) s)))
| Decodes b r : Task.at_ x = Decoding b → i ∈ State.blocking s →
    (r = None ∨ r = decode_and_encode b (full_key x)) →
    moves i x s (goto i x (Decoded r) (set_blocking (State.blocking s ∖ {[i]}) s))
| DecodesForNobody : (∀ b, Task.at_ x <> Decoding b) → i ∈ State.blocking s →
    moves i x s (set_blocking (State.blocking s ∖ {[i]}) s)
| Encodes e : Task.at_ x = Decoded (Some e) →
    moves i x s (goto i x (WritingParts e Issued Issued Issued) (add_permits 0 0 1 s))
| Commits e : Task.at_ x = WritingParts e (Answered true) (Answered true) (Answered true) →
    moves i x s (goto i x (WritingMarker e Issued) s)
| PutLands p e q : slot p (Task.at_ x) = Some (Issued, e, q) →
    moves i x s (goto i x (q Landed) (set_store (put_all (written p x e) (State.store s)) s))
| PutAnswered p ok e q : slot p (Task.at_ x) = Some (Landed, e, q) →
    moves i x s (goto i x (q (Answered ok)) s)
| PutFails p e q : slot p (Task.at_ x) = Some (Issued, e, q) →
    moves i x s (goto i x (q (Answered false)) (set_orphans (State.orphans s ++ written p x e) s))
| Leaves r : has_handle (Task.at_ x) = true → (∀ r, Task.at_ x <> Leaving r) → (∀ r, Task.at_ x <> Releasing r) →
    (∀ b, Task.at_ x = Decoding b → r = Cancelled) → (r = Folded → completes x s) → moves i x s (leave_fold i x r s)
| Drops r : Task.at_ x = Leaving r → moves i x s (goto i x (Releasing r) (drop_lock x s))
| Releases r : Task.at_ x = Releasing r → moves i x s (goto i x (Done r) s).

Definition is_cancel (e : event) : bool := match e with Cancel _ => true | _ => false end.

Lemma leaves_body i x r s :
  has_guard (Task.at_ x) = true ∨ Task.at_ x = AwaitFile → (∀ b, Task.at_ x = Decoding b → r = Cancelled) →
  (r = Folded → completes x s) → moves i x s (leave_fold i x r s).
Proof.
  intros Hb Hd Hr. apply Leaves; [| | |exact Hd|exact Hr];
    destruct Hb as [Hb|Hb]; try (rewrite Hb; done); destruct (Task.at_ x); done.
Qed.

Lemma answers_moves i p ok x s s' : put_answers i p ok x s = Some s' → moves i x s s'.
Proof.
  unfold put_answers. destruct (slot p (Task.at_ x)) as [[[w e] q]|] eqn:E; [|done]. cbn [mbind option_bind].
  destruct w, ok; try done; intros [= <-]; [by eapply PutFails|by eapply PutAnswered..].
Qed.

Lemma lands_moves i p x s s' : put_lands i p x s = Some s' → moves i x s s'.
Proof.
  unfold put_lands. destruct (slot p (Task.at_ x)) as [[[w e] q]|] eqn:E; [|done]. cbn [mbind option_bind].
  destruct w; try done. intros [= <-]. by eapply PutLands.
Qed.

Lemma resume_moves i x s s' : resume i x s = Some s' → moves i x s s'.
Proof.
  unfold resume. destruct (Task.at_ x) as [| | | | | | | |[e|]|e [| |d] [| |p] [| |sp]|e [| |ok]| | |] eqn:E;
    try done.
  - intros [= <-]. by apply Encodes.
  - intros [= <-]. apply leaves_body; [by rewrite E; left|by rewrite E|done].
  - destruct (d && p && sp) eqn:Eb; intros [= <-].
    + apply andb_true_iff in Eb as [Eb ->]. apply andb_true_iff in Eb as [-> ->]. by apply Commits.
    + apply leaves_body; [by rewrite E; left|by rewrite E|done].
  - intros [= <-]. apply leaves_body; [by rewrite E; left|by rewrite E|]. destruct ok; [|done]. intros _. right. by eexists.
Qed.

Lemma cancel_moves i x s s' :
  match Task.at_ x with
  | Start => Some (goto i x (Done Cancelled) s)
  | p => if has_handle p && match p with Leaving _ | Releasing _ => false | _ => true end
         then Some (leave_fold i x Cancelled s) else None
  end = Some s' → moves i x s s'.
Proof.
  destruct (Task.at_ x) eqn:E; cbn; try discriminate; intros [= <-]; try by apply Refuses.
  all: apply leaves_body; [first [by right|by left; rewrite E]|done..].
Qed.

Lemma step_moves e i x s s' :
  fold_step object decode_and_encode e i x s = Some s' → moves i x s s'.
Proof.
  destruct e; cbn [fold_step];
    try exact (resume_moves _ _ _ _); try exact (lands_moves _ _ _ _ _); try exact (answers_moves _ _ _ _ _ _);
    try exact (cancel_moves _ _ _ _);
    lazymatch goal with
    | |- context [match Task.at_ x with _ => _ end] => destruct (Task.at_ x) eqn:E; try discriminate
    | |- None = _ → _ => discriminate
    | _ => idtac
    end.
  - destruct (fold_identity x) as [d|] eqn:Ed; [|intros [= <-]; by apply Refuses].
    destruct (file_lock d s) as [n s1] eqn:Ef. intros [= <-]. by eapply Enters.
  - destruct (Nat.eqb_spec (count (guard_of (Task.lock x)) (State.tasks s)) 0); [|done]. intros [= <-].
    by apply TakesLock.
  - intros [= <-]. unfold check_marker. destruct ok; cbn [negb].
    + case_bool_decide as Hm; [|by apply Proceeds]. apply leaves_body; [by rewrite E; left|by rewrite E|]. intros _. left.
      split; [done|]. destruct (fold_identity x) as [a|]; [by exists a|by destruct Hm].
    + apply leaves_body; [by rewrite E; left|by rewrite E|done].
  - destruct (Z.ltb_spec 0 (State.inflight s)); [|done]. intros [= <-]. by apply TakesInflight.
  - destruct (Z.ltb_spec 0 (State.fetch s)); [|done]. intros [= <-]. by apply TakesFetch.
  - intros [= <-]. unfold fetched. destruct ok; [|apply leaves_body; [by rewrite E; left|by rewrite E|done]].
    change (object _ _ _) with (source_of x). destruct (source_of x) as [b|] eqn:Eo; [by apply Fetches|].
    apply leaves_body; [by rewrite E; left|by rewrite E|done].
  - destruct (Z.ltb_spec 0 (State.cpu s)); [|done]. intros [= <-]. by apply TakesCpu.
  - case_bool_decide as Hb; [|done]. intros [= <-]. unfold decode_ends.
    destruct (Task.at_ x) eqn:E; try (apply DecodesForNobody; [by rewrite E|done]).
    eapply Decodes; [exact E|done|]. destruct panicked; [by left|by right].
  - intros [= <-]. by apply Drops.
  - intros [= <-]. by apply Releases.
Qed.

Lemma next_moves e s s' :
  next object decode_and_encode e s = Some s' →
  (∃ i x, State.tasks s !! i = Some x ∧ moves i x s s') ∨
  (∃ n o, State.orphans s !! n = Some o ∧
     s' = set_orphans (delete n (State.orphans s)) (set_store (put_all [o] (State.store s)) s)).
Proof.
  unfold next. destruct (task_of e) as [i|] eqn:Ei.
  - intros Hn. left. assert (
      (x ← State.tasks s !! i; fold_step object decode_and_encode e i x s) = Some s') as Hs.
    { destruct e; cbn [task_of] in Ei; try discriminate Ei; injection Ei as ->; exact Hn. }
    destruct (State.tasks s !! i) as [x|] eqn:Ex; [|discriminate Hs]. cbn [mbind option_bind] in Hs.
    exists i, x. split; [done|]. by eapply step_moves.
  - destruct e as [| | | | | | | | | | | | | |n]; try discriminate Ei. intros Hn. right. exists n.
    destruct (State.orphans s !! n) as [o|]; [|discriminate Hn]. cbn [mbind option_bind] in Hn. exists o.
    split; [done|]. by injection Hn as <-.
Qed.

(** What holds at the start and is kept by every step holds after every run. *)
Lemma run_keeps (I : State.t → Prop) es s s' :
  (∀ i x s s', I s → State.tasks s !! i = Some x → moves i x s s' → I s') →
  (∀ n o s, I s → State.orphans s !! n = Some o →
     I (set_orphans (delete n (State.orphans s)) (set_store (put_all [o] (State.store s)) s))) →
  I s → run object decode_and_encode es s = Some s' → I s'.
Proof.
  intros Hm Ho. revert s. induction es as [|e es IH]; intros s Hs; cbn [run].
  - by intros [= <-].
  - destruct (next object decode_and_encode e s) as [s1|] eqn:E; [|done]. cbn [mbind option_bind].
    apply IH. destruct (next_moves _ _ _ E) as [(i & x & Hi & Hx)|(n & o & Hn & ->)]; [by eapply Hm|by eapply Ho].
Qed.
End moves.

(** ** Permits *)
Record permits (l : FoldLimits.t) (s : State.t) : Prop := {
  inflight_ok : State.inflight s + Z.of_nat (count (holds has_inflight) (State.tasks s)) = FoldLimits.inflight l;
  fetch_ok : State.fetch s + Z.of_nat (count (holds has_fetch) (State.tasks s)) = FoldLimits.fetch l;
  cpu_ok : State.cpu s + Z.of_nat (count (holds has_cpu) (State.tasks s)) = FoldLimits.cpu l;
  available_ok : 0 <= State.inflight s ∧ 0 <= State.fetch s ∧ 0 <= State.cpu s }.

(** A step of a task from [p] to [q] that takes and gives back permits. *)
Lemma permits_set l i x y s s' :
  permits l s → State.tasks s !! i = Some x → State.tasks s' = <[i := y]> (State.tasks s) →
  State.inflight s' + Z.of_nat (b2n (holds has_inflight y)) = State.inflight s + Z.of_nat (b2n (holds has_inflight x)) →
  State.fetch s' + Z.of_nat (b2n (holds has_fetch y)) = State.fetch s + Z.of_nat (b2n (holds has_fetch x)) →
  State.cpu s' + Z.of_nat (b2n (holds has_cpu y)) = State.cpu s + Z.of_nat (b2n (holds has_cpu x)) →
  0 <= State.inflight s' → 0 <= State.fetch s' → 0 <= State.cpu s' → permits l s'.
Proof.
  intros [Hi Hf Hc Ha] Hx Ht Hi' Hf' Hc' H1 H2 H3.
  pose proof (count_insert (holds has_inflight) i x y _ Hx). pose proof (count_insert (holds has_fetch) i x y _ Hx).
  pose proof (count_insert (holds has_cpu) i x y _ Hx). constructor; rewrite ?Ht; lia.
Qed.

Lemma slot_pc p q w e f : slot p q = Some (w, e, f) →
  (∃ d pl sp, q = WritingParts e d pl sp ∧ ∀ w', ∃ d' pl' sp', f w' = WritingParts e d' pl' sp') ∨
  (∃ m, q = WritingMarker e m ∧ ∀ w', f w' = WritingMarker e w').
Proof.
  destruct q, p; cbn [slot]; try done; intros [= <- <- <-]; [left|left|left|right]; eauto 9.
Qed.

Lemma slot_holds p x w e f w' (h : pc → bool) :
  slot p (Task.at_ x) = Some (w, e, f) →
  (h = has_inflight ∨ h = has_fetch ∨ h = has_cpu ∨ h = has_guard ∨ h = has_handle) →
  h (f w') = h (Task.at_ x).
Proof.
  intros Hs Hh. destruct (slot_pc _ _ _ _ _ Hs) as [(d & pl & sp & -> & Hf)|(m & -> & Hf)];
    [destruct (Hf w') as (? & ? & ? & ->)|rewrite Hf]; destruct Hh as [->|[->|[->|[->| ->]]]]; done.
Qed.

Ltac permits_move Hp Hx Ha :=
  eapply permits_set; [exact Hp|exact Hx|reflexivity|..]; unfold holds; cbn; rewrite ?Ha; cbn; lia.

Ltac permits_put Hp Hx Hs :=
  eapply permits_set; [exact Hp|exact Hx|reflexivity|..]; unfold holds; cbn [State.inflight State.fetch State.cpu goto
    set_task set_orphans set_store add_permits Task.at_ Task.set_at];
    rewrite ?(slot_holds _ _ _ _ _ _ _ Hs) by auto; lia.

Section invariants.
Context {H : Blake3}.
Variable object : Z → bytes → bytes → option bytes.
Variable decode_and_encode : bytes → bytes → option EncodedParts.t.

Lemma moves_permits l i x s s' :
  permits l s → State.tasks s !! i = Some x → moves object decode_and_encode i x s s' → permits l s'.
Proof.
  intros Hp Hx Hm. pose proof (available_ok _ _ Hp) as (Ai & Af & Ac).
  destruct Hm as [d n s1 Ha _ Hl|r Ha|Ha _|Ha|Ha ?|Ha ?|b Ha _|b Ha ?|b r Ha _ _|_ _|e Ha|e Ha|p e q Hs|p ok e q Hs
    |p e q Hs|r _ _ _ _ _|r Ha|r Ha].
  - assert (State.tasks s1 = State.tasks s ∧ State.inflight s1 = State.inflight s ∧
      State.fetch s1 = State.fetch s ∧ State.cpu s1 = State.cpu s) as (Et & Ei & Ef & Ec).
    { unfold file_lock in Hl. destruct (State.files s !! d) as [n'|]; [destruct (_ <? _)%nat|];
        injection Hl as _ <-; done. }
    eapply (permits_set l i x); [exact Hp|exact Hx|cbn; rewrite Et; reflexivity|..]; cbn [State.inflight State.fetch
      State.cpu set_task]; unfold holds; cbn [Task.at_]; rewrite ?Ha, ?Ei, ?Ef, ?Ec; cbn; lia.
  - permits_move Hp Hx Ha.
  - permits_move Hp Hx Ha.
  - permits_move Hp Hx Ha.
  - permits_move Hp Hx Ha.
  - permits_move Hp Hx Ha.
  - permits_move Hp Hx Ha.
  - permits_move Hp Hx Ha.
  - permits_move Hp Hx Ha.
  - destruct Hp. by constructor.
  - permits_move Hp Hx Ha.
  - permits_move Hp Hx Ha.
  - permits_put Hp Hx Hs.
  - permits_put Hp Hx Hs.
  - permits_put Hp Hx Hs.
  - eapply (permits_set l i x); [exact Hp|exact Hx|reflexivity|..]; unfold holds, leave_fold; cbn [State.inflight State.fetch
      State.cpu goto set_task set_orphans add_permits Task.at_ Task.set_at has_inflight has_guard has_fetch has_cpu b2n];
      lia.
  - unfold drop_lock. destruct (fold_identity x); [destruct (_ =? _)%nat|]; permits_move Hp Hx Ha.
  - permits_move Hp Hx Ha.
Qed.
End invariants.

(** ** Locks of files *)

(** The handle is not dropped. *)
Definition live (p : pc) : bool := has_handle p && match p with Releasing _ => false | _ => true end.

Lemma guard_live p : has_guard p = true → live p = true.
Proof. by destruct p. Qed.

Lemma live_handle p : live p = true → has_handle p = true.
Proof. by destruct p. Qed.

Section locks.
Context {H : Blake3}.

Record locks (s : State.t) : Prop := {
  lock_fresh i x : State.tasks s !! i = Some x → has_handle (Task.at_ x) = true → (Task.lock x < State.next_lock s)%nat;
  files_fresh d n : State.files s !! d = Some n → (n < State.next_lock s)%nat;
  registered i x : State.tasks s !! i = Some x → live (Task.at_ x) = true →
    ∃ d, fold_identity x = Some d ∧ State.files s !! d = Some (Task.lock x);
  guards_apart i j x y : State.tasks s !! i = Some x → State.tasks s !! j = Some y → i <> j →
    has_guard (Task.at_ x) = true → has_guard (Task.at_ y) = true → Task.lock x <> Task.lock y }.

(** A step that leaves the registry alone. *)
Lemma locks_set i x p s s' :
  locks s → State.tasks s !! i = Some x → State.tasks s' = <[i := Task.set_at p x]> (State.tasks s) →
  State.files s' = State.files s → State.next_lock s' = State.next_lock s →
  (has_handle p = true → has_handle (Task.at_ x) = true) → (live p = true → live (Task.at_ x) = true) →
  (has_guard p = true → has_guard (Task.at_ x) = true ∨ count (guard_of (Task.lock x)) (State.tasks s) = 0%nat) →
  locks s'.
Proof.
  intros [Hf Hff Hr Hg] Hx Ht Hfs Hn Hh Hl Hgd. constructor; rewrite ?Ht, ?Hfs, ?Hn.
  - intros j y Hj Hy. apply list_lookup_insert_Some in Hj as [(<- & <- & _)|(_ & Hj)]; [|by eapply Hf].
    cbn [Task.lock Task.set_at Task.at_] in *. by eapply Hf; [|apply Hh].
  - exact Hff.
  - intros j y Hj Hy. apply list_lookup_insert_Some in Hj as [(<- & <- & _)|(_ & Hj)]; [|by eapply Hr].
    change (fold_identity (Task.set_at p x)) with (fold_identity x). cbn [Task.lock Task.set_at Task.at_] in *.
    by eapply Hr; [|apply Hl].
  - assert (∀ k z, State.tasks s !! k = Some z → i <> k → has_guard p = true → has_guard (Task.at_ z) = true →
      Task.lock x <> Task.lock z) as Hone.
    { intros k z Hk Hne Hp Hz. destruct (Hgd Hp) as [Hgx|Hc]; [by apply (Hg i k)|].
      intros He. pose proof (count_zero _ _ Hc k z Hk) as Hz'. unfold guard_of in Hz'.
      by rewrite Hz, <- He, Nat.eqb_refl in Hz'. }
    intros j k y z Hj Hk Hne Hy Hz.
    apply list_lookup_insert_Some in Hj as [(<- & <- & _)|(Hnj & Hj)];
      apply list_lookup_insert_Some in Hk as [(He & <- & _)|(Hnk & Hk)];
      cbn [Task.lock Task.set_at Task.at_] in *; try done.
    + by apply (Hone k z).
    + subst k. intros He. by apply (Hone j y Hj Hnj Hz Hy).
    + by apply (Hg j k).
Qed.

(** [file_lock] gives everyone who holds a lock of the file the same one. *)
Lemma file_lock_spec d s n s1 :
  locks s → file_lock d s = (n, s1) →
  State.tasks s1 = State.tasks s ∧ State.files s1 !! d = Some n ∧ (n < State.next_lock s1)%nat ∧
  (State.next_lock s <= State.next_lock s1)%nat ∧
  (∀ d' n', State.files s1 !! d' = Some n' → (n' < State.next_lock s1)%nat) ∧
  (∀ i x d', State.tasks s !! i = Some x → live (Task.at_ x) = true → fold_identity x = Some d' →
     State.files s !! d' = Some (Task.lock x) → State.files s1 !! d' = Some (Task.lock x)).
Proof.
  intros Hs Hl.
  assert (∀ s1, s1 = set_files (<[d := State.next_lock s]> (State.files s)) (S (State.next_lock s)) s →
    (∀ i x, State.tasks s !! i = Some x → live (Task.at_ x) = true → State.files s !! d <> Some (Task.lock x)) →
    State.tasks s1 = State.tasks s ∧ State.files s1 !! d = Some (State.next_lock s) ∧
    (State.next_lock s < State.next_lock s1)%nat ∧ (State.next_lock s <= State.next_lock s1)%nat ∧
    (∀ d' n', State.files s1 !! d' = Some n' → (n' < State.next_lock s1)%nat) ∧
    (∀ i x d', State.tasks s !! i = Some x → live (Task.at_ x) = true → fold_identity x = Some d' →
       State.files s !! d' = Some (Task.lock x) → State.files s1 !! d' = Some (Task.lock x))) as Hnew.
  { intros s2 -> Hnone. cbn [State.tasks State.files State.next_lock set_files]. split_and!; try lia; try done.
    - apply lookup_insert_eq.
    - intros d' n'. rewrite lookup_insert_Some. intros [(_ & <-)|(_ & Hd)]; [lia|].
      pose proof (files_fresh _ Hs _ _ Hd). lia.
    - intros i x d' Hi Hlv _ Hd. rewrite lookup_insert_ne; [done|]. intros <-. by eapply Hnone. }
  unfold file_lock in Hl. destruct (State.files s !! d) as [m|] eqn:Ed.
  - destruct (Nat.ltb_spec 0 (strong_count m s)) as [Hc|Hc]; injection Hl as <- <-.
    + split_and!; try done; [by eapply files_fresh|intros d' n'; by eapply files_fresh].
    + apply Hnew; [done|]. intros i x Hi Hlv [= ->]. unfold strong_count in Hc.
      assert (1 <= count (handle_of (Task.lock x)) (State.tasks s))%nat; [|lia].
      eapply count_ge; [exact Hi|]. unfold handle_of. by rewrite (live_handle _ Hlv), Nat.eqb_refl.
  - injection Hl as <- <-. apply Hnew; [done|]. intros i x Hi Hlv. discriminate.
Qed.

Lemma locks_enter i x d s n s1 :
  locks s → State.tasks s !! i = Some x → Task.at_ x = Start → fold_identity x = Some d → file_lock d s = (n, s1) →
  locks (set_task i (Task.mk (Task.agg x) (Task.raw_key x) n AwaitFile) s1).
Proof.
  intros Hs Hx Ha Hd Hl. destruct (file_lock_spec _ _ _ _ Hs Hl) as (Ht & Hn & Hlt & Hle & Hff & Hkeep).
  constructor; cbn [State.tasks State.files State.next_lock set_task]; rewrite ?Ht.
  - intros j y Hj Hy. apply list_lookup_insert_Some in Hj as [(<- & <- & _)|(_ & Hj)]; [done|].
    pose proof (lock_fresh _ Hs _ _ Hj Hy). lia.
  - exact Hff.
  - intros j y Hj Hy. apply list_lookup_insert_Some in Hj as [(<- & <- & _)|(_ & Hj)]; [by exists d|].
    destruct (registered _ Hs _ _ Hj Hy) as (d' & Hd' & Hf). exists d'. split; [done|]. by eapply Hkeep.
  - intros j k y z Hj Hk Hne Hy Hz.
    apply list_lookup_insert_Some in Hj as [(<- & <- & _)|(Hnj & Hj)]; [done|].
    apply list_lookup_insert_Some in Hk as [(<- & <- & _)|(Hnk & Hk)]; [done|]. by apply (guards_apart _ Hs j k).
Qed.

(** A dropped handle leaves the registry of those who stay. *)
Lemma locks_drop i x r s :
  locks s → State.tasks s !! i = Some x → Task.at_ x = Leaving r → locks (goto i x (Releasing r) (drop_lock x s)).
Proof.
  intros Hs Hx Ha. unfold drop_lock.
  destruct (registered _ Hs _ _ Hx) as (d & Hd & Hf); [by rewrite Ha|]. rewrite Hd.
  destruct (Nat.eqb_spec (strong_count (Task.lock x) s) 1) as [Hc|_].
  2: { eapply locks_set; [exact Hs|exact Hx|reflexivity..| | |]; rewrite ?Ha; done. }
  constructor; cbn [State.tasks State.files State.next_lock goto set_task set_files].
  - intros j y Hj Hy. apply list_lookup_insert_Some in Hj as [(<- & <- & _)|(_ & Hj)]; [|by eapply lock_fresh].
    apply (lock_fresh _ Hs i x Hx). by rewrite Ha.
  - intros d' n'. rewrite lookup_delete_Some. intros [_ Hd']. by eapply files_fresh.
  - intros j y Hj Hy. apply list_lookup_insert_Some in Hj as [(<- & <- & _)|(Hne & Hj)]; [done|].
    destruct (registered _ Hs _ _ Hj Hy) as (d' & Hd' & Hf'). exists d'. split; [done|].
    rewrite lookup_delete_ne; [done|]. intros <-. rewrite Hf in Hf'. injection Hf' as He.
    assert (2 <= count (handle_of (Task.lock x)) (State.tasks s))%nat; [|unfold strong_count in Hc; lia].
    eapply (count_two _ i j); [exact Hx|exact Hj|done| |]; unfold handle_of.
    + by rewrite Ha, Nat.eqb_refl.
    + by rewrite (live_handle _ Hy), He, Nat.eqb_refl.
  - intros j k y z Hj Hk Hne Hy Hz.
    apply list_lookup_insert_Some in Hj as [(<- & <- & _)|(Hnj & Hj)]; [done|].
    apply list_lookup_insert_Some in Hk as [(<- & <- & _)|(Hnk & Hk)]; [done|]. by apply (guards_apart _ Hs j k).
Qed.

Lemma moves_locks object decode_and_encode i x s s' :
  locks s → State.tasks s !! i = Some x → moves object decode_and_encode i x s s' → locks s'.
Proof.
  intros Hs Hx Hm.
  destruct Hm as [d n s1 Ha Hd Hl|r Ha|Ha Hc|Ha|Ha ?|Ha ?|b Ha _|b Ha ?|b r Ha _ _|_ _|e Ha|e Ha|p e q Hsl|p ok e q Hsl
    |p e q Hsl|r Hh Hnl Hnr _ _|r Ha|r Ha].
  1: by eapply locks_enter.
  9: { destruct Hs. by constructor. }
  15: by apply locks_drop.
  2: { eapply locks_set; [exact Hs|exact Hx|reflexivity..| | |]; rewrite ?Ha; auto. }
  10, 11, 12: eapply locks_set; [exact Hs|exact Hx|reflexivity..| | |];
    [rewrite (slot_holds _ _ _ _ _ _ _ Hsl) by auto; done| |
     rewrite (slot_holds _ _ _ _ _ _ has_guard Hsl) by auto; by left];
    destruct (slot_pc _ _ _ _ _ Hsl) as [(? & ? & ? & -> & Hf)|(? & -> & Hf)]; done.
  all: eapply locks_set; [exact Hs|exact Hx|reflexivity..| | |]; rewrite ?Ha; try done; auto.
  intros _. unfold live. rewrite Hh. destruct (Task.at_ x) eqn:E; try done. by destruct (Hnr r0).
Qed.
End locks.

(** ** The output store *)

Definition present (m : gmap address bytes) (a : address) : Prop := is_Some (m !! a).

Lemma put_all_lookup l m a v : put_all l m !! a = Some v → m !! a = Some v ∨ (a, v) ∈ l.
Proof.
  revert m. induction l as [|[b w] l IH]; intros m; [by left|]. cbn [put_all foldl]. intros Hl.
  destruct (IH _ Hl) as [Hi|Hi]; [|by right; apply elem_of_cons; right].
  apply lookup_insert_Some in Hi as [[-> ->]|[_ Hi]]; [right; by left|by left].
Qed.

Lemma put_all_keeps l m a : present m a → present (put_all l m) a.
Proof.
  revert m. induction l as [|[b w] l IH]; intros m Hm; [done|]. cbn [put_all foldl]. apply IH.
  unfold present in *. destruct (decide (b = a)) as [->|Hne]; [by rewrite lookup_insert_eq|by rewrite lookup_insert_ne].
Qed.

Lemma put_all_puts l m a v : (a, v) ∈ l → present (put_all l m) a.
Proof.
  revert m. induction l as [|[b w] l IH]; intros m; [by intros ?%not_elem_of_nil|].
  rewrite elem_of_cons. intros [[= -> ->]|Hi]; cbn [put_all foldl]; [|by apply IH].
  apply put_all_keeps. unfold present. by rewrite lookup_insert_eq.
Qed.

Section store.
Context {H : Blake3}.

Lemma elem_of_written p x e a v : (a, v) ∈ written p x e ↔ part_at p x = Some a ∧ v = EncodedParts.buf p e.
Proof.
  unfold written. destruct (part_at p x) as [b|]; cbn.
  - rewrite list_elem_of_singleton. split; [intros [= -> ->]; done|intros [[= ->] ->]; done].
  - split; [by intros ?%not_elem_of_nil|by intros [? _]].
Qed.

Lemma part_at_key p x a :
  part_at p x = Some a ↔ ∃ k, part_key p (AggContext.output_prefix (Task.agg x)) (full_key x) = Some k ∧
    a = (AggContext.output (Task.agg x), AggContext.output_bucket (Task.agg x), k).
Proof. unfold part_at. rewrite fmap_Some. naive_solver. Qed.

(** Addresses of different parts are different; the marker's determines the others. *)
Lemma part_at_apart p q x y a :
  part_at p x = Some a → part_at q y = Some a → p = q ∧ part_leaf_of (full_key x) = part_leaf_of (full_key y).
Proof.
  rewrite !part_at_key. intros (k & Hk & ->) (k' & Hk' & He). injection He as _ _ <-. by eapply part_keys_apart.
Qed.

Lemma marker_at_determines x y a :
  fold_identity x = Some a → fold_identity y = Some a → ∀ p, part_at p x = part_at p y.
Proof.
  unfold fold_identity. rewrite !part_at_key. intros (k & Hk & ->) (k' & Hk' & He) p. injection He as Ho Hb <-.
  unfold part_at. rewrite Ho, Hb. by rewrite (marker_determines _ _ _ _ _ Hk Hk').
Qed.

(** All parts besides the marker at [a] are there. *)
Definition others_present (m : gmap address bytes) (a : address) : Prop :=
  ∀ y p b, fold_identity y = Some a → p <> Samples → part_at p y = Some b → present m b.

Lemma others_present_mono m m' a :
  (∀ b, present m b → present m' b) → others_present m a → others_present m' a.
Proof. intros Hm Ho y p b Hy Hp Hb. by eapply Hm, Ho. Qed.

Lemma others_present_of x m a :
  fold_identity x = Some a → (∀ p b, p <> Samples → part_at p x = Some b → present m b) → others_present m a.
Proof.
  intros Hx Hp y p b Hy Hne Hb. apply (Hp p b Hne). by rewrite (marker_at_determines x y a Hx Hy p).
Qed.

Lemma others_present_part p x m a : part_at p x = Some a → p <> Samples → others_present m a.
Proof. intros Hp Hne y q b Hy _ _. destruct Hne. by eapply (part_at_apart p Samples x y). Qed.

Definition finished (p : pc) : bool :=
  match p with Leaving Folded | Releasing Folded | Done Folded => true | _ => false end.

Definition in_effect (w : put) : bool := match w with Landed | Answered true => true | _ => false end.

(** What is known of the store by a call that is at [p]. *)
Definition knows (m : gmap address bytes) (x : Task.t) : Prop :=
  (∀ p w e q, slot p (Task.at_ x) = Some (w, e, q) → in_effect w = true →
     ∀ a, part_at p x = Some a → present m a) ∧
  (∀ e w, Task.at_ x = WritingMarker e w → ∀ p a, p <> Samples → part_at p x = Some a → present m a) ∧
  (finished (Task.at_ x) = true → ∃ a, fold_identity x = Some a ∧ present m a).

Record store_ok (s : State.t) : Prop := {
  present_ok a : present (State.store s) a → others_present (State.store s) a;
  orphans_ok a v : (a, v) ∈ State.orphans s → others_present (State.store s) a;
  tasks_know i x : State.tasks s !! i = Some x → knows (State.store s) x }.

Lemma knows_mono m m' x : (∀ b, present m b → present m' b) → knows m x → knows m' x.
Proof.
  intros Hm (H1 & H2 & H3). split_and!.
  - intros p w e q Hs Hw a Ha. by eapply Hm, H1.
  - intros e w He p a Hp Ha. by eapply Hm, H2.
  - intros Hf. destruct (H3 Hf) as (a & Ha & Hp). exists a. auto.
Qed.

(** A put on its way is preceded by what it needs. *)
Lemma written_others m x p e w q a v :
  slot p (Task.at_ x) = Some (w, e, q) → knows m x → (a, v) ∈ written p x e → others_present m a.
Proof.
  intros Hs (_ & Hm & _) Hin. apply elem_of_written in Hin as [Ha _].
  destruct (decide (p = Samples)) as [->|Hne]; [|by eapply others_present_part].
  apply (others_present_of x); [done|]. destruct (slot_pc _ _ _ _ _ Hs) as [(d & pl & sp & E & _)|(m' & E & _)].
  - rewrite E in Hs. discriminate Hs.
  - by eapply Hm.
Qed.

Lemma on_the_way_others m x a v : knows m x → (a, v) ∈ on_the_way x → others_present m a.
Proof.
  intros Hk. unfold on_the_way. destruct (Task.at_ x) as [| | | | | | | | |e d pl sp|e w| | |] eqn:E;
    try (by intros ?%not_elem_of_nil).
  - rewrite !elem_of_app. intros [Hin|[Hin|Hin]];
      [destruct d|destruct pl|destruct sp]; try (by apply not_elem_of_nil in Hin);
      (eapply written_others; [|exact Hk|exact Hin]); rewrite E; reflexivity.
  - destruct w; try (by intros ?%not_elem_of_nil). intros Hin.
    eapply written_others; [|exact Hk|exact Hin]. rewrite E. reflexivity.
Qed.

(** A step that puts [l], which is preceded by what it needs. *)
Lemma stored_set i y l o s s' :
  store_ok s → State.tasks s' = <[i := y]> (State.tasks s) →
  State.store s' = put_all l (State.store s) → State.orphans s' = State.orphans s ++ o →
  (∀ a v, (a, v) ∈ l ++ o → others_present (State.store s) a) →
  knows (State.store s') y → store_ok s'.
Proof.
  intros [Hp Ho Ht] Et Es Eo Hl Hk.
  assert (∀ b, present (State.store s) b → present (State.store s') b) as Hm
    by (rewrite Es; intros b; apply put_all_keeps).
  constructor.
  - intros a Ha. eapply others_present_mono; [exact Hm|]. destruct Ha as [v Hv]. rewrite Es in Hv.
    destruct (put_all_lookup _ _ _ _ Hv) as [Hold|Hin]; [apply Hp; by exists v|].
    apply (Hl a v). apply elem_of_app. by left.
  - intros a v. rewrite Eo, elem_of_app. intros Hin. eapply others_present_mono; [exact Hm|].
    destruct Hin as [Hin|Hin]; [by eapply Ho|]. apply (Hl a v). apply elem_of_app. by right.
  - rewrite Et. intros j z Hj. apply list_lookup_insert_Some in Hj as [(_ & <- & _)|(_ & Hj)]; [exact Hk|].
    eapply knows_mono; [exact Hm|by eapply Ht].
Qed.

(** A call that writes nothing and is not done knows nothing. *)
Definition ignorant (p : pc) : bool :=
  match p with WritingParts _ _ _ _ | WritingMarker _ _ => false | p => negb (finished p) end.

Lemma knows_ignorant m x : ignorant (Task.at_ x) = true → knows m x.
Proof.
  unfold knows. destruct (Task.at_ x) as [| | | | | | | | | | |[]|[]|[]]; try done; intros _; split_and!; try done;
    intros p; by destruct p.
Qed.

Lemma slot_other p q p' w w' e f w'' e' f' :
  slot p q = Some (w, e, f) → slot p' (f w') = Some (w'', e', f') →
  (p' = p ∧ w'' = w') ∨ ∃ f'', slot p' q = Some (w'', e', f'').
Proof.
  destruct q, p; cbn [slot]; try done; intros [= <- <- <-]; destruct p'; cbn [slot]; try done;
    intros [= <- <- <-]; eauto.
Qed.

(** A put that changes, when it is there if it is in effect now. *)
Lemma knows_put m m' x p w e f w' :
  slot p (Task.at_ x) = Some (w, e, f) → knows m x → (∀ b, present m b → present m' b) →
  (in_effect w' = true → ∀ a, part_at p x = Some a → present m' a) →
  knows m' (Task.set_at (f w') x).
Proof.
  intros Hs Hk Hm Hw. destruct (knows_mono _ _ _ Hm Hk) as (H1 & H2 & _). split_and!; cbn [Task.at_ Task.set_at].
  - intros p' w'' e' f' Hs' Hin a Ha. change (part_at p' x = Some a) in Ha.
    destruct (slot_other _ _ _ _ _ _ _ _ _ _ Hs Hs') as [[-> ->]|[f'' Hs'']]; [by apply Hw|by eapply H1].
  - intros e' w'' Hq p' a Hp Ha. change (part_at p' x = Some a) in Ha.
    destruct (slot_pc _ _ _ _ _ Hs) as [(d & pl & sp & E & Hf)|(m0 & E & _)].
    + destruct (Hf w') as (? & ? & ? & E'). rewrite E' in Hq. discriminate Hq.
    + by eapply H2.
  - intros Hf. destruct (slot_pc _ _ _ _ _ Hs) as [(d & pl & sp & E & Hq)|(m0 & E & Hq)].
    + destruct (Hq w') as (? & ? & ? & E'). rewrite E' in Hf. discriminate Hf.
    + rewrite Hq in Hf. discriminate Hf.
Qed.

Lemma moves_stored object decode_and_encode i x s s' :
  locks s → store_ok s → State.tasks s !! i = Some x → moves object decode_and_encode i x s s' → store_ok s'.
Proof.
  intros Hl Hs Hx Hm. pose proof (tasks_know _ Hs _ _ Hx) as Hk.
  assert (∀ y s', State.tasks s' = <[i := y]> (State.tasks s) → State.store s' = State.store s →
    State.orphans s' = State.orphans s → knows (State.store s) y → store_ok s') as Hplain.
  { intros y s1 Et Es Eo Hy. eapply (stored_set i y [] []); [exact Hs|exact Et|exact Es| | |].
    - by rewrite app_nil_r.
    - intros a v Hin. by apply not_elem_of_nil in Hin.
    - by rewrite Es. }
  destruct Hm as [d n s1 Ha Hd Hfl|r Ha|Ha Hc|Ha|Ha ?|Ha ?|b Ha _|b Ha ?|b r Ha _ _|_ _|e Ha|e Ha|p e q Hsl|p ok e q Hsl
    |p e q Hsl|r Hh Hnl Hnr Hdec Hdone|r Ha|r Ha].
  - destruct (file_lock_spec _ _ _ _ Hl Hfl) as [Et _].
    assert (State.store s1 = State.store s ∧ State.orphans s1 = State.orphans s) as [Es Eo].
    { unfold file_lock in Hfl. destruct (State.files s !! d) as [n'|]; [destruct (_ <? _)%nat|];
        injection Hfl as _ <-; done. }
    eapply Hplain; [cbn; by rewrite Et|exact Es|exact Eo|by apply knows_ignorant].
  - eapply Hplain; [reflexivity..|]. apply knows_ignorant. by destruct r.
  - eapply Hplain; [reflexivity..|by apply knows_ignorant].
  - eapply Hplain; [reflexivity..|by apply knows_ignorant].
  - eapply Hplain; [reflexivity..|by apply knows_ignorant].
  - eapply Hplain; [reflexivity..|by apply knows_ignorant].
  - eapply Hplain; [reflexivity..|by apply knows_ignorant].
  - eapply Hplain; [reflexivity..|by apply knows_ignorant].
  - eapply Hplain; [reflexivity..|by apply knows_ignorant].
  - by destruct Hs.
  - eapply Hplain; [reflexivity..|]. split_and!; try done. intros [] w e' q [= <- <- <-]; done.
  - eapply Hplain; [reflexivity..|]. destruct Hk as (H1 & _ & _). rewrite Ha in H1.
    split_and!; cbn [Task.at_ Task.set_at]; [intros [] w e' q [= <- <- <-]; done| |done].
    intros e' w _ p a Hp Hpa. destruct p; [done|eapply (H1 Dict)|eapply (H1 Polls)|eapply (H1 Spans)];
      try reflexivity; exact Hpa.
  - eapply (stored_set i _ (written p x e) []); [exact Hs|reflexivity|reflexivity| | |].
    + cbn. by rewrite app_nil_r.
    + intros a v. rewrite app_nil_r. by eapply written_others.
    + eapply knows_put; [exact Hsl|exact Hk|intros b; apply put_all_keeps|].
      intros _ a Ha. eapply put_all_puts. apply elem_of_written. by split.
  - eapply Hplain; [reflexivity..|]. eapply knows_put; [exact Hsl|exact Hk|done|]. intros _.
    by apply (proj1 Hk _ _ _ _ Hsl).
  - eapply (stored_set i _ [] (written p x e)); [exact Hs|reflexivity|reflexivity|reflexivity| |].
    + intros a v. by eapply written_others.
    + by eapply knows_put.
  - eapply (stored_set i _ [] (on_the_way x)); [exact Hs|reflexivity|reflexivity|reflexivity| |].
    + intros a v. by apply on_the_way_others.
    + split_and!; [by intros []..|]. cbn [Task.at_ Task.set_at finished]. destruct r; try done. intros _.
      destruct (Hdone eq_refl) as [(_ & a & Ha & Hp)|(e & Ha)]; [by exists a|].
      destruct (registered _ Hl _ _ Hx) as (a & Hi & _); [by rewrite Ha|]. exists a. split; [done|].
      apply (proj1 Hk Samples (Answered true) e (λ w, WritingMarker e w)); [by rewrite Ha|done|done].
  - apply (Hplain (Task.set_at (Releasing r) x)).
    1-3: unfold drop_lock; destruct (fold_identity x); [by destruct (_ =? _)%nat|reflexivity].
    destruct Hk as (_ & _ & H3). rewrite Ha in H3. split_and!; [by intros []..|exact H3].
  - eapply Hplain; [reflexivity..|]. destruct Hk as (_ & _ & H3). rewrite Ha in H3.
    split_and!; [by intros []..|exact H3].
Qed.
End store.

(** ** What the parts hold *)
Section contents.
Context {H : Blake3}.
Variable object : Z → bytes → bytes → option bytes.
Variable decode_and_encode : bytes → bytes → option EncodedParts.t.
Variable calls : list (AggContext.t * bytes).

(** [e] is what the object of [x] is decoded to. *)
Definition made (e : EncodedParts.t) (x : Task.t) : Prop :=
  ∃ b, source_of object x = Some b ∧ decode_and_encode b (full_key x) = Some e.

Definition called (x : Task.t) : Prop := (Task.agg x, Task.raw_key x) ∈ calls.

Definition bytes_of (p : pc) : option bytes := match p with AwaitCpu b | Decoding b => Some b | _ => None end.

Definition encoded (p : pc) : option EncodedParts.t :=
  match p with Decoded (Some e) | WritingParts e _ _ _ | WritingMarker e _ => Some e | _ => None end.

Definition has_made (x : Task.t) : Prop :=
  (∀ b, bytes_of (Task.at_ x) = Some b → source_of object x = Some b) ∧
  (∀ e, encoded (Task.at_ x) = Some e → made e x).

Definition justified (a : address) (v : bytes) : Prop :=
  ∃ x p e, called x ∧ part_at p x = Some a ∧ v = EncodedParts.buf p e ∧ made e x.

Record contents (s : State.t) : Prop := {
  tasks_called i x : State.tasks s !! i = Some x → called x;
  tasks_made i x : State.tasks s !! i = Some x → has_made x;
  store_justified a v : State.store s !! a = Some v → justified a v;
  orphans_justified a v : (a, v) ∈ State.orphans s → justified a v }.

Lemma slot_encoded p q w e f :
  slot p q = Some (w, e, f) → encoded q = Some e ∧ ∀ w', encoded (f w') = Some e ∧ bytes_of (f w') = None.
Proof. destruct q, p; cbn [slot]; try done; intros [= <- <- <-]; done. Qed.

Lemma written_justified x p e a v : called x → made e x → (a, v) ∈ written p x e → justified a v.
Proof. intros Hc Hm Hin. apply elem_of_written in Hin as [Ha ->]. by exists x, p, e. Qed.

Lemma on_the_way_justified x a v : called x → has_made x → (a, v) ∈ on_the_way x → justified a v.
Proof.
  intros Hc [_ Hm] Hin. assert (∃ p e, encoded (Task.at_ x) = Some e ∧ (a, v) ∈ written p x e) as (p & e & He & Hw).
  { unfold on_the_way in Hin. destruct (Task.at_ x) as [| | | | | | | | |e d pl sp|e w| | |];
      try (by apply not_elem_of_nil in Hin).
    - rewrite !elem_of_app in Hin. destruct Hin as [Hin|[Hin|Hin]];
        [destruct d|destruct pl|destruct sp]; try (by apply not_elem_of_nil in Hin);
        [by exists Dict, e|by exists Polls, e|by exists Spans, e].
    - destruct w; try (by apply not_elem_of_nil in Hin). by exists Samples, e. }
  eapply written_justified; [exact Hc|by apply Hm|exact Hw].
Qed.

Lemma contents_set i y l o s s' :
  contents s → State.tasks s' = <[i := y]> (State.tasks s) →
  State.store s' = put_all l (State.store s) → State.orphans s' = State.orphans s ++ o →
  (∀ a v, (a, v) ∈ l ++ o → justified a v) → called y → has_made y → contents s'.
Proof.
  intros [Hc Hm Hs Ho] Et Es Eo Hj Hcy Hmy. constructor; rewrite ?Et.
  - intros j z Hz. apply list_lookup_insert_Some in Hz as [(_ & <- & _)|(_ & Hz)]; [done|by eapply Hc].
  - intros j z Hz. apply list_lookup_insert_Some in Hz as [(_ & <- & _)|(_ & Hz)]; [done|by eapply Hm].
  - intros a v. rewrite Es. intros Ha. destruct (put_all_lookup _ _ _ _ Ha) as [Ha'|Ha']; [by apply Hs|].
    apply Hj, elem_of_app. by left.
  - intros a v. rewrite Eo, elem_of_app. intros [Ha|Ha]; [by apply Ho|]. apply Hj, elem_of_app. by right.
Qed.

Lemma file_lock_frame d s n s1 : file_lock d s = (n, s1) →
  State.tasks s1 = State.tasks s ∧ State.store s1 = State.store s ∧ State.orphans s1 = State.orphans s ∧
  State.blocking s1 = State.blocking s.
Proof.
  unfold file_lock. intros Hl. destruct (State.files s !! d) as [n'|]; [destruct (_ <? _)%nat|];
    injection Hl as _ <-; done.
Qed.

Lemma drop_lock_frame x s :
  State.tasks (drop_lock x s) = State.tasks s ∧ State.store (drop_lock x s) = State.store s ∧
  State.orphans (drop_lock x s) = State.orphans s ∧ State.blocking (drop_lock x s) = State.blocking s.
Proof. unfold drop_lock. destruct (fold_identity x); [by destruct (_ =? _)%nat|done]. Qed.

Lemma moves_contents i x s s' :
  contents s → State.tasks s !! i = Some x → moves object decode_and_encode i x s s' → contents s'.
Proof.
  intros Hs Hx Hm. pose proof (tasks_called _ Hs _ _ Hx) as Hc. pose proof (tasks_made _ Hs _ _ Hx) as Hk.
  assert (∀ y s', State.tasks s' = <[i := y]> (State.tasks s) → State.store s' = State.store s →
    State.orphans s' = State.orphans s → called y → has_made y → contents s') as Hplain.
  { intros y s1 Et Es Eo Hy. eapply (contents_set i y [] []); [exact Hs|exact Et|exact Es| | |exact Hy].
    - by rewrite app_nil_r.
    - intros a v Hin. by apply not_elem_of_nil in Hin. }
  assert (∀ q, bytes_of q = None → encoded q = None → has_made (Task.set_at q x)) as Hnone.
  { intros q Hb He. split; cbn [Task.at_ Task.set_at]; [by rewrite Hb|by rewrite He]. }
  assert (∀ q e, encoded (Task.at_ x) = Some e → bytes_of q = None → encoded q = Some e →
    has_made (Task.set_at q x)) as Hsame.
  { intros q e He Hb Hq. split; cbn [Task.at_ Task.set_at]; [by rewrite Hb|]. rewrite Hq. intros e' [= <-].
    exact (proj2 Hk e He). }
  destruct Hm as [d n s1 Ha Hd Hfl|r Ha|Ha Hg|Ha|Ha ?|Ha ?|b Ha Hb|b Ha ?|b r Ha _ Hr|_ _|e Ha|e Ha|p e q Hsl|p ok e q Hsl
    |p e q Hsl|r Hh Hnl Hnr Hdec Hdone|r Ha|r Ha].
  - destruct (file_lock_frame _ _ _ _ Hfl) as (Et & Es & Eo & _).
    eapply Hplain; [cbn; by rewrite Et|exact Es|exact Eo|exact Hc|by split].
  - eapply Hplain; [reflexivity..|exact Hc|by apply Hnone].
  - eapply Hplain; [reflexivity..|exact Hc|by apply Hnone].
  - eapply Hplain; [reflexivity..|exact Hc|by apply Hnone].
  - eapply Hplain; [reflexivity..|exact Hc|by apply Hnone].
  - eapply Hplain; [reflexivity..|exact Hc|by apply Hnone].
  - eapply Hplain; [reflexivity..|exact Hc|]. split; [by intros b' [= <-]|done].
  - eapply Hplain; [reflexivity..|exact Hc|]. split; [|done]. intros b' [= <-]. apply (proj1 Hk). by rewrite Ha.
  - eapply Hplain; [reflexivity..|exact Hc|]. split; [done|]. destruct Hr as [->| ->]; [done|].
    intros e He. exists b. split; [apply (proj1 Hk); by rewrite Ha|].
    change (full_key (Task.set_at _ x)) with (full_key x). cbn [Task.at_ Task.set_at encoded] in He.
    by destruct (decode_and_encode b (full_key x)).
  - by destruct Hs.
  - eapply Hplain; [reflexivity..|exact Hc|]. by eapply Hsame; [rewrite Ha| |].
  - eapply Hplain; [reflexivity..|exact Hc|]. by eapply Hsame; [rewrite Ha| |].
  - destruct (slot_encoded _ _ _ _ _ Hsl) as [He Hq]. destruct (Hq Landed).
    eapply (contents_set i _ (written p x e) []); [exact Hs|reflexivity|reflexivity| | |exact Hc|by eapply Hsame].
    + cbn. by rewrite app_nil_r.
    + intros a v. rewrite app_nil_r. apply written_justified; [done|]. by apply (proj2 Hk).
  - destruct (slot_encoded _ _ _ _ _ Hsl) as [He Hq]. destruct (Hq (Answered ok)).
    eapply Hplain; [reflexivity..|exact Hc|by eapply Hsame].
  - destruct (slot_encoded _ _ _ _ _ Hsl) as [He Hq]. destruct (Hq (Answered false)).
    eapply (contents_set i _ [] (written p x e)); [exact Hs|reflexivity..| |exact Hc|by eapply Hsame].
    intros a v. apply written_justified; [done|]. by apply (proj2 Hk).
  - eapply (contents_set i _ [] (on_the_way x)); [exact Hs|reflexivity..| |exact Hc|by apply Hnone].
    intros a v. by apply on_the_way_justified.
  - destruct (drop_lock_frame x s) as (Et & Es & Eo & _).
    apply (Hplain (Task.set_at (Releasing r) x)); [cbn; by rewrite Et|exact Es|exact Eo|exact Hc|by apply Hnone].
  - eapply Hplain; [reflexivity..|exact Hc|by apply Hnone].
Qed.
End contents.

(** ** Blocking threads *)
Section blocking.
Context {H : Blake3}.

Definition decoding (x : Task.t) : bool := match Task.at_ x with Decoding _ => true | _ => false end.

(** A call that waits for its decoder has one. *)
Definition attended (s : State.t) : Prop :=
  ∀ i x, State.tasks s !! i = Some x → decoding x = true → i ∈ State.blocking s.

Lemma moves_attended object decode_and_encode i x s s' :
  attended s → State.tasks s !! i = Some x → moves object decode_and_encode i x s s' → attended s'.
Proof.
  intros Hs Hx Hm.
  assert (∀ y s', State.tasks s' = <[i := y]> (State.tasks s) → State.blocking s' = State.blocking s →
    decoding y = false → attended s') as Hplain.
  { intros y s1 Et Eb Hy j z. rewrite Et, Eb. intros Hj Hz.
    apply list_lookup_insert_Some in Hj as [(_ & <- & _)|(_ & Hj)]; [by rewrite Hy in Hz|by eapply Hs]. }
  destruct Hm as [d n s1 Ha Hd Hfl|r Ha|Ha Hg|Ha|Ha ?|Ha ?|b Ha Hb|b Ha ?|b r Ha _ Hr|Hn _|e Ha|e Ha|p e q Hsl|p ok e q Hsl
    |p e q Hsl|r Hh Hnl Hnr Hdec Hdone|r Ha|r Ha].
  1: { destruct (file_lock_frame _ _ _ _ Hfl) as (Et & _ & _ & Eb). eapply Hplain; [cbn; by rewrite Et|exact Eb|done]. }
  7: { intros j z Hj Hz. cbn in Hj |- *. apply list_lookup_insert_Some in Hj as [(<- & _ & _)|(_ & Hj)]; [set_solver|].
       pose proof (Hs _ _ Hj Hz). set_solver. }
  7: { intros j z Hj Hz. cbn in Hj |- *. apply list_lookup_insert_Some in Hj as [(<- & <- & _)|(Hne & Hj)]; [done|].
       pose proof (Hs _ _ Hj Hz). set_solver. }
  7: { intros j z Hj Hz. cbn in Hj |- *. assert (j <> i) by (intros ->; rewrite Hx in Hj; injection Hj as <-;
         unfold decoding in Hz; destruct (Task.at_ x) eqn:E; try done; by eapply Hn).
       pose proof (Hs _ _ Hj Hz). set_solver. }
  9, 10, 11: eapply Hplain; [reflexivity|reflexivity|]; unfold decoding; cbn [Task.at_ Task.set_at];
    destruct (slot_pc _ _ _ _ _ Hsl) as [(? & ? & ? & _ & Hf)|(? & _ & Hf)];
    [edestruct Hf as (? & ? & ? & ->); reflexivity|by rewrite Hf].
  10: { destruct (drop_lock_frame x s) as (Et & _ & _ & Eb).
        apply (Hplain (Task.set_at (Releasing r) x)); [cbn; by rewrite Et|exact Eb|done]. }
  all: eapply Hplain; reflexivity.
Qed.

Definition cancelled (x : Task.t) : bool :=
  match Task.at_ x with Leaving Cancelled | Releasing Cancelled | Done Cancelled => true | _ => false end.

(** A decoder without a caller was left behind by a cancelled call. *)
Definition traced (s : State.t) : Prop :=
  ∀ i, i ∈ State.blocking s → ∃ x, State.tasks s !! i = Some x ∧ (decoding x || cancelled x) = true.

Lemma moves_traced object decode_and_encode i x s s' :
  traced s → State.tasks s !! i = Some x → moves object decode_and_encode i x s s' → traced s'.
Proof.
  intros Hs Hx Hm.
  assert (∀ y s', State.tasks s' = <[i := y]> (State.tasks s) →
    (∀ j, j ∈ State.blocking s' → j ∈ State.blocking s ∨ j = i) →
    ((i ∈ State.blocking s → decoding x = true ∨ cancelled x = true) → i ∈ State.blocking s' →
     (decoding y || cancelled y) = true) → traced s') as Hset.
  { intros y s1 Et Eb Hy j Hj. rewrite Et. destruct (decide (i = j)) as [<-|Hne].
    - exists y. split; [by apply list_lookup_insert_eq, lookup_lt_Some with x|].
      apply Hy; [|done]. intros Hi. destruct (Hs i Hi) as (z & Hz & Hd). rewrite Hx in Hz. injection Hz as <-.
      by apply orb_true_iff in Hd.
    - rewrite list_lookup_insert_ne by done. destruct (Eb j Hj); [by apply Hs|congruence]. }
  assert (∀ y s', State.tasks s' = <[i := y]> (State.tasks s) → State.blocking s' = State.blocking s →
    decoding x = false → cancelled x = false → traced s') as Hplain.
  { intros y s1 Et Eb H1 H2. apply (Hset y s1 Et); rewrite Eb; [auto|]. intros Hi Hin.
    destruct (Hi Hin); congruence. }
  destruct Hm as [d n s1 Ha Hd Hfl|r Ha|Ha Hg|Ha|Ha ?|Ha ?|b Ha Hb|b Ha ?|b r Ha _ Hr|Hn _|e Ha|e Ha|p e q Hsl|p ok e q Hsl
    |p e q Hsl|r Hh Hnl Hnr Hdec Hdone|r Ha|r Ha].
  1: { destruct (file_lock_frame _ _ _ _ Hfl) as (Et & _ & _ & Eb).
       eapply Hplain; [cbn; by rewrite Et|exact Eb|unfold decoding; by rewrite Ha|unfold cancelled; by rewrite Ha]. }
  7: { eapply Hset; [reflexivity|cbn; set_solver|]. done. }
  7: { eapply Hset; [reflexivity|cbn; set_solver|]. cbn. set_solver. }
  7: { intros j Hj. cbn in Hj |- *. apply Hs. set_solver. }
  9, 10, 11: eapply Hplain; [reflexivity|reflexivity|unfold decoding|unfold cancelled];
    by destruct (slot_pc _ _ _ _ _ Hsl) as [(? & ? & ? & -> & Hf)|(? & -> & Hf)].
  9: { eapply Hset; [reflexivity|by left|]. cbn [State.blocking goto set_task leave_fold set_orphans add_permits].
       intros Hi Hin. unfold decoding, cancelled in Hi |- *. cbn [Task.at_ Task.set_at]. destruct (Hi Hin) as [Hd|Hd].
       - destruct (Task.at_ x) eqn:E; try done. by rewrite (Hdec _ eq_refl).
       - destruct (Task.at_ x) as [| | | | | | | | | | |r'|r'|r'] eqn:E; try done; [by destruct (Hnl r')|by destruct (Hnr r')]. }
  9: { destruct (drop_lock_frame x s) as (Et & _ & _ & Eb).
       eapply (Hset (Task.set_at (Releasing r) x)); [cbn; by rewrite Et|cbn; rewrite Eb; by left|].
       cbn [State.blocking goto set_task]. rewrite Eb. intros Hi Hin. unfold decoding, cancelled in Hi |- *.
       rewrite Ha in Hi. cbn [Task.at_ Task.set_at]. by destruct (Hi Hin). }
  9: { eapply Hset; [reflexivity|by left|]. intros Hi Hin. unfold decoding, cancelled in Hi |- *.
       rewrite Ha in Hi. cbn [Task.at_ Task.set_at]. by destruct (Hi Hin). }
  all: eapply Hplain; [reflexivity|reflexivity|unfold decoding; by rewrite Ha|unfold cancelled; by rewrite Ha].
Qed.
End blocking.

(** ** Every call ends *)

Definition put_rank (w : put) : nat := match w with Issued => 2 | Landed => 1 | Answered _ => 0 end.

(** How far a call is from its end. *)
Definition rank (p : pc) : nat :=
  match p with
  | Start => 30 | AwaitFile => 29 | Checking => 28 | AwaitInflight => 27 | AwaitFetch => 26 | Fetching => 25
  | AwaitCpu _ => 24 | Decoding _ => 22 | Decoded _ => 21
  | WritingParts _ dict polls spans => 14 + put_rank dict + put_rank polls + put_rank spans
  | WritingMarker _ samples => 10 + put_rank samples
  | Leaving _ => 2 | Releasing _ => 1 | Done _ => 0
  end.

Definition work (s : State.t) : nat :=
  total (λ x, rank (Task.at_ x)) (State.tasks s) + size (State.blocking s) + length (State.orphans s).

Section ends.
Context {H : Blake3}.
Variable object : Z → bytes → bytes → option bytes.
Variable decode_and_encode : bytes → bytes → option EncodedParts.t.

Lemma written_length p x e : (length (written p x e) <= 1)%nat.
Proof. unfold written. destruct (part_at p x); cbn; lia. Qed.

(** Leaving is shorter than what it leaves on the way. *)
Lemma leave_rank x : has_guard (Task.at_ x) = true ∨ Task.at_ x = AwaitFile →
  (2 + length (on_the_way x) < rank (Task.at_ x))%nat.
Proof.
  unfold on_the_way. intros Hg. destruct (Task.at_ x) as [| | | | | | | | |e d pl sp|e w| | |]; cbn; try lia;
    try (by destruct Hg).
  - pose proof (written_length Dict x e). pose proof (written_length Polls x e). pose proof (written_length Spans x e).
    destruct d, pl, sp; rewrite ?length_app; cbn [length put_rank]; lia.
  - pose proof (written_length Samples x e). destruct w; cbn [length put_rank]; lia.
Qed.

Lemma slot_rank p q w e f w' :
  slot p q = Some (w, e, f) → (rank (f w') + put_rank w = rank q + put_rank w')%nat.
Proof. destruct q, p; cbn [slot]; try done; intros [= <- <- <-]; cbn [rank]; lia. Qed.

Lemma size_remove (i : nat) (X : gset nat) : i ∈ X → (S (size (X ∖ {[i]})) = size X)%nat.
Proof.
  intros Hi. pose proof (size_union {[i]} (X ∖ {[i]}) ltac:(set_solver)) as Hs.
  rewrite size_singleton, <- union_difference_L in Hs by set_solver. lia.
Qed.

Lemma size_add (i : nat) (X : gset nat) : (size ({[i]} ∪ X) <= S (size X))%nat.
Proof.
  destruct (decide (i ∈ X)) as [Hi|Hi].
  - assert ({[i]} ∪ X = X) as -> by set_solver. lia.
  - pose proof (size_union {[i]} X ltac:(set_solver)) as Hs. rewrite size_singleton in Hs. lia.
Qed.

Lemma moves_work i x s s' :
  State.tasks s !! i = Some x → moves object decode_and_encode i x s s' → (work s' < work s)%nat.
Proof.
  intros Hx Hm.
  assert (∀ y s', State.tasks s' = <[i := y]> (State.tasks s) →
    (rank (Task.at_ y) + size (State.blocking s') + length (State.orphans s') <
     rank (Task.at_ x) + size (State.blocking s) + length (State.orphans s))%nat → (work s' < work s)%nat) as Hset.
  { intros y s1 Et Hlt. unfold work. rewrite Et.
    pose proof (total_insert (λ x, rank (Task.at_ x)) i x y _ Hx). cbn beta in *. lia. }
  destruct Hm as [d n s1 Ha Hd Hfl|r Ha|Ha Hg|Ha|Ha ?|Ha ?|b Ha Hb|b Ha ?|b r Ha Hi Hr|Hn Hi|e Ha|e Ha|p e q Hsl|p ok e q Hsl
    |p e q Hsl|r Hh Hnl Hnr Hdec Hdone|r Ha|r Ha].
  1: { destruct (file_lock_frame _ _ _ _ Hfl) as (Et & _ & Eo & Eb). eapply Hset; [cbn; by rewrite Et|].
       cbn. rewrite Ha, Eo, Eb. cbn. lia. }
  7: { eapply Hset; [reflexivity|]. cbn. rewrite Ha. pose proof (size_add i (State.blocking s)). cbn. lia. }
  7: { eapply Hset; [reflexivity|]. cbn. rewrite Ha. pose proof (size_remove i _ Hi). cbn. lia. }
  7: { unfold work. cbn [State.tasks State.blocking State.orphans set_blocking]. pose proof (size_remove i _ Hi). lia. }
  9, 10, 11: eapply Hset; [reflexivity|]; cbn; rewrite ?length_app; pose proof (written_length p x e);
    lazymatch type of Hsl with _ = Some (_, _, ?f) =>
      match goal with |- context [rank (f ?w)] => pose proof (slot_rank _ _ _ _ _ w Hsl) end end; cbn [put_rank] in *; lia.
  9: { eapply Hset; [reflexivity|]. cbn. rewrite length_app. pose proof (leave_rank x) as Hl. cbn.
       enough (2 + length (on_the_way x) < rank (Task.at_ x))%nat by lia. apply Hl.
       destruct (Task.at_ x) as [| | | | | | | | | | |r'|r'|r']; auto;
         try (by destruct (Hnl r')); try (by destruct (Hnr r')); discriminate Hh. }
  9: { destruct (drop_lock_frame x s) as (Et & _ & Eo & Eb).
       apply (Hset (Task.set_at (Releasing r) x)); [cbn; by rewrite Et|]. cbn. rewrite Ha, Eo, Eb. cbn. lia. }
  all: eapply Hset; [reflexivity|]; cbn; rewrite Ha; cbn; lia.
Qed.

Lemma next_work e s s' : next object decode_and_encode e s = Some s' → (work s' < work s)%nat.
Proof.
  intros Hn. destruct (next_moves _ _ _ _ _ Hn) as [(i & x & Hi & Hm)|(n & o & Hno & ->)]; [by eapply moves_work|].
  unfold work. cbn [State.tasks State.blocking State.orphans set_orphans set_store].
  pose proof (lookup_lt_Some _ _ _ Hno). rewrite length_delete by eauto. lia.
Qed.

Lemma search (f : pc → bool) (l : list Task.t) :
  (∃ i x, l !! i = Some x ∧ f (Task.at_ x) = true) ∨ (∀ i x, l !! i = Some x → f (Task.at_ x) = false).
Proof.
  induction l as [|y l [(i & x & Hi & Hx)|IH]].
  - right. intros i x Hi. by rewrite lookup_nil in Hi.
  - left. by exists (S i), x.
  - destruct (f (Task.at_ y)) eqn:E; [left; by exists 0%nat, y|right]. intros [|i] x Hi; [by injection Hi as <-|by eapply IH].
Qed.

Definition done_at (p : pc) : bool := match p with Done _ => true | _ => false end.
Definition quiet (s : State.t) : Prop :=
  (∀ i x, State.tasks s !! i = Some x → done_at (Task.at_ x) = true) ∧ State.blocking s = ∅ ∧ State.orphans s = [].

(** An event other than a cancellation that is possible. *)
Definition possible (s : State.t) : Prop :=
  ∃ e s', is_cancel e = false ∧ next object decode_and_encode e s = Some s'.

Lemma possible_of e i x s s' :
  is_cancel e = false → task_of e = Some i → State.tasks s !! i = Some x →
  fold_step object decode_and_encode e i x s = Some s' → possible s.
Proof.
  intros Hc Ht Hx Hs. exists e, s'. split; [done|].
  destruct e; cbn [task_of] in Ht; try discriminate Ht; injection Ht as ->; cbn [next task_of mbind option_bind];
    rewrite Hx; exact Hs.
Qed.

(** A call that waits for nobody else. *)
Definition ready (p : pc) : bool :=
  match p with AwaitFile | AwaitInflight | AwaitFetch | AwaitCpu _ | Done _ => false | _ => true end.

Lemma ready_possible i x s :
  attended s → State.tasks s !! i = Some x → ready (Task.at_ x) = true → possible s.
Proof.
  intros Hat Hx Hr.
  assert (∀ w p e f, slot p (Task.at_ x) = Some (w, e, f) → (∀ ok, w <> Answered ok) → possible s) as Hput.
  { intros w p e f Hs Hw. destruct w as [| |ok]; [| |by destruct (Hw ok)].
    - eapply (possible_of (Lands i p)); [done|done|exact Hx|]. cbn [fold_step]. unfold put_lands. by rewrite Hs.
    - eapply (possible_of (Answers i p true)); [done|done|exact Hx|]. cbn [fold_step]. unfold put_answers. by rewrite Hs. }
  assert (∀ e s', is_cancel e = false → task_of e = Some i → fold_step object decode_and_encode e i x s = Some s' →
    possible s) as Hgo by (intros; by eapply possible_of).
  destruct (Task.at_ x) as [| | | | | | |b|r|e d pl sp|e w|r|r|r] eqn:E; try discriminate Hr.
  - destruct (fold_identity x) as [d|] eqn:Ed.
    + destruct (file_lock d s) as [n s1] eqn:Ef.
      eapply (Hgo (Call i)); [done..|]. cbn [fold_step]. by rewrite E, Ed, Ef.
    + eapply (Hgo (Call i)); [done..|]. cbn [fold_step]. by rewrite E, Ed.
  - eapply (Hgo (Check i true)); [done..|]. cbn [fold_step]. by rewrite E.
  - eapply (Hgo (Fetch i true)); [done..|]. cbn [fold_step]. by rewrite E.
  - eapply (Hgo (DecodeEnds i false)); [done..|]. cbn [fold_step]. rewrite bool_decide_true; [done|].
    apply (Hat i x Hx). unfold decoding. by rewrite E.
  - destruct r; eapply (Hgo (Resume i)); try done; cbn [fold_step]; unfold resume; by rewrite E.
  - destruct d as [| |d]; [by eapply (Hput Issued Dict)|by eapply (Hput Landed Dict)|].
    destruct pl as [| |pl]; [by eapply (Hput Issued Polls)|by eapply (Hput Landed Polls)|].
    destruct sp as [| |sp]; [by eapply (Hput Issued Spans)|by eapply (Hput Landed Spans)|].
    destruct (d && pl && sp) eqn:Eb; eapply (Hgo (Resume i)); try done; cbn [fold_step]; unfold resume; by rewrite E, Eb.
  - destruct w as [| |w]; [by eapply (Hput Issued Samples)|by eapply (Hput Landed Samples)|].
    eapply (Hgo (Resume i)); try done. cbn [fold_step]; unfold resume; by rewrite E.
  - eapply (Hgo (DropLock i)); [done..|]. cbn [fold_step]. by rewrite E.
  - eapply (Hgo (ReleaseLock i)); [done..|]. cbn [fold_step]. by rewrite E.
Qed.
End ends.

(** ** Properties *)

(** A hash for examples. *)
Definition toy_blake3 : Blake3.
Proof.
  refine {| blake3 := λ s, take 32 (s ++ repeat (z2b 0) 32) |}.
  intros s. rewrite length_take, length_app, repeat_length. lia.
Defined.

Section runs.
Context {H : Blake3}.
Variable object : Z → bytes → bytes → option bytes.
Variable decode_and_encode : bytes → bytes → option EncodedParts.t.
Variable limits : FoldLimits.t.
Variable calls : list (AggContext.t * bytes).

Record good (s : State.t) : Prop := {
  good_permits : permits limits s;
  good_locks : locks s;
  good_stored : store_ok s;
  good_contents : contents object decode_and_encode calls s;
  good_attended : attended s;
  good_traced : traced s }.

Definition positive : Prop :=
  0 < FoldLimits.inflight limits ∧ 0 < FoldLimits.fetch limits ∧ 0 < FoldLimits.cpu limits.

Lemma start_task i x : State.tasks (start limits calls ∅) !! i = Some x → Task.at_ x = Start ∧ called calls x.
Proof.
  cbn [State.tasks start]. intros ([agg raw] & -> & Hc)%list_lookup_fmap_Some_1. split; [done|].
  by apply list_elem_of_lookup_2 in Hc.
Qed.

Lemma start_count h : h Start = false → count (holds h) (State.tasks (start limits calls ∅)) = 0%nat.
Proof.
  intros Hh. apply count_none. intros i x Hi. unfold holds. by rewrite (proj1 (start_task i x Hi)).
Qed.

Lemma start_good : positive → good (start limits calls ∅).
Proof.
  intros (Hi & Hf & Hc). constructor.
  - constructor; rewrite ?start_count by done; cbn; lia.
  - constructor.
    + intros i x Hx. by rewrite (proj1 (start_task i x Hx)).
    + intros d n. cbn [State.files start]. by rewrite lookup_empty.
    + intros i x Hx. by rewrite (proj1 (start_task i x Hx)).
    + intros i j x y Hx _ _. by rewrite (proj1 (start_task i x Hx)).
  - constructor; cbn [State.store State.orphans start].
    + intros a [v Hv]. by rewrite lookup_empty in Hv.
    + intros a v Hin. by apply not_elem_of_nil in Hin.
    + intros i x Hx. apply knows_ignorant. by rewrite (proj1 (start_task i x Hx)).
  - constructor; cbn [State.store State.orphans start].
    + intros i x Hx. apply (start_task i x Hx).
    + intros i x Hx. split; by rewrite (proj1 (start_task i x Hx)).
    + intros a v. by rewrite lookup_empty.
    + intros a v Hin. by apply not_elem_of_nil in Hin.
  - intros i x Hx. unfold decoding. by rewrite (proj1 (start_task i x Hx)).
  - intros i Hin. cbn in Hin. set_solver.
Qed.

Lemma moves_good i x s s' :
  good s → State.tasks s !! i = Some x → moves object decode_and_encode i x s s' → good s'.
Proof.
  intros [Hp Hl Hs Hc Ha Ht] Hx Hm. constructor;
    [by eapply moves_permits|by eapply moves_locks|by eapply moves_stored|by eapply moves_contents
    |by eapply moves_attended|by eapply moves_traced].
Qed.

Lemma orphan_good n o s :
  good s → State.orphans s !! n = Some o →
  good (set_orphans (delete n (State.orphans s)) (set_store (put_all [o] (State.store s)) s)).
Proof.
  intros [Hp Hl Hs Hc Ha Ht] Ho. apply list_elem_of_lookup_2 in Ho.
  assert (∀ p, p ∈ delete n (State.orphans s) → p ∈ State.orphans s) as Hsub.
  { intros p Hin. by eapply elem_of_submseteq, sublist_submseteq, sublist_delete. }
  assert (∀ b, present (State.store s) b → present (put_all [o] (State.store s)) b) as Hm
    by (intros b; apply put_all_keeps).
  constructor; [by destruct Hp|by destruct Hl| | |done|done].
  - destruct Hs as [Hpr Hor Hk]. constructor; cbn [State.store State.orphans State.tasks set_orphans set_store].
    + intros a [v Hv]. eapply others_present_mono; [exact Hm|].
      destruct (put_all_lookup _ _ _ _ Hv) as [Hold|Hin]; [apply Hpr; by exists v|].
      apply list_elem_of_singleton in Hin as <-. by eapply Hor.
    + intros a v Hin. eapply others_present_mono; [exact Hm|]. eapply Hor. by apply Hsub.
    + intros i x Hx. eapply knows_mono; [exact Hm|by eapply Hk].
  - destruct Hc as [Hcc Hmk Hst Hor]. constructor; cbn [State.store State.orphans State.tasks set_orphans set_store];
      [done|done| |].
    + intros a v Hv. destruct (put_all_lookup _ _ _ _ Hv) as [Hold|Hin]; [by apply Hst|].
      apply list_elem_of_singleton in Hin as <-. by apply Hor.
    + intros a v Hin. by apply Hor, Hsub.
Qed.

Lemma run_good es s s' : good s → run object decode_and_encode es s = Some s' → good s'.
Proof. apply run_keeps; [exact moves_good|]. intros n o s1 Hg Ho. by apply orphan_good. Qed.

(** A state where only cancellations are possible is quiet. *)
Lemma progress s : positive → good s → quiet s ∨ possible object decode_and_encode s.
Proof.
  intros (Li & Lf & Lc) [[Ei Ef Ec _] _ _ _ Hat Htr].
  destruct (search ready (State.tasks s)) as [(i & x & Hx & Hr)|Hready]; [right; by eapply ready_possible|].
  assert (∀ h, (∀ p, h p = true → ready p = true ∨ ∃ b, p = AwaitCpu b) → ∀ i x, State.tasks s !! i = Some x →
    h (Task.at_ x) = true → ∃ b, Task.at_ x = AwaitCpu b) as Hwait.
  { intros h Hh i x Hx Ht. destruct (Hh _ Ht) as [Hr|Hb]; [|done]. by rewrite (Hready i x Hx) in Hr. }
  assert (∀ h, (∀ i x, State.tasks s !! i = Some x → h (Task.at_ x) = false) →
    count (holds h) (State.tasks s) = 0%nat) as Hnone by (intros h Hh; apply count_none; exact Hh).
  destruct (search (λ p, match p with AwaitCpu _ => true | _ => false end) (State.tasks s)) as [(i & x & Hx & Hr)|Hcpu].
  { right. destruct (Task.at_ x) as [| | | | | |b| | | | | | |] eqn:E; try discriminate Hr.
    eapply (possible_of _ _ (AcquireCpu i)); [done|done|exact Hx|]. cbn [fold_step]. rewrite E.
    destruct (Z.ltb_spec 0 (State.cpu s)) as [_|Hle]; [reflexivity|]. exfalso.
    rewrite (Hnone has_cpu) in Ec; [lia|]. intros j y Hy. pose proof (Hready j y Hy). by destruct (Task.at_ y). }
  destruct (search (λ p, match p with AwaitFetch => true | _ => false end) (State.tasks s)) as [(i & x & Hx & Hr)|Hfetch].
  { right. destruct (Task.at_ x) eqn:E; try discriminate Hr.
    eapply (possible_of _ _ (AcquireFetch i)); [done|done|exact Hx|]. cbn [fold_step]. rewrite E.
    destruct (Z.ltb_spec 0 (State.fetch s)) as [_|Hle]; [reflexivity|]. exfalso.
    rewrite (Hnone has_fetch) in Ef; [lia|]. intros j y Hy. pose proof (Hready j y Hy). by destruct (Task.at_ y). }
  destruct (search (λ p, match p with AwaitInflight => true | _ => false end) (State.tasks s)) as [(i & x & Hx & Hr)|Hinf].
  { right. destruct (Task.at_ x) eqn:E; try discriminate Hr.
    eapply (possible_of _ _ (AcquireInflight i)); [done|done|exact Hx|]. cbn [fold_step]. rewrite E.
    destruct (Z.ltb_spec 0 (State.inflight s)) as [_|Hle]; [reflexivity|]. exfalso.
    rewrite (Hnone has_inflight) in Ei; [lia|]. intros j y Hy.
    pose proof (Hready j y Hy). pose proof (Hcpu j y Hy). pose proof (Hfetch j y Hy). by destruct (Task.at_ y). }
  destruct (search (λ p, match p with AwaitFile => true | _ => false end) (State.tasks s)) as [(i & x & Hx & Hr)|Hfile].
  { right. destruct (Task.at_ x) eqn:E; try discriminate Hr.
    eapply (possible_of _ _ (Lock i)); [done|done|exact Hx|]. cbn [fold_step]. rewrite E.
    rewrite count_none; [reflexivity|]. intros j y Hy. unfold guard_of.
    pose proof (Hready j y Hy). pose proof (Hcpu j y Hy). pose proof (Hfetch j y Hy). pose proof (Hinf j y Hy).
    by destruct (Task.at_ y). }
  assert (∀ i x, State.tasks s !! i = Some x → done_at (Task.at_ x) = true) as Hdone.
  { intros j y Hy. pose proof (Hready j y Hy). pose proof (Hcpu j y Hy). pose proof (Hfetch j y Hy).
    pose proof (Hinf j y Hy). pose proof (Hfile j y Hy). by destruct (Task.at_ y). }
  destruct (set_choose_or_empty (State.blocking s)) as [[i Hi]|Hb].
  { right. destruct (Htr i Hi) as (x & Hx & _). eapply (possible_of _ _ (DecodeEnds i false)); [done|done|exact Hx|].
    cbn [fold_step]. by rewrite bool_decide_true. }
  destruct (State.orphans s) as [|o l] eqn:Eo.
  - left. split_and!; [done|by apply leibniz_equiv|done].
  - right. eexists (OrphanLands 0), _. split; [done|]. cbn [next]. rewrite Eo. reflexivity.
Qed.

Lemma run_work es s s' : run object decode_and_encode es s = Some s' → (length es + work s' <= work s)%nat.
Proof.
  revert s. induction es as [|e es IH]; intros s; cbn [run length]; [by intros [= <-]|].
  destruct (next object decode_and_encode e s) as [s1|] eqn:E; [|done]. cbn [mbind option_bind]. intros Hr.
  pose proof (IH _ Hr). pose proof (next_work _ _ _ _ _ E). lia.
Qed.

(** From every state the calls can all end, without a cancellation. *)
Lemma finish s : positive → good s → ∃ es s', Forall (λ e, is_cancel e = false) es ∧
  run object decode_and_encode es s = Some s' ∧ quiet s' ∧ good s'.
Proof.
  intros Hpos. assert (∀ n s, (work s < n)%nat → good s → ∃ es s', Forall (λ e, is_cancel e = false) es ∧
    run object decode_and_encode es s = Some s' ∧ quiet s' ∧ good s') as Hall.
  { induction n as [|n IH]; intros s1 Hn Hg; [lia|].
    destruct (progress s1 Hpos Hg) as [Hq|(e & s2 & He & Hs2)]; [by exists [], s1|].
    pose proof (next_work _ _ _ _ _ Hs2).
    assert (good s2) as Hg2 by (eapply (run_good [e]); [exact Hg|]; cbn [run]; by rewrite Hs2).
    destruct (IH s2 ltac:(lia) Hg2) as (es & s3 & Hes & Hr & Hq & Hg3). exists (e :: es), s3.
    split_and!; [by constructor| |done..]. cbn [run]. by rewrite Hs2. }
  apply (Hall (S (work s))). lia.
Qed.

Lemma start_work : work (start limits calls ∅) = (30 * length calls)%nat.
Proof.
  unfold work, start. cbn [State.tasks State.blocking State.orphans length]. rewrite size_empty.
  enough (total (λ x, rank (Task.at_ x)) ((λ '(agg, raw_key), Task.new agg raw_key) <$> calls) = (30 * length calls)%nat)
    by lia.
  induction calls as [|[agg raw] l IH]; [done|]. rewrite fmap_cons, total_cons, IH. cbn [rank Task.at_ Task.new length]. lia.
Qed.

Lemma quiet_permits s : good s → quiet s →
  State.inflight s = FoldLimits.inflight limits ∧ State.fetch s = FoldLimits.fetch limits ∧
  State.cpu s = FoldLimits.cpu limits.
Proof.
  intros [[Ei Ef Ec _] _ _ _ _ _] (Hd & _ & _).
  assert (∀ h, (∀ r, h (Done r) = false) → count (holds h) (State.tasks s) = 0%nat) as Hnone.
  { intros h Hh. apply count_none. intros i x Hx. unfold holds. pose proof (Hd i x Hx) as Hdx.
    destruct (Task.at_ x); try discriminate Hdx. apply Hh. }
  rewrite (Hnone has_inflight) in Ei by done. rewrite (Hnone has_fetch) in Ef by done.
  rewrite (Hnone has_cpu) in Ec by done. lia.
Qed.
End runs.

Lemma limits_positive f c i : positive (FoldLimits.new f c i).
Proof. unfold positive, FoldLimits.new. cbn. lia. Qed.

(** C25: In every state that calls of [fold_one] reach from an empty output
    store, however they interleave, fail or are cancelled, and however late puts
    take effect, a file whose completion marker exists has all its parts. *)
Theorem marker_is_last {H : Blake3} object decode_and_encode f c n calls es s x a :
  run object decode_and_encode es (start (FoldLimits.new f c n) calls ∅) = Some s →
  part_at Samples x = Some a → is_Some (State.store s !! a) →
  ∀ p b, part_at p x = Some b → is_Some (State.store s !! b).
Proof.
  intros Hr Ha Hp p b Hb.
  pose proof (run_good _ _ _ _ _ _ _ (start_good _ _ _ calls (limits_positive f c n)) Hr) as Hg.
  destruct (decide (p = Samples)) as [->|Hne]; [congruence|].
  by apply (present_ok _ (good_stored _ _ _ _ _ Hg) a Hp x p b).
Qed.

(** C26: A call that answers success leaves its file's four parts in the store,
    as its object is decoded, whoever wrote them, when the hashes of the folded
    keys differ. *)
Theorem folded_parts_exact {H : Blake3} object decode_and_encode f c n calls es s i x :
  run object decode_and_encode es (start (FoldLimits.new f c n) calls ∅) = Some s →
  State.tasks s !! i = Some x → Task.at_ x = Done Folded →
  (∀ agg raw, (agg, raw) ∈ calls → let y := Task.new agg raw in
     part_leaf_of (full_key y) = part_leaf_of (full_key x) →
     full_key y = full_key x ∧ source_of object y = source_of object x) →
  ∃ b e, source_of object x = Some b ∧ decode_and_encode b (full_key x) = Some e ∧
    ∀ p, ∃ a, part_at p x = Some a ∧ State.store s !! a = Some (EncodedParts.buf p e).
Proof.
  intros Hr Hx Ha Hinj.
  pose proof (run_good _ _ _ _ _ _ _ (start_good _ _ _ calls (limits_positive f c n)) Hr) as Hg.
  pose proof (tasks_know _ (good_stored _ _ _ _ _ Hg) _ _ Hx) as (_ & _ & Hf).
  destruct Hf as (a & Hid & Hpa); [by rewrite Ha|].
  assert (∀ p a v, part_at p x = Some a → State.store s !! a = Some v →
    ∃ b e, source_of object x = Some b ∧ decode_and_encode b (full_key x) = Some e ∧ v = EncodedParts.buf p e) as Hval.
  { intros p a' v Hp Hv.
    destruct (store_justified _ _ _ _ (good_contents _ _ _ _ _ Hg) _ _ Hv) as (y & q & e & Hc & Hq & -> & b & Hb & He).
    destruct (part_at_apart _ _ _ _ _ Hq Hp) as [-> Hl].
    destruct (Hinj (Task.agg y) (Task.raw_key y) Hc Hl) as [Hk Hs]. exists b, e.
    change (full_key (Task.new (Task.agg y) (Task.raw_key y))) with (full_key y) in Hk.
    change (source_of object (Task.new (Task.agg y) (Task.raw_key y))) with (source_of object y) in Hs.
    rewrite <- Hk, <- Hs. done. }
  destruct Hpa as [v Hv]. destruct (Hval Samples a v Hid Hv) as (b & e & Hb & He & Hve). exists b, e.
  split_and!; [done..|]. intros p.
  assert (∃ a', part_at p x = Some a') as [a' Ha'].
  { apply part_at_key in Hid as (k & Hk & _). unfold part_at. cbn [part_key] in Hk.
    unfold samples_part_key, scoped_part_key in Hk.
    destruct p; cbn [part_key]; unfold samples_part_key, spans_part_key, scoped_part_key;
      destruct (scope_fields (full_key x)) as [[[d sv] h]|]; try discriminate Hk; cbn; eauto. }
  exists a'. split; [done|].
  assert (is_Some (State.store s !! a')) as [w Hw].
  { destruct (decide (p = Samples)) as [->|Hne]; [unfold fold_identity in Hid; rewrite Hid in Ha'; injection Ha' as <-; by exists v|].
    eapply (present_ok _ (good_stored _ _ _ _ _ Hg) a); [by exists v|exact Hid|exact Hne|exact Ha']. }
  destruct (Hval p a' w Ha' Hw) as (b' & e' & Hb' & He' & ->). rewrite Hw. congruence.
Qed.

(** C27: Of the calls for one file, at most one is past its lock: it alone
    checks, fetches, decodes and writes. *)
Theorem one_fold_per_file {H : Blake3} object decode_and_encode f c n calls es s i j x y :
  run object decode_and_encode es (start (FoldLimits.new f c n) calls ∅) = Some s →
  State.tasks s !! i = Some x → State.tasks s !! j = Some y →
  has_guard (Task.at_ x) = true → has_guard (Task.at_ y) = true → fold_identity x = fold_identity y → i = j.
Proof.
  intros Hr Hx Hy Hgx Hgy Hid.
  pose proof (run_good _ _ _ _ _ _ _ (start_good _ _ _ calls (limits_positive f c n)) Hr) as [_ Hl _ _ _ _].
  destruct (decide (i = j)) as [|Hne]; [done|]. exfalso.
  destruct (registered _ Hl _ _ Hx (guard_live _ Hgx)) as (d & Hd & Hf).
  destruct (registered _ Hl _ _ Hy (guard_live _ Hgy)) as (d' & Hd' & Hf').
  apply (guards_apart _ Hl i j x y Hx Hy Hne Hgx Hgy). congruence.
Qed.

Lemma total_app f l k : total f (l ++ k) = (total f l + total f k)%nat.
Proof. induction l as [|x l IH]; [done|]. cbn [app]. rewrite !total_cons, IH. lia. Qed.

(** A set of tasks that satisfy [f] is no larger than their number. *)
Lemma size_count f (X : gset nat) l :
  (∀ i, i ∈ X → ∃ x, l !! i = Some x ∧ f x = true) → (size X <= count f l)%nat.
Proof.
  revert X. induction l as [|x l IH] using rev_ind; intros X HX.
  - assert (X = ∅) as -> by (apply leibniz_equiv; intros i; split; [intros Hi|set_solver];
      destruct (HX i Hi) as (x & Hx & _); discriminate Hx). by rewrite size_empty.
  - assert (∀ i, i ∈ X ∖ {[length l]} → ∃ y, l !! i = Some y ∧ f y = true) as HX'.
    { intros i Hi. apply elem_of_difference in Hi as [Hi Hn]. destruct (HX i Hi) as (y & Hy & Hf). exists y.
      split; [|done]. apply lookup_snoc_Some in Hy as [[_ Hy]|[-> _]]; [done|set_solver]. }
    pose proof (IH _ HX') as Hs. unfold count in *. change (sum_list ((λ x, b2n (f x)) <$> l ++ [x])) with
      (total (λ x, b2n (f x)) (l ++ [x])). rewrite total_app. change (total _ [x]) with (b2n (f x) + 0)%nat.
    unfold total. destruct (decide (length l ∈ X)) as [Hin|Hin].
    + destruct (HX _ Hin) as (y & Hy & Hf). rewrite list_lookup_middle in Hy by done. injection Hy as <-.
      rewrite Hf. pose proof (size_remove (length l) X Hin). cbn [b2n]. lia.
    + assert (X ∖ {[length l]} = X) as <- by set_solver. lia.
Qed.

Lemma count_or f g l : (count (λ x, f x || g x) l <= count f l + count g l)%nat.
Proof.
  induction l as [|x l IH]; [done|]. rewrite !count_cons. destruct (f x), (g x); cbn [orb b2n]; lia.
Qed.

Lemma count_le f g l : (∀ x, f x = true → g x = true) → (count f l <= count g l)%nat.
Proof.
  intros Hfg. induction l as [|x l IH]; [done|]. rewrite !count_cons. specialize (Hfg x).
  destruct (f x); [rewrite Hfg by done|]; cbn [b2n]; lia.
Qed.


(** C29: Every run of the calls is finite, and from each of its states the calls
    can all end without a cancellation: then nothing runs, no put is on its way
    and every permit is back. *)
Theorem folds_end {H : Blake3} object decode_and_encode f c n calls es s :
  run object decode_and_encode es (start (FoldLimits.new f c n) calls ∅) = Some s →
  (length es <= 30 * length calls)%nat ∧
  ∃ es' s', Forall (λ e, is_cancel e = false) es' ∧ run object decode_and_encode es' s = Some s' ∧
    Forall (λ x, done_at (Task.at_ x) = true) (State.tasks s') ∧ State.blocking s' = ∅ ∧ State.orphans s' = [] ∧
    State.inflight s' = Z.max n 1 ∧ State.fetch s' = Z.max f 1 ∧ State.cpu s' = Z.max c 1.
Proof.
  intros Hr. pose proof (limits_positive f c n) as Hpos.
  pose proof (run_good _ _ _ _ _ _ _ (start_good object decode_and_encode _ calls Hpos) Hr) as Hg. split.
  - pose proof (run_work _ _ _ _ _ Hr). rewrite start_work in *. lia.
  - destruct (finish _ _ _ _ s Hpos Hg) as (es' & s' & Hes & Hr' & Hq & Hg'). exists es', s'.
    destruct (quiet_permits _ _ _ _ _ Hg' Hq) as (Ei & Ef & Ec). destruct Hq as (Hd & Hb & Ho).
    split_and!; try done. apply list.Forall_lookup. exact Hd.
Qed.

(** ** An example: two requests fold one file *)

Definition example_agg : AggContext.t :=
  AggContext.mk 0 1 (lit "traces") false (lit "out") (lit "agg") [[]] 60.

Definition example_key : bytes := lit "2026-01-01/0930/shop/host-1/1767259800-0.bin.gz".
Definition example_object (source : Z) (bucket key : bytes) : option bytes := Some key.
Definition example_decode (b key : bytes) : option EncodedParts.t := Some (EncodedParts.mk b (lit "d") (lit "p") (lit "s")).
Definition example_calls : list (AggContext.t * bytes) := [(example_agg, example_key); (example_agg, example_key)].

Definition example_run (es : list event) : option State.t :=
  run (H := toy_blake3) example_object example_decode es
    (start (FoldLimits.from_available_parallelism (Some 8)) example_calls ∅).

(** A fold up to the point where it decodes, its end, and a whole fold. *)
Definition to_decoding (i : nat) : list event :=
  [Call i; Lock i; Check i true; AcquireInflight i; AcquireFetch i; Fetch i true; AcquireCpu i].

Definition ending (i : nat) : list event := [DropLock i; ReleaseLock i].

Definition writing (i : nat) : list event :=
  [DecodeEnds i false; Resume i; Lands i Polls; Lands i Dict; Answers i Dict true; Lands i Spans;
   Answers i Polls true; Answers i Spans true; Resume i; Lands i Samples; Answers i Samples true; Resume i].

Definition whole (i : nat) : list event := to_decoding i ++ writing i ++ ending i.

(** The second waits for the first, then finds the file folded. *)
Definition example_events : list event :=
  to_decoding 0 ++ [Call 1] ++ writing 0 ++ [Lock 1; Check 1 true] ++ ending 0 ++ ending 1.

Definition example_after (es : list event) : State.t :=
  default (start (FoldLimits.new 0 0 0) [] ∅) (example_run es).

Definition runs_through (es : list event) : bool := match example_run es with Some _ => true | None => false end.

Lemma example_after_run es : runs_through es = true → example_run es = Some (example_after es).
Proof. unfold runs_through, example_after. by destruct (example_run es). Qed.

Definition example_state : State.t := example_after example_events.

Definition example_task : Task.t := Task.mk example_agg example_key 0 (Done Folded).

Lemma example_runs : example_run example_events = Some example_state.
Proof. apply example_after_run. vm_compute. reflexivity. Qed.

Lemma example_tasks : State.tasks example_state = [example_task; example_task].
Proof. vm_compute. reflexivity. Qed.

Lemma marker_is_last_witness :
  ∃ a, part_at (H := toy_blake3) Samples example_task = Some a ∧ is_Some (State.store example_state !! a) ∧
    ∀ p b, part_at (H := toy_blake3) p example_task = Some b → is_Some (State.store example_state !! b).
Proof.
  assert (∃ a, part_at (H := toy_blake3) Samples example_task = Some a ∧ is_Some (State.store example_state !! a))
    as (a & Ha & Hs).
  { eexists. split; [vm_compute; reflexivity|]. apply (bool_decide_unpack _). vm_compute. exact I. }
  exists a. split; [exact Ha|]. split; [exact Hs|].
  exact (marker_is_last (H := toy_blake3) example_object example_decode 2 1 2 example_calls example_events
    example_state example_task a example_runs Ha Hs).
Defined.

Lemma folded_parts_exact_witness :
  ∃ b e, source_of example_object example_task = Some b ∧ example_decode b (full_key example_task) = Some e ∧
    ∀ p, ∃ a, part_at (H := toy_blake3) p example_task = Some a ∧
      State.store example_state !! a = Some (EncodedParts.buf p e).
Proof.
  assert (State.tasks example_state !! 0%nat = Some example_task) as Ht by (rewrite example_tasks; reflexivity).
  apply (folded_parts_exact (H := toy_blake3) example_object example_decode 2 1 2 example_calls example_events
    example_state 0 example_task example_runs Ht eq_refl).
  intros agg raw Hin. apply elem_of_cons in Hin as [Heq|Hin]; [injection Heq as -> ->; intros y _; split; reflexivity|].
  apply list_elem_of_singleton in Hin. injection Hin as -> ->. intros y _. split; reflexivity.
Defined.

(** Before the first has written, both are in the limits. *)
Definition example_early : State.t := example_after (to_decoding 0 ++ [Call 1]).

Lemma example_early_runs : example_run (to_decoding 0 ++ [Call 1]) = Some example_early.
Proof. apply example_after_run. vm_compute. reflexivity. Qed.

Lemma one_fold_per_file_witness : ∃ x, State.tasks example_early !! 0%nat = Some x ∧
  has_guard (Task.at_ x) = true ∧ 0%nat = 0%nat.
Proof.
  assert (∃ x, State.tasks example_early !! 0%nat = Some x ∧ has_guard (Task.at_ x) = true) as (x & Hx & Hg)
    by (eexists; split; vm_compute; reflexivity).
  exists x. split; [exact Hx|]. split; [exact Hg|].
  exact (one_fold_per_file (H := toy_blake3) example_object example_decode 2 1 2 example_calls (to_decoding 0 ++ [Call 1])
    example_early 0 0 x x example_early_runs Hx Hx Hg Hg eq_refl).
Defined.


Lemma folds_end_witness :
  ∃ es' s', Forall (λ e, is_cancel e = false) es' ∧
    run (H := toy_blake3) example_object example_decode es' example_early = Some s' ∧
    Forall (λ x, done_at (Task.at_ x) = true) (State.tasks s').
Proof.
  destruct (folds_end (H := toy_blake3) example_object example_decode 2 1 2 example_calls (to_decoding 0 ++ [Call 1])
    example_early example_early_runs) as (_ & es' & s' & Hes & Hr & Hd & _).
  exists es', s'. split; [exact Hes|]. split; [exact Hr|exact Hd].
Defined.

(** ** What cancellation and concurrent drops leave behind *)

(** A cancelled call gives its permit for decoding back while its decoder runs:
    two decoders run under one permit. *)
Theorem decoders_exceed_permits :
  ∃ es s, example_run es = Some s ∧ FoldLimits.cpu (FoldLimits.from_available_parallelism (Some 8)) = 1 ∧
    size (State.blocking s) = 2%nat.
Proof.
  exists (to_decoding 0 ++ [Cancel 0; DropLock 0; ReleaseLock 0] ++ to_decoding 1). eexists.
  split; [apply example_after_run; vm_compute; reflexivity|]. split; vm_compute; reflexivity.
Qed.

(** Two handles that are dropped side by side leave the entry of their file. *)
Theorem registry_entry_left :
  ∃ es s, example_run es = Some s ∧ forallb (λ x, done_at (Task.at_ x)) (State.tasks s) = true ∧
    size (State.files s) = 1%nat.
Proof.
  exists [Call 0; Call 1; Cancel 0; Cancel 1; DropLock 0; DropLock 1; ReleaseLock 0; ReleaseLock 1]. eexists.
  split; [apply example_after_run; vm_compute; reflexivity|]. split; vm_compute; reflexivity.
Qed.
