(* ===== verification/Refine.v ===== *)
(** * What a query selects and folds (dial9-viewer/src/ingest/refine.rs, aggregate.rs)

    A query resolves its scope: the window is turned into listing prefixes by
    the days and layouts it needs, the objects listed are filtered and ordered,
    and the first of them, up to a cap, are the new work of the query; what is
    folded already is read from the output listing. *)

From Stdlib Require Import ZArith Lia.
From stdpp Require Import base list gmap sets strings option sorting.
From coqutil Require Import Byte.
From S2P Require Import Prelude.
From S2P Require Import Text.
From S2P Require Import F64.
From S2P Require Import SamplingConfig.
From S2P Require Import Paths.
From S2P Require Import ObjectKeys.
From S2P Require Import Storage.
From S2P Require Import SourceLayout.
From S2P Require Import Browse.
From S2P Require Import LayoutHints.
From S2P Require Import PartKeys.
From S2P Require Import Fold.

Definition BASELINE_FILES : Z := 4.
Definition CAP_FILES_PER_CORE : Z := 2.
Definition CAP_MAX_FILES_MIN : Z := 8.
Definition CAP_MAX_FILES_MAX : Z := 100.
Definition CAP_MAX_FILES_OVERRIDE : Z := 2000.

(** The literal [0.05], the quotient of integers an f64 holds exactly. *)
Definition CAP_FRACTION : f64 := fdiv (f64_of 5) (f64_of 100).

(** [available_parallelism], [None] where the platform cannot tell. *)
Definition default_cap_max (cores : option Z) : Z :=
  Z.max CAP_MAX_FILES_MIN (Z.min (cast 64 (default 4 cores * CAP_FILES_PER_CORE)) CAP_MAX_FILES_MAX).

Definition sampling_cap (cores : option Z) (files_matched : Z) (max_files_override : option Z) : Z :=
  let target := match max_files_override with
                | Some explicit => Z.min explicit CAP_MAX_FILES_OVERRIDE
                | None => Z.min (f64_ceil_to 64 (fmul (f64_of files_matched) CAP_FRACTION)) (default_cap_max cores)
                end in
  Z.min (Z.max target BASELINE_FILES) files_matched.

(** ** Listing windows *)

Module ListingWindow.
Record t : Type := mk { start : Z; stop : Z; granularity : Browse.granularity }.
End ListingWindow.

Definition MINUTE_THRESHOLD_SECS : Z := 2 * 3600.
Definition MINUTE_PAD_SECS : Z := 2 * 60.
Definition MAX_WINDOW_SECS : Z := 72 * 3600.

Definition listing_window (scope : Scope.t) : option ListingWindow.t :=
  start_ns ← Scope.start_ns scope; end_ns ← Scope.end_ns scope;
  let start_secs := start_ns / NANOS in
  let end_secs := end_ns / NANOS in
  let span_secs := wrapping_i64 (end_secs - start_secs) in
  Some
    (if span_secs <=? MINUTE_THRESHOLD_SECS then
       let padded_start := clamp_i64 (start_secs - MINUTE_PAD_SECS) / 60 * 60 in
       ListingWindow.mk padded_start
         (Z.min (clamp_i64 (clamp_i64 (end_secs + MINUTE_PAD_SECS) / 60 * 60)) (clamp_i64 (padded_start + MAX_WINDOW_SECS)))
         Minute
     else
       let start_hour := clamp_i64 (clamp_i64 (start_secs / 3600 - 1) * 3600) in
       ListingWindow.mk start_hour
         (Z.min (clamp_i64 (clamp_i64 (end_secs / 3600 + 1) * 3600)) (clamp_i64 (start_hour + MAX_WINDOW_SECS)))
         Hour).

(** A value kept in an [i32], in a [u32]. *)
Definition as_i32 (v : Z) : Z := to_signed 32 (cast 32 v).
Definition as_u32 (v : Z) : Z := cast 32 v.

(** [{y:04}]: the sign counts. *)
Definition put_year (y : Z) : bytes := if y <? 0 then lit "-" ++ put_padded 3 (- y) else put_padded 4 y.

Definition epoch_to_date_hour (epoch_secs : Z) : bytes * bytes :=
  let secs := epoch_secs mod DAY in
  let days := as_i32 ((epoch_secs - secs) / DAY) in
  let z := as_i32 (days + 719468) in
  let era := Z.quot (if 0 <=? z then z else as_i32 (z - 146096)) 146097 in
  let doe := as_u32 (z - era * 146097) in
  let yoe := as_u32 (doe - doe / 1460 + doe / 36524 - doe / 146096) / 365 in
  let y := as_i32 (yoe + era * 400) in
  let doy := as_u32 (doe - (365 * yoe + yoe / 4 - yoe / 100)) in
  let mp := (5 * doy + 2) / 153 in
  let d := doy - (153 * mp + 2) / 5 + 1 in
  let m := if mp <? 10 then mp + 3 else mp - 9 in
  let y := if m <=? 2 then as_i32 (y + 1) else y in
  (put_year y ++ lit "-" ++ put_padded 2 m ++ lit "-" ++ put_padded 2 d,
   put_padded 2 (secs / 3600) ++ put_padded 2 (secs mod 3600 / 60)).

Fixpoint bucket_loop (fuel : nat) (to : Z) (gran : granularity) (timestamp : Z) : list (bytes * bytes) :=
  match fuel with
  | O => []
  | S fuel =>
      if to <? timestamp then []
      else
        let '(date, hhmm) := epoch_to_date_hour timestamp in
        (date, match gran with Hour => take 2 hhmm | Minute => hhmm end) ::
        (if I64_MAX <? timestamp + step_of gran then [] else bucket_loop fuel to gran (timestamp + step_of gran))
  end.

(** The dates and times [append] is called with. *)
Definition append_buckets (from to : Z) (gran : granularity) : list (bytes * bytes) :=
  let timestamp := wrapping_i64 (from - from mod step_of gran) in
  bucket_loop (S (Z.to_nat ((to - timestamp) / step_of gran + 1))) to gran timestamp.

Definition service_prefixes_of (base service : bytes) (window : ListingWindow.t) (day : DayLayout.t) : list bytes :=
  (if LayoutSet.historical (DayLayout.layout day)
   then (λ '(date, time), historical_prefix base (lit "/" ++ service ++ lit "/") date time) <$>
          append_buckets (DayLayout.from day) (DayLayout.to day) Minute
   else []) ++
  (if LayoutSet.version1 (DayLayout.layout day)
   then (λ '(date, time), version1_prefix base (hive_escape service) date time) <$>
          append_buckets (DayLayout.from day) (DayLayout.to day) (ListingWindow.granularity window)
   else []).

Definition append_service_prefixes (base service : bytes) (window : ListingWindow.t) (days : list DayLayout.t)
    (output : list bytes) : list bytes :=
  output ++ (days ≫= service_prefixes_of base service window).

Definition unscoped_prefixes_of (base : bytes) (window : ListingWindow.t) (version1 : Version1Services.t)
    (day : DayLayout.t) : list bytes :=
  let buckets := append_buckets (DayLayout.from day) (DayLayout.to day) (ListingWindow.granularity window) in
  ((λ '(date, time), historical_prefix base [] date time) <$> buckets) ++
  (Version1Services.services_on version1 (DayLayout.date day) ≫= λ service,
     (λ '(date, time), version1_prefix base (hive_escape service) date time) <$> buckets).

Definition append_unscoped_prefixes (base : bytes) (window : ListingWindow.t) (days : list DayLayout.t)
    (version1 : Version1Services.t) (output : list bytes) : list bytes :=
  output ++ (days ≫= unscoped_prefixes_of base window version1).

(** ** Resolving a scope *)

Module Resolved.
Record t : Type := mk {
  matched : list (bytes * bytes);
  matched_leaf_hosts : gmap bytes bytes;
  capped : list (bytes * bytes);
  folded : gset bytes;
  files_matched : Z;
  total_bytes : Z;
  hosts_matched : Z }.
End Resolved.

(** [NothingMatches] is [None]; [Panics] a key whose scope cannot be read. *)
Inductive resolution : Type := NothingMatches | Panics | Resolves (r : Resolved.t).

Section resolve.
Context {Cal : Calendar} {B : StorageBackend} {Arr : Arrival} {J : HintJson} {H : Blake3}.

(** [list_objects_all] of the source and of the output. *)
Variable source_all output_all : bytes → bytes → result (list ObjectInfo.t) StorageError.t.
Variable cores : option Z.

(** [day_layouts]: without a limit. *)
Definition day_layouts (from to : Z) (layout : LayoutSet.t) : result (list DayLayout.t) StorageError.t :=
  match day_layouts_with_limit from to layout (2 ^ 64 - 1) with Ok (days, _) => Ok days | Err e => Err e end.

Definition or_empty {A E} (r : result (list A) E) : list A := match r with Ok l => l | Err _ => [] end.

(** One source prefix of [time_scoped_prefixes]. *)
Definition base_prefixes (bucket : bytes) (service : option bytes) (window : ListingWindow.t) (base : bytes)
    (prefixes : list bytes) : list bytes :=
  let from := ListingWindow.start window in
  let to := ListingWindow.stop window in
  match service with
  | Some service =>
      let days := match resolve_service_layouts bucket base from to service None 0 with
                  | Ok resolved => ResolvedServiceLayouts.days resolved
                  | Err _ => or_empty (day_layouts from to LayoutSet.Historical)
                  end in
      append_service_prefixes base service window days prefixes
  | None =>
      let version1 := match discover_version1_services bucket base from to with
                      | Ok discovery => discovery
                      | Err _ => Version1Services.mk ∅ [] false
                      end in
      append_unscoped_prefixes base window (or_empty (day_layouts from to LayoutSet.Both)) version1 prefixes
  end.

Definition time_scoped_prefixes (agg : AggContext.t) (scope : Scope.t) : list bytes :=
  match listing_window scope with
  | None => AggContext.source_prefixes agg
  | Some window =>
      foldl (λ prefixes base, base_prefixes (AggContext.source_bucket agg) (Scope.service scope) window base prefixes)
        [] (AggContext.source_prefixes agg)
  end.

Definition list_folded_leaves (output_bucket output_prefix source_bucket : bytes) (service : option bytes) : gset bytes :=
  list_to_set (omap (λ o, leaf_of_listed (ObjectInfo.key o))
    (or_empty (output_all output_bucket (folded_set_prefix output_prefix source_bucket service)))).

(** The objects below the prefixes; a prefix that cannot be listed is left out. *)
Definition list_sources (agg : AggContext.t) (prefixes : list bytes) : list ObjectInfo.t :=
  mjoin (arrival ((λ p, or_empty (source_all (AggContext.source_bucket agg) p)) <$> prefixes)).

Definition resolve (agg : AggContext.t) (scope : Scope.t) (max_files : option Z) : resolution :=
  let raw_objects := list_sources agg (time_scoped_prefixes agg scope) in
  let '(ordered, total_bytes) :=
    ordered_full_keys_with_size raw_objects scope (AggContext.segment_duration_secs agg)
      (AggContext.source_is_local agg) (AggContext.source_bucket agg) in
  match mapM (λ k : bytes * bytes, host_of (snd k)) ordered with
  | None => Panics
  | Some hosts =>
      if blen ordered =? 0 then NothingMatches
      else
        let cap := sampling_cap cores (blen ordered) max_files in
        Resolves (Resolved.mk ordered
          (foldl (λ m '(k, h), <[part_leaf_of (snd k) := h]> m) ∅ (zip ordered hosts))
          (take (Z.to_nat cap) ordered)
          (list_folded_leaves (AggContext.output_bucket agg) (AggContext.output_prefix agg)
             (AggContext.source_bucket agg) (Scope.service scope))
          (blen ordered) total_bytes (Z.of_nat (size (list_to_set hosts : gset bytes))))
  end.

(** ** What a resolved scope answers *)

Definition is_folded (r : Resolved.t) (full_key : bytes) : bool := bool_decide (part_leaf_of full_key ∈ Resolved.folded r).

Definition folded_matching_full_keys (r : Resolved.t) : list bytes :=
  snd <$> filter (λ k : bytes * bytes, is_folded r (snd k) = true) (Resolved.matched r).

Definition matched_host_for_leaf (r : Resolved.t) (leaf : bytes) : option bytes := Resolved.matched_leaf_hosts r !! leaf.

Definition fold_work_cap (r : Resolved.t) : Z := blen (Resolved.capped r).

Definition folded_in (l : list (bytes * bytes)) (folded : gset bytes) : list (bytes * bytes) :=
  filter (λ k : bytes * bytes, part_leaf_of (snd k) ∈ folded) l.

Definition files_folded_in (r : Resolved.t) (folded : gset bytes) : Z := blen (folded_in (Resolved.matched r) folded).
Definition capped_files_folded_in (r : Resolved.t) (folded : gset bytes) : Z :=
  blen (folded_in (Resolved.capped r) folded).

Definition capped_folded_hosts (r : Resolved.t) (folded : gset bytes) : option Z :=
  hosts ← mapM (λ k : bytes * bytes, host_of (snd k)) (folded_in (Resolved.capped r) folded);
  Some (Z.of_nat (size (list_to_set hosts : gset bytes))).

Definition unfolded_capped (r : Resolved.t) : list (bytes * bytes) :=
  filter (λ k : bytes * bytes, is_folded r (snd k) = false) (Resolved.capped r).
End resolve.

(** ** The cap *)

Lemma default_cap_bounds cores : CAP_MAX_FILES_MIN <= default_cap_max cores <= CAP_MAX_FILES_MAX.
Proof. unfold default_cap_max, CAP_MAX_FILES_MIN, CAP_MAX_FILES_MAX. lia. Qed.

(** New work is a few files at least, never more than there are, and bounded
    whatever the client asks for. *)
Lemma sampling_cap_bounds cores n o :
  0 <= n →
  Z.min BASELINE_FILES n <= sampling_cap cores n o <= n ∧
  sampling_cap cores n o <= CAP_MAX_FILES_OVERRIDE ∧
  (o = None → sampling_cap cores n o <= CAP_MAX_FILES_MAX).
Proof.
  intros Hn. pose proof (default_cap_bounds cores). unfold sampling_cap, BASELINE_FILES, CAP_MAX_FILES_OVERRIDE,
    CAP_MAX_FILES_MIN, CAP_MAX_FILES_MAX in *. destruct o; split_and!; try lia; intros [=].
Qed.

(** ** Dates and times of buckets

    The arithmetic of [epoch_to_date_hour] is that of the Gregorian calendar. *)

(** The calendar of the [time] crate is the Gregorian one. *)
Class GregorianCalendar (Cal : Calendar) : Prop :=
  civil_gregorian t : 0 <= t <= TIMESTAMP_MAX → civil t = Some (gregorian t).

#[global] Instance gregorian_is : GregorianCalendar gregorian_calendar.
Proof.
  intros t Ht. cbn. unfold gregorian_civil. rewrite bool_decide_true; [done|]. unfold TIMESTAMP_MIN. lia.
Qed.

Lemma as_i32_id v : - 2 ^ 31 <= v < 2 ^ 31 → as_i32 v = v.
Proof. intros Hv. apply to_signed_cast; [done|]. unfold fits_signed. exact Hv. Qed.

Lemma as_u32_id v : 0 <= v < 2 ^ 32 → as_u32 v = v.
Proof. intros Hv. by apply Z.mod_small. Qed.

Lemma put_year_pos y : 0 <= y → put_year y = put_padded 4 y.
Proof. intros Hy. unfold put_year. by rewrite (proj2 (Z.ltb_ge y 0)). Qed.

Lemma epoch_to_date_hour_gregorian t : 0 <= t <= TIMESTAMP_MAX →
  epoch_to_date_hour t = (date_text (gregorian t), time_text (gregorian t)).
Proof.
  intros Ht. unfold epoch_to_date_hour. cbv zeta.
  assert ((t - t mod DAY) / DAY = t / DAY) as ->.
  { replace (t - t mod DAY) with (t / DAY * DAY) by (pose proof (Z.div_mod t DAY ltac:(done)); lia). by rewrite Z.div_mul. }
  assert (0 <= t / DAY <= 2932896) as Hd.
  { unfold TIMESTAMP_MAX, DAY in *. split; [apply Z.div_pos; lia|]. apply Z.lt_succ_r, Z.div_lt_upper_bound; lia. }
  rewrite (as_i32_id (t / DAY)) by lia. rewrite (as_i32_id (t / DAY + 719468)) by lia.
  set (z := t / DAY + 719468). assert (719468 <= z <= 3652364) as Hz by lia.
  rewrite (proj2 (Z.leb_le 0 z)) by lia. rewrite Z.quot_div_nonneg by lia.
  pose proof (Z.mod_pos_bound z ERA_DAYS ltac:(done)) as Hdoe.
  assert (z - z / 146097 * 146097 = z mod ERA_DAYS) as ->.
  { pose proof (Z.div_mod z ERA_DAYS ltac:(done)). unfold ERA_DAYS in *. lia. }
  rewrite (as_u32_id (z mod ERA_DAYS)) by (unfold ERA_DAYS in *; lia).
  set (doe := z mod ERA_DAYS) in *.
  destruct (year_of_era_bounds doe Hdoe) as [Hy Hdoy]. destruct (month_bounds _ Hdoy) as (Hm & Hdm & _).
  assert (0 <= doe - doe / 1460 + doe / 36524 - doe / 146096 < 2 ^ 32) as Hu
    by (unfold ERA_DAYS in *; clear - Hdoe; divisions).
  rewrite (as_u32_id (doe - doe / 1460 + doe / 36524 - doe / 146096)) by exact Hu.
  change ((doe - doe / 1460 + doe / 36524 - doe / 146096) / 365) with (year_of_era doe).
  change (doe - (365 * year_of_era doe + year_of_era doe / 4 - year_of_era doe / 100)) with (day_of_year doe).
  rewrite (as_u32_id (day_of_year doe)) by lia.
  change ((5 * day_of_year doe + 2) / 153) with (month_index (day_of_year doe)).
  change (day_of_year doe - (153 * month_index (day_of_year doe) + 2) / 5 + 1) with (day_of_month (day_of_year doe)).
  assert (0 <= z / 146097 <= 24) as He by (clear - Hz; divisions).
  rewrite (as_i32_id (year_of_era doe + z / 146097 * 400)) by lia.
  unfold gregorian, day_date. fold z doe. cbv zeta. change ERA_DAYS with 146097.
  set (m := if month_index (day_of_year doe) <? 10 then _ else _).
  assert (t mod DAY mod 3600 = t mod 3600) as Hmin.
  { unfold DAY. clear. divisions. }
  unfold date_text, time_text. cbn [Civil.year Civil.month Civil.day Civil.hour Civil.minute]. rewrite Hmin.
  f_equal. f_equal. destruct (m <=? 2); [rewrite as_i32_id by lia|]; rewrite put_year_pos by lia; f_equal; lia.
Qed.

Section buckets.
Context {Cal : Calendar} {G : GregorianCalendar Cal}.

Lemma bucket_on t : on_calendar t → epoch_to_date_hour t = (date_of t, time_of Minute t).
Proof.
  intros Ht. rewrite epoch_to_date_hour_gregorian by exact Ht. unfold date_of, time_of.
  assert (date_time t = gregorian t) as ->; [|done].
  pose proof (date_time_civil t Ht) as Hc. rewrite civil_gregorian in Hc by exact Ht. by injection Hc.
Qed.

Lemma hour_of_minute t : on_calendar t → take 2 (time_of Minute t) = time_of Hour t.
Proof.
  intros Ht. cbn [time_of]. destruct (time_hour t Ht) as [-> _].
  rewrite take_app_length'; [done|]. symmetry. exact (time_of_length Hour t Ht).
Qed.

Lemma bucket_loop_spec fuel to gran n :
  0 <= n → to <= TIMESTAMP_MAX → (to - step_of gran * n) / step_of gran + 1 < Z.of_nat fuel →
  bucket_loop fuel to gran (step_of gran * n) =
  (λ m, (date_of (step_of gran * m), time_of gran (step_of gran * m))) <$> seqZ n (to / step_of gran - n + 1).
Proof.
  revert n. induction fuel as [|fuel IH]; intros n Hn Hto Hf; pose proof (step_of_pos gran) as Hs.
  { cbn [bucket_loop]. assert (to / step_of gran - n + 1 <= 0) as Hle.
    { replace (to - step_of gran * n) with (to + (- n) * step_of gran) in Hf by lia. rewrite Z.div_add in Hf by lia. lia. }
    by rewrite seqZ_nil. }
  cbn [bucket_loop]. destruct (Z.ltb_spec to (step_of gran * n)) as [Ht|Ht].
  { assert (to / step_of gran < n) as Hlt by (apply Z.div_lt_upper_bound; lia). by rewrite seqZ_nil by lia. }
  assert (n <= to / step_of gran) as Hle by (apply Z.div_le_lower_bound; lia).
  assert (on_calendar (step_of gran * n)) as Hc by (unfold on_calendar; lia).
  rewrite bucket_on by exact Hc.
  rewrite (proj2 (Z.ltb_ge I64_MAX (step_of gran * n + step_of gran)))
    by (unfold I64_MAX, TIMESTAMP_MAX in *; lia).
  replace (step_of gran * n + step_of gran) with (step_of gran * (n + 1)) by lia.
  rewrite IH by (try lia; replace (to - step_of gran * (n + 1)) with (to - step_of gran * n + (-1) * step_of gran) by lia;
    rewrite Z.div_add by lia; lia).
  rewrite (seqZ_cons n) by lia. cbn [fmap list_fmap]. f_equal.
  - f_equal. destruct gran; [by apply hour_of_minute|done].
  - f_equal. f_equal; lia.
Qed.

(** The buckets are those the browser lists. *)
Lemma append_buckets_times day gran build :
  proper day →
  (λ '(date, time), build date time) <$> append_buckets (DayLayout.from day) (DayLayout.to day) gran =
  ListingPrefix.key <$> times gran build (DayLayout.from day) (DayLayout.to day).
Proof.
  intros (Hf & Hft & Ht). pose proof (step_of_pos gran) as Hs. unfold append_buckets. set (from := DayLayout.from day) in *.
  assert (wrapping_i64 (from - from mod step_of gran) = step_of gran * (from / step_of gran)) as ->.
  { pose proof (Z.div_mod from (step_of gran)). pose proof (Z.mod_pos_bound from (step_of gran)).
    assert (0 <= from / step_of gran) by (apply Z.div_pos; lia).
    rewrite wrapping_i64_id; [lia|]. unfold fits_signed, TIMESTAMP_MAX in *. lia. }
  rewrite bucket_loop_spec by (try lia; try (apply Z.div_pos; lia); exact Ht).
  unfold times. rewrite <- !list_fmap_compose. done.
Qed.

Lemma service_prefixes_times base service window day :
  proper day →
  service_prefixes_of base service window day =
  ListingPrefix.key <$> service_more base service (ListingWindow.granularity window) day.
Proof.
  intros Hp. unfold service_prefixes_of, service_more. rewrite fmap_app.
  destruct (LayoutSet.historical _), (LayoutSet.version1 _); rewrite ?append_buckets_times by done; done.
Qed.

Lemma unscoped_prefixes_times base window version1 day :
  proper day →
  unscoped_prefixes_of base window version1 day =
  ListingPrefix.key <$> unscoped_more base (ListingWindow.granularity window) version1 day.
Proof.
  intros Hp. unfold unscoped_prefixes_of, unscoped_more. rewrite fmap_app, append_buckets_times by done. f_equal.
  induction (Version1Services.services_on version1 (DayLayout.date day)) as [|s l IH]; [done|].
  rewrite !bind_cons, fmap_app, <- IH. f_equal. by rewrite append_buckets_times.
Qed.
End buckets.

(** ** The window covers what the scope selects *)

(** What the padding of the window is made for: a scope of both ends, away from
    the ends of time, of at most 69 hours, and segments of at most 2 minutes. *)
Record windowed (scope : Scope.t) (segment_duration_secs s t : Z) : Prop := {
  has_start : Scope.start_ns scope = Some s;
  has_stop : Scope.end_ns scope = Some t;
  starts_late : 7200 * NANOS <= s;
  stops_early : t <= I64_MAX;
  spans : t - s <= 69 * 3600 * NANOS;
  segments_short : 0 <= segment_duration_secs <= MINUTE_PAD_SECS }.

Lemma wrapping_small v : - 2 ^ 62 <= v <= 2 ^ 62 → wrapping_i64 v = v.
Proof. intros Hv. apply wrapping_i64_id. unfold fits_signed. lia. Qed.

Lemma clamp_small v : - 2 ^ 62 <= v <= 2 ^ 62 → clamp_i64 v = v.
Proof. intros Hv. unfold clamp_i64, I64_MAX. lia. Qed.

Lemma time_matches_bounds scope d s t e :
  windowed scope d s t → 0 <= e <= TIMESTAMP_MAX → time_matches scope d e = true →
  s < (e + d) * NANOS ∧ e * NANOS < t.
Proof.
  intros [Hs Ht Hs0 Ht0 _ Hd] He. unfold time_matches. rewrite Hs, Ht.
  unfold MINUTE_PAD_SECS, TIMESTAMP_MAX in *. rewrite wrapping_small by lia.
  intros [H1 H2]%andb_true_iff. apply negb_true_iff, Z.leb_gt in H1, H2.
  unfold clamp_i64, I64_MAX, NANOS in *. lia.
Qed.

Lemma window_covers scope d s t e :
  windowed scope d s t → 0 <= e <= TIMESTAMP_MAX → time_matches scope d e = true →
  ∃ w, listing_window scope = Some w ∧ 0 <= ListingWindow.start w <= e ∧ e <= ListingWindow.stop w ∧
    ListingWindow.stop w <= ListingWindow.start w + MAX_WINDOW_SECS ∧ ListingWindow.stop w <= TIMESTAMP_MAX.
Proof.
  intros Hw He Hm. destruct (time_matches_bounds _ _ _ _ _ Hw He Hm) as [H1 H2].
  destruct Hw as [Hs Ht Hs0 Ht0 Hsp Hd]. unfold listing_window. rewrite Hs, Ht. cbn [mbind option_bind].
  unfold I64_MAX, NANOS, MINUTE_PAD_SECS, MAX_WINDOW_SECS, MINUTE_THRESHOLD_SECS, TIMESTAMP_MAX in *.
  set (a := s / 1000000000). set (b := t / 1000000000).
  assert (7200 <= a ∧ a * 1000000000 <= s < a * 1000000000 + 1000000000) as [Ha1 Ha2] by (unfold a; clear - Hs0; divisions).
  assert (b * 1000000000 <= t < b * 1000000000 + 1000000000) as Hb by (unfold b; clear; divisions).
  assert (b <= 9223372037) as Hb2 by lia. assert (a < e + d + 1) as Hae by lia. assert (e <= b) as Heb by lia.
  assert (b - a <= 69 * 3600) as Hba by lia. clearbody a b.
  rewrite wrapping_small by lia. eexists. split; [reflexivity|].
  destruct (Z.leb_spec (b - a) (2 * 3600)); cbn [ListingWindow.start ListingWindow.stop].
  - rewrite (clamp_small (a - 2 * 60)), (clamp_small (b + 2 * 60)) by lia.
    assert (0 <= (a - 2 * 60) / 60 * 60 <= a - 120 ∧ a - 120 < (a - 2 * 60) / 60 * 60 + 60) as [A1 A2] by (clear - Ha1; divisions).
    assert ((b + 2 * 60) / 60 * 60 <= b + 120 < (b + 2 * 60) / 60 * 60 + 60) as A3 by (clear; divisions).
    set (u := (a - 2 * 60) / 60 * 60) in *. set (v := (b + 2 * 60) / 60 * 60) in *. clearbody u v.
    rewrite !clamp_small by lia. lia.
  - rewrite (clamp_small (a / 3600 - 1)), (clamp_small (b / 3600 + 1)) by (clear - Ha1 Hb2 Hba Hae Heb He Hd; divisions).
    assert (0 <= (a / 3600 - 1) * 3600 ∧ a - 7200 < (a / 3600 - 1) * 3600 <= a - 3600) as [A1 A2] by (clear - Ha1; divisions).
    assert (b < (b / 3600 + 1) * 3600 <= b + 3600) as A3 by (clear; divisions).
    set (u := (a / 3600 - 1) * 3600) in *. set (v := (b / 3600 + 1) * 3600) in *. clearbody u v.
    rewrite !clamp_small by lia. lia.
Qed.

(** ** The prefixes of a window cover its segments *)

(** A listing of everything below a prefix. *)
Definition lists_all (all : bytes → bytes → result (list ObjectInfo.t) StorageError.t) (bucket : bytes)
    (keys : list bytes) : Prop :=
  ∀ prefix, ∃ objects, all bucket prefix = Ok objects ∧ ObjectInfo.key <$> objects = under prefix keys.

(** [list_objects_all] of the S3 backend, with fuel for the requests. *)
Definition s3_list_all {C : S3Client} (fuel : nat) (bucket prefix : bytes) : result (list ObjectInfo.t) StorageError.t :=
  default (Err StorageError.Other) (list_all fuel bucket prefix None []).

(** It lists what the responses it follows hold. *)
Lemma s3_lists_all {C : S3Client} fuel bucket keys :
  (∀ prefix, ∃ rs, responses bucket prefix None rs ∧ (length rs <= fuel)%nat ∧
     omap S3Object.key (rs ≫= Output.contents) = under prefix keys) →
  lists_all (s3_list_all fuel) bucket keys.
Proof.
  intros Hr prefix. destruct (Hr prefix) as (rs & Hrs & Hf & Hk). unfold s3_list_all.
  rewrite (list_all_responses _ _ _ _ _ _ Hrs Hf). eexists. split; [reflexivity|].
  cbn [app]. by rewrite keys_with_keys.
Qed.

Lemma omap_some_keys (l : list bytes) : omap S3Object.key ((λ k, S3Object.mk (Some k) (Some 1) None) <$> l) = l.
Proof. induction l as [|k l IH]; [done|]. cbn. by f_equal. Qed.

Lemma one_page_lists_all bucket keys : lists_all (s3_list_all (C := one_page_client keys) 1) bucket keys.
Proof.
  apply s3_lists_all. intros prefix. exists [one_page keys prefix None]. split; [by constructor|]. split; [done|].
  cbn. rewrite app_nil_r. apply omap_some_keys.
Qed.

Lemma scope_fields_full local bucket key :
  SLASH ∉ bucket → starts_with (lit "s3://") key = false →
  scope_fields (full_source_key local bucket key) = scope_fields key.
Proof.
  intros Hb Hk. assert (strip_s3 key = key) as Hs by exact (strip_s3_full true bucket key Hb (λ _, Hk)).
  pose proof (strip_s3_full local bucket key Hb (λ _, Hk)) as Hf.
  assert (scope_path (full_source_key local bucket key) = scope_path key) as Hp.
  { unfold full_source_key. destruct local; [done|]. unfold scope_path at 1. rewrite strip_prefix_app.
    change (lit "/" ++ key) with (SLASH :: key). rewrite split_once_char by done. unfold scope_path.
    unfold starts_with in Hk. bool_facts. by rewrite (proj2 (eq_None_not_Some _) Hk). }
  unfold scope_fields, scope_fields_inner, parse_segment_object_key, has_version1_anchor. by rewrite Hf, Hs, Hp.
Qed.

Section object.
Context {Cal : Calendar}.
Variables (c : S3Config.t) (index : Z) (metadata : gmap bytes bytes).
Hypothesis Hc : default_layout c.
Hypothesis Hm : on_calendar (epoch_of metadata).
Hypothesis Hi : fits 32 index.
Hypothesis Hs3 : starts_with (lit "s3://") (object_key c index metadata) = false.

Lemma object_scope :
  scope_fields (object_key c index metadata) =
  Some (date_of (epoch_of metadata), S3Config.service_name c, S3Config.instance_path c).
Proof using All.
  assert (strip_s3 (object_key c index metadata) = object_key c index metadata) as Hk
    by exact (strip_s3_full true [] _ ltac:(apply not_elem_of_nil) (λ _, Hs3)).
  unfold scope_fields, scope_fields_inner. rewrite (parse_object_key c index metadata _ Hc Hm Hi Hk). unfold parsed_key.
  cbn [ParsedKey.layout ParsedKey.time ParsedKey.date ParsedKey.service ParsedKey.instance].
  rewrite (bool_decide_false (Version1 = Unknown)) by discriminate. reflexivity.
Qed.

Lemma object_epoch : parse_epoch_secs (object_key c index metadata) = Some (epoch_of metadata).
Proof using Hc Hm Hi.
  unfold parse_epoch_secs, file_of. rewrite (object_key_words c index metadata Hc Hm Hi). unfold key_words.
  change [lit "version=1"; ?a; ?b; ?d; ?e; ?f; ?g] with ([lit "version=1"; a; b; d; e; f] ++ [g]).
  rewrite app_assoc, list.last_snoc. cbn [default from_option id]. unfold ObjectKeys.file_name.
  set (e := epoch_of metadata). destruct Hm as [Hm0 Hm1]. fold e in Hm0, Hm1.
  destruct (put_dec_plain e Hm0) as [Pe Ne]. destruct Hi as [Hi0 Hi1]. destruct (put_dec_plain index Hi0) as [Pi Ni].
  assert (z2b 46 ∉ put_dec e ++ lit "-" ++ put_dec index) as Hdot.
  { rewrite !elem_of_app. intros [Hin|[Hin|Hin]]; [by apply put_dec_no in Hin| |by apply put_dec_no in Hin].
    revert Hin. apply (bool_decide_unpack _). by vm_compute. }
  assert (∃ r, (if is_gzip metadata then lit ".bin.gz" else lit ".bin") = z2b 46 :: r) as [r ->]
    by (destruct (is_gzip metadata); eexists; reflexivity).
  replace (put_dec e ++ lit "-" ++ put_dec index ++ z2b 46 :: r)
    with ((put_dec e ++ lit "-" ++ put_dec index) ++ z2b 46 :: r) by (by rewrite <- !app_assoc).
  rewrite split_on_app by exact Hdot. cbn [head mbind option_bind].
  change (lit "-" ++ put_dec index) with (z2b 45 :: put_dec index). rewrite split_on_app by exact Ne.
  cbn [head mbind option_bind]. apply parse_int_put. unfold TIMESTAMP_MAX in Hm1. lia.
Qed.
End object.

Section covered.
Context {Cal : Calendar} {G : GregorianCalendar Cal} {B : StorageBackend} {Arr : Arrival} {J : HintJson}.
Context {bucket : bytes} {keys : list bytes} {L : Lists B bucket keys}.

Lemma base_prefixes_app service window base prefixes :
  base_prefixes bucket service window base prefixes = prefixes ++ base_prefixes bucket service window base [].
Proof. unfold base_prefixes. by destruct service. Qed.

Lemma time_scoped_bases service window bases acc :
  foldl (λ prefixes base, base_prefixes bucket service window base prefixes) acc bases =
  acc ++ (bases ≫= λ base, base_prefixes bucket service window base []).
Proof.
  revert acc. induction bases as [|base bases IH]; intros acc; cbn [foldl]; [by rewrite app_nil_r|].
  rewrite IH, base_prefixes_app, bind_cons. by rewrite app_assoc.
Qed.

(** Listing days in the calendar does not fail. *)
Lemma day_loop_total fuel from to layout limit n days :
  0 <= n → to <= TIMESTAMP_MAX → ∃ r, day_loop fuel from to layout limit (DAY * n) days = Ok r.
Proof.
  revert n days. induction fuel as [|fuel IH]; intros n days Hn Ht; cbn [day_loop]; [by eexists|].
  destruct (Z.ltb_spec to (DAY * n)); [by eexists|]. destruct (blen days =? limit); [by eexists|].
  destruct (proj2 (civil_range (DAY * n))) as [x ->]; [unfold TIMESTAMP_MIN, DAY in *; lia|].
  destruct (I64_MAX <? DAY * n + DAY); [by eexists|].
  replace (DAY * n + DAY) with (DAY * (n + 1)) by lia. apply IH; lia.
Qed.

Lemma day_layouts_window from to layout :
  0 <= from → from <= to → to <= TIMESTAMP_MAX →
  ∃ k, day_layouts from to layout = Ok (window_days from to (λ _, layout) k) ∧ consecutive from to k ∧
    to < DAY * (from / DAY + k).
Proof.
  intros Hf Hft Ht. unfold day_layouts. assert (0 <= from / DAY) as Hn by (apply Z.div_pos; [lia|done]).
  assert (wrapping_i64 (from / DAY * DAY) = DAY * (from / DAY)) as Hw.
  { rewrite wrapping_i64_id; [lia|]. unfold fits_signed, TIMESTAMP_MAX, DAY in *. clear - Hf Hft Ht. divisions. }
  destruct (day_loop_total (S (Z.to_nat (Z.min (2 ^ 64 - 1) ((to - DAY * (from / DAY)) / DAY + 1)))) from to layout
    (2 ^ 64 - 1) (from / DAY) [] Hn Ht) as [[days tr] Hd].
  assert (day_layouts_with_limit from to layout (2 ^ 64 - 1) = Ok (days, tr)) as He
    by (unfold day_layouts_with_limit; rewrite Hw; exact Hd).
  destruct (day_layouts_spec from to layout (2 ^ 64 - 1) days tr) as (k & Hk & -> & Hmem & Hend);
    [unfold DAY, TIMESTAMP_MAX in *; lia|lia|exact He|]. rewrite He. exists k. split; [done|]. split.
  - split; [done|]. intros n Hn'. destruct (Hmem n Hn') as [Hcv Hto]. split; [|done]. apply civil_range in Hcv.
    unfold on_calendar. split; [unfold DAY; lia|apply Hcv].
  - destruct tr; [|done]. exfalso. unfold blen in Hend. rewrite length_fmap, length_seqZ in Hend.
    destruct (Hmem (from / DAY + k - 1)) as [_ Hl]; [lia|]. unfold TIMESTAMP_MAX, DAY in *. lia.
Qed.

(** The prefixes of a window, of all services or of the segment's, have one
    above the segment's key, when discovery succeeds. *)
Lemma prefix_covers c index metadata base service window :
  default_layout c → on_calendar (epoch_of metadata) → based c base → object_key c index metadata ∈ keys →
  0 <= ListingWindow.start window <= epoch_of metadata → epoch_of metadata <= ListingWindow.stop window →
  ListingWindow.stop window <= ListingWindow.start window + MAX_WINDOW_SECS → ListingWindow.stop window <= TIMESTAMP_MAX →
  service = None ∨ service = Some (S3Config.service_name c) →
  few_services base keys (date_of (epoch_of metadata)) →
  (∃ v, discover_version1_services bucket base (ListingWindow.start window) (ListingWindow.stop window) = Ok v) →
  ∃ p, p ∈ base_prefixes bucket service window base [] ∧ starts_with p (object_key c index metadata) = true.
Proof.
  intros Hc Hm Hb Hin Hstart Hstop Hlen Hmax Hsv Hfew [v Hv].
  set (from := ListingWindow.start window) in *. set (to := ListingWindow.stop window) in *.
  set (e := epoch_of metadata) in *. set (n := e / DAY).
  assert (0 <= from < 2 ^ 63) as Hf by (unfold TIMESTAMP_MAX in *; lia).
  assert (date_of (DAY * n) = date_of e ∧ on_calendar (DAY * n)) as [Hdate Hcn].
  { assert (on_calendar (DAY * n)) as Hcn by (by apply (on_calendar_day e n)). split; [|done].
    apply date_of_day; [done|done|]. by rewrite (Z.mul_comm DAY), Z.div_mul by done. }
  assert (∀ lay, let day := day_at from to (lay n) n in
    proper day ∧ 0 <= DayLayout.from day ∧ DayLayout.from day <= e <= DayLayout.to day) as Hday.
  { intros lay. cbn zeta. split.
    - apply day_at_proper; [apply Hf|exact Hcn|clear - Hstart Hstop; lia| |].
      + unfold n, DAY. clear - Hstart. divisions.
      + unfold n, DAY. clear - Hstop. divisions.
    - unfold day_at, day_from, I64_MAX. cbn [DayLayout.from DayLayout.to].
      assert (DAY * n <= e <= DAY * n + 86399) as Hen by (unfold n, DAY; clear; divisions).
      destruct Hm as [Hm0 Hm1]. unfold TIMESTAMP_MAX in *. fold e in Hm0, Hm1. lia. }
  assert (published base keys (date_of (DAY * n)) (S3Config.service_name c)) as Hpub
    by (rewrite Hdate; by apply (key_published c index metadata)).
  rewrite <- Hdate in Hfew.
  assert (∀ k, (to < DAY * (from / DAY + k) ∨ k = MAX_DISCOVERY_DAYS) → from / DAY <= n < from / DAY + k) as Hnk.
  { unfold n, MAX_DISCOVERY_DAYS, MAX_WINDOW_SECS, DAY in *. clear - Hstart Hstop Hlen.
    intros k [Hk| ->]; divisions. }
  destruct Hsv as [->| ->]; cbn [base_prefixes]; fold from to.
  - rewrite Hv. destruct (day_layouts_window from to LayoutSet.Both ltac:(lia) ltac:(lia) Hmax) as (k & Hd & [Hk Hcon] & Hend).
    rewrite Hd. cbn [or_empty]. destruct (Hday (λ _, LayoutSet.Both)) as (Hp & Hd0 & Hde).
    destruct (discover_spec _ _ _ _ Hv) as (days & dates & Hd' & Ha & Hsc & Hon).
    destruct (discovery_days_cut _ _ _ _ _ Hf Hd') as (k' & -> & Hk' & Hend').
    assert (from / DAY <= n < from / DAY + k') as Hn' by (apply Hnk; destruct (Version1Services.truncated v); auto).
    destruct (key_in_times c index metadata base (ListingWindow.granularity window) _ Hc Hb Hm Hd0 Hde)
      as (p & Hpt & _ & Hst & _).
    exists (ListingPrefix.key p). split; [|exact Hst]. unfold append_unscoped_prefixes. cbn [app].
    apply list_elem_of_bind. exists (day_at from to LayoutSet.Both n).
    split; [|apply list_elem_of_fmap; exists n; split; [done|apply elem_of_seqZ; specialize (Hnk k (or_introl Hend)); lia]].
    rewrite unscoped_prefixes_times by exact Hp. apply list_elem_of_fmap_2. unfold unscoped_more. apply elem_of_app. right.
    apply list_elem_of_bind. exists (S3Config.service_name c). split; [exact Hpt|].
    change (DayLayout.date _) with (date_of (DAY * n)). apply elem_services_on, Hon; [|done..]. by eapply window_asked.
  - destruct (day_layouts_window from to LayoutSet.Historical ltac:(lia) ltac:(lia) Hmax) as (kk & Hdd & _ & _).
    assert (∃ resolved, resolve_service_layouts bucket base from to (S3Config.service_name c) None 0 = Ok resolved)
      as [resolved Hr].
    { unfold resolve_service_layouts. unfold discover_version1_services in Hv.
      unfold discovery_day_layouts in *. rewrite (day_layouts_layout from to LayoutSet.Version1).
      destruct (day_layouts_with_limit from to LayoutSet.Version1 MAX_DISCOVERY_DAYS) as [[days tr]|e0] eqn:Hd;
        [|discriminate Hv].
      cbn [mbind option_bind]. unfold discover_version1_services, discovery_day_layouts. rewrite Hd, Hv. by eexists. }
    rewrite Hr. destruct (service_layouts_spec _ _ _ _ _ _ _ Hf Hr) as (lay & k & tr & Hdays & [Hk Hcon] & Hend & _ & Hcov).
    rewrite Hdays. assert (from / DAY <= n < from / DAY + k) as Hn by (apply Hnk; destruct tr; auto).
    specialize (Hcov eq_refl v n Hn (S3Config.service_name c) Hfew Hpub eq_refl).
    destruct (Hday lay) as (Hp & Hd0 & Hde).
    destruct (key_in_times c index metadata base (ListingWindow.granularity window) _ Hc Hb Hm Hd0 Hde)
      as (p & Hpt & _ & Hst & _).
    exists (ListingPrefix.key p). split; [|exact Hst]. unfold append_service_prefixes. cbn [app].
    apply list_elem_of_bind. exists (day_at from to (lay n) n).
    split; [|apply list_elem_of_fmap; exists n; split; [done|apply elem_of_seqZ; lia]].
    rewrite service_prefixes_times by exact Hp. apply list_elem_of_fmap_2. unfold service_more. apply elem_of_app. right.
    change (DayLayout.layout (day_at from to (lay n) n)) with (lay n). by rewrite Hcov.
Qed.
End covered.

(** ** What is resolved *)
Section resolved.
Context {Cal : Calendar} {G : GregorianCalendar Cal} {B : StorageBackend} {Arr : Arrival} {J : HintJson} {H : Blake3}.
Variable source_all output_all : bytes → bytes → result (list ObjectInfo.t) StorageError.t.
Variable cores : option Z.
Context {keys : list bytes} {agg : AggContext.t} {L : Lists B (AggContext.source_bucket agg) keys}.

(** The source is a bucket with the objects [keys]; the names are no URLs. *)
Record sourced : Prop := {
  all_listed : lists_all source_all (AggContext.source_bucket agg) keys;
  bucket_named : SLASH ∉ AggContext.source_bucket agg;
  keys_named k : k ∈ keys → starts_with (lit "s3://") k = false;
  local_named : AggContext.source_is_local agg = true → AggContext.source_bucket agg = lit "local" }.

Definition full (key : bytes) : bytes :=
  full_source_key (AggContext.source_is_local agg) (AggContext.source_bucket agg) key.

(** An object the scope selects. *)
Definition selected (scope : Scope.t) (key : bytes) : Prop :=
  is_trace_segment key = true ∧ scope_matches key scope (AggContext.segment_duration_secs agg) = true.

Lemma listed_sources prefixes key :
  sourced → key ∈ ObjectInfo.key <$> list_sources source_all agg prefixes ↔
  key ∈ keys ∧ ∃ p, p ∈ prefixes ∧ starts_with p key = true.
Proof.
  intros [Ha _ _ _]. unfold list_sources. rewrite list_elem_of_fmap.
  assert (∀ p o, o ∈ or_empty (source_all (AggContext.source_bucket agg) p) →
    ObjectInfo.key o ∈ under p keys) as Hu.
  { intros p o Ho. destruct (Ha p) as (objects & Hl & <-). rewrite Hl in Ho. by apply list_elem_of_fmap_2. }
  split.
  - intros (o & -> & Ho). apply list_elem_of_join in Ho as (l & Ho & Hl). rewrite arrival_perm in Hl.
    apply list_elem_of_fmap in Hl as (p & -> & Hp). apply Hu in Ho. unfold under in Ho.
    apply list_elem_of_filter in Ho as [Hs Hin]. split; [done|]. by exists p.
  - intros [Hin (p & Hp & Hs)]. destruct (Ha p) as (objects & Hl & Hk).
    assert (key ∈ ObjectInfo.key <$> objects) as Hko by (rewrite Hk; by apply list_elem_of_filter).
    apply list_elem_of_fmap in Hko as (o & -> & Ho). exists o. split; [done|].
    apply list_elem_of_join. exists objects. split; [done|]. rewrite arrival_perm. apply list_elem_of_fmap.
    exists p. by rewrite Hl.
Qed.

Lemma mapM_total {X Y} (f : X → option Y) l : (∀ x, x ∈ l → is_Some (f x)) → ∃ k, mapM f l = Some k.
Proof.
  induction l as [|x l IH]; intros Hf; [by exists []|]. destruct (Hf x) as [y Hy]; [by left|].
  destruct IH as [k Hk]; [intros z Hz; apply Hf; by right|]. exists (y :: k). cbn [mapM]. by rewrite Hy, Hk.
Qed.

Lemma selected_host scope key :
  sourced → key ∈ keys → selected scope key → is_Some (host_of (full key)).
Proof.
  intros [_ Hb Hn _] Hin [_ Hm]. unfold host_of, full. rewrite scope_fields_full by auto.
  unfold scope_matches in Hm. destruct (scope_fields key) as [[[d s] h]|]; [by eexists|done].
Qed.

Lemma ordered_elem objects scope key :
  key ∈ fst <$> fst (ordered_full_keys_with_size objects scope (AggContext.segment_duration_secs agg)
    (AggContext.source_is_local agg) (AggContext.source_bucket agg)) ↔
  key ∈ ObjectInfo.key <$> objects ∧ selected scope key.
Proof.
  unfold ordered_full_keys_with_size, matched_and_ordered, selected. cbn [fst].
  rewrite <- list_fmap_compose, list_elem_of_fmap. setoid_rewrite elem_of_sort_by_key.
  setoid_rewrite list_elem_of_filter. rewrite list_elem_of_fmap. naive_solver.
Qed.

(** Resolving never panics: there is nothing to match, or the matched files are
    the objects below the prefixes that the scope selects. *)
Lemma resolve_spec scope max_files :
  sourced →
  let prefixes := time_scoped_prefixes agg scope in
  match resolve source_all output_all cores agg scope max_files with
  | Panics => False
  | NothingMatches =>
      ∀ key p, key ∈ keys → p ∈ prefixes → starts_with p key = true → ¬ selected scope key
  | Resolves r =>
      (∀ key, key ∈ fst <$> Resolved.matched r ↔
         key ∈ keys ∧ (∃ p, p ∈ prefixes ∧ starts_with p key = true) ∧ selected scope key) ∧
      (∀ k, k ∈ Resolved.matched r → snd k = full (fst k)) ∧
      StronglySorted (λ a b, str_le (order_key (fst a)) (order_key (fst b))) (Resolved.matched r) ∧
      Resolved.files_matched r = blen (Resolved.matched r) ∧
      Resolved.capped r = take (Z.to_nat (sampling_cap cores (Resolved.files_matched r) max_files)) (Resolved.matched r) ∧
      Resolved.folded r = list_folded_leaves output_all (AggContext.output_bucket agg) (AggContext.output_prefix agg)
        (AggContext.source_bucket agg) (Scope.service scope) ∧
      (∀ k, k ∈ Resolved.matched r → is_Some (matched_host_for_leaf r (part_leaf_of (snd k))))
  end.
Proof.
  intros Hs. cbn zeta. unfold resolve. set (raw := list_sources source_all agg _).
  destruct (ordered_full_keys_with_size raw scope _ _ _) as [ordered total] eqn:Eo.
  pose proof (ordered_elem raw scope) as Hel. rewrite Eo in Hel. cbn [fst] in Hel.
  assert (∀ key, key ∈ fst <$> ordered ↔
    key ∈ keys ∧ (∃ p, p ∈ time_scoped_prefixes agg scope ∧ starts_with p key = true) ∧ selected scope key) as Hord.
  { intros key. rewrite Hel. unfold raw. rewrite listed_sources by exact Hs. tauto. }
  assert (∀ k, k ∈ ordered → snd k = full (fst k)) as Hfull.
  { unfold ordered_full_keys_with_size in Eo. injection Eo as <- _. intros k Hk.
    apply list_elem_of_fmap in Hk as (o & -> & _). done. }
  destruct (mapM_total (λ k : bytes * bytes, host_of (snd k)) ordered) as [hosts Hh].
  { intros k Hk. rewrite (Hfull k Hk). destruct (proj1 (Hord (fst k)) ltac:(by apply list_elem_of_fmap_2)) as (Hin & _ & Hsel).
    by eapply selected_host. }
  rewrite Hh. destruct (Z.eqb_spec (blen ordered) 0) as [Hz|Hz].
  - intros key p Hin Hp Hst Hsel. apply Z.eq_le_incl, blen_0 in Hz. subst ordered.
    assert (key ∈ fst <$> @nil (bytes * bytes)) as Hno; [|by apply not_elem_of_nil in Hno].
    apply Hord. split_and!; [done|by exists p|done].
  - cbn [Resolved.matched Resolved.files_matched Resolved.capped Resolved.folded]. split_and!; try done.
    + unfold ordered_full_keys_with_size in Eo. injection Eo as <- _.
      pose proof (sort_by_key_sorted (λ o, order_key (ObjectInfo.key o))
        (filter (λ o, is_trace_segment (ObjectInfo.key o) = true ∧
          scope_matches (ObjectInfo.key o) scope (AggContext.segment_duration_secs agg) = true) raw)) as Hsorted.
      change (matched_and_ordered raw scope (AggContext.segment_duration_secs agg)) with
        (sort_by_key (λ o, order_key (ObjectInfo.key o)) (filter (λ o, is_trace_segment (ObjectInfo.key o) = true ∧
          scope_matches (ObjectInfo.key o) scope (AggContext.segment_duration_secs agg) = true) raw)).
      induction Hsorted as [|o l Hl IH Ho]; [constructor|]. cbn [fmap list_fmap]. constructor; [exact IH|].
      apply list.Forall_fmap. eapply list.Forall_impl; [exact Ho|]. done.
    + intros k Hk. unfold matched_host_for_leaf. cbn [Resolved.matched_leaf_hosts].
      assert (length hosts = length ordered) as Hlen by (symmetry; by eapply length_mapM).
      clear -Hk Hlen. assert (∀ m, is_Some (m !! part_leaf_of (snd k)) ∨ k ∈ ordered →
        is_Some (foldl (λ (m : gmap bytes bytes) '(k, h), <[part_leaf_of (snd k) := h]> m) m (zip ordered hosts)
          !! part_leaf_of (snd k))) as Hgen; [|apply Hgen; by right].
      clear Hk. revert hosts Hlen. induction ordered as [|k' ordered IH]; intros [|h hosts] Hlen m Hm; try discriminate Hlen.
      * destruct Hm as [Hm|Hm]; [done|by apply not_elem_of_nil in Hm].
      * cbn [zip zip_with foldl]. apply IH; [by injection Hlen|].
        destruct (decide (part_leaf_of (snd k') = part_leaf_of (snd k))) as [->|Hne].
        -- left. by rewrite lookup_insert_eq.
        -- rewrite lookup_insert_ne by done. destruct Hm as [Hm|Hm]; [by left|].
           apply elem_of_cons in Hm as [->|Hm]; [done|by right].
Qed.
(** Matched files carry their names and, when a scope is of a service, it. *)
Lemma matched_scope scope max_files r k :
  sourced → resolve source_all output_all cores agg scope max_files = Resolves r → k ∈ Resolved.matched r →
  ∃ date service host, scope_fields (snd k) = Some (date, service, host) ∧
    parse_source_bucket (snd k) = AggContext.source_bucket agg ∧
    (Scope.service scope = None ∨ Scope.service scope = Some service).
Proof.
  intros Hs Hr Hk. pose proof (resolve_spec scope max_files Hs) as Hspec. cbn zeta in Hspec. rewrite Hr in Hspec.
  destruct Hspec as (Hm & Hfull & _). rewrite (Hfull k Hk).
  destruct (proj1 (Hm (fst k)) ltac:(by apply list_elem_of_fmap_2)) as (Hin & _ & _ & Hsel).
  unfold full at 1. rewrite scope_fields_full by (apply Hs; done). unfold scope_matches in Hsel.
  destruct (scope_fields (fst k)) as [[[date service] host]|]; [|done]. exists date, service, host. split; [done|].
  split.
  - unfold full, full_source_key. destruct (AggContext.source_is_local agg) eqn:El.
    + rewrite (local_named Hs El). unfold parse_source_bucket. pose proof (keys_named Hs _ Hin) as Hst.
      unfold starts_with in Hst. bool_facts. by rewrite (proj2 (eq_None_not_Some _) Hst).
    + unfold parse_source_bucket. rewrite strip_prefix_app. change (lit "/" ++ fst k) with (SLASH :: fst k).
      rewrite split_once_char by (apply Hs). done.
  - apply andb_true_iff in Hsel as [Hsel _]. apply andb_true_iff in Hsel as [Hsv _].
    destruct (Scope.service scope) as [want|]; [|by left]. right. apply bool_decide_eq_true in Hsv. by subst.
Qed.

(** The folded leaves are those of the objects listed for the scope. *)
Lemma elem_of_folded service okeys leaf :
  lists_all output_all (AggContext.output_bucket agg) okeys →
  leaf ∈ list_folded_leaves output_all (AggContext.output_bucket agg) (AggContext.output_prefix agg)
    (AggContext.source_bucket agg) service ↔
  ∃ a, a ∈ okeys ∧ starts_with (folded_set_prefix (AggContext.output_prefix agg) (AggContext.source_bucket agg) service) a = true ∧
    leaf_of_listed a = Some leaf.
Proof.
  intros Ho. unfold list_folded_leaves. rewrite elem_of_list_to_set, list_elem_of_omap.
  set (prefix := folded_set_prefix _ _ _). destruct (Ho prefix) as (objects & -> & Hu). cbn [or_empty].
  assert (∀ a, a ∈ ObjectInfo.key <$> objects ↔ starts_with prefix a = true ∧ a ∈ okeys) as Hel
    by (intros a; rewrite Hu; unfold under; by rewrite list_elem_of_filter).
  setoid_rewrite list_elem_of_fmap in Hel. split.
  - intros (o & Hoo & Hl). destruct (proj1 (Hel (ObjectInfo.key o)) ltac:(by exists o)) as [Hst Hin]. by eexists.
  - intros (a & Hin & Hst & Hl). destruct (proj2 (Hel a) (conj Hst Hin)) as (o & -> & Hoo). by exists o.
Qed.

Lemma resolved_folded scope max_files r okeys full_key :
  sourced → lists_all output_all (AggContext.output_bucket agg) okeys →
  resolve source_all output_all cores agg scope max_files = Resolves r →
  is_folded r full_key = true ↔
  ∃ a, a ∈ okeys ∧
    starts_with (folded_set_prefix (AggContext.output_prefix agg) (AggContext.source_bucket agg) (Scope.service scope)) a = true ∧
    leaf_of_listed a = Some (part_leaf_of full_key).
Proof.
  intros Hs Ho Hr. pose proof (resolve_spec scope max_files Hs) as Hspec. cbn zeta in Hspec. rewrite Hr in Hspec.
  destruct Hspec as (_ & _ & _ & _ & _ & Hfold & _). unfold is_folded. rewrite bool_decide_eq_true, Hfold.
  by apply elem_of_folded.
Qed.

(** A file is known to be folded once its marker can be listed. *)
Lemma marked_folded scope max_files r k a okeys :
  sourced → lists_all output_all (AggContext.output_bucket agg) okeys →
  resolve source_all output_all cores agg scope max_files = Resolves r → k ∈ Resolved.matched r →
  part_key Samples (AggContext.output_prefix agg) (snd k) = Some a → a ∈ okeys → is_folded r (snd k) = true.
Proof.
  intros Hs Ho Hr Hk Ha Hin. destruct (matched_scope _ _ _ _ Hs Hr Hk) as (date & service & host & Hf & Hb & Hsv).
  apply (resolved_folded _ _ _ _ _ Hs Ho Hr). exists a. split; [exact Hin|]. split; [|exact (leaf_of_marker _ _ _ Ha)].
  rewrite <- Hb. apply (marker_listed _ _ _ _ Ha). destruct Hsv as [->|Hsv]; [by left|]. right. exists date, host.
  rewrite Hsv. split; [exact Hf|by eexists].
Qed.

Lemma matched_marker scope max_files r k :
  sourced → resolve source_all output_all cores agg scope max_files = Resolves r → k ∈ Resolved.matched r →
  ∃ a, part_key Samples (AggContext.output_prefix agg) (snd k) = Some a.
Proof.
  intros Hs Hr Hk. destruct (matched_scope _ _ _ _ Hs Hr Hk) as (date & service & host & Hf & _).
  cbn [part_key]. unfold samples_part_key, scoped_part_key. rewrite Hf. by eexists.
Qed.
End resolved.

(** What is folded in the output decides only what is left to fold. *)
Lemma resolve_output {Cal : Calendar} {B : StorageBackend} {Arr : Arrival} {J : HintJson} {H : Blake3}
    source_all output1 output2 cores agg scope max_files r :
  resolve source_all output1 cores agg scope max_files = Resolves r →
  ∃ r', resolve source_all output2 cores agg scope max_files = Resolves r' ∧
    Resolved.matched r' = Resolved.matched r ∧ Resolved.capped r' = Resolved.capped r.
Proof.
  unfold resolve. destruct (ordered_full_keys_with_size _ _ _ _ _) as [ordered total].
  destruct (mapM _ ordered) as [hosts|]; [|discriminate]. destruct (_ =? 0); [discriminate|].
  intros Hr. injection Hr as <-. eexists. split; [reflexivity|]. done.
Qed.


(** C31: A query's fold work is of matched files, bounded whatever the client
    asks for, and of files that have no marker yet; once the markers of this
    work are stored the same query matches and caps the same files and has no
    work left, so that repeated queries fold a file once. *)
Theorem work_done_once {Cal : Calendar} {B : StorageBackend} {Arr : Arrival} {J : HintJson} {H : Blake3}
    source_all output_all output_all' cores agg keys
    okeys okeys' scope max_files r :
  sourced (keys := keys) (agg := agg) source_all →
  lists_all output_all (AggContext.output_bucket agg) okeys →
  lists_all output_all' (AggContext.output_bucket agg) okeys' → okeys ⊆ okeys' →
  resolve source_all output_all cores agg scope max_files = Resolves r →
  let marker k := part_key Samples (AggContext.output_prefix agg) (snd k) in
  blen (unfolded_capped r) <= Z.min (Resolved.files_matched r) CAP_MAX_FILES_OVERRIDE ∧
  (∀ k, k ∈ unfolded_capped r → k ∈ Resolved.matched r ∧ ∃ a, marker k = Some a ∧ a ∉ okeys) ∧
  ((∀ k a, k ∈ unfolded_capped r → marker k = Some a → a ∈ okeys') →
   ∃ r', resolve source_all output_all' cores agg scope max_files = Resolves r' ∧
     Resolved.matched r' = Resolved.matched r ∧ Resolved.capped r' = Resolved.capped r ∧ unfolded_capped r' = []).
Proof.
  intros Hs Ho Ho' Hsub Hr marker. pose proof (resolve_spec source_all output_all cores scope max_files Hs) as Hspec.
  cbn zeta in Hspec. rewrite Hr in Hspec. destruct Hspec as (_ & _ & _ & Hn & Hcap & _).
  assert (∀ k, k ∈ Resolved.capped r → k ∈ Resolved.matched r) as Hin
    by (intros k; rewrite Hcap; intros (i & Hi)%list_elem_of_lookup; apply lookup_take_Some in Hi as [Hi _];
        by eapply list_elem_of_lookup_2).
  split_and!.
  - destruct (sampling_cap_bounds cores (Resolved.files_matched r) max_files) as (Hb & Hc & _);
      [rewrite Hn; unfold blen; lia|].
    assert (blen (unfolded_capped r) <= sampling_cap cores (Resolved.files_matched r) max_files); [|lia].
    unfold unfolded_capped. eapply Z.le_trans with (blen (Resolved.capped r)).
    + unfold blen. apply inj_le, length_filter.
    + rewrite Hcap. unfold blen, BASELINE_FILES in *. rewrite length_take. lia.
  - intros k [Hf Hk]%list_elem_of_filter. split; [by apply Hin|].
    destruct (matched_marker source_all output_all cores _ _ _ _ Hs Hr (Hin k Hk)) as [a Ha]. exists a. split; [exact Ha|].
    intros Hak. rewrite (marked_folded _ _ _ _ _ _ _ _ _ Hs Ho Hr (Hin k Hk) Ha Hak) in Hf. discriminate Hf.
  - intros Hall. destruct (resolve_output _ _ output_all' _ _ _ _ _ Hr) as (r' & Hr' & Hm' & Hc'). exists r'.
    split_and!; [done..|]. unfold unfolded_capped. apply elem_of_nil_inv.
    intros k [Hf Hk]%list_elem_of_filter. rewrite Hc' in Hk. assert (k ∈ Resolved.matched r') as Hk' by (rewrite Hm'; by apply Hin).
    destruct (matched_marker source_all output_all cores _ _ _ _ Hs Hr (Hin k Hk)) as [a Ha].
    enough (is_folded r' (snd k) = true) as Hyes by (rewrite Hyes in Hf; discriminate Hf).
    destruct (is_folded r (snd k)) eqn:Ef.
    + apply (resolved_folded _ _ _ _ _ _ _ _ Hs Ho Hr) in Ef as (b & Hb & Hst & Hl).
      apply (resolved_folded _ _ _ _ _ _ _ _ Hs Ho' Hr'). exists b. split; [by apply Hsub|done].
    + apply (marked_folded _ _ _ _ _ _ _ _ _ Hs Ho' Hr' Hk' Ha). apply (Hall k a); [|exact Ha].
      apply list_elem_of_filter. by split.
Qed.

(** ** An example: a window of two minutes around a segment *)

Definition wanted_key : bytes := LayoutHints.example_key.
Definition wanted_keys : list bytes := [wanted_key; lit "company/readme.txt"].

Definition wanted_agg : AggContext.t :=
  AggContext.mk 0 1 (lit "traces") false (lit "out") (lit "agg") [example_base] 60.

Definition wanted_scope : Scope.t :=
  Scope.mk (Some (1786736160 * NANOS)) (Some (1786736280 * NANOS)) (Some (lit "payments/api")) [].

#[local] Existing Instance gregorian_calendar.

Definition wanted_resolve (folded : list bytes) : resolution :=
  resolve (B := @S3Backend example_client) (H := toy_blake3) (s3_list_all (C := one_page_client wanted_keys) 1)
    (s3_list_all (C := one_page_client folded) 1) (Some 8) wanted_agg wanted_scope None.

Lemma wanted_sourced :
  sourced (keys := wanted_keys) (agg := wanted_agg) (s3_list_all (C := one_page_client wanted_keys) 1).
Proof.
  split; [apply one_page_lists_all|cbn; no_slash| |discriminate].
  intros k Hk. assert (Forall (λ k, starts_with (lit "s3://") k = false) wanted_keys) as Hall.
  { apply (bool_decide_unpack _). vm_compute. exact I. }
  exact (proj1 (list.Forall_forall _ _) Hall k Hk).
Defined.


Definition wanted_marker : bytes := default [] (part_key (H := toy_blake3) Samples (lit "agg") (lit "s3://traces/" ++ wanted_key)).

Definition wanted : Resolved.t :=
  match wanted_resolve [] with Resolves r => r | _ => Resolved.mk [] ∅ [] ∅ 0 0 0 end.

Lemma wanted_resolves : wanted_resolve [] = Resolves wanted.
Proof.
  assert (match wanted_resolve [] with Resolves _ => true | _ => false end = true) as Hr by (vm_compute; reflexivity).
  unfold wanted. destruct (wanted_resolve []); [discriminate Hr..|reflexivity].
Defined.

Lemma wanted_work : unfolded_capped (H := toy_blake3) wanted = [(wanted_key, lit "s3://traces/" ++ wanted_key)].
Proof. vm_compute. reflexivity. Qed.

Lemma work_done_once_witness :
  unfolded_capped (H := toy_blake3) wanted = [(wanted_key, lit "s3://traces/" ++ wanted_key)] ∧
  ∃ r', wanted_resolve [wanted_marker] = Resolves r' ∧ Resolved.matched r' = Resolved.matched wanted ∧
    unfolded_capped (H := toy_blake3) r' = [].
Proof.
  split; [exact wanted_work|].
  destruct (work_done_once (B := @S3Backend example_client) (H := toy_blake3)
    (s3_list_all (C := one_page_client wanted_keys) 1) (s3_list_all (C := one_page_client []) 1)
    (s3_list_all (C := one_page_client [wanted_marker]) 1) (Some 8) wanted_agg wanted_keys [] [wanted_marker]
    wanted_scope None wanted wanted_sourced (one_page_lists_all _ _) (one_page_lists_all _ _)
    (list_subseteq_nil _) wanted_resolves) as (_ & _ & Hdone).
  destruct Hdone as (r' & Hr' & Hm & _ & Hw).
  - rewrite wanted_work. intros k a Hk Ha. apply list_elem_of_singleton in Hk. subst k.
    assert (a = wanted_marker) as ->.
    { apply (inj Some). rewrite <- Ha. vm_compute. reflexivity. }
    exact (list_elem_of_here wanted_marker []).
  - exists r'. split; [exact Hr'|]. split; [exact Hm|exact Hw].
Defined.
